(* ===== verification/_CoqProject ===== *)
-Q . S2P
Prelude.v
Go.v
SlugMap.v
Slug.v
Image.v
Registry.v
StagesStorage.v
RepoStorage.v
RepoStorageFacts.v
RepoStorageProps.v
RepoRecords.v
RepoMetadata.v
RepoExamples.v
GoMatch.v
Parallel.v
StorageManager.v
StageManager.v
AllowList.v
Cleanup.v
ManagerFacts.v
StageManagerFacts.v
CleanupProtect.v
CleanupFacts.v
CleanupProps.v
CleanupRecords.v
CleanupExamples.v
GitRefs.v
GitRefsProps.v
GitRefsExamples.v
GitScan.v
GitScanFacts.v
GitScanProps.v
GitScanExamples.v
CleanupGit.v
GoStd.v
WerfConfig.v
WerfConfigProps.v
WerfConfigGroups.v
Dockerfile.v
DockerfileProps.v
ImagesTree.v
ImagesTreeFacts.v
ImagesTreeProps.v
ImagesTreeOrder.v
PathMatcher.v
PathMatcherFacts.v
PathMatcherProps.v
LsTree.v
LsTreeProps.v
GitStatus.v
GitStatusProps.v
GitFiles.v
GitFilesProps.v
FileReader.v
FileReaderProps.v
GiterminismExamples.v
GiterminismConfig.v
GiterminismConfigProps.v
Imports.v
DiffParser.v
DiffParserFacts.v
DiffParserProps.v
GitMapping.v
Stages.v
StagesProps.v
ImageSpecs.v
ImageSpecsProps.v
Conveyor.v
StageCopies.v
BuildImage.v
BuildPhase.v
BuildFrames.v
BuildProps.v
BuildDigests.v
BuildPublish.v
BuildExamples.v
Float64.v
HostCleaning.v
HostCleaningProps.v
HostCleaningRuns.v
