(* ===== verification/Prelude.v ===== *)
(** * werf: the build of stages, their storage and its cleanup

    werf builds images in stages, keeps the stages and records about them as tags of one
    repository of a container registry, and cleans that repository up: it deletes what no
    policy keeps. This development is about what must not go wrong there: that a build finds
    the stages that are there and publishes no stage twice, that the names are valid, that what
    is recorded can be found again, and that a cleanup never deletes what it promises to keep.
    Paths below are relative to src/.

    ** The parts and the files

    - Prelude.v: notations, tactics, hint databases, lemmas on strings (module Str: byte
      strings with the operations of Go's package strings) and lists. Go.v: what every
      component uses of Go: error values as data with the format they were made with, results
      ([Ok], [Err], [Panic]), programs that thread a world ([prog]), loops, machine integers,
      decimal numbers; and the logic the proofs use: [wp] (returns and then), [wlp] (if it
      returns then), and [keeps] (whatever it returns, a relation between the world before and
      after). The class [Nondet] gives what the language leaves open: the order in which a map
      is iterated at every tick, and the schedule of concurrent workers; theorems hold for all
      its instances.
    - SlugMap.v, Slug.v: pkg/slug. Strings are bytes and are decoded as [range] does. The
      murmur hash and the tests of k8s.io/apimachinery are parameters.
    - Image.v: pkg/image, the ids of stages, image descriptions, the labels, the update of a
      config file. Registry.v: pkg/docker_registry/errors.go, and the interface of a registry as
      a class [DockerRegistry] with the laws [RegistryLaws] that its callers rely on and an
      instance in memory.
    - StagesStorage.v: the data of pkg/storage and its interface [Storage], a record of
      operations over a world; RepoStorage.v: pkg/storage/repo_stages_storage.go and tags.go
      over any registry. RepoStorageFacts.v relates every operation to the view of the
      repository; RepoStorageProps.v, RepoRecords.v and RepoMetadata.v have the theorems;
      RepoExamples.v runs them on the registry in memory.
    - Parallel.v: pkg/util/parallel, tasks given to workers under any schedule: which worker takes
      the next task, and when the caller's context ends, the printer fails or workers are not
      created. A task runs as a whole.
    - StorageManager.v: pkg/storage/manager, the descriptions of stages through their caches,
      and the operations over all stages or records. A description is a Go pointer: a set of
      them is a map from pointers. The world of these programs ([Env]) is the storages' own
      world, the tick, the allocator, the cache of the final stages, and the caller's state.
    - StageManager.v: pkg/cleaning/stage_manager, which stages are protected and why, and what
      is recorded for images and tags. AllowList.v: pkg/cleaning/allow_list, the images that a
      cluster uses, over the class [KubeAPI]. Cleanup.v: pkg/cleaning (cleanup.go, purge.go,
      keep_list.go), the whole run. It sees the git history through the class [GitHistory].
    - GitRefs.v: pkg/config/meta_cleanup.go and reference_to_scan.go, the references that the
      policies select; GitScan.v: scanner.go and repo_with_cache.go, the scan of their history.
      go-git is the classes [GitRepository] and [LocalGit]; sort.Slice is [SortSlice].
      CleanupGit.v makes them an instance of [GitHistory] and composes the two.
    - DiffParser.v: pkg/true_git/diff_parser.go, the filter of the output of git diff, over any
      writer and any path matcher; with Clean and Join of path/filepath (GoStd.v).
    - GitMapping.v: pkg/build/stage/git_mapping.go, what a mapping of a git repository to an
      image says of commits: labels, checksums, patches. Stages.v: the files of pkg/build/stage
      for the choice among the stages of one digest, the dependencies and emptiness of stages,
      mounts. StagesProps.v has their theorems and instances. ImageSpecs.v: imageSpec of
      pkg/config and its stage, which changes the configuration of an image (ImageSpecsProps.v).
      Imports.v: the stage that imports files of other images, with the filters of rsync
      (pkg/build/import_server), and its theorems.
    - Conveyor.v: the state of a build (pkg/build/conveyor.go and the objects of
      pkg/build/stage, pkg/build/image, pkg/container_backend that it shares). Images of stages
      live in a heap, as stages share them by pointers. The stages are records of operations
      ([Stage], stage.Interface), and so are the container backend, the locks and what a
      storage does with images. StageCopies.v: the rest of pkg/storage/manager, where images
      are moved. BuildImage.v: pkg/build/image, base images. BuildPhase.v:
      pkg/build/build_phase.go and stages_iterator.go with the parts of the conveyor that run
      the phase.
    - BuildFrames.v: what programs of a build keep of the world and of the conveyor, given what
      the operations they call keep ([both], [StageReads], [StageWrites], [PhaseReads],
      [PhaseWrites]). BuildProps.v, BuildDigests.v and BuildPublish.v have the theorems,
      BuildExamples.v runs them with a storage in memory.
    - WerfConfig.v: pkg/config, the images of a werf.yaml, the validation of what they depend
      on, the choice of images by patterns, independent sets and the graph. GoMatch.v: the
      patterns of path.Match. Dockerfile.v: pkg/dockerfile over what buildkit parsed.
      ImagesTree.v: pkg/build/image, the images and stages that a configuration stands for.
      GoStd.v: the functions of the standard library that these parts use (sort,
      path/filepath, errors). WerfConfigGroups.v, ImagesTreeOrder.v and the files Props have the
      theorems.
    - HostCleaning.v: pkg/host_cleaning, the cleanup of a host by the last use of images, and
      its purge, over a class of container backends. Float64.v: pkg/volumeutils, with Go's
      float64 as the IEEE binary64 numbers of the Standard Library. HostCleaningRuns.v and
      HostCleaningProps.v have the theorems.
    - PathMatcher.v: pkg/path_matcher. LsTree.v: pkg/git_repo/repo_handle and
      pkg/true_git/ls_tree, over go-git as a class [GoGit]. GitStatus.v: pkg/true_git/status
      and what pkg/git_repo/local.go makes of it. GitFiles.v: pkg/git_repo/base.go, files of
      commits, links and walks, in a world that keeps the handles of commits. FileReader.v:
      pkg/giterminism_manager/file_reader, which reads every file of the configuration from the
      commit or from the directory, over a class [FileSystem]. GiterminismConfig.v: the
      configuration that says which, and pkg/giterminism_manager/inspector.
      GiterminismExamples.v runs them on a small repository.
    A file Facts has lemmas on the definitions, Props the properties; a file or module Examples has
    the concrete instances on which the properties are applied and run.

    ** What the theorems show

    - Nothing that is promised to stay is deleted (CleanupProps.v, CleanupGit.v). Each of these
      theorems is about an arbitrary relation R over the storages' world: if every call but the
      deletion of a stage keeps R, and so does the deletion of the other stages, then the run
      keeps R, whatever fails and whatever the order. The deletion of stages from the final
      repository, another storage that is cleaned by what the repository holds, is taken to keep
      R and is no part of these claims: it can lose the copy of a stage that is kept
      (CleanupExamples.v, a finding). So: the stages of the keep list, those
      built recently, those Kubernetes uses by id or custom tag, those recorded for a commit of
      a branch whose policy keeps all its images, and the ancestors of all these stay; a dry
      run deletes nothing.
    - The search for the relatives ends for any set of stages, cycles included, and its result
      is closed under parents (CleanupProtect.v). Which records a cleanup removes
      (CleanupRecords.v): exactly the commits that were not hit, imports and custom tags that
      nothing uses; which errors of a deletion end the run.
    - The selection of the references gives each the images policy of the last policy that
      selects it, a limit keeps exactly the references that are young enough and, or or, among the
      newest, and it never panics (GitRefsProps.v). The scan
      ends for every history, reaches only what is expected in the history of a reference, and
      misses nothing that an unlimited branch leads to, in spite of the commits at which
      earlier scans stop it (GitScanProps.v). The cache of commits is transparent.
    - The images a cluster uses are all found (AllowList.v).
    - The repository storage lists exactly the stages there are, a rejected stage is not
      offered, a deleted one is gone, and every record that is put is found again until it is
      removed (RepoStorageProps.v, RepoRecords.v, RepoMetadata.v).
    - Under every schedule parallel tasks run at most once each, and all of them where nothing
      disturbs the run; the error of a run comes from a task or from what disturbed it
      (Parallel.v). Slugs have the promised
      form and length and are stable (Slug.v).
    - The filter of diffs writes, for the output of git on paths without a space or a quote, the diffs of the matched files with
      their paths rewritten, in whatever chunks the output comes; and for any bytes it reports
      only paths that were matched, each once (DiffParserProps.v).
    - Among the stages of a digest the oldest is chosen that was built from ancestors of the
      current commits, and none only if there is none (StagesProps.v); the labels of commits
      are read back; where two different stages have the same digest or a label is read back
      wrongly, a theorem says so.
    - The configuration that an imageSpec writes has the labels and variables that it sets and
      of the others those that no pattern takes; labels that cleanup needs stay; its digest
      does not tell all imageSpecs apart (ImageSpecsProps.v).
    - A stage with imports is labelled with the checksums that its digest was made of, and
      preparing it never fails for want of a record; the filters of rsync for a glob are its
      readings, so that ** at its end excludes nothing (Imports.v).
    - The digests of the stages of an image are a chain of hashes of what the stages depend on,
      whatever was found, copied or built (BuildDigests.v). Processes that publish under the
      lock of a digest add at most one stage of the digest each, and only where none is there that
      they would take (BuildPublish.v). A build that
      requires its stages changes nothing; the assertions on the stages before never fail; the
      mutex of a digest is held while a stage is processed and given back in all cases but one
      (BuildProps.v).
    - A werf.yaml is accepted exactly if its names are unique, at most one image is final where one
      has no name, what its images depend on is there, and nothing depends on itself in the ways
      that are looked at; grouping it puts
      every image after what it depends on, and never ends where the base of an image depends
      on the image (WerfConfigProps.v, WerfConfigGroups.v). A Dockerfile becomes sets of images
      in the order of the references that the parser recorded (ImagesTreeProps.v), and the whole tree
      has all images on all their platforms, in the order of what they need (ImagesTreeOrder.v).
    - The cleanup of a host removes the images whose last use is the longest ago, only as long as
      the usage that it measures leaves bytes to free, and none whose lock is held; it ends (HostCleaningProps.v, HostCleaningRuns.v).
    - A matcher that matches a path goes through all directories above it, for all matchers
      made of globs with plain elements and ** (PathMatcherProps.v), and so listing a commit
      finds each file that is matched and no other (LsTreeProps.v). What git status prints is
      read back, and a work tree is valid for a matcher exactly if nothing that the matcher
      takes has changed (GitStatusProps.v). A path of a commit is resolved to an entry that is
      no link, through links whose targets all were checked; a cycle of links is an error, and
      a walk through a link to a directory above it never ends (GitFilesProps.v). Together:
      what giterminism does not accept is read as the commit has it and, outside of the
      development mode, is unchanged in the work tree, and what it accepts is reached through accepted links only
      (FileReaderProps.v); its own configuration is the one of the commit, and what no pattern
      of it takes is not accepted (GiterminismConfigProps.v).
    Some theorems state where the code does not do what it means to; the manifest lists them
    as findings.

    ** Bounds and fuel

    Machine integers are Z with the range of the type where the source parses or converts
    them ([in_int64], [wrap64]); durations and times are nanoseconds. The search for the
    relatives runs with fuel one more than the size of the set: every pass handles a new stage
    (CleanupProtect.v, [protectRelatives_closed] proves that it is enough). The scan of a
    history runs with fuel two more than the number of commits: every pass but the last marks a
    new one ([scan_returns]).
    Trees are walked with the depth of the tree as fuel ([LsTree_lists] says that it is enough),
    links of a commit with the limit of 1000 levels that the code has itself; the walks over
    links to directories, which the code does not bound, take fuel and panic where it is used
    up, and [walk_of_cycle_hangs] shows that no fuel is enough on a cycle. The queue of a
    Dockerfile and the grouping of images are the same ([dockerfile_hangs], [grouping_hangs]),
    with theorems that enough fuel gives the result where nothing is its own base.

    ** Not modelled

    Printing and logging; the timing of workers within a task; the registry, the
    cluster, git and the container backends, which are services or third-party code and appear
    as classes or records of operations with the behaviour the code relies on. Of the rest of
    the repository
    these are left out: the instructions that the other stages hand to builders, the stages of
    Dockerfiles (pkg/build/stage/instruction, pkg/build/builder), the report of a build, the
    container backends, the parsing of werf.yaml and its templates (the rest of pkg/config),
    includes, patches, archives, work trees and the other calls of git (pkg/true_git but for
    the filter of diffs, ls_tree and status; the rest of pkg/git_repo), the local storage, the deployment and the command line. All
    of these are calls of third-party code and of external programs, or glue around them, or
    were left out for their size; what the modelled parts use of them is a parameter. *)
From Stdlib Require Export Ascii.
From stdpp Require Export base gmap strings list fin_maps sorting.
From Stdlib Require Export ZArith Lia.

#[global] Open Scope string_scope.
#[global] Open Scope Z_scope.
#[global] Open Scope nat_scope.
#[global] Open Scope list_scope.

#[global] Arguments String.append !_ _ : simpl nomatch.

(** * Automation shared by the components *)

Create HintDb werf discriminated.
Create Rewrite HintDb str.

(** [case_bool b] splits a goal or hypothesis on the boolean test [b]. *)
Ltac case_bool_in_goal :=
  match goal with
  | |- context [if ?b then _ else _] => destruct b eqn:?
  end.

(** [split_bools] turns boolean conjunctions and disjunctions of hypotheses
    into propositions. *)
Ltac split_bools :=
  repeat match goal with
  | H : (_ && _) = true |- _ => apply andb_true_iff in H as [? ?]
  | H : (_ && _)%bool = true |- _ => apply andb_true_iff in H as [? ?]
  | H : (_ || _)%bool = false |- _ => apply orb_false_iff in H as [? ?]
  | H : negb _ = true |- _ => apply negb_true_iff in H
  | H : negb _ = false |- _ => apply negb_false_iff in H
  | H : bool_decide _ = true |- _ => apply bool_decide_eq_true in H
  | H : bool_decide _ = false |- _ => apply bool_decide_eq_false in H
  end.

(** * Lists *)

Lemma tc_last {A} (R : relation A) x y : tc R x y -> R x y \/ exists m, tc R x m /\ R m y.
Proof.
  induction 1 as [x y H|x z y Hxz _ [H|(m & Hm & H)]]; [by left| |]; right.
  - exists z. split; [by apply tc_once|done].
  - exists m. split; [by eapply tc_l|done].
Qed.

(** A well-founded element is on no cycle. *)
Lemma Acc_not_tc {A} (R : relation A) x : Acc R x -> ~ tc R x x.
Proof.
  induction 1 as [x _ IH]. intros [H|(m & Hm & H)]%tc_last; [by apply (IH x H), tc_once|].
  apply (IH m H). by eapply tc_l.
Qed.

Lemma list_filter_all {A} (P : A -> Prop) `{!forall x, Decision (P x)} (l : list A) :
  (forall x, x ∈ l -> P x) -> filter P l = l.
Proof.
  induction l as [|x l IH]; intros HP; [done|]. rewrite filter_cons_True by (apply HP; by left).
  f_equal. apply IH. intros y Hy. apply HP. by right.
Qed.

Lemma size_list_to_set_le `{Countable A} (l : list A) : size (list_to_set l : gset A) <= length l.
Proof.
  induction l as [|x l IH]; simpl; [done|]. rewrite size_union_alt, size_singleton.
  assert (size (list_to_set l ∖ {[x]} : gset A) <= size (list_to_set l : gset A)); [|lia].
  apply subseteq_size. set_solver.
Qed.

(** A loop over the entries of a map that updates, for each entry, its own key. *)
Section keywise.
Context `{Countable K} {A B : Type}.
Variables (f : gmap K B -> K * A -> gmap K B) (g : A -> option B -> option B).
Hypothesis f_own : forall m e, f m e !! e.1 = g e.2 (m !! e.1).
Hypothesis f_other : forall m e k, e.1 <> k -> f m e !! k = m !! k.

Lemma foldl_keywise_notin l m k : k ∉ l.*1 -> foldl f m l !! k = m !! k.
Proof using f_other.
  revert m. induction l as [|e l IH]; intros m Hk; [done|]. simpl in *.
  apply not_elem_of_cons in Hk as [Hne Hk]. rewrite IH by done. by apply f_other.
Qed.

Lemma foldl_keywise_in l m k a : NoDup l.*1 -> (k, a) ∈ l -> foldl f m l !! k = g a (m !! k).
Proof using f_own f_other.
  revert m. induction l as [|e l IH]; intros m Hn Hk; [by apply elem_of_nil in Hk|].
  simpl in *. apply NoDup_cons in Hn as [Hnotin Hn]. apply elem_of_cons in Hk as [<-|Hk].
  - rewrite foldl_keywise_notin by done. apply (f_own m (k, a)).
  - rewrite IH by done. f_equal. apply f_other. intros E. apply Hnotin. rewrite E.
    apply list_elem_of_fmap. by exists (k, a).
Qed.

Lemma foldl_keywise (l : gmap K A) m k :
  foldl f m (map_to_list l) !! k = match l !! k with Some a => g a (m !! k) | None => m !! k end.
Proof using f_own f_other.
  destruct (l !! k) as [a|] eqn:E.
  - apply foldl_keywise_in; [apply NoDup_fst_map_to_list|]. by apply elem_of_map_to_list.
  - apply foldl_keywise_notin. intros Hin. apply list_elem_of_fmap in Hin as ([k' a] & -> & Hin).
    apply elem_of_map_to_list in Hin. simpl in E. congruence.
Qed.
End keywise.

(** * Go strings: sequences of bytes *)

Module Str.

Definition len (s : string) : nat := String.length s.

Fixpoint drop (n : nat) (s : string) : string :=
  match n, s with
  | S n', String _ s' => drop n' s'
  | _, _ => s
  end.

Fixpoint take (n : nat) (s : string) : string :=
  match n, s with
  | S n', String c s' => String c (take n' s')
  | _, _ => ""
  end.

(** [strings.HasPrefix s p]; the prefix comes first here. *)
Definition HasPrefix (s p : string) : bool := String.prefix p s.

Definition HasSuffix (s p : string) : bool :=
  (len p <=? len s) && String.eqb (drop (len s - len p) s) p.

Definition TrimPrefix (s p : string) : string :=
  if HasPrefix s p then drop (len p) s else s.

Definition TrimSuffix (s p : string) : string :=
  if HasSuffix s p then take (len s - len p) s else s.

(** The text before and after the first occurrence of [sep]. *)
Fixpoint cut (sep s : string) : option (string * string) :=
  if String.prefix sep s then Some ("", drop (len sep) s)
  else match s with
       | "" => None
       | String c s' =>
           match cut sep s' with
           | Some (a, b) => Some (String c a, b)
           | None => None
           end
       end.

Definition Contains (s sub : string) : bool :=
  match cut sub s with Some _ => true | None => false end.

(** [strings.SplitN s sep n] for [n > 0]. *)
Fixpoint SplitN (s sep : string) (n : nat) : list string :=
  match n with
  | 0 => []
  | 1 => [s]
  | S n' => match cut sep s with
            | None => [s]
            | Some (a, b) => a :: SplitN b sep n'
            end
  end.

(** [strings.Split s sep] for a non-empty separator: it cannot occur more often
    than there are bytes. *)
Definition Split (s sep : string) : list string := SplitN s sep (S (len s)).

(** [strings.Count s sub] for a non-empty [sub]. *)
Definition Count (s sub : string) : nat := length (Split s sub) - 1.

(** [strings.Replace s old new n] for [n >= 0] and a non-empty [old]. *)
Fixpoint Replace (s old new : string) (n : nat) : string :=
  match n with
  | 0 => s
  | S n' => match cut old s with
            | None => s
            | Some (a, b) => a +:+ new +:+ Replace b old new n'
            end
  end.

Definition ReplaceAll (s old new : string) : string := Replace s old new (len s).

Fixpoint Join (l : list string) (sep : string) : string :=
  match l with
  | [] => ""
  | [x] => x
  | x :: l' => x +:+ sep +:+ Join l' sep
  end.

(** ** Lemmas on strings *)

Lemma app_nil_r s : s +:+ "" = s.
Proof. induction s as [|c s IH]; simpl; [done|]. by rewrite IH. Qed.

Lemma app_assoc a b c : a +:+ (b +:+ c) = (a +:+ b) +:+ c.
Proof. induction a as [|x a IH]; simpl; [done|]. by rewrite IH. Qed.

Lemma len_app a b : len (a +:+ b) = len a + len b.
Proof. unfold len. induction a as [|x a IH]; simpl; [done|]. by rewrite IH. Qed.

Lemma drop_app a b : drop (len a) (a +:+ b) = b.
Proof. induction a as [|x a IH]; simpl; [by destruct b|done]. Qed.

Lemma take_app a b : take (len a) (a +:+ b) = a.
Proof. induction a as [|x a IH]; simpl; [by destruct b|]. by rewrite IH. Qed.

Lemma take_drop n s : take n s +:+ drop n s = s.
Proof.
  revert s. induction n as [|n IH]; intros [|c s]; simpl; try done. by rewrite IH.
Qed.

Lemma len_take n s : len (take n s) = Nat.min n (len s).
Proof.
  unfold len. revert s. induction n as [|n IH]; intros [|c s]; simpl; try done.
  by rewrite IH.
Qed.

Lemma len_drop n s : len (drop n s) = len s - n.
Proof.
  unfold len. revert s. induction n as [|n IH]; intros [|c s]; simpl; try done.
Qed.

Lemma prefix_app p s : String.prefix p (p +:+ s) = true.
Proof.
  induction p as [|c p IH]; simpl; [by destruct s|].
  destruct (Ascii.ascii_dec c c); done.
Qed.

Lemma prefix_spec p s : String.prefix p s = true <-> exists t, s = p +:+ t.
Proof.
  split.
  - revert s. induction p as [|c p IH]; intros [|d s] H; simpl in *; try done; eauto.
    destruct (Ascii.ascii_dec c d) as [->|]; [|done].
    destruct (IH _ H) as [t ->]. by exists t.
  - intros [t ->]. apply prefix_app.
Qed.

Lemma HasPrefix_spec s p : HasPrefix s p = true <-> exists t, s = p +:+ t.
Proof. apply prefix_spec. Qed.

Lemma HasPrefix_app p s : HasPrefix (p +:+ s) p = true.
Proof. apply prefix_app. Qed.

Lemma TrimPrefix_app p s : TrimPrefix (p +:+ s) p = s.
Proof. unfold TrimPrefix. by rewrite HasPrefix_app, drop_app. Qed.

Lemma drop_len_app a b n : n = len a -> drop n (a +:+ b) = b.
Proof. intros ->. apply drop_app. Qed.

Lemma HasSuffix_spec s p : HasSuffix s p = true <-> exists t, s = t +:+ p.
Proof.
  unfold HasSuffix. split.
  - intros [Hl He]%andb_true_iff. apply String.eqb_eq in He.
    exists (take (len s - len p) s). by rewrite <-He at 2; rewrite take_drop.
  - intros [t ->]. rewrite andb_true_iff, String.eqb_eq, Nat.leb_le, len_app.
    split; [lia|]. apply drop_len_app. lia.
Qed.

Lemma HasSuffix_app t p : HasSuffix (t +:+ p) p = true.
Proof. apply HasSuffix_spec. by exists t. Qed.

Lemma TrimSuffix_app t p : TrimSuffix (t +:+ p) p = t.
Proof.
  unfold TrimSuffix. rewrite HasSuffix_app, len_app.
  replace (len t + len p - len p) with (len t) by lia. apply take_app.
Qed.

Lemma cut_Some sep s a b : cut sep s = Some (a, b) -> s = a +:+ sep +:+ b.
Proof.
  revert a b. induction s as [|c s IH]; intros a b H; cbn [cut] in H.
  - destruct sep; [|done]. by inversion H.
  - destruct (String.prefix sep (String c s)) eqn:E.
    + apply prefix_spec in E as [t Et]. injection H as <- <-.
      simpl. by rewrite Et, drop_app.
    + destruct (cut sep s) as [[a' b']|] eqn:E'; [|done].
      injection H as <- <-. simpl. by rewrite (IH a' b').
Qed.

(** A string contains [c]. *)
Fixpoint mem (c : Ascii.ascii) (s : string) : bool :=
  match s with
  | "" => false
  | String d s' => bool_decide (c = d) || mem c s'
  end.

Lemma mem_app c a b : mem c (a +:+ b) = mem c a || mem c b.
Proof. induction a as [|d a IH]; simpl; [done|]. by rewrite IH, orb_assoc. Qed.

(** Cutting at a one-byte separator that the first part does not contain. *)
Lemma cut_char (c : Ascii.ascii) a b :
  mem c a = false -> cut (String c "") (a +:+ String c b) = Some (a, b).
Proof.
  intros H. induction a as [|d a IH]; simpl in *.
  - destruct (Ascii.ascii_dec c c); [|done]. by destruct b.
  - apply orb_false_iff in H as [Hd Ha]. apply bool_decide_eq_false in Hd.
    destruct (Ascii.ascii_dec c d); [done|]. by rewrite IH.
Qed.

Lemma cut_char_None (c : Ascii.ascii) s : mem c s = false -> cut (String c "") s = None.
Proof.
  induction s as [|d s IH]; simpl; [done|]. intros [Hd Ha]%orb_false_iff.
  apply bool_decide_eq_false in Hd. destruct (Ascii.ascii_dec c d); [done|].
  by rewrite IH.
Qed.

Lemma SplitN_char c a b n :
  mem c a = false ->
  SplitN (a +:+ String c b) (String c "") (S (S n)) =
  a :: SplitN b (String c "") (S n).
Proof. intros H. cbn [SplitN]. by rewrite cut_char. Qed.

Lemma SplitN_none c a n :
  mem c a = false -> SplitN a (String c "") (S n) = [a].
Proof. intros H. destruct n; cbn [SplitN]; [done|]. by rewrite cut_char_None. Qed.

Lemma app_inv_l a b c : a +:+ b = a +:+ c -> b = c.
Proof. apply String.app_inj. Qed.

(** Every byte of a string satisfies a boolean test. *)
Fixpoint all (p : Ascii.ascii -> bool) (s : string) : bool :=
  match s with
  | "" => true
  | String c s' => p c && all p s'
  end.

Lemma all_app p a b : all p (a +:+ b) = all p a && all p b.
Proof. induction a as [|c a IH]; simpl; [done|]. by rewrite IH, andb_assoc. Qed.

Lemma all_mono (p q : Ascii.ascii -> bool) s :
  (forall c, p c = true -> q c = true) -> all p s = true -> all q s = true.
Proof.
  intros Hpq. induction s as [|c s IH]; simpl; [done|].
  intros [? ?]%andb_true_iff. rewrite andb_true_iff. auto.
Qed.

Lemma all_mem p c s : all p s = true -> p c = false -> mem c s = false.
Proof.
  induction s as [|d s IH]; simpl; [done|]. intros [Hd Hs]%andb_true_iff Hc.
  rewrite IH by done. case_bool_decide; [by subst; congruence|done].
Qed.

Lemma all_take p n s : all p s = true -> all p (take n s) = true.
Proof.
  revert s. induction n as [|n IH]; intros [|c s]; simpl; try done.
  intros [? ?]%andb_true_iff. rewrite andb_true_iff. auto.
Qed.

(** The bytes of a string in reverse. *)
Fixpoint rev (s : string) : string :=
  match s with
  | "" => ""
  | String c s' => rev s' +:+ String c ""
  end.

Lemma rev_app a b : rev (a +:+ b) = rev b +:+ rev a.
Proof.
  induction a as [|c a IH]; simpl; [by rewrite app_nil_r|]. by rewrite IH, app_assoc.
Qed.

Lemma rev_rev s : rev (rev s) = s.
Proof. induction s as [|c s IH]; simpl; [done|]. by rewrite rev_app, IH. Qed.

Lemma mem_rev c s : mem c (rev s) = mem c s.
Proof.
  induction s as [|d s IH]; [done|]. cbn [rev mem]. rewrite mem_app, IH. cbn [mem].
  rewrite orb_false_r. apply orb_comm.
Qed.

Lemma all_rev p s : all p (rev s) = all p s.
Proof.
  induction s as [|d s IH]; [done|]. cbn [rev all]. rewrite all_app, IH. cbn [all].
  rewrite andb_true_r. apply andb_comm.
Qed.

End Str.

#[export] Hint Rewrite Str.app_nil_r Str.len_app Str.drop_app Str.take_app
  Str.prefix_app Str.HasPrefix_app Str.TrimPrefix_app Str.HasSuffix_app
  Str.TrimSuffix_app Str.all_app Str.mem_app : str.
