(* ===== verification/Go.v ===== *)
(** The parts of the Go language and its standard library that every component
    uses: error values with their rendered text, results, programs that thread
    a world and may fail or panic, and decimal integers. *)
From S2P Require Import Prelude.
From Stdlib Require Import DecimalString DecimalZ DecimalFacts.

(** * Errors *)

(** An argument of [fmt.Errorf]: a string printed with %s, a string printed
    with %q, an integer printed with %d. *)
Inductive farg := FS (s : string) | FQ (s : string) | FD (z : Z).

(** [Errorf f args] is [fmt.Errorf] (or [errors.New]) without a wrapped error;
    [Wrapf f args e] has the wrapped error [e] in the place of its [%w]. *)
Inductive error :=
| Errorf (f : string) (args : list farg)
| Wrapf (f : string) (args : list farg) (cause : error).

#[export] Instance farg_eq_dec : EqDecision farg.
Proof. solve_decision. Defined.
#[export] Instance error_eq_dec : EqDecision error.
Proof. solve_decision. Defined.

(** [errors.Is e target]. *)
Fixpoint errors_Is (e target : error) : bool :=
  bool_decide (e = target) ||
  match e with Errorf _ _ => false | Wrapf _ _ c => errors_Is c target end.

(** * Integers in decimal *)

Definition itoa (z : Z) : string := NilZero.string_of_int (Z.to_int z).

Definition digit_of (c : Ascii.ascii) : option Z :=
  let n := Z.of_nat (Ascii.nat_of_ascii c) in
  if ((48 <=? n) && (n <=? 57))%Z then Some (n - 48)%Z else None.

Fixpoint digits_of (acc : Z) (s : string) : option Z :=
  match s with
  | "" => Some acc
  | String c s' =>
      match digit_of c with
      | Some d => digits_of (10 * acc + d)%Z s'
      | None => None
      end
  end.

Definition int64_min : Z := (- 2 ^ 63)%Z.
Definition int64_max : Z := (2 ^ 63 - 1)%Z.
Definition in_int64 (z : Z) : bool := ((int64_min <=? z) && (z <=? int64_max))%Z.

(** [strconv.ParseInt s 10 64]: an optional sign, at least one digit, in the
    range of int64. *)
Definition ParseInt (s : string) : option Z :=
  let unsigned t := match t with "" => None | _ => digits_of 0 t end in
  let v := match s with
           | String "-"%char t => Z.opp <$> unsigned t
           | String "+"%char t => unsigned t
           | _ => unsigned s
           end in
  match v with
  | Some z => if in_int64 z then Some z else None
  | None => None
  end.

(** [strconv.ParseInt s 10 64] with its error: "invalid syntax" where [s] is not
    a signed sequence of digits, "value out of range" where it is one that
    does not fit. *)
Definition ParseIntE (s : string) : Z + error :=
  match ParseInt s with
  | Some z => inl z
  | None =>
      let unsigned t := match t with "" => None | _ => digits_of 0 t end in
      let v := match s with
               | String "-"%char t => unsigned t
               | String "+"%char t => unsigned t
               | _ => unsigned s
               end in
      inr (Errorf "strconv.ParseInt: parsing %q: %s"
             [FQ s; FS (match v with Some _ => "value out of range"
                                | None => "invalid syntax" end)])
  end.

(** Arithmetic on int64 wraps around. *)
Definition wrap64 (z : Z) : Z := ((z + 2 ^ 63) mod 2 ^ 64 - 2 ^ 63)%Z.

Lemma wrap64_id z : in_int64 z = true -> wrap64 z = z.
Proof.
  unfold in_int64, int64_min, int64_max, wrap64. intros H.
  rewrite andb_true_iff, !Z.leb_le in H. rewrite Z.mod_small; lia.
Qed.

Lemma wrap64_in z : in_int64 (wrap64 z) = true.
Proof.
  unfold in_int64, int64_min, int64_max, wrap64.
  pose proof (Z.mod_pos_bound (z + 2 ^ 63) (2 ^ 64) ltac:(lia)).
  rewrite andb_true_iff, !Z.leb_le. lia.
Qed.

(** * Rendering an error's text *)

(** [strconv.Quote], whose table of printable runes the text of an error does
    not depend on in any test the program makes, is a parameter of the
    functions that render errors. *)
Class GoQuote := Quote : string -> string.

(** Substitutes the arguments for the verbs of a format, in order. *)
Fixpoint render `{GoQuote} (f : string) (args : list farg) (cause : string) : string :=
  match f with
  | "" => ""
  | String "%"%char (String v f') =>
      if bool_decide (v = "w"%char) then cause +:+ render f' args cause
      else match args with
           | FS s :: args' => s +:+ render f' args' cause
           | FQ s :: args' => Quote s +:+ render f' args' cause
           | FD z :: args' => itoa z +:+ render f' args' cause
           | [] => String "%" (String v (render f' [] cause))
           end
  | String c f' => String c (render f' args cause)
  end.

(** [err.Error()]. *)
Fixpoint err_text `{GoQuote} (e : error) : string :=
  match e with
  | Errorf f args => render f args ""
  | Wrapf f args c => render f args (err_text c)
  end.

(** * Results and programs *)

(** What a Go call returns: a value, an error, or a panic. *)
Inductive res (A : Type) :=
| Ok (a : A)
| Err (e : error)
| Panic (msg : string).
Arguments Ok {A} a.
Arguments Err {A} e.
Arguments Panic {A} msg.

#[export] Instance res_ret : MRet res := fun A a => Ok a.
#[export] Instance res_bind : MBind res := fun A B f m =>
  match m with Ok a => f a | Err e => Err e | Panic p => Panic p end.

(** A program over a world [W]: it returns a result and the world it leaves,
    whatever the result is. *)
Definition prog (W A : Type) : Type := W -> res A * W.

#[export] Instance prog_ret W : MRet (prog W) := fun A a w => (Ok a, w).
#[export] Instance prog_bind W : MBind (prog W) := fun A B f m w =>
  match m w with
  | (Ok a, w') => f a w'
  | (Err e, w') => (Err e, w')
  | (Panic p, w') => (Panic p, w')
  end.

Definition fail {W A} (e : error) : prog W A := fun w => (Err e, w).
Definition panic {W A} (msg : string) : prog W A := fun w => (Panic msg, w).
Definition lift {W A} (r : res A) : prog W A := fun w => (r, w).

(** [x, err := m], with the error as a value for the caller to test. *)
Definition try {W A} (m : prog W A) : prog W (A + error) := fun w =>
  match m w with
  | (Ok a, w') => (Ok (inl a), w')
  | (Err e, w') => (Ok (inr e), w')
  | (Panic p, w') => (Panic p, w')
  end.

(** [if err != nil { return fmt.Errorf(f, args..., err) }]. *)
Definition wrap {W A} (f : string) (args : list farg) (m : prog W A) : prog W A := fun w =>
  match m w with
  | (Err e, w') => (Err (Wrapf f args e), w')
  | r => r
  end.

(** A loop over a slice whose body may return early with an error. *)
Fixpoint for_each {W A} (l : list A) (body : A -> prog W unit) : prog W unit :=
  match l with
  | [] => mret tt
  | x :: l' => body x ;; for_each l' body
  end.

(** A loop over a slice that threads the variables it assigns. *)
Fixpoint for_fold {W A B} (l : list A) (b : B) (body : B -> A -> prog W B) : prog W B :=
  match l with
  | [] => mret b
  | x :: l' => b' ← body b x; for_fold l' b' body
  end.

(** What befalls tasks that run in parallel: a worker comes to its next task, and sees or does
    not see that its context is done; the context of the caller ends, with this error; the
    printer of the workers' logs fails. *)
Inductive parallel_event :=
| Turn (worker : nat) (sees : bool)
| ContextEnds (e : error)
| PrinterFails (e : error).

(** The events in their order; the worker that cannot be created or given a docker context,
    with the error that is returned then; and the text of the error of the second print. *)
Record parallel_schedule := mkSchedule {
  events : list parallel_event;
  not_created : option (nat * error);
  print_again : option string;
}.

(** One worker after the other, undisturbed. *)
Definition undisturbed : parallel_schedule := mkSchedule [] None None.

(** Map order and schedules: an arbitrary choice each time one is needed. *)
Class Nondet := {
  shuffle : forall {A : Type}, nat -> list A -> list A;
  shuffle_perm : forall {A : Type} n (l : list A), shuffle n l ≡ₚ l;
  schedule : nat -> parallel_schedule;
}.

(** Iteration in the order of insertion, one worker after the other. *)
Definition in_order : Nondet :=
  {| shuffle A n l := l; shuffle_perm A n l := Permutation_refl l; schedule n := undisturbed |}.

(** [sort.Slice]: some order in which no element comes after a smaller one; which one, where
    several are possible, is not specified. *)
Class SortSlice := {
  sort_Slice : forall {A : Type}, (A -> A -> bool) -> list A -> list A;
  sort_perm : forall {A} (less : A -> A -> bool) l, sort_Slice less l ≡ₚ l;
  sort_sorted : forall {A} (less : A -> A -> bool) l,
    (forall x y, less x y = true -> less y x = false) ->
    (forall x y z, less y x = false -> less z y = false -> less z x = false) ->
    StronglySorted (fun x y => less y x = false) (sort_Slice less l);
}.

(** ** Reasoning about programs *)

Section prog_facts.
Context {W : Type}.

Lemma bind_Ok {A B} (m : prog W A) (f : A -> prog W B) w b w' :
  (m ≫= f) w = (Ok b, w') <->
  exists a w1, m w = (Ok a, w1) /\ f a w1 = (Ok b, w').
Proof.
  unfold mbind, prog_bind. split.
  - destruct (m w) as [[a|e|p] w1] eqn:E; intros H; try done. eauto.
  - intros (a & w1 & -> & H). done.
Qed.

Lemma wrap_Ok {A} f args (m : prog W A) w a w' :
  wrap f args m w = (Ok a, w') <-> m w = (Ok a, w').
Proof. unfold wrap. destruct (m w) as [[]]; naive_solver. Qed.

Lemma try_Ok {A} (m : prog W A) w r w' :
  try m w = (Ok r, w') <->
  match r with
  | inl a => m w = (Ok a, w')
  | inr e => m w = (Err e, w')
  end.
Proof. unfold try. destruct (m w) as [[]], r; naive_solver. Qed.

(** The relation between the worlds before and after a program that always
    holds, whatever the program returns. *)
Definition keeps {A} (R : W -> W -> Prop) (m : prog W A) : Prop :=
  forall w, R w (m w).2.

Context (R : W -> W -> Prop) `{!PreOrder R}.

Lemma keeps_ret {A} (a : A) : keeps R (mret a).
Proof. intros w. simpl. reflexivity. Qed.

Lemma keeps_fail {A} e : keeps R (fail (A:=A) e).
Proof. intros w. simpl. reflexivity. Qed.

Lemma keeps_panic {A} e : keeps R (panic (A:=A) e).
Proof. intros w. simpl. reflexivity. Qed.

Lemma keeps_lift {A} (r : res A) : keeps R (lift r).
Proof. intros w. simpl. reflexivity. Qed.

Lemma keeps_bind {A B} (m : prog W A) (f : A -> prog W B) :
  keeps R m -> (forall a, keeps R (f a)) -> keeps R (m ≫= f).
Proof.
  intros Hm Hf w. unfold mbind, prog_bind. specialize (Hm w).
  destruct (m w) as [[a|e|p] w1]; simpl in *; [|done..].
  etrans; [done|apply Hf].
Qed.

Lemma keeps_bind_Ok {A B} (m : prog W A) (f : A -> prog W B) :
  keeps R m -> (forall a w w', m w = (Ok a, w') -> keeps R (f a)) -> keeps R (m ≫= f).
Proof.
  intros Hm Hf w. unfold mbind, prog_bind. specialize (Hm w).
  destruct (m w) as [[a|e|p] w1] eqn:E; simpl in *; [|done..].
  etrans; [done|eapply Hf, E].
Qed.

Lemma keeps_try {A} (m : prog W A) : keeps R m -> keeps R (try m).
Proof. intros Hm w. specialize (Hm w). unfold try. by destruct (m w) as [[]]. Qed.

Lemma keeps_wrap {A} f args (m : prog W A) : keeps R m -> keeps R (wrap f args m).
Proof. intros Hm w. specialize (Hm w). unfold wrap. by destruct (m w) as [[]]. Qed.

Lemma keeps_for_each {A} (l : list A) (body : A -> prog W unit) :
  (forall x, x ∈ l -> keeps R (body x)) -> keeps R (for_each l body).
Proof.
  induction l as [|x l IH]; intros H; simpl; [apply keeps_ret|].
  apply keeps_bind; [apply H; set_solver|intros ?; apply IH; set_solver].
Qed.

Lemma keeps_for_fold {A B} (l : list A) (b : B) (body : B -> A -> prog W B) :
  (forall b x, x ∈ l -> keeps R (body b x)) -> keeps R (for_fold l b body).
Proof.
  revert b. induction l as [|x l IH]; intros b H; simpl; [apply keeps_ret|].
  apply keeps_bind; [apply H; set_solver|intros ?; apply IH; set_solver].
Qed.
End prog_facts.

#[export] Hint Resolve keeps_ret keeps_fail keeps_panic keeps_lift keeps_bind
  keeps_try keeps_wrap keeps_for_each keeps_for_fold : werf.

(** Proves that a program keeps a relation from what its parts keep. *)
Ltac keeps_step :=
  match goal with
  | |- keeps _ (_ ≫= _) => apply keeps_bind; [typeclasses eauto| |intros ?]
  | |- keeps _ (for_each _ _) => apply keeps_for_each; [typeclasses eauto|intros ? ?]
  | |- keeps _ (for_fold _ _ _) => apply keeps_for_fold; [typeclasses eauto|intros ? ? ?]
  | |- keeps _ (wrap _ _ _) => apply keeps_wrap
  | |- keeps _ (try _) => apply keeps_try
  | |- keeps _ (if ?b then _ else _) => destruct b eqn:?
  | |- keeps _ (match ?x with _ => _ end) => destruct x eqn:?
  end.
Ltac keeps_go := repeat first [solve [auto with werf] | keeps_step].

(** Steps a hypothesis that a program returned a value through its binds. *)
Ltac step_ok :=
  repeat match goal with
  | H : (_ ≫= _) _ = (Ok _, _) |- _ => apply bind_Ok in H as (? & ? & ? & ?)
  | H : wrap _ _ _ _ = (Ok _, _) |- _ => apply wrap_Ok in H
  | H : mret _ _ = (Ok _, _) |- _ => unfold mret, prog_ret in H; simplify_eq
  | H : fail _ _ = (Ok _, _) |- _ => discriminate H
  | H : panic _ _ = (Ok _, _) |- _ => discriminate H
  end.

(** ** Total correctness *)

(** [wp m w Q]: the program [m] returns a value from the world [w], and [Q] holds
    of it and the world it leaves. *)
Definition wp {W A} (m : prog W A) (w : W) (Q : A -> W -> Prop) : Prop :=
  match m w with (Ok a, w') => Q a w' | _ => False end.

(** [wlp m w Q]: where [m] returns a value, [Q] holds. *)
Definition wlp {W A} (m : prog W A) (w : W) (Q : A -> W -> Prop) : Prop :=
  match m w with (Ok a, w') => Q a w' | _ => True end.

Section wp.
Context {W : Type}.

Lemma wp_alt {A} (m : prog W A) w Q :
  wp m w Q <-> exists a w', m w = (Ok a, w') /\ Q a w'.
Proof. unfold wp. destruct (m w) as [[]]; naive_solver. Qed.

Lemma wlp_alt {A} (m : prog W A) w Q :
  wlp m w Q <-> forall a w', m w = (Ok a, w') -> Q a w'.
Proof. unfold wlp. destruct (m w) as [[]]; naive_solver. Qed.

Lemma wp_wlp {A} (m : prog W A) w Q : wp m w Q -> wlp m w Q.
Proof. unfold wp, wlp. by destruct (m w) as [[]]. Qed.

Lemma wp_mono {A} (m : prog W A) w Q Q' :
  wp m w Q -> (forall a w', Q a w' -> Q' a w') -> wp m w Q'.
Proof. unfold wp. destruct (m w) as [[]]; naive_solver. Qed.

Lemma wlp_mono {A} (m : prog W A) w Q Q' :
  wlp m w Q -> (forall a w', Q a w' -> Q' a w') -> wlp m w Q'.
Proof. unfold wlp. destruct (m w) as [[]]; naive_solver. Qed.

Lemma wp_conj {A} (m : prog W A) w Q Q' :
  wp m w Q -> wlp m w Q' -> wp m w (fun a w' => Q a w' /\ Q' a w').
Proof. unfold wp, wlp. destruct (m w) as [[]]; naive_solver. Qed.

Lemma wlp_conj {A} (m : prog W A) w Q Q' :
  wlp m w Q -> wlp m w Q' -> wlp m w (fun a w' => Q a w' /\ Q' a w').
Proof. unfold wlp. destruct (m w) as [[]]; naive_solver. Qed.

Lemma wp_ret {A} (a : A) w (Q : A -> W -> Prop) : Q a w -> wp (mret a) w Q.
Proof. done. Qed.
Lemma wlp_ret {A} (a : A) w (Q : A -> W -> Prop) : Q a w -> wlp (mret a) w Q.
Proof. done. Qed.

Lemma wp_bind {A B} (m : prog W A) (f : A -> prog W B) w Q :
  wp m w (fun a w' => wp (f a) w' Q) -> wp (m ≫= f) w Q.
Proof. unfold wp, mbind, prog_bind. by destruct (m w) as [[]]. Qed.

Lemma wlp_bind {A B} (m : prog W A) (f : A -> prog W B) w Q :
  wlp m w (fun a w' => wlp (f a) w' Q) -> wlp (m ≫= f) w Q.
Proof. unfold wlp, mbind, prog_bind. by destruct (m w) as [[]]. Qed.

Lemma wp_wrap {A} f args (m : prog W A) w Q : wp m w Q -> wp (wrap f args m) w Q.
Proof. unfold wp, wrap. by destruct (m w) as [[]]. Qed.

Lemma wlp_wrap {A} f args (m : prog W A) w Q : wlp m w Q -> wlp (wrap f args m) w Q.
Proof. unfold wlp, wrap. by destruct (m w) as [[]]. Qed.

Lemma wp_lift {A} (r : res A) w (Q : A -> W -> Prop) a : r = Ok a -> Q a w -> wp (lift r) w Q.
Proof. by intros ->. Qed.

Lemma wlp_lift {A} (r : res A) w (Q : A -> W -> Prop) :
  (forall a, r = Ok a -> Q a w) -> wlp (lift r) w Q.
Proof. unfold wlp, lift. destruct r; naive_solver. Qed.

Lemma wlp_try {A} (m : prog W A) w (Q : A + error -> W -> Prop) :
  (forall a w', m w = (Ok a, w') -> Q (inl a) w') ->
  (forall e w', m w = (Err e, w') -> Q (inr e) w') -> wlp (try m) w Q.
Proof. unfold wlp, try. destruct (m w) as [[]]; naive_solver. Qed.

(** What a program keeps in every case it also keeps where it returns. *)
Lemma keeps_wlp {A} (R : W -> W -> Prop) (m : prog W A) w :
  keeps R m -> wlp m w (fun _ w' => R w w').
Proof. intros H. specialize (H w). unfold wlp. by destruct (m w) as [[]]. Qed.
End wp.

(** A loop with an invariant of what is done so far. *)
Lemma wlp_for_fold {W A S} (I : list A -> S -> W -> Prop) (l : list A) (body : S -> A -> prog W S) :
  (forall dn x s w, x ∈ l -> I dn s w ->
     wlp (body s x) w (fun s' w' => I (dn ++ [x]) s' w')) ->
  forall s w, I [] s w -> wlp (for_fold l s body) w (fun s' w' => I l s' w').
Proof.
  intros Hb.
  assert (forall rest dn s w, dn ++ rest = l -> I dn s w ->
    wlp (for_fold rest s body) w (fun s' w' => I l s' w')) as H; [|by intros; apply (H l [])].
  induction rest as [|x rest IH]; intros dn s w E HI; simpl.
  - rewrite List.app_nil_r in E. subst. by apply wlp_ret.
  - apply wlp_bind. eapply wlp_mono; [apply Hb; [rewrite <-E; set_solver|done]|]. simpl.
    intros s' w' HI'. apply (IH (dn ++ [x])); [by rewrite <-List.app_assoc|done].
Qed.

Lemma wp_for_fold {W A S} (I : list A -> S -> W -> Prop) (l : list A) (body : S -> A -> prog W S) :
  (forall dn x s w, x ∈ l -> I dn s w ->
     wp (body s x) w (fun s' w' => I (dn ++ [x]) s' w')) ->
  forall s w, I [] s w -> wp (for_fold l s body) w (fun s' w' => I l s' w').
Proof.
  intros Hb.
  assert (forall rest dn s w, dn ++ rest = l -> I dn s w ->
    wp (for_fold rest s body) w (fun s' w' => I l s' w')) as H; [|by intros; apply (H l [])].
  induction rest as [|x rest IH]; intros dn s w E HI; simpl.
  - rewrite List.app_nil_r in E. subst. by apply wp_ret.
  - apply wp_bind. eapply wp_mono; [apply Hb; [rewrite <-E; set_solver|done]|]. simpl.
    intros s' w' HI'. apply (IH (dn ++ [x])); [by rewrite <-List.app_assoc|done].
Qed.

Lemma wlp_for_each {W A} (I : list A -> W -> Prop) (l : list A) (body : A -> prog W unit) :
  (forall dn x w, x ∈ l -> I dn w -> wlp (body x) w (fun _ w' => I (dn ++ [x]) w')) ->
  forall w, I [] w -> wlp (for_each l body) w (fun _ w' => I l w').
Proof.
  intros Hb.
  assert (forall rest dn w, dn ++ rest = l -> I dn w ->
    wlp (for_each rest body) w (fun _ w' => I l w')) as H; [|by intros; apply (H l [])].
  induction rest as [|x rest IH]; intros dn w E HI; simpl.
  - rewrite List.app_nil_r in E. subst. by apply wlp_ret.
  - apply wlp_bind. eapply wlp_mono; [apply Hb; [rewrite <-E; set_solver|done]|]. simpl.
    intros _ w' HI'. apply (IH (dn ++ [x])); [by rewrite <-List.app_assoc|done].
Qed.

(** Steps a [wp] or [wlp] goal through the binds, wraps and returns. *)
Ltac wp_step :=
  repeat match goal with
  | |- wp (_ ≫= _) _ _ => apply wp_bind
  | |- wlp (_ ≫= _) _ _ => apply wlp_bind
  | |- wp (wrap _ _ _) _ _ => apply wp_wrap
  | |- wlp (wrap _ _ _) _ _ => apply wlp_wrap
  | |- wp (mret _) _ _ => apply wp_ret
  | |- wlp (mret _) _ _ => apply wlp_ret
  | |- wlp (fail _) _ _ => exact I
  | |- wlp (panic _) _ _ => exact I
  end.

(** ** Decimal round trip *)

Lemma digits_of_app acc s t :
  digits_of acc (s +:+ t) =
  match digits_of acc s with Some a => digits_of a t | None => None end.
Proof.
  revert acc. induction s as [|c s IH]; intros acc; simpl; [done|].
  destruct (digit_of c); [apply IH|done].
Qed.

Definition is_digit (c : Ascii.ascii) : bool := bool_decide (is_Some (digit_of c)).

Fixpoint uint_acc (acc : Z) (d : Decimal.uint) : Z :=
  match d with
  | Decimal.Nil => acc
  | Decimal.D0 d => uint_acc (10 * acc + 0) d
  | Decimal.D1 d => uint_acc (10 * acc + 1) d
  | Decimal.D2 d => uint_acc (10 * acc + 2) d
  | Decimal.D3 d => uint_acc (10 * acc + 3) d
  | Decimal.D4 d => uint_acc (10 * acc + 4) d
  | Decimal.D5 d => uint_acc (10 * acc + 5) d
  | Decimal.D6 d => uint_acc (10 * acc + 6) d
  | Decimal.D7 d => uint_acc (10 * acc + 7) d
  | Decimal.D8 d => uint_acc (10 * acc + 8) d
  | Decimal.D9 d => uint_acc (10 * acc + 9) d
  end%Z.

Lemma digits_of_uint d acc :
  digits_of acc (NilEmpty.string_of_uint d) = Some (uint_acc acc d).
Proof. revert acc. induction d; intros acc; simpl; auto. Qed.

Lemma digits_only d : Str.all is_digit (NilEmpty.string_of_uint d) = true.
Proof. induction d; simpl; auto. Qed.

Lemma uint_acc_pos d p : uint_acc (Zpos p) d = Zpos (Pos.of_uint_acc d p).
Proof. revert p. 
  induction d as [|d IH|d IH|d IH|d IH|d IH|d IH|d IH|d IH|d IH|d IH]; intros p;
    [done|..]; cbn [uint_acc Pos.of_uint_acc]; rewrite <-IH; f_equal; lia.
 Qed.

Lemma uint_acc_0 d : uint_acc 0 d = Z.of_N (Pos.of_uint d).
Proof.
  induction d as [|d IH|d IH|d IH|d IH|d IH|d IH|d IH|d IH|d IH|d IH];
    [done| exact IH| apply uint_acc_pos..].
Qed.

Lemma string_of_uint_zero d :
  exists c s, NilZero.string_of_uint d = String c s /\
    digits_of 0 (String c s) = Some (Z.of_N (Pos.of_uint d)) /\
    Str.all is_digit (String c s) = true.
Proof.
  assert (d = Decimal.Nil \/ d <> Decimal.Nil) as [->|Hd] by (destruct d; auto);
    [by eexists _, _|].
  assert (NilZero.string_of_uint d = NilEmpty.string_of_uint d) as -> by by destruct d.
  rewrite <-uint_acc_0, <-digits_of_uint. pose proof (digits_only d) as Ha.
  destruct (NilEmpty.string_of_uint d) as [|c s] eqn:E; [by destruct d|].
  by eexists _, _.
Qed.

Lemma ParseInt_digits s z :
  Str.all is_digit s = true -> s <> "" -> digits_of 0 s = Some z -> in_int64 z = true ->
  ParseInt s = Some z.
Proof.
  intros Hd Hne Hz Hr. unfold ParseInt. destruct s as [|c s]; [done|].
  cbn [Str.all] in Hd. apply andb_true_iff in Hd as [Hc _].
  assert (c <> "-"%char) by (intros ->; done).
  assert (c <> "+"%char) by (intros ->; done).
  destruct c as [[] [] [] [] [] [] [] []]; try done; rewrite Hz, Hr; done.
Qed.

(** A non-negative number is printed with digits only, at least one. *)
Lemma itoa_digits z : (0 <= z)%Z -> Str.all is_digit (itoa z) = true /\ itoa z <> "".
Proof.
  intros Hz. unfold itoa. destruct z as [|p|p]; [done| |lia].
  cbn [Z.to_int]. unfold NilZero.string_of_int.
  destruct (string_of_uint_zero (Pos.to_uint p)) as (c & s & -> & _ & H). done.
Qed.

Lemma ParseInt_itoa z : in_int64 z = true -> ParseInt (itoa z) = Some z.
Proof.
  intros Hr. unfold itoa. pose proof (DecimalZ.of_to z) as Hz.
  destruct (Z.to_int z) as [d|d]; unfold NilZero.string_of_int;
    destruct (string_of_uint_zero d) as (c & s & -> & Hd & Ha);
    cbn [Z.of_int] in Hz; unfold Z.of_uint in Hz.
  - apply ParseInt_digits; [done|done|by rewrite Hd, Hz|done].
  - unfold ParseInt. rewrite Hd. simpl. rewrite Hz. by rewrite Hr.
Qed.

Lemma itoa_inj z1 z2 : itoa z1 = itoa z2 -> z1 = z2.
Proof.
  unfold itoa. intros H. apply DecimalZ.to_int_inj.
  assert (NilZero.int_of_string (NilZero.string_of_int (Z.to_int z1)) =
          NilZero.int_of_string (NilZero.string_of_int (Z.to_int z2))) as E by by rewrite H.
  rewrite !NilZero.isi in E; [congruence|..];
    destruct z1, z2; try done; simpl; by apply DecimalPos.Unsigned.to_uint_nonnil || injection; apply DecimalPos.Unsigned.to_uint_nonnil.
Qed.
