(* ===== verification/Slug.v ===== *)
(** pkg/slug: names made safe for Docker tags, Kubernetes namespaces, Helm
    releases and project names. The module [Utf8] decodes a Go string into runes
    the way [for range] does; [Slug] is slug.go; the theorems give the language of
    slugs, idempotence and length bounds. The murmur hash and the DNS-1123 tests are
    third-party code and parameters. *)
From S2P Require Import Prelude Go SlugMap.

(** * Runes *)

Module Utf8.

Definition byte_in (lo hi : nat) (c : Ascii.ascii) : bool :=
  (lo <=? Ascii.nat_of_ascii c) && (Ascii.nat_of_ascii c <=? hi).

(** The text of U+FFFD, which a [range] loop gives for an invalid byte. *)
Definition rune_error : string :=
  String (Ascii.ascii_of_nat 239) (String (Ascii.ascii_of_nat 191)
    (String (Ascii.ascii_of_nat 189) "")).

(** The lower and upper bound of the second byte, by the first byte of a
    three-byte or four-byte sequence. *)
Definition second3 (c0 : Ascii.ascii) : nat * nat :=
  match Ascii.nat_of_ascii c0 with
  | 224 => (160, 191)
  | 237 => (128, 159)
  | _ => (128, 191)
  end.
Definition second4 (c0 : Ascii.ascii) : nat * nat :=
  match Ascii.nat_of_ascii c0 with
  | 240 => (144, 191)
  | 244 => (128, 143)
  | _ => (128, 191)
  end.

(** [for _, r := range s]: the text [string(r)] of every rune, in order. *)
Fixpoint runes (s : string) : list string :=
  match s with
  | "" => []
  | String c0 s0 =>
      if byte_in 0 127 c0 then String c0 "" :: runes s0
      else match s0 with
      | String c1 s1 =>
          if byte_in 194 223 c0 && byte_in 128 191 c1
          then String c0 (String c1 "") :: runes s1
          else match s1 with
          | String c2 s2 =>
              if byte_in 224 239 c0 && byte_in (second3 c0).1 (second3 c0).2 c1
                 && byte_in 128 191 c2
              then String c0 (String c1 (String c2 "")) :: runes s2
              else match s2 with
              | String c3 s3 =>
                  if byte_in 240 244 c0 && byte_in (second4 c0).1 (second4 c0).2 c1
                     && byte_in 128 191 c2 && byte_in 128 191 c3
                  then String c0 (String c1 (String c2 (String c3 ""))) :: runes s3
                  else rune_error :: runes s0
              | "" => rune_error :: runes s0
              end
          | "" => rune_error :: runes s0
          end
      | "" => rune_error :: runes s0
      end
  end.

(** [string(runes)]. *)
Definition concat (rs : list string) : string := foldr String.append "" rs.

(** The byte offset at which each rune starts: what [for ind := range s] gives. *)
Fixpoint offsets (at_ : nat) (rs : list string) : list nat :=
  match rs with
  | [] => []
  | r :: rs' => at_ :: offsets (at_ + Str.len r) rs'
  end.

Lemma concat_app a b : concat (a ++ b) = concat a +:+ concat b.
Proof.
  induction a as [|x a IH]; [done|].
  change (concat ((x :: a) ++ b)) with (x +:+ concat (a ++ b)).
  by rewrite IH, Str.app_assoc.
Qed.

Definition ascii_only : string -> bool := Str.all (byte_in 0 127).

Lemma runes_ascii s :
  ascii_only s = true -> runes s = (fun c => String c "") <$> String.list_ascii_of_string s.
Proof.
  induction s as [|c s IH]; [done|]. cbn [ascii_only Str.all]. unfold ascii_only.
  intros [Hc Hs]%andb_true_iff. cbn [runes]. rewrite Hc, IH by done. done.
Qed.

Lemma concat_singletons l : concat ((fun c => String c "") <$> l) = String.string_of_list_ascii l.
Proof. induction l as [|c l IH]; [done|]. cbn. by rewrite <-IH. Qed.

Lemma concat_runes_ascii s : ascii_only s = true -> concat (runes s) = s.
Proof. intros H. rewrite runes_ascii, concat_singletons by done. apply String.string_of_list_ascii_of_string. Qed.

End Utf8.

(** * slug.go *)

Module Slug.

Section slug.
(** [util.LegacyMurmurHash] of github.com/werf/common-go. *)
Variable LegacyMurmurHash : string -> string.
(** [validation.IsDNS1123Label] and [IsDNS1123Subdomain] of k8s.io/apimachinery:
    the list of complaints, empty for a valid name. *)
Variables IsDNS1123Label IsDNS1123Subdomain : string -> list string.

Definition slugSeparator : string := "-".

Definition DefaultSlugMaxSize : Z := 42.
Definition DockerTagMaxSize : Z := 128.
Definition projectNameMaxSize : Z := 50.
Definition kubernetesNamespaceMaxSize : Z := 63.
Definition helmReleaseMaxSize : Z := 53.

Definition zlen (s : string) : Z := Z.of_nat (Str.len s).

Definition is_lower (c : Ascii.ascii) : bool := Utf8.byte_in 97 122 c.
Definition is_upper (c : Ascii.ascii) : bool := Utf8.byte_in 65 90 c.
Definition is_num (c : Ascii.ascii) : bool := Utf8.byte_in 48 57 c.
Definition is_char (d c : Ascii.ascii) : bool := bool_decide (c = d).
Definition is_alnum (c : Ascii.ascii) : bool := is_lower c || is_num c.
(** The class [\w]. *)
Definition is_word (c : Ascii.ascii) : bool :=
  is_alnum c || is_upper c || is_char "_" c.

(** [^[\w][\w.-]*$] *)
Definition dockerTagRegexp (s : string) : bool :=
  match s with
  | "" => false
  | String c s' =>
      is_word c && Str.all (fun c => is_word c || is_char "." c || is_char "-" c) s'
  end.

Fixpoint last_char (d : Ascii.ascii) (s : string) : Ascii.ascii :=
  match s with
  | "" => d
  | String c s' => last_char c s'
  end.

(** [^(?:[a-z0-9]|[a-z0-9][a-z0-9-]*[a-z0-9])$] *)
Definition projectNameRegex (s : string) : bool :=
  match s with
  | "" => false
  | String c s' =>
      is_alnum c && Str.all (fun c => is_alnum c || is_char "-" c) s'
      && is_alnum (last_char c s')
  end.

(** [algorithm]: the text of every rune of [data] that the table knows. The source
    indexes the runes with the byte offsets of the loop, which panics when an offset
    is not a rune index. *)
Definition algorithm (data : string) : res string :=
  foldl (fun (acc : res string) ind =>
    result ← acc;
    match Utf8.runes data !! ind with
    | Some r => Ok (result +:+ default "" (mapping !! r))
    | None => Panic "index out of range"
    end) (Ok "") (Utf8.offsets 0 (Utf8.runes data)).

(** The variables of the loop of [slugify]. *)
Record slugify_state := SlugifyState {
  result : list string;
  isCursorDash : bool;
  isPreviousDash : bool;
  isResultEmpty : bool }.

(** One iteration of the loop of [slugify]. *)
Definition slugify_step (st : slugify_state) (r : string) : res slugify_state :=
  cursor ← algorithm r;
  if bool_decide (cursor = "") then Ok st
  else
    let cursor_dash := bool_decide (cursor = "-") in
    let isStartedDash := cursor_dash && isResultEmpty st in
    let isDoubledDash := cursor_dash && negb (isResultEmpty st) && isPreviousDash st in
    if isStartedDash || isDoubledDash then
      Ok {| result := result st; isCursorDash := cursor_dash;
            isPreviousDash := isPreviousDash st; isResultEmpty := isResultEmpty st |}
    else
      Ok {| result := result st ++ Utf8.runes cursor; isCursorDash := cursor_dash;
            isPreviousDash := cursor_dash; isResultEmpty := false |}.

Fixpoint slugify_loop (st : slugify_state) (rs : list string) : res slugify_state :=
  match rs with
  | [] => Ok st
  | r :: rs' => st' ← slugify_step st r; slugify_loop st' rs'
  end.

Definition slugify_init : slugify_state :=
  {| result := []; isCursorDash := false; isPreviousDash := false; isResultEmpty := true |}.

Definition slugify_run (data : string) : res string :=
  st ← slugify_loop slugify_init (Utf8.runes data);
  let isEndedDash := negb (isResultEmpty st) && isCursorDash st in
  if isEndedDash then
    match result st with
    | [] => Panic "slice bounds out of range"
    | _ => Ok (Utf8.concat (take (length (result st) - 1) (result st)))
    end
  else Ok (Utf8.concat (result st)).

(** [slugify]; [slugify_never_panics] below shows that the other results of
    [slugify_run] do not happen. *)
Definition slugify (data : string) : string :=
  match slugify_run data with Ok s => s | _ => "" end.

Definition Slug (data : string) : string := slugify data.

Definition cropSluggedData (data hash : string) (maxSize : Z) : res string :=
  let maxLength := (maxSize - zlen hash - zlen slugSeparator)%Z in
  let index := if (maxLength <? zlen data)%Z then maxLength else zlen data in
  if (index <? 0)%Z then Panic "slice bounds out of range"
  else Ok (Str.take (Z.to_nat index) data).

Definition slug (data : string) (maxSize : Z) : res string :=
  let sluggedData := slugify data in
  let murmurHash := LegacyMurmurHash data in
  slugParts ← (if bool_decide (sluggedData = "") then Ok []
               else
                 croppedSluggedData ← cropSluggedData sluggedData murmurHash maxSize;
                 if Str.HasPrefix croppedSluggedData "-"
                 then Ok [Str.take (Str.len croppedSluggedData - 1) croppedSluggedData]
                 else Ok [croppedSluggedData]);
  mret (Str.Join (slugParts ++ [murmurHash]) slugSeparator).

Definition shouldBeSlugged (data : string) (slugMaxSize : Z) : bool :=
  if bool_decide (data = "") then false
  else if bool_decide (slugify data = data) && (zlen data <=? slugMaxSize)%Z then false
  else if (slugMaxSize <? zlen data)%Z then true
  else if negb (Str.Count data "--" =? 1) then true
  else
    let formattedData := Str.Replace data "--" "-" 1 in
    if negb (bool_decide (slugify formattedData = formattedData)) then true
    else false.

Definition LimitedSlug (data : string) (slugMaxSize : Z) : res string :=
  if negb (shouldBeSlugged data slugMaxSize) then Ok data else slug data slugMaxSize.

Definition shouldNotBeSlugged (data : string) (regexp : string -> bool) (maxSize : Z) : bool :=
  bool_decide (data = "") || regexp data && (zlen data <=? maxSize)%Z.

Definition validateProject (name : string) : res unit :=
  if shouldNotBeSlugged name projectNameRegex projectNameMaxSize then Ok tt
  else Err (Errorf "project name should comply with regex %q and be maximum %d chars"
              [FQ "^(?:[a-z0-9]|[a-z0-9][a-z0-9-]*[a-z0-9])$"; FD projectNameMaxSize]).

Definition ValidateProject (name : string) : res unit := validateProject name.

Definition Project (name : string) : string :=
  match validateProject name with
  | Err _ =>
      let res := slugify name in
      if (projectNameMaxSize <? zlen res)%Z
      then Str.take (Z.to_nat projectNameMaxSize) res else res
  | _ => name
  end.

Definition IsValidDockerTag (name : string) : bool :=
  if shouldNotBeSlugged name dockerTagRegexp DockerTagMaxSize then true else false.

Definition ValidateDockerTag (name : string) : res unit :=
  if IsValidDockerTag name then Ok tt
  else Err (Errorf "%q is not a valid docker tag" [FQ name]).

Definition DockerTag (name : string) : res string :=
  match ValidateDockerTag name with
  | Err _ => slug name DockerTagMaxSize
  | _ => Ok name
  end.

Definition validateKubernetesNamespace (name : string) : res unit :=
  let errorMsgPrefix := "kubernetes namespace should be a valid DNS-1123 label" in
  if bool_decide (name = "") then Ok tt
  else if (kubernetesNamespaceMaxSize <? zlen name)%Z then
    Err (Errorf "%s: %q is %d chars long" [FS errorMsgPrefix; FQ name; FD (zlen name)])
  else match IsDNS1123Label name with
       | [] => Ok tt
       | msgs => Err (Errorf "%s: %s" [FS errorMsgPrefix; FS (Str.Join msgs ", ")])
       end.

Definition ValidateKubernetesNamespace (namespace : string) : res unit :=
  validateKubernetesNamespace namespace.

Definition KubernetesNamespace (name : string) : res string :=
  match validateKubernetesNamespace name with
  | Err _ => slug name kubernetesNamespaceMaxSize
  | _ => Ok name
  end.

Definition validateHelmRelease (name : string) : res unit :=
  let errorMsgPrefix :=
    "helm release name should be a valid DNS-1123 subdomain and be maximum 53 chars" in
  if bool_decide (name = "") then Ok tt
  else if (helmReleaseMaxSize <? zlen name)%Z then
    Err (Errorf "%s: %q is %d chars long" [FS errorMsgPrefix; FQ name; FD (zlen name)])
  else match IsDNS1123Subdomain name with
       | [] => Ok tt
       | msgs => Err (Errorf "%s: %s" [FS errorMsgPrefix; FS (Str.Join msgs ", ")])
       end.

Definition ValidateHelmRelease (name : string) : res unit := validateHelmRelease name.

Definition HelmRelease (name : string) : res string :=
  match validateHelmRelease name with
  | Err _ => slug name helmReleaseMaxSize
  | _ => Ok name
  end.

End slug.
End Slug.

(** * The language of slugs *)

Module SlugFacts.
Import Slug.

(** [dashes_ok p s]: [s] is made of lower-case letters, digits and single dashes;
    [p] says that a dash stands before it. *)
Fixpoint dashes_ok (p : bool) (s : string) : bool :=
  match s with
  | "" => true
  | String c s' =>
      if is_char "-" c then negb p && dashes_ok true s'
      else is_alnum c && dashes_ok false s'
  end.

(** Whether [s] ends in a dash; [p] stands for what precedes it. *)
Fixpoint ends_dash (p : bool) (s : string) : bool :=
  match s with
  | "" => p
  | String c s' => ends_dash (is_char "-" c) s'
  end.

(** A slug: words of letters and digits joined by single dashes. *)
Definition is_slug (s : string) : bool :=
  bool_decide (s = "") || dashes_ok true s && negb (ends_dash true s).

Lemma dashes_ok_app p a b :
  dashes_ok p (a +:+ b) = dashes_ok p a && dashes_ok (ends_dash p a) b.
Proof.
  revert p. induction a as [|c a IH]; intros p; simpl; [done|].
  destruct (is_char "-" c) eqn:E; rewrite IH, andb_assoc; done.
Qed.

Lemma ends_dash_app p a b : ends_dash p (a +:+ b) = ends_dash (ends_dash p a) b.
Proof. revert p. induction a as [|c a IH]; intros p; simpl; auto. Qed.

Lemma dashes_ok_weaken p s : dashes_ok true s = true -> dashes_ok p s = true.
Proof. destruct s as [|c s]; simpl; [done|]. by destruct (is_char "-" c). Qed.

Lemma dashes_ok_take p n s : dashes_ok p s = true -> dashes_ok p (Str.take n s) = true.
Proof.
  intros H. rewrite <-(Str.take_drop n s), dashes_ok_app in H.
  by apply andb_true_iff in H as [? _].
Qed.

Lemma dashes_ok_all p s :
  dashes_ok p s = true -> Str.all (fun c => is_alnum c || is_char "-" c) s = true.
Proof.
  revert p. induction s as [|c s IH]; intros p; simpl; [done|].
  destruct (is_char "-" c); intros [? ?]%andb_true_iff; rewrite andb_true_iff;
    split; eauto using orb_true_r; rewrite orb_false_r; done.
Qed.

Lemma alnum_not_dash c : is_alnum c = true -> is_char "-" c = false.
Proof. by destruct c as [[] [] [] [] [] [] [] []]. Qed.

Lemma alnum_ends_dash p s :
  s <> "" -> Str.all is_alnum s = true -> ends_dash p s = false.
Proof.
  intros Hne Hs. destruct s as [|c s]; [done|]. simpl in *.
  apply andb_true_iff in Hs as [Hc Hs]. rewrite alnum_not_dash by done. clear Hc Hne p.
  induction s as [|d s IH]; [done|]. simpl in *. apply andb_true_iff in Hs as [Hd Hs].
  rewrite (alnum_not_dash d) by done. auto.
Qed.

Lemma alnum_dashes_ok p s : Str.all is_alnum s = true -> dashes_ok p s = true.
Proof.
  revert p. induction s as [|c s IH]; intros p; simpl; [done|].
  intros [Hc Hs]%andb_true_iff. rewrite alnum_not_dash, Hc by done. simpl. auto.
Qed.

(** The characters of a slug are ASCII, and the table keeps each of them. *)
Definition slug_char (c : Ascii.ascii) : bool := is_alnum c || is_char "-" c.

Lemma slug_char_ascii c : slug_char c = true -> Utf8.byte_in 0 127 c = true.
Proof. by destruct c as [[] [] [] [] [] [] [] []]. Qed.

Definition ascii_chars : list Ascii.ascii := Ascii.ascii_of_nat <$> seq 0 256.

Lemma ascii_chars_all c : c ∈ ascii_chars.
Proof.
  unfold ascii_chars. apply list_elem_of_fmap. exists (Ascii.nat_of_ascii c).
  rewrite Ascii.ascii_nat_embedding. split; [done|].
  apply elem_of_seq. pose proof (Ascii.nat_ascii_bounded c). lia.
Qed.

(** [forallb] over every byte, to check a fact about bytes by computation. *)
Lemma check_bytes (p : Ascii.ascii -> bool) :
  forallb p ascii_chars = true -> forall c, p c = true.
Proof. intros H c. eapply forallb_forall in H; [done|]. apply list_elem_of_In, ascii_chars_all. Qed.

Lemma mapping_slug_char c :
  slug_char c = true -> mapping !! String c "" = Some (String c "").
Proof.
  intros H.
  assert (negb (slug_char c) ||
          bool_decide (mapping !! String c "" = Some (String c "")) = true) as E.
  { revert c H. intros c _. revert c. apply check_bytes. by vm_compute. }
  rewrite H in E. by apply bool_decide_eq_true in E.
Qed.

(** What the table turns a rune into: nothing, a dash, or letters and digits. *)
Definition good_cursor (v : string) : bool :=
  bool_decide (v = "") || bool_decide (v = "-") || Str.all is_alnum v.

Lemma mapping_good r v : mapping !! r = Some v -> good_cursor v = true.
Proof.
  intros H%elem_of_list_to_map_2.
  assert (forallb (fun kv => good_cursor kv.2) mapping_entries = true) as E
    by by vm_compute.
  eapply forallb_forall in E; [|by apply list_elem_of_In]. done.
Qed.

(** ** [algorithm] on one rune *)

Definition single (r : string) : Prop := Utf8.runes r = [r].

Lemma algorithm_single r : single r -> algorithm r = Ok (default "" (mapping !! r)).
Proof. intros H. unfold algorithm. rewrite H. done. Qed.

Lemma runes_single s r : r ∈ Utf8.runes s -> single r.
Proof.
  assert (forall n s, Str.len s <= n -> forall r, r ∈ Utf8.runes s -> single r) as H; [|eauto].
  clear s r. intros n. induction n as [|n IH]; intros s Hn r Hr.
  { destruct s; [by apply not_elem_of_nil in Hr|simpl in Hn; lia]. }
  assert (single Utf8.rune_error) as Herr by reflexivity.
  destruct s as [|c0 s0]; [by apply not_elem_of_nil in Hr|]. cbn [Utf8.runes] in Hr.
  unfold Str.len in Hn. cbn [String.length] in Hn.
  assert (Str.len s0 <= n) as Hn0 by (unfold Str.len; lia).
  assert (forall r, r ∈ Utf8.runes s0 -> single r) as IH0 by eauto.
  unfold single.
  repeat (first
    [ match goal with
      | Hr : _ ∈ (if ?b then _ else _) |- _ => destruct b eqn:?
      | Hr : _ ∈ (match ?s with "" => _ | String _ _ => _ end) |- _ => destruct s as [|? ?]
      end
    | apply elem_of_cons in Hr as [->|Hr] ]); auto; split_bools;
    try (cbn [Utf8.runes];
         repeat match goal with H : _ = false |- _ => rewrite H end;
         repeat match goal with H : _ = true |- _ => rewrite H end;
         done);
    try (eapply IH; [|done]; unfold Str.len in *; cbn [String.length] in *; lia).
Qed.

(** ** The loop of [slugify] *)

Definition st_text (st : slugify_state) : string := Utf8.concat (result st).

(** The loop invariant: the text built so far has single dashes only and none in
    front, the flags describe it, and a trailing dash is a rune of its own. *)
Record loop_inv (st : slugify_state) : Prop := {
  inv_empty : isResultEmpty st = true -> result st = [] /\ isPreviousDash st = false;
  inv_nonempty : isResultEmpty st = false -> st_text st <> "";
  inv_dashes : dashes_ok true (st_text st) = true;
  inv_prev : isResultEmpty st = false -> isPreviousDash st = ends_dash true (st_text st);
  inv_cursor : isResultEmpty st = false -> isCursorDash st = ends_dash true (st_text st);
  inv_last : isResultEmpty st = false -> isCursorDash st = true ->
             exists l, result st = l ++ ["-"] }.

Lemma alnum_ascii c : is_alnum c = true -> Utf8.byte_in 0 127 c = true.
Proof. intros H. apply slug_char_ascii. unfold slug_char. by rewrite H. Qed.

Lemma slugify_step_inv st r :
  single r -> loop_inv st ->
  exists st', slugify_step st r = Ok st' /\ loop_inv st'.
Proof.
  intros Hr [He Hne Hd Hp Hc Hl]. unfold slugify_step. rewrite algorithm_single by done.
  cbn [mbind res_bind].
  assert (good_cursor (default "" (mapping !! r)) = true) as Hg.
  { destruct (mapping !! r) eqn:E; [by eapply mapping_good|done]. }
  set (v := default "" (mapping !! r)) in *. clearbody v.
  case_bool_decide as Hv; [by eexists|]. unfold good_cursor in Hg.
  rewrite bool_decide_eq_false_2 in Hg by done. cbn [orb] in Hg.
  destruct st as [res cd pd emp]. cbn [result isCursorDash isPreviousDash isResultEmpty] in *.
  unfold st_text in *. cbn [result] in *.
  case_bool_decide as Hdash.
  - subst v. destruct emp; cbn [andb orb negb].
    + eexists; split; [done|]. destruct (He eq_refl) as [-> ->]. split; by simpl.
    + destruct pd; cbn [andb orb negb].
      * eexists; split; [done|]. rewrite <-Hp in Hc by done.
        split; cbn; try done; try (by auto); try (intros; by rewrite <-Hp).
      * eexists; split; [done|].
        assert (Utf8.runes "-" = ["-"]) as -> by done.
        split; cbn; rewrite ?Utf8.concat_app; cbn; try done; intros;
          rewrite ?ends_dash_app, ?dashes_ok_app, ?Hd; try done; eauto.
        -- by destruct (Utf8.concat res).
        -- by rewrite <-Hp.
  - cbn [andb orb negb] in *.
    eexists; split; [done|].
    assert (Utf8.concat (Utf8.runes v) = v) as Ev.
    { apply Utf8.concat_runes_ascii. eapply Str.all_mono; [apply alnum_ascii|done]. }
    split; cbn; rewrite ?Utf8.concat_app, ?Ev; cbn; try done.
    + intros _. destruct (Utf8.concat res); [by destruct v|done].
    + rewrite dashes_ok_app, Hd. simpl. by apply alnum_dashes_ok.
    + intros _. rewrite ends_dash_app. by rewrite alnum_ends_dash.
    + intros _. rewrite ends_dash_app. by rewrite alnum_ends_dash.
Qed.

Lemma slugify_loop_inv rs st :
  (forall r, r ∈ rs -> single r) -> loop_inv st ->
  exists st', slugify_loop st rs = Ok st' /\ loop_inv st'.
Proof.
  revert st. induction rs as [|r rs IH]; intros st Hrs Hst; [by eexists|].
  destruct (slugify_step_inv st r) as (st1 & E & H1); [apply Hrs; set_solver|done|].
  destruct (IH st1) as (st2 & E2 & H2); [set_solver|done|].
  exists st2. cbn [slugify_loop]. rewrite E. done.
Qed.

Lemma is_slug_drop_dash t :
  dashes_ok true (t +:+ "-") = true -> is_slug t = true.
Proof.
  rewrite dashes_ok_app. intros [Ht Hd]%andb_true_iff. unfold is_slug.
  rewrite Ht. simpl in Hd. rewrite andb_true_r in Hd. rewrite Hd.
  by rewrite orb_true_r.
Qed.

Lemma slugify_run_slug data :
  exists s, slugify_run data = Ok s /\ is_slug s = true.
Proof.
  destruct (slugify_loop_inv (Utf8.runes data) slugify_init) as (st & E & [He Hne Hd Hp Hc Hl]).
  { intros r Hr. by eapply runes_single. }
  { by split. }
  unfold slugify_run. rewrite E. cbn [mbind res_bind].
  destruct (isResultEmpty st) eqn:Ee; cbn [negb andb].
  - destruct (He eq_refl) as [Er _]. rewrite Er. by eexists.
  - destruct (isCursorDash st) eqn:Ec.
    + destruct (Hl eq_refl eq_refl) as [l El]. unfold st_text in Hd.
      destruct (result st) as [|x xs]; [by destruct l|].
      eexists; split; [done|]. rewrite El in *.
      rewrite take_app_length' by (rewrite length_app; simpl; lia).
      rewrite Utf8.concat_app in Hd. by apply is_slug_drop_dash.
    + eexists; split; [done|]. unfold is_slug. change (Utf8.concat (result st)) with (st_text st).
      rewrite Hd, <-Hc by done. by rewrite orb_true_r.
Qed.

Lemma slugify_never_panics data : slugify_run data = Ok (slugify data).
Proof. unfold slugify. by destruct (slugify_run_slug data) as (s & -> & _). Qed.

Lemma slugify_is_slug data : is_slug (slugify data) = true.
Proof. unfold slugify. by destruct (slugify_run_slug data) as (s & -> & Hs). Qed.

(** ** Slugs are left alone *)

Definition singles (s : string) : list string :=
  (fun c => String c "") <$> String.list_ascii_of_string s.

Lemma singles_cons c s : singles (String c s) = String c "" :: singles s.
Proof. done. Qed.

Lemma slugify_step_char st c :
  slug_char c = true ->
  (is_char "-" c = true -> isResultEmpty st = false /\ isPreviousDash st = false) ->
  slugify_step st (String c "") =
  Ok {| result := result st ++ [String c ""]; isCursorDash := is_char "-" c;
        isPreviousDash := is_char "-" c; isResultEmpty := false |}.
Proof.
  intros Hc Hd. unfold slugify_step.
  assert (Utf8.runes (String c "") = [String c ""]) as Hr.
  { cbn [Utf8.runes]. by rewrite slug_char_ascii. }
  rewrite algorithm_single by exact Hr.
  rewrite mapping_slug_char by done. cbn [mbind res_bind default id].
  rewrite bool_decide_eq_false_2 by done.
  assert (bool_decide (String c "" = "-") = is_char "-" c) as ->.
  { unfold is_char. apply bool_decide_ext. split; congruence. }
  rewrite Hr. destruct (is_char "-" c); [|done].
  destruct Hd as [-> ->]; done.
Qed.

Lemma slugify_loop_slug y st :
  dashes_ok (isResultEmpty st || isPreviousDash st) y = true ->
  exists st', slugify_loop st (singles y) = Ok st' /\
    result st' = result st ++ singles y /\
    isResultEmpty st' = bool_decide (y = "") && isResultEmpty st /\
    isCursorDash st' = (if bool_decide (y = "") then isCursorDash st
                        else ends_dash false y).
Proof.
  revert st. induction y as [|c y IH]; intros st Hy.
  { eexists. split; [done|]. by rewrite app_nil_r. }
  rewrite singles_cons. cbn [slugify_loop].
  assert (slug_char c = true /\
          (is_char "-" c = true -> isResultEmpty st = false /\ isPreviousDash st = false) /\
          dashes_ok (is_char "-" c) y = true) as (Hc & Hdash & Hy').
  { cbn [dashes_ok] in Hy. unfold slug_char.
    destruct (is_char "-" c); apply andb_true_iff in Hy as [H1 H2].
    - apply negb_true_iff, orb_false_iff in H1. by rewrite orb_true_r.
    - rewrite H1. naive_solver. }
  rewrite slugify_step_char by done. cbn [mbind res_bind].
  destruct (IH {| result := result st ++ [String c ""]; isCursorDash := is_char "-" c;
        isPreviousDash := is_char "-" c; isResultEmpty := false |}) as (st' & E & Hr & He & Hcd);
    [done|].
  exists st'. split; [done|]. cbn in Hr, He, Hcd.
  rewrite Hr, He, Hcd, <-app_assoc. split; [done|]. rewrite andb_false_r.
  rewrite bool_decide_eq_false_2 by done. split; [done|].
  cbn [ends_dash]. by destruct y.
Qed.

Lemma dashes_ok_ascii p s : dashes_ok p s = true -> Utf8.ascii_only s = true.
Proof. intros H%dashes_ok_all. eapply Str.all_mono; [|done]. apply slug_char_ascii. Qed.

Lemma slugify_slug s : is_slug s = true -> slugify s = s.
Proof.
  intros Hs. apply orb_true_iff in Hs as [->%bool_decide_eq_true|Hs]; [done|].
  apply andb_true_iff in Hs as [Hs He%negb_true_iff].
  pose proof (dashes_ok_ascii _ _ Hs) as Ha.
  destruct (slugify_loop_slug s slugify_init Hs) as (st & E & Hr & Hem & Hc).
  unfold slugify, slugify_run. rewrite Utf8.runes_ascii by done. fold (singles s).
  rewrite E. cbn [mbind res_bind]. rewrite Hem, Hc, Hr.
  case_bool_decide as H0; [by subst|]. cbn [negb andb].
  assert (ends_dash false s = false) as -> by by destruct s.
  cbn. unfold singles. rewrite Utf8.concat_singletons.
  apply String.string_of_list_ascii_of_string.
Qed.

(** ** Cropped slugs *)

(** What the slugs made by [slug] look like: a slug, or a cropped slug that ends in
    a dash, a second dash, and the hash. *)
Section limited.
Context (hash : string -> string).
(** The hash is printed as at most eight hexadecimal digits. *)
Context (hash_alnum : forall s, Str.all is_alnum (hash s) = true)
        (hash_nonempty : forall s, hash s <> "")
        (hash_len : forall s, Str.len (hash s) <= 8).

Lemma cropSluggedData_Ok data h m :
  (9 < m)%Z -> Str.len h <= 8 ->
  cropSluggedData data h m =
  Ok (Str.take (Z.to_nat (m - zlen h - 1)) data).
Proof.
  intros Hm Hh. unfold cropSluggedData, zlen. change (zlen slugSeparator) with 1%Z.
  change (Z.of_nat (Str.len slugSeparator)) with 1%Z.
  destruct (Z.ltb_spec (m - Z.of_nat (Str.len h) - 1) (Z.of_nat (Str.len data)))%Z as [H|H].
  - destruct (Z.ltb_spec (m - Z.of_nat (Str.len h) - 1) 0)%Z; [lia|done].
  - destruct (Z.ltb_spec (Z.of_nat (Str.len data)) 0)%Z; [lia|]. f_equal.
    rewrite Nat2Z.id.
    assert (forall n s, Str.len s <= n -> Str.take n s = s) as Ht.
    { clear. unfold Str.len. intros n s. revert n.
      induction s as [|c s IH]; intros [|n] Hn; simpl in *; try done; try lia.
      rewrite IH by lia. done. }
    rewrite !Ht; [done|lia|done].
Qed.

(** The result of [slug] for a size that leaves room for the hash. *)
Lemma slug_shape data m :
  (9 < m)%Z ->
  exists crop, slug hash data m =
    Ok (if bool_decide (slugify data = "") then hash data
        else crop +:+ "-" +:+ hash data) /\
    (slugify data <> "" -> crop <> "") /\
    dashes_ok true crop = true /\
    (zlen crop + zlen (hash data) + 1 <= m)%Z.
Proof.
  intros Hm. unfold slug. case_bool_decide as Hs.
  { exists "". split; [done|]. split; [done|]. split; [done|].
    pose proof (hash_len data). unfold zlen. simpl. lia. }
  rewrite cropSluggedData_Ok by auto. cbn [mbind res_bind].
  set (n := Z.to_nat _). pose proof (slugify_is_slug data) as Hd.
  apply orb_true_iff in Hd as [Hd%bool_decide_eq_true|Hd]; [done|].
  apply andb_true_iff in Hd as [Hd _].
  assert (dashes_ok true (Str.take n (slugify data)) = true) as Hc
    by by apply dashes_ok_take.
  assert (exists k, n = S k) as [k Hk].
  { exists (n - 1). pose proof (hash_len data). unfold n, zlen. lia. }
  assert (Str.HasPrefix (Str.take n (slugify data)) "-" = false) as Hp.
  { destruct (Str.HasPrefix _ _) eqn:E; [|done]. apply Str.HasPrefix_spec in E as [t E].
    rewrite E in Hc. done. }
  rewrite Hp. exists (Str.take n (slugify data)).
  split; [done|]. split; [|split; [done|]].
  - intros _. rewrite Hk. by destruct (slugify data).
  - pose proof (Str.len_take n (slugify data)). pose proof (hash_len data).
    unfold n, zlen in *. lia.
Qed.

Lemma cut_dashes p x h :
  dashes_ok p x = true -> ends_dash p x = false ->
  dashes_ok true h = true ->
  Str.cut "--" (x +:+ "--" +:+ h) = Some (x, h).
Proof.
  intros Hx He Hh. revert p Hx He. induction x as [|c x IH]; intros p Hx He.
  { by destruct h. }
  cbn [ends_dash] in He. cbn [dashes_ok] in Hx.
  assert (dashes_ok (is_char "-" c) x = true) as Hx'.
  { destruct (is_char "-" c); by apply andb_true_iff in Hx as [? ?]. }
  change ((String c x +:+ "--" +:+ h)) with (String c (x +:+ "--" +:+ h)).
  cbn [Str.cut]. rewrite (IH _ Hx' He).
  destruct (String.prefix "--" _) eqn:E; [|done]. exfalso.
  apply Str.prefix_spec in E as [t E]. injection E as -> E.
  change (is_char "-" "-"%char) with true in *.
  destruct x as [|d x]; [done|]. injection E as -> E. done.
Qed.

Lemma cut_no_dashes p h : dashes_ok p h = true -> Str.cut "--" h = None.
Proof.
  revert p. induction h as [|c h IH]; intros p Hh; [done|].
  cbn [Str.cut]. cbn [dashes_ok] in Hh.
  assert (dashes_ok (is_char "-" c) h = true) as Hh'.
  { destruct (is_char "-" c); by apply andb_true_iff in Hh as [? ?]. }
  rewrite (IH _ Hh'). destruct (String.prefix "--" _) eqn:E; [|done]. exfalso.
  apply Str.prefix_spec in E as [t E]. injection E as -> ->. done.
Qed.

Lemma split_last_dash s :
  ends_dash false s = true -> exists x, s = x +:+ "-".
Proof.
  assert (forall p, ends_dash p s = true -> s = "" \/ exists x, s = x +:+ "-") as H.
  { induction s as [|c s IH]; intros p; [by left|]. intros H. right. simpl in H.
    destruct (IH _ H) as [->|[x ->]]; [|by exists (String c x)].
    exists "". simpl in H. by apply bool_decide_eq_true in H as ->. }
  intros He. destruct (H _ He) as [->|]; done.
Qed.

(** A cropped slug, a dash and a hash is left alone by [LimitedSlug]. *)
Lemma slugged_not_slugged crop h m :
  crop <> "" -> dashes_ok true crop = true ->
  Str.all is_alnum h = true -> h <> "" ->
  (zlen crop + zlen h + 1 <= m)%Z ->
  shouldBeSlugged (crop +:+ "-" +:+ h) m = false.
Proof.
  intros Hne Hc Hh Hhne Hlen. unfold shouldBeSlugged.
  assert (zlen (crop +:+ "-" +:+ h) <= m)%Z as Hm.
  { unfold zlen in *. rewrite !Str.len_app. change (Str.len "-") with 1. lia. }
  case_bool_decide; [done|].
  destruct (bool_decide (slugify _ = _) && _) eqn:E1; [done|].
  destruct (Z.ltb_spec m (zlen (crop +:+ "-" +:+ h))) as [|_]; [lia|].
  assert (forall p, dashes_ok p h = true) as Hhd by (intros; by apply alnum_dashes_ok).
  destruct (ends_dash true crop) eqn:Ed.
  - destruct (split_last_dash crop) as [x ->]; [destruct crop; [congruence|exact Ed]|].
    rewrite dashes_ok_app in Hc. apply andb_true_iff in Hc as [Hx Hd].
    assert (ends_dash true x = false) as Hxe by by destruct (ends_dash true x).
    assert ((x +:+ "-") +:+ "-" +:+ h = x +:+ "--" +:+ h) as Eq
      by by rewrite <-Str.app_assoc.
    rewrite Eq in *. unfold Str.Count, Str.Split.
    assert (exists k, Str.len (x +:+ "--" +:+ h) = S k) as [k ->].
    { rewrite Str.len_app. exists (Str.len x + S (Str.len h)).
      change (Str.len ("--" +:+ h)) with (S (S (Str.len h))). lia. }
    cbn [Str.SplitN Str.Replace]. rewrite (cut_dashes true) by auto.
    assert ((match k with 0 => [h] | S _ =>
      match Str.cut "--" h with None => [h] | Some (a, b) => a :: Str.SplitN b "--" k end end)
      = [h]) as -> by (rewrite (cut_no_dashes true) by auto; by destruct k).
    cbn [length Nat.sub Nat.eqb negb].
    rewrite (slugify_slug (x +:+ "-" +:+ h)).
    + by rewrite bool_decide_eq_true_2.
    + unfold is_slug. rewrite !dashes_ok_app, Hx, Hxe, Hhd. simpl.
      rewrite !ends_dash_app, Hxe. simpl. rewrite alnum_ends_dash by done.
      by rewrite orb_true_r.
  - exfalso. assert (is_slug (crop +:+ "-" +:+ h) = true) as Hs.
    { unfold is_slug. rewrite !dashes_ok_app, Hc, Ed, !ends_dash_app, Ed, Hhd. simpl.
      rewrite alnum_ends_dash by done. by rewrite orb_true_r. }
    rewrite slugify_slug in E1 by done. rewrite bool_decide_eq_true_2 in E1 by done.
    apply Z.leb_gt in E1. lia.
Qed.

Lemma shouldBeSlugged_false_len data m :
  (0 <= m)%Z -> shouldBeSlugged data m = false -> (zlen data <= m)%Z.
Proof.
  intros Hm H. unfold shouldBeSlugged in H. case_bool_decide as H0; [by subst|].
  destruct (bool_decide (slugify data = data) && _) eqn:E; [split_bools; lia|].
  destruct (Z.ltb_spec m (zlen data)); [done|lia].
Qed.

Lemma LimitedSlug_again_len data m :
  (9 < m)%Z ->
  exists r, LimitedSlug hash data m = Ok r /\ LimitedSlug hash r m = Ok r /\
            (zlen r <= m)%Z.
Proof using hash_alnum hash_nonempty hash_len.
  intros Hm. unfold LimitedSlug at 1. destruct (shouldBeSlugged data m) eqn:E; cbn [negb].
  - destruct (slug_shape data m Hm) as (crop & -> & Hne & Hd & Hl).
    eexists; split; [done|]. case_bool_decide as Hs.
    + assert (is_slug (hash data) = true) as Hh.
      { unfold is_slug. rewrite alnum_dashes_ok, alnum_ends_dash by auto.
        by rewrite orb_true_r. }
      assert (zlen (hash data) <= m)%Z as Hlen.
      { pose proof (hash_len data). unfold zlen. lia. }
      split; [|done]. unfold LimitedSlug, shouldBeSlugged.
      rewrite bool_decide_eq_false_2, slugify_slug by auto.
      rewrite bool_decide_eq_true_2 by done. by rewrite (proj2 (Z.leb_le _ _) Hlen).
    + split.
      * unfold LimitedSlug. by rewrite slugged_not_slugged by auto.
      * unfold zlen in *. rewrite !Str.len_app. change (Str.len "-") with 1. lia.
  - eexists; split; [done|]. split; [|apply shouldBeSlugged_false_len; [lia|done]].
    unfold LimitedSlug. by rewrite E.
Qed.


Lemma slug_char_hash s : Str.all slug_char (hash s) = true.
Proof using hash_alnum.
  eapply Str.all_mono; [|apply hash_alnum]. intros c Hc. unfold slug_char. by rewrite Hc.
Qed.

(** What [LimitedSlug] returns consists of lower-case letters, digits and dashes. *)
Lemma LimitedSlug_chars data m r :
  (9 < m)%Z -> LimitedSlug hash data m = Ok r -> Str.all slug_char r = true.
Proof using hash_alnum hash_len.
  intros Hm. unfold LimitedSlug. destruct (shouldBeSlugged data m) eqn:E; cbn [negb].
  - destruct (slug_shape data m Hm) as (crop & -> & _ & Hd & _). intros [= <-].
    case_bool_decide; [apply slug_char_hash|].
    apply dashes_ok_all in Hd. rewrite Str.all_app. cbn [Str.all]. rewrite slug_char_hash.
    unfold slug_char at 1. by rewrite Hd.
  - intros [= <-]. unfold shouldBeSlugged in E. case_bool_decide as H0; [by subst|].
    destruct (bool_decide (slugify data = data) && _) eqn:E1.
    + split_bools. pose proof (slugify_is_slug data) as Hs. rewrite H in Hs.
      apply orb_true_iff in Hs as [Hs%bool_decide_eq_true|Hs]; [by subst|].
      apply andb_true_iff in Hs as [Hs _]. by eapply dashes_ok_all.
    + destruct (m <? zlen data)%Z; [done|]. destruct (negb (Str.Count data "--" =? 1)); [done|].
      destruct (negb _) eqn:E2; [done|]. split_bools.
      pose proof (slugify_is_slug (Str.Replace data "--" "-" 1)) as Hs. rewrite E2 in Hs.
      assert (Str.all slug_char (Str.Replace data "--" "-" 1) = true) as Ha.
      { apply orb_true_iff in Hs as [Hs%bool_decide_eq_true|Hs]; [by rewrite Hs|].
        apply andb_true_iff in Hs as [Hs _]. by eapply dashes_ok_all. }
      cbn [Str.Replace] in Ha. destruct (Str.cut "--" data) as [[a b]|] eqn:Ec; [|done].
      apply Str.cut_Some in Ec as ->. rewrite !Str.all_app in Ha |- *.
      destruct (Str.all slug_char a), (Str.all slug_char b); done.
Qed.

(** The three facts together. *)
Lemma LimitedSlug_again data m :
  (9 < m)%Z ->
  exists r, LimitedSlug hash data m = Ok r /\ LimitedSlug hash r m = Ok r /\
            (zlen r <= m)%Z /\ Str.all slug_char r = true.
Proof using hash_alnum hash_nonempty hash_len.
  intros Hm. destruct (LimitedSlug_again_len data m Hm) as (r & E & E' & Hl).
  exists r. eauto using LimitedSlug_chars.
Qed.
End limited.
End SlugFacts.

(** * Properties *)

Module SlugProps.
Import Slug SlugFacts.

(** C39: [slugify] never panics, its result is always a slug (lower-case letters,
    digits and single inner dashes), and it leaves a name alone exactly when the name
    is already a slug; it is therefore idempotent. *)
Theorem slugify_correct data :
  slugify_run data = Ok (slugify data) /\
  is_slug (slugify data) = true /\
  (slugify data = data <-> is_slug data = true) /\
  slugify (slugify data) = slugify data.
Proof.
  split; [apply slugify_never_panics|]. split; [apply slugify_is_slug|]. split.
  - split; [intros <-; apply slugify_is_slug|apply slugify_slug].
  - apply slugify_slug, slugify_is_slug.
Qed.

Section hash.
Context (hash : string -> string)
        (hash_alnum : forall s, Str.all is_alnum (hash s) = true)
        (hash_nonempty : forall s, hash s <> "")
        (hash_len : forall s, Str.len (hash s) <= 8).

(** With room for the hash, [LimitedSlug] always returns a name within the size
    limit, and slugging that name again, with any hash of it, returns it unchanged. *)
Theorem LimitedSlug_idempotent data m :
  (9 < m)%Z ->
  exists r, LimitedSlug hash data m = Ok r /\ LimitedSlug hash r m = Ok r /\
            (zlen r <= m)%Z.
Proof using hash_alnum hash_nonempty hash_len.
  intros Hm. destruct (LimitedSlug_again hash hash_alnum hash_nonempty hash_len data m Hm)
    as (r & ? & ? & ? & _). eauto.
Qed.

Lemma slug_all crop h :
  dashes_ok true crop = true -> Str.all is_alnum h = true ->
  Str.all (fun c => is_word c || is_char "." c || is_char "-" c) (crop +:+ "-" +:+ h) = true.
Proof.
  intros Hc%dashes_ok_all Hh. rewrite !Str.all_app, !andb_true_iff. split; [|split; [done|]].
  - eapply Str.all_mono; [|done]. intros c. unfold is_word.
    destruct (is_alnum c), (is_char "-" c); simpl; try done; auto using orb_true_r.
  - eapply Str.all_mono; [|done]. intros c Hx. unfold is_word. by rewrite Hx.
Qed.

(** C37: [DockerTag] turns every name into a valid Docker tag of at most 128 bytes. *)
Theorem DockerTag_valid name :
  exists r, DockerTag hash name = Ok r /\ IsValidDockerTag r = true.
Proof using hash_alnum hash_nonempty hash_len.
  unfold DockerTag, ValidateDockerTag.
  destruct (IsValidDockerTag name) eqn:Ev; [by eexists|].
  destruct (slug_shape hash hash_len name DockerTagMaxSize) as (crop & -> & Hne & Hd & Hl);
    [done|].
  eexists; split; [done|]. unfold IsValidDockerTag, shouldNotBeSlugged.
  destruct (decide (slugify name = "")) as [Hs|Hs];
    [rewrite (bool_decide_eq_true_2 (slugify name = "")) by done
    |rewrite (bool_decide_eq_false_2 (slugify name = "")) by done].
  - assert (zlen (hash name) <= DockerTagMaxSize)%Z as ->%Z.leb_le.
    { pose proof (hash_len name). unfold zlen, DockerTagMaxSize. lia. }
    pose proof (hash_alnum name) as Ha. pose proof (hash_nonempty name) as Hn.
    destruct (hash name) as [|c s]; [done|]. cbn [dockerTagRegexp Str.all] in *.
    apply andb_true_iff in Ha as [Hc Hs'].
    unfold is_word at 1. rewrite Hc. cbn [orb andb].
    rewrite (Str.all_mono is_alnum); [by rewrite orb_true_r| |done].
    intros d Hx. unfold is_word. by rewrite Hx.
  - assert (zlen (crop +:+ "-" +:+ hash name) <= DockerTagMaxSize)%Z as ->%Z.leb_le.
    { unfold zlen in *. rewrite !Str.len_app. change (Str.len "-") with 1. lia. }
    pose proof (slug_all crop (hash name) Hd (hash_alnum name)) as Ha.
    specialize (Hne Hs). destruct crop as [|c crop]; [done|].
    change (String c crop +:+ "-" +:+ hash name)
      with (String c (crop +:+ "-" +:+ hash name)) in *.
    cbn [dockerTagRegexp Str.all] in *. apply andb_true_iff in Ha as [_ ->].
    cbn [dashes_ok] in Hd. destruct (is_char "-" c); [done|].
    apply andb_true_iff in Hd as [Hc _]. unfold is_word. rewrite Hc.
    by rewrite orb_true_r.
Qed.
End hash.

Definition hash_example (s : string) : string := "1c0ffee2".

Lemma LimitedSlug_idempotent_witness :
  exists r, LimitedSlug hash_example "feature/PROJ-1234" 16 = Ok r /\
            LimitedSlug hash_example r 16 = Ok r /\ (zlen r <= 16)%Z.
Proof.
  apply (LimitedSlug_idempotent hash_example).
  - intros s. reflexivity.
  - intros s. discriminate.
  - intros s. vm_compute. lia.
  - lia.
Defined.

Lemma DockerTag_valid_witness :
  exists r, DockerTag hash_example "feature/PROJ-1234" = Ok r /\ IsValidDockerTag r = true.
Proof.
  apply (DockerTag_valid hash_example).
  - intros s. reflexivity.
  - intros s. discriminate.
  - intros s. vm_compute. lia.
Defined.

(** [Project] keeps the promise of its regular expression when the slug fits. *)
Lemma Project_short_valid name :
  (zlen (slugify name) <= projectNameMaxSize)%Z ->
  validateProject (Project name) = Ok tt.
Proof.
  intros Hl. unfold Project. destruct (validateProject name) as [[]|e|] eqn:E; try done.
  - rewrite (proj2 (Z.ltb_ge _ _)) by done. unfold validateProject, shouldNotBeSlugged.
    rewrite (proj2 (Z.leb_le _ _)) by done. rewrite andb_true_r.
    pose proof (slugify_is_slug name) as Hs. unfold is_slug in Hs.
    case_bool_decide as H0; [done|]. cbn [orb] in *.
    apply andb_true_iff in Hs as [Hd He%negb_true_iff].
    destruct (slugify name) as [|c s]; [done|]. cbn [projectNameRegex].
    cbn [dashes_ok ends_dash] in *. destruct (is_char "-" c) eqn:Ec; [done|].
    apply andb_true_iff in Hd as [Hc Hd]. rewrite Hc, (dashes_ok_all _ _ Hd). cbn [andb].
    assert (is_alnum (last_char c s) = true) as ->; [|done].
    clear E H0 Hl. revert c Hc Ec Hd He. induction s as [|d s IH]; [done|].
    intros c Hc Ec Hd He. cbn [last_char ends_dash dashes_ok] in *.
    destruct (is_char "-" d) eqn:Ed.
    + destruct s as [|e' s]; [done|]. cbn [last_char ends_dash dashes_ok] in *.
      destruct (is_char "-" e') eqn:Ee; cbn [negb andb] in *; [done|].
      by apply (IH c).
    + apply andb_true_iff in Hd as [Hd Hs]. by apply IH.
  - by unfold validateProject in E; destruct (shouldNotBeSlugged _ _ _).
Qed.

Definition long_project_name : string :=
  "a234567890123456789012345678901234567890123456789_Project".

(** Cropping a long project name can leave a dash at its end, so that [Project]
    returns a name its own validation rejects; a slug of at most 50 bytes is always
    valid. *)
Theorem Project_cropped_invalid :
  (exists name e, validateProject (Project name) = Err e) /\
  (forall name, (zlen (slugify name) <= projectNameMaxSize)%Z ->
     validateProject (Project name) = Ok tt).
Proof.
  split; [|exact Project_short_valid].
  exists long_project_name. eexists. vm_compute. reflexivity.
Qed.
End SlugProps.
