(* ===== verification/Image.v ===== *)
(** pkg/image: the identifiers of stages, what the registry tells about an
    image, and the mutation of an image configuration. A stage id prints as
    "digest-timestamp"; a timestamp of zero marks a multiplatform image, which
    prints as the digest alone. *)
From S2P Require Import Prelude Go.

Module Image.

(** * const.go *)

Definition WerfLabelPrefix : string := "werf".
Definition WerfLabel : string := "werf".
Definition WerfVersionLabel : string := "werf-version".
Definition WerfStageContentDigestLabel : string := "werf-stage-content-digest".
Definition WerfProjectRepoCommitLabel : string := "werf-project-repo-commit".
Definition WerfImportChecksumLabelPrefix : string := "werf-import-checksum-".
Definition WerfImportSourceStageIDLabelPrefix : string := "werf-import-source-stage-id-".
Definition WerfImportSourceExternalImagePrefix : string := "external-image".
Definition WerfDependencySourceStageIDLabelPrefix : string := "werf-dependency-stage-id-".
Definition WerfBaseImageIDLabel : string := "werf.io/base-image-id".
Definition WerfParentStageID : string := "werf.io/parent-stage-id".
Definition WerfImportMetadataChecksumLabel : string := "checksum".
Definition WerfImportMetadataSourceStageIDLabel : string := "source-stage-id".
Definition WerfImportMetadataImportSourceIDLabel : string := "import-source-id".
Definition WerfCustomTagMetadataStageIDLabel : string := "stage-id".
Definition WerfCustomTagMetadataTag : string := "tag".

(** * stage.go *)

Record StageID := mkStageID {
  Digest : string;
  CreationTs : Z;
  IsMultiplatform : bool;
}.

#[export] Instance StageID_eq_dec : EqDecision StageID.
Proof. solve_decision. Defined.

Definition NewStageID (digest : string) (creationTs : Z) : StageID :=
  mkStageID digest creationTs (creationTs =? 0)%Z.

Definition StageID_String (id : StageID) : string :=
  if (CreationTs id =? 0)%Z then Digest id
  else Digest id +:+ "-" +:+ itoa (CreationTs id).

(** [time.Unix]'s seconds and nanoseconds, as the nanoseconds since the epoch. *)
Definition CreationTsToTime (id : StageID) : Z :=
  (Z.quot (CreationTs id) 1000 * 1000000000 + Z.rem (CreationTs id) 1000)%Z.

Definition IsEqual (id another : StageID) : bool :=
  bool_decide (Digest id = Digest another) && (CreationTs id =? CreationTs another)%Z.

Definition ParseCreationTs (creationTs : string) : Z + error := ParseIntE creationTs.

(** * info.go *)

Definition DockerHubRepositoryPrefix : string := "docker.io/library/".
Definition IndexDockerHubRepositoryPrefix : string := "index.docker.io/library/".

Inductive Info := mkInfo {
  Name : string;
  Repository : string;
  Tag : string;
  RepoDigest : string;
  OnBuild : list string;
  Env : list string;
  ID : string;
  ParentID : string;
  Labels : gmap string string;
  Size : Z;
  CreatedAtUnixNano : Z;
  Volumes : gset string;
  IsIndex : bool;
  Index : list Info;
}.

(** A Go map lookup: the zero value where the key is absent. *)
Definition label (m : gmap string string) (k : string) : string := default "" (m !! k).

Definition GetDigest (info : Info) : res string :=
  if bool_decide (RepoDigest info = "") then Ok ""
  else match Str.Split (RepoDigest info) "@" with
       | [_; d] => Ok d
       | _ => Panic "bad repo digest"
       end.

Definition SetCreatedAtUnixNano (info : Info) (nanos : Z) : Info :=
  mkInfo (Name info) (Repository info) (Tag info) (RepoDigest info) (OnBuild info)
    (Env info) (ID info) (ParentID info) (Labels info) (Size info) nanos
    (Volumes info) (IsIndex info) (Index info).

Definition SetCreatedAtUnix (info : Info) (seconds : Z) : Info :=
  SetCreatedAtUnixNano info (wrap64 (seconds * 1000000000)).

(** [time.Unix]'s seconds and nanoseconds, as the nanoseconds since the epoch. *)
Definition GetCreatedAt (info : Info) : Z :=
  (Z.quot (CreatedAtUnixNano info) 1000000000 * 1000000000
   + Z.rem (CreatedAtUnixNano info) 1000000000)%Z.

Fixpoint Info_GetCopy (info : Info) : Info :=
  mkInfo (Name info) (Repository info) (Tag info) (RepoDigest info) (OnBuild info)
    (Env info) (ID info) (ParentID info) (Labels info) (Size info)
    (CreatedAtUnixNano info) (Volumes info) (IsIndex info)
    (map Info_GetCopy (Index info)).

Definition LogName (info : Info) : string :=
  if bool_decide (Name info = "<none>:<none>") then ID info else Name info.

Record StageDesc := mkStageDesc { SDStageID : StageID; SDInfo : Info }.

Definition StageDesc_GetCopy (desc : StageDesc) : StageDesc :=
  mkStageDesc (NewStageID (Digest (SDStageID desc)) (CreationTs (SDStageID desc)))
    (Info_GetCopy (SDInfo desc)).

Section references.
(** [util.Reverse] of a string's runes, third-party code. *)
Variable Reverse : string -> string.

Definition ParseRepositoryAndTag (ref : string) : string * string :=
  match Str.SplitN (Reverse ref) ":" 2 with
  | [p0; p1] => (Reverse p1, Reverse p0)
  | _ => (ref, "")
  end.
End references.

Definition NormalizeRepository (repository : string) : string :=
  Str.TrimPrefix (Str.TrimPrefix repository IndexDockerHubRepositoryPrefix)
    DockerHubRepositoryPrefix.

Fixpoint ExtractRepoDigest (inspectRepoDigests : list string) (repository : string) : string :=
  match inspectRepoDigests with
  | [] => ""
  | inspectRepoDigest :: rest =>
      match Str.SplitN inspectRepoDigest "@sha256:" 2 with
      | [r; d] =>
          let repo := NormalizeRepository r in
          if bool_decide (NormalizeRepository repository = repo)
          then repo +:+ "@sha256:" +:+ d
          else ExtractRepoDigest rest repository
      | _ => ExtractRepoDigest rest repository
      end
  end.

(** * spec_config.go *)

Record HealthConfig := mkHealthConfig {
  HTest : list string; HInterval : Z; HTimeout : Z; HStartPeriod : Z; HRetries : Z;
}.

(** The updates of a configuration; a nil map or pointer is [None]. *)
Record SpecConfig := mkSpecConfig {
  scCreated : string; scAuthor : string; scUser : string;
  scExposedPorts : option (gset string); scEnv : list string;
  scEntrypoint : list string; scCmd : list string;
  scVolumes : option (gset string); scWorkingDir : string;
  scLabels : option (gmap string string); scStopSignal : string;
  scHealthConfig : option HealthConfig;
  ClearHistory : bool; ClearCmd : bool; ClearEntrypoint : bool;
  ClearUser : bool; ClearWorkingDir : bool;
}.

(** The fields of [v1.ConfigFile] that the mutation assigns; [H] is the type of
    its history entries. *)
Record ConfigFile (H : Type) := mkConfigFile {
  cfAuthor : string; cfHistory : list H; cfVolumes : option (gset string);
  cfLabels : option (gmap string string); cfEnv : list string;
  cfExposedPorts : option (gset string); cfUser : string; cfCmd : list string;
  cfEntrypoint : list string; cfWorkingDir : string; cfStopSignal : string;
  cfHealthcheck : option HealthConfig;
}.
Arguments mkConfigFile {H} _ _ _ _ _ _ _ _ _ _ _ _.
Arguments cfAuthor {H} _. Arguments cfHistory {H} _. Arguments cfVolumes {H} _.
Arguments cfLabels {H} _. Arguments cfEnv {H} _. Arguments cfExposedPorts {H} _.
Arguments cfUser {H} _. Arguments cfCmd {H} _. Arguments cfEntrypoint {H} _.
Arguments cfWorkingDir {H} _. Arguments cfStopSignal {H} _. Arguments cfHealthcheck {H} _.

(** [if clear { t = zero }; if update is set { t = update }]. *)
Definition upd_string (clear : bool) (update target : string) : string :=
  let target := if clear then "" else target in
  if bool_decide (update = "") then target else update.
Definition upd_list (clear : bool) (update target : list string) : list string :=
  let target := if clear then [] else target in
  match update with [] => target | _ => update end.
Definition upd_map {A} (update target : option A) : option A :=
  match update with None => target | Some _ => update end.

Definition UpdateConfigFile {H} (updates : SpecConfig) (target : ConfigFile H) : ConfigFile H :=
  mkConfigFile
    (upd_string false (scAuthor updates) (cfAuthor target))
    (if ClearHistory updates then [] else cfHistory target)
    (upd_map (scVolumes updates) (cfVolumes target))
    (upd_map (scLabels updates) (cfLabels target))
    (scEnv updates)
    (upd_map (scExposedPorts updates) (cfExposedPorts target))
    (upd_string (ClearUser updates) (scUser updates) (cfUser target))
    (upd_list (ClearCmd updates) (scCmd updates) (cfCmd target))
    (upd_list (ClearEntrypoint updates) (scEntrypoint updates) (cfEntrypoint target))
    (upd_string (ClearWorkingDir updates) (scWorkingDir updates) (cfWorkingDir target))
    (upd_string false (scStopSignal updates) (cfStopSignal target))
    (upd_map (scHealthConfig updates) (cfHealthcheck target)).

End Image.

(** * Lemmas *)

Module ImageFacts.
Import Image.

Lemma NewStageID_eq d1 t1 d2 t2 :
  NewStageID d1 t1 = NewStageID d2 t2 <-> d1 = d2 /\ t1 = t2.
Proof. unfold NewStageID. naive_solver. Qed.

(** A stage id that [NewStageID] made. *)
Definition wf_id (id : StageID) : Prop := id = NewStageID (Digest id) (CreationTs id).

Lemma wf_new d t : wf_id (NewStageID d t).
Proof. done. Qed.

Lemma IsEqual_true id1 id2 : wf_id id1 -> wf_id id2 -> IsEqual id1 id2 = true <-> id1 = id2.
Proof.
  unfold IsEqual, wf_id. intros -> ->. rewrite andb_true_iff, bool_decide_eq_true, Z.eqb_eq.
  simpl. by rewrite NewStageID_eq.
Qed.

Lemma Info_ind' (P : Info -> Prop) :
  (forall i, Forall P (Index i) -> P i) -> forall i, P i.
Proof.
  intros H. fix IH 1. intros i. apply H. destruct i as [????????????? l]. simpl.
  induction l as [|x l IHl]; [constructor|]. constructor; [apply IH|apply IHl].
Qed.

(** A copy has the contents of the original at every depth. *)
Lemma Info_GetCopy_id i : Info_GetCopy i = i.
Proof.
  induction i as [i IH] using Info_ind'. destruct i as [????????????? l]. simpl in *.
  f_equal. induction IH as [|x l Hx _ IHl]; simpl; [done|]. by rewrite Hx, IHl.
Qed.

Lemma StageDesc_GetCopy_id d : wf_id (SDStageID d) -> StageDesc_GetCopy d = d.
Proof.
  destruct d as [id i]. unfold StageDesc_GetCopy. simpl. intros H.
  by rewrite Info_GetCopy_id, <-H.
Qed.

End ImageFacts.
