(* ===== verification/Registry.v ===== *)
(** pkg/docker_registry: the interface of a container registry's client, the
    laws its callers rely on, and the classification of its errors. The class
    [DockerRegistry] has one operation per method of [docker_registry.Interface];
    the registry itself is a service, so what it does is the class
    [RegistryLaws], about the tags of one repository. [MemRegistry] is a registry
    held in memory that obeys the laws; the witnesses run on it. *)
From S2P Require Import Prelude Go Slug Image.

(** * errors.go and quay.go *)

(** The error codes of the transport library. *)
Class TransportCodes := {
  BlobUnknownErrorCode : string; BlobUploadInvalidErrorCode : string;
  BlobUploadUnknownErrorCode : string; DigestInvalidErrorCode : string;
  ManifestBlobUnknownErrorCode : string; ManifestInvalidErrorCode : string;
  ManifestUnknownErrorCode : string; ManifestUnverifiedErrorCode : string;
  NameInvalidErrorCode : string; NameUnknownErrorCode : string;
}.

Module RegistryErrors.
Section errors.
Context `{!GoQuote, !TransportCodes}.

Definition BrokenImageCodes : list string :=
  [BlobUnknownErrorCode; BlobUploadInvalidErrorCode; BlobUploadUnknownErrorCode;
   DigestInvalidErrorCode; ManifestBlobUnknownErrorCode; ManifestInvalidErrorCode;
   ManifestUnverifiedErrorCode; NameInvalidErrorCode].

Definition NotFoundImageCodes : list string :=
  [ManifestUnknownErrorCode; NameUnknownErrorCode].

Definition isErrorMatched (err : error) (codes : list string) : bool :=
  existsb (fun code => Str.Contains (err_text err) code) codes.

Definition IsQuayTagExpiredErr (err : error) : bool :=
  Str.Contains (err_text err) "TAG_EXPIRED: ".

Definition IsHarborNotFoundError (err : error) : bool :=
  Str.Contains (err_text err) "NOT_FOUND".

Definition IsBrokenImageError (err : error) : bool :=
  isErrorMatched err BrokenImageCodes || IsQuayTagExpiredErr err.

Definition IsImageNotFoundError (err : error) : bool :=
  isErrorMatched err NotFoundImageCodes || IsHarborNotFoundError err.
End errors.
End RegistryErrors.

(** * The interface *)

(** The name of an image: repository address and tag. *)
Definition ref_of (addr tag : string) : string := addr +:+ ":" +:+ tag.

Class DockerRegistry (R : Type) := {
  (** the history entries of an image configuration *)
  History : Type;
  reg_CreateRepo : string -> prog R unit;
  reg_DeleteRepo : string -> prog R unit;
  (** the flag is the option [WithCachedTags] *)
  reg_Tags : string -> bool -> prog R (list string);
  reg_IsTagExist : string -> bool -> prog R bool;
  reg_GetRepoImage : string -> prog R (option Image.Info);
  reg_TryGetRepoImage : string -> prog R (option Image.Info);
  reg_TagRepoImage : Image.Info -> string -> prog R unit;
  reg_DeleteRepoImage : Image.Info -> prog R unit;
  reg_PushImage : string -> gmap string string -> prog R unit;
  reg_CopyImage : string -> string -> prog R unit;
  reg_PushManifestList : string -> list Image.Info -> list string -> prog R unit;
  reg_MutateAndPushImage : string -> string ->
    (Image.ConfigFile History -> res (Image.ConfigFile History)) -> prog R unit;
}.

(** What the callers rely on, about the repository at [addr]: [view] gives for
    every tag that exists the image that a read returns, or [None] where the
    image is broken. A call may fail and leave the repository as it was or
    changed the way the call would; a registry that is [online] answers every
    request. *)
Class RegistryLaws (R : Type) `{!DockerRegistry R, !GoQuote, !TransportCodes} (addr : string) := {
  view : R -> gmap string (option Image.Info);
  online : R -> Prop;

  tags_keep c r : view (reg_Tags addr c r).2 = view r;
  tags_ok r l r' : reg_Tags addr false r = (Ok l, r') ->
    NoDup l /\ forall t, t ∈ l <-> is_Some (view r !! t);
  tags_online c r : online r -> exists l, (reg_Tags addr c r).1 = Ok l;
  tags_stay c r : online r -> online (reg_Tags addr c r).2;

  exist_keep c t r : view (reg_IsTagExist (ref_of addr t) c r).2 = view r;
  exist_ok t r b r' : reg_IsTagExist (ref_of addr t) false r = (Ok b, r') ->
    b = bool_decide (is_Some (view r !! t));
  exist_online c t r : online r -> exists b, (reg_IsTagExist (ref_of addr t) c r).1 = Ok b;
  exist_stay c t r : online r -> online (reg_IsTagExist (ref_of addr t) c r).2;

  get_keep t r : view (reg_GetRepoImage (ref_of addr t) r).2 = view r;
  get_ok t r o r' : reg_GetRepoImage (ref_of addr t) r = (Ok o, r') ->
    exists i, o = Some i /\ view r !! t = Some (Some i);
  get_not_found t r e r' : reg_GetRepoImage (ref_of addr t) r = (Err e, r') ->
    RegistryErrors.IsImageNotFoundError e = true -> view r !! t = None;
  get_online t r : online r ->
    match view r !! t with
    | Some (Some i) => (reg_GetRepoImage (ref_of addr t) r).1 = Ok (Some i)
    | None => exists e, (reg_GetRepoImage (ref_of addr t) r).1 = Err e /\
                RegistryErrors.IsImageNotFoundError e = true
    | Some None => exists e, (reg_GetRepoImage (ref_of addr t) r).1 = Err e /\
                RegistryErrors.IsImageNotFoundError e = false /\
                RegistryErrors.IsBrokenImageError e = true
    end;
  get_stay t r : online r -> online (reg_GetRepoImage (ref_of addr t) r).2;

  try_keep t r : view (reg_TryGetRepoImage (ref_of addr t) r).2 = view r;
  try_ok t r o r' : reg_TryGetRepoImage (ref_of addr t) r = (Ok o, r') ->
    o = mjoin (view r !! t);
  try_online t r : online r -> exists o, (reg_TryGetRepoImage (ref_of addr t) r).1 = Ok o;
  try_stay t r : online r -> online (reg_TryGetRepoImage (ref_of addr t) r).2;

  (** Only the tag that is pushed changes; its image has the labels given and a
      digest of its own, since werf puts a random value in it. *)
  push_frame t l r t' : t' <> t ->
    view (reg_PushImage (ref_of addr t) l r).2 !! t' = view r !! t';
  push_ok t l r r' : reg_PushImage (ref_of addr t) l r = (Ok tt, r') ->
    exists i, view r' !! t = Some (Some i) /\ Image.Labels i = l /\
      forall t' j, t' <> t -> view r !! t' = Some (Some j) ->
        Image.RepoDigest j <> Image.RepoDigest i;
  push_online t l r : online r -> t <> "" -> Slug.IsValidDockerTag t = true ->
    (reg_PushImage (ref_of addr t) l r).1 = Ok tt;
  push_stay t l r : online r -> online (reg_PushImage (ref_of addr t) l r).2;

  (** Deleting an image removes its tag; where the registry deletes by digest, every
      tag of that digest. *)
  delete_frame i r t :
    view (reg_DeleteRepoImage i r).2 !! t = view r !! t \/
    view (reg_DeleteRepoImage i r).2 !! t = None /\
      exists j, view r !! t = Some (Some j) /\ Image.RepoDigest j = Image.RepoDigest i;
  delete_ok i t r r' : reg_DeleteRepoImage i r = (Ok tt, r') ->
    view r !! t = Some (Some i) -> view r' !! t = None;
  delete_online i t r : online r -> view r !! t = Some (Some i) ->
    (reg_DeleteRepoImage i r).1 = Ok tt;
  delete_stay i r : online r -> online (reg_DeleteRepoImage i r).2;

  copy_frame s t r t' : t' <> t ->
    view (reg_CopyImage s (ref_of addr t) r).2 !! t' = view r !! t';
  copy_ok s t r r' : reg_CopyImage s (ref_of addr t) r = (Ok tt, r') ->
    is_Some (view r' !! t);
}.
#[global] Hint Mode RegistryLaws ! - - - - : typeclass_instances.
Arguments view {R _ _ _} addr {_} r.
Arguments online {R _ _ _} addr {_} r.

(** * A registry in memory *)

#[export] Instance oci_codes : TransportCodes := {|
  BlobUnknownErrorCode := "BLOB_UNKNOWN";
  BlobUploadInvalidErrorCode := "BLOB_UPLOAD_INVALID";
  BlobUploadUnknownErrorCode := "BLOB_UPLOAD_UNKNOWN";
  DigestInvalidErrorCode := "DIGEST_INVALID";
  ManifestBlobUnknownErrorCode := "MANIFEST_BLOB_UNKNOWN";
  ManifestInvalidErrorCode := "MANIFEST_INVALID";
  ManifestUnknownErrorCode := "MANIFEST_UNKNOWN";
  ManifestUnverifiedErrorCode := "MANIFEST_UNVERIFIED";
  NameInvalidErrorCode := "NAME_INVALID";
  NameUnknownErrorCode := "NAME_UNKNOWN";
|}.

(** A quotation without escapes, for the texts of the witnesses' errors. *)
#[export] Instance plain_quote : GoQuote :=
  fun s => let q := String (Ascii.ascii_of_nat 34) "" in q +:+ s +:+ q.

Module MemRegistry.

Record Mem := mkMem {
  images : gmap string (option Image.Info);
  down : bool;
}.

Fixpoint longest (l : list (option Image.Info)) : nat :=
  match l with
  | [] => 0
  | Some i :: l' => Nat.max (Str.len (Image.RepoDigest i)) (longest l')
  | None :: l' => longest l'
  end.

Fixpoint pad (n : nat) : string :=
  match n with 0 => "" | S n' => String "0" (pad n') end.

(** A digest no image has. *)
Definition fresh_digest (m : gmap string (option Image.Info)) : string :=
  pad (S (longest (map_to_list m).*2)).

Definition record_image (ref digest : string) (labels : gmap string string) : Image.Info :=
  Image.mkInfo ref "" "" digest [] [] digest "" labels 0 0 ∅ false [].

Definition guard_up {A} (f : prog Mem A) : prog Mem A := fun m =>
  if down m then (Err (Errorf "registry is unavailable" []), m) else f m.

Definition repo_of (addr : string) (m : Mem) : list (string * option Image.Info) :=
  omap (fun '(k, v) =>
    if Str.HasPrefix k (addr +:+ ":")
    then Some (Str.drop (Str.len (addr +:+ ":")) k, v) else None) (map_to_list (images m)).

Definition set_image (ref : string) (o : option Image.Info) (m : Mem) : Mem :=
  mkMem (<[ref := o]> (images m)) (down m).

Definition get (ref : string) : prog Mem (option Image.Info) := guard_up (fun m =>
  match images m !! ref with
  | Some (Some i) => (Ok (Some i), m)
  | Some None => (Err (Errorf "MANIFEST_INVALID" []), m)
  | None => (Err (Errorf "MANIFEST_UNKNOWN" []), m)
  end).

Definition push (ref : string) (labels : gmap string string) : prog Mem unit :=
  guard_up (fun m =>
    (Ok tt, set_image ref (Some (record_image ref (fresh_digest (images m)) labels)) m)).

Definition has_digest (d : string) (o : option Image.Info) : bool :=
  match o with Some i => bool_decide (Image.RepoDigest i = d) | None => false end.

(** The configuration of an image. *)
Definition config_of (i : Image.Info) : Image.ConfigFile unit :=
  Image.mkConfigFile "" [] None (Some (Image.Labels i)) (Image.Env i) None "" [] [] "" "" None.

#[export] Instance mem_registry : DockerRegistry Mem := {|
  History := unit;
  reg_CreateRepo _ := fail (Errorf "method is not implemented" []);
  reg_DeleteRepo _ := fail (Errorf "method is not implemented" []);
  reg_Tags addr _ := guard_up (fun m => (Ok (repo_of addr m).*1, m));
  reg_IsTagExist ref _ := guard_up (fun m => (Ok (bool_decide (is_Some (images m !! ref))), m));
  reg_GetRepoImage := get;
  reg_TryGetRepoImage ref := guard_up (fun m => (Ok (mjoin (images m !! ref)), m));
  reg_TagRepoImage i tag := push (ref_of (Image.Repository i) tag) (Image.Labels i);
  reg_DeleteRepoImage i := guard_up (fun m =>
    (Ok tt, mkMem (filter (fun kv => has_digest (Image.RepoDigest i) kv.2 = false) (images m)) (down m)));
  reg_PushImage := push;
  reg_CopyImage src dst := guard_up (fun m =>
    match images m !! src with
    | Some o => (Ok tt, set_image dst o m)
    | None => (Err (Errorf "MANIFEST_UNKNOWN" []), m)
    end);
  reg_PushManifestList ref _ _ := push ref ∅;
  reg_MutateAndPushImage src dst f := guard_up (fun m =>
    match images m !! src with
    | Some (Some i) =>
        match f (config_of i) with
        | Ok c => (Ok tt, set_image dst (Some (record_image dst (fresh_digest (images m))
                            (default ∅ (Image.cfLabels c)))) m)
        | Err e => (Err e, m)
        | Panic p => (Panic p, m)
        end
    | _ => (Err (Errorf "MANIFEST_UNKNOWN" []), m)
    end);
|}.

(** ** The laws hold *)

Lemma len_pad n : Str.len (pad n) = n.
Proof. unfold Str.len. induction n as [|n IH]; simpl; [done|]. by rewrite IH. Qed.

Lemma longest_le l i : Some i ∈ l -> Str.len (Image.RepoDigest i) <= longest l.
Proof.
  induction l as [|x l IH]; [by rewrite elem_of_nil|]. rewrite elem_of_cons.
  intros [<-|H]; simpl; [lia|]. specialize (IH H). destruct x; lia.
Qed.

Lemma fresh_digest_ne m k i : m !! k = Some (Some i) -> Image.RepoDigest i <> fresh_digest m.
Proof.
  intros H E. apply elem_of_map_to_list, (list_elem_of_fmap_2 snd) in H.
  apply longest_le in H. rewrite E in H. unfold fresh_digest in H.
  rewrite len_pad in H. simpl in H. lia.
Qed.

Lemma ref_of_inj addr t t' : ref_of addr t = ref_of addr t' <-> t = t'.
Proof.
  unfold ref_of. split; [|congruence]. rewrite !Str.app_assoc. apply Str.app_inv_l.
Qed.

Definition mem_view (addr : string) (m : Mem) : gmap string (option Image.Info) :=
  list_to_map (repo_of addr m).

Lemma repo_of_elem addr m t o :
  (t, o) ∈ repo_of addr m <-> images m !! ref_of addr t = Some o.
Proof.
  unfold repo_of. rewrite list_elem_of_omap. split.
  - intros ([k v] & Hk & E). destruct (Str.HasPrefix k _) eqn:Hp; [|done]. simplify_eq.
    apply Str.HasPrefix_spec in Hp as [t ->]. rewrite Str.drop_app.
    apply elem_of_map_to_list in Hk. unfold ref_of. by rewrite Str.app_assoc.
  - intros H. exists (ref_of addr t, o). split; [by apply elem_of_map_to_list|].
    unfold ref_of. rewrite Str.app_assoc, Str.HasPrefix_app, Str.drop_app. done.
Qed.

Lemma repo_of_NoDup addr m : NoDup (repo_of addr m).*1.
Proof.
  unfold repo_of. pose proof (NoDup_fst_map_to_list (images m)) as H.
  induction (map_to_list (images m)) as [|[k v] l IH]; simpl; [constructor|].
  inversion H as [|?? Hn Hl]; subst. destruct (Str.HasPrefix k _) eqn:Hp; simpl; [|auto].
  constructor; [|auto]. rewrite list_elem_of_fmap. intros ([t o] & Et & Ht).
  apply list_elem_of_omap in Ht as ([k' v'] & Hk & E).
  destruct (Str.HasPrefix k' _) eqn:Hp'; [|done].
  apply Str.HasPrefix_spec in Hp as [x ->], Hp' as [y ->].
  rewrite Str.drop_app in E, Et. simpl in Et. simplify_eq.
  apply Hn, list_elem_of_fmap. by eexists (_, _).
Qed.

Lemma mem_view_lookup addr m t : mem_view addr m !! t = images m !! ref_of addr t.
Proof.
  unfold mem_view. destruct (images m !! _) eqn:E.
  - apply elem_of_list_to_map; [apply repo_of_NoDup|]. by apply repo_of_elem.
  - apply not_elem_of_list_to_map. intros H. apply list_elem_of_fmap in H as ([x o] & -> & H).
    apply repo_of_elem in H. simpl in E. congruence.
Qed.

Lemma mem_view_set addr t o m t' :
  mem_view addr (set_image (ref_of addr t) o m) !! t' =
  if bool_decide (t' = t) then Some o else mem_view addr m !! t'.
Proof.
  rewrite !mem_view_lookup. unfold set_image. simpl. case_bool_decide as E; subst.
  - apply lookup_insert_eq.
  - rewrite lookup_insert_ne; [done|]. by rewrite ref_of_inj.
Qed.

#[export] Program Instance mem_laws addr : RegistryLaws Mem addr := {|
  view := mem_view addr;
  online m := down m = false;
|}.
Next Obligation. intros addr c m. simpl. unfold guard_up. by destruct (down m). Qed.
Next Obligation.
  intros addr m l m' H. simpl in H. unfold guard_up in H.
  destruct (down m); [done|]. simplify_eq. split; [apply repo_of_NoDup|]. intros t.
  rewrite mem_view_lookup, list_elem_of_fmap. split.
  - intros ([x o] & -> & Hx). apply repo_of_elem in Hx. simpl. by eexists.
  - intros [o Ho]. exists (t, o). split; [done|by apply repo_of_elem].
Qed.
Next Obligation. intros addr c m H. simpl in *. unfold guard_up. rewrite H. by eexists. Qed.
Next Obligation. intros addr c m H. simpl in *. unfold guard_up. by rewrite H. Qed.
Next Obligation. intros addr c t m. simpl. unfold guard_up. by destruct (down m). Qed.
Next Obligation.
  intros addr t m b m' H. simpl in H. unfold guard_up in H.
  destruct (down m); [done|]. simplify_eq. by rewrite mem_view_lookup.
Qed.
Next Obligation. intros addr c t m H. simpl in *. unfold guard_up. rewrite H. by eexists. Qed.
Next Obligation. intros addr c t m H. simpl in *. unfold guard_up. by rewrite H. Qed.
Next Obligation.
  intros addr t m. simpl. unfold get, guard_up. destruct (down m); [done|].
  by destruct (images m !! _) as [[]|].
Qed.
Next Obligation.
  intros addr t m o m' H. simpl in H. unfold get, guard_up in H. rewrite mem_view_lookup.
  destruct (down m); [done|]. destruct (images m !! _) as [[]|]; naive_solver.
Qed.
Next Obligation.
  intros addr t m e m' H He. simpl in H. unfold get, guard_up in H. rewrite mem_view_lookup.
  destruct (down m); [by simplify_eq|].
  destruct (images m !! _) as [[]|]; [by simplify_eq..|done].
Qed.
Next Obligation.
  intros addr t m H. simpl in *. unfold get, guard_up. rewrite mem_view_lookup, H.
  destruct (images m !! _) as [[]|]; [done|..]; eexists; split; try done.
Qed.
Next Obligation.
  intros addr t m H. simpl in *. unfold get, guard_up. rewrite H.
  by destruct (images m !! _) as [[]|].
Qed.
Next Obligation. intros addr t m. simpl. unfold guard_up. by destruct (down m). Qed.
Next Obligation.
  intros addr t m o m' H. simpl in H. unfold guard_up in H. rewrite mem_view_lookup.
  destruct (down m); [done|]. by simplify_eq.
Qed.
Next Obligation. intros addr t m H. simpl in *. unfold guard_up. rewrite H. by eexists. Qed.
Next Obligation. intros addr t m H. simpl in *. unfold guard_up. by rewrite H. Qed.
Next Obligation.
  intros addr t l m t' H. simpl. unfold push, guard_up. destruct (down m); [done|]. simpl.
  rewrite mem_view_set. by rewrite bool_decide_eq_false_2.
Qed.
Next Obligation.
  intros addr t l m m' H. simpl in H. unfold push, guard_up in H.
  destruct (down m); [done|]. simplify_eq. eexists. rewrite mem_view_set.
  rewrite bool_decide_eq_true_2 by done. split; [done|]. split; [done|].
  intros t' j _ Hj. rewrite mem_view_lookup in Hj. by eapply fresh_digest_ne.
Qed.
Next Obligation. intros addr t l m H _ _. simpl in *. unfold push, guard_up. by rewrite H. Qed.
Next Obligation. intros addr t l m H. simpl in *. unfold push, guard_up. by rewrite H. Qed.
Next Obligation.
  intros addr i m t. simpl. unfold guard_up. destruct (down m); [by left|]. simpl.
  rewrite !mem_view_lookup. simpl. rewrite map_lookup_filter.
  destruct (images m !! _) as [o|]; simpl; [|by left].
  destruct (has_digest _ o) eqn:E; simpl; [right|by left].
  destruct o as [j|]; [|done]. apply bool_decide_eq_true in E. eauto.
Qed.
Next Obligation.
  intros addr i t m m' H Hi. simpl in H. unfold guard_up in H. destruct (down m); [done|].
  simplify_eq. rewrite mem_view_lookup in *. simpl. rewrite map_lookup_filter, Hi. simpl.
  by rewrite bool_decide_eq_true_2.
Qed.
Next Obligation. intros addr i t m H _. simpl in *. unfold guard_up. by rewrite H. Qed.
Next Obligation. intros addr i m H. simpl in *. unfold guard_up. by rewrite H. Qed.
Next Obligation.
  intros addr s t m t' H. simpl. unfold guard_up. destruct (down m); [done|].
  destruct (images m !! s); simpl; [|done]. rewrite mem_view_set.
  by rewrite bool_decide_eq_false_2.
Qed.
Next Obligation.
  intros addr s t m m' H. simpl in H. unfold guard_up in H. destruct (down m); [done|].
  destruct (images m !! s); [|done]. simplify_eq. rewrite mem_view_set.
  by rewrite bool_decide_eq_true_2.
Qed.

End MemRegistry.
