(* ===== verification/StagesStorage.v ===== *)
(** pkg/storage: the records kept in a stages storage with their labels, and the
    interface of a storage, a record of operations over the world [W] that a
    storage's client sees. *)
From S2P Require Import Prelude Go Image Registry.

Module StagesStorage.

Definition LocalStorageAddress : string := ":local".
Definition NamelessImageRecordTag : string := "__nameless__".

Definition ErrBrokenImage : error := Errorf "broken image" [].

Definition IsErrBrokenImage `{!GoQuote} (err : error) : bool :=
  Str.HasSuffix (err_text err) (err_text ErrBrokenImage).

Record ClientIDRecord := mkClientIDRecord { ClientID : string; ClientTs : Z }.
Record SyncServerRecord := mkSyncServerRecord { Server : string; ServerTs : Z }.
Record CleanupRecord := mkCleanupRecord { CleanupTs : Z }.

#[export] Instance ClientIDRecord_eq_dec : EqDecision ClientIDRecord.
Proof. solve_decision. Defined.
#[export] Instance SyncServerRecord_eq_dec : EqDecision SyncServerRecord.
Proof. solve_decision. Defined.

(** * custom_tag_metadata.go *)

Record CustomTagMetadata := mkCustomTagMetadata { MdStageID : string; MdTag : string }.

Definition newCustomTagMetadata (stageID tag : string) : CustomTagMetadata :=
  mkCustomTagMetadata stageID tag.

Definition CustomTagMetadata_ToLabels (m : CustomTagMetadata) : gmap string string :=
  {[ Image.WerfCustomTagMetadataStageIDLabel := MdStageID m;
     Image.WerfCustomTagMetadataTag := MdTag m ]}.

Definition newCustomTagMetadataFromLabels (labels : gmap string string) : CustomTagMetadata :=
  mkCustomTagMetadata (Image.label labels Image.WerfCustomTagMetadataStageIDLabel)
    (Image.label labels Image.WerfCustomTagMetadataTag).

(** * import_metadata.go *)

Record ImportMetadata := mkImportMetadata {
  ImportSourceID : string; SourceStageID : string; Checksum : string;
}.

Definition ImportMetadata_ToLabels (m : ImportMetadata) : list string :=
  [Image.WerfImportMetadataImportSourceIDLabel +:+ "=" +:+ ImportSourceID m;
   Image.WerfImportMetadataSourceStageIDLabel +:+ "=" +:+ SourceStageID m;
   Image.WerfImportMetadataChecksumLabel +:+ "=" +:+ Checksum m].

Definition ImportMetadata_ToLabelsMap (m : ImportMetadata) : gmap string string :=
  {[ Image.WerfImportMetadataImportSourceIDLabel := ImportSourceID m;
     Image.WerfImportMetadataSourceStageIDLabel := SourceStageID m;
     Image.WerfImportMetadataChecksumLabel := Checksum m ]}.

Definition newImportMetadataFromLabels (labels : gmap string string) : ImportMetadata :=
  mkImportMetadata (Image.label labels Image.WerfImportMetadataImportSourceIDLabel)
    (Image.label labels Image.WerfImportMetadataSourceStageIDLabel)
    (Image.label labels Image.WerfImportMetadataChecksumLabel).

(** * options.go *)

(** The options of a listing: whether the registry's tags may come from a cache. *)
Definition Option := bool.
Definition WithCache : Option := true.
Definition makeOptions (opts : list Option) : bool := existsb id opts.

(** * The interface, stages_storage.go *)

Abbreviation ImageMetadataMap := (gmap string (gmap string (list string))).

(** [RmiForce], or none of the options. *)
Record DeleteImageOptions := mkDeleteImageOptions { RmiForce : bool }.

Record FilterOptions := mkFilterOptions {
  SkipUsedImage : bool; RmForce : bool; RmContainersThatUseImage : bool;
}.

(** The operations that the clients below use. *)
Record Storage (W : Type) := mkStorage {
  Address : string;
  ConstructStageImageName : string -> string -> Z -> string;
  GetStagesIDs : string -> list Option -> prog W (list Image.StageID);
  GetStagesIDsByDigest : string -> string -> Z -> list Option -> prog W (list Image.StageID);
  GetStageDesc : string -> Image.StageID -> prog W (option Image.StageDesc);
  DeleteStage : Image.StageDesc -> DeleteImageOptions -> prog W unit;
  AddStageCustomTag : Image.StageDesc -> string -> prog W unit;
  CheckStageCustomTag : Image.StageDesc -> string -> prog W unit;
  DeleteStageCustomTag : string -> prog W unit;
  GetStageCustomTagMetadata : string -> prog W CustomTagMetadata;
  GetStageCustomTagMetadataIDs : list Option -> prog W (list string);
  RegisterStageCustomTag : string -> Image.StageDesc -> string -> prog W unit;
  UnregisterStageCustomTag : string -> prog W unit;
  RejectStage : string -> string -> Z -> prog W unit;
  CopyFromStorage : (string -> string -> Z -> string) -> string -> Image.StageID ->
    prog W (option Image.StageDesc);
  AddManagedImage : string -> string -> prog W unit;
  RmManagedImage : string -> string -> prog W unit;
  IsManagedImageExist : string -> string -> list Option -> prog W bool;
  GetManagedImages : string -> list Option -> prog W (list string);
  PutImageMetadata : string -> string -> string -> string -> prog W unit;
  RmImageMetadata : string -> string -> string -> string -> prog W unit;
  IsImageMetadataExist : string -> string -> string -> string -> list Option -> prog W bool;
  GetAllAndGroupImageMetadataByImageName : string -> list string -> list Option ->
    prog W (ImageMetadataMap * ImageMetadataMap);
  GetImportMetadata : string -> string -> prog W (option ImportMetadata);
  PutImportMetadata : string -> ImportMetadata -> prog W unit;
  RmImportMetadata : string -> string -> prog W unit;
  GetImportMetadataIDs : string -> list Option -> prog W (list string);
  GetClientIDRecords : string -> list Option -> prog W (list ClientIDRecord);
  PostClientIDRecord : string -> ClientIDRecord -> prog W unit;
  GetSyncServerRecords : string -> list Option -> prog W (list SyncServerRecord);
  PostSyncServerRecord : string -> SyncServerRecord -> prog W unit;
  GetLastCleanupRecord : string -> list Option -> prog W (option CleanupRecord);
  PostLastCleanupRecord : string -> prog W unit;
}.

(** * Round trips of the labels *)

Lemma label_insert_eq m k v : Image.label (<[k := v]> m) k = v.
Proof. unfold Image.label. by rewrite lookup_insert_eq. Qed.

Lemma label_insert_ne m k k' v :
  k <> k' -> Image.label (<[k := v]> m) k' = Image.label m k'.
Proof. intros. unfold Image.label. by rewrite lookup_insert_ne. Qed.

(** The labels of a record, with the project's label added, give the record. *)
Lemma CustomTagMetadata_labels p m :
  newCustomTagMetadataFromLabels (<[Image.WerfLabel := p]> (CustomTagMetadata_ToLabels m)) = m.
Proof. by destruct m. Qed.

Lemma ImportMetadata_labels p m :
  newImportMetadataFromLabels (<[Image.WerfLabel := p]> (ImportMetadata_ToLabelsMap m)) = m.
Proof. by destruct m. Qed.

End StagesStorage.
