(* ===== verification/RepoStorage.v ===== *)
(** pkg/storage/repo_stages_storage.go and tags.go: the stages storage kept in a
    container registry. Everything is a tag of one repository: stages
    "digest-timestamp", records of rejected stages, managed images, image
    metadata by commit, custom tags, import metadata, clients, and the last
    cleanup. This file holds the definitions; the theorems are in
    RepoStorageProps.v. *)
From S2P Require Import Prelude Go Slug Image Registry StagesStorage.
From Stdlib Require Import SpecFloat.

Module RepoStorage.
Import StagesStorage.

(** * Tags and names *)

Definition RepoManagedImageRecord_ImageTagPrefix : string := "managed-image-".
Definition RepoRejectedStageImageRecord_ImageTagSuffix : string := "-rejected".
Definition RepoImageMetadataByCommitRecord_ImageTagPrefix : string := "meta-".
Definition RepoCustomTagMetadata_ImageTagPrefix : string := "custom-tag-meta-".
Definition RepoImportMetadata_ImageTagPrefix : string := "import-metadata-".
Definition RepoClientIDRecord_ImageTagPrefix : string := "client-id-".
Definition RepoSyncServerRecord_ImageTagPrefix : string := "sync-server".
Definition RepoSyncServerRecord_LabelAddress : string := "syncserver".
Definition RepoSyncServerRecord_LabelTimestamp : string := "syncservertimestamp".
Definition UnexpectedTagFormatErrorPrefix : string := "unexpected tag format".
Definition RepoCleanUpRecord_ImageTagPrefix : string := "cleanup".
Definition RepoCleanUpRecord_LabelTimestamp : string := "lastcleanuptimestamp".

Definition getDigestAndCreationTsFromRepoStageImageTag (repoStageImageTag : string)
  : string * Z + error :=
  match Str.SplitN repoStageImageTag "-" 2 with
  | [p0] =>
      if Str.len p0 =? 56 then inl (p0, 0%Z)
      else inr (Errorf "%s: sha3-224 hash expected, got %q"
                  [FS UnexpectedTagFormatErrorPrefix; FQ p0])
  | [p0; p1] =>
      match Image.ParseCreationTs p1 with
      | inl creationTs => inl (p0, creationTs)
      | inr err =>
          inr (Wrapf "%s %s: unable to parse unique id %s as timestamp: %w"
                 [FS UnexpectedTagFormatErrorPrefix; FS repoStageImageTag; FS p1] err)
      end
  | _ => inr (Errorf "%s %s" [FS UnexpectedTagFormatErrorPrefix; FS repoStageImageTag])
  end.

Definition isUnexpectedTagFormatError `{!GoQuote} (err : error) : bool :=
  Str.HasPrefix (err_text err) UnexpectedTagFormatErrorPrefix.

(** The storage's own fields; the registry is in the world. *)
Record RepoStagesStorage := mkRepoStagesStorage {
  RepoAddress : string;
  cleanupDisabled : bool;
  gitHistoryBasedCleanupDisabled : bool;
  skipMetaCheck : bool;
}.

Definition NewRepoStagesStorage (repoAddress : string) (cleanupDisabled
  gitHistoryBasedCleanupDisabled skipMetaCheck : bool) : RepoStagesStorage :=
  mkRepoStagesStorage repoAddress cleanupDisabled gitHistoryBasedCleanupDisabled skipMetaCheck.

Definition ConstructStageImageName (st : RepoStagesStorage) (_ digest : string)
  (creationTs : Z) : string :=
  if (creationTs =? 0)%Z then RepoAddress st +:+ ":" +:+ digest
  else RepoAddress st +:+ ":" +:+ digest +:+ "-" +:+ itoa creationTs.

Definition makeRepoRejectedStageImageRecord (repoAddress digest : string) (creationTs : Z)
  : string :=
  repoAddress +:+ ":" +:+ digest +:+ "-" +:+ itoa creationTs +:+ "-rejected".

Definition slugImageName (imageName : string) : string :=
  let res := Str.ReplaceAll imageName " " "__space__" in
  let res := Str.ReplaceAll res "/" "__slash__" in
  let res := Str.ReplaceAll res "+" "__plus__" in
  if bool_decide (imageName = "") then NamelessImageRecordTag else res.

Definition unslugImageName (tag : string) : string :=
  let res := Str.ReplaceAll tag "__space__" " " in
  let res := Str.ReplaceAll res "__slash__" "/" in
  let res := Str.ReplaceAll res "__plus__" "+" in
  if bool_decide (res = NamelessImageRecordTag) then "" else res.

Definition getManagedImageNameFromManagedImageID (managedImageID : string) : string :=
  unslugImageName managedImageID.

Definition getImportMetadataIDFromRepoTag (tag : string) : string :=
  Str.TrimPrefix tag RepoImportMetadata_ImageTagPrefix.

Definition makeRepoImportMetadataName (repoAddress importSourceID : string) : string :=
  repoAddress +:+ ":import-metadata-" +:+ importSourceID.

Definition makeRepoImageMetadataTagNameByImageMetadataID
  (imageMetadataID commit stageID : string) : string :=
  "meta-" +:+ imageMetadataID +:+ "_" +:+ commit +:+ "_" +:+ stageID.

Definition makeRepoImageMetadataNameByImageMetadataID
  (repoAddress imageMetadataID commit stageID : string) : string :=
  Str.Join [repoAddress;
    makeRepoImageMetadataTagNameByImageMetadataID imageMetadataID commit stageID] ":".

Section names.
Variable LegacyMurmurHash : string -> string.

Definition getManagedImageID (imageNameOrManagedImageName : string) : res string :=
  let name := slugImageName imageNameOrManagedImageName in
  if Slug.IsValidDockerTag name then Ok name
  else Slug.LimitedSlug LegacyMurmurHash name
         (Slug.DockerTagMaxSize - Slug.zlen RepoManagedImageRecord_ImageTagPrefix)%Z.

Definition getManagedImageNameByImageNameOrManagedImage (name : string) : res string :=
  id ← getManagedImageID name; mret (getManagedImageNameFromManagedImageID id).

Definition getImageMetadataID (name : string) : res string :=
  n ← getManagedImageNameByImageNameOrManagedImage name; mret (LegacyMurmurHash n).

Definition makeRepoManagedImageRecord (repoAddress name : string) : res string :=
  id ← getManagedImageID name; mret (repoAddress +:+ ":managed-image-" +:+ id).

Definition makeRepoCustomTagMetadataRecord (repoAddress tag : string) : res string :=
  s ← Slug.LimitedSlug LegacyMurmurHash tag 48; mret (repoAddress +:+ ":custom-tag-meta-" +:+ s).

Definition makeRepoImageMetadataTagName (name commit stageID : string) : res string :=
  id ← getImageMetadataID name;
  mret (makeRepoImageMetadataTagNameByImageMetadataID id commit stageID).

Definition makeRepoImageMetadataName (repoAddress name commit stageID : string) : res string :=
  t ← makeRepoImageMetadataTagName name commit stageID; mret (Str.Join [repoAddress; t] ":").

(** The image that an image metadata ID stands for, by the list of names. *)
Fixpoint imageMetadataIDs (m : gmap string string) (names : list string)
  : res (gmap string string) :=
  match names with
  | [] => Ok m
  | n :: names' => id ← getImageMetadataID n; imageMetadataIDs (<[id := n]> m) names'
  end.

(** [res[imageName][stageID] = append(res[imageName][stageID], commit)]. *)
Definition addStageIDCommit (res : ImageMetadataMap) (imageName stageID commit : string)
  : ImageMetadataMap :=
  let stageIDCommitList := default ∅ (res !! imageName) in
  <[imageName := <[stageID := default [] (stageIDCommitList !! stageID) ++ [commit]]>
      stageIDCommitList]> res.

Definition groupTag (ids : gmap string string) (imageTagPrefix : string)
  (acc : ImageMetadataMap * ImageMetadataMap) (tag : string)
  : ImageMetadataMap * ImageMetadataMap :=
  if negb (Str.HasPrefix tag imageTagPrefix) then acc
  else match Str.Split (Str.TrimPrefix tag imageTagPrefix) "_" with
       | [tagImageNameID; tagCommit; tagStageID] =>
           match ids !! tagImageNameID with
           | Some imageName => (addStageIDCommit acc.1 imageName tagStageID tagCommit, acc.2)
           | None => (acc.1, addStageIDCommit acc.2 tagImageNameID tagStageID tagCommit)
           end
       | _ => acc
       end.

Definition groupImageMetadataTagsByImageName (names tags : list string)
  (imageTagPrefix : string) : res (ImageMetadataMap * ImageMetadataMap) :=
  ids ← imageMetadataIDs ∅ names;
  mret (foldl (groupTag ids imageTagPrefix) (∅, ∅) tags).

End names.

(** * The world of a storage operation *)

Record World (R : Type) := mkWorld {
  registry : R;
  (** the addresses whose [sync.Once] has run *)
  warnMetaTagsOverflowOnce : gset string;
  (** the global warnings printed *)
  global_warnings : list string;
  (** the time, in nanoseconds since the epoch *)
  now : Z;
}.
Arguments mkWorld {R} _ _ _ _.
Arguments registry {R} _.
Arguments warnMetaTagsOverflowOnce {R} _.
Arguments global_warnings {R} _.
Arguments now {R} _.

(** A call of the registry. *)
Definition reg {R A} (m : prog R A) : prog (World R) A := fun w =>
  let '(r, x) := m (registry w) in
  (r, mkWorld x (warnMetaTagsOverflowOnce w) (global_warnings w) (now w)).

Definition time_now {R} : prog (World R) Z := fun w => (Ok (now w), w).

Definition GlobalWarningLn {R} (msg : string) : prog (World R) unit := fun w =>
  (Ok tt, mkWorld (registry w) (warnMetaTagsOverflowOnce w)
            (global_warnings w ++ [msg]) (now w)).

(** Marks the once of an address; the result tells whether it had not run. *)
Definition once_first {R} (addr : string) : prog (World R) bool := fun w =>
  (Ok (bool_decide (addr ∉ warnMetaTagsOverflowOnce w)),
   mkWorld (registry w) ({[addr]} ∪ warnMetaTagsOverflowOnce w) (global_warnings w) (now w)).

(** * Meta tags, tags.go *)

Definition cleanupTriggerTagCount : nat := 100.
Definition repoMetaImagesWarningThresholdPercent : Z := 80.
Definition repoCleanupLastTimeNever : string := "never".
Definition repoCleanupOverdueThreshold : Z := (14 * 24 * 3600 * 1000000000)%Z.

Definition warnTemplateLastCleanupOverdue (t : string) : string :=
  "The `werf cleanup` command has not been run for a long time: " +:+ t +:+
  ". This may lead to an accumulation of outdated images and metadata in the container registry." +:+
  String (Ascii.ascii_of_nat 10) "".

Definition warnTemplateMetaTagsExceed (repo percent : string) (metaCount total : Z) : string :=
  "The number of meta tags in the " +:+ repo +:+
  " repository exceeds the normal threshold of " +:+ percent +:+ "%! (" +:+ itoa metaCount +:+
  " of " +:+ itoa total +:+
  " tags are meta tags). This may impact tag listing performance and increase command execution time." +:+
  String (Ascii.ascii_of_nat 10) "".

Definition warnTemplateAdvice : string :=
"— To clean up the container registry from outdated images and meta tags, it is recommended to periodically run the 'werf cleanup' command.
— To disable the Git history-based cleanup policy and prevent meta images from being published to the container registry while keeping other cleanup strategies, set 'cleanup.disableGitHistoryBasedPolicy: true' in the werf configuration file.
— To disable all cleanup policies and suppress this warning, set 'cleanup.disable: true'.".

Definition ErrCleanupNotOverdue : error :=
  Errorf "cleanup is not overdue, no need to warning" [].

Definition countMetaTags (tags : list string) : nat :=
  length (filter (fun t =>
    Str.HasPrefix t RepoImageMetadataByCommitRecord_ImageTagPrefix = true) tags).

(** float64 arithmetic: rounding to nearest, 53 bits of mantissa. *)
Definition f64_of_Z (z : Z) : spec_float := binary_normalize 53 1024 z 0 false.

Definition percentOf (metaCount total : Z) : spec_float :=
  SFmul 53 1024 (SFdiv 53 1024 (f64_of_Z metaCount) (f64_of_Z total)) (f64_of_Z 100).

(** [%.0f] of a non-negative float: the nearest integer, ties to even. *)
Definition format0f (f : spec_float) : string :=
  match f with
  | S754_finite _ m e =>
      if (0 <=? e)%Z then itoa (Zpos m * 2 ^ e)
      else let d := (2 ^ (- e))%Z in
           let q := (Zpos m / d)%Z in
           let r := (Zpos m mod d)%Z in
           itoa (if (d <? 2 * r)%Z || ((2 * r =? d)%Z && Z.odd q) then q + 1 else q)
  | S754_zero _ => "0"
  | S754_infinity _ => "+Inf"
  | S754_nan => "NaN"
  end.

Definition checkMetaTags (st : RepoStagesStorage) (tags : list string) (b : string) : string :=
  let metaCount := Z.of_nat (countMetaTags tags) in
  if (metaCount =? 0)%Z then b
  else
    let total := Z.of_nat (length tags) in
    let percent := percentOf metaCount total in
    if SFltb (f64_of_Z repoMetaImagesWarningThresholdPercent) percent
    then b +:+ warnTemplateMetaTagsExceed (RepoAddress st) (format0f percent) metaCount total
    else b.

Definition isCleanupOverdue (lastCleanup : option CleanupRecord) (now : Z) : bool :=
  match lastCleanup with
  | None => true
  | Some rec =>
      if (CleanupTs rec =? 0)%Z then true
      else (repoCleanupOverdueThreshold <? now - CleanupTs rec * 1000000)%Z
  end.

(** [time.Time.UnixMilli]. *)
Definition UnixMilli (t : Z) : Z := (t / 1000000)%Z.


(** * The operations *)

Section ops.
Context {R : Type} `{!DockerRegistry R, !GoQuote, !TransportCodes}.
Variable LegacyMurmurHash : string -> string.
(** [util.Reverse] of the common library. *)
Variable Reverse : string -> string.
(** [time.UnixMilli(ms).Format(time.RFC3339)] in the local time zone. *)
Variable FormatRFC3339 : Z -> string.
Variable st : RepoStagesStorage.

Abbreviation prog := (prog (World R)).

Definition formatLastCleanupTime (lastCleanup : option CleanupRecord) : string :=
  match lastCleanup with
  | Some rec => if (0 <? CleanupTs rec)%Z then FormatRFC3339 (CleanupTs rec)
                else repoCleanupLastTimeNever
  | None => repoCleanupLastTimeNever
  end.

Fixpoint getLastCleanupRecord (repoAddress : string) (tags : list string)
  : prog (option CleanupRecord) :=
  match tags with
  | [] => mret None
  | tag :: tags' =>
      if Str.HasPrefix tag RepoCleanUpRecord_ImageTagPrefix then
        img ← reg (reg_GetRepoImage (ref_of repoAddress tag));
        match img with
        | None => panic "nil pointer dereference"
        | Some i =>
            match Image.Labels i !! RepoCleanUpRecord_LabelTimestamp with
            | None => getLastCleanupRecord repoAddress tags'
            | Some ts =>
                match ParseInt ts with
                | None => getLastCleanupRecord repoAddress tags'
                | Some timestampMillisec => mret (Some (mkCleanupRecord timestampMillisec))
                end
            end
        end
      else getLastCleanupRecord repoAddress tags'
  end.

Definition checkLastCleanup (tags : list string) (b : string) : prog (string + error) :=
  match tags with
  | [] => mret (inl b)
  | _ =>
      r ← try (wrap "getting last cleanup record: %w" []
                 (getLastCleanupRecord (RepoAddress st) tags));
      match r with
      | inr err => mret (inr err)
      | inl lastCleanup =>
          now ← time_now;
          let lastCleanupTime := formatLastCleanupTime lastCleanup in
          if bool_decide (lastCleanupTime = repoCleanupLastTimeNever)
             || isCleanupOverdue lastCleanup now
          then mret (inl (b +:+ warnTemplateLastCleanupOverdue lastCleanupTime))
          else mret (inr ErrCleanupNotOverdue)
      end
  end.

(** The message that the checks build; an error of the first check other than
    [ErrCleanupNotOverdue] is dropped. *)
Definition runCleanupNeededChecks (tags : list string) (b : string) : prog string :=
  r ← checkLastCleanup tags b;
  match r with
  | inr err =>
      if errors_Is err ErrCleanupNotOverdue then mret b
      else mret (checkMetaTags st tags b)
  | inl b' => mret (checkMetaTags st tags b')
  end.

Definition checkMeta (tags : list string) : prog unit :=
  if (length tags <? cleanupTriggerTagCount) || cleanupDisabled st then mret tt
  else
    first ← once_first (RepoAddress st);
    if (first : bool) then
      warnMessage ← runCleanupNeededChecks tags "";
      if bool_decide (warnMessage = "") then mret tt
      else GlobalWarningLn (warnMessage +:+ warnTemplateAdvice)
    else mret tt.

(** [storage.Tags]: an error of [checkMeta] is logged only. *)
Definition Tags (reference : string) (cached : bool) : prog (list string) :=
  tags ← reg (reg_Tags reference cached);
  (if skipMetaCheck st then mret tt else try (checkMeta tags) ;; mret tt) ;;
  mret tags.

Definition list_tags (f : string) (arg : string -> farg) (opts : list Option)
  : prog (list string) :=
  wrap f [arg (RepoAddress st)] (Tags (RepoAddress st) (makeOptions opts)).

Fixpoint stagesIDsOfTags (tags : list string) (res : list Image.StageID)
  : prog (list Image.StageID) :=
  match tags with
  | [] => mret res
  | tag :: tags' =>
      let isRegularStage := (Str.len tag =? 70) && (length (Str.Split tag "-") =? 2) in
      let isMultiplatformStage := Str.len tag =? 56 in
      if negb isRegularStage && negb isMultiplatformStage then stagesIDsOfTags tags' res
      else if Str.HasPrefix tag RepoManagedImageRecord_ImageTagPrefix
           || Str.HasPrefix tag RepoImageMetadataByCommitRecord_ImageTagPrefix
           || Str.HasSuffix tag RepoRejectedStageImageRecord_ImageTagSuffix
      then stagesIDsOfTags tags' res
      else match getDigestAndCreationTsFromRepoStageImageTag tag with
           | inr err =>
               if isUnexpectedTagFormatError err then stagesIDsOfTags tags' res else fail err
           | inl (digest, creationTs) =>
               stagesIDsOfTags tags' (res ++ [Image.NewStageID digest creationTs])
           end
  end.

Definition GetStagesIDs (_ : string) (opts : list Option) : prog (list Image.StageID) :=
  tags ← list_tags "unable to fetch tags for repo %q: %w" FQ opts;
  stagesIDsOfTags tags [].

(** The label names that start with "werf" go, then the caller's mutation applies. *)
Definition mutateExportStageConfig {H}
  (mutateConfigFunc : option (Image.ConfigFile H -> res (Image.ConfigFile H)))
  (config : Image.ConfigFile H) : res (Image.ConfigFile H) :=
  let config' :=
    Image.mkConfigFile (Image.cfAuthor config) (Image.cfHistory config) (Image.cfVolumes config)
      (filter (fun kv => Str.HasPrefix kv.1 Image.WerfLabelPrefix = false) <$> Image.cfLabels config)
      (Image.cfEnv config) (Image.cfExposedPorts config) (Image.cfUser config)
      (Image.cfCmd config) (Image.cfEntrypoint config) (Image.cfWorkingDir config)
      (Image.cfStopSignal config) (Image.cfHealthcheck config) in
  match mutateConfigFunc with
  | Some f => f config'
  | None => Ok config'
  end.

Definition ExportStage (stageDesc : Image.StageDesc) (destinationReference : string)
  (mutateConfigFunc : option (Image.ConfigFile History -> res (Image.ConfigFile History)))
  : prog unit :=
  reg (reg_MutateAndPushImage (Image.Name (Image.SDInfo stageDesc)) destinationReference
         (mutateExportStageConfig mutateConfigFunc)).

Definition DeleteStage (stageDesc : Image.StageDesc) (_ : DeleteImageOptions) : prog unit :=
  let info := Image.SDInfo stageDesc in
  let id := Image.SDStageID stageDesc in
  wrap "unable to remove repo image %s: %w" [FS (Image.Name info)]
    (reg (reg_DeleteRepoImage info)) ;;
  let rejectedImageName :=
    makeRepoRejectedStageImageRecord (RepoAddress st) (Image.Digest id) (Image.CreationTs id) in
  rejectedImgInfo ← wrap "unable to get rejected image record %q: %w" [FQ rejectedImageName]
    (reg (reg_TryGetRepoImage rejectedImageName));
  match rejectedImgInfo with
  | None => mret tt
  | Some rejected =>
      wrap "unable to remove rejected image record %q: %w" [FQ rejectedImageName]
        (reg (reg_DeleteRepoImage rejected))
  end.

Definition RejectStage (projectName digest : string) (creationTs : Z) : prog unit :=
  let rejectedImageName := makeRepoRejectedStageImageRecord (RepoAddress st) digest creationTs in
  wrap "unable to push rejected stage image record %s: %w" [FS rejectedImageName]
    (reg (reg_PushImage rejectedImageName {[ Image.WerfLabel := projectName ]})).

Definition CreateRepo : prog unit := reg (reg_CreateRepo (RepoAddress st)).
Definition DeleteRepo : prog unit := reg (reg_DeleteRepo (RepoAddress st)).

Fixpoint rejectedStagesOfTags (digest : string) (tags : list string) (res : list Image.StageID)
  : prog (list Image.StageID) :=
  match tags with
  | [] => mret res
  | tag :: tags' =>
      if negb (Str.HasSuffix tag RepoRejectedStageImageRecord_ImageTagSuffix)
      then rejectedStagesOfTags digest tags' res
      else
        let realTag := Str.TrimSuffix tag RepoRejectedStageImageRecord_ImageTagSuffix in
        match getDigestAndCreationTsFromRepoStageImageTag realTag with
        | inr err =>
            if isUnexpectedTagFormatError err then rejectedStagesOfTags digest tags' res
            else fail (Wrapf
              "unable to get digest and creation timestamp from rejected stage tag %q: %w"
              [FQ tag] err)
        | inl (_, creationTs) =>
            rejectedStagesOfTags digest tags' (res ++ [Image.NewStageID digest creationTs])
        end
  end.

Definition isRejected (rejectedStages : list Image.StageID) (stageID : Image.StageID) : bool :=
  existsb (fun rejectedStage =>
    bool_decide (Image.Digest rejectedStage = Image.Digest stageID)
    && (Image.CreationTs rejectedStage =? Image.CreationTs stageID)%Z) rejectedStages.

Fixpoint suitableStagesOfTags (digest : string) (parentStageCreationTs : Z)
  (rejectedStages : list Image.StageID) (tags : list string) (res : list Image.StageID)
  : prog (list Image.StageID) :=
  match tags with
  | [] => mret res
  | tag :: tags' =>
      let continue := suitableStagesOfTags digest parentStageCreationTs rejectedStages tags' in
      if negb (Str.HasPrefix tag digest) then continue res
      else if Str.HasSuffix tag RepoRejectedStageImageRecord_ImageTagSuffix then continue res
      else match getDigestAndCreationTsFromRepoStageImageTag tag with
           | inr err =>
               if isUnexpectedTagFormatError err then continue res
               else fail (Wrapf "unable to get digest and creation timestamp from tag %q: %w"
                            [FQ tag] err)
           | inl (_, creationTs) =>
               if (creationTs <? parentStageCreationTs)%Z then continue res
               else
                 let stageID := Image.NewStageID digest creationTs in
                 if isRejected rejectedStages stageID then continue res
                 else continue (res ++ [stageID])
           end
  end.

Definition GetStagesIDsByDigest (_ digest : string) (parentStageCreationTs : Z)
  (opts : list Option) : prog (list Image.StageID) :=
  tags ← list_tags "unable to fetch tags for repo %q: %w" FQ opts;
  rejectedStages ← rejectedStagesOfTags digest tags [];
  suitableStagesOfTags digest parentStageCreationTs rejectedStages tags [].

Definition GetStageDesc (projectName : string) (stageID : Image.StageID)
  : prog (option Image.StageDesc) :=
  let stageImageName :=
    ConstructStageImageName st projectName (Image.Digest stageID) (Image.CreationTs stageID) in
  r ← try (reg (reg_GetRepoImage stageImageName));
  match r with
  | inr err =>
      if RegistryErrors.IsImageNotFoundError err then mret None
      else if RegistryErrors.IsBrokenImageError err then fail ErrBrokenImage
      else fail (Wrapf "unable to inspect repo image %s: %w" [FS stageImageName] err)
  | inl imgInfo =>
      let rejectedImageName := makeRepoRejectedStageImageRecord (RepoAddress st)
        (Image.Digest stageID) (Image.CreationTs stageID) in
      rejectedImgInfo ← wrap "unable to get repo image %q: %w" [FQ rejectedImageName]
        (reg (reg_TryGetRepoImage rejectedImageName));
      match rejectedImgInfo, imgInfo with
      | Some _, _ => mret None
      | None, Some info =>
          mret (Some (Image.mkStageDesc
            (Image.NewStageID (Image.Digest stageID) (Image.CreationTs stageID)) info))
      (* the description would hold a nil Info, which its users dereference *)
      | None, None => panic "nil pointer dereference"
      end
  end.

(** ** Custom tags *)

Definition tag_name (tag : string) : string := Str.Join [RepoAddress st; tag] ":".

Definition CheckStageCustomTag (stageDesc : Image.StageDesc) (tag : string) : prog unit :=
  customTagImgInfo ← reg (reg_TryGetRepoImage (tag_name tag));
  match customTagImgInfo with
  | None => fail (Errorf "custom tag %q not found" [FQ tag])
  | Some i =>
      if bool_decide (Image.ID i = Image.ID (Image.SDInfo stageDesc)) then mret tt
      else fail (Errorf
        "custom tag %q image must be the same as associated content-based tag %q image"
        [FQ tag; FQ (Image.StageID_String (Image.SDStageID stageDesc))])
  end.

Definition AddStageCustomTag (stageDesc : Image.StageDesc) (tag : string) : prog unit :=
  reg (reg_TagRepoImage (Image.SDInfo stageDesc) tag).

Definition DeleteStageCustomTag (tag : string) : prog unit :=
  imgInfo ← wrap "unable to get repo image %q info: %w" [FQ (tag_name tag)]
    (reg (reg_TryGetRepoImage (tag_name tag)));
  match imgInfo with
  | None => mret tt
  | Some i => wrap "unable to delete image %q from repo: %w" [FQ (tag_name tag)]
                (reg (reg_DeleteRepoImage i))
  end.

Definition addStageCustomTagMetadata (projectName : string) (stageDesc : Image.StageDesc)
  (tag : string) : prog unit :=
  fullImageName ← lift (makeRepoCustomTagMetadataRecord LegacyMurmurHash (RepoAddress st) tag);
  let metadata := newCustomTagMetadata (Image.StageID_String (Image.SDStageID stageDesc)) tag in
  wrap "unable to push image %s: %w" [FS fullImageName]
    (reg (reg_PushImage fullImageName
      (<[Image.WerfLabel := projectName]> (CustomTagMetadata_ToLabels metadata)))).

Definition deleteStageCustomTagMetadata (tagOrID : string) : prog unit :=
  fullImageName ← lift (makeRepoCustomTagMetadataRecord LegacyMurmurHash (RepoAddress st) tagOrID);
  imgInfo ← wrap "unable to get repo image %q info: %w" [FQ fullImageName]
    (reg (reg_GetRepoImage fullImageName));
  match imgInfo with
  | None => panic "unexpected condition"
  | Some i => wrap "unable to delete image %q from repo: %w" [FQ fullImageName]
                (reg (reg_DeleteRepoImage i))
  end.

Definition GetStageCustomTagMetadata (tagOrID : string) : prog CustomTagMetadata :=
  fullImageName ← lift (makeRepoCustomTagMetadataRecord LegacyMurmurHash (RepoAddress st) tagOrID);
  img ← wrap "unable to get repo image %s: %w" [FS fullImageName]
    (reg (reg_GetRepoImage fullImageName));
  match img with
  | None => panic "unexpected condition"
  | Some i => mret (newCustomTagMetadataFromLabels (Image.Labels i))
  end.

(** The rest of every tag that has a prefix, in order. *)
Definition tags_with_prefix (p : string) (tags : list string) : list string :=
  (fun tag => Str.TrimPrefix tag p) <$> filter (fun tag => Str.HasPrefix tag p = true) tags.

Definition GetStageCustomTagMetadataIDs (opts : list Option) : prog (list string) :=
  tags ← list_tags "unable to get repo %s tags: %w" FS opts;
  mret (tags_with_prefix RepoCustomTagMetadata_ImageTagPrefix tags).

Definition RegisterStageCustomTag (projectName : string) (stageDesc : Image.StageDesc)
  (tag : string) : prog unit :=
  wrap "unable to add stage custom tag metadata: %w" []
    (addStageCustomTagMetadata projectName stageDesc tag).

Definition UnregisterStageCustomTag (tag : string) : prog unit :=
  wrap "unable to delete stage custom tag metadata: %w" [] (deleteStageCustomTagMetadata tag).

(** ** Managed images *)

Definition AddManagedImage (projectName name : string) : prog unit :=
  fullImageName ← lift (makeRepoManagedImageRecord LegacyMurmurHash (RepoAddress st) name);
  wrap "unable to push image %s: %w" [FS fullImageName]
    (reg (reg_PushImage fullImageName {[ Image.WerfLabel := projectName ]})).

Definition RmManagedImage (projectName name : string) : prog unit :=
  fullImageName ← lift (makeRepoManagedImageRecord LegacyMurmurHash (RepoAddress st) name);
  imgInfo ← wrap "unable to get repo image %q info: %w" [FQ fullImageName]
    (reg (reg_TryGetRepoImage fullImageName));
  match imgInfo with
  | None => mret tt
  | Some i => wrap "unable to delete image %q from repo: %w" [FQ fullImageName]
                (reg (reg_DeleteRepoImage i))
  end.

Definition IsManagedImageExist (_ name : string) (opts : list Option) : prog bool :=
  fullImageName ← lift (makeRepoManagedImageRecord LegacyMurmurHash (RepoAddress st) name);
  reg (reg_IsTagExist fullImageName (makeOptions opts)).

Definition GetManagedImages (projectName : string) (opts : list Option) : prog (list string) :=
  tags ← list_tags "unable to get repo %s tags: %w" FS opts;
  mret (getManagedImageNameFromManagedImageID
          <$> tags_with_prefix RepoManagedImageRecord_ImageTagPrefix tags).

(** ** Image metadata *)

Definition PutImageMetadata (projectName name commit stageID : string) : prog unit :=
  fullImageName ← lift
    (makeRepoImageMetadataName LegacyMurmurHash (RepoAddress st) name commit stageID);
  wrap "unable to push image %s: %w" [FS fullImageName]
    (reg (reg_PushImage fullImageName {[ Image.WerfLabel := projectName ]})).

Definition tryGetRepoImageFunc (fullImageName : string) : prog (option Image.Info) :=
  wrap "unable to get repo image %s: %w" [FS fullImageName]
    (reg (reg_TryGetRepoImage fullImageName)).

Definition selectMetadataNameImage (nameOrID commit stageID : string)
  : prog (option Image.Info) :=
  dockerImageName ← lift
    (makeRepoImageMetadataName LegacyMurmurHash (RepoAddress st) nameOrID commit stageID);
  img ← tryGetRepoImageFunc dockerImageName;
  match img with
  | Some i => mret (Some i)
  | None =>
      if negb (Slug.IsValidDockerTag
                 (makeRepoImageMetadataTagNameByImageMetadataID nameOrID commit stageID))
      then mret None
      else tryGetRepoImageFunc
        (makeRepoImageMetadataNameByImageMetadataID (RepoAddress st) nameOrID commit stageID)
  end.

Definition RmImageMetadata (projectName nameOrID commit stageID : string) : prog unit :=
  img ← selectMetadataNameImage nameOrID commit stageID;
  match img with
  | None => mret tt
  | Some i => wrap "unable to remove repo image %s: %w" [FS (Image.Tag i)]
                (reg (reg_DeleteRepoImage i))
  end.

Definition IsImageMetadataExist (projectName name commit stageID : string) (opts : list Option)
  : prog bool :=
  fullImageName ← lift
    (makeRepoImageMetadataName LegacyMurmurHash (RepoAddress st) name commit stageID);
  reg (reg_IsTagExist fullImageName (makeOptions opts)).

Definition GetAllAndGroupImageMetadataByImageName (projectName : string)
  (names : list string) (opts : list Option) : prog (ImageMetadataMap * ImageMetadataMap) :=
  tags ← list_tags "unable to get repo %s tags: %w" FS opts;
  lift (groupImageMetadataTagsByImageName LegacyMurmurHash names tags
          RepoImageMetadataByCommitRecord_ImageTagPrefix).

(** ** Import metadata *)

Definition GetImportMetadata (_ id : string) : prog (option ImportMetadata) :=
  let fullImageName := makeRepoImportMetadataName (RepoAddress st) id in
  img ← wrap "unable to get repo image %s: %w" [FS fullImageName]
    (reg (reg_TryGetRepoImage fullImageName));
  mret ((fun i => newImportMetadataFromLabels (Image.Labels i)) <$> img).

Definition PutImportMetadata (projectName : string) (metadata : ImportMetadata) : prog unit :=
  let fullImageName := makeRepoImportMetadataName (RepoAddress st) (ImportSourceID metadata) in
  wrap "unable to push image %s: %w" [FS fullImageName]
    (reg (reg_PushImage fullImageName
      (<[Image.WerfLabel := projectName]> (ImportMetadata_ToLabelsMap metadata)))).

Definition RmImportMetadata (_ id : string) : prog unit :=
  let fullImageName := makeRepoImportMetadataName (RepoAddress st) id in
  img ← wrap "unable to get repo image %s: %w" [FS fullImageName]
    (reg (reg_TryGetRepoImage fullImageName));
  match img with
  | None => mret tt
  | Some i => wrap "unable to remove repo image %s: %w" [FS (Image.Tag i)]
                (reg (reg_DeleteRepoImage i))
  end.

Definition GetImportMetadataIDs (_ : string) (opts : list Option) : prog (list string) :=
  tags ← list_tags "unable to get repo %s tags: %w" FS opts;
  mret (getImportMetadataIDFromRepoTag
          <$> filter (fun tag => Str.HasPrefix tag RepoImportMetadata_ImageTagPrefix = true) tags).

(** ** Clients, synchronization servers, the last cleanup *)

Definition clientIDRecordOfTag (tag : string) : option ClientIDRecord :=
  if negb (Str.HasPrefix tag RepoClientIDRecord_ImageTagPrefix) then None
  else
    let tagWithoutPrefix := Str.TrimPrefix tag RepoClientIDRecord_ImageTagPrefix in
    match Str.SplitN (Reverse tagWithoutPrefix) "-" 2 with
    | [p0; p1] =>
        match ParseInt (Reverse p0) with
        | Some timestampMillisec => Some (mkClientIDRecord (Reverse p1) timestampMillisec)
        | None => None
        end
    | _ => None
    end.

Definition GetClientIDRecords (projectName : string) (opts : list Option)
  : prog (list ClientIDRecord) :=
  tags ← list_tags "unable to get repo %s tags: %w" FS opts;
  mret (omap clientIDRecordOfTag tags).

Definition PostClientIDRecord (projectName : string) (rec : ClientIDRecord) : prog unit :=
  let fullImageName :=
    RepoAddress st +:+ ":client-id-" +:+ ClientID rec +:+ "-" +:+ itoa (ClientTs rec) in
  wrap "unable to push image %s: %w" [FS fullImageName]
    (reg (reg_PushImage fullImageName {[ Image.WerfLabel := projectName ]})).

Definition PostMultiplatformImage (projectName tag : string)
  (allPlatformsImages : list Image.Info) (platforms : list string) : prog unit :=
  let fullImageName := RepoAddress st +:+ ":" +:+ tag in
  wrap "unable to push image %s: %w" [FS fullImageName]
    (reg (reg_PushManifestList fullImageName allPlatformsImages platforms)).

Definition CopyFromStorage (src_ConstructStageImageName : string -> string -> Z -> string)
  (projectName : string) (stageID : Image.StageID) : prog (option Image.StageDesc) :=
  let get := wrap "unable to get stage %s description: %w" [FS (Image.StageID_String stageID)]
               (GetStageDesc projectName stageID) in
  desc ← get;
  match desc with
  | Some _ => mret desc
  | None =>
      let srcRef := src_ConstructStageImageName projectName (Image.Digest stageID)
                      (Image.CreationTs stageID) in
      let dstRef := ConstructStageImageName st projectName (Image.Digest stageID)
                      (Image.CreationTs stageID) in
      wrap "unable to copy image into registry: %w" [] (reg (reg_CopyImage srcRef dstRef)) ;;
      get
  end.

Definition FilterStageDescSetAndProcessRelatedData `{Countable A}
  (stageDescSet : gset A) (_ : FilterOptions) : prog (gset A) := mret stageDescSet.

Fixpoint syncServerRecordsOfTags (tags : list string) (res : list SyncServerRecord)
  : prog (list SyncServerRecord) :=
  match tags with
  | [] => mret res
  | tag :: tags' =>
      if negb (Str.HasPrefix tag RepoSyncServerRecord_ImageTagPrefix)
      then syncServerRecordsOfTags tags' res
      else
        img ← reg (reg_GetRepoImage (ref_of (RepoAddress st) tag));
        match img with
        | None => panic "nil pointer dereference"
        | Some i =>
            match Image.Labels i !! RepoSyncServerRecord_LabelAddress with
            | None => syncServerRecordsOfTags tags' res
            | Some server =>
                match ParseInt (Image.label (Image.Labels i) RepoSyncServerRecord_LabelTimestamp) with
                | None => syncServerRecordsOfTags tags' res
                | Some ts => syncServerRecordsOfTags tags' (res ++ [mkSyncServerRecord server ts])
                end
            end
        end
  end.

Definition GetSyncServerRecords (projectName : string) (opts : list Option)
  : prog (list SyncServerRecord) :=
  tags ← list_tags "unable to get repo %s tags: %w" FS opts;
  syncServerRecordsOfTags tags [].

Definition PostSyncServerRecord (projectName : string) (rec : SyncServerRecord) : prog unit :=
  let fullImageName := RepoAddress st +:+ ":sync-server" in
  wrap "unable to push image %s: %w" [FS fullImageName]
    (reg (reg_PushImage fullImageName
      {[ Image.WerfLabel := projectName;
         RepoSyncServerRecord_LabelAddress := Server rec;
         RepoSyncServerRecord_LabelTimestamp := itoa (ServerTs rec) ]})).

Definition GetLastCleanupRecord (projectName : string) (opts : list Option)
  : prog (option CleanupRecord) :=
  tags ← list_tags "unable to get repo %s tags: %w" FS opts;
  wrap "unable to get last cleanup record: %w" [] (getLastCleanupRecord (RepoAddress st) tags).

Definition PostLastCleanupRecord (projectName : string) : prog unit :=
  if cleanupDisabled st then mret tt
  else
    let fullImageName := RepoAddress st +:+ ":cleanup" in
    now ← time_now;
    wrap "unable to push image %s: %w" [FS fullImageName]
      (reg (reg_PushImage fullImageName
        {[ Image.WerfLabel := projectName;
           RepoCleanUpRecord_LabelTimestamp := itoa (UnixMilli now) ]})).

Definition MutateAndPushImage (src dest : string) (newConfig : Image.SpecConfig) : prog unit :=
  reg (reg_MutateAndPushImage src dest
         (fun config => Ok (Image.UpdateConfigFile newConfig config))).

End ops.

(** The storage as an instance of the interface. *)
Definition repo_storage {R} `{!DockerRegistry R, !GoQuote, !TransportCodes}
  (LegacyMurmurHash Reverse : string -> string) (FormatRFC3339 : Z -> string)
  (st : RepoStagesStorage) : Storage (World R) := {|
  Address := RepoAddress st;
  StagesStorage.ConstructStageImageName := ConstructStageImageName st;
  StagesStorage.GetStagesIDs := GetStagesIDs FormatRFC3339 st;
  StagesStorage.GetStagesIDsByDigest := GetStagesIDsByDigest FormatRFC3339 st;
  StagesStorage.GetStageDesc := GetStageDesc st;
  StagesStorage.DeleteStage := DeleteStage st;
  StagesStorage.AddStageCustomTag := AddStageCustomTag;
  StagesStorage.CheckStageCustomTag := CheckStageCustomTag st;
  StagesStorage.DeleteStageCustomTag := DeleteStageCustomTag st;
  StagesStorage.RejectStage := RejectStage st;
  StagesStorage.GetStageCustomTagMetadata := GetStageCustomTagMetadata LegacyMurmurHash st;
  StagesStorage.GetStageCustomTagMetadataIDs := GetStageCustomTagMetadataIDs FormatRFC3339 st;
  StagesStorage.RegisterStageCustomTag := RegisterStageCustomTag LegacyMurmurHash st;
  StagesStorage.UnregisterStageCustomTag := UnregisterStageCustomTag LegacyMurmurHash st;
  StagesStorage.CopyFromStorage := CopyFromStorage st;
  StagesStorage.AddManagedImage := AddManagedImage LegacyMurmurHash st;
  StagesStorage.RmManagedImage := RmManagedImage LegacyMurmurHash st;
  StagesStorage.IsManagedImageExist := IsManagedImageExist LegacyMurmurHash st;
  StagesStorage.GetManagedImages := GetManagedImages FormatRFC3339 st;
  StagesStorage.PutImageMetadata := PutImageMetadata LegacyMurmurHash st;
  StagesStorage.RmImageMetadata := RmImageMetadata LegacyMurmurHash st;
  StagesStorage.IsImageMetadataExist := IsImageMetadataExist LegacyMurmurHash st;
  StagesStorage.GetAllAndGroupImageMetadataByImageName :=
    GetAllAndGroupImageMetadataByImageName LegacyMurmurHash FormatRFC3339 st;
  StagesStorage.GetImportMetadata := GetImportMetadata st;
  StagesStorage.PutImportMetadata := PutImportMetadata st;
  StagesStorage.RmImportMetadata := RmImportMetadata st;
  StagesStorage.GetImportMetadataIDs := GetImportMetadataIDs FormatRFC3339 st;
  StagesStorage.GetClientIDRecords := GetClientIDRecords Reverse FormatRFC3339 st;
  StagesStorage.PostClientIDRecord := PostClientIDRecord st;
  StagesStorage.GetSyncServerRecords := GetSyncServerRecords FormatRFC3339 st;
  StagesStorage.PostSyncServerRecord := PostSyncServerRecord st;
  StagesStorage.GetLastCleanupRecord := GetLastCleanupRecord FormatRFC3339 st;
  StagesStorage.PostLastCleanupRecord := PostLastCleanupRecord st;
|}.
End RepoStorage.
