(* ===== verification/RepoStorageFacts.v ===== *)
(** Lemmas on the registry-backed stages storage: what the tags of the records
    parse to, and what each operation does to the view of the repository. *)
From S2P Require Import Prelude Go Slug Image Registry StagesStorage RepoStorage.

Module RepoFacts.
Import StagesStorage RepoStorage.

(** * Splitting at a byte *)

Lemma Split_char2 c x y :
  Str.mem c x = false -> Str.mem c y = false ->
  Str.Split (x +:+ String c y) (String c "") = [x; y].
Proof.
  intros Hx Hy. unfold Str.Split. rewrite Str.len_app.
  change (Str.len (String c y)) with (S (Str.len y)).
  replace (S (Str.len x + S (Str.len y))) with (S (S (Str.len x + Str.len y))) by lia.
  by rewrite Str.SplitN_char, Str.SplitN_none.
Qed.

Lemma Split_char3 c x y z :
  Str.mem c x = false -> Str.mem c y = false -> Str.mem c z = false ->
  Str.Split (x +:+ String c (y +:+ String c z)) (String c "") = [x; y; z].
Proof.
  intros Hx Hy Hz. unfold Str.Split. rewrite Str.len_app.
  change (Str.len (String c (y +:+ String c z))) with (S (Str.len (y +:+ String c z))).
  rewrite Str.len_app. change (Str.len (String c z)) with (S (Str.len z)).
  replace (S (Str.len x + S (Str.len y + S (Str.len z))))
    with (S (S (S (Str.len x + Str.len y + Str.len z)))) by lia.
  by rewrite !Str.SplitN_char, Str.SplitN_none.
Qed.

(** * The tags of stages *)

Definition is_hex (c : Ascii.ascii) : bool :=
  Utf8.byte_in 48 57 c || Utf8.byte_in 97 102 c.

(** A SHA3-224 digest in hexadecimal. *)
Definition hexdigest (d : string) : Prop := Str.len d = 56 /\ Str.all is_hex d = true.

Lemma hex_no_dash d : hexdigest d -> Str.mem "-" d = false.
Proof. intros [_ H]. by eapply Str.all_mem. Qed.

Lemma digit_no (c : Ascii.ascii) s :
  is_digit c = false -> Str.all is_digit s = true -> Str.mem c s = false.
Proof. intros Hc H. by eapply Str.all_mem. Qed.

Lemma itoa_no_dash z : (0 <= z)%Z -> Str.mem "-" (itoa z) = false.
Proof. intros H. by apply digit_no, itoa_digits. Qed.

(** The timestamps that the tag of a listed stage can carry: thirteen digits, a
    time in milliseconds between the years 2001 and 2286. *)
Definition ts13 (ts : Z) : Prop := (10 ^ 12 <= ts < 10 ^ 13)%Z.

Lemma ts13_int64 ts : ts13 ts -> in_int64 ts = true.
Proof. unfold ts13, in_int64, int64_min, int64_max. rewrite andb_true_iff, !Z.leb_le. lia. Qed.

Lemma parse_stage_tag d ts :
  hexdigest d -> in_int64 ts = true ->
  getDigestAndCreationTsFromRepoStageImageTag (d +:+ "-" +:+ itoa ts) = inl (d, ts).
Proof.
  intros Hd Hts. unfold getDigestAndCreationTsFromRepoStageImageTag.
  change ("-" +:+ itoa ts) with (String "-" (itoa ts)).
  rewrite Str.SplitN_char by by apply hex_no_dash. cbn [Str.SplitN].
  unfold Image.ParseCreationTs, ParseIntE. by rewrite ParseInt_itoa.
Qed.

Lemma parse_multiplatform_tag d :
  hexdigest d -> getDigestAndCreationTsFromRepoStageImageTag d = inl (d, 0%Z).
Proof.
  intros Hd. unfold getDigestAndCreationTsFromRepoStageImageTag.
  rewrite Str.SplitN_none by by apply hex_no_dash. destruct Hd as [Hl _]. by rewrite Hl.
Qed.

(** The tag of a stage. *)
Definition stage_tag (d : string) (ts : Z) : string := Image.StageID_String (Image.NewStageID d ts).

Lemma stage_tag_eq d ts :
  stage_tag d ts = if (ts =? 0)%Z then d else d +:+ "-" +:+ itoa ts.
Proof. done. Qed.

Lemma ConstructStageImageName_tag st p d ts :
  ConstructStageImageName st p d ts = ref_of (RepoAddress st) (stage_tag d ts).
Proof.
  unfold ConstructStageImageName, ref_of, stage_tag, Image.StageID_String, Image.NewStageID.
  simpl. by destruct (ts =? 0)%Z.
Qed.

Lemma parse_tag d ts :
  hexdigest d -> in_int64 ts = true ->
  getDigestAndCreationTsFromRepoStageImageTag (stage_tag d ts) = inl (d, ts).
Proof.
  intros Hd Hts. unfold stage_tag, Image.StageID_String. simpl.
  destruct (Z.eqb_spec ts 0) as [->|]; [by apply parse_multiplatform_tag|].
  by apply parse_stage_tag.
Qed.

Definition rejected_tag (d : string) (ts : Z) : string :=
  d +:+ "-" +:+ itoa ts +:+ "-rejected".

Lemma rejected_record_tag addr d ts :
  makeRepoRejectedStageImageRecord addr d ts = ref_of addr (rejected_tag d ts).
Proof. done. Qed.

Lemma rejected_tag_suffix d ts :
  Str.HasSuffix (rejected_tag d ts) RepoRejectedStageImageRecord_ImageTagSuffix = true /\
  Str.TrimSuffix (rejected_tag d ts) RepoRejectedStageImageRecord_ImageTagSuffix =
    d +:+ "-" +:+ itoa ts.
Proof.
  unfold rejected_tag. rewrite !Str.app_assoc, <-(Str.app_assoc d).
  split; [apply Str.HasSuffix_app|apply Str.TrimSuffix_app].
Qed.

(** Every error of the parser is an "unexpected tag format". *)
Lemma parse_error_unexpected `{!GoQuote} t e :
  getDigestAndCreationTsFromRepoStageImageTag t = inr e -> isUnexpectedTagFormatError e = true.
Proof.
  unfold getDigestAndCreationTsFromRepoStageImageTag, isUnexpectedTagFormatError.
  intros He. destruct (Str.SplitN t "-" 2) as [|p0 [|p1 [|p2 l]]].
  - by simplify_eq/=.
  - destruct (Str.len p0 =? 56); by simplify_eq/=.
  - destruct (Image.ParseCreationTs p1); by simplify_eq/=.
  - by simplify_eq/=.
Qed.

(** A string with a final part that holds no [c] and one with [c] in it differ. *)
Lemma last_byte_digit s t ts :
  (0 <= ts)%Z -> s +:+ itoa ts <> t +:+ "d".
Proof.
  intros Hts E0.
  assert (forall x, Str.all is_digit x = true -> x <> "" -> s +:+ x <> t +:+ "d") as H.
  { clear. intros x Hx Hne E.
    assert (exists y c, x = y +:+ String c "") as (y & c & ->).
    { clear -Hne. induction x as [|c x IH]; [done|]. destruct x as [|c' x].
      - by exists "", c.
      - destruct IH as (y & d & ->); [done|]. by exists (String c y), d. }
    rewrite Str.all_app in Hx. apply andb_true_iff in Hx as [_ Hc].
    rewrite Str.app_assoc in E.
    assert (Str.take (Str.len (s +:+ y)) (s +:+ y +:+ String c "") = s +:+ y).
    { rewrite Str.app_assoc. apply Str.take_app. }
    assert (Str.len (s +:+ y) = Str.len t).
    { apply (f_equal Str.len) in E. rewrite !Str.len_app in E. simpl in E.
      rewrite Str.len_app. lia. }
    assert (c = "d"%char) as ->; [|done].
    assert (Str.drop (Str.len (s +:+ y)) ((s +:+ y) +:+ String c "") =
            Str.drop (Str.len t) (t +:+ "d")) as E' by congruence.
    rewrite !Str.drop_app in E'. congruence. }
  destruct (itoa_digits ts Hts). by eapply H.
Qed.

Lemma stage_tag_not_rejected d ts :
  hexdigest d -> (0 <= ts)%Z ->
  Str.HasSuffix (stage_tag d ts) RepoRejectedStageImageRecord_ImageTagSuffix = false.
Proof.
  intros Hd Hts. apply not_true_iff_false. intros [t E]%Str.HasSuffix_spec.
  rewrite stage_tag_eq in E. destruct (ts =? 0)%Z.
  - pose proof (hex_no_dash d Hd) as Hn. rewrite E, Str.mem_app in Hn.
    simpl in Hn. by rewrite orb_true_r in Hn.
  - rewrite Str.app_assoc in E.
    replace (t +:+ RepoRejectedStageImageRecord_ImageTagSuffix)
      with ((t +:+ "-rejecte") +:+ "d") in E by by rewrite <-Str.app_assoc.
    by apply last_byte_digit in E.
Qed.

Lemma stage_tag_prefix d ts : Str.HasPrefix (stage_tag d ts) d = true.
Proof.
  unfold stage_tag, Image.StageID_String. simpl. destruct (ts =? 0)%Z.
  - rewrite <-(Str.app_nil_r d) at 1. apply Str.HasPrefix_app.
  - apply Str.HasPrefix_app.
Qed.

(** The tag of a rejected record is not the tag of any stage. *)
Lemma rejected_ne_stage d ts d' ts' :
  hexdigest d' -> (0 <= ts')%Z -> rejected_tag d ts <> stage_tag d' ts'.
Proof.
  intros Hd Hts E. pose proof (stage_tag_not_rejected d' ts' Hd Hts) as H.
  rewrite <-E in H. by rewrite (proj1 (rejected_tag_suffix d ts)) in H.
Qed.

Lemma stage_tag_inj d ts d' ts' :
  hexdigest d -> hexdigest d' -> in_int64 ts = true -> in_int64 ts' = true ->
  stage_tag d ts = stage_tag d' ts' -> d = d' /\ ts = ts'.
Proof.
  intros Hd Hd' Ht Ht' E. pose proof (parse_tag d ts Hd Ht) as H.
  rewrite E, parse_tag in H by done. naive_solver.
Qed.

(** The length of the tag of a stage with a timestamp of thirteen digits. *)
Lemma digits_of_len acc s z :
  (0 <= acc)%Z -> digits_of acc s = Some z ->
  (acc * 10 ^ Z.of_nat (Str.len s) <= z < (acc + 1) * 10 ^ Z.of_nat (Str.len s))%Z.
Proof.
  revert acc. induction s as [|c s IH]; intros acc Hacc H; simpl in H.
  - simplify_eq. change (Str.len "") with 0. simpl. lia.
  - destruct (digit_of c) as [d|] eqn:Hd; [|done].
    assert (0 <= d <= 9)%Z.
    { unfold digit_of in Hd. destruct (_ && _)%bool eqn:E; [|done].
      apply andb_true_iff in E as [?%Z.leb_le ?%Z.leb_le]. simplify_eq. lia. }
    apply IH in H; [|lia]. change (Str.len (String c s)) with (S (Str.len s)).
    rewrite Nat2Z.inj_succ, Z.pow_succ_r by lia.
    pose proof (Z.pow_pos_nonneg 10 (Z.of_nat (Str.len s)) ltac:(lia) ltac:(lia)). nia.
Qed.

Lemma nzhead_nonzero u v : Decimal.nzhead u <> Decimal.D0 v.
Proof. induction u; simpl; try done. Qed.

Lemma itoa_no_leading_zero z s : (0 < z)%Z -> itoa z <> String "0" s.
Proof.
  intros Hz E. destruct z as [|p|p]; try lia. unfold itoa in E. simpl in E.
  assert (Decimal.unorm (Pos.to_uint p) = Pos.to_uint p) as Hn.
  { change (Pos.to_uint p) with (N.to_uint (Npos p)).
    by rewrite <-DecimalN.Unsigned.to_of, DecimalN.Unsigned.of_to. }
  pose proof (DecimalPos.Unsigned.to_uint_nonzero p) as Hnz. unfold Decimal.unorm in Hn.
  destruct (Pos.to_uint p) as [|u|u|u|u|u|u|u|u|u|u] eqn:Ep; simpl in E; try done.
  destruct (Decimal.nzhead (Decimal.D0 u)) eqn:En; [|by destruct (nzhead_nonzero (Decimal.D0 u) u); congruence|..];
    try congruence.
Qed.

Lemma digits_of_itoa z : (0 <= z)%Z -> in_int64 z = true -> digits_of 0 (itoa z) = Some z.
Proof.
  intros Hz Hr. pose proof (ParseInt_itoa z Hr) as H. destruct (itoa_digits z Hz) as [Hd Hne].
  destruct (digits_of 0 (itoa z)) as [y|] eqn:E.
  - unfold ParseInt in H. destruct (itoa z) as [|c s] eqn:Ei; [done|].
    cbn [Str.all] in Hd. apply andb_true_iff in Hd as [Hc _].
    destruct c as [[] [] [] [] [] [] [] []]; try done; rewrite E in H; by destruct (in_int64 y).
  - unfold ParseInt in H. destruct (itoa z) as [|c s] eqn:Ei; [done|].
    cbn [Str.all] in Hd. apply andb_true_iff in Hd as [Hc _].
    destruct c as [[] [] [] [] [] [] [] []]; try done; by rewrite E in H.
Qed.

Lemma len_itoa_gt n z : (10 ^ Z.of_nat n <= z)%Z -> in_int64 z = true -> n < Str.len (itoa z).
Proof.
  intros Hn Hr. pose proof (Z.pow_pos_nonneg 10 (Z.of_nat n) ltac:(lia) ltac:(lia)).
  pose proof (digits_of_itoa z ltac:(lia) Hr) as Hd.
  pose proof (digits_of_len 0 _ _ ltac:(lia) Hd) as [_ Hub].
  destruct (Nat.le_gt_cases (Str.len (itoa z)) n) as [Hle|]; [|done].
  assert (10 ^ Z.of_nat (Str.len (itoa z)) <= 10 ^ Z.of_nat n)%Z
    by (apply Z.pow_le_mono_r; lia). lia.
Qed.

Lemma len_itoa_le n z :
  (0 <= z < 10 ^ Z.of_nat (S n))%Z -> in_int64 z = true -> Str.len (itoa z) <= S n.
Proof.
  intros Hz Hr. destruct (Z.eq_dec z 0) as [->|Hnz]; [unfold Str.len; simpl; lia|].
  pose proof (digits_of_itoa z ltac:(lia) Hr) as Hd.
  destruct (itoa z) as [|c s] eqn:E; [unfold Str.len; simpl; lia|].
  change (Str.len (String c s)) with (S (Str.len s)).
  simpl in Hd. destruct (digit_of c) as [d|] eqn:Hc; [|done].
  unfold digit_of in Hc. destruct (_ && _)%bool eqn:B; [|done].
  apply andb_true_iff in B as [?%Z.leb_le _]. injection Hc as Hc.
  assert (d <> 0%Z) as Hd0.
  { intros ->. apply (itoa_no_leading_zero z s); [lia|]. rewrite E. f_equal.
    rewrite <-(Ascii.ascii_nat_embedding c). by replace (Ascii.nat_of_ascii c) with 48 by lia. }
  apply digits_of_len in Hd; [|lia]. destruct Hd as [Hlb _].
  destruct (Nat.le_gt_cases (Str.len s) n) as [|Hgt]; [lia|].
  assert (10 ^ Z.of_nat (S n) <= 10 ^ Z.of_nat (Str.len s))%Z by (apply Z.pow_le_mono_r; lia).
  nia.
Qed.

Lemma len_itoa13 ts : ts13 ts -> Str.len (itoa ts) = 13.
Proof.
  intros Hts. pose proof (ts13_int64 ts Hts). unfold ts13 in Hts.
  pose proof (len_itoa_gt 12 ts (proj1 Hts) ltac:(done)).
  pose proof (len_itoa_le 12 ts (conj (Z.le_trans 0 (10 ^ 12) ts ltac:(done) (proj1 Hts)) (proj2 Hts)) ltac:(done)). lia.
Qed.

Lemma len_itoa64 ts : (0 <= ts)%Z -> in_int64 ts = true -> Str.len (itoa ts) <= 19.
Proof.
  intros Hts Hr. apply (len_itoa_le 18); [|done]. unfold in_int64, int64_max in Hr.
  apply andb_true_iff in Hr as [_ ?%Z.leb_le]. lia.
Qed.

(** ** Valid tags *)

Definition tag_char (c : Ascii.ascii) : bool :=
  Slug.is_word c || Slug.is_char "." c || Slug.is_char "-" c.

Lemma valid_tag c s :
  Slug.is_word c = true -> Str.all tag_char s = true -> Str.len s <= 127 ->
  Slug.IsValidDockerTag (String c s) = true.
Proof.
  intros Hc Hs Hl. unfold Slug.IsValidDockerTag, Slug.shouldNotBeSlugged, Slug.zlen.
  cbn [Slug.dockerTagRegexp]. change (Str.len (String c s)) with (S (Str.len s)).
  unfold tag_char in Hs. rewrite Hc, Hs. unfold Slug.DockerTagMaxSize.
  rewrite (proj2 (Z.leb_le _ _)) by lia. by rewrite orb_true_r.
Qed.

Lemma digits_tag_chars s : Str.all is_digit s = true -> Str.all tag_char s = true.
Proof.
  apply Str.all_mono. intros c Hc. unfold is_digit in Hc. apply bool_decide_eq_true in Hc as [d Hc].
  unfold digit_of in Hc. destruct (_ && _)%bool eqn:B; [|done].
  unfold tag_char, Slug.is_word, Slug.is_alnum, Slug.is_num, Utf8.byte_in.
  apply andb_true_iff in B as [?%Z.leb_le ?%Z.leb_le].
  rewrite (proj2 (Nat.leb_le 48 _)), (proj2 (Nat.leb_le _ 57)) by lia. simpl.
  by rewrite !orb_true_r.
Qed.

Lemma hex_tag_char c : is_hex c = true -> Slug.is_word c = true.
Proof. destruct c as [[] [] [] [] [] [] [] []]; vm_compute; congruence. Qed.

Lemma rejected_tag_valid d ts :
  hexdigest d -> (0 <= ts)%Z -> in_int64 ts = true ->
  Slug.IsValidDockerTag (rejected_tag d ts) = true.
Proof.
  intros [Hl Hd] Hts Hr. unfold rejected_tag. destruct d as [|c d]; [done|].
  cbn [Str.all] in Hd. apply andb_true_iff in Hd as [Hc Hd].
  change (String c d +:+ ?x) with (String c (d +:+ x)). apply valid_tag.
  - by apply hex_tag_char.
  - rewrite !Str.all_app, !andb_true_iff. split; [|split; [done|split; [|done]]].
    + eapply Str.all_mono; [|done]. intros x Hx. unfold tag_char. by rewrite hex_tag_char.
    + by apply digits_tag_chars, itoa_digits.
  - rewrite !Str.len_app. pose proof (len_itoa64 ts Hts Hr).
    change (Str.len (String c d)) with (S (Str.len d)) in Hl.
    change (Str.len "-") with 1. change (Str.len "-rejected") with 9. lia.
Qed.

(** * What the operations do to the repository *)

(** A program does not panic. *)
Definition np {W A} (m : prog W A) (w : W) : Prop :=
  match (m w).1 with Panic _ => False | _ => True end.

Lemma np_bind {W A B} (m : prog W A) (f : A -> prog W B) w :
  np m w -> (forall a w', m w = (Ok a, w') -> np (f a) w') -> np (m ≫= f) w.
Proof.
  unfold np, mbind, prog_bind. intros Hm Hf. destruct (m w) as [[a|e|p] w'] eqn:E; try done.
  by apply Hf.
Qed.

Lemma np_wrap {W A} f args (m : prog W A) w : np m w -> np (wrap f args m) w.
Proof. unfold np, wrap. by destruct (m w) as [[]]. Qed.

Lemma np_try {W A} (m : prog W A) w :
  np m w -> exists r w', try m w = (Ok r, w') /\ w' = (m w).2.
Proof. unfold np, try. destruct (m w) as [[]]; [eauto..|done]. Qed.

Ltac np_try_done :=
  match goal with
  | |- context [try ?m ?w] =>
      let H := fresh in
      assert (np m w) as H; [|destruct (np_try m w H) as (? & ? & -> & _); done]
  end.

Section laws.
Context {R : Type} `{!DockerRegistry R, GQ : !GoQuote, TC : !TransportCodes}.
Context (st : RepoStagesStorage) `{!RegistryLaws R (RepoAddress st)}.

Abbreviation V w := (view (RepoAddress st) (registry w)).
Abbreviation up w := (online (RepoAddress st) (registry w)).

(** The second world has the repository and the clock of the first, and its
    registry answers if the first one's does. *)
Definition same (w w' : World R) : Prop :=
  V w' = V w /\ now w' = now w /\ (up w -> up w').

#[export] Instance same_preorder : PreOrder same.
Proof.
  split; [done|]. intros a b c (? & ? & ?) (? & ? & ?). split; [congruence|].
  split; [congruence|auto].
Qed.

(** What a call of the registry keeps, its caller keeps. *)
Lemma keeps_reg {A} (m : prog R A) :
  (forall r, view (RepoAddress st) (m r).2 = view (RepoAddress st) r) ->
  (forall r, online (RepoAddress st) r -> online (RepoAddress st) (m r).2) ->
  keeps same (reg m).
Proof.
  intros Hv Hu w. unfold reg. specialize (Hv (registry w)). specialize (Hu (registry w)).
  destruct (m (registry w)) as [r x]. simpl in *. by split.
Qed.

Lemma keeps_get t : keeps same (reg (reg_GetRepoImage (ref_of (RepoAddress st) t))).
Proof. apply keeps_reg; [apply get_keep|apply get_stay]. Qed.
Lemma keeps_tryget t : keeps same (reg (reg_TryGetRepoImage (ref_of (RepoAddress st) t))).
Proof. apply keeps_reg; [apply try_keep|apply try_stay]. Qed.
Lemma keeps_exist t c : keeps same (reg (reg_IsTagExist (ref_of (RepoAddress st) t) c)).
Proof. apply keeps_reg; [apply exist_keep|apply exist_stay]. Qed.
Lemma keeps_regtags c : keeps same (reg (reg_Tags (RepoAddress st) c)).
Proof. apply keeps_reg; [apply tags_keep|apply tags_stay]. Qed.
Lemma keeps_time : keeps same time_now.
Proof. intros w. simpl. reflexivity. Qed.
Lemma keeps_once a : keeps same (once_first a).
Proof. intros w. by split. Qed.
Lemma keeps_warn m : keeps same (GlobalWarningLn m).
Proof. intros w. by split. Qed.

Context (FormatRFC3339 : Z -> string).

(** The checks keep whatever reading an image keeps. *)
Section checks.
Context (K : World R -> World R -> Prop) `{!PreOrder K}
  (Hget : forall t, keeps K (reg (reg_GetRepoImage (ref_of (RepoAddress st) t)))).

Lemma keeps_getLastCleanupRecord tags :
  keeps K (getLastCleanupRecord (RepoAddress st) tags).
Proof using All.
  induction tags as [|t tags IH]; simpl; [apply keeps_ret, _|].
  case_bool_in_goal; [|done]. apply keeps_bind; [apply _|apply Hget|].
  intros [i|]; [|apply keeps_panic, _]. destruct (Image.Labels i !! _) as [ts|]; [|done].
  destruct (ParseInt ts); [apply keeps_ret, _|done].
Qed.

Lemma keeps_runCleanupNeededChecks tags b :
  keeps K (runCleanupNeededChecks FormatRFC3339 st tags b).
Proof using All.
  unfold runCleanupNeededChecks. apply keeps_bind; [apply _| |].
  - unfold checkLastCleanup. destruct tags as [|t l]; [apply keeps_ret, _|].
    apply keeps_bind; [apply _|apply keeps_try, keeps_wrap, keeps_getLastCleanupRecord|].
    intros [o|e]; [|apply keeps_ret, _].
    apply keeps_bind; [apply _|intros w; simpl; reflexivity|].
    intros n. case_bool_in_goal; apply keeps_ret, _.
  - intros [x|e]; [|case_bool_in_goal]; apply keeps_ret, _.
Qed.
End checks.

#[local] Hint Resolve keeps_get keeps_tryget keeps_exist keeps_regtags keeps_time keeps_once
  keeps_warn keeps_runCleanupNeededChecks same_preorder : werf.

Lemma keeps_checkMeta tags : keeps same (checkMeta FormatRFC3339 st tags).
Proof.
  unfold checkMeta. case_bool_in_goal; [eauto with werf|].
  apply keeps_bind; [apply _|auto with werf|]. intros []; [|eauto with werf].
  apply keeps_bind; [apply _|apply keeps_runCleanupNeededChecks; [apply _|apply keeps_get]|].
  intros m; case_bool_in_goal; eauto with werf.
Qed.

Lemma keeps_list_tags f a opts : keeps same (list_tags FormatRFC3339 st f a opts).
Proof.
  unfold list_tags, Tags. apply keeps_wrap. apply keeps_bind; [apply _|auto with werf|].
  intros tags. apply keeps_bind; [apply _| |eauto with werf].
  case_bool_in_goal; [eauto with werf|]. apply keeps_bind; [apply _| |eauto with werf].
  apply keeps_try, keeps_checkMeta.
Qed.

Lemma np_getLastCleanupRecord tags w :
  up w -> np (getLastCleanupRecord (RepoAddress st) tags) w.
Proof.
  revert w. induction tags as [|t tags IH]; intros w Hu; simpl; [done|].
  case_bool_in_goal; [|auto]. apply np_bind.
  - unfold np, reg. pose proof (get_online t (registry w) Hu) as Hg.
    destruct (reg_GetRepoImage _ _) as [x r]. simpl in *.
    destruct (view _ _ !! t) as [[]|]; [by subst|naive_solver..].
  - intros o w' E. pose proof (keeps_get t w) as Hk. rewrite E in Hk. simpl in Hk.
    destruct o as [i|].
    + destruct (Image.Labels i !! _) as [ts|]; [|apply IH, Hk, Hu].
      destruct (ParseInt ts); [done|apply IH, Hk, Hu].
    + unfold reg in E. destruct (reg_GetRepoImage _ _) as [x r] eqn:E'. simplify_eq.
      apply get_ok in E'. naive_solver.
Qed.

Lemma np_checkMeta tags w : up w -> np (checkMeta FormatRFC3339 st tags) w.
Proof.
  intros Hu. unfold checkMeta. case_bool_in_goal; [done|].
  apply np_bind; [done|]. intros b w1 E1.
  assert (up w1) as Hu1 by (injection E1 as _ <-; done). destruct b; [|done].
  apply np_bind; [|intros m w2 _; by case_bool_in_goal].
  unfold runCleanupNeededChecks. apply np_bind; [|intros [b|e] w2 _; [|case_bool_in_goal]; done].
  unfold checkLastCleanup. destruct tags as [|t l]; [done|]. apply np_bind.
  - unfold np. np_try_done.
    by apply np_wrap, np_getLastCleanupRecord.
  - intros [o|e] w2 _; [|done]. apply np_bind; [done|]. intros n w3 _. by case_bool_in_goal.
Qed.

(** Listing the tags keeps the repository; without the cache it gives the tags
    that exist, each once. *)
Lemma wlp_list_tags f a opts w :
  wlp (list_tags FormatRFC3339 st f a opts) w (fun tags w' => same w w' /\
    (makeOptions opts = false ->
       NoDup tags /\ forall t, t ∈ tags <-> is_Some (V w !! t))).
Proof.
  apply wlp_conj; [apply keeps_wlp, keeps_list_tags|]. unfold list_tags, Tags. wp_step.
  apply wlp_alt. intros tags w1 E. apply wlp_bind, wlp_alt. intros _ w2 _. wp_step.
  intros Ho. rewrite Ho in E. unfold reg in E. destruct (reg_Tags _ _ _) as [x r] eqn:E'.
  simplify_eq. by apply tags_ok in E'.
Qed.

Lemma wp_list_tags f a opts w :
  up w -> wp (list_tags FormatRFC3339 st f a opts) w (fun tags w' => same w w' /\
    (makeOptions opts = false ->
       NoDup tags /\ forall t, t ∈ tags <-> is_Some (V w !! t))).
Proof.
  intros Hu. eapply wp_mono; [apply wp_conj, wlp_list_tags; instantiate (1 := fun _ _ => True)|
    naive_solver].
  unfold list_tags, Tags. wp_step.
  pose proof (keeps_regtags (makeOptions opts) w) as (_ & _ & Hk).
  unfold wp at 1. unfold reg in *. destruct (tags_online (makeOptions opts) _ Hu) as [l Hl].
  destruct (reg_Tags _ _ _) as [x r]. simpl in *. subst. apply wp_bind.
  destruct (skipMetaCheck st); [done|]. apply wp_bind. unfold wp.
  np_try_done. apply np_checkMeta. auto.
Qed.

(** ** Single calls *)

Lemma wlp_push t l w :
  wlp (reg (reg_PushImage (ref_of (RepoAddress st) t) l)) w (fun _ w' =>
    now w' = now w /\ (up w -> up w') /\
    (forall t', t' <> t -> V w' !! t' = V w !! t') /\
    exists i, V w' !! t = Some (Some i) /\ Image.Labels i = l /\
      forall t' j, t' <> t -> V w !! t' = Some (Some j) ->
        Image.RepoDigest j <> Image.RepoDigest i).
Proof.
  unfold wlp, reg. pose proof (push_stay t l (registry w)) as Hs.
  pose proof (fun t' => push_frame t l (registry w) t') as Hf.
  destruct (reg_PushImage _ _ _) as [[[]|e|p] r] eqn:E; [|done..]. simpl in *.
  split; [done|]. split; [done|]. split; [done|]. by eapply push_ok in E.
Qed.

Lemma wp_push t l w :
  up w -> t <> "" -> Slug.IsValidDockerTag t = true ->
  wp (reg (reg_PushImage (ref_of (RepoAddress st) t) l)) w (fun _ w' =>
    now w' = now w /\ up w' /\
    (forall t', t' <> t -> V w' !! t' = V w !! t') /\
    exists i, V w' !! t = Some (Some i) /\ Image.Labels i = l /\
      forall t' j, t' <> t -> V w !! t' = Some (Some j) ->
        Image.RepoDigest j <> Image.RepoDigest i).
Proof.
  intros Hu Hne Ht. pose proof (wlp_push t l w) as H. unfold wlp, wp in *.
  unfold reg in *. pose proof (push_online t l (registry w) Hu Hne Ht) as Ho.
  destruct (reg_PushImage _ _ _) as [x r]. simpl in *. subst. naive_solver.
Qed.

Lemma wlp_tryget t w :
  wlp (reg (reg_TryGetRepoImage (ref_of (RepoAddress st) t))) w (fun o w' =>
    same w w' /\ o = mjoin (V w !! t)).
Proof.
  apply wlp_conj; [apply keeps_wlp, keeps_tryget|]. unfold wlp, reg.
  destruct (reg_TryGetRepoImage _ _) as [[o|e|p] r] eqn:E; [|done..].
  by apply try_ok in E.
Qed.

Lemma wp_tryget t w :
  up w -> wp (reg (reg_TryGetRepoImage (ref_of (RepoAddress st) t))) w (fun o w' =>
    same w w' /\ o = mjoin (V w !! t)).
Proof.
  intros Hu. pose proof (wlp_tryget t w) as H. unfold wlp, wp, reg in *.
  destruct (try_online t (registry w) Hu) as [o Ho].
  destruct (reg_TryGetRepoImage _ _) as [x r]. simpl in *. by subst.
Qed.

Lemma wlp_get t w :
  wlp (reg (reg_GetRepoImage (ref_of (RepoAddress st) t))) w (fun o w' =>
    same w w' /\ exists i, o = Some i /\ V w !! t = Some (Some i)).
Proof.
  apply wlp_conj; [apply keeps_wlp, keeps_get|]. unfold wlp, reg.
  destruct (reg_GetRepoImage _ _) as [[o|e|p] r] eqn:E; [|done..].
  by apply get_ok in E.
Qed.

Lemma wp_get t i w :
  up w -> V w !! t = Some (Some i) ->
  wp (reg (reg_GetRepoImage (ref_of (RepoAddress st) t))) w (fun o w' =>
    same w w' /\ o = Some i).
Proof.
  intros Hu Hi. pose proof (keeps_get t w) as Hk. unfold wp, reg in *.
  pose proof (get_online t (registry w) Hu) as Hg. rewrite Hi in Hg.
  destruct (reg_GetRepoImage _ _) as [x r]. simpl in *. by subst.
Qed.

Lemma wp_exist t w :
  up w -> wp (reg (reg_IsTagExist (ref_of (RepoAddress st) t) false)) w (fun b w' =>
    same w w' /\ b = bool_decide (is_Some (V w !! t))).
Proof.
  intros Hu. pose proof (keeps_exist t false w) as Hk. unfold wp, reg in *.
  destruct (exist_online false t (registry w) Hu) as [b Hb].
  destruct (reg_IsTagExist _ _ _) as [x r] eqn:E. simpl in *. subst.
  apply exist_ok in E. done.
Qed.

Lemma wlp_delete i t w :
  V w !! t = Some (Some i) ->
  wlp (reg (reg_DeleteRepoImage i)) w (fun _ w' =>
    now w' = now w /\ (up w -> up w') /\ V w' !! t = None /\
    forall t', V w' !! t' = V w !! t' \/ V w' !! t' = None /\
      exists j, V w !! t' = Some (Some j) /\ Image.RepoDigest j = Image.RepoDigest i).
Proof.
  intros Hi. unfold wlp, reg. pose proof (delete_stay i (registry w)) as Hs.
  pose proof (delete_frame i (registry w)) as Hf.
  destruct (reg_DeleteRepoImage _ _) as [[[]|e|p] r] eqn:E; [|done..]. simpl in *.
  split; [done|]. split; [done|]. split; [by eapply delete_ok in E|done].
Qed.

Lemma wp_delete i t w :
  up w -> V w !! t = Some (Some i) ->
  wp (reg (reg_DeleteRepoImage i)) w (fun _ w' =>
    now w' = now w /\ up w' /\ V w' !! t = None /\
    forall t', V w' !! t' = V w !! t' \/ V w' !! t' = None /\
      exists j, V w !! t' = Some (Some j) /\ Image.RepoDigest j = Image.RepoDigest i).
Proof.
  intros Hu Hi. pose proof (wlp_delete i t w Hi) as H. unfold wlp, wp in *. unfold reg in *.
  pose proof (delete_online i t (registry w) Hu Hi) as Ho.
  destruct (reg_DeleteRepoImage _ _) as [x r]. simpl in *. subst. naive_solver.
Qed.

End laws.

End RepoFacts.
