(* ===== verification/RepoStorageProps.v ===== *)
(** The properties of the registry-backed stages storage: listings are sound
    and complete, rejected stages are never offered, every record that is put can
    be found again and removed, and removing touches nothing else. *)
From S2P Require Import Prelude Go Slug Image Registry StagesStorage RepoStorage.
From S2P Require Import RepoStorageFacts.

Module RepoProps.
Import StagesStorage RepoStorage RepoFacts.

(** * Reference definitions of the listings *)

(** The stage that a tag stands for in [GetStagesIDs]. *)
Definition listed_stage (tag : string) : option Image.StageID :=
  if negb ((Str.len tag =? 70) && (length (Str.Split tag "-") =? 2) || (Str.len tag =? 56))
     || Str.HasPrefix tag RepoManagedImageRecord_ImageTagPrefix
     || Str.HasPrefix tag RepoImageMetadataByCommitRecord_ImageTagPrefix
     || Str.HasSuffix tag RepoRejectedStageImageRecord_ImageTagSuffix
  then None
  else match getDigestAndCreationTsFromRepoStageImageTag tag with
       | inl (digest, creationTs) => Some (Image.NewStageID digest creationTs)
       | inr _ => None
       end.

(** The timestamp a tag of a rejected record carries. *)
Definition rejected_ts (tag : string) : option Z :=
  if Str.HasSuffix tag RepoRejectedStageImageRecord_ImageTagSuffix then
    match getDigestAndCreationTsFromRepoStageImageTag
            (Str.TrimSuffix tag RepoRejectedStageImageRecord_ImageTagSuffix) with
    | inl (_, creationTs) => Some creationTs
    | inr _ => None
    end
  else None.

(** The stage that a tag stands for in [GetStagesIDsByDigest]. *)
Definition suitable_stage (digest : string) (parentTs : Z) (rejected : list Z) (tag : string)
  : option Image.StageID :=
  if Str.HasPrefix tag digest
     && negb (Str.HasSuffix tag RepoRejectedStageImageRecord_ImageTagSuffix) then
    match getDigestAndCreationTsFromRepoStageImageTag tag with
    | inl (_, ts) =>
        if (parentTs <=? ts)%Z && negb (bool_decide (ts ∈ rejected))
        then Some (Image.NewStageID digest ts) else None
    | inr _ => None
    end
  else None.

Lemma stagesIDsOfTags_omap {R} {GQ : GoQuote} tags res (w : World R) :
  stagesIDsOfTags tags res w = (Ok (res ++ omap listed_stage tags), w).
Proof.
  revert res. induction tags as [|t tags IH]; intros res; simpl; [by rewrite app_nil_r|].
  unfold listed_stage at 1. rewrite <-negb_orb. destruct (negb _); simpl; [apply IH|].
  destruct (_ || _ || _); simpl; [apply IH|].
  destruct (getDigestAndCreationTsFromRepoStageImageTag t) as [[d ts]|e] eqn:E.
  - rewrite IH. by rewrite <-app_assoc.
  - by rewrite (parse_error_unexpected _ _ E).
Qed.

Lemma rejectedStagesOfTags_omap {R} {GQ : GoQuote} digest tags res (w : World R) :
  rejectedStagesOfTags digest tags res w =
  (Ok (res ++ (Image.NewStageID digest <$> omap rejected_ts tags)), w).
Proof.
  revert res. induction tags as [|t tags IH]; intros res; simpl; [by rewrite app_nil_r|].
  unfold rejected_ts at 1. destruct (Str.HasSuffix t _); simpl; [|apply IH].
  destruct (getDigestAndCreationTsFromRepoStageImageTag _) as [[d ts]|e] eqn:E.
  - rewrite IH. simpl. by rewrite <-app_assoc.
  - by rewrite (parse_error_unexpected _ _ E).
Qed.

Lemma isRejected_spec digest l ts :
  isRejected (Image.NewStageID digest <$> l) (Image.NewStageID digest ts) =
  bool_decide (ts ∈ l).
Proof.
  apply eq_true_iff_eq. unfold isRejected. rewrite existsb_exists, bool_decide_eq_true. split.
  - intros (x & Hx%list_elem_of_In & E). apply list_elem_of_fmap in Hx as (y & -> & Hy).
    simpl in E. apply andb_true_iff in E as [_ ->%Z.eqb_eq]. done.
  - intros H. exists (Image.NewStageID digest ts). split.
    + apply list_elem_of_In, list_elem_of_fmap. eauto.
    + simpl. rewrite bool_decide_eq_true_2 by done. apply Z.eqb_refl.
Qed.

Lemma suitableStagesOfTags_omap {R} {GQ : GoQuote} digest pts rej tags res (w : World R) :
  suitableStagesOfTags digest pts (Image.NewStageID digest <$> rej) tags res w =
  (Ok (res ++ omap (suitable_stage digest pts rej) tags), w).
Proof.
  revert res. induction tags as [|t tags IH]; intros res; simpl; [by rewrite app_nil_r|].
  unfold suitable_stage at 1. destruct (Str.HasPrefix t digest); simpl; [|apply IH].
  destruct (Str.HasSuffix t _); simpl; [apply IH|].
  destruct (getDigestAndCreationTsFromRepoStageImageTag t) as [[d ts]|e] eqn:E.
  - rewrite Z.leb_antisym. destruct (ts <? pts)%Z; simpl; [apply IH|].
    rewrite isRejected_spec. case_bool_decide; simpl; [apply IH|].
    rewrite IH. by rewrite <-app_assoc.
  - by rewrite (parse_error_unexpected _ _ E).
Qed.

Lemma listed_stage_tag d ts :
  hexdigest d -> ts = 0%Z \/ ts13 ts -> listed_stage (stage_tag d ts) = Some (Image.NewStageID d ts).
Proof.
  intros Hd Hts.
  assert (0 <= ts)%Z as Hp by (unfold ts13 in Hts; lia).
  assert (in_int64 ts = true) as Hr by (destruct Hts as [->|]; [done|by apply ts13_int64]).
  unfold listed_stage. rewrite parse_tag, stage_tag_not_rejected by done.
  assert (forall p s, Str.all is_hex p = false -> Str.mem "-" p = false ->
            Str.HasPrefix (stage_tag d ts) (p +:+ String "-" s) = false) as Hpre.
  { intros p s Hp1 Hp2. apply not_true_iff_false. intros [t E]%Str.HasPrefix_spec.
    rewrite stage_tag_eq in E. rewrite <-Str.app_assoc in E.
    change (String "-" s +:+ t) with (String "-" (s +:+ t)) in E.
    destruct (Z.eqb_spec ts 0).
    - pose proof (hex_no_dash d Hd) as Hn. rewrite E, Str.mem_app in Hn. simpl in Hn.
      by rewrite orb_true_r in Hn.
    - pose proof (hex_no_dash d Hd) as Hn.
      pose proof (Str.cut_char "-" d (itoa ts) Hn) as Hc.
      change (String "-" (itoa ts)) with ("-" +:+ itoa ts) in Hc.
      rewrite E, Str.cut_char in Hc by done. destruct Hd as [_ Hd]. congruence. }
  change RepoManagedImageRecord_ImageTagPrefix with ("managed" +:+ String "-" "image-").
  change RepoImageMetadataByCommitRecord_ImageTagPrefix with ("meta" +:+ String "-" "").
  rewrite !Hpre by done. simpl. rewrite !orb_false_r.
  destruct Hts as [->|Hts].
  - rewrite stage_tag_eq. simpl. destruct Hd as [-> _]. by rewrite orb_true_r.
  - rewrite stage_tag_eq. destruct (Z.eqb_spec ts 0) as [->|]; [unfold ts13 in Hts; lia|].
    rewrite !Str.len_app, len_itoa13 by done. rewrite (proj1 Hd). simpl (_ =? 70).
    change ("-" +:+ itoa ts) with (String "-" (itoa ts)).
    rewrite Split_char2; [done|by apply hex_no_dash|by apply itoa_no_dash].
Qed.

Section repo.
Context {R : Type} `{!DockerRegistry R, GQ : !GoQuote, TC : !TransportCodes}.
Context (FormatRFC3339 : Z -> string).
Context (st : RepoStagesStorage) `{!RegistryLaws R (RepoAddress st)}.

Abbreviation V w := (view (RepoAddress st) (registry w)).
Abbreviation up w := (online (RepoAddress st) (registry w)).

(** Where the registry answers, [GetStagesIDs] returns: every stage whose tag
    exists is listed, every id listed is what some existing tag parses to, no tag of
    a rejected record is taken for a stage, and the repository is not changed. *)
Theorem GetStagesIDs_spec p w :
  up w ->
  exists ids w', GetStagesIDs FormatRFC3339 st p [] w = (Ok ids, w') /\ V w' = V w /\
    (forall d ts, hexdigest d -> ts = 0%Z \/ ts13 ts -> is_Some (V w !! stage_tag d ts) ->
       Image.NewStageID d ts ∈ ids) /\
    (forall id, id ∈ ids -> exists t, is_Some (V w !! t) /\
       getDigestAndCreationTsFromRepoStageImageTag t =
         inl (Image.Digest id, Image.CreationTs id) /\
       Str.HasSuffix t RepoRejectedStageImageRecord_ImageTagSuffix = false).
Proof.
  intros Hu. apply wp_alt. unfold GetStagesIDs. apply wp_bind.
  eapply wp_mono; [by apply wp_list_tags|]. simpl. intros tags w1 [(HV & _ & _) Ht].
  destruct (Ht eq_refl) as [_ Hin]. unfold wp. rewrite stagesIDsOfTags_omap. simpl.
  split; [done|]. split.
  - intros d ts Hd Hts Hs. apply list_elem_of_omap. exists (stage_tag d ts).
    split; [by apply Hin|by apply listed_stage_tag].
  - intros id (t & Htag & E)%list_elem_of_omap. exists t. split; [by apply Hin|].
    unfold listed_stage in E. destruct (negb _ || _ || _ || _) eqn:B; [done|].
    apply orb_false_iff in B as [_ B]. split; [|done].
    destruct (getDigestAndCreationTsFromRepoStageImageTag t) as [[d ts]|e]; by simplify_eq.
Qed.

(** The records of rejected stages that exist, with their timestamp. *)
Definition rejected_at (v : gmap string (option Image.Info)) (ts : Z) : Prop :=
  exists t, is_Some (v !! t) /\ rejected_ts t = Some ts.

Lemma wp_GetStagesIDsByDigest p digest pts w :
  up w ->
  wp (GetStagesIDsByDigest FormatRFC3339 st p digest pts []) w (fun ids w' => same st w w' /\
    exists tags rej, ids = omap (suitable_stage digest pts rej) tags /\
      (forall t, t ∈ tags <-> is_Some (V w !! t)) /\
      (forall ts, ts ∈ rej <-> rejected_at (V w) ts)).
Proof.
  intros Hu. unfold GetStagesIDsByDigest. apply wp_bind.
  eapply wp_mono; [by apply wp_list_tags|]. intros tags w1 [Hs Ht].
  destruct (Ht eq_refl) as [_ Hin]. apply wp_bind. unfold wp at 1.
  rewrite rejectedStagesOfTags_omap. simpl. unfold wp.
  rewrite suitableStagesOfTags_omap. simpl. split; [done|].
  eexists tags, _. split; [done|]. split; [done|]. intros ts. rewrite list_elem_of_omap.
  unfold rejected_at. setoid_rewrite Hin. done.
Qed.

(** C36: where the registry answers, [GetStagesIDsByDigest] returns the stages of
    the digest: every existing stage that is not older than its parent and has no
    rejected record of its timestamp is offered, and whatever is offered comes from an
    existing tag starting with the digest, is not older than the parent, and has no
    such record. *)
Theorem GetStagesIDsByDigest_spec p digest pts w :
  up w ->
  exists ids w', GetStagesIDsByDigest FormatRFC3339 st p digest pts [] w = (Ok ids, w') /\
    V w' = V w /\
    (forall ts, hexdigest digest -> (0 <= ts)%Z -> in_int64 ts = true ->
       is_Some (V w !! stage_tag digest ts) -> (pts <= ts)%Z -> ~ rejected_at (V w) ts ->
       Image.NewStageID digest ts ∈ ids) /\
    (forall id, id ∈ ids ->
       Image.Digest id = digest /\ (pts <= Image.CreationTs id)%Z /\
       ~ rejected_at (V w) (Image.CreationTs id) /\
       exists t d, is_Some (V w !! t) /\ Str.HasPrefix t digest = true /\
         getDigestAndCreationTsFromRepoStageImageTag t = inl (d, Image.CreationTs id)).
Proof.
  intros Hu. apply wp_alt. eapply wp_mono; [by apply wp_GetStagesIDsByDigest|].
  intros ids w1 ((HV & _ & _) & tags & rej & -> & Hin & Hrej). split; [done|]. split.
  - intros ts Hd H0 Hr Hs Hp Hn. apply list_elem_of_omap. exists (stage_tag digest ts).
    split; [by apply Hin|]. unfold suitable_stage.
    rewrite stage_tag_prefix, stage_tag_not_rejected, parse_tag by done. simpl.
    rewrite (proj2 (Z.leb_le pts ts)) by done.
    by rewrite bool_decide_eq_false_2 by by rewrite Hrej.
  - intros id (t & Htag & E)%list_elem_of_omap. unfold suitable_stage in E.
    destruct (Str.HasPrefix t digest) eqn:Hp; [|done]. simpl in E.
    destruct (Str.HasSuffix t _); [done|]. simpl in E.
    destruct (getDigestAndCreationTsFromRepoStageImageTag t) as [[d ts]|e] eqn:Et; [|done].
    destruct (Z.leb_spec pts ts); [|done]. simpl in E. case_bool_decide; [done|].
    injection E as <-. simpl. split; [done|]. split; [done|]. split; [by rewrite <-Hrej|].
    exists t, d. split; [by apply Hin|done].
Qed.

Lemma rejected_ts_tag d ts :
  hexdigest d -> in_int64 ts = true -> rejected_ts (rejected_tag d ts) = Some ts.
Proof.
  intros Hd Hr. unfold rejected_ts. destruct (rejected_tag_suffix d ts) as [-> ->].
  by rewrite parse_stage_tag.
Qed.

(** What [GetStageDesc] returns is the image of an existing tag that has no
    readable record of rejection. *)
Lemma wlp_GetStageDesc p d ts w :
  wlp (GetStageDesc st p (Image.NewStageID d ts)) w (fun o w' => same st w w' /\
    forall desc, o = Some desc ->
      Image.SDStageID desc = Image.NewStageID d ts /\
      V w !! stage_tag d ts = Some (Some (Image.SDInfo desc)) /\
      mjoin (V w !! rejected_tag d ts) = None).
Proof.
  unfold GetStageDesc. cbn [Image.Digest Image.CreationTs Image.NewStageID].
  rewrite ConstructStageImageName_tag, rejected_record_tag. apply wlp_bind, wlp_try.
  - intros o w1 E. pose proof (wlp_get st (stage_tag d ts) w) as H. unfold wlp in H.
    rewrite E in H. destruct H as (Hs & i & -> & Hi). wp_step.
    eapply wlp_mono; [apply wlp_tryget|]. simpl. intros o w2 [Hs' ->].
    rewrite (proj1 Hs). destruct (mjoin _) eqn:Hj; wp_step.
    + split; [by etrans|]. done.
    + split; [by etrans|]. intros desc [= <-]. done.
  - intros e w1 E. pose proof (keeps_get st (stage_tag d ts) w) as Hs. rewrite E in Hs.
    simpl in Hs. repeat case_bool_in_goal; wp_step. done.
Qed.

(** A rejected stage is not offered any more: after [RejectStage] neither
    [GetStageDesc] returns its description nor [GetStagesIDsByDigest] lists it, while
    the tags of all stages stay. *)
Theorem RejectStage_hides p d ts w :
  hexdigest d -> (0 <= ts)%Z -> in_int64 ts = true -> up w ->
  exists w1, RejectStage st p d ts w = (Ok tt, w1) /\
    (forall o w2, GetStageDesc st p (Image.NewStageID d ts) w1 = (Ok o, w2) -> o = None) /\
    (forall pts, exists ids w2,
       GetStagesIDsByDigest FormatRFC3339 st p d pts [] w1 = (Ok ids, w2) /\
       Image.NewStageID d ts ∉ ids) /\
    (forall d' ts', hexdigest d' -> (0 <= ts')%Z ->
       V w1 !! stage_tag d' ts' = V w !! stage_tag d' ts').
Proof.
  intros Hd H0 Hr Hu. unfold RejectStage. rewrite rejected_record_tag.
  pose proof (wp_push st (rejected_tag d ts) {[ Image.WerfLabel := p ]} w Hu
    ltac:(by unfold rejected_tag; destruct d; destruct Hd) (rejected_tag_valid d ts Hd H0 Hr)) as H.
  apply (wp_wrap "unable to push rejected stage image record %s: %w"
           [FS (ref_of (RepoAddress st) (rejected_tag d ts))]) in H.
  apply wp_alt in H as ([] & w1 & E & _ & Hu1 & Hf & i & Hi & _ & _).
  exists w1. split; [done|]. split; [|split].
  - intros o w2 Eo. pose proof (wlp_GetStageDesc p d ts w1) as Hg. unfold wlp in Hg.
    rewrite Eo in Hg. destruct Hg as [_ Hg]. destruct o as [desc|]; [|done].
    destruct (Hg desc eq_refl) as (_ & _ & Hj). by rewrite Hi in Hj.
  - intros pts. apply wp_alt. eapply wp_mono; [by apply wp_GetStagesIDsByDigest|].
    intros ids w2 (_ & tags & rej & -> & Hin & Hrej).
    intros (t & _ & Es)%list_elem_of_omap. unfold suitable_stage in Es.
    destruct (_ && _); [|done]. destruct (getDigestAndCreationTsFromRepoStageImageTag t)
      as [[d' ts']|]; [|done]. destruct (pts <=? ts')%Z; [|done]. simpl in Es.
    case_bool_decide as Hnr; [done|]. simpl in Es. simplify_eq. apply Hnr, Hrej.
    exists (rejected_tag d ts). split; [by eexists|by apply rejected_ts_tag].
  - intros d' ts' Hd' H0'. apply Hf. intros E'. by eapply rejected_ne_stage.
Qed.

End repo.

End RepoProps.
