(* ===== verification/RepoRecords.v ===== *)
(** The properties of the records that the registry-backed storage keeps beside
    the stages: rejected stages, custom tags, managed images, image metadata,
    import metadata, clients, and the last cleanup. *)
From S2P Require Import Prelude Go Slug Image Registry StagesStorage RepoStorage.
From S2P Require Import RepoStorageFacts RepoStorageProps.

Module RecordProps.
Import StagesStorage RepoStorage RepoFacts RepoProps.

(** What removing the image [i] may do to the tags: a tag stays as it is, or it is
    gone and its image had the digest of [i]. *)
Definition removes (i : Image.Info) (v v' : gmap string (option Image.Info)) : Prop :=
  forall t, v' !! t = v !! t \/ v' !! t = None /\
    exists j, v !! t = Some (Some j) /\ Image.RepoDigest j = Image.RepoDigest i.

(** No other tag has the digest of the image at [t]. *)
Definition own_digest (v : gmap string (option Image.Info)) (t : string) : Prop :=
  forall i t' j, v !! t = Some (Some i) -> v !! t' = Some (Some j) ->
    Image.RepoDigest j = Image.RepoDigest i -> t' = t.

Lemma removes_others i v v' t t' :
  removes i v v' -> v !! t = Some (Some i) -> own_digest v t -> t' <> t -> v' !! t' = v !! t'.
Proof.
  intros H Hi Ho Hne. destruct (H t') as [|(_ & j & Hj & Hd)]; [done|].
  destruct Hne. by eapply Ho.
Qed.

Section repo.
Context {R : Type} `{!DockerRegistry R, GQ : !GoQuote, TC : !TransportCodes}.
Context (FormatRFC3339 : Z -> string).
Context (st : RepoStagesStorage) `{!RegistryLaws R (RepoAddress st)}.

Abbreviation V w := (view (RepoAddress st) (registry w)).
Abbreviation up w := (online (RepoAddress st) (registry w)).

(** Deleting what a read found. *)
Lemma wp_try_delete t w {f1 a1 f2} {a2 : Image.Info -> list farg} :
  up w ->
  wp (o ← wrap f1 a1 (reg (reg_TryGetRepoImage (ref_of (RepoAddress st) t)));
      match o with
      | None => mret tt
      | Some i => wrap f2 (a2 i) (reg (reg_DeleteRepoImage i))
      end) w (fun _ w' =>
    now w' = now w /\ up w' /\ mjoin (V w' !! t) = None /\
    match V w !! t with
    | Some (Some i) => removes i (V w) (V w')
    | _ => V w' = V w
    end).
Proof.
  intros Hu. wp_step. eapply wp_mono; [by apply wp_tryget|]. simpl.
  intros o w1 [(HV & Hn & Hup) ->]. destruct (V w !! t) as [[i|]|] eqn:Et; simpl; wp_step.
  - rewrite <-HV in Et. eapply wp_mono; [by eapply wp_delete; [auto|]|]. simpl.
    intros _ w2 (Hn2 & Hu2 & Hg & Hf). split; [congruence|]. split; [done|].
    split; [by rewrite Hg|]. intros t'. rewrite <-HV. apply Hf.
  - rewrite HV, Et. eauto.
  - rewrite HV, Et. eauto.
Qed.

(** ** A record is put *)

(** The second world is the first with an image of its own digest at [t], carrying
    the labels [l]. *)
Definition put_at (t : string) (l : gmap string string) (w w1 : World R) : Prop :=
  now w1 = now w /\ up w1 /\ (forall t', t' <> t -> V w1 !! t' = V w !! t') /\
  exists i, V w1 !! t = Some (Some i) /\ Image.Labels i = l /\
    forall t' j, t' <> t -> V w !! t' = Some (Some j) ->
      Image.RepoDigest j <> Image.RepoDigest i.

Lemma wp_put f a pre s l w :
  up w -> pre <> "" -> Slug.IsValidDockerTag (pre +:+ s) = true ->
  wp (wrap f a (reg (reg_PushImage (ref_of (RepoAddress st) (pre +:+ s)) l))) w
    (fun _ w1 => put_at (pre +:+ s) l w w1).
Proof.
  intros Hu Hp Hv. apply wp_wrap, wp_push; [done| |done]. by destruct pre.
Qed.

Lemma put_listed f a t l w w1 :
  put_at t l w w1 ->
  wp (list_tags FormatRFC3339 st f a []) w1 (fun tags _ => t ∈ tags /\
    forall t', t' <> t -> t' ∈ tags -> is_Some (V w !! t')).
Proof.
  intros (_ & Hu & Hf & i & Hi & _). eapply wp_mono; [by apply wp_list_tags|].
  simpl. intros tags w2 [_ [_ Hin]%(fun f => f eq_refl)]. split; [apply Hin; by eexists|].
  intros t' Hne Ht'. rewrite <-Hf by done. by apply Hin.
Qed.

(** A listing by the record's prefix has it. *)
Lemma in_prefixed pre s tags : pre +:+ s ∈ tags -> s ∈ tags_with_prefix pre tags.
Proof.
  intros H. apply list_elem_of_fmap. exists (pre +:+ s). split; [by rewrite Str.TrimPrefix_app|].
  apply list_elem_of_filter. split; [apply Str.HasPrefix_app|done].
Qed.

(** Where the image of the record is removed, the other tags are as they were
    before it was put. *)
Lemma put_removes t l w w1 i w2 :
  put_at t l w w1 -> V w1 !! t = Some (Some i) -> removes i (V w1) (V w2) ->
  forall t', t' <> t -> V w2 !! t' = V w !! t'.
Proof.
  intros (_ & _ & Hf & i0 & Hi0 & _ & Hd) Hi Hr t' Ht. rewrite <-Hf by done.
  eapply removes_others; [done|done| |done]. intros i' t'' j Hi' Hj Hdj.
  rewrite Hi in Hi'. rewrite Hi in Hi0. simplify_eq.
  destruct (decide (t'' = t)); [done|]. rewrite Hf in Hj by done. by apply Hd in Hj.
Qed.

Lemma put_try_delete t l w w1 {f1 a1 f2} {a2 : Image.Info -> list farg} :
  put_at t l w w1 ->
  wp (o ← wrap f1 a1 (reg (reg_TryGetRepoImage (ref_of (RepoAddress st) t)));
      match o with
      | None => mret tt
      | Some i => wrap f2 (a2 i) (reg (reg_DeleteRepoImage i))
      end) w1 (fun _ w2 => up w2 /\ V w2 !! t = None /\
    forall t', t' <> t -> V w2 !! t' = V w !! t').
Proof.
  intros H. pose proof H as (_ & Hu & _ & i & Hi & _).
  eapply wp_mono; [by apply (wp_try_delete t)|]. simpl. rewrite Hi.
  intros _ w2 (_ & Hu2 & Hg & Hr). split; [done|]. split; [|by eapply put_removes].
  destruct (Hr t) as [E|[E _]]; [|done]. by rewrite E, Hi in Hg.
Qed.

Lemma wp_GetStageDesc_none p d ts w :
  up w -> V w !! stage_tag d ts = None ->
  wp (GetStageDesc st p (Image.NewStageID d ts)) w (fun o _ => o = None).
Proof.
  intros Hu Hn. unfold GetStageDesc. cbn [Image.Digest Image.CreationTs Image.NewStageID].
  rewrite ConstructStageImageName_tag. apply wp_bind. unfold wp at 1, try, reg.
  pose proof (get_online (stage_tag d ts) (registry w) Hu) as Hg. rewrite Hn in Hg.
  destruct (reg_GetRepoImage _ _) as [x r]. destruct Hg as (e & He & Hnf). simpl in He. subst x.
  simpl. by rewrite Hnf.
Qed.

(** Where the registry answers, [DeleteStage] removes the tag of the stage and
    its record of rejection, so the stage has no description any more; no tag is
    removed but those with the digest of one of the two images, and none is added. *)
Theorem DeleteStage_removes d ts desc o w :
  up w -> Image.SDStageID desc = Image.NewStageID d ts ->
  V w !! stage_tag d ts = Some (Some (Image.SDInfo desc)) ->
  exists w', DeleteStage st desc o w = (Ok tt, w') /\
    V w' !! stage_tag d ts = None /\ mjoin (V w' !! rejected_tag d ts) = None /\
    (forall p, exists w'', GetStageDesc st p (Image.NewStageID d ts) w' = (Ok None, w'')) /\
    (forall t, V w' !! t = V w !! t \/ V w' !! t = None /\
       exists i j, V w !! t = Some (Some j) /\ Image.RepoDigest j = Image.RepoDigest i /\
         (i = Image.SDInfo desc \/ V w !! rejected_tag d ts = Some (Some i))).
Proof.
  intros Hu Hid Hi.
  assert (wp (DeleteStage st desc o) w (fun _ w' => up w' /\
    V w' !! stage_tag d ts = None /\ mjoin (V w' !! rejected_tag d ts) = None /\
    (forall t, V w' !! t = V w !! t \/ V w' !! t = None /\
       exists i j, V w !! t = Some (Some j) /\ Image.RepoDigest j = Image.RepoDigest i /\
         (i = Image.SDInfo desc \/ V w !! rejected_tag d ts = Some (Some i))))) as H.
  { unfold DeleteStage. rewrite Hid. wp_step.
    eapply wp_mono; [by apply wp_delete|]. simpl. intros _ w1 (_ & Hu1 & Hg1 & Hf1).
    rewrite rejected_record_tag. eapply wp_mono; [by apply (wp_try_delete (rejected_tag d ts))|].
    simpl. intros _ w2 (_ & Hu2 & Hg2 & Hf2). split; [done|].
    assert (forall t, V w2 !! t = V w1 !! t \/ V w2 !! t = None /\
      exists i j, V w1 !! t = Some (Some j) /\ Image.RepoDigest j = Image.RepoDigest i /\
         V w1 !! rejected_tag d ts = Some (Some i)) as Hf.
    { intros t. destruct (V w1 !! rejected_tag d ts) as [[i|]|] eqn:Er; [|rewrite Hf2; by left..].
      destruct (Hf2 t) as [|(? & j & ? & ?)]; [by left|right]. eauto 6. }
    split; [|split; [done|]].
    - destruct (Hf (stage_tag d ts)) as [->|[]]; done.
    - intros t. destruct (Hf t) as [->|(E & i & j & Hj & Hd & Hr)].
      + destruct (Hf1 t) as [|(? & j & ? & ?)]; [by left|right]. split; [done|]. eauto 7.
      + right. split; [done|]. exists i, j.
        destruct (Hf1 t) as [<-|[E' _]]; [|congruence].
        destruct (Hf1 (rejected_tag d ts)) as [<-|[E' _]]; [|congruence]. auto. }
  apply wp_alt in H as ([] & w' & E & Hu' & Hs & Hr & Hf). exists w'. split; [done|].
  split; [done|]. split; [done|]. split; [|done]. intros p.
  apply (wp_GetStageDesc_none p) in Hs; [|done]. apply wp_alt in Hs as (? & w'' & ? & ->). eauto.
Qed.

Section records.
Context (hash : string -> string)
        (hash_alnum : forall s, Str.all Slug.is_alnum (hash s) = true)
        (hash_nonempty : forall s, hash s <> "")
        (hash_len : forall s, Str.len (hash s) <= 8).

Lemma slug_char_tag c : SlugFacts.slug_char c = true -> tag_char c = true.
Proof. destruct c as [[] [] [] [] [] [] [] []]; vm_compute; congruence. Qed.

(** ** Custom tags *)

Definition custom_tag (s : string) : string := RepoCustomTagMetadata_ImageTagPrefix +:+ s.

(** The tag of a custom tag's record: the slugged custom tag, which slugs to itself. *)
Lemma custom_tag_record tag :
  exists s, (forall a, makeRepoCustomTagMetadataRecord hash a tag = Ok (ref_of a (custom_tag s))) /\
    (forall a, makeRepoCustomTagMetadataRecord hash a s = Ok (ref_of a (custom_tag s))) /\
    Slug.IsValidDockerTag (custom_tag s) = true.
Proof using hash_alnum hash_nonempty hash_len.
  destruct (SlugFacts.LimitedSlug_again hash hash_alnum hash_nonempty hash_len tag 48)
    as (s & E & E' & Hl & Hc); [done|].
  exists s. unfold makeRepoCustomTagMetadataRecord. rewrite E, E'. split; [done|]. split; [done|].
  unfold custom_tag. change (RepoCustomTagMetadata_ImageTagPrefix +:+ s)
    with (String "c" ("ustom-tag-meta-" +:+ s)). apply valid_tag; [done| |].
  - rewrite Str.all_app. eapply andb_true_iff. split; [done|].
    eapply Str.all_mono; [|done]. apply slug_char_tag.
  - rewrite Str.len_app. unfold Slug.zlen in Hl. change (Str.len "ustom-tag-meta-") with 15. lia.
Qed.

(** C37: where the registry answers, a registered custom tag is found again: the
    metadata by the tag and by the id under which it is listed are the stage id and the
    tag that were registered; unregistering by that id removes the record; and no other
    tag of the repository changes. *)
Theorem custom_tag_roundtrip p desc tag w :
  up w ->
  exists id w1, RegisterStageCustomTag hash st p desc tag w = (Ok tt, w1) /\
    (forall k, k = tag \/ k = id -> exists w2,
       GetStageCustomTagMetadata hash st k w1 =
         (Ok (mkCustomTagMetadata (Image.StageID_String (Image.SDStageID desc)) tag), w2)) /\
    (exists ids w2, GetStageCustomTagMetadataIDs FormatRFC3339 st [] w1 = (Ok ids, w2) /\ id ∈ ids) /\
    (exists w2, UnregisterStageCustomTag hash st id w1 = (Ok tt, w2) /\
       V w2 !! custom_tag id = None /\
       forall t, t <> custom_tag id -> V w2 !! t = V w !! t).
Proof using hash_alnum hash_nonempty hash_len.
  intros Hu. destruct (custom_tag_record tag) as (s & Et & Es & Hv). exists s.
  assert (wp (RegisterStageCustomTag hash st p desc tag) w (fun _ w1 => put_at (custom_tag s)
    (<[Image.WerfLabel := p]> (CustomTagMetadata_ToLabels
       (newCustomTagMetadata (Image.StageID_String (Image.SDStageID desc)) tag))) w w1)) as H.
  { unfold RegisterStageCustomTag, addStageCustomTagMetadata. wp_step.
    eapply wp_lift; [apply Et|]. by apply wp_put. }
  apply wp_alt in H as ([] & w1 & E & Hput). exists w1.
  pose proof Hput as (_ & Hu1 & _ & i & Hi & Hl & _). split; [done|]. split; [|split].
  - intros k Hk. assert (forall a, makeRepoCustomTagMetadataRecord hash a k =
      Ok (ref_of a (custom_tag s))) as Ek by (destruct Hk as [->| ->]; auto).
    assert (wp (GetStageCustomTagMetadata hash st k) w1 (fun m _ => m =
      mkCustomTagMetadata (Image.StageID_String (Image.SDStageID desc)) tag)) as H.
    { unfold GetStageCustomTagMetadata. wp_step. eapply wp_lift; [apply Ek|]. wp_step.
      eapply wp_mono; [by eapply wp_get|]. simpl. intros _ w2 [_ ->]. wp_step.
      rewrite Hl. apply CustomTagMetadata_labels. }
    apply wp_alt in H as (m & w2 & ? & ->). eauto.
  - assert (wp (GetStageCustomTagMetadataIDs FormatRFC3339 st []) w1 (fun ids _ => s ∈ ids)) as H.
    { unfold GetStageCustomTagMetadataIDs. wp_step. eapply wp_mono; [by eapply put_listed|].
      simpl. intros tags w2 [Hin _]. wp_step. by apply in_prefixed. }
    apply wp_alt in H as (ids & w2 & ? & ?). eauto.
  - assert (wp (UnregisterStageCustomTag hash st s) w1 (fun _ w2 => V w2 !! custom_tag s = None /\
      removes i (V w1) (V w2))) as H.
    { unfold UnregisterStageCustomTag, deleteStageCustomTagMetadata. wp_step.
      eapply wp_lift; [apply Es|]. wp_step. eapply wp_mono; [by eapply wp_get|]. simpl.
      intros _ w2 [(HV & _ & Hup) ->]. wp_step. rewrite <-HV in Hi.
      eapply wp_mono; [by eapply wp_delete; [auto|]|]. simpl.
      intros _ w3 (_ & _ & Hg & Hr). split; [done|]. intros t. rewrite <-HV. apply Hr. }
    apply wp_alt in H as ([] & w2 & E2 & Hg & Hr). exists w2. split; [done|]. split; [done|].
    by eapply put_removes.
Qed.

(** ** Managed images *)

Definition managed_tag (id : string) : string := RepoManagedImageRecord_ImageTagPrefix +:+ id.

Lemma getManagedImageID_total name : exists id, getManagedImageID hash name = Ok id /\
  Str.all tag_char id = true.
Proof using hash_alnum hash_nonempty hash_len.
  unfold getManagedImageID. destruct (Slug.IsValidDockerTag (slugImageName name)) eqn:Ev.
  - eexists. split; [done|]. unfold Slug.IsValidDockerTag, Slug.shouldNotBeSlugged in Ev.
    destruct (bool_decide (slugImageName name = "")) eqn:E0.
    + apply bool_decide_eq_true in E0. by rewrite E0.
    + simpl in Ev. destruct (Slug.dockerTagRegexp (slugImageName name)) eqn:Er; [|done].
      destruct (slugImageName name) as [|c s]; [done|]. simpl in Er.
      apply andb_true_iff in Er as [Hc Hs]. cbn [Str.all]. unfold tag_char at 1.
      rewrite Hc. simpl. exact Hs.
  - destruct (SlugFacts.LimitedSlug_again hash hash_alnum hash_nonempty hash_len
      (slugImageName name) (Slug.DockerTagMaxSize - Slug.zlen RepoManagedImageRecord_ImageTagPrefix))
      as (s & E & _ & _ & Hc); [done|].
    exists s. split; [done|]. eapply Str.all_mono; [|done]. apply slug_char_tag.
Qed.

(** Where the registry answers and the id of the image fits a tag, an added
    managed image exists and is listed under the name its id stands for; removing it
    leaves it not existing; and no other tag changes. *)
Theorem managed_image_roundtrip p name w :
  up w ->
  exists id, getManagedImageID hash name = Ok id /\
    (Str.len id <= 114 ->
     exists w1, AddManagedImage hash st p name w = (Ok tt, w1) /\
      (exists w2, IsManagedImageExist hash st p name [] w1 = (Ok true, w2)) /\
      (exists l w2, GetManagedImages FormatRFC3339 st p [] w1 = (Ok l, w2) /\ unslugImageName id ∈ l) /\
      (exists w2 w3, RmManagedImage hash st p name w1 = (Ok tt, w2) /\
         IsManagedImageExist hash st p name [] w2 = (Ok false, w3) /\
         forall t, t <> managed_tag id -> V w2 !! t = V w !! t)).
Proof using hash_alnum hash_nonempty hash_len.
  intros Hu. destruct (getManagedImageID_total name) as (id & Eid & Hc). exists id.
  split; [done|]. intros Hl.
  assert (forall a, makeRepoManagedImageRecord hash a name = Ok (ref_of a (managed_tag id))) as Er
    by (intros a; unfold makeRepoManagedImageRecord; by rewrite Eid).
  assert (Slug.IsValidDockerTag (managed_tag id) = true) as Hv.
  { unfold managed_tag. change (RepoManagedImageRecord_ImageTagPrefix +:+ id)
      with (String "m" ("anaged-image-" +:+ id)). apply valid_tag; [done| |].
    - rewrite Str.all_app. by apply andb_true_iff.
    - rewrite Str.len_app. change (Str.len "anaged-image-") with 13. lia. }
  assert (forall b w, up w -> b = bool_decide (is_Some (V w !! managed_tag id)) ->
    exists w2, IsManagedImageExist hash st p name [] w = (Ok b, w2)) as Hex.
  { intros b w' Hu' ->.
    assert (wp (IsManagedImageExist hash st p name []) w' (fun b' _ =>
      b' = bool_decide (is_Some (V w' !! managed_tag id)))) as H.
    { unfold IsManagedImageExist. wp_step. eapply wp_lift; [apply Er|].
      eapply wp_mono; [by apply wp_exist|]. naive_solver. }
    apply wp_alt in H as (? & ? & ? & ->). eauto. }
  assert (wp (AddManagedImage hash st p name) w (fun _ w1 =>
    put_at (managed_tag id) {[ Image.WerfLabel := p ]} w w1)) as H.
  { unfold AddManagedImage. wp_step. eapply wp_lift; [apply Er|]. by apply wp_put. }
  apply wp_alt in H as ([] & w1 & E & Hput). exists w1. split; [done|].
  pose proof Hput as (_ & Hu1 & _ & i & Hi & _). split; [|split].
  - apply Hex; [done|]. by rewrite Hi.
  - assert (wp (GetManagedImages FormatRFC3339 st p []) w1 (fun l _ => unslugImageName id ∈ l)) as H.
    { unfold GetManagedImages. wp_step. eapply wp_mono; [by eapply put_listed|].
      simpl. intros tags w2 [Hin _]. wp_step. apply list_elem_of_fmap. exists id.
      split; [done|by apply in_prefixed]. }
    apply wp_alt in H as (l & w2 & ? & ?). eauto.
  - assert (wp (RmManagedImage hash st p name) w1 (fun _ w2 => up w2 /\
      V w2 !! managed_tag id = None /\
      forall t, t <> managed_tag id -> V w2 !! t = V w !! t)) as H.
    { unfold RmManagedImage. wp_step. eapply wp_lift; [apply Er|]. by eapply put_try_delete. }
    apply wp_alt in H as ([] & w2 & E2 & Hu2 & Hg & Hr).
    destruct (Hex false w2) as [w3 E3]; [done|by rewrite Hg|]. eauto 6.
Qed.

(** ** Import metadata *)

Definition import_tag (id : string) : string := RepoImportMetadata_ImageTagPrefix +:+ id.

(** Where the registry answers, import metadata put under its source id is read
    back as it was, its id is listed, and once removed it reads as absent, with every
    other tag as before. *)
Theorem import_metadata_roundtrip p m w :
  up w -> Str.all tag_char (ImportSourceID m) = true -> Str.len (ImportSourceID m) <= 112 ->
  exists w1, PutImportMetadata st p m w = (Ok tt, w1) /\
    (exists w2, GetImportMetadata st p (ImportSourceID m) w1 = (Ok (Some m), w2)) /\
    (exists ids w2, GetImportMetadataIDs FormatRFC3339 st p [] w1 = (Ok ids, w2) /\
       ImportSourceID m ∈ ids) /\
    (exists w2 w3, RmImportMetadata st p (ImportSourceID m) w1 = (Ok tt, w2) /\
       GetImportMetadata st p (ImportSourceID m) w2 = (Ok None, w3) /\
       forall t, t <> import_tag (ImportSourceID m) -> V w2 !! t = V w !! t).
Proof.
  intros Hu Hc Hl. set (id := ImportSourceID m) in *.
  assert (Slug.IsValidDockerTag (import_tag id) = true) as Hv.
  { unfold import_tag. change (RepoImportMetadata_ImageTagPrefix +:+ id)
      with (String "i" ("mport-metadata-" +:+ id)). apply valid_tag; [done| |].
    - rewrite Str.all_app. by apply andb_true_iff.
    - rewrite Str.len_app. change (Str.len "mport-metadata-") with 15. lia. }
  assert (forall w, up w -> exists w2, GetImportMetadata st p id w =
    (Ok ((fun i => newImportMetadataFromLabels (Image.Labels i)) <$> mjoin (V w !! import_tag id)), w2))
    as Hget.
  { intros w' Hu'. pose proof (wp_tryget st (import_tag id) w' Hu') as H.
    apply wp_alt in H as (o & w2 & E & _ & ->). exists w2. unfold GetImportMetadata.
    change (makeRepoImportMetadataName (RepoAddress st) id) with (ref_of (RepoAddress st) (import_tag id)).
    unfold mbind, prog_bind, wrap. by rewrite E. }
  assert (wp (PutImportMetadata st p m) w (fun _ w1 => put_at (import_tag id)
    (<[Image.WerfLabel := p]> (ImportMetadata_ToLabelsMap m)) w w1)) as H by by apply wp_put.
  apply wp_alt in H as ([] & w1 & E & Hput). exists w1. split; [done|].
  pose proof Hput as (_ & Hu1 & _ & i & Hi & Hlb & _). split; [|split].
  - destruct (Hget w1 Hu1) as [w2 E2]. rewrite Hi in E2. simpl in E2.
    rewrite Hlb, ImportMetadata_labels in E2. eauto.
  - assert (wp (GetImportMetadataIDs FormatRFC3339 st p []) w1 (fun ids _ => id ∈ ids)) as H.
    { unfold GetImportMetadataIDs. wp_step. eapply wp_mono; [by eapply put_listed|].
      simpl. intros tags w2 [Hin _]. wp_step.
      apply list_elem_of_fmap. exists (import_tag id). split.
      - unfold import_tag, getImportMetadataIDFromRepoTag. by rewrite Str.TrimPrefix_app.
      - apply list_elem_of_filter. split; [apply Str.HasPrefix_app|done]. }
    apply wp_alt in H as (l & w2 & ? & ?). eauto.
  - assert (wp (RmImportMetadata st p id) w1 (fun _ w2 => up w2 /\
      V w2 !! import_tag id = None /\
      forall t, t <> import_tag id -> V w2 !! t = V w !! t)) as H by by eapply put_try_delete.
    apply wp_alt in H as ([] & w2 & E2 & Hu2 & Hg & Hr).
    destruct (Hget w2 Hu2) as [w3 E3]. rewrite Hg in E3. eauto 6.
Qed.

End records.
End repo.

End RecordProps.
