(* ===== verification/RepoMetadata.v ===== *)
(** The image metadata by commit that the registry-backed storage groups by image,
    the records of clients and of the last cleanup, the copy of a stage between
    storages, and the warning about meta tags. *)
From S2P Require Import Prelude Go Slug Image Registry StagesStorage RepoStorage.
From S2P Require Import RepoStorageFacts RepoStorageProps RepoRecords.

Module MetadataProps.
Import StagesStorage RepoStorage RepoFacts RepoProps RecordProps.

(** * Grouping the tags of image metadata *)

(** The image metadata ID, commit and stage that a tag carries. *)
Definition metadata_of (prefix tag : string) : option (string * string * string) :=
  if Str.HasPrefix tag prefix then
    match Str.Split (Str.TrimPrefix tag prefix) "_" with
    | [id; commit; stage] => Some (id, commit, stage)
    | _ => None
    end
  else None.

(** The commits of an image and a stage. *)
Definition commits (m : ImageMetadataMap) (name stage : string) : list string :=
  default [] (m !! name ≫= (fun s => s !! stage)).

Lemma commits_add m n s c n' s' :
  commits (addStageIDCommit m n s c) n' s' =
  if bool_decide (n' = n /\ s' = s) then commits m n s ++ [c] else commits m n' s'.
Proof.
  unfold commits, addStageIDCommit in *. case_bool_decide as E.
  - destruct E as [-> ->]. rewrite lookup_insert_eq. simpl. rewrite lookup_insert_eq. simpl.
    by destruct (m !! n) as [x|]; simpl; [destruct (x !! s)|rewrite lookup_empty].
  - destruct (decide (n' = n)) as [->|Hn].
    + rewrite lookup_insert_eq. simpl. rewrite lookup_insert_ne by naive_solver.
      destruct (m !! n); simpl; [done|by rewrite lookup_empty].
    + by rewrite lookup_insert_ne.
Qed.

(** The commits that the tags carry for a stage, where [sel] selects the image
    metadata ID. *)
Definition tag_commits (prefix : string) (sel : string -> bool) (stage : string)
  (tags : list string) : list string :=
  omap (fun t => match metadata_of prefix t with
                 | Some (id, c, s) => if sel id && bool_decide (s = stage) then Some c else None
                 | None => None
                 end) tags.

Definition is_image (ids : gmap string string) (name id : string) : bool :=
  bool_decide (ids !! id = Some name).
Definition is_unmanaged (ids : gmap string string) (name id : string) : bool :=
  bool_decide (ids !! id = None /\ id = name).

Lemma groupTag_commits ids prefix acc tag n s :
  commits (groupTag ids prefix acc tag).1 n s =
    commits acc.1 n s ++ tag_commits prefix (is_image ids n) s [tag] /\
  commits (groupTag ids prefix acc tag).2 n s =
    commits acc.2 n s ++ tag_commits prefix (is_unmanaged ids n) s [tag].
Proof.
  unfold groupTag, tag_commits, metadata_of, is_image, is_unmanaged. simpl.
  destruct (Str.HasPrefix tag prefix); simpl; [|by rewrite !app_nil_r].
  destruct (Str.Split _ "_") as [|a [|b [|c [|]]]]; simpl; try by rewrite !app_nil_r.
  destruct (ids !! a) as [m|] eqn:Ea; simpl; rewrite commits_add; split;
    repeat case_bool_decide; simpl; rewrite ?app_nil_r; naive_solver.
Qed.

Lemma foldl_groupTag_commits ids prefix tags acc n s :
  commits (foldl (groupTag ids prefix) acc tags).1 n s =
    commits acc.1 n s ++ tag_commits prefix (is_image ids n) s tags /\
  commits (foldl (groupTag ids prefix) acc tags).2 n s =
    commits acc.2 n s ++ tag_commits prefix (is_unmanaged ids n) s tags.
Proof.
  revert acc. induction tags as [|t tags IH]; intros acc; simpl; [by rewrite !app_nil_r|].
  destruct (IH (groupTag ids prefix acc t)) as [-> ->].
  destruct (groupTag_commits ids prefix acc t n s) as [-> ->].
  rewrite <-!app_assoc. unfold tag_commits. simpl.
  destruct (metadata_of prefix t) as [[[]]|]; simpl; [|done].
  by destruct (is_image _ _ _ && _), (is_unmanaged _ _ _ && _).
Qed.

Section hash.
Context (hash : string -> string)
        (hash_alnum : forall s, Str.all Slug.is_alnum (hash s) = true)
        (hash_nonempty : forall s, hash s <> "")
        (hash_len : forall s, Str.len (hash s) <= 8).

Lemma getImageMetadataID_total name : exists n, getImageMetadataID hash name = Ok (hash n).
Proof using hash_alnum hash_nonempty hash_len.
  unfold getImageMetadataID, getManagedImageNameByImageNameOrManagedImage.
  destruct (getManagedImageID_total hash hash_alnum hash_nonempty hash_len name) as (id & -> & _).
  simpl. eauto.
Qed.

(** The table of the image metadata IDs has an image for exactly the IDs of the
    names, and that image has the ID. *)
Lemma imageMetadataIDs_spec names m0 :
  exists m, imageMetadataIDs hash m0 names = Ok m /\
    forall id n, m !! id = Some n -> m0 !! id = Some n \/ n ∈ names /\ getImageMetadataID hash n = Ok id.
Proof using hash_alnum hash_nonempty hash_len.
  revert m0. induction names as [|x names IH]; intros m0; simpl; [by exists m0; auto|].
  destruct (getImageMetadataID_total x) as [y E]. rewrite E. simpl.
  destruct (IH (<[hash y := x]> m0)) as (m & -> & H). exists m. split; [done|].
  intros id n Hn. destruct (H id n Hn) as [Hi|[? ?]]; [|set_solver].
  destruct (decide (id = hash y)) as [->|].
  - rewrite lookup_insert_eq in Hi. simplify_eq. set_solver.
  - rewrite lookup_insert_ne in Hi by done. auto.
Qed.

Lemma imageMetadataIDs_complete names m0 m id :
  imageMetadataIDs hash m0 names = Ok m ->
  is_Some (m0 !! id) \/ (exists n, n ∈ names /\ getImageMetadataID hash n = Ok id) ->
  is_Some (m !! id).
Proof.
  revert m0. induction names as [|x names IH]; intros m0 E H; simpl in E.
  - simplify_eq. destruct H as [|(? & H & _)]; [done|]. by apply elem_of_nil in H.
  - destruct (getImageMetadataID hash x) as [y|?|?] eqn:Ex; try done. simpl in E.
    eapply IH; [done|]. destruct (decide (id = y)) as [->|].
    + left. rewrite lookup_insert_eq. by eexists.
    + rewrite lookup_insert_ne by done. destruct H as [|(k & Hk & Ek)]; [by left|right].
      apply elem_of_cons in Hk as [->|]; [congruence|eauto].
Qed.

Definition meta_tag (id commit stage : string) : string :=
  RepoImageMetadataByCommitRecord_ImageTagPrefix +:+ id +:+ "_" +:+ commit +:+ "_" +:+ stage.

(** A commit or a stage id: letters, digits, dots and dashes. *)
Definition meta_part (s : string) : Prop := Str.all tag_char s = true /\ Str.mem "_" s = false.

Lemma meta_hash s : meta_part (hash s).
Proof using hash_alnum.
  split.
  - eapply Str.all_mono; [|apply hash_alnum]. intros c Hc. unfold tag_char, Slug.is_word. by rewrite Hc.
  - by eapply Str.all_mem.
Qed.

Lemma metadata_of_tag id commit stage :
  meta_part id -> meta_part commit -> meta_part stage ->
  metadata_of RepoImageMetadataByCommitRecord_ImageTagPrefix (meta_tag id commit stage) =
  Some (id, commit, stage).
Proof.
  intros [_ Hi] [_ Hc] [_ Hs]. unfold metadata_of, meta_tag.
  rewrite Str.HasPrefix_app, Str.TrimPrefix_app.
  change ("_" +:+ commit +:+ "_" +:+ stage)
    with (String "_" (commit +:+ String "_" stage)).
  by rewrite Split_char3.
Qed.

Lemma meta_tag_valid id commit stage :
  meta_part id -> meta_part commit -> meta_part stage ->
  Str.len id <= 8 -> Str.len commit <= 40 -> Str.len stage <= 70 ->
  Slug.IsValidDockerTag (meta_tag id commit stage) = true.
Proof.
  intros [Hi _] [Hc _] [Hs _] Li Lc Ls. unfold meta_tag.
  change (RepoImageMetadataByCommitRecord_ImageTagPrefix +:+ ?x) with (String "m" ("eta-" +:+ x)).
  apply valid_tag; [done| |].
  - rewrite !Str.all_app, Hi, Hc, Hs. done.
  - rewrite !Str.len_app. change (Str.len "_") with 1. change (Str.len "eta-") with 4. lia.
Qed.

Section repo.
Context {R : Type} `{!DockerRegistry R, GQ : !GoQuote, TC : !TransportCodes}.
Context (FormatRFC3339 : Z -> string).
Context (st : RepoStagesStorage) `{!RegistryLaws R (RepoAddress st)}.

Abbreviation V w := (view (RepoAddress st) (registry w)).
Abbreviation up w := (online (RepoAddress st) (registry w)).

(** The grouped metadata are the tags', split by the table of the names' IDs. *)
Lemma wp_group p names w :
  up w ->
  wp (GetAllAndGroupImageMetadataByImageName hash FormatRFC3339 st p names []) w
    (fun '(m1, m2) _ => exists ids tags, imageMetadataIDs hash ∅ names = Ok ids /\
      (forall t, t ∈ tags <-> is_Some (V w !! t)) /\
      forall n s,
        commits m1 n s = tag_commits RepoImageMetadataByCommitRecord_ImageTagPrefix (is_image ids n) s tags /\
        commits m2 n s = tag_commits RepoImageMetadataByCommitRecord_ImageTagPrefix (is_unmanaged ids n) s tags).
Proof using hash_alnum hash_nonempty hash_len.
  intros Hu. unfold GetAllAndGroupImageMetadataByImageName. wp_step.
  eapply wp_mono; [by apply wp_list_tags|]. simpl.
  intros tags w2 [_ [_ Hin]%(fun f => f eq_refl)].
  destruct (imageMetadataIDs_spec names ∅) as (ids & E & _).
  eapply wp_lift; [unfold groupImageMetadataTagsByImageName; by rewrite E|].
  destruct (foldl _ _ _) as [m1 m2] eqn:Ef. exists ids, tags. split; [done|]. split; [done|].
  intros n s. pose proof (foldl_groupTag_commits ids
    RepoImageMetadataByCommitRecord_ImageTagPrefix tags (∅, ∅) n s) as [H1 H2].
  rewrite Ef in H1, H2. simpl in H1, H2. by rewrite H1, H2.
Qed.

Lemma elem_of_tag_commits prefix sel s tags c :
  c ∈ tag_commits prefix sel s tags <->
  exists t id, t ∈ tags /\ metadata_of prefix t = Some (id, c, s) /\ sel id = true.
Proof.
  unfold tag_commits. rewrite list_elem_of_omap. split.
  - intros (t & Ht & E). destruct (metadata_of prefix t) as [[[id c'] s']|] eqn:Em; [|done].
    destruct (sel id) eqn:Es; [|done]. simpl in E. case_bool_decide; [|done]. simplify_eq. eauto.
  - intros (t & id & Ht & E & Hs). exists t. split; [done|]. rewrite E, Hs. simpl.
    by rewrite bool_decide_eq_true_2.
Qed.

(** Where the registry answers, the metadata put for an image, a commit and a
    stage is grouped: under a listed image with the image's metadata ID when there is
    one, and under that ID among the not managed images otherwise; removing it by the
    image's name removes that tag and no other. *)
Theorem image_metadata_roundtrip p name commit stage w :
  up w -> meta_part commit -> meta_part stage ->
  Str.len commit <= 40 -> Str.len stage <= 70 ->
  exists id w1, getImageMetadataID hash name = Ok id /\
    PutImageMetadata hash st p name commit stage w = (Ok tt, w1) /\
    (forall names, exists m1 m2 w2,
       GetAllAndGroupImageMetadataByImageName hash FormatRFC3339 st p names [] w1 = (Ok (m1, m2), w2) /\
       ((exists n, n ∈ names /\ getImageMetadataID hash n = Ok id) ->
          exists n, n ∈ names /\ getImageMetadataID hash n = Ok id /\ commit ∈ commits m1 n stage) /\
       (~ (exists n, n ∈ names /\ getImageMetadataID hash n = Ok id) ->
          commit ∈ commits m2 id stage)) /\
    (exists w2, RmImageMetadata hash st p name commit stage w1 = (Ok tt, w2) /\
       V w2 !! meta_tag id commit stage = None /\
       forall t, t <> meta_tag id commit stage -> V w2 !! t = V w !! t).
Proof using hash_alnum hash_nonempty hash_len.
  intros Hu Hc Hs Lc Ls. destruct (getImageMetadataID_total name) as [y Ey].
  assert (meta_part (hash y)) as Hid by apply meta_hash.
  assert (forall a, makeRepoImageMetadataName hash a name commit stage =
    Ok (ref_of a (meta_tag (hash y) commit stage))) as Er.
  { intros a. unfold makeRepoImageMetadataName, makeRepoImageMetadataTagName. by rewrite Ey. }
  assert (wp (PutImageMetadata hash st p name commit stage) w (fun _ w1 =>
    put_at st (meta_tag (hash y) commit stage) {[ Image.WerfLabel := p ]} w w1)) as H.
  { unfold PutImageMetadata. wp_step. eapply wp_lift; [apply Er|]. apply wp_put; [done..|].
    by apply meta_tag_valid. }
  apply wp_alt in H as ([] & w1 & E & Hput). exists (hash y), w1. split; [done|]. split; [done|].
  pose proof Hput as (_ & Hu1 & _ & i & Hi & _). split.
  - intros names. pose proof (wp_group p names w1 Hu1) as H.
    apply wp_alt in H as ([m1 m2] & w2 & E2 & ids & tags & Eids & Hin & Hcm).
    exists m1, m2, w2. split; [done|].
    assert (meta_tag (hash y) commit stage ∈ tags) as Ht by (apply Hin; rewrite Hi; done).
    split.
    + intros Hex. destruct (imageMetadataIDs_spec names ∅) as (ids' & E' & Hids).
      rewrite Eids in E'. simplify_eq.
      destruct (imageMetadataIDs_complete names ∅ ids' (hash y) Eids (or_intror Hex)) as [n Hn].
      destruct (Hids _ _ Hn) as [He|[Hn1 Hn2]]; [by rewrite lookup_empty in He|].
      exists n. split; [done|]. split; [done|]. rewrite (proj1 (Hcm n stage)).
      apply elem_of_tag_commits. eexists _, _. split; [done|].
      rewrite metadata_of_tag by done. split; [done|]. by apply bool_decide_eq_true.
    + intros Hnex. rewrite (proj2 (Hcm (hash y) stage)). apply elem_of_tag_commits.
      eexists _, _. split; [done|]. rewrite metadata_of_tag by done. split; [done|].
      apply bool_decide_eq_true. split; [|done]. destruct (ids !! hash y) as [n|] eqn:En; [|done].
      destruct Hnex. exists n. destruct (imageMetadataIDs_spec names ∅) as (ids' & E' & Hids).
      rewrite Eids in E'. simplify_eq. destruct (Hids _ _ En) as [He|]; [|done].
      by rewrite lookup_empty in He.
  - assert (wp (RmImageMetadata hash st p name commit stage) w1 (fun _ w2 =>
      V w2 !! meta_tag (hash y) commit stage = None /\
      forall t, t <> meta_tag (hash y) commit stage -> V w2 !! t = V w !! t)) as H.
    { unfold RmImageMetadata, selectMetadataNameImage, tryGetRepoImageFunc. wp_step.
      eapply wp_lift; [apply Er|]. wp_step. eapply wp_mono; [by apply wp_tryget|]. simpl.
      rewrite Hi. intros o w2 [(HV & _ & Hup) ->]. simpl. wp_step. rewrite <-HV in Hi.
      eapply wp_mono; [by eapply wp_delete; [auto|]|]. simpl. intros _ w3 (_ & _ & Hg & Hr).
      split; [done|]. rewrite HV in *. by eapply put_removes. }
    apply wp_alt in H as ([] & w2 & E2 & Hg & Hr). eauto.
Qed.

(** ** Clients *)

Section clients.
Context (Reverse : string -> string)
        (Reverse_ascii : forall s, Utf8.ascii_only s = true -> Reverse s = Str.rev s).

Lemma tag_char_ascii s : Str.all tag_char s = true -> Utf8.ascii_only s = true.
Proof.
  apply Str.all_mono. intros c. by destruct c as [[] [] [] [] [] [] [] []]; vm_compute.
Qed.

Definition client_tag (id : string) (ts : Z) : string :=
  RepoClientIDRecord_ImageTagPrefix +:+ id +:+ "-" +:+ itoa ts.

Lemma clientIDRecordOfTag_tag id ts :
  Str.all tag_char id = true -> (0 <= ts)%Z -> in_int64 ts = true ->
  clientIDRecordOfTag Reverse (client_tag id ts) = Some (mkClientIDRecord id ts).
Proof using Reverse_ascii.
  intros Hid Hts Hr. unfold clientIDRecordOfTag, client_tag.
  rewrite Str.HasPrefix_app, Str.TrimPrefix_app. simpl negb. cbn [negb].
  destruct (itoa_digits ts Hts) as [Hd%digits_tag_chars _].
  assert (forall s, Str.all tag_char s = true -> Reverse s = Str.rev s) as HR
    by (intros; by apply Reverse_ascii, tag_char_ascii).
  rewrite HR by by rewrite !Str.all_app, Hid, Hd. rewrite !Str.rev_app.
  change (Str.rev "-") with "-". rewrite <-Str.app_assoc.
  change ("-" +:+ Str.rev id) with (String "-" (Str.rev id)).
  rewrite Str.SplitN_char by by rewrite Str.mem_rev, itoa_no_dash. cbn [Str.SplitN].
  rewrite !HR, !Str.rev_rev, ParseInt_itoa by (by rewrite ?Str.all_rev). done.
Qed.

(** Where the registry answers, the record of a client is found again, whatever
    dashes its id has: the listing has the id and the timestamp that were posted, and
    every record it has beside them was there before. *)
Theorem client_id_roundtrip p rec w :
  up w -> Str.all tag_char (ClientID rec) = true -> Str.len (ClientID rec) <= 98 ->
  (0 <= ClientTs rec)%Z -> in_int64 (ClientTs rec) = true ->
  exists w1 recs w2, PostClientIDRecord st p rec w = (Ok tt, w1) /\
    GetClientIDRecords Reverse FormatRFC3339 st p [] w1 = (Ok recs, w2) /\ rec ∈ recs /\
    forall rec', rec' ∈ recs -> rec' = rec \/
      exists t, is_Some (V w !! t) /\ clientIDRecordOfTag Reverse t = Some rec'.
Proof using Reverse_ascii.
  intros Hu Hc Hl Hts Hr.
  assert (Slug.IsValidDockerTag (client_tag (ClientID rec) (ClientTs rec)) = true) as Hv.
  { unfold client_tag. change (RepoClientIDRecord_ImageTagPrefix +:+ ?x)
      with (String "c" ("lient-id-" +:+ x)). apply valid_tag; [done| |].
    - destruct (itoa_digits _ Hts) as [Hd%digits_tag_chars _].
      rewrite !Str.all_app, Hc, Hd. done.
    - pose proof (len_itoa64 _ Hts Hr). rewrite !Str.len_app.
      change (Str.len "lient-id-") with 9. change (Str.len "-") with 1. lia. }
  assert (wp (PostClientIDRecord st p rec) w (fun _ w1 =>
    put_at st (client_tag (ClientID rec) (ClientTs rec)) {[ Image.WerfLabel := p ]} w w1)) as H
    by by apply wp_put.
  apply wp_alt in H as ([] & w1 & E & Hput).
  assert (wp (GetClientIDRecords Reverse FormatRFC3339 st p []) w1 (fun recs _ => rec ∈ recs /\
    forall rec', rec' ∈ recs -> rec' = rec \/
      exists t, is_Some (V w !! t) /\ clientIDRecordOfTag Reverse t = Some rec')) as H.
  { unfold GetClientIDRecords. wp_step. eapply wp_mono; [by eapply put_listed|]. simpl.
    intros tags w2 [Hin Hold]. wp_step.
    pose proof (clientIDRecordOfTag_tag _ _ Hc Hts Hr) as Et. split.
    - apply list_elem_of_omap. eexists. split; [done|]. rewrite Et. by destruct rec.
    - intros rec' (t & Ht & E')%list_elem_of_omap.
      destruct (decide (t = client_tag (ClientID rec) (ClientTs rec))) as [->|]; [|eauto].
      left. rewrite Et in E'. destruct rec. by simplify_eq/=. }
  apply wp_alt in H as (recs & w2 & ? & ? & ?). eauto 8.
Qed.
End clients.

(** ** The last cleanup *)

(** Where the registry answers, cleanup is not disabled and no other tag starts
    with "cleanup", the record posted at a time reads back as that time in
    milliseconds; a cleanup is not overdue as long as fourteen days have not passed, and
    is overdue once more than that have. *)
Theorem cleanup_record_roundtrip p w :
  up w -> cleanupDisabled st = false ->
  (0 < UnixMilli (now w))%Z -> in_int64 (UnixMilli (now w)) = true ->
  (forall t, is_Some (V w !! t) -> Str.HasPrefix t RepoCleanUpRecord_ImageTagPrefix = true ->
     t = "cleanup") ->
  exists w1 w2 rec, PostLastCleanupRecord st p w = (Ok tt, w1) /\
    GetLastCleanupRecord FormatRFC3339 st p [] w1 = (Ok (Some rec), w2) /\
    CleanupTs rec = UnixMilli (now w) /\
    forall later,
      ((later <= now w + repoCleanupOverdueThreshold - 1000000)%Z ->
         isCleanupOverdue (Some rec) later = false) /\
      ((now w + repoCleanupOverdueThreshold < later)%Z ->
         isCleanupOverdue (Some rec) later = true).
Proof.
  intros Hu Hdis H0 Hr Honly.
  assert (wp (PostLastCleanupRecord st p) w (fun _ w1 => put_at st "cleanup"
    {[ Image.WerfLabel := p; RepoCleanUpRecord_LabelTimestamp := itoa (UnixMilli (now w)) ]} w w1)) as H.
  { unfold PostLastCleanupRecord. rewrite Hdis. wp_step. unfold time_now, wp at 1.
    by apply (wp_put st _ _ "cleanup" ""). }
  apply wp_alt in H as ([] & w1 & E & Hput).
  pose proof Hput as (_ & Hu1 & _ & i & Hi & Hl & _).
  assert (wp (GetLastCleanupRecord FormatRFC3339 st p []) w1 (fun o _ =>
    o = Some (mkCleanupRecord (UnixMilli (now w))))) as H.
  { unfold GetLastCleanupRecord. wp_step.
    eapply wp_mono; [apply wp_conj; [by eapply put_listed|apply wlp_list_tags]|]. simpl.
    intros tags w2 [[Hin Hold] [(HV & _ & Hup) _]]. wp_step. apply Hup in Hu1.
    rewrite <-HV in Hi. clear -Hin Hold Honly Hi Hl Hu1 Hr RegistryLaws0.
    induction tags as [|t tags IH]; [by apply elem_of_nil in Hin|]. simpl.
    destruct (decide (t = "cleanup")) as [->|Hne].
    - simpl. wp_step. eapply wp_mono; [by eapply wp_get|]. simpl. intros _ w3 [_ ->].
      assert (Image.Labels i !! RepoCleanUpRecord_LabelTimestamp = Some (itoa (UnixMilli (now w)))) as ->
        by by rewrite Hl.
      by rewrite ParseInt_itoa.
    - assert (Str.HasPrefix t RepoCleanUpRecord_ImageTagPrefix = false) as ->.
      { apply not_true_iff_false. intros Hp. apply Hne, Honly; [|done].
        apply Hold; [done|by left]. }
      apply IH.
      + apply elem_of_cons in Hin as [Hin|]; [congruence|done].
      + intros t' ? ?. apply Hold; [done|by right]. }
  apply wp_alt in H as (o & w2 & E2 & ->). eexists w1, w2, _. split; [done|]. split; [done|].
  split; [done|]. intros later. unfold isCleanupOverdue. simpl.
  destruct (Z.eqb_spec (UnixMilli (now w)) 0); [lia|]. unfold UnixMilli.
  pose proof (Z.mul_div_le (now w) 1000000 ltac:(lia)).
  pose proof (Z.mul_succ_div_gt (now w) 1000000 ltac:(lia)).
  rewrite Z.ltb_ge, Z.ltb_lt. lia.
Qed.

(** ** Copying a stage *)

(** What [CopyFromStorage] returns is the description of the stage asked for,
    whose tag then exists in this storage; a stage that already had one is returned
    without changing the repository, and in no case does another tag change. *)
Theorem CopyFromStorage_spec src p d ts w o w' :
  CopyFromStorage st src p (Image.NewStageID d ts) w = (Ok o, w') ->
  (forall t, t <> stage_tag d ts -> V w' !! t = V w !! t) /\
  (forall desc, o = Some desc -> Image.SDStageID desc = Image.NewStageID d ts /\
     V w' !! stage_tag d ts = Some (Some (Image.SDInfo desc))) /\
  (forall desc w1, GetStageDesc st p (Image.NewStageID d ts) w = (Ok (Some desc), w1) ->
     o = Some desc /\ V w' = V w) /\
  is_Some (V w' !! stage_tag d ts).
Proof.
  intros E. unfold CopyFromStorage in E. apply bind_Ok in E as (o1 & w1 & E1 & E).
  apply wrap_Ok in E1. pose proof (wlp_GetStageDesc st p d ts w) as H1.
  unfold wlp in H1. rewrite E1 in H1. destruct H1 as [(HV1 & _) H1]. destruct o1 as [desc|].
  - unfold mret, prog_ret in E. simplify_eq. destruct (H1 desc eq_refl) as (Hid & Hi & _).
    rewrite HV1. split; [done|]. split; [|split; [|by rewrite Hi]].
    + intros ? [= <-]. done.
    + intros desc' w1' E'. by rewrite E1 in E'; simplify_eq.
  - cbn [Image.Digest Image.CreationTs Image.NewStageID] in E.
    rewrite ConstructStageImageName_tag in E. apply bind_Ok in E as ([] & w2 & E2 & E).
    apply wrap_Ok in E2. apply wrap_Ok in E. pose proof (wlp_GetStageDesc st p d ts w2) as H2.
    unfold wlp in H2. rewrite E in H2. destruct H2 as [(HV2 & _) H2]. rewrite HV2.
    unfold reg in E2. destruct (reg_CopyImage _ _ _) as [x r] eqn:Ec. simplify_eq. simpl.
    split; [|split; [|split]].
    + intros t Ht. pose proof (copy_frame (src p d ts) (stage_tag d ts) (registry w1) t Ht) as Hf.
      rewrite Ec in Hf. simpl in Hf. by rewrite Hf, HV1.
    + intros desc ->. destruct (H2 desc eq_refl) as (? & ? & _). done.
    + intros desc w1' E'. rewrite E1 in E'. done.
    + by eapply copy_ok in Ec.
Qed.

(** ** The warning about meta tags *)

(** The set of the addresses already warned about only grows. *)
Definition once_le (w w' : World R) : Prop :=
  warnMetaTagsOverflowOnce w ⊆ warnMetaTagsOverflowOnce w'.

#[local] Instance once_le_preorder : PreOrder once_le.
Proof. clear. split; [intros x|intros x y z]; unfold once_le; set_solver. Qed.

Lemma keeps_once_reg t : keeps once_le (reg (reg_GetRepoImage (ref_of (RepoAddress st) t))).
Proof. intros w. unfold reg, once_le. destruct (reg_GetRepoImage _ _); simpl; done. Qed.

(** A storage warns about an accumulation of tags at most once: after any listing
    of at least a hundred tags, later listings add no warning, whatever they list. *)
Theorem meta_tags_warned_once tags cached w w1 w2 r r2 :
  cleanupTriggerTagCount <= length tags -> cleanupDisabled st = false ->
  checkMeta FormatRFC3339 st tags w = (r, w1) ->
  Tags FormatRFC3339 st (RepoAddress st) cached w1 = (r2, w2) ->
  global_warnings w2 = global_warnings w1.
Proof.
  clear hash hash_alnum hash_nonempty hash_len.
  intros Hlen Hdis E1 E2. assert (RepoAddress st ∈ warnMetaTagsOverflowOnce w1) as Honce.
  { pose proof (keeps_runCleanupNeededChecks st FormatRFC3339 once_le keeps_once_reg) as Hk.
    unfold checkMeta in E1. rewrite (proj2 (Nat.ltb_ge _ _) Hlen), Hdis in E1. simpl in E1.
    unfold mbind, prog_bind, once_first in E1. destruct (bool_decide _); [|injection E1 as _ <-; simpl; set_solver].
    specialize (Hk tags "" (mkWorld (registry w)
      ({[RepoAddress st]} ∪ warnMetaTagsOverflowOnce w) (global_warnings w) (now w))).
    destruct (runCleanupNeededChecks _ _ _ _ _) as [[m|e|x] w'] eqn:Er;
      unfold once_le in Hk; simpl in Hk;
      assert (RepoAddress st ∈ warnMetaTagsOverflowOnce w') as Hin
        by (apply Hk, elem_of_union_l, elem_of_singleton_2; done);
      [destruct (bool_decide _)|..]; injection E1 as _ <-; done. }
  unfold Tags, mbind, prog_bind, reg in E2. destruct (reg_Tags _ _ _) as [[l|e|x] r']; [|by simplify_eq..].
  destruct (skipMetaCheck st); [by injection E2 as _ <-|].
  unfold checkMeta, try, mbind, prog_bind, once_first in E2. simpl in E2.
  destruct (_ || _); [by injection E2 as _ <-|].
  rewrite bool_decide_eq_false_2 in E2 by (intros Hn; by apply Hn).
  by injection E2 as _ <-.
Qed.

End repo.
End hash.

End MetadataProps.
