(* ===== verification/RepoExamples.v ===== *)
(** The registry-backed storage on a registry held in memory: instances of the
    theorems about it, and the inputs on which the code does not do what it means. *)
From S2P Require Import Prelude Go Slug Image Registry StagesStorage RepoStorage.
From S2P Require Import RepoStorageFacts RepoStorageProps RepoRecords RepoMetadata.

Module RepoExamples.
Import StagesStorage RepoStorage RepoFacts RepoProps RecordProps MetadataProps MemRegistry.

Definition st0 : RepoStagesStorage := NewRepoStagesStorage "repo" false false false.
Definition rfc (ms : Z) : string := itoa ms.
Definition digest1 : string := "2604b86b2c7a1c6d19c62601aadb19e7d5c6bb8f17bc2bf26a390ea7".
Definition digest2 : string := "aa04b86b2c7a1c6d19c62601aadb19e7d5c6bb8f17bc2bf26a390ea7".
Definition ts1 : Z := 1611836746968.

Definition stage_info (d : string) : Image.Info :=
  record_image (ref_of "repo" (stage_tag d ts1)) ("repo@sha256:" +:+ d) ∅.

Definition two_stages : Mem := mkMem
  {[ ref_of "repo" (stage_tag digest1 ts1) := Some (stage_info digest1);
     ref_of "repo" (stage_tag digest2 ts1) := Some (stage_info digest2) ]} false.

Definition w0 : World Mem := mkWorld two_stages ∅ [] (1700000000 * 1000000000)%Z.

Definition desc1 : Image.StageDesc :=
  Image.mkStageDesc (Image.NewStageID digest1 ts1) (stage_info digest1).

Lemma digest1_hex : hexdigest digest1.
Proof. by split. Qed.

Lemma up_w0 : online (RepoAddress st0) (registry w0).
Proof. reflexivity. Qed.

Lemma view_w0 t : view (RepoAddress st0) (registry w0) !! t = images two_stages !! ref_of "repo" t.
Proof. apply mem_view_lookup. Qed.

Lemma stage1_present :
  view (RepoAddress st0) (registry w0) !! stage_tag digest1 ts1 = Some (Some (stage_info digest1)).
Proof. rewrite view_w0. reflexivity. Qed.

Lemma GetStagesIDs_spec_witness :
  exists ids w', GetStagesIDs rfc st0 "p" [] w0 = (Ok ids, w') /\ Image.NewStageID digest1 ts1 ∈ ids.
Proof.
  destruct (GetStagesIDs_spec rfc st0 "p" w0 up_w0) as (ids & w' & E & _ & H & _).
  exists ids, w'. split; [exact E|]. apply H; [apply digest1_hex|right; by split|].
  rewrite stage1_present. by eexists.
Defined.

Lemma GetStagesIDsByDigest_spec_witness :
  exists ids w', GetStagesIDsByDigest rfc st0 "p" digest1 5 [] w0 = (Ok ids, w') /\
    forall id, id ∈ ids -> Image.Digest id = digest1.
Proof.
  destruct (GetStagesIDsByDigest_spec rfc st0 "p" digest1 5 w0 up_w0) as (ids & w' & E & _ & _ & H).
  exists ids, w'. split; [exact E|]. intros id Hid. apply (H id Hid).
Defined.

Lemma RejectStage_hides_witness :
  exists w1, RejectStage st0 "p" digest1 ts1 w0 = (Ok tt, w1) /\
    forall o w2, GetStageDesc st0 "p" (Image.NewStageID digest1 ts1) w1 = (Ok o, w2) -> o = None.
Proof.
  destruct (RejectStage_hides rfc st0 "p" digest1 ts1 w0 digest1_hex ltac:(done) eq_refl up_w0)
    as (w1 & E & H & _).
  exists w1. split; [exact E|exact H].
Defined.

Lemma DeleteStage_removes_witness :
  exists w', DeleteStage st0 desc1 (mkDeleteImageOptions false) w0 = (Ok tt, w') /\
    exists w'', GetStageDesc st0 "p" (Image.NewStageID digest1 ts1) w' = (Ok None, w'').
Proof.
  destruct (DeleteStage_removes st0 digest1 ts1 desc1 (mkDeleteImageOptions false) w0
    up_w0 eq_refl stage1_present) as (w' & E & _ & _ & H & _).
  exists w'. split; [exact E|exact (H "p")].
Defined.

(** The hash of the examples: eight hexadecimal digits. *)
Definition hash0 (s : string) : string := "1c0ffee2".
Lemma hash0_alnum s : Str.all Slug.is_alnum (hash0 s) = true.
Proof. done. Qed.
Lemma hash0_nonempty s : hash0 s <> "".
Proof. done. Qed.
Lemma hash0_len s : Str.len (hash0 s) <= 8.
Proof. unfold hash0, Str.len. simpl. lia. Qed.

Lemma custom_tag_roundtrip_witness :
  exists id w1, RegisterStageCustomTag hash0 st0 "p" desc1 "Release/1.0" w0 = (Ok tt, w1) /\
    exists w2, UnregisterStageCustomTag hash0 st0 id w1 = (Ok tt, w2).
Proof.
  destruct (custom_tag_roundtrip rfc st0 hash0 hash0_alnum hash0_nonempty hash0_len "p" desc1
    "Release/1.0" w0 up_w0) as (id & w1 & E & _ & _ & w2 & H & _).
  exists id, w1. split; [exact E|]. exists w2. exact H.
Defined.

Lemma managed_image_roundtrip_witness :
  exists w1 w2, AddManagedImage hash0 st0 "p" "app/back end" w0 = (Ok tt, w1) /\
    IsManagedImageExist hash0 st0 "p" "app/back end" [] w1 = (Ok true, w2).
Proof.
  destruct (managed_image_roundtrip rfc st0 hash0 hash0_alnum hash0_nonempty hash0_len "p"
    "app/back end" w0 up_w0) as (id & Eid & H).
  assert (id = "app__slash__back__space__end") as ->.
  { change (getManagedImageID hash0 "app/back end") with (Ok "app__slash__back__space__end") in Eid.
    injection Eid as <-. reflexivity. }
  destruct H as (w1 & E & (w2 & H) & _); [vm_compute; lia|].
  exists w1, w2. split; [exact E|exact H].
Defined.

Lemma import_metadata_roundtrip_witness :
  exists w1 w2, PutImportMetadata st0 "p" (mkImportMetadata "src" "stage" "sum") w0 = (Ok tt, w1) /\
    GetImportMetadata st0 "p" "src" w1 = (Ok (Some (mkImportMetadata "src" "stage" "sum")), w2).
Proof.
  destruct (import_metadata_roundtrip rfc st0 "p" (mkImportMetadata "src" "stage" "sum") w0
    up_w0 eq_refl ltac:(vm_compute; lia)) as (w1 & E & (w2 & H) & _).
  exists w1, w2. split; [exact E|exact H].
Defined.

Definition commit1 : string := "0123456789abcdef0123456789abcdef01234567".

Lemma image_metadata_roundtrip_witness :
  exists id w1, PutImageMetadata hash0 st0 "p" "app" commit1 (stage_tag digest1 ts1) w0 = (Ok tt, w1) /\
    exists w2, RmImageMetadata hash0 st0 "p" "app" commit1 (stage_tag digest1 ts1) w1 = (Ok tt, w2) /\
      view (RepoAddress st0) (registry w2) !! meta_tag id commit1 (stage_tag digest1 ts1) = None.
Proof.
  destruct (image_metadata_roundtrip hash0 hash0_alnum hash0_nonempty hash0_len rfc st0 "p" "app"
    commit1 (stage_tag digest1 ts1) w0 up_w0 ltac:(split; reflexivity) ltac:(split; reflexivity)
    ltac:(vm_compute; lia) ltac:(vm_compute; lia)) as (id & w1 & _ & E & _ & w2 & E2 & H & _).
  exists id, w1. split; [exact E|]. exists w2. split; [exact E2|exact H].
Defined.

Lemma client_id_roundtrip_witness :
  exists w1 recs w2, PostClientIDRecord st0 "p" (mkClientIDRecord "a-b-c" ts1) w0 = (Ok tt, w1) /\
    GetClientIDRecords Str.rev rfc st0 "p" [] w1 = (Ok recs, w2) /\
    mkClientIDRecord "a-b-c" ts1 ∈ recs.
Proof.
  destruct (client_id_roundtrip rfc st0 Str.rev (fun s _ => eq_refl) "p"
    (mkClientIDRecord "a-b-c" ts1) w0 up_w0 eq_refl ltac:(vm_compute; lia) ltac:(done) eq_refl)
    as (w1 & recs & w2 & E & E2 & H & _).
  exists w1, recs, w2. split; [exact E|]. split; [exact E2|exact H].
Defined.

Lemma no_cleanup_tag t :
  is_Some (view (RepoAddress st0) (registry w0) !! t) ->
  Str.HasPrefix t RepoCleanUpRecord_ImageTagPrefix = true -> t = "cleanup".
Proof.
  rewrite view_w0. intros [o H] Hp. exfalso. cbn [images two_stages] in H.
  apply lookup_insert_Some in H as [[E _]|[_ H]].
  - apply (ref_of_inj "repo") in E as <-. done.
  - apply lookup_singleton_Some in H as [E _]. apply (ref_of_inj "repo") in E as <-. done.
Qed.

Lemma cleanup_record_roundtrip_witness :
  exists w1 w2 rec, PostLastCleanupRecord st0 "p" w0 = (Ok tt, w1) /\
    GetLastCleanupRecord rfc st0 "p" [] w1 = (Ok (Some rec), w2) /\
    isCleanupOverdue (Some rec) (now w0) = false.
Proof.
  destruct (cleanup_record_roundtrip rfc st0 "p" w0 up_w0 eq_refl ltac:(done) eq_refl
    no_cleanup_tag) as (w1 & w2 & rec & E & E2 & _ & H).
  exists w1, w2, rec. split; [exact E|]. split; [exact E2|]. apply H. vm_compute. congruence.
Defined.

(** The stage of the first storage, copied under the name it has there. *)
Definition copied : res (option Image.StageDesc) * World Mem :=
  CopyFromStorage (mkRepoStagesStorage "final" false false true)
    (ConstructStageImageName st0) "p" (Image.NewStageID digest1 ts1) w0.

Lemma CopyFromStorage_spec_witness :
  exists desc, copied.1 = Ok (Some desc) /\ Image.SDStageID desc = Image.NewStageID digest1 ts1.
Proof.
  destruct copied as [r w'] eqn:E. destruct r as [[desc|]|e|x]; [|vm_compute in E; discriminate..].
  destruct (CopyFromStorage_spec (mkRepoStagesStorage "final" false false true)
    (ConstructStageImageName st0) "p" digest1 ts1 w0 (Some desc) w' E) as (_ & H & _).
  exists desc. split; [reflexivity|]. apply (H desc eq_refl).
Defined.

Definition many_tags : list string := replicate 120 "meta-a_b_c".

Lemma meta_tags_warned_once_witness :
  global_warnings (Tags rfc st0 "repo" false (checkMeta rfc st0 many_tags w0).2).2 =
  global_warnings (checkMeta rfc st0 many_tags w0).2.
Proof.
  destruct (checkMeta rfc st0 many_tags w0) as [r w1] eqn:E1.
  destruct (Tags rfc st0 "repo" false w1) as [r2 w2] eqn:E2. simpl. rewrite E2.
  apply (meta_tags_warned_once rfc st0 many_tags false w0 w1 w2 r r2);
    [vm_compute; lia|reflexivity|exact E1|exact E2].
Defined.

(** The first listing does warn. *)
Example meta_tags_warning : length (global_warnings (checkMeta rfc st0 many_tags w0).2) = 1.
Proof. vm_compute. reflexivity. Qed.

(** * Where the code does not do what it means *)

(** The rejected record of the first stage. *)
Definition w_rejected : World Mem := (RejectStage st0 "p" digest1 ts1 w0).2.

(** C40: [GetStagesIDsByDigest] loses a stage that was never rejected: the record that
    rejects a stage of another digest with the same timestamp discards it, because the
    rejected ids are built from the digest asked for and not from the record's. *)
Theorem rejected_by_other_digest :
  (GetStagesIDsByDigest rfc st0 "p" digest2 0 [] w0).1 = Ok [Image.NewStageID digest2 ts1] /\
  (GetStagesIDsByDigest rfc st0 "p" digest2 0 [] w_rejected).1 = Ok [] /\
  (exists desc, (GetStageDesc st0 "p" (Image.NewStageID digest2 ts1) w_rejected).1 = Ok (Some desc)).
Proof. split; [vm_compute; reflexivity|]. split; [vm_compute; reflexivity|]. eexists. vm_compute. reflexivity. Qed.

(** The name of a managed image does not survive its tag: an image named
    "a/space/b" is listed under another name, because the name between two slashes reads
    as the mark of a space. *)
Theorem unslug_not_inverse :
  slugImageName "a/space/b" = "a__slash__space__slash__b" /\
  unslugImageName (slugImageName "a/space/b") = "a__slash slash__b" /\
  unslugImageName (slugImageName "a/b c+d") = "a/b c+d".
Proof. vm_compute. auto. Qed.

Definition long_image_name : string := pad 128.

(** A managed image whose name is a valid tag of more than 114 bytes is stored
    under a tag longer than 128 bytes, which is not a valid tag: the length is checked
    without the prefix. *)
Theorem managed_image_tag_too_long (hash : string -> string) :
  getManagedImageID hash long_image_name = Ok long_image_name /\
  Slug.IsValidDockerTag (managed_tag long_image_name) = false.
Proof. split; vm_compute; reflexivity. Qed.

End RepoExamples.
