(* ===== verification/GoMatch.v ===== *)
(** [Match] of path/filepath on a Unix system: the pattern is read in chunks between stars; a chunk
    is read to its end even where it cannot match any more, as a malformed pattern is an error
    whatever the name is. *)
From S2P Require Import Prelude Go Slug.

Module Match.

Definition ErrBadPattern : error := Errorf "syntax error in pattern" [].

(** [utf8.DecodeRuneInString]: the rune and the rest; an invalid byte is U+FFFD of one byte. *)
Definition decode (s : string) : Z * string :=
  let n (c : Ascii.ascii) := Z.of_nat (Ascii.nat_of_ascii c) in
  let invalid := match s with String _ s' => (65533%Z, s') | "" => (65533%Z, "") end in
  match Utf8.runes s with
  | [] => invalid
  | r :: _ =>
      match r, s with
      | String c0 "", String _ s' => (n c0, s')
      | String c0 (String c1 ""), String _ (String _ s') => ((n c0 - 192) * 64 + (n c1 - 128), s')%Z
      | String c0 (String c1 (String c2 "")), String d0 (String d1 (String d2 s')) =>
          if bool_decide (r = String d0 (String d1 (String d2 "")))
          then ((n c0 - 224) * 4096 + (n c1 - 128) * 64 + (n c2 - 128), s')%Z else invalid
      | String c0 (String c1 (String c2 (String c3 ""))), String _ (String _ (String _ (String _ s'))) =>
          ((n c0 - 240) * 262144 + (n c1 - 128) * 4096 + (n c2 - 128) * 64 + (n c3 - 128), s')%Z
      | _, _ => invalid
      end
  end.

(** Whether the first byte is not the start of a rune. *)
Definition invalid_start (s : string) (r : Z) (rest : string) : bool :=
  (r =? 65533)%Z && (Str.len s =? S (Str.len rest)).

(** A character of a class, maybe after a backslash; it cannot be the end of the chunk. *)
Definition getEsc (chunk : string) : res (Z * string) :=
  match chunk with
  | "" => Err ErrBadPattern
  | String c chunk' =>
      if bool_decide (c = "-"%char) || bool_decide (c = "]"%char) then Err ErrBadPattern
      else
        let chunk := if bool_decide (c = "\"%char) then chunk' else chunk in
        if bool_decide (chunk = "") then Err ErrBadPattern
        else
          let '(r, rest) := decode chunk in
          if invalid_start chunk r rest || bool_decide (rest = "") then Err ErrBadPattern else Ok (r, rest)
  end.

(** The ranges of a class up to its bracket: whether one of them has the rune. *)
Fixpoint ranges (fuel : nat) (r : Z) (nrange : nat) (found : bool) (chunk : string)
  : res (bool * string) :=
  match fuel with
  | 0 => Panic "unreachable"
  | S fuel' =>
      match chunk with
      | String "]" chunk' => if 0 <? nrange then Ok (found, chunk') else Err ErrBadPattern
      | _ =>
          match getEsc chunk with
          | Ok (lo, chunk1) =>
              match chunk1 with
              | String "-" chunk2 =>
                  match getEsc chunk2 with
                  | Ok (hi, chunk3) => ranges fuel' r (S nrange) (found || ((lo <=? r) && (r <=? hi))%Z) chunk3
                  | Err e => Err e
                  | Panic p => Panic p
                  end
              | _ => ranges fuel' r (S nrange) (found || (lo =? r)%Z) chunk1
              end
          | Err e => Err e
          | Panic p => Panic p
          end
      end
  end.

(** [s] is [None] after the chunk failed to match. *)
Definition literal (c : Ascii.ascii) (s : option string) : option string :=
  match s with
  | Some (String d s') => if bool_decide (c = d) then Some s' else None
  | _ => None
  end.

Definition anyRune (s : option string) : option string :=
  match s with
  | Some (String d s') => if bool_decide (d = "/"%char) then None else Some (decode (String d s')).2
  | _ => None
  end.

Fixpoint matchChunk (fuel : nat) (chunk : string) (s : option string) : res (option string) :=
  match fuel with
  | 0 => Panic "unreachable"
  | S fuel' =>
      match chunk with
      | "" => Ok s
      | String "[" chunk' =>
          let s := match s with Some "" => None | _ => s end in
          let r := match s with Some t => (decode t).1 | None => 0%Z end in
          let s1 := (fun t => (decode t).2) <$> s in
          let '(negated, chunk1) := match chunk' with String "^" c => (true, c) | _ => (false, chunk') end in
          match ranges (S (Str.len chunk1)) r 0 false chunk1 with
          | Ok (found, chunk2) => matchChunk fuel' chunk2 (if eqb found negated then None else s1)
          | Err e => Err e
          | Panic p => Panic p
          end
      | String "?" chunk' => matchChunk fuel' chunk' (anyRune s)
      | String "\" "" => Err ErrBadPattern
      | String "\" (String c chunk') => matchChunk fuel' chunk' (literal c s)
      | String c chunk' => matchChunk fuel' chunk' (literal c s)
      end
  end.

Definition match_chunk (chunk s : string) : res (option string) :=
  matchChunk (S (Str.len chunk)) chunk (Some s).

(** The bytes of the pattern up to the next star outside of a class, and the rest. *)
Fixpoint scan (inrange : bool) (pattern : string) : string * string :=
  match pattern with
  | "" => ("", "")
  | String "\" (String c p) => let '(a, b) := scan inrange p in (String "\" (String c a), b)
  | String "*" p =>
      if inrange then let '(a, b) := scan inrange p in (String "*" a, b) else ("", pattern)
  | String c p =>
      let inrange := if bool_decide (c = "["%char) then true else if bool_decide (c = "]"%char) then false else inrange in
      let '(a, b) := scan inrange p in (String c a, b)
  end.

Fixpoint stars (pattern : string) : bool * string :=
  match pattern with
  | String "*" p => (true, (stars p).2)
  | _ => (false, pattern)
  end.

Definition scanChunk (pattern : string) : bool * string * string :=
  let '(star, p) := stars pattern in let '(chunk, rest) := scan false p in (star, chunk, rest).

(** The rest of the name after the first place at which the chunk matches, a star before it. *)
Fixpoint skip (chunk : string) (last : bool) (name : string) : res (option string) :=
  match name with
  | "" => Ok None
  | String c name' =>
      if bool_decide (c = "/"%char) then Ok None
      else match match_chunk chunk name' with
           | Ok (Some t) =>
               if last && negb (bool_decide (t = "")) then skip chunk last name' else Ok (Some t)
           | Ok None => skip chunk last name'
           | Err e => Err e
           | Panic p => Panic p
           end
  end.

(** Whether the rest of the pattern is well-formed. *)
Fixpoint wellFormed (fuel : nat) (pattern : string) : res bool :=
  match fuel with
  | 0 => Panic "unreachable"
  | S fuel' =>
      if bool_decide (pattern = "") then Ok false
      else
        let '(_, chunk, rest) := scanChunk pattern in
        match match_chunk chunk "" with
        | Ok _ => wellFormed fuel' rest
        | Err e => Err e
        | Panic p => Panic p
        end
  end.

Fixpoint match_ (fuel : nat) (pattern name : string) : res bool :=
  match fuel with
  | 0 => Panic "unreachable"
  | S fuel' =>
      if bool_decide (pattern = "") then Ok (bool_decide (name = ""))
      else
        let '(star, chunk, rest) := scanChunk pattern in
        let last := bool_decide (rest = "") in
        if star && bool_decide (chunk = "") then Ok (negb (Str.Contains name "/"))
        else
          match match_chunk chunk name with
          | Err e => Err e
          | Panic p => Panic p
          | Ok r =>
              let other := if star then skip chunk last name else Ok None in
              match r with
              | Some t =>
                  if bool_decide (t = "") || negb last then match_ fuel' rest t
                  else match other with
                       | Ok (Some t) => match_ fuel' rest t
                       | Ok None => wellFormed fuel' rest
                       | Err e => Err e
                       | Panic p => Panic p
                       end
              | None =>
                  match other with
                  | Ok (Some t) => match_ fuel' rest t
                  | Ok None => wellFormed fuel' rest
                  | Err e => Err e
                  | Panic p => Panic p
                  end
              end
          end
  end.

(** Every pass reads at least one byte of the pattern. *)
Definition Match (pattern name : string) : res bool := match_ (S (Str.len pattern)) pattern name.

Example matches :
  Match "app-*" "app-1" = Ok true /\ Match "app-*" "app/1" = Ok false /\ Match "*" "" = Ok true /\
  Match "a?c" "abc" = Ok true /\ Match "[a-c]x*[^z]" "bxyyy" = Ok true /\ Match "[a-c]x*[^z]" "bxyz" = Ok false /\
  Match "a*b*c" "a1b2b3c" = Ok true /\ Match "\*" "*" = Ok true /\ Match "\*" "x" = Ok false /\
  Match "x[" "y" = Err ErrBadPattern /\ Match "[]a]" "]" = Err ErrBadPattern /\ Match "[-]" "-" = Err ErrBadPattern /\
  Match "a*x[" "bc" = Err ErrBadPattern /\ Match "*a*b" "xaxb" = Ok true.
Proof. vm_compute. done. Qed.

(** ** Patterns without special characters *)

Definition plain (c : Ascii.ascii) : bool :=
  negb (existsb (fun d => bool_decide (c = d)) ["*"; "?"; "["; "\"]%char).

Lemma plain_cases (c : Ascii.ascii) :
  plain c = true -> c <> "*"%char /\ c <> "?"%char /\ c <> "["%char /\ c <> "\"%char.
Proof. unfold plain. intros H. repeat split; intros ->; by vm_compute in H. Qed.

Lemma matchChunk_plain_step fuel c chunk s :
  plain c = true -> matchChunk (S fuel) (String c chunk) s = matchChunk fuel chunk (literal c s).
Proof.
  intros (H1 & H2 & H3 & H4)%plain_cases.
  destruct c as [[] [] [] [] [] [] [] []]; try reflexivity; congruence.
Qed.

Lemma scan_plain_step c p :
  plain c = true -> (scan false (String c p)) = (String c (scan false p).1, (scan false p).2).
Proof.
  intros (H1 & H2 & H3 & H4)%plain_cases.
  destruct c as [[] [] [] [] [] [] [] []]; try congruence; simpl; by destruct (scan false p).
Qed.

Lemma stars_plain c p : plain c = true -> stars (String c p) = (false, String c p).
Proof.
  intros (H1 & H2 & H3 & H4)%plain_cases. destruct c as [[] [] [] [] [] [] [] []]; try reflexivity; congruence.
Qed.

Lemma scan_plain p : Str.all plain p = true -> scan false p = (p, "").
Proof.
  induction p as [|c p IH]; [done|]. simpl Str.all. intros [Hc Hp]%andb_true_iff.
  rewrite scan_plain_step by done. by rewrite IH.
Qed.

Lemma matchChunk_None fuel chunk :
  Str.all plain chunk = true -> Str.len chunk < fuel -> matchChunk fuel chunk None = Ok None.
Proof.
  revert fuel. induction chunk as [|c chunk IH]; intros [|fuel] Hp Hf; try lia; [done|].
  simpl in Hp, Hf. apply andb_true_iff in Hp as [Hc Hp]. rewrite matchChunk_plain_step by done.
  apply IH; [done|lia].
Qed.

Lemma matchChunk_plain fuel chunk s :
  Str.all plain chunk = true -> Str.len chunk < fuel ->
  (exists rest, s = chunk +:+ rest /\ matchChunk fuel chunk (Some s) = Ok (Some rest)) \/
  (matchChunk fuel chunk (Some s) = Ok None /\ forall rest, s <> chunk +:+ rest).
Proof.
  revert fuel s. induction chunk as [|c chunk IH]; intros [|fuel] s Hp Hf; try (simpl in Hf; lia); [left; by exists s|].
  simpl in Hp, Hf. apply andb_true_iff in Hp as [Hc Hp]. rewrite matchChunk_plain_step by done.
  destruct s as [|d s]; simpl; [right; split; [apply matchChunk_None; [done|lia]|done]|].
  destruct (bool_decide_reflect (c = d)) as [->|Hne].
  - destruct (IH fuel s Hp ltac:(lia)) as [(rest & -> & Hr)|[Hr Hn]]; [left; by exists rest|].
    right. split; [done|]. intros rest [= E]. by apply (Hn rest).
  - right. split; [apply matchChunk_None; [done|lia]|]. intros rest [= E _]. by subst.
Qed.

(** Such a pattern matches itself only. *)
Lemma Match_plain p n : Str.all plain p = true -> Match p n = Ok (bool_decide (p = n)).
Proof.
  intros Hp. unfold Match. destruct p as [|c p]; [by destruct n|].
  cbn [match_ Str.len]. rewrite bool_decide_eq_false_2 by done. unfold scanChunk.
  rewrite stars_plain by (by apply andb_true_iff in Hp as []). rewrite scan_plain by done. simpl andb.
  rewrite bool_decide_eq_true_2 by done. unfold match_chunk.
  destruct (matchChunk_plain (S (Str.len (String c p))) (String c p) n Hp ltac:(lia)) as [(rest & -> & ->)|[-> Hn]].
  - simpl negb. rewrite orb_false_r. destruct rest as [|d rest]; simpl.
    + rewrite Str.app_nil_r. by rewrite bool_decide_eq_true_2.
    + rewrite bool_decide_eq_false_2; [done|]. intros E. apply (f_equal Str.len) in E.
      change (String c (p +:+ String d rest)) with (String c p +:+ String d rest) in E.
      rewrite Str.len_app in E. simpl in E. lia.
  - simpl. rewrite bool_decide_eq_false_2; [done|]. intros <-. apply (Hn ""). by rewrite Str.app_nil_r.
Qed.

End Match.
