(* ===== verification/Parallel.v ===== *)
(** pkg/util/parallel: tasks distributed over workers. The workers run
    concurrently; a schedule, which the theorems quantify over, says which worker takes its
    next task and whether it sees that its context is done, when the caller's context ends,
    and whether the printer of the logs or the creation of a worker fails. A task runs as a
    whole. What the workers log and their temporary files are not modelled. *)
From S2P Require Import Prelude Go.

Module Parallel.

(** * The distribution of the tasks *)

Definition calculateTaskId (tasksNumber workersNumber workerInd workerTaskId : nat) : nat :=
  let taskId := workerInd * (tasksNumber / workersNumber) + workerTaskId in
  let rest := tasksNumber mod workersNumber in
  if rest =? 0 then taskId
  else if workerInd <? rest then taskId + workerInd else taskId + rest.

Definition calculateTasksDistribution (numberOfTasks : nat) (maxNumberOfWorkers : Z)
  : nat * list nat :=
  let numberOfWorkers :=
    if (maxNumberOfWorkers <=? 0)%Z || (Z.of_nat numberOfTasks <? maxNumberOfWorkers)%Z
    then numberOfTasks else Z.to_nat maxNumberOfWorkers in
  (numberOfWorkers,
   (fun i => numberOfTasks / numberOfWorkers +
             (if i <? numberOfTasks mod numberOfWorkers then 1 else 0))
     <$> seq 0 numberOfWorkers).

(** The tasks of every worker, in the order in which it runs them. *)
Definition workerTasks (numberOfTasks : nat) (maxNumberOfWorkers : Z) : list (list nat) :=
  let '(numberOfWorkers, numberOfTasksPerWorker) :=
    calculateTasksDistribution numberOfTasks maxNumberOfWorkers in
  imap (fun worker n => calculateTaskId numberOfTasks numberOfWorkers worker <$> seq 0 n)
    numberOfTasksPerWorker.

(** * Running them *)

Definition context_Canceled : error := Errorf "context canceled" [].

(** The error of the context that the workers share: that of the caller's context, or the
    cancellation that the first error of the group brings. *)
Definition context_Err (ctx err : option error) : option error :=
  match ctx with
  | Some e => Some e
  | None => match err with Some _ => Some context_Canceled | None => None end
  end.

(** The group keeps its first error. *)
Definition first_error (err : option error) (e : error) : option error :=
  match err with Some e0 => Some e0 | None => Some e end.

(** [errors.Join] of the error of the group and of that of the second print. *)
Definition join_print (e : error) (print : option string) : error :=
  match print with
  | None => e
  | Some text => Wrapf ("%w" +:+ String "010" "%s") [FS text] e
  end.

Section run.
Context {W : Type} (taskFunc : nat -> prog W unit).

(** One worker's turn: it runs its next task, unless it sees that the context is done and
    returns the error of the context. [ctx] is the error of the caller's context, [err] that
    of the group. *)
Definition turn (queue : list nat) (sees : bool) (ctx err : option error) (w : W)
  : res (list nat * option error) * W :=
  match queue with
  | [] => (Ok ([], err), w)
  | t :: ts =>
      match (if sees then context_Err ctx err else None) with
      | Some e => (Ok ([], first_error err e), w)
      | None =>
          match taskFunc t w with
          | (Ok tt, w') => (Ok (ts, err), w')
          | (Err e, w') => (Ok ([], first_error err e), w')
          | (Panic p, w') => (Panic p, w')
          end
      end
  end.

(** The tasks of one worker to the end. *)
Fixpoint drain_one (queue : list nat) (ctx err : option error) (w : W) : res (option error) * W :=
  match queue with
  | [] => (Ok err, w)
  | t :: ts =>
      match context_Err ctx err with
      | Some e => (Ok (first_error err e), w)
      | None =>
          match taskFunc t w with
          | (Ok tt, w') => drain_one ts ctx err w'
          | (Err e, w') => (Ok (first_error err e), w')
          | (Panic p, w') => (Panic p, w')
          end
      end
  end.

Fixpoint drain (queues : list (list nat)) (ctx err : option error) (w : W)
  : res (option error) * W :=
  match queues with
  | [] => (Ok err, w)
  | q :: qs => match drain_one q ctx err w with
               | (Ok err', w') => drain qs ctx err' w'
               | r => r
               end
  end.

(** What happens before the events end: the tasks left to the workers, the error of the
    caller's context and that of the group. *)
Fixpoint run_events (evs : list parallel_event) (queues : list (list nat))
  (ctx err : option error) (w : W) : res (list (list nat) * (option error * option error)) * W :=
  match evs with
  | [] => (Ok (queues, (ctx, err)), w)
  | ContextEnds e :: evs' => run_events evs' queues (first_error ctx e) err w
  | PrinterFails e :: evs' => run_events evs' queues ctx (first_error err e) w
  | Turn worker sees :: evs' =>
      match queues !! worker with
      | None => run_events evs' queues ctx err w
      | Some q => match turn q sees ctx err w with
                  | (Ok (q', err'), w') => run_events evs' (<[worker := q']> queues) ctx err' w'
                  | (Err e, w') => (Err e, w')
                  | (Panic p, w') => (Panic p, w')
                  end
      end
  end.

(** Where a worker cannot be created, the error is returned at once: only the workers before
    it were started, and nobody waits for them. Their tasks that run before the return are
    those of the events; what they do after it is not modelled. Otherwise, after the events,
    the workers end one after the other, and the errors are collected. *)
Definition DoTasks (sched : parallel_schedule) (numberOfTasks : nat) (maxNumberOfWorkers : Z)
  : prog W unit := fun w =>
  let queues := workerTasks numberOfTasks maxNumberOfWorkers in
  let started := match not_created sched with
                 | Some (i, e) => if i <? length queues then Some (i, e) else None
                 | None => None
                 end in
  match started with
  | Some (i, e) =>
      match run_events (events sched) (take i queues) None None w with
      | (Ok _, w') => (Err e, w')
      | (Err e', w') => (Err e', w')
      | (Panic p, w') => (Panic p, w')
      end
  | None =>
      match run_events (events sched) queues None None w with
      | (Ok (queues', (ctx, err)), w1) =>
          match drain queues' ctx err w1 with
          | (Ok None, w') => (Ok tt, w')
          | (Ok (Some e), w') => (Err (join_print e (print_again sched)), w')
          | (Err e, w') => (Err e, w')
          | (Panic p, w') => (Panic p, w')
          end
      | (Err e, w') => (Err e, w')
      | (Panic p, w') => (Panic p, w')
      end
  end.

End run.

(** * Every task runs once *)

(** The first task of a worker: those of the workers before it come first. *)
Definition first_task (n m w : nat) : nat := w * (n / m) + Nat.min w (n mod m).

Lemma worker_tasks_seq n m w k :
  calculateTaskId n m w <$> seq 0 k = seq (first_task n m w) k.
Proof.
  assert (forall j, calculateTaskId n m w j = first_task n m w + j) as H.
  { intros j. unfold calculateTaskId, first_task.
    destruct (Nat.eqb_spec (n mod m) 0) as [->|]; [lia|].
    destruct (Nat.ltb_spec w (n mod m)); lia. }
  apply list_eq. intros i. rewrite list_lookup_fmap. destruct (decide (i < k)).
  - rewrite !lookup_seq_lt by done. simpl. by rewrite H.
  - by rewrite !lookup_seq_ge by lia.
Qed.

Lemma first_task_next n m w :
  first_task n m (S w) = first_task n m w + (n / m + (if w <? n mod m then 1 else 0)).
Proof. unfold first_task. destruct (Nat.ltb_spec w (n mod m)); lia. Qed.

Lemma concat_workers n m k w0 :
  concat (imap (fun i c => seq (first_task n m (w0 + i)) c)
    ((fun i => n / m + (if i <? n mod m then 1 else 0)) <$> seq w0 k)) =
  seq (first_task n m w0) (first_task n m (w0 + k) - first_task n m w0).
Proof.
  revert w0. induction k as [|k IH]; intros w0; simpl.
  - by rewrite Nat.add_0_r, Nat.sub_diag.
  - rewrite Nat.add_0_r. rewrite (imap_ext _ (fun i c => seq (first_task n m (S w0 + i)) c))
      by (intros; simpl; by rewrite Nat.add_succ_r).
    rewrite IH. replace (w0 + S k) with (S w0 + k) by lia.
    assert (first_task n m (S w0) <= first_task n m (S w0 + k)) as Hle
      by (unfold first_task; apply Nat.add_le_mono; [apply Nat.mul_le_mono_r|]; lia).
    pose proof (first_task_next n m w0) as Hn.
    replace (first_task n m (S w0 + k) - first_task n m w0)
      with ((n / m + (if w0 <? n mod m then 1 else 0)) +
            (first_task n m (S w0 + k) - first_task n m (S w0))) by lia.
    symmetry. etrans; [apply seq_app|]. by rewrite <-Hn.
Qed.

Lemma workerTasks_concat n max : concat (workerTasks n max) = seq 0 n.
Proof.
  unfold workerTasks, calculateTasksDistribution. set (m := if _ || _ then _ else _).
  rewrite (imap_ext _ (fun i c => seq (first_task n m (0 + i)) c))
    by (intros; apply worker_tasks_seq).
  rewrite (concat_workers n m m 0). unfold first_task. simpl. f_equal.
  destruct (decide (m = 0)) as [E|Hm].
  - assert (n = 0) as ->; [|by rewrite E].
    unfold m in E. destruct (Z.leb_spec max 0); simpl in E; [done|].
    destruct (Z.ltb_spec (Z.of_nat n) max); simpl in E; lia.
  - rewrite (Nat.min_r m (n mod m)) by (pose proof (Nat.mod_upper_bound n m Hm); lia).
    rewrite Nat.sub_0_r, Nat.mul_comm. symmetry. rewrite Nat.mul_comm.
    rewrite (Nat.div_mod_eq n m) at 1. lia.
Qed.

Section facts.
Context {W : Type} (taskFunc : nat -> prog W unit).

(** The world after running the tasks of a list, whatever they return. *)
Definition effects (l : list nat) (w : W) : W := foldl (fun w t => (taskFunc t w).2) w l.

Lemma effects_app l1 l2 w : effects (l1 ++ l2) w = effects l2 (effects l1 w).
Proof. apply foldl_app. Qed.

Lemma for_each_app {A} (l1 l2 : list A) (f : A -> prog W unit) w w1 :
  for_each l1 f w = (Ok tt, w1) -> for_each (l1 ++ l2) f w = for_each l2 f w1.
Proof.
  revert w. induction l1 as [|x l1 IH]; intros w E; simpl in *.
  - unfold mret, prog_ret in E. by simplify_eq.
  - unfold mbind, prog_bind in *. destruct (f x w) as [[[]| |] w2]; try done. auto.
Qed.

Lemma effects_ok l w w' : for_each l taskFunc w = (Ok tt, w') -> effects l w = w'.
Proof.
  revert w. induction l as [|t l IH]; intros w E; simpl in *; [by injection E|].
  unfold mbind, prog_bind in E. destruct (taskFunc t w) as [[[]| |] w1]; [|done..]. by apply IH.
Qed.

(** Of the tasks run one after the other, this is the error of the first that fails. *)
Definition first_failure (l : list nat) (w : W) (e : error) : Prop :=
  exists l1 t l2 w1 w2, l = l1 ++ t :: l2 /\ for_each l1 taskFunc w = (Ok tt, w1) /\
    taskFunc t w1 = (Err e, w2).

(** The tasks of [l] ran, in this order: where the group has no error, each of them returned;
    where it has one, it had it before, or it is that of the first task that failed, or of the
    context, or of the printer. *)
Definition outcome (blamed : error -> Prop) (err err' : option error) (l : list nat) (w w' : W)
  : Prop :=
  w' = effects l w /\
  match err' with
  | None => err = None /\ for_each l taskFunc w = (Ok tt, w')
  | Some e => err = Some e \/ (err = None /\ (first_failure l w e \/ blamed e))
  end.

Lemma outcome_nil b err w : outcome b err err [] w w.
Proof. split; [done|]. destruct err; [by left|done]. Qed.

Lemma outcome_blamed (b b' : error -> Prop) err err' l w w' :
  (forall e, b e -> b' e) -> outcome b err err' l w w' -> outcome b' err err' l w w'.
Proof. intros Hb [He Ho]. split; [done|]. destruct err' as [e|]; [|done]. naive_solver. Qed.

Lemma outcome_app b err err1 err2 l1 l2 w w1 w2 :
  outcome b err err1 l1 w w1 -> outcome b err1 err2 l2 w1 w2 ->
  outcome b err err2 (l1 ++ l2) w w2.
Proof.
  intros [E1 H1] [E2 H2]. split; [by rewrite effects_app, <-E1|].
  destruct err2 as [e|].
  - destruct H2 as [->|[-> [Hf|Hb]]].
    + destruct H1 as [H1|[H1 [(l & t & l' & v & v' & -> & Hl & Ht)|Hb]]]; [by left|right..].
      * split; [done|]. left. exists l, t, (l' ++ l2), v, v'. split; [by rewrite <-app_assoc|done].
      * split; [done|by right].
    + destruct H1 as [-> Hl1]. right. split; [done|]. left.
      destruct Hf as (l & t & l' & v & v' & -> & Hl & Ht).
      exists (l1 ++ l), t, l', v, v'. split; [by rewrite <-app_assoc|].
      split; [by rewrite (for_each_app _ _ _ _ _ Hl1)|done].
    + destruct H1 as [-> _]. right. split; [done|by right].
  - destruct H2 as [-> H2], H1 as [-> H1]. split; [done|]. by rewrite (for_each_app _ _ _ _ _ H1).
Qed.

Lemma outcome_ok b err t w w1 : taskFunc t w = (Ok tt, w1) -> outcome b err err [t] w w1.
Proof.
  intros Et. split; [unfold effects; simpl; by rewrite Et|]. destruct err; [by left|].
  split; [done|]. simpl. unfold mbind, prog_bind. by rewrite Et.
Qed.

Lemma outcome_err b err t e w w1 :
  taskFunc t w = (Err e, w1) -> outcome b err (first_error err e) [t] w w1.
Proof.
  intros Et. split; [unfold effects; simpl; by rewrite Et|]. destruct err; [by left|]. right.
  split; [done|]. left. by exists [], t, [], w, w1.
Qed.

Lemma outcome_stop (b : error -> Prop) ctx err e w :
  context_Err ctx err = Some e -> (forall x, ctx = Some x -> b x) ->
  outcome b err (first_error err e) [] w w.
Proof.
  intros Hc Hb. split; [done|]. destruct err as [e0|]; [by left|]. right. split; [done|]. right.
  destruct ctx; [|done]. injection Hc as ->. auto.
Qed.

Lemma outcome_print (b : error -> Prop) err e w : b e -> outcome b err (first_error err e) [] w w.
Proof. intros Hb. split; [done|]. destruct err as [e0|]; [by left|]. right. auto. Qed.

Lemma drain_one_spec (b : error -> Prop) ctx q err w r w' :
  (forall x, ctx = Some x -> b x) ->
  drain_one taskFunc q ctx err w = (Ok r, w') ->
  exists l, l ⊆+ q /\ outcome b err r l w w' /\ (r = None -> l = q).
Proof.
  intros Hb. revert err w. induction q as [|t ts IH]; intros err w E; simpl in E.
  - simplify_eq. exists []. split; [done|]. split; [apply outcome_nil|done].
  - destruct (context_Err ctx err) as [e|] eqn:Ec.
    + simplify_eq. exists []. split; [apply submseteq_nil_l|].
      split; [by eapply outcome_stop|]. by destruct err.
    + destruct (taskFunc t w) as [[[]|e|p] w1] eqn:Et; simplify_eq.
      * apply IH in E as (l & Hl & Ho & Hr). exists (t :: l). split; [by apply submseteq_skip|].
        split; [by apply (outcome_app b err err r [t] l w w1 w'); [apply outcome_ok|]|].
        intros Hn. by rewrite Hr.
      * exists [t]. split; [apply submseteq_skip, submseteq_nil_l|].
        split; [by apply outcome_err|by destruct err].
Qed.

Lemma drain_spec (b : error -> Prop) ctx qs err w r w' :
  (forall x, ctx = Some x -> b x) ->
  drain taskFunc qs ctx err w = (Ok r, w') ->
  exists l, l ⊆+ concat qs /\ outcome b err r l w w' /\ (r = None -> l = concat qs).
Proof.
  intros Hb. revert err w. induction qs as [|q qs IH]; intros err w E; simpl in E.
  - simplify_eq. exists []. split; [done|]. split; [apply outcome_nil|done].
  - destruct (drain_one taskFunc q ctx err w) as [[err1|e|p] w1] eqn:E1; try done.
    apply (drain_one_spec b) in E1 as (l1 & Hl1 & H1 & Hn1); [|done].
    apply IH in E as (l2 & Hl2 & H2 & Hn2). exists (l1 ++ l2).
    split; [by apply submseteq_app|]. split; [by eapply outcome_app|]. intros ->.
    destruct H2 as [_ [-> _]]. by rewrite (Hn1 eq_refl), (Hn2 eq_refl).
Qed.

Lemma concat_insert (qs : list (list nat)) k t ts :
  qs !! k = Some (t :: ts) -> concat qs ≡ₚ t :: concat (<[k := ts]> qs).
Proof.
  intros H. rewrite <-(take_drop_middle qs k _ H) at 1.
  assert (k < length qs) by by eapply lookup_lt_Some.
  rewrite (insert_take_drop qs k ts) by done. rewrite !concat_app. simpl.
  symmetry. apply Permutation_middle.
Qed.

Lemma concat_insert_nil (qs : list (list nat)) k q :
  qs !! k = Some q -> concat (<[k := []]> qs) ⊆+ concat qs.
Proof.
  intros H. rewrite <-(take_drop_middle qs k _ H) at 2.
  assert (k < length qs) by by eapply lookup_lt_Some.
  rewrite (insert_take_drop qs k []) by done. rewrite !concat_app. simpl.
  apply submseteq_app; [done|]. apply submseteq_inserts_l. done.
Qed.

(** A turn takes at most one task, the next one. *)
Lemma turn_spec (b : error -> Prop) ctx qs k q sees err w q' err' w' :
  (forall x, ctx = Some x -> b x) -> qs !! k = Some q ->
  turn taskFunc q sees ctx err w = (Ok (q', err'), w') ->
  exists l, l ++ concat (<[k := q']> qs) ⊆+ concat qs /\ outcome b err err' l w w' /\
    (err' = None -> l ++ concat (<[k := q']> qs) ≡ₚ concat qs).
Proof.
  intros Hb Hk E. unfold turn in E. destruct q as [|t ts].
  { simplify_eq. exists []. rewrite list_insert_id by done. split; [done|].
    split; [apply outcome_nil|done]. }
  destruct (if sees then _ else _) as [e|] eqn:Es.
  { simplify_eq. exists []. split; [by eapply concat_insert_nil|].
    split; [|by destruct err]. destruct sees; [|done]. by eapply outcome_stop. }
  destruct (taskFunc t w) as [[[]|e|p] w1] eqn:Et; simplify_eq; exists [t]; simpl.
  - pose proof (concat_insert _ _ _ _ Hk) as Hc. rewrite Hc. split; [done|].
    split; [by apply outcome_ok|done].
  - split; [|split; [by apply outcome_err|by destruct err]].
    rewrite (concat_insert _ _ _ _ Hk). apply submseteq_skip.
    assert (<[k:=ts]> qs !! k = Some ts) as Hk'
      by (apply list_lookup_insert_eq; by eapply lookup_lt_Some).
    apply concat_insert_nil in Hk'. by rewrite list_insert_insert_eq in Hk'.
Qed.

(** Who else can be blamed for an error: the contexts and the printer. *)
Definition disturbance (evs : list parallel_event) (e : error) : Prop :=
  ContextEnds e ∈ evs \/ PrinterFails e ∈ evs.

(** Whatever the events, the effects are those of some of the tasks, each once; the others
    are left where there is no error. *)
Lemma run_events_spec (b : error -> Prop) evs qs ctx err w qs' ctx' err' w' :
  (forall x, ctx = Some x -> b x) -> (forall x, disturbance evs x -> b x) ->
  run_events taskFunc evs qs ctx err w = (Ok (qs', (ctx', err')), w') ->
  (forall x, ctx' = Some x -> b x) /\
  exists l, l ++ concat qs' ⊆+ concat qs /\ outcome b err err' l w w' /\
    (err' = None -> l ++ concat qs' ≡ₚ concat qs).
Proof.
  revert qs ctx err w. induction evs as [|ev evs IH]; intros qs ctx err w Hctx Hevs E; simpl in E.
  { simplify_eq. split; [done|]. exists []. split; [done|]. split; [apply outcome_nil|done]. }
  assert (forall x, disturbance evs x -> b x) as Hevs'
    by (intros x [?|?]; apply Hevs; [left|right]; by right).
  destruct ev as [k sees|e|e].
  - destruct (qs !! k) as [q|] eqn:Hk; [|by eapply IH].
    destruct (turn taskFunc q sees ctx err w) as [[[q1 err1]|e|p] w1] eqn:Et; [|done..].
    apply (turn_spec b _ qs k) in Et as (l1 & Hl1 & Ho1 & Hn1); [|done..].
    apply IH in E as (Hb & l2 & Hl2 & Ho2 & Hn2); [|done..]. split; [done|].
    exists (l1 ++ l2). rewrite <-app_assoc. split; [etrans; [by apply submseteq_app|done]|].
    split; [by eapply outcome_app|]. intros ->. rewrite (Hn2 eq_refl).
    destruct Ho2 as [_ [-> _]]. auto.
  - eapply IH; [|done|exact E]. intros x Hx. destruct ctx; [by apply Hctx|]. injection Hx as ->.
    apply Hevs. left. by left.
  - apply IH in E as (Hb & l & Hl & Ho & Hn); [|done..]. split; [done|]. exists l.
    split; [done|]. split; [|done]. apply (outcome_app b err (first_error err e) err' [] l w w w'); [|done].
    apply outcome_print, Hevs. right. by left.
Qed.

Lemma run_events_not_err evs qs ctx err w e w' : run_events taskFunc evs qs ctx err w <> (Err e, w').
Proof.
  revert qs ctx err w. induction evs as [|[k sees|x|x] evs IH]; intros qs ctx err w; simpl; auto.
  destruct (qs !! k) as [q|]; [|auto]. unfold turn.
  destruct q; [auto|]. destruct (if sees then _ else _); [auto|].
  destruct (taskFunc _ _) as [[[]| |]]; auto.
Qed.

Lemma drain_not_err qs ctx err w e w' : drain taskFunc qs ctx err w <> (Err e, w').
Proof.
  assert (forall q err w w1 e', drain_one taskFunc q ctx err w <> (Err e', w1)) as Hd.
  { induction q as [|t ts IH]; intros err0 w0 w1 e'; simpl; [done|].
    destruct (context_Err ctx err0); [done|]. destruct (taskFunc t w0) as [[[]| |]]; auto. }
  revert err w. induction qs as [|q qs IH]; intros err w; simpl; [done|].
  destruct (drain_one taskFunc q ctx err w) as [[err1|e1|p] w1] eqn:E; [auto|by apply Hd in E|done].
Qed.

(** [DoTasks] that returns no error has run every task once. *)
Lemma DoTasks_Ok sched n max w w' :
  DoTasks taskFunc sched n max w = (Ok tt, w') ->
  exists l, l ≡ₚ seq 0 n /\ for_each l taskFunc w = (Ok tt, w').
Proof.
  unfold DoTasks. destruct (match not_created sched with Some _ => _ | None => _ end) as [[i e]|].
  { by destruct (run_events _ _ _ _ _ _) as [[]]. }
  destruct (run_events _ _ _ _ _ _) as [[[qs [ctx err]]|e|p] w1] eqn:E1; [|done..].
  destruct (drain _ _ _ _ _) as [[[e|]|e|p] w2] eqn:E2; [done| |done..]. intros [= <-].
  apply (run_events_spec (fun _ => True)) in E1 as (_ & l1 & _ & Ho1 & Hn1); [|done..].
  apply (drain_spec (fun _ => True)) in E2 as (l2 & _ & Ho2 & Hn2); [|done].
  pose proof (outcome_app _ _ _ _ _ _ _ _ _ Ho1 Ho2) as [_ [_ Hf]]. exists (l1 ++ l2).
  split; [|done]. rewrite Hn2 by done. destruct Ho2 as [_ [-> _]].
  rewrite (Hn1 eq_refl). by rewrite workerTasks_concat.
Qed.

Lemma concat_take_submseteq {A} i (qs : list (list A)) : concat (take i qs) ⊆+ concat qs.
Proof.
  rewrite <-(take_drop i qs) at 2. rewrite concat_app. by apply submseteq_inserts_r.
Qed.

(** [DoTasks] that returns an error has run some of the tasks, none twice; the error is that of
    a worker that could not be created, or the first of the group, with that of the print. *)
Lemma DoTasks_Err sched n max w e w' :
  DoTasks taskFunc sched n max w = (Err e, w') ->
  exists l, l ⊆+ seq 0 n /\ w' = effects l w /\
    ((exists i, not_created sched = Some (i, e)) \/
     exists e0, e = join_print e0 (print_again sched) /\
       (first_failure l w e0 \/ disturbance (events sched) e0)).
Proof.
  unfold DoTasks. destruct (match not_created sched with Some _ => _ | None => _ end) as [[i e0]|] eqn:Es.
  - destruct (run_events _ _ _ _ _ _) as [[[qs [ctx err]]|e1|p] w1] eqn:E1;
      [|by apply run_events_not_err in E1|done]. intros [= <- <-].
    apply (run_events_spec (fun _ => True)) in E1 as (_ & l & Hl & [-> _] & _); [|done..].
    exists l. split; [|split; [done|]].
    + rewrite <-(workerTasks_concat n max). etrans; [|apply (concat_take_submseteq i)].
      etrans; [|exact Hl]. by apply submseteq_inserts_r.
    + left. destruct (not_created sched) as [[j x]|]; [|done]. destruct (_ <? _); [|done].
      injection Es as <- <-. eauto.
  - destruct (run_events _ _ _ _ _ _) as [[[qs [ctx err]]|e1|p] w1] eqn:E1;
      [|by apply run_events_not_err in E1|done].
    destruct (drain _ _ _ _ _) as [[[e1|]|e1|p] w2] eqn:E2; [|done|by apply drain_not_err in E2|done].
    intros [= <- <-].
    apply (run_events_spec (disturbance (events sched))) in E1 as (Hb & l1 & Hl1 & Ho1 & _); [|done..].
    apply (drain_spec (disturbance (events sched))) in E2 as (l2 & Hl2 & Ho2 & _); [|done].
    pose proof (outcome_app _ _ _ _ _ _ _ _ _ Ho1 Ho2) as [-> [?|[_ Hf]]]; [done|].
    exists (l1 ++ l2). split; [|split; [done|by right; eauto]].
    rewrite <-(workerTasks_concat n max). etrans; [|exact Hl1]. by apply submseteq_app.
Qed.

(** What every task keeps, they keep together, whatever they return. *)
Lemma keeps_DoTasks (R : W -> W -> Prop) `{!PreOrder R} sched n max :
  (forall t, t < n -> keeps R (taskFunc t)) -> keeps R (DoTasks taskFunc sched n max).
Proof.
  intros H w.
  assert (forall q ctx err w, (forall t, t ∈ q -> t < n) -> R w (drain_one taskFunc q ctx err w).2) as Hd.
  { induction q as [|t ts IH]; intros ctx err w0 Hq; simpl; [done|]. destruct (context_Err ctx err); [done|].
    pose proof (H t (Hq t ltac:(by left)) w0) as Ht.
    destruct (taskFunc t w0) as [[[]| |] w1]; simpl in *; [|done..].
    etrans; [done|apply IH; set_solver]. }
  assert (forall qs ctx err w, (forall t, t ∈ concat qs -> t < n) -> R w (drain taskFunc qs ctx err w).2) as Hdr.
  { induction qs as [|q qs IH]; intros ctx err w0 Hq; simpl; [done|]. simpl in Hq.
    pose proof (Hd q ctx err w0 ltac:(set_solver)) as H1.
    destruct (drain_one taskFunc q ctx err w0) as [[| |] w1]; simpl in *; [|done..].
    etrans; [done|apply IH; set_solver]. }
  assert (forall q sees ctx err w, (forall t, t ∈ q -> t < n) -> R w (turn taskFunc q sees ctx err w).2) as Ht.
  { intros [|t ts] sees ctx err w0 Hq; simpl; [done|]. destruct (if sees then _ else _); [done|].
    pose proof (H t (Hq t ltac:(by left)) w0). by destruct (taskFunc t w0) as [[[]| |] w1]. }
  assert (forall evs qs ctx err w, (forall t, t ∈ concat qs -> t < n) ->
    R w (run_events taskFunc evs qs ctx err w).2 /\
    forall qs' ce w', run_events taskFunc evs qs ctx err w = (Ok (qs', ce), w') ->
      forall t, t ∈ concat qs' -> t < n) as Hs.
  { induction evs as [|[k sees|x|x] evs IH]; intros qs ctx err w0 Hq; simpl; [|..|auto|auto].
    { split; [done|]. by intros qs' ce w' [= <- _ _]. }
    destruct (qs !! k) as [q|] eqn:Hk; [|auto].
    assert (forall t, t ∈ q -> t < n) as Hq1.
    { intros t Hin. apply Hq. rewrite <-(take_drop_middle qs k _ Hk), concat_app. set_solver. }
    pose proof (Ht q sees ctx err w0 Hq1) as Hw.
    destruct (turn taskFunc q sees ctx err w0) as [[[q' err']|e|p] w1] eqn:Et; [|by split..].
    destruct (IH (<[k := q']> qs) ctx err' w1) as [HR Hq'].
    { apply (turn_spec (fun _ => True) _ qs k) in Et as (l & Hl & _); [|done..].
      intros t Hin. apply Hq. eapply elem_of_submseteq; [|exact Hl]. set_solver. }
    split; [by etrans|done]. }
  unfold DoTasks. set (queues := workerTasks n max).
  assert (forall t, t ∈ concat queues -> t < n) as Hq.
  { intros t. unfold queues. rewrite workerTasks_concat, elem_of_seq. lia. }
  destruct (match not_created sched with Some _ => _ | None => _ end) as [[i e]|].
  - destruct (Hs (events sched) (take i queues) None None w) as [HR _].
    { intros t Hin. apply Hq. eapply elem_of_submseteq; [done|apply concat_take_submseteq]. }
    by destruct (run_events _ _ _ _ _ _) as [[]].
  - destruct (Hs (events sched) queues None None w Hq) as [HR Hq'].
    destruct (run_events _ _ _ _ _ _) as [[[qs [ctx err]]|e|p] w1]; [|done..].
    pose proof (Hdr qs ctx err w1 (Hq' _ _ _ eq_refl)).
    destruct (drain _ _ _ _ _) as [[[]| |]]; simpl in *; by etrans.
Qed.

(** Neither the contexts, nor the printer, nor the creation of a worker fails. *)
Definition calm_schedule (sched : parallel_schedule) : Prop :=
  not_created sched = None /\ forall e, ~ disturbance (events sched) e.

(** Where every task returns, so do they together. *)
Lemma DoTasks_total sched n max w :
  calm_schedule sched -> (forall t w, t < n -> exists w', taskFunc t w = (Ok tt, w')) ->
  exists w', DoTasks taskFunc sched n max w = (Ok tt, w').
Proof.
  intros [Hcr Hcalm] H.
  assert (forall l w e, (forall t, t ∈ l -> t < n) -> ~ first_failure l w e) as Hfail.
  { intros l w0 e Hl (l1 & t & l2 & w1 & w2 & -> & _ & Ht). destruct (H t w1) as [w3 E]; [set_solver|].
    congruence. }
  assert (forall q ctx err w p w', (forall t, t ∈ q -> t < n) -> drain_one taskFunc q ctx err w <> (Panic p, w')) as Hd.
  { induction q as [|t ts IH]; intros ctx err w0 p w' Hq; simpl; [done|]. destruct (context_Err ctx err); [done|].
    destruct (H t w0 (Hq t ltac:(by left))) as [w1 ->]. apply IH. set_solver. }
  assert (forall qs ctx err w p w', (forall t, t ∈ concat qs -> t < n) -> drain taskFunc qs ctx err w <> (Panic p, w')) as Hdr.
  { induction qs as [|q qs IH]; intros ctx err w0 p w' Hq; simpl; [done|]. simpl in Hq.
    destruct (drain_one taskFunc q ctx err w0) as [[| |] w1] eqn:E; [apply IH; set_solver|done|].
    apply Hd in E; [done|set_solver]. }
  assert (forall evs qs ctx err w p w', (forall t, t ∈ concat qs -> t < n) ->
    run_events taskFunc evs qs ctx err w <> (Panic p, w')) as Hs.
  { induction evs as [|[k sees|x|x] evs IH]; intros qs ctx err w0 p w' Hq; simpl; auto.
    destruct (qs !! k) as [q|] eqn:Hk; [|auto].
    destruct (turn taskFunc q sees ctx err w0) as [[[q' err']|e|p'] w1] eqn:Et; [|done|].
    - apply IH. apply (turn_spec (fun _ => True) _ qs k) in Et as (l & Hl & _); [|done..].
      intros t Hin. apply Hq. eapply elem_of_submseteq; [|exact Hl]. set_solver.
    - assert (forall t, t ∈ q -> t < n) as Hq1.
      { intros t Hin. apply Hq. rewrite <-(take_drop_middle qs k _ Hk), concat_app. set_solver. }
      unfold turn in Et. destruct q as [|t ts]; [done|]. destruct (if sees then _ else _); [done|].
      destruct (H t w0 (Hq1 t ltac:(by left))) as [w2 E]. by rewrite E in Et. }
  assert (forall t, t ∈ concat (workerTasks n max) -> t < n) as Hq.
  { intros t. rewrite workerTasks_concat, elem_of_seq. lia. }
  unfold DoTasks. rewrite Hcr.
  destruct (run_events taskFunc (events sched) (workerTasks n max) None None w)
    as [[[qs [ctx err]]|e|p] w1] eqn:E1; [|by apply run_events_not_err in E1|by apply Hs in E1].
  apply (run_events_spec (disturbance (events sched))) in E1 as (Hb & l1 & Hl1 & Ho1 & _); [|done..].
  destruct (drain taskFunc qs ctx err w1) as [[r|e|p] w2] eqn:E2;
    [|by apply drain_not_err in E2|].
  2: { apply Hdr in E2; [done|]. intros t Hin. apply Hq. eapply elem_of_submseteq; [|exact Hl1]. set_solver. }
  destruct r as [e|]; [|eauto].
  apply (drain_spec (disturbance (events sched))) in E2 as (l2 & Hl2 & Ho2 & _); [|done].
  pose proof (outcome_app _ _ _ _ _ _ _ _ _ Ho1 Ho2) as [_ [?|[_ [Hf|Hf]]]]; [done| |by apply Hcalm in Hf].
  apply Hfail in Hf; [done|]. intros t Hin. apply Hq. eapply elem_of_submseteq; [exact Hin|].
  etrans; [|exact Hl1]. by apply submseteq_app.
Qed.

End facts.
End Parallel.

Module ParallelProps.
Import Parallel.

(** The workers' tasks, one worker after the other, are exactly the tasks in
    order, whatever the number of workers asked for: no task is lost or given to two
    workers, and the loads of two workers differ by at most one. *)
Theorem tasks_distribution n max :
  concat (workerTasks n max) = seq 0 n /\
  (calculateTasksDistribution n max).1 <= n /\
  forall i j a b, (calculateTasksDistribution n max).2 !! i = Some a ->
    (calculateTasksDistribution n max).2 !! j = Some b -> a <= b + 1.
Proof.
  split; [apply workerTasks_concat|]. split.
  - unfold calculateTasksDistribution. simpl.
    destruct (Z.leb_spec max 0); simpl; [done|]. destruct (Z.ltb_spec (Z.of_nat n) max); lia.
  - intros i j a b Ha Hb. unfold calculateTasksDistribution in *. simpl in *.
    apply list_lookup_fmap_Some in Ha as (x & -> & _), Hb as (y & -> & _).
    destruct (_ <? _), (_ <? _); lia.
Qed.

(** C38: tasks run by workers, under every order of their turns. Where every task returns, and
    neither the caller's context ends, nor the printer of the logs or the creation of a worker
    fails, [DoTasks] returns no error. Whenever it returns none, each task has run once, in some
    order, and returned. When it returns an error, some of the tasks have run, none of them
    twice, and the error is that of the worker that could not be created or, with the text of a
    failed print, that of the first task that failed, of the caller's context, or of the
    printer. Tasks are run as wholes here, one at a time. *)
Theorem DoTasks_runs_once {W} (taskFunc : nat -> prog W unit) sched n max w :
  (calm_schedule sched -> (forall t w, t < n -> exists w', taskFunc t w = (Ok tt, w')) ->
     exists w', DoTasks taskFunc sched n max w = (Ok tt, w')) /\
  (forall w', DoTasks taskFunc sched n max w = (Ok tt, w') ->
     exists l, l ≡ₚ seq 0 n /\ for_each l taskFunc w = (Ok tt, w')) /\
  (forall e w', DoTasks taskFunc sched n max w = (Err e, w') ->
     exists l, l ⊆+ seq 0 n /\ w' = effects taskFunc l w /\
       ((exists i, not_created sched = Some (i, e)) \/
        exists e0, e = join_print e0 (print_again sched) /\
          (first_failure taskFunc l w e0 \/ disturbance (events sched) e0))).
Proof.
  split; [apply DoTasks_total|]. split; [apply DoTasks_Ok|apply DoTasks_Err].
Qed.

(** The context of the caller ends while the first task of each of two workers runs: every task
    returns, two of the four have run, and the error is that of the context. *)
Example context_ends :
  let task t := fun l : list nat => (Ok tt, l ++ [t]) in
  let deadline := Errorf "context deadline exceeded" [] in
  DoTasks task (mkSchedule [Turn 0 true; Turn 1 true; ContextEnds deadline; Turn 0 true; Turn 1 true]
    None None) 4 2 [] = (Err deadline, [0; 2]).
Proof. reflexivity. Qed.

(** Without it, the four tasks run, those of a worker in order. *)
Example undisturbed_run :
  let task t := fun l : list nat => (Ok tt, l ++ [t]) in
  DoTasks task (mkSchedule [Turn 1 true; Turn 0 true] None None) 4 2 [] = (Ok tt, [2; 0; 1; 3]).
Proof. reflexivity. Qed.

(** A finding: the third worker cannot be created, so that [DoTasks] returns; the two workers
    that were started have run two tasks, and go on without anybody waiting for them. *)
Example not_all_created :
  let task t := fun l : list nat => (Ok tt, l ++ [t]) in
  let e := Errorf "failed to create worker" [] in
  DoTasks task (mkSchedule [Turn 1 true; Turn 0 true] (Some (2, e)) None) 6 3 [] = (Err e, [2; 0]).
Proof. reflexivity. Qed.

End ParallelProps.
