(* ===== verification/StorageManager.v ===== *)
(** pkg/storage/manager: descriptions of the stages, read through the caches, and
    the operations applied to every stage or record by parallel tasks. A description
    is a Go pointer; a set of them is a map from pointers to what they point at. The
    order in which a map or a set is iterated, and the schedule of the workers, are
    whatever the class [Nondet] gives, and the theorems hold for all of them. *)
From S2P Require Import Prelude Go Slug Image Registry StagesStorage RepoStorage Parallel.

Module StorageManager.
Import StagesStorage Parallel.

(** A set of stage descriptions. *)
Abbreviation StageDescSet := (gmap positive Image.StageDesc).

(** The world of the storage manager: the storages' own world, a counter of the
    choices made, the next pointer to allocate, the cached list of final stages, and
    what else its caller keeps. *)
Record Env (W X : Type) := mkEnv {
  ext : W;
  tick : nat;
  next_ptr : positive;
  FinalStagesListCache : option (list Image.StageID);
  own : X;
}.
Arguments mkEnv {W X} _ _ _ _ _.
Arguments ext {W X} _.
Arguments tick {W X} _.
Arguments next_ptr {W X} _.
Arguments FinalStagesListCache {W X} _.
Arguments own {W X} _.

(** The local cache of manifests, by storage and image name. *)
Record ManifestCache (W : Type) := mkManifestCache {
  GetImageInfo : string -> string -> prog W (option Image.Info);
  StoreImageInfo : string -> Image.Info -> prog W unit;
}.
Arguments GetImageInfo {W} _ _ _.
Arguments StoreImageInfo {W} _ _ _.

Record Manager (W : Type) := mkManager {
  parallel : bool;
  parallelTasksLimit : Z;
  ProjectName : string;
  StagesStorage : Storage W;
  FinalStagesStorage : option (Storage W);
  CacheStagesStorageList : list (Storage W);
  CommonManifestCache : ManifestCache W;
  (** [FilterStageDescSetAndProcessRelatedData], where the storage is the local one *)
  localFilter : option (StageDescSet -> FilterOptions -> prog W StageDescSet);
}.
Arguments parallel {W} _.
Arguments parallelTasksLimit {W} _.
Arguments ProjectName {W} _.
Arguments StagesStorage {W} _.
Arguments FinalStagesStorage {W} _.
Arguments CacheStagesStorageList {W} _.
Arguments CommonManifestCache {W} _.
Arguments localFilter {W} _.
Arguments Address {W} _.

(** [DeleteImageOptions] and [FilterStagesAndProcessRelatedDataOptions]. *)
Record ForEachDeleteStageOptions := mkForEachDeleteStageOptions {
  deleteImageOptions : DeleteImageOptions;
  filterOptions : FilterOptions;
}.

Section manager.
Context {W : Type} `{!GoQuote, !Nondet}.

(** ** Running in the world of the manager *)

Section env.
Context {X : Type}.

Definition call {A} (m : prog W A) : prog (Env W X) A := fun e =>
  let '(r, w) := m (ext e) in
  (r, mkEnv w (tick e) (next_ptr e) (FinalStagesListCache e) (own e)).

Definition get_own : prog (Env W X) X := fun e => (Ok (own e), e).
Definition set_own (x : X) : prog (Env W X) unit := fun e =>
  (Ok tt, mkEnv (ext e) (tick e) (next_ptr e) (FinalStagesListCache e) x).

(** The order in which a map is iterated. *)
Definition iterate {A} (l : list A) : prog (Env W X) (list A) := fun e =>
  (Ok (shuffle (tick e) l),
   mkEnv (ext e) (S (tick e)) (next_ptr e) (FinalStagesListCache e) (own e)).

Definition alloc : prog (Env W X) positive := fun e =>
  (Ok (next_ptr e),
   mkEnv (ext e) (tick e) (Pos.succ (next_ptr e)) (FinalStagesListCache e) (own e)).

Definition next_schedule : prog (Env W X) parallel_schedule := fun e =>
  (Ok (schedule (tick e)),
   mkEnv (ext e) (S (tick e)) (next_ptr e) (FinalStagesListCache e) (own e)).

Definition get_final_cache : prog (Env W X) (option (list Image.StageID)) := fun e =>
  (Ok (FinalStagesListCache e), e).
Definition set_final_cache (c : list Image.StageID) : prog (Env W X) unit := fun e =>
  (Ok tt, mkEnv (ext e) (tick e) (next_ptr e) (Some c) (own e)).
End env.

(** Tasks with a variable of their caller that they share. *)
Definition outer {E S A} (m : prog E A) : prog (E * S) A := fun es =>
  let '(r, e) := m es.1 in (r, (e, es.2)).
Definition get_var {E S} : prog (E * S) S := fun es => (Ok es.2, es).
Definition set_var {E S} (s : S) : prog (E * S) unit := fun es => (Ok tt, (es.1, s)).
Definition with_var {E S} (s0 : S) (m : prog (E * S) unit) : prog E S := fun e =>
  let '(r, (e', s)) := m (e, s0) in
  (match r with Ok _ => Ok s | Err x => Err x | Panic p => Panic p end, e').

(** Operations on elements whose callbacks share a variable of their caller. *)
Definition with_own {X S} (s0 : S) (m : prog (Env W (X * S)) unit) : prog (Env W X) S := fun e =>
  let '(r, e') := m (mkEnv (ext e) (tick e) (next_ptr e) (FinalStagesListCache e) (own e, s0)) in
  (match r with Ok _ => Ok (own e').2 | Err x => Err x | Panic p => Panic p end,
   mkEnv (ext e') (tick e') (next_ptr e') (FinalStagesListCache e') (own e').1).

(** [s[i]] for a slice. *)
Definition index {E A} (l : list A) (i : nat) : prog E A :=
  match l !! i with
  | Some x => mret x
  | None => panic "index out of range"
  end.

(** The error value of a call. *)
Definition err_of {A} (r : A + error) : option error :=
  match r with inl _ => None | inr e => Some e end.

Variable m : Manager W.

Definition MaxNumberOfWorkers : Z :=
  if parallel m && (0 <? parallelTasksLimit m)%Z then parallelTasksLimit m else 1%Z.

Definition getWithLocalManifestCacheOption : bool :=
  negb (bool_decide (Address (StagesStorage m) = LocalStorageAddress)).

Definition stageImageName (st : Storage W) (id : Image.StageID) : string :=
  ConstructStageImageName W st (ProjectName m) (Image.Digest id) (Image.CreationTs id).

(** ** Descriptions *)

Definition getStageDescFromLocalManifestCache (id : Image.StageID) (st : Storage W)
  : prog W (option Image.StageDesc) :=
  imgInfo ← wrap "error getting image %s info: %w" [FS (stageImageName st id)]
    (GetImageInfo (CommonManifestCache m) (Address st) (stageImageName st id));
  mret ((fun i => Image.mkStageDesc
           (Image.NewStageID (Image.Digest id) (Image.CreationTs id)) i) <$> imgInfo).

Definition storeStageDescIntoLocalManifestCache (id : Image.StageID) (st : Storage W)
  (stageDesc : Image.StageDesc) : prog W unit :=
  wrap "error storing image %s info: %w" [FS (stageImageName st id)]
    (StoreImageInfo (CommonManifestCache m) (Address st) (Image.SDInfo stageDesc)).

Definition ConvertStageDescForStagesStorage (stageDesc : Image.StageDesc) (st : Storage W)
  : Image.StageDesc :=
  let id := Image.SDStageID stageDesc in
  let info := Image.SDInfo stageDesc in
  Image.mkStageDesc (Image.NewStageID (Image.Digest id) (Image.CreationTs id))
    (Image.mkInfo
       (Address st +:+ ":" +:+ Image.Digest id +:+ "-" +:+ itoa (Image.CreationTs id))
       (Address st) (Image.Tag info) (Image.RepoDigest info) (Image.OnBuild info)
       (Image.Env info) (Image.ID info) (Image.ParentID info) (Image.Labels info)
       (Image.Size info) (Image.CreatedAtUnixNano info) (Image.Volumes info) false []).

Definition storing (id : Image.StageID) (cached : bool) (st : Storage W)
  (stageDesc : Image.StageDesc) : prog W unit :=
  if cached then
    wrap "error storing stage %s description into local manifest cache: %w"
      [FS (Image.StageID_String id)] (storeStageDescIntoLocalManifestCache id st stageDesc)
  else mret tt.

(** The first cache storage that has the description. *)
Fixpoint getStageDescFromCaches (id : Image.StageID) (st : Storage W)
  (caches : list (Storage W)) (cached : bool) : prog W (option Image.StageDesc) :=
  match caches with
  | [] => mret None
  | cache :: caches' =>
      hit ← (if cached then
               wrap "error getting stage %s description from the local manifest cache: %w"
                 [FS (Image.StageID_String id)] (getStageDescFromLocalManifestCache id cache)
             else mret None);
      match hit with
      | Some d => mret (Some (ConvertStageDescForStagesStorage d st))
      | None =>
          r ← try (GetStageDesc W cache (ProjectName m) id);
          match r with
          | inl (Some d) =>
              storing id cached cache d ;; mret (Some (ConvertStageDescForStagesStorage d st))
          | inl None | inr _ => getStageDescFromCaches id st caches' cached
          end
      end
  end.

Definition getStageDesc (id : Image.StageID) (st : Storage W) (caches : list (Storage W))
  (cached : bool) : prog W (option Image.StageDesc) :=
  local ← (if cached then
             wrap "error getting stage %s description from %s: %w"
               [FS (Image.StageID_String id); FS (Address st)]
               (getStageDescFromLocalManifestCache id st)
           else mret None);
  match local with
  | Some d => mret (Some d)
  | None =>
      fromCache ← getStageDescFromCaches id st caches cached;
      match fromCache with
      | Some d => mret (Some d)
      | None =>
          r ← try (GetStageDesc W st (ProjectName m) id);
          match r with
          | inr err =>
              if IsErrBrokenImage err then mret None
              else fail (Wrapf
                "error getting digest %q creation timestamp %d stage info from %s: %w"
                [FQ (Image.Digest id); FD (Image.CreationTs id); FS (Address st)] err)
          | inl (Some d) => storing id cached st d ;; mret (Some d)
          | inl None => mret None
          end
      end
  end.

Section ops.
Context {X : Type}.
Abbreviation prog := (prog (Env W X)).

(** [parallel.DoTasks] under the next schedule. *)
Definition do_tasks (n : nat) (task : nat -> prog unit) : prog unit :=
  sched ← next_schedule; DoTasks task sched n MaxNumberOfWorkers.

(** [DoTasks] whose tasks share the variable [s0]. *)
Definition do_tasks_var {S} (n : nat) (s0 : S) (task : nat -> Go.prog (Env W X * S) unit)
  : prog S :=
  sched ← next_schedule; with_var s0 (DoTasks task sched n MaxNumberOfWorkers).

(** The descriptions of a list of stages, read by parallel tasks. *)
Definition fetchDescs (ids : list Image.StageID)
  (get : Image.StageID -> Go.prog W (option Image.StageDesc)) : prog StageDescSet :=
  do_tasks_var (length ids) (∅ : StageDescSet) (fun taskId =>
    id ← index ids taskId;
    stageDesc ← outer (call (get id));
    match stageDesc with
    | None => mret tt
    | Some d => p ← outer alloc; set ← get_var; set_var (<[p := d]> set)
    end).

Definition getStageDescSet (opts : list Option) : prog StageDescSet :=
  stageIDs ← wrap "error getting stages ids from %s: %w" [FS (Address (StagesStorage m))]
    (call (GetStagesIDs W (StagesStorage m) (ProjectName m) opts));
  fetchDescs stageIDs (fun id =>
    wrap "error getting stage %s description: %w" [FS (Image.StageID_String id)]
      (getStageDesc id (StagesStorage m) (CacheStagesStorageList m)
         getWithLocalManifestCacheOption)).

Definition GetStageDescSetWithCache : prog StageDescSet := getStageDescSet [WithCache].
Definition GetStageDescSet : prog StageDescSet := getStageDescSet [].

Definition getOrCreateFinalStagesListCache (final : Storage W) : prog (list Image.StageID) :=
  c ← get_final_cache;
  match c with
  | Some ids => mret ids
  | None =>
      stageIDs ← wrap "unable to get final repo stages list: %w" []
        (call (GetStagesIDs W final (ProjectName m) []));
      set_final_cache stageIDs ;; mret stageIDs
  end.

Definition InitCache : prog unit :=
  match FinalStagesStorage m with
  | None => mret tt
  | Some final =>
      wrap "unable to get or create final stages list cache: %w" []
        (getOrCreateFinalStagesListCache final) ;; mret tt
  end.

Definition AddStageID (ids : list Image.StageID) (id : Image.StageID) : list Image.StageID :=
  if existsb (fun stg => Image.IsEqual stg id) ids then ids else ids ++ [id].

(** Only called where there is a final storage; without one the source
    dereferences a nil interface. *)
Definition GetFinalStageDescSet : prog StageDescSet :=
  match FinalStagesStorage m with
  | None => panic "nil pointer dereference"
  | Some final =>
      stageIDs ← wrap "error getting existing stages list of final repo %s: %w"
        [FS (Address final)] (getOrCreateFinalStagesListCache final);
      fetchDescs stageIDs (fun id =>
        wrap "error getting stage %s description from %s: %w"
          [FS (Image.StageID_String id); FS (Address final)] (getStageDesc id final [] true))
  end.

Definition getStageDescSetFromStagesStorage (stageIDs : list Image.StageID) (st : Storage W)
  : prog StageDescSet :=
  for_fold stageIDs (∅ : StageDescSet) (fun set id =>
    stageDesc ← call (getStageDesc id st (CacheStagesStorageList m)
                        getWithLocalManifestCacheOption);
    match stageDesc with
    | None => mret set
    | Some d => p ← alloc; mret (<[p := d]> set)
    end).

Definition getStageDescSetByDigestFromStagesStorage (stageName stageDigest : string)
  (parentStageCreationTs : Z) (st : Storage W) (opts : list Option) : prog StageDescSet :=
  stageIDs ← wrap "unable to get stages ids from %s by digest %s for stage %s: %w"
    [FS (Address st); FS stageDigest; FS stageName]
    (wrap "error getting project %s stage %s images from storage: %w"
       [FS (Address (StagesStorage m)); FS stageDigest]
       (call (GetStagesIDsByDigest W st (ProjectName m) stageDigest parentStageCreationTs opts)));
  wrap "unable to get stage descriptions by ids from %s: %w" [FS (Address st)]
    (getStageDescSetFromStagesStorage stageIDs st).

Definition GetStageDescSetByDigestFromStagesStorageWithCache (stageName stageDigest : string)
  (parentStageCreationTs : Z) (st : Storage W) : prog StageDescSet :=
  cachedStageDescSet ← getStageDescSetByDigestFromStagesStorage stageName stageDigest
    parentStageCreationTs st [WithCache];
  if bool_decide (cachedStageDescSet = ∅)
  then getStageDescSetByDigestFromStagesStorage stageName stageDigest parentStageCreationTs st []
  else mret cachedStageDescSet.

(** ** Operations on every element *)

(** The callback gets the description and the error of its deletion. *)
Definition DeleteCallback : Type := positive * Image.StageDesc -> option error -> prog unit.

(** The tasks pop the descriptions of a clone of the set, in some order. *)
Definition pop_each (set : StageDescSet) (task : positive * Image.StageDesc -> prog unit)
  : prog unit :=
  order ← iterate (map_to_list set);
  do_tasks_var (size set) order (fun _ =>
    rest ← get_var;
    match rest with
    | [] => panic "nil pointer dereference"
    | d :: rest' => set_var rest' ;; outer (task d)
    end) ;;
  mret tt.

Definition ForEachDeleteFinalStage (options : ForEachDeleteStageOptions) (set : StageDescSet)
  (f : DeleteCallback) : prog unit :=
  match FinalStagesStorage m with
  | None => panic "nil pointer dereference"
  | Some final =>
      pop_each set (fun d =>
        r ← try (call (DeleteStage W final d.2 (deleteImageOptions options)));
        f d (err_of r))
  end.

Definition ForEachDeleteStage (options : ForEachDeleteStageOptions) (set : StageDescSet)
  (f : DeleteCallback) : prog unit :=
  filtered ← match localFilter m with
             | Some filter => wrap "error filtering local docker server stages: %w" []
                                (call (filter set (filterOptions options)))
             | None => mret set
             end;
  pop_each filtered (fun d =>
    for_each (CacheStagesStorageList m) (fun cache =>
      try (call (DeleteStage W cache d.2 (deleteImageOptions options))) ;; mret tt) ;;
    r ← try (call (DeleteStage W (StagesStorage m) d.2 (deleteImageOptions options)));
    f d (err_of r)).

(** A task for every element of a slice. *)
Definition each {A} (l : list A) (task : A -> prog unit) : prog unit :=
  do_tasks (length l) (fun taskId => x ← index l taskId; task x).

Definition ForEachRmImageMetadata (imageNameOrID : string)
  (stageIDCommitList : gmap string (list string))
  (f : string -> string -> option error -> prog unit) : prog unit :=
  order ← iterate (map_to_list stageIDCommitList);
  each (x ← order; commit ← x.2; [(commit, x.1)]) (fun task =>
    r ← try (call (RmImageMetadata W (StagesStorage m) (ProjectName m) imageNameOrID task.1 task.2));
    f task.1 task.2 (err_of r)).

Definition ForEachRmManagedImage (managedImages : list string)
  (f : string -> option error -> prog unit) : prog unit :=
  each managedImages (fun managedImage =>
    r ← try (call (RmManagedImage W (StagesStorage m) (ProjectName m) managedImage));
    f managedImage (err_of r)).

Definition ForEachGetImportMetadata (ids : list string)
  (f : string -> option ImportMetadata + error -> prog unit) : prog unit :=
  each ids (fun id =>
    r ← try (call (GetImportMetadata W (StagesStorage m) (ProjectName m) id)); f id r).

Definition ForEachRmImportMetadata (ids : list string)
  (f : string -> option error -> prog unit) : prog unit :=
  each ids (fun id =>
    r ← try (call (RmImportMetadata W (StagesStorage m) (ProjectName m) id)); f id (err_of r)).

Definition ForEachDeleteStageCustomTag (ids : list string)
  (f : string -> option error -> prog unit) : prog unit :=
  each ids (fun id =>
    r ← try (call (DeleteStageCustomTag W (StagesStorage m) id));
    match r with
    | inr err => f id (Some (Wrapf "unable to delete stage custom tag: %w" [] err))
    | inl _ =>
        r2 ← try (call (UnregisterStageCustomTag W (StagesStorage m) id));
        match r2 with
        | inr err => f id (Some (Wrapf "unable to unregister stage custom tag: %w" [] err))
        | inl _ => f id None
        end
    end).

Definition ForEachGetStageCustomTagMetadata (ids : list string)
  (f : string -> CustomTagMetadata + error -> prog unit) : prog unit :=
  each ids (fun id =>
    r ← try (call (GetStageCustomTagMetadata W (StagesStorage m) id)); f id r).

End ops.
End manager.
End StorageManager.
