(* ===== verification/StageManager.v ===== *)
(** pkg/cleaning/stage_manager: which stages are protected and why, and which
    commits of which image are recorded for which stage. The sets of descriptions are
    maps from pointers; the reasons of protection, which the source compares by
    pointer, are the constructors of a type. *)
From S2P Require Import Prelude Go Slug Image Registry StagesStorage RepoStorage Parallel.
From S2P Require Import StorageManager.

Module StageManager.
Import StagesStorage StorageManager.

(** * stages.go *)

Inductive protectionReason :=
| ProtectionReasonKubernetesBasedPolicy
| ProtectionReasonGitPolicy
| ProtectionReasonBuiltWithinLastNHoursPolicy
| ProtectionReasonImportSource
| ProtectionReasonDependencySource
| ProtectionReasonAncestor
| ProtectionReasonImageIndexPlatform
| ProtectionReasonNotFoundInRepo
| ProtectionReasonKeepList.

#[export] Instance protectionReason_eq_dec : EqDecision protectionReason.
Proof. solve_decision. Defined.

Definition reason_code (r : protectionReason) : nat :=
  match r with
  | ProtectionReasonKubernetesBasedPolicy => 0
  | ProtectionReasonGitPolicy => 1
  | ProtectionReasonBuiltWithinLastNHoursPolicy => 2
  | ProtectionReasonImportSource => 3
  | ProtectionReasonDependencySource => 4
  | ProtectionReasonAncestor => 5
  | ProtectionReasonImageIndexPlatform => 6
  | ProtectionReasonNotFoundInRepo => 7
  | ProtectionReasonKeepList => 8
  end.
Definition reason_of_code (n : nat) : option protectionReason :=
  nth_error [ProtectionReasonKubernetesBasedPolicy; ProtectionReasonGitPolicy;
    ProtectionReasonBuiltWithinLastNHoursPolicy; ProtectionReasonImportSource;
    ProtectionReasonDependencySource; ProtectionReasonAncestor;
    ProtectionReasonImageIndexPlatform; ProtectionReasonNotFoundInRepo;
    ProtectionReasonKeepList] n.
#[export] Program Instance protectionReason_countable : Countable protectionReason :=
  inj_countable reason_code reason_of_code _.
Next Obligation. by intros []. Qed.

Abbreviation Desc := (positive * Image.StageDesc)%type.

Record stageMeta := mkStageMeta {
  isProtected : bool;
  reasonOf : option protectionReason;
}.

Record managedStageDescSet := mkManagedStageDescSet {
  stageDescSet : StageDescSet;
  stageDescByStageID : gmap string Desc;
  (** keyed by pointer, with what the pointer points at *)
  stageDescMetaMap : gmap positive (Image.StageDesc * stageMeta);
}.

Definition stage_id (d : Desc) : string := Image.StageID_String (Image.SDStageID d.2).

(** [order] is the order in which the set is iterated: of two descriptions of the
    same stage, the last one stays. *)
Definition newManagedStageDescSet (set : StageDescSet) (order : list Desc)
  : managedStageDescSet :=
  mkManagedStageDescSet set (foldl (fun m d => <[stage_id d := d]> m) ∅ order) ∅.

Definition DifferenceInPlace (s : managedStageDescSet) (set : StageDescSet)
  : managedStageDescSet :=
  mkManagedStageDescSet (stageDescSet s ∖ set)
    (foldl (fun m d => delete (stage_id d) m) (stageDescByStageID s) (map_to_list set))
    (stageDescMetaMap s).

Definition set_MarkStageDescAsProtected (s : managedStageDescSet) (stageDesc : Desc)
  (reason : protectionReason) (forceReason : bool) : managedStageDescSet :=
  let meta := match stageDescMetaMap s !! stageDesc.1 with
              | Some (_, meta) => meta
              | None => mkStageMeta false None
              end in
  let meta' := if isProtected meta && negb forceReason then meta
               else mkStageMeta true (Some reason) in
  mkManagedStageDescSet (stageDescSet s) (stageDescByStageID s)
    (<[stageDesc.1 := (stageDesc.2, meta')]> (stageDescMetaMap s)).

Definition set_GetProtectedStageDescSetByReason (s : managedStageDescSet)
  : gmap (option protectionReason) StageDescSet :=
  map_fold (fun p '(d, meta) byReason =>
    if isProtected meta
    then <[reasonOf meta := <[p := d]> (default (∅ : StageDescSet) (byReason !! reasonOf meta))]> byReason
    else byReason) ∅ (stageDescMetaMap s).

Definition set_GetProtectedStageDescSet (s : managedStageDescSet) : StageDescSet :=
  map_fold (fun _ set acc => acc ∪ set) (∅ : StageDescSet)
    (set_GetProtectedStageDescSetByReason s).

Definition set_GetStageDescByStageID (s : managedStageDescSet) (stageID : string)
  : option Desc := stageDescByStageID s !! stageID.

(** * manager.go *)

Record imageMetadata := mkImageMetadata {
  imStageID : string;
  imImageName : string;
  commitList : list string;
  commitListToDelete : list string;
  isNonexistentImage : bool;
  isNonexistentStage : bool;
}.

Record Manager := mkManager {
  managed : managedStageDescSet;
  finalManaged : managedStageDescSet;
  stageIDCustomTagList : gmap string (list string);
  imageMetadataList : list imageMetadata;
}.

Definition NewManager : Manager :=
  mkManager (newManagedStageDescSet ∅ []) (newManagedStageDescSet ∅ []) ∅ [].

Definition upd_managed (m : Manager) (s : managedStageDescSet) : Manager :=
  mkManager s (finalManaged m) (stageIDCustomTagList m) (imageMetadataList m).
Definition upd_final (m : Manager) (s : managedStageDescSet) : Manager :=
  mkManager (managed m) s (stageIDCustomTagList m) (imageMetadataList m).
Definition upd_metadata (m : Manager) (l : list imageMetadata) : Manager :=
  mkManager (managed m) (finalManaged m) (stageIDCustomTagList m) l.
Definition upd_customTags (m : Manager) (t : gmap string (list string)) : Manager :=
  mkManager (managed m) (finalManaged m) t (imageMetadataList m).

Definition GetStageDescByStageID (m : Manager) (stageID : string) : option Desc :=
  set_GetStageDescByStageID (managed m) stageID.
Definition ContainsStageDescByStageID (m : Manager) (stageID : string) : bool :=
  match GetStageDescByStageID m stageID with Some _ => true | None => false end.

Definition newImageMetadata (m : Manager) (imageName stageID : string) : imageMetadata :=
  mkImageMetadata stageID imageName [] [] false (negb (ContainsStageDescByStageID m stageID)).

(** Applies [upd] to the metadata of the image and the stage, the first one of the
    list or else a new one at its end. *)
Fixpoint updateFirst (imageName stageID : string) (new : imageMetadata)
  (upd : imageMetadata -> imageMetadata) (l : list imageMetadata) : list imageMetadata :=
  match l with
  | [] => [upd new]
  | im :: l' =>
      if bool_decide (imImageName im = imageName) && bool_decide (imStageID im = stageID)
      then upd im :: l' else im :: updateFirst imageName stageID new upd l'
  end.

Definition getOrCreateImageMetadata (m : Manager) (imageName stageID : string)
  (upd : imageMetadata -> imageMetadata) : Manager :=
  upd_metadata m
    (updateFirst imageName stageID (newImageMetadata m imageName stageID) upd
       (imageMetadataList m)).

Definition MarkStageDescAsProtected (m : Manager) (d : Desc) (reason : protectionReason)
  (forceReason : bool) : Manager :=
  upd_managed m (set_MarkStageDescAsProtected (managed m) d reason forceReason).

Definition MarkFinalStageDescAsProtected (m : Manager) (d : Desc) (reason : protectionReason)
  (forceReason : bool) : Manager :=
  upd_final m (set_MarkStageDescAsProtected (finalManaged m) d reason forceReason).

Definition MarkStageDescAsProtectedByStageID (m : Manager) (stageID : string)
  (reason : protectionReason) (forceReason : bool) : res Manager :=
  match GetStageDescByStageID m stageID with
  | None => Panic ("stage description " +:+ stageID +:+ " not found")
  | Some d => Ok (MarkStageDescAsProtected m d reason forceReason)
  end.

(** ** What is recorded for the images *)

Definition addCommits (m : gmap string (list string)) (stageID : string) (l : list string)
  : gmap string (list string) :=
  <[stageID := default [] (m !! stageID) ++ l]> m.

Definition addImageCommits (res : ImageMetadataMap) (im : imageMetadata) (l : list string)
  : ImageMetadataMap :=
  <[imImageName im := addCommits (default ∅ (res !! imImageName im)) (imStageID im) l]> res.

Definition GetImageStageIDCommitListToCleanup (m : Manager) : ImageMetadataMap :=
  foldl (fun res im =>
    if isNonexistentImage im || isNonexistentStage im then res
    else addImageCommits res im (commitList im)) ∅ (imageMetadataList m).

Definition GetStageIDCommitListToCleanup (m : Manager) (imageName : string)
  : gmap string (list string) :=
  default ∅ (GetImageStageIDCommitListToCleanup m !! imageName).

Definition GetNonexistentStageIDCommitList (m : Manager) (imageName : string)
  : gmap string (list string) :=
  foldl (fun res im =>
    if negb (isNonexistentStage im) then res
    else if negb (bool_decide (imImageName im = imageName)) then res
    else addCommits res (imStageID im) (commitList im ++ commitListToDelete im))
    ∅ (imageMetadataList m).

Definition GetStageIDCommitListByNonexistentImage (m : Manager) : ImageMetadataMap :=
  foldl (fun res im =>
    if negb (isNonexistentImage im) then res
    else addImageCommits res im (commitList im ++ commitListToDelete im))
    ∅ (imageMetadataList m).

Definition GetStageIDNonexistentCommitList (m : Manager) (imageName : string)
  : gmap string (list string) :=
  foldl (fun res im =>
    if isNonexistentStage im then res
    else if negb (bool_decide (imImageName im = imageName)) then res
    else addCommits res (imStageID im) (commitListToDelete im))
    ∅ (imageMetadataList m).

Definition ForgetDeletedStageDescSet (m : Manager) (set : StageDescSet) : Manager :=
  upd_managed m (DifferenceInPlace (managed m) set).
Definition ForgetDeletedFinalStageDescSet (m : Manager) (set : StageDescSet) : Manager :=
  upd_final m (DifferenceInPlace (finalManaged m) set).
Definition mgr_StageDescSet (m : Manager) : StageDescSet := stageDescSet (managed m).
Definition mgr_FinalStageDescSet (m : Manager) : StageDescSet := stageDescSet (finalManaged m).
Definition GetProtectedStageDescSet (m : Manager) : StageDescSet :=
  set_GetProtectedStageDescSet (managed m).
Definition GetFinalProtectedStageDescSet (m : Manager) : StageDescSet :=
  set_GetProtectedStageDescSet (finalManaged m).
Definition GetProtectedStageDescSetByReason (m : Manager)
  : gmap (option protectionReason) StageDescSet :=
  set_GetProtectedStageDescSetByReason (managed m).
Definition ForgetCustomTagsByStageID (m : Manager) (stageID : string) : Manager :=
  upd_customTags m (delete stageID (stageIDCustomTagList m)).

(** ** Initialisation *)

Section init.
Context {W X : Type} `{!GoQuote, !Nondet}.
Variable storageManager : StorageManager.Manager W.
Abbreviation prog := (prog (Env W X)).

(** [localGit.IsCommitExists]. *)
Variable IsCommitExists : string -> Go.prog W bool.

Definition InitStageDescSet (m : Manager) : prog Manager :=
  set ← GetStageDescSetWithCache storageManager;
  order ← iterate (map_to_list set);
  mret (upd_managed m (newManagedStageDescSet set order)).

Definition InitFinalStageDescSet (m : Manager) : prog Manager :=
  set ← GetFinalStageDescSet storageManager;
  order ← iterate (map_to_list set);
  mret (upd_final m (newManagedStageDescSet set order)).

(** The commits to keep and to delete, with the cache of what exists. *)
Fixpoint splitCommits (commitCache : gmap string bool) (commits toKeep toDelete : list string)
  : prog (gmap string bool * (list string * list string)) :=
  match commits with
  | [] => mret (commitCache, (toKeep, toDelete))
  | commit :: commits' =>
      e ← match commitCache !! commit with
              | Some found => mret (found, commitCache)
              | None =>
                  found ← wrap "check commit %s in local git failed: %w" [FS commit]
                    (call (IsCommitExists commit));
                  mret (found, <[commit := found]> commitCache)
              end;
      if (e.1 : bool) then splitCommits e.2 commits' (toKeep ++ [commit]) toDelete
      else splitCommits e.2 commits' toKeep (toDelete ++ [commit])
  end.

Definition processImageMetadata (imageMetadataByImageName : ImageMetadataMap) (m : Manager)
  : prog Manager :=
  images ← iterate (map_to_list imageMetadataByImageName);
  r ← for_fold images (m, (∅ : gmap string bool)) (fun st im =>
    stages ← iterate (map_to_list im.2);
    for_fold stages st (fun st sc =>
      r ← splitCommits st.2 sc.2 [] [];
      let m' := getOrCreateImageMetadata st.1 im.1 sc.1 (fun x =>
        mkImageMetadata (imStageID x) (imImageName x) (commitList x ++ r.2.1)
          (commitListToDelete x ++ r.2.2) (isNonexistentImage x) (isNonexistentStage x)) in
      mret (m', r.1)));
  mret r.1.

Definition InitImagesMetadata (m : Manager) (projectName : string) (imageNameList : list string)
  : prog Manager :=
  maps ← call (GetAllAndGroupImageMetadataByImageName W (StagesStorage storageManager)
                 projectName imageNameList [WithCache]);
  images ← iterate (map_to_list maps.2);
  m' ← for_fold images m (fun m im =>
    stages ← iterate (map_to_list im.2);
    for_fold stages m (fun m sc =>
      mret (getOrCreateImageMetadata m im.1 sc.1 (fun x =>
        mkImageMetadata (imStageID x) (imImageName x) (commitList x) sc.2 true
          (isNonexistentStage x)))));
  wrap "unable init images metadata: %w" [] (processImageMetadata maps.1 m').

Definition GetCustomTagsMetadata : prog (gmap string (list string)) :=
  ids ← wrap "unable to get stage custom tag metadata IDs: %w" []
    (call (GetStageCustomTagMetadataIDs W (StagesStorage storageManager) [WithCache]));
  with_own (∅ : gmap string (list string))
    (ForEachGetStageCustomTagMetadata storageManager ids (fun _ r =>
       match r with
       | inr err => fail err
       | inl metadata =>
           x ← get_own;
           set_own (x.1, addCommits x.2 (MdStageID metadata) [MdTag metadata])
       end)).

Definition InitCustomTagsMetadata (m : Manager) : prog Manager :=
  tags ← GetCustomTagsMetadata; mret (upd_customTags m tags).

End init.
End StageManager.
