(* ===== verification/AllowList.v ===== *)
(** pkg/cleaning/allow_list: the images that a Kubernetes cluster's workloads use.
    The cluster is a service; the class [KubeAPI] has one operation per listing the
    code asks for. What the code reads of a workload is its namespace, its name, its
    containers and init containers, and of a job its conditions. *)
From S2P Require Import Prelude Go.

Record Container := mkContainer { CName : string; CImage : string }.

Record PodSpec := mkPodSpec { Containers : list Container; InitContainers : list Container }.

Record Workload (S : Type) := mkWorkload { WNamespace : string; WName : string; WSpec : S }.
Arguments mkWorkload {S} _ _ _.
Arguments WNamespace {S} _.
Arguments WName {S} _.
Arguments WSpec {S} _.

(** A condition of a job: its type and its status. *)
Record JobSpec := mkJobSpec { JConditions : list (string * string); JSpec : PodSpec }.

(** The listings in a namespace; a replication controller's template is a pointer. *)
Class KubeAPI (K : Type) := {
  ListPods : string -> prog K (list (Workload PodSpec));
  ListReplicationControllers : string -> prog K (list (Workload (option PodSpec)));
  ListDeployments : string -> prog K (list (Workload PodSpec));
  ListStatefulSets : string -> prog K (list (Workload PodSpec));
  ListDaemonSets : string -> prog K (list (Workload PodSpec));
  ListReplicaSets : string -> prog K (list (Workload PodSpec));
  ListCronJobsV1 : string -> prog K (list (Workload PodSpec));
  ListCronJobsV1beta1 : string -> prog K (list (Workload PodSpec));
  ListJobs : string -> prog K (list (Workload JobSpec));
  (** [apierrors.IsNotFound] *)
  IsNotFound : error -> bool;
}.

Module AllowList.

Record DeployedImage := mkDeployedImage { Name : string; ResourcesNames : list string }.

(** Adds the resources of [n] to the first image of its name, or else adds [n]. *)
Fixpoint appendOne (res : list DeployedImage) (n : DeployedImage) : list DeployedImage :=
  match res with
  | [] => [n]
  | desc :: res' =>
      if bool_decide (Name desc = Name n)
      then mkDeployedImage (Name desc) (ResourcesNames desc ++ ResourcesNames n) :: res'
      else desc :: appendOne res' n
  end.

Definition AppendDeployedImages (deployedImages newDeployedImages : list DeployedImage)
  : list DeployedImage := foldl appendOne deployedImages newDeployedImages.
#[global] Arguments AppendDeployedImages : simpl never.

Definition all_containers (spec : PodSpec) : list Container :=
  Containers spec ++ InitContainers spec.

(** The loop over the containers of one workload. *)
Definition workloadImages (kind : string) {S} (w : Workload S) (spec : PodSpec)
  (images : list DeployedImage) : list DeployedImage :=
  foldl (fun images c =>
    AppendDeployedImages images
      [mkDeployedImage (CImage c)
         ["ns/" +:+ WNamespace w +:+ " " +:+ kind +:+ "/" +:+ WName w +:+
          " container/" +:+ CName c]])
    images (all_containers spec).

Definition workloadsImages (kind : string) (l : list (Workload PodSpec)) : list DeployedImage :=
  foldl (fun images w => workloadImages kind w (WSpec w) images) [] l.

(** A job that has completed or failed. *)
Definition finished (job : JobSpec) : bool :=
  existsb (fun c =>
    (bool_decide (c.1 = "Complete") || bool_decide (c.1 = "Failed")) && bool_decide (c.2 = "True"))
    (JConditions job).

Section cluster.
Context {K : Type} `{!KubeAPI K}.

Definition getPodsImages (ns : string) : prog K (list DeployedImage) :=
  l ← ListPods ns; mret (workloadsImages "pod" l).

Definition getReplicationControllersImages (ns : string) : prog K (list DeployedImage) :=
  l ← ListReplicationControllers ns;
  for_fold l [] (fun images w =>
    match WSpec w with
    | Some spec => mret (workloadImages "rc" w spec images)
    | None => panic "nil pointer dereference"
    end).

Definition getDeploymentsImages (ns : string) : prog K (list DeployedImage) :=
  l ← ListDeployments ns; mret (workloadsImages "deploy" l).

Definition getStatefulSetsImages (ns : string) : prog K (list DeployedImage) :=
  l ← ListStatefulSets ns; mret (workloadsImages "sts" l).

Definition getDaemonSetsImages (ns : string) : prog K (list DeployedImage) :=
  l ← ListDaemonSets ns; mret (workloadsImages "ds" l).

Definition getReplicaSetsImages (ns : string) : prog K (list DeployedImage) :=
  l ← ListReplicaSets ns; mret (workloadsImages "rs" l).

Definition getCronJobsImagesBatchV1 (ns : string) : prog K (list DeployedImage) :=
  l ← ListCronJobsV1 ns; mret (workloadsImages "cronjob" l).

Definition getCronJobsImagesBatchV1beta1 (ns : string) : prog K (list DeployedImage) :=
  l ← ListCronJobsV1beta1 ns; mret (workloadsImages "cronjob" l).

(** Where the fallback fails too, the error of the first query is returned. *)
Definition getCronJobsImages (ns : string) : prog K (list DeployedImage) :=
  r ← try (getCronJobsImagesBatchV1 ns);
  match r with
  | inl images => mret images
  | inr err =>
      if IsNotFound err then
        r2 ← try (getCronJobsImagesBatchV1beta1 ns);
        match r2 with
        | inl images => mret images
        | inr _ => fail err
        end
      else fail err
  end.

Definition getJobsImages (ns : string) : prog K (list DeployedImage) :=
  l ← ListJobs ns;
  mret (foldl (fun images job =>
    if finished (WSpec job) then images
    else workloadImages "job" job (JSpec (WSpec job)) images) [] l).

Definition DeployedDockerImages (ns : string) : prog K (list DeployedImage) :=
  pods ← wrap "cannot get Pods images: %w" [] (getPodsImages ns);
  let images := AppendDeployedImages [] pods in
  rcs ← wrap "cannot get ReplicationControllers images: %w" []
    (getReplicationControllersImages ns);
  let images := AppendDeployedImages images rcs in
  deploys ← wrap "cannot get Deployments images: %w" [] (getDeploymentsImages ns);
  let images := AppendDeployedImages images deploys in
  stss ← wrap "cannot get StatefulSets images: %w" [] (getStatefulSetsImages ns);
  let images := AppendDeployedImages images stss in
  dss ← wrap "cannot get DaemonSets images: %w" [] (getDaemonSetsImages ns);
  let images := AppendDeployedImages images dss in
  rss ← wrap "cannot get ReplicaSets images: %w" [] (getReplicaSetsImages ns);
  let images := AppendDeployedImages images rss in
  cjs ← wrap "cannot get CronJobs images: %w" [] (getCronJobsImages ns);
  let images := AppendDeployedImages images cjs in
  jobs ← wrap "cannot get Jobs images: %w" [] (getJobsImages ns);
  mret (AppendDeployedImages images jobs).

End cluster.

(** * The names of the images *)

(** Whether an image of a list has the name. *)
Definition names (l : list DeployedImage) : gset string := list_to_set (Name <$> l).

Lemma names_cons d l : names (d :: l) = {[Name d]} ∪ names l.
Proof. done. Qed.

Lemma names_nil : names [] = ∅.
Proof. done. Qed.

Lemma names_appendOne l n : names (appendOne l n) = {[Name n]} ∪ names l.
Proof.
  induction l as [|d l IH]; simpl; [by rewrite names_cons|].
  destruct (bool_decide_reflect (Name d = Name n)) as [E|];
    rewrite !names_cons; simpl; [rewrite E; set_solver|rewrite IH; set_solver].
Qed.

Lemma names_Append l n : names (AppendDeployedImages l n) = names l ∪ names n.
Proof.
  unfold AppendDeployedImages. revert l. induction n as [|x n IH]; intros l; simpl.
  - rewrite names_nil. set_solver.
  - rewrite IH, names_appendOne, names_cons. set_solver.
Qed.

Definition spec_images (spec : PodSpec) : gset string :=
  list_to_set (CImage <$> all_containers spec).

Lemma names_workload kind {S} (w : Workload S) spec l :
  names (workloadImages kind w spec l) = names l ∪ spec_images spec.
Proof.
  unfold workloadImages, spec_images. generalize (all_containers spec). intros cs. revert l.
  induction cs as [|c cs IH]; intros l; simpl; [set_solver|].
  rewrite IH, names_Append, names_cons, names_nil. simpl. set_solver.
Qed.

(** The images of a listing, of which [f] gives the specification where it counts. *)
Definition listed {S} (f : S -> option PodSpec) (l : list (Workload S)) : gset string :=
  ⋃ ((fun w => from_option spec_images ∅ (f (WSpec w))) <$> l).

Lemma names_fold kind {S} (f : S -> option PodSpec) (l : list (Workload S)) images :
  names (foldl (fun images w => match f (WSpec w) with
                                | Some spec => workloadImages kind w spec images
                                | None => images
                                end) images l) = names images ∪ listed f l.
Proof.
  unfold listed. revert images. induction l as [|w l IH]; intros images; simpl; [set_solver|].
  rewrite IH. destruct (f (WSpec w)); simpl; [rewrite names_workload|]; set_solver.
Qed.

Lemma names_workloads kind l : names (workloadsImages kind l) = listed Some l.
Proof.
  unfold workloadsImages. pose proof (names_fold kind Some l []) as H. simpl in H.
  rewrite H, names_nil. set_solver.
Qed.

Definition live (job : JobSpec) : option PodSpec :=
  if finished job then None else Some (JSpec job).

(** What is appended keeps the resources of every image, and one entry per name. *)
Lemma appendOne_NoDup l n : NoDup (Name <$> l) -> NoDup (Name <$> appendOne l n).
Proof.
  induction l as [|d l IH]; simpl; intros H; [apply NoDup_singleton|].
  apply NoDup_cons in H as [H1 H2].
  destruct (bool_decide_reflect (Name d = Name n)); simpl; constructor; auto.
  assert (Name d ∉ names (appendOne l n)) as Hn; [|unfold names in Hn; set_solver].
  rewrite names_appendOne. unfold names. set_solver.
Qed.

Lemma Append_NoDup l n : NoDup (Name <$> l) -> NoDup (Name <$> AppendDeployedImages l n).
Proof.
  unfold AppendDeployedImages. revert l. induction n as [|x n IH]; intros l H; simpl; [done|].
  apply IH, appendOne_NoDup, H.
Qed.

End AllowList.

Module AllowListProps.
Import AllowList.

(** A cluster that answers every request with what it holds, as a function of the
    namespace; [v1] says whether it has the first version of the cron jobs' API. *)
Record Cluster := mkCluster {
  pods : string -> list (Workload PodSpec);
  rcs : string -> list (Workload PodSpec);
  deploys : string -> list (Workload PodSpec);
  stss : string -> list (Workload PodSpec);
  dss : string -> list (Workload PodSpec);
  rss : string -> list (Workload PodSpec);
  cronjobs : string -> list (Workload PodSpec);
  jobs : string -> list (Workload JobSpec);
}.

Definition not_found : error := Errorf "the server could not find the requested resource" [].

(** The names of the images that live workloads of the namespace use. *)
Definition used_images (c : Cluster) (ns : string) : gset string :=
  listed Some (pods c ns) ∪ listed Some (rcs c ns) ∪ listed Some (deploys c ns) ∪
  listed Some (stss c ns) ∪ listed Some (dss c ns) ∪ listed Some (rss c ns) ∪
  listed Some (cronjobs c ns) ∪ listed live (jobs c ns).

Section correct.
Context {K : Type} `{!KubeAPI K} (c : Cluster).

(** The answers of the API are the contents of the cluster, the cron jobs being
    served by one of the two versions. *)
Definition answers (k : K) : Prop :=
  forall ns,
    ListPods ns k = (Ok (pods c ns), k) /\
    ListReplicationControllers ns k =
      (Ok ((fun w => mkWorkload (WNamespace w) (WName w) (Some (WSpec w))) <$> rcs c ns), k) /\
    ListDeployments ns k = (Ok (deploys c ns), k) /\
    ListStatefulSets ns k = (Ok (stss c ns), k) /\
    ListDaemonSets ns k = (Ok (dss c ns), k) /\
    ListReplicaSets ns k = (Ok (rss c ns), k) /\
    (ListCronJobsV1 ns k = (Ok (cronjobs c ns), k) \/
     (exists e, ListCronJobsV1 ns k = (Err e, k) /\ IsNotFound e = true) /\
     ListCronJobsV1beta1 ns k = (Ok (cronjobs c ns), k)) /\
    ListJobs ns k = (Ok (jobs c ns), k).

Lemma rcs_images (l : list (Workload PodSpec)) images (k : K) :
  for_fold ((fun w => mkWorkload (WNamespace w) (WName w) (Some (WSpec w))) <$> l) images
    (fun images w => match WSpec w with
                     | Some spec => mret (workloadImages "rc" w spec images)
                     | None => panic "nil pointer dereference"
                     end) k =
  (Ok (foldl (fun images w => workloadImages "rc" w (WSpec w) images) images l), k).
Proof.
  revert images. induction l as [|w l IH]; intros images; simpl; [done|].
  unfold mbind, prog_bind. simpl. by rewrite IH.
Qed.

Lemma getCronJobsImages_answers k ns :
  answers k -> getCronJobsImages ns k = (Ok (workloadsImages "cronjob" (cronjobs c ns)), k).
Proof.
  intros H. destruct (H ns) as (_ & _ & _ & _ & _ & _ & H' & _).
  unfold getCronJobsImages, getCronJobsImagesBatchV1, getCronJobsImagesBatchV1beta1, mbind,
    prog_bind, try.
  destruct H' as [->|((e & -> & He) & H')]; [done|]. by rewrite He, H'.
Qed.

(** C31: the images found in a cluster that answers are the images that its pods,
    controllers, cron jobs and unfinished jobs name in a container or an init container,
    no other, one entry each: a workload's image is never missed, whichever API version
    serves the cron jobs. *)
Theorem DeployedDockerImages_complete k ns :
  answers k ->
  exists l, DeployedDockerImages ns k = (Ok l, k) /\
    (list_to_set (Name <$> l) : gset string) = used_images c ns /\ NoDup (Name <$> l).
Proof.
  intros H. pose proof (getCronJobsImages_answers k ns H) as Hcron.
  destruct (H ns) as (H1 & H2 & H3 & H4 & H5 & H6 & _ & H8).
  assert (getReplicationControllersImages ns k = (Ok (workloadsImages "rc" (rcs c ns)), k)) as Hrc.
  { unfold getReplicationControllersImages, mbind, prog_bind. rewrite H2. apply rcs_images. }
  unfold DeployedDockerImages, getPodsImages, getDeploymentsImages, getStatefulSetsImages,
    getDaemonSetsImages, getReplicaSetsImages, getJobsImages, wrap, mbind, prog_bind, mret,
    prog_ret.
  rewrite H1, Hrc, H3, H4, H5, H6, Hcron, H8.
  eexists. split; [done|]. split.
    match goal with |- list_to_set (Name <$> ?l) = _ => change (names l = used_images c ns) end.
    rewrite !names_Append.
    rewrite !names_workloads. unfold used_images.
    pose proof (names_fold "job" live (jobs c ns) []) as Hj.
    assert (forall l images, foldl (fun images job => if finished (WSpec job) then images
      else workloadImages "job" job (JSpec (WSpec job)) images) images l =
      foldl (fun images w => match live (WSpec w) with
        | Some spec => workloadImages "job" w spec images | None => images end) images l) as E.
    { induction l as [|j l IH]; intros i; simpl; [done|]. rewrite IH. unfold live.
      by destruct (finished (WSpec j)). }
    rewrite E, Hj. rewrite names_nil. set_solver.
  - repeat apply Append_NoDup. constructor.
Qed.

End correct.

(** ** A cluster whose cron jobs are served by the older version only *)

Definition served {S} (f : Cluster -> string -> list (Workload S)) (ns : string)
  : prog Cluster (list (Workload S)) := fun c => (Ok (f c ns), c).

#[local] Instance old_cluster : KubeAPI Cluster := {|
  ListPods := served pods;
  ListReplicationControllers := served (fun c ns =>
    (fun w => mkWorkload (WNamespace w) (WName w) (Some (WSpec w))) <$> rcs c ns);
  ListDeployments := served deploys;
  ListStatefulSets := served stss;
  ListDaemonSets := served dss;
  ListReplicaSets := served rss;
  ListCronJobsV1 ns := fail not_found;
  ListCronJobsV1beta1 := served cronjobs;
  ListJobs := served jobs;
  IsNotFound e := bool_decide (e = not_found);
|}.

Definition app_spec (image : string) : PodSpec :=
  mkPodSpec [mkContainer "app" image] [mkContainer "init" "busybox"].

Definition example_cluster : Cluster := mkCluster
  (fun ns => [mkWorkload ns "p" (app_spec "r:a")]) (fun ns => [mkWorkload ns "rc" (app_spec "r:b")])
  (fun ns => []) (fun ns => []) (fun ns => []) (fun ns => [])
  (fun ns => [mkWorkload ns "cj" (app_spec "r:c")])
  (fun ns => [mkWorkload ns "done" (mkJobSpec [("Complete", "True")] (app_spec "r:d"));
              mkWorkload ns "live" (mkJobSpec [("Complete", "False")] (app_spec "r:e"))]).

Lemma DeployedDockerImages_complete_witness :
  exists l, DeployedDockerImages "prod" example_cluster = (Ok l, example_cluster) /\
    (list_to_set (Name <$> l) : gset string) = used_images example_cluster "prod" /\
    NoDup (Name <$> l).
Proof.
  apply (DeployedDockerImages_complete example_cluster example_cluster "prod").
  intros ns. repeat split; try reflexivity. right. split; [|reflexivity].
  exists not_found. split; [reflexivity|vm_compute; reflexivity].
Defined.

Example finished_job_ignored :
  match DeployedDockerImages "prod" example_cluster with
  | (Ok l, _) => Name <$> l = ["r:a"; "busybox"; "r:b"; "r:c"; "r:e"]
  | _ => False
  end.
Proof. vm_compute. reflexivity. Qed.

End AllowListProps.
