(* ===== verification/Cleanup.v ===== *)
(** pkg/cleaning: what a cleanup deletes. [run] reads the stages and their records,
    marks the stages that some policy keeps, marks the relatives of the marked stages,
    and deletes the rest with the records that nothing needs any more; [Purge] deletes
    everything. This file holds the definitions; the theorems are in CleanupProtect.v and
    CleanupProps.v. What is printed is not modelled. *)
From S2P Require Import Prelude Go Slug Image Registry StagesStorage RepoStorage Parallel.
From S2P Require Import StorageManager StageManager AllowList.
From Stdlib Require Import SpecFloat.

(** git_history_based_cleanup as the cleanup sees it: the references to scan, and the
    scan, which tells for the stages and commits it is given which stages are reached and
    on which commits. *)
Class GitHistory (W : Type) := {
  Reference : Type;
  KeepPolicy : Type;
  PlainOpen : prog W unit;
  IsCommitExists : string -> prog W bool;
  ReferencesToScan : list KeepPolicy -> prog W (list Reference);
  ScanReferencesHistory : list Reference -> gmap string (list string) ->
    prog W (list string * gmap string (list string));
}.

(** The clock, and [util.ExcludeFromStringArray], which is third-party code. *)
Class CleaningLibrary (W : Type) := {
  time_Now : prog W Z;
  ExcludeFromStringArray : list string -> list string -> list string;
}.

Module Cleanup.
Import StagesStorage StorageManager StageManager.

(** * Errors of deletions *)

Definition dockerHubUnauthorizedErrPrefix : string := "docker hub unauthorized: ".
Definition gitHubPackagesUnauthorizedErrPrefix : string := "gitHub packages unauthorized: ".
Definition gitHubPackagesForbiddenErrPrefix : string := "gitHub packages forbidden: ".
Definition ImageDeletionFailedDueToUsedByContainerErrorTip : string :=
  "Use --force option to remove all containers that are based on deleting werf docker images".

Section errors.
Context `{!GoQuote}.

Definition IsDockerHubUnauthorizedErr (err : error) : bool :=
  Str.Contains (err_text err) dockerHubUnauthorizedErrPrefix.
Definition IsGitHubPackagesUnauthorizedErr (err : error) : bool :=
  Str.Contains (err_text err) gitHubPackagesUnauthorizedErrPrefix.
Definition IsGitHubPackagesForbiddenErr (err : error) : bool :=
  Str.Contains (err_text err) gitHubPackagesForbiddenErrPrefix.
Definition IsImageDeletionFailedDueToUsingByContainerErr (err : error) : bool :=
  Str.HasSuffix (err_text err) ImageDeletionFailedDueToUsedByContainerErrorTip.

(** The error that ends the cleanup, or none where the deletion is only warned of. *)
Definition handleDeletionError (err : error) : option error :=
  if IsDockerHubUnauthorizedErr err then
    Some (Wrapf "%w

You should specify Docker Hub token or username and password to remove tags with Docker Hub API.
Check --repo-docker-hub-token, --repo-docker-hub-username and --repo-docker-hub-password options.
Be aware that access to the resource is forbidden with personal access token." [] err)
  else if IsGitHubPackagesUnauthorizedErr err || IsGitHubPackagesForbiddenErr err then
    Some (Wrapf "%w

You should specify a token with delete:packages and read:packages scopes to remove package versions.
Check --repo-github-token option.
Be aware that the token provided to GitHub Actions workflow is not enough to remove package versions." [] err)
  else if IsImageDeletionFailedDueToUsingByContainerErr err then Some err
  else if Str.Contains (err_text err) "UNAUTHORIZED" || Str.Contains (err_text err) "UNSUPPORTED"
  then Some err
  else None.
End errors.

(** * The deletions shared with the purge *)

Definition countStageIDCommitList (m : gmap string (list string)) : nat :=
  map_fold (fun _ commits n => n + length commits) 0 m.

Section deletions.
Context {W X : Type} `{!GoQuote, !Nondet}.
Variable storageManager : StorageManager.Manager W.
Variable dryRun : bool.
Abbreviation prog := (prog (Env W X)).
Abbreviation st := (StagesStorage storageManager).
Abbreviation projectName := (ProjectName storageManager).

(** What every callback does with the error of its deletion. *)
Definition onDelete (err : option error) : prog unit :=
  match err with
  | None => mret tt
  | Some err => match handleDeletionError err with
                | Some err => fail err
                | None => mret tt
                end
  end.

Definition deleteStageDescSet (options : ForEachDeleteStageOptions) (set : StageDescSet)
  (isFinal : bool) : prog unit :=
  if dryRun then mret tt
  else if isFinal then ForEachDeleteFinalStage storageManager options set (fun _ => onDelete)
  else ForEachDeleteStage storageManager options set (fun _ => onDelete).

Definition deleteManagedImages (managedImages : list string) : prog unit :=
  if dryRun then mret tt
  else ForEachRmManagedImage storageManager managedImages (fun _ => onDelete).

Definition purgeManagedImages : prog unit :=
  managedImages ← call (GetManagedImages W st projectName [WithCache]);
  deleteManagedImages managedImages.

Definition deleteImageMetadata (imageNameOrID : string)
  (stageIDCommitList : gmap string (list string)) : prog unit :=
  if dryRun then mret tt
  else ForEachRmImageMetadata storageManager imageNameOrID stageIDCommitList
         (fun _ _ => onDelete).

Definition purgeImageMetadata : prog unit :=
  r ← call (GetAllAndGroupImageMetadataByImageName W st projectName [] [WithCache]);
  images ← iterate (map_to_list r.2);
  for_each images (fun im => deleteImageMetadata im.1 im.2).

Definition deleteImportsMetadata (importMetadataIDs : list string) : prog unit :=
  if dryRun then mret tt
  else ForEachRmImportMetadata storageManager importMetadataIDs (fun _ => onDelete).

Definition deleteCustomTags (customTagList : list string) : prog unit :=
  if dryRun then mret tt
  else ForEachDeleteStageCustomTag storageManager customTagList (fun _ => onDelete).

End deletions.

(** * Purge *)

Section purge.
Context {W X : Type} `{!GoQuote, !Nondet}.
Variable storageManager : StorageManager.Manager W.
Variables RmContainersThatUseWerfImages dryRun : bool.
Abbreviation prog := (prog (Env W X)).

Definition purge_options : ForEachDeleteStageOptions :=
  mkForEachDeleteStageOptions (mkDeleteImageOptions true)
    (mkFilterOptions false RmContainersThatUseWerfImages RmContainersThatUseWerfImages).

Definition purge_deleteCustomTags : prog unit :=
  stageIDCustomTagList ← GetCustomTagsMetadata storageManager;
  order ← iterate (map_to_list stageIDCustomTagList);
  deleteCustomTags storageManager dryRun (x ← order; x.2).

Definition Purge : prog unit :=
  stageDescSet ← GetStageDescSetWithCache storageManager;
  deleteStageDescSet storageManager dryRun purge_options stageDescSet false ;;
  importMetadataIDs ← call (GetImportMetadataIDs W (StagesStorage storageManager)
                              (ProjectName storageManager) [WithCache]);
  deleteImportsMetadata storageManager dryRun importMetadataIDs ;;
  purgeManagedImages storageManager dryRun ;;
  purgeImageMetadata storageManager dryRun ;;
  purge_deleteCustomTags ;;
  match FinalStagesStorage storageManager with
  | None => mret tt
  | Some _ =>
      finalDescSet ← GetFinalStageDescSet storageManager;
      deleteStageDescSet storageManager dryRun purge_options finalDescSet true
  end.
End purge.

(** * What is deployed *)

Record ContextResources := mkContextResources {
  crContextName : string;
  crResourcesNames : list string;
}.

Record DeployedDockerImage := mkDeployedDockerImage {
  DName : string;
  DContextResources : list ContextResources;
}.

(** Adds the resources to the first entry of the context, or else a new entry. *)
Fixpoint addContextResources (contextName : string) (names : list string)
  (l : list ContextResources) : list ContextResources :=
  match l with
  | [] => [mkContextResources contextName names]
  | cr :: l' =>
      if bool_decide (crContextName cr = contextName)
      then mkContextResources (crContextName cr) (crResourcesNames cr ++ names) :: l'
      else cr :: addContextResources contextName names l'
  end.

Fixpoint appendContextImage (contextName : string) (res : list DeployedDockerImage)
  (i : AllowList.DeployedImage) : list DeployedDockerImage :=
  match res with
  | [] => [mkDeployedDockerImage (AllowList.Name i)
             [mkContextResources contextName (AllowList.ResourcesNames i)]]
  | desc :: res' =>
      if bool_decide (DName desc = AllowList.Name i)
      then mkDeployedDockerImage (DName desc)
             (addContextResources contextName (AllowList.ResourcesNames i)
                (DContextResources desc)) :: res'
      else desc :: appendContextImage contextName res' i
  end.

(** The entries of the argument are copied but their resources are shared; the
    callers drop the argument. *)
Definition AppendContextDeployedDockerImages (l : list DeployedDockerImage)
  (contextName : string) (images : list AllowList.DeployedImage) : list DeployedDockerImage :=
  foldl (appendContextImage contextName) l images.

(** A context and its client, whose calls are programs over the world. *)
Record ContextClient (W : Type) := mkContextClient {
  ContextName : string;
  Client : KubeAPI W;
}.
Arguments ContextName {W} _.
Arguments Client {W} _.

(** * Hours since a creation *)

Definition Hour : Z := 3600000000000%Z.

(** [Time.Sub], which saturates. *)
Definition time_Sub (t u : Z) : Z := Z.max int64_min (Z.min int64_max (t - u)).

(** [Duration.Hours], in float64. *)
Definition Hours (d : Z) : spec_float :=
  SFadd 53 1024 (RepoStorage.f64_of_Z (Z.quot d Hour))
    (SFdiv 53 1024 (RepoStorage.f64_of_Z (Z.rem d Hour)) (RepoStorage.f64_of_Z Hour)).

(** [time.Since(info.GetCreatedAt()).Hours() <= float64(n)]. *)
Definition builtWithin (now : Z) (n : Z) (info : Image.Info) : bool :=
  SFleb (Hours (time_Sub now (Image.GetCreatedAt info))) (RepoStorage.f64_of_Z n).

(** * The cleanup *)

Record MetaCleanup (P : Type) := mkMetaCleanup {
  DisableCleanup : bool;
  DisableKubernetesBasedPolicy : bool;
  DisableGitHistoryBasedPolicy : bool;
  DisableBuiltWithinLastNHoursPolicy : bool;
  KeepImagesBuiltWithinLastNHours : Z;
  KeepPolicies : list P;
}.
Arguments DisableCleanup {P} _.
Arguments DisableKubernetesBasedPolicy {P} _.
Arguments DisableGitHistoryBasedPolicy {P} _.
Arguments DisableBuiltWithinLastNHoursPolicy {P} _.
Arguments KeepImagesBuiltWithinLastNHours {P} _.
Arguments KeepPolicies {P} _.

Record CleanupOptions (W P : Type) := mkCleanupOptions {
  ImageNameList : list string;
  KubernetesContextClients : list (ContextClient W);
  KubernetesNamespaceRestrictionByContext : gmap string string;
  WithoutKube : bool;
  ConfigMetaCleanup : MetaCleanup P;
  KeepStagesBuiltWithinLastNHours : option Z;
  DryRun : bool;
  ParallelTasksLimit : Z;
  KeepList : gset string;
}.
Arguments ImageNameList {W P} _.
Arguments KubernetesContextClients {W P} _.
Arguments KubernetesNamespaceRestrictionByContext {W P} _.
Arguments WithoutKube {W P} _.
Arguments ConfigMetaCleanup {W P} _.
Arguments KeepStagesBuiltWithinLastNHours {W P} _.
Arguments DryRun {W P} _.
Arguments ParallelTasksLimit {W P} _.
Arguments KeepList {W P} _.

(** The fields of the cleanup manager that change. *)
Record CleanupState := mkCleanupState {
  stageManager : Manager;
  checksumSourceStageIDs : gmap string (list string);
  sourceStageIDImportIDs : gmap string (list string);
}.

Definition newCleanupState : CleanupState := mkCleanupState NewManager ∅ ∅.

Section cleanup.
Context {W : Type} `{!GoQuote, !Nondet, !GitHistory W, !CleaningLibrary W}.
Variable StorageManager : StorageManager.Manager W.
Variable options : CleanupOptions W KeepPolicy.
Abbreviation prog := (prog (Env W CleanupState)).
Abbreviation meta := (ConfigMetaCleanup options).

Definition manager : prog Manager := s ← get_own; mret (stageManager s).

Definition update (f : Manager -> Manager) : prog unit :=
  s ← get_own;
  set_own (mkCleanupState (f (stageManager s)) (checksumSourceStageIDs s)
             (sourceStageIDImportIDs s)).

Definition protect (d : Desc) (reason : protectionReason) : prog unit :=
  update (fun m => MarkStageDescAsProtected m d reason false).

Definition protectFinal (d : Desc) (reason : protectionReason) : prog unit :=
  update (fun m => MarkFinalStageDescAsProtected m d reason false).

Definition init : prog unit :=
  m ← manager;
  m1 ← InitStageDescSet StorageManager m;
  m2 ← match FinalStagesStorage StorageManager with
       | None => mret m1
       | Some _ => InitFinalStageDescSet StorageManager m1
       end;
  m3 ← wrap "unable to init images metadata: %w" []
    (InitImagesMetadata StorageManager IsCommitExists m2 (ProjectName StorageManager)
       (ImageNameList options));
  m4 ← wrap "unable to init custom tags metadata: %w" []
    (InitCustomTagsMetadata StorageManager m3);
  update (fun _ => m4).

(** ** Policies that keep stages *)

Definition markWhitelistStagesAsProtected : prog unit :=
  if bool_decide (KeepList options = ∅) then mret tt
  else
    m ← manager;
    order ← iterate (map_to_list (mgr_StageDescSet m));
    for_each order (fun d =>
      if bool_decide (Image.Tag (Image.SDInfo d.2) ∈ KeepList options)
      then protect d ProtectionReasonKeepList else mret tt).

Definition deployedDockerImages : prog (list DeployedDockerImage) :=
  for_fold (KubernetesContextClients options) [] (fun images contextClient =>
    contextDeployedImages ← wrap "cannot get deployed imagesStageList: %w" []
      (call (AllowList.DeployedDockerImages (KubeAPI0 := Client contextClient)
               (Image.label (KubernetesNamespaceRestrictionByContext options)
                  (ContextName contextClient))));
    mret (AppendContextDeployedDockerImages images (ContextName contextClient)
            contextDeployedImages)).

Definition isDeployed (deployed : list DeployedDockerImage) (name : string) : bool :=
  existsb (fun d => bool_decide (DName d = name)) deployed.

(** [handleTagFunc], with the handled stages. *)
Definition handleTagFunc (deployed : list DeployedDockerImage) (handled : gset string)
  (tag stageID : string) (f : prog unit) : prog (gset string) :=
  if isDeployed deployed (Address (StagesStorage StorageManager) +:+ ":" +:+ tag)
     && negb (bool_decide (stageID ∈ handled))
  then f ;; mret ({[stageID]} ∪ handled)
  else mret handled.

Definition skipStageIDsThatAreUsedInKubernetes (deployed : list DeployedDockerImage)
  : prog unit :=
  m ← manager;
  order ← iterate (map_to_list (mgr_StageDescSet m));
  handled ← for_fold order (∅ : gset string) (fun handled d =>
    handleTagFunc deployed handled (stage_id d) (stage_id d)
      (protect d ProtectionReasonKubernetesBasedPolicy));
  m ← manager;
  tags ← iterate (map_to_list (stageIDCustomTagList m));
  for_fold tags handled (fun handled st =>
    for_fold st.2 handled (fun handled customTag =>
      handleTagFunc deployed handled customTag st.1
        (m ← manager;
         match GetStageDescByStageID m st.1 with
         | Some d => protect d ProtectionReasonKubernetesBasedPolicy
         | None => update (fun m => ForgetCustomTagsByStageID m st.1)
         end))) ;;
  mret tt.

Definition skipFinalStageIDsThatAreUsedInKubernetes (deployed : list DeployedDockerImage)
  : prog unit :=
  match FinalStagesStorage StorageManager with
  | None =>
      (** the set is empty where there is no final storage *)
      mret tt
  | Some final =>
      m ← manager;
      order ← iterate (map_to_list (mgr_FinalStageDescSet m));
      for_fold order (∅ : gset string) (fun handled d =>
        if isDeployed deployed (Address final +:+ ":" +:+ stage_id d)
           && negb (bool_decide (stage_id d ∈ handled))
        then protectFinal d ProtectionReasonKubernetesBasedPolicy ;;
             mret ({[stage_id d]} ∪ handled)
        else mret handled) ;;
      mret tt
  end.

Definition keepHours : Z :=
  match KeepStagesBuiltWithinLastNHours options with
  | Some n => n
  | None => KeepImagesBuiltWithinLastNHours meta
  end.

(** The infos whose age counts: those of the platforms of an index. *)
Definition agedInfos (d : Desc) : list Image.Info :=
  if Image.IsIndex (Image.SDInfo d.2) then Image.Index (Image.SDInfo d.2)
  else [Image.SDInfo d.2].

Definition keepRecentlyBuilt : prog unit :=
  if DisableBuiltWithinLastNHoursPolicy meta || (keepHours =? 0)%Z then mret tt
  else
    m ← manager;
    order ← iterate (map_to_list (mgr_StageDescSet m));
    for_each order (fun d =>
      recent ← for_fold (agedInfos d) false (fun recent info =>
        now ← call time_Now; mret (recent || builtWithin now keepHours info));
      if (recent : bool) then protect d ProtectionReasonBuiltWithinLastNHoursPolicy
      else mret tt).

(** ** Records of images *)

(** The commits to delete of the stages of an image. *)
Definition commitsToDelete (toCleanup hit : gmap string (list string))
  (stageIDsToUnlink : list string) : gmap string (list string) :=
  map_imap (fun stageID commits =>
    Some (if bool_decide (stageID ∈ stageIDsToUnlink) then commits
          else match hit !! stageID with
               | Some hitCommits => ExcludeFromStringArray commits hitCommits
               | None => commits
               end)) toCleanup.

Definition deleteIfAny (imageName : string) (l : gmap string (list string)) : prog unit :=
  if countStageIDCommitList l =? 0 then mret tt
  else deleteImageMetadata StorageManager (DryRun options) imageName l.

Definition cleanupImageMetadata (imageName : string) (hit : gmap string (list string))
  (stageIDsToUnlink : list string) : prog unit :=
  m ← manager;
  (if negb (countStageIDCommitList hit =? 0) || negb (length stageIDsToUnlink =? 0)
   then deleteIfAny imageName
          (commitsToDelete (GetStageIDCommitListToCleanup m imageName) hit stageIDsToUnlink)
   else mret tt) ;;
  deleteIfAny imageName (GetNonexistentStageIDCommitList m imageName) ;;
  deleteIfAny imageName (GetStageIDNonexistentCommitList m imageName).

Definition cleanupNonexistentImageMetadata : prog unit :=
  m ← manager;
  let l := GetStageIDCommitListByNonexistentImage m in
  if map_fold (fun _ x n => n + countStageIDCommitList x) 0 l =? 0 then mret tt
  else
    images ← iterate (map_to_list l);
    for_each images (fun im =>
      deleteImageMetadata StorageManager (DryRun options) im.1 im.2).

Definition handleSavedStageIDs (savedStageIDs : list string) : prog unit :=
  for_each savedStageIDs (fun stageID =>
    s ← get_own;
    m ← lift (MarkStageDescAsProtectedByStageID (stageManager s) stageID
                ProtectionReasonGitPolicy true);
    update (fun _ => m)).

(** The task of one image. *)
Definition scanImage (references : list Reference)
  (pair : string * gmap string (list string)) : prog unit :=
  let '(imageName, stageIDCommitList) := pair in
  r ← (if countStageIDCommitList stageIDCommitList =? 0 then mret ([], ∅)
       else call (ScanReferencesHistory references stageIDCommitList));
  stageIDs ← iterate (map_to_list stageIDCommitList).*1;
  let stageIDToUnlink := filter (fun stageID => stageID ∉ r.1) stageIDs in
  handleSavedStageIDs r.1 ;;
  cleanupImageMetadata imageName r.2 stageIDToUnlink.

Definition gitHistoryBasedCleanup : prog unit :=
  wrap "unable to open git repo: %w" []
    (wrap "git plain open failed: %w" [] (call PlainOpen)) ;;
  references ← call (ReferencesToScan (KeepPolicies meta));
  m ← manager;
  imagePairs ← iterate (map_to_list (GetImageStageIDCommitListToCleanup m));
  sched ← next_schedule;
  wrap "git history-based cleanup failed: %w" []
    (Parallel.DoTasks (fun taskId => pair ← index imagePairs taskId; scanImage references pair)
       sched (length imagePairs) (ParallelTasksLimit options)) ;;
  wrap "ubable to cleanup nonexistent image metadata: %w" [] cleanupNonexistentImageMetadata.

(** ** Relatives of the kept stages *)

(** The first description of a list with the digest. *)
Fixpoint findDigest (digest : string) (l : list Desc) : res (option Desc) :=
  match l with
  | [] => Ok None
  | d :: l' =>
      x ← Image.GetDigest (Image.SDInfo d.2);
      if bool_decide (x = digest) then Ok (Some d) else findDigest digest l'
  end.

(** The first description of a list that satisfies the test. *)
Fixpoint findDesc (test : Desc -> bool) (l : list Desc) : option Desc :=
  match l with
  | [] => None
  | d :: l' => if test d then Some d else findDesc test l'
  end.

Definition add (d : Desc) (set : StageDescSet) : StageDescSet := <[d.1 := d.2]> set.

(** Marks a relative, if there is one, and adds it to the set. *)
Definition addRelative (relative : option Desc) (reason : protectionReason)
  (current : StageDescSet) : prog StageDescSet :=
  match relative with
  | None => mret current
  | Some d => protect d reason ;; mret (add d current)
  end.

Definition platformImages (target : Image.StageDesc) : prog StageDescSet :=
  for_fold (Image.Index (Image.SDInfo target)) (∅ : StageDescSet) (fun set info =>
    digest ← lift (Image.GetDigest info);
    if bool_decide (digest = "") then mret set
    else
      m ← manager;
      order ← iterate (map_to_list (mgr_StageDescSet m));
      found ← lift (findDigest digest order);
      addRelative found ProtectionReasonImageIndexPlatform set).

Definition importAndDependencySources (d : Desc) (current : StageDescSet)
  : prog StageDescSet :=
  labels ← iterate (map_to_list (Image.Labels (Image.SDInfo d.2)));
  for_fold labels current (fun current lv =>
    if Str.HasPrefix lv.1 Image.WerfImportChecksumLabelPrefix then
      s ← get_own;
      for_fold (default [] (checksumSourceStageIDs s !! lv.2)) current (fun current sourceStageID =>
        if Str.HasPrefix sourceStageID Image.WerfImportSourceExternalImagePrefix then mret current
        else
          m ← manager;
          addRelative (GetStageDescByStageID m sourceStageID) ProtectionReasonImportSource current)
    else if Str.HasPrefix lv.1 Image.WerfDependencySourceStageIDLabelPrefix then
      m ← manager;
      addRelative (GetStageDescByStageID m lv.2) ProtectionReasonDependencySource current
    else mret current).

Definition parents (stageDescSet : StageDescSet) (d : Desc) (current : StageDescSet)
  : prog StageDescSet :=
  order ← iterate (map_to_list stageDescSet);
  current ← addRelative
    (findDesc (fun x => bool_decide (Image.ParentID (Image.SDInfo d.2) = Image.ID (Image.SDInfo x.2)))
       order) ProtectionReasonAncestor current;
  m ← manager;
  addRelative (GetStageDescByStageID m
                 (Image.label (Image.Labels (Image.SDInfo d.2)) Image.WerfParentStageID))
    ProtectionReasonAncestor current.

Definition relatives (stageDescSet : StageDescSet) (withSources : bool) (d : Desc)
  (current : StageDescSet) : prog StageDescSet :=
  current ← (if withSources then importAndDependencySources d current else mret current);
  parents stageDescSet d current.

(** One pass over a slice of the current set, which the pass removes from it. *)
Definition pass (stageDescSet : StageDescSet) (withSources : bool) (slice : list Desc)
  (st : StageDescSet * StageDescSet) : prog (StageDescSet * StageDescSet) :=
  for_fold slice st (fun st d =>
    let current := delete d.1 st.1 in
    if bool_decide (is_Some (st.2 !! d.1)) then mret (current, st.2)
    else
      current ← relatives stageDescSet withSources d current;
      mret (current, add d st.2)).

Fixpoint passes (fuel : nat) (stageDescSet : StageDescSet) (withSources : bool)
  (st : StageDescSet * StageDescSet) : prog StageDescSet :=
  match fuel with
  | 0 => panic "out of fuel"
  | S fuel =>
      if bool_decide (st.1 = ∅) then mret st.2
      else
        slice ← iterate (map_to_list st.1);
        st ← pass stageDescSet withSources slice st;
        passes fuel stageDescSet withSources st
  end.

(** Returns the handled set; every pass but the last two handles a stage. *)
Definition protectRelativeStageDescSetByStageDesc (target : Desc) (withSources : bool)
  (handled : StageDescSet) : prog StageDescSet :=
  targets ← (if Image.IsIndex (Image.SDInfo target.2) then platformImages target.2
             else mret (add target ∅));
  m ← manager;
  let set := mgr_StageDescSet m in
  passes (size (targets ∪ set) + 2) set withSources (targets, handled).

Definition protectRelatives : prog unit :=
  m ← manager;
  byReason ← iterate (map_to_list (GetProtectedStageDescSetByReason m));
  for_fold byReason (∅ : StageDescSet) (fun handled rs =>
    let withSources := negb (bool_decide (rs.1 = Some ProtectionReasonGitPolicy)) in
    order ← iterate (map_to_list rs.2);
    for_fold order handled (fun handled d =>
      protectRelativeStageDescSetByStageDesc d withSources handled)) ;;
  mret tt.

(** ** Deletion of what is not kept *)

Definition delete_options : ForEachDeleteStageOptions :=
  mkForEachDeleteStageOptions (mkDeleteImageOptions false) (mkFilterOptions true false false).

Definition deleteStages (set : StageDescSet) (isFinal : bool) : prog unit :=
  deleteStageDescSet StorageManager (DryRun options) delete_options set isFinal.

Definition cleanup_deleteImportsMetadata (ids : list string) : prog unit :=
  deleteImportsMetadata StorageManager (DryRun options) ids.

Definition initImportsMetadata : prog unit :=
  s ← get_own;
  set_own (mkCleanupState (stageManager s) ∅ ∅) ;;
  ids ← call (GetImportMetadataIDs W (StagesStorage StorageManager)
                (ProjectName StorageManager) [WithCache]);
  ForEachGetImportMetadata StorageManager ids (fun metadataID r =>
    match r with
    | inr err => fail err
    | inl None =>
        wrap "unable to delete import metadata %s: %w" [FS metadataID]
          (cleanup_deleteImportsMetadata [metadataID])
    | inl (Some metadata) =>
        s ← get_own;
        set_own (mkCleanupState (stageManager s)
          (addCommits (checksumSourceStageIDs s) (Checksum metadata) [SourceStageID metadata])
          (addCommits (sourceStageIDImportIDs s) (SourceStageID metadata)
             [ImportSourceID metadata]))
    end).

Definition deleteUnusedCustomTags : prog unit :=
  m ← manager;
  order ← iterate (map_to_list (stageIDCustomTagList m));
  let customTagListToDelete :=
    x ← order; if ContainsStageDescByStageID m x.1 then [] else x.2 in
  match customTagListToDelete with
  | [] => mret tt
  | _ => deleteCustomTags StorageManager (DryRun options) customTagListToDelete
  end.

Definition deleteUnusedImportsMetadata : prog unit :=
  s ← get_own;
  order ← iterate (map_to_list (sourceStageIDImportIDs s));
  let protected := map_to_list (GetProtectedStageDescSet (stageManager s)) in
  let importMetadataIDsToDelete :=
    x ← order; if existsb (fun d => bool_decide (x.1 = stage_id d)) protected then [] else x.2 in
  match importMetadataIDsToDelete with
  | [] => mret tt
  | _ => cleanup_deleteImportsMetadata importMetadataIDsToDelete
  end.

Definition deleteUnprotected : prog unit :=
  m ← manager;
  let toDelete := mgr_StageDescSet m ∖ GetProtectedStageDescSet m in
  if bool_decide (toDelete = ∅) then mret tt
  else deleteStages toDelete false ;;
       update (fun m => ForgetDeletedStageDescSet m toDelete).

Definition cleanupUnusedStages : prog unit :=
  wrap "unable to init imports metadata: %w" [] initImportsMetadata ;;
  protectRelatives ;;
  deleteUnprotected ;;
  wrap "unable to cleanup custom tags metadata: %w" [] deleteUnusedCustomTags ;;
  wrap "unable to cleanup imports metadata: %w" [] deleteUnusedImportsMetadata.

Definition cleanupFinalStages : prog unit :=
  m ← manager;
  order ← iterate (map_to_list (mgr_FinalStageDescSet m));
  for_each order (fun final =>
    if existsb (fun d => Image.IsEqual (Image.SDStageID d.2) (Image.SDStageID final.2))
         (map_to_list (mgr_StageDescSet m))
    then mret tt else protectFinal final ProtectionReasonNotFoundInRepo) ;;
  m ← manager;
  let toDelete := mgr_FinalStageDescSet m ∖ GetFinalProtectedStageDescSet m in
  if bool_decide (toDelete = ∅) then mret tt
  else deleteStages toDelete true ;;
       update (fun m => ForgetDeletedFinalStageDescSet m toDelete).

(** ** The whole cleanup *)

Definition kubernetesPolicy : prog unit :=
  if WithoutKube options || DisableKubernetesBasedPolicy meta then mret tt
  else match KubernetesContextClients options with
  | [] => fail (Errorf "no kubernetes configs found to skip images being used in the Kubernetes, pass --without-kube option (or WERF_WITHOUT_KUBE env var) to suppress this error" [])
  | _ =>
      deployed ← wrap "error getting deployed docker images names from Kubernetes: %w" []
        deployedDockerImages;
      skipStageIDsThatAreUsedInKubernetes deployed ;;
      skipFinalStageIDsThatAreUsedInKubernetes deployed
  end.

Definition gitPolicy : prog unit :=
  if DisableGitHistoryBasedPolicy meta
  then purgeImageMetadata StorageManager (DryRun options)
  else gitHistoryBasedCleanup.

(** [run] once the stages and their records are known. *)
Definition runAfterInit : prog unit :=
  kubernetesPolicy ;;
  gitPolicy ;;
  keepRecentlyBuilt ;;
  markWhitelistStagesAsProtected ;;
  cleanupUnusedStages ;;
  match FinalStagesStorage StorageManager with
  | None => mret tt
  | Some _ => cleanupFinalStages
  end ;;
  try (call (PostLastCleanupRecord W (StagesStorage StorageManager)
               (ProjectName StorageManager))) ;;
  mret tt.

Definition run : prog unit :=
  if DisableCleanup meta then
    purgeManagedImages StorageManager (DryRun options) ;;
    purgeImageMetadata StorageManager (DryRun options)
  else init ;; runAfterInit.

End cleanup.
End Cleanup.
