(* ===== verification/ManagerFacts.v ===== *)
(** What the programs of the storage manager keep. A relation over the storages' own
    world that every operation they call keeps, they keep; and what they leave of their
    caller's own state. *)
From S2P Require Import Prelude Go Slug Image Registry StagesStorage RepoStorage Parallel.
From S2P Require Import StorageManager StageManager.

(** The relation that [R] gives through a projection of the world. *)
Definition on {A B} (f : A -> B) (R : B -> B -> Prop) : A -> A -> Prop :=
  fun x y => R (f x) (f y).

#[export] Instance on_PreOrder {A B} (f : A -> B) (R : B -> B -> Prop) `{!PreOrder R} :
  PreOrder (on f R).
Proof. split; unfold on; [intros ?; reflexivity|intros ???; apply transitivity]. Qed.

#[export] Hint Extern 5 (PreOrder _) => typeclasses eauto : werf.

Module ManagerFacts.
Import StagesStorage StorageManager.

(** The operations of a storage that only read it keep [R]. *)
Record ReadsKeep {W} (R : W -> W -> Prop) (st : Storage W) : Prop := {
  keep_GetStagesIDs p o : keeps R (GetStagesIDs W st p o);
  keep_GetStageDesc p id : keeps R (GetStageDesc W st p id);
  keep_GetStageCustomTagMetadata id : keeps R (GetStageCustomTagMetadata W st id);
  keep_GetStageCustomTagMetadataIDs o : keeps R (GetStageCustomTagMetadataIDs W st o);
  keep_GetManagedImages p o : keeps R (GetManagedImages W st p o);
  keep_GetAllAndGroup p l o : keeps R (GetAllAndGroupImageMetadataByImageName W st p l o);
  keep_GetImportMetadata p id : keeps R (GetImportMetadata W st p id);
  keep_GetImportMetadataIDs p o : keeps R (GetImportMetadataIDs W st p o);
}.

(** So do the operations that remove its records, the stages apart. *)
Record RecordsKeep {W} (R : W -> W -> Prop) (st : Storage W) : Prop := {
  keep_RmManagedImage p i : keeps R (RmManagedImage W st p i);
  keep_RmImageMetadata p i c s : keeps R (RmImageMetadata W st p i c s);
  keep_RmImportMetadata p id : keeps R (RmImportMetadata W st p id);
  keep_DeleteStageCustomTag t : keeps R (DeleteStageCustomTag W st t);
  keep_UnregisterStageCustomTag t : keeps R (UnregisterStageCustomTag W st t);
}.

(** The reads of a manager's storages, of its caches and of its filter. *)
Record ManagerReads {W} (R : W -> W -> Prop) (m : Manager W) : Prop := {
  reads_main : ReadsKeep R (StagesStorage m);
  reads_final st : FinalStagesStorage m = Some st -> ReadsKeep R st;
  reads_caches st : st ∈ CacheStagesStorageList m -> ReadsKeep R st;
  reads_manifests a n : keeps R (GetImageInfo (CommonManifestCache m) a n);
  stores_manifests a i : keeps R (StoreImageInfo (CommonManifestCache m) a i);
}.

#[export] Hint Resolve keep_GetStagesIDs keep_GetStageDesc keep_GetStageCustomTagMetadata
  keep_GetStageCustomTagMetadataIDs keep_GetManagedImages keep_GetAllAndGroup
  keep_GetImportMetadata keep_GetImportMetadataIDs keep_RmManagedImage keep_RmImageMetadata
  keep_RmImportMetadata keep_DeleteStageCustomTag keep_UnregisterStageCustomTag
  reads_main reads_final reads_caches reads_manifests stores_manifests : werf.

(** ** In the world of the manager *)

Section env.
Context {W X : Type} `{!Nondet}.

Section any.
Context (R : Env W X -> Env W X -> Prop) `{!PreOrder R}.

Lemma keeps_outer {S A} (m : prog (Env W X) A) :
  keeps R m -> keeps (on (@fst (Env W X) S) R) (outer m).
Proof. intros Hm w. unfold outer. specialize (Hm w.1). by destruct (m w.1). Qed.

Lemma keeps_get_var {S} : keeps (on (@fst (Env W X) S) R) get_var.
Proof. intros w. unfold get_var, on. simpl. reflexivity. Qed.

Lemma keeps_set_var {S} (s : S) : keeps (on (@fst (Env W X) S) R) (set_var s).
Proof. intros w. unfold set_var, on. simpl. reflexivity. Qed.

Lemma keeps_with_var {S} (s : S) (m : prog (Env W X * S) unit) :
  keeps (on fst R) m -> keeps R (with_var s m).
Proof.
  intros Hm w. unfold with_var. specialize (Hm (w, s)).
  destruct (m (w, s)) as [[] []]; exact Hm.
Qed.

Lemma keeps_index {E A} (R' : E -> E -> Prop) `{!PreOrder R'} (l : list A) i :
  keeps R' (index l i).
Proof. unfold index. destruct (l !! i); auto with werf. Qed.

End any.

(** The relations that do not look at the manager's own bookkeeping. *)
Class Invisible (R : Env W X -> Env W X -> Prop) : Prop := {
  inv_tick e n : R e (mkEnv (ext e) n (next_ptr e) (FinalStagesListCache e) (own e));
  inv_alloc e n : R e (mkEnv (ext e) (tick e) n (FinalStagesListCache e) (own e));
  inv_cache e c : R e (mkEnv (ext e) (tick e) (next_ptr e) c (own e));
}.

#[export] Instance on_ext_Invisible (R : W -> W -> Prop) `{!PreOrder R} : Invisible (on ext R).
Proof. split; intros [] ?; unfold on; simpl; reflexivity. Qed.

#[export] Instance on_own_Invisible (R : X -> X -> Prop) `{!PreOrder R} : Invisible (on own R).
Proof. split; intros [] ?; unfold on; simpl; reflexivity. Qed.

Section invisible.
Context (R : Env W X -> Env W X -> Prop) `{!PreOrder R, !Invisible R}.

Lemma keeps_iterate {A} (l : list A) : keeps R (iterate l).
Proof. intros e. apply inv_tick. Qed.
Lemma keeps_alloc : keeps R alloc.
Proof. intros e. apply inv_alloc. Qed.
Lemma keeps_next_schedule : keeps R next_schedule.
Proof. intros e. apply inv_tick. Qed.
Lemma keeps_get_own : keeps R get_own.
Proof. intros e. simpl. reflexivity. Qed.
Lemma keeps_get_final_cache : keeps R get_final_cache.
Proof. intros e. simpl. reflexivity. Qed.
Lemma keeps_set_final_cache c : keeps R (set_final_cache c).
Proof. intros e. apply inv_cache. Qed.

End invisible.

Lemma keeps_call (R : W -> W -> Prop) {A} (m : prog W A) :
  keeps R m -> keeps (on (@ext W X) R) (call m).
Proof. intros Hm e. unfold call, on. specialize (Hm (ext e)). by destruct (m (ext e)). Qed.

Lemma keeps_call_own (R : X -> X -> Prop) `{!PreOrder R} {A} (m : prog W A) :
  keeps (on (@own W X) R) (call m).
Proof. intros e. unfold call, on. destruct (m (ext e)). simpl. reflexivity. Qed.

Lemma keeps_set_own (R : W -> W -> Prop) `{!PreOrder R} x : keeps (on (@ext W X) R) (set_own x).
Proof. intros e. unfold on. simpl. reflexivity. Qed.

End env.

Lemma keeps_with_own {W X S} (R : W -> W -> Prop) (s : S)
  (m : prog (Env W (X * S)) unit) :
  keeps (on ext R) m -> keeps (on (@ext W X) R) (with_own s m).
Proof.
  intros Hm e. unfold with_own, on.
  specialize (Hm (mkEnv (ext e) (tick e) (next_ptr e) (FinalStagesListCache e) (own e, s))).
  destruct (m _) as [[] e']; exact Hm.
Qed.

#[export] Hint Resolve keeps_outer keeps_get_var keeps_set_var keeps_with_var keeps_index
  keeps_iterate keeps_alloc keeps_next_schedule keeps_get_own keeps_get_final_cache
  keeps_set_final_cache keeps_call keeps_call_own keeps_set_own keeps_with_own : werf.
#[export] Hint Extern 4 (Invisible _) => typeclasses eauto : werf.

(** ** The operations of the manager *)

Section manager.
Context {W X : Type} `{!GoQuote, !Nondet} (m : Manager W).

Section tasks.
Context (R : Env W X -> Env W X -> Prop) `{!PreOrder R, !Invisible R}.

Lemma keeps_do_tasks n task : (forall i, keeps R (task i)) -> keeps R (do_tasks m n task).
Proof.
  intros Ht. unfold do_tasks. apply keeps_bind; auto with werf. intros s.
  by apply Parallel.keeps_DoTasks.
Qed.

Lemma keeps_do_tasks_var {S} n (s : S) task :
  (forall i, keeps (on fst R) (task i)) -> keeps R (do_tasks_var m n s task).
Proof.
  intros Ht. unfold do_tasks_var. apply keeps_bind; auto with werf. intros sch.
  apply keeps_with_var, Parallel.keeps_DoTasks; [typeclasses eauto|auto].
Qed.

Lemma keeps_index_bind {E A B} (R' : E -> E -> Prop) `{!PreOrder R'} (l : list A) i
  (f : A -> prog E B) :
  (forall x, x ∈ l -> keeps R' (f x)) -> keeps R' (index l i ≫= f).
Proof.
  intros Hf. unfold index. destruct (l !! i) as [x|] eqn:E1.
  - intros w. apply (Hf x). by eapply list_elem_of_lookup_2.
  - intros w. simpl. reflexivity.
Qed.

Lemma keeps_each {A} (l : list A) task :
  (forall x, x ∈ l -> keeps R (task x)) -> keeps R (each m l task).
Proof. intros Hf. unfold each. apply keeps_do_tasks. intros i. by apply keeps_index_bind. Qed.

(** The relation of tasks that pop the elements of a list that satisfy [P]. *)
Definition popping {A} (P : A -> Prop) (x y : Env W X * list A) : Prop :=
  Forall P x.2 -> R x.1 y.1 /\ Forall P y.2.

#[local] Instance popping_PreOrder {A} (P : A -> Prop) : PreOrder (popping P).
Proof.
  split; [split; [reflexivity|done]|].
  intros x y z H1 H2 Hx. destruct (H1 Hx) as [? Hy]. destruct (H2 Hy). split; [by etrans|done].
Qed.

(** Whatever the order of the iteration. *)
Lemma keeps_iterate_bind {A B} (l : list A) (f : list A -> prog (Env W X) B) :
  (forall order, order ≡ₚ l -> keeps R (f order)) -> keeps R (iterate l ≫= f).
Proof.
  intros Hf e. unfold mbind, prog_bind, iterate. simpl. etrans; [apply inv_tick|].
  apply Hf, shuffle_perm.
Qed.

Lemma keeps_pop_each (set : StageDescSet) task :
  (forall p d, set !! p = Some d -> keeps R (task (p, d))) -> keeps R (pop_each m set task).
Proof.
  intros Hf. unfold pop_each. apply keeps_iterate_bind. intros order Ho.
  set (P := fun d : positive * Image.StageDesc => keeps R (task d)).
  assert (Forall P order) as HP.
  { rewrite Ho. apply Forall_forall. intros [p d] Hd. apply Hf, elem_of_map_to_list, Hd. }
  apply keeps_bind; [typeclasses eauto| |auto with werf].
  unfold do_tasks_var. apply keeps_bind; [typeclasses eauto|auto with werf|]. intros sch e.
  unfold with_var.
  match goal with |- context [Parallel.DoTasks ?t ?a ?b ?c] =>
    assert (keeps (popping P) (Parallel.DoTasks t a b c)) as Hk end.
  { apply Parallel.keeps_DoTasks; [typeclasses eauto|]. intros _ _ [e0 rest] Hrest.
    unfold mbind, prog_bind. simpl. destruct rest as [|d rest]; [split; [reflexivity|done]|].
    simpl. apply Forall_cons in Hrest as [Hd Hrest]. specialize (Hd e0).
    unfold outer. simpl. by destruct (task d e0). }
  destruct (Hk (e, order) HP) as [HR _]. simpl in HR.
  by destruct (Parallel.DoTasks _ _ _ _ _) as [[] []].
Qed.

End tasks.

(** ** What the operations keep of the world *)

Section world.
Context (R : W -> W -> Prop) `{!PreOrder R}.
Abbreviation keeps_ext := (keeps (on (@ext W X) R)).

Lemma keeps_getStageDesc id st caches cached :
  (forall a n, keeps R (GetImageInfo (CommonManifestCache m) a n)) ->
  (forall a i, keeps R (StoreImageInfo (CommonManifestCache m) a i)) ->
  ReadsKeep R st -> (forall c, c ∈ caches -> ReadsKeep R c) ->
  keeps R (getStageDesc m id st caches cached).
Proof.
  intros Hg Hs Hst Hc.
  assert (forall id st, keeps R (getStageDescFromLocalManifestCache m id st)) as Hlocal.
  { intros. unfold getStageDescFromLocalManifestCache. auto with werf. }
  assert (forall id b st d, keeps R (storing m id b st d)) as Hstore.
  { intros. unfold storing, storeStageDescIntoLocalManifestCache. case_bool_in_goal; auto with werf. }
  assert (forall l, (forall c, c ∈ l -> ReadsKeep R c) ->
    keeps R (getStageDescFromCaches m id st l cached)) as Hcaches.
  { induction l as [|c l IH]; intros Hl; simpl; auto with werf.
    apply keeps_bind; auto; [destruct cached; auto with werf|]. intros [d|]; auto with werf.
    apply keeps_bind; auto; [apply keeps_try, keep_GetStageDesc, Hl; by left|].
    assert (keeps R (getStageDescFromCaches m id st l cached)) by (apply IH; intros; apply Hl; by right).
    intros [[d|]|e]; auto with werf. }
  unfold getStageDesc. apply keeps_bind; auto; [destruct cached; auto with werf|].
  intros [d|]; auto with werf. apply keeps_bind; auto. intros [d|]; auto with werf.
  apply keeps_bind; auto with werf.
  intros [[d|]|e]; auto with werf. case_bool_in_goal; auto with werf.
Qed.

Lemma keeps_fetchDescs ids get :
  (forall id, keeps R (get id)) -> keeps_ext (fetchDescs m ids get).
Proof.
  intros Hg. unfold fetchDescs. apply keeps_do_tasks_var; auto with werf. intros i.
  assert (forall i : nat, keeps (on fst (on (@ext W X) R)) (index (E:=Env W X * StageDescSet) ids i)) as Hi
    by auto with werf.
  apply keeps_bind; auto with werf. intros id. apply keeps_bind; auto with werf.
  intros [d|]; auto 8 with werf.
Qed.

Lemma keeps_GetStageDescSetWithCache :
  ManagerReads R m -> keeps_ext (GetStageDescSetWithCache m).
Proof.
  intros Hm. unfold GetStageDescSetWithCache, getStageDescSet. apply keeps_bind; auto with werf.
  intros ids. apply keeps_fetchDescs. intros id. apply keeps_wrap, keeps_getStageDesc; 
    intros; eauto with werf.
Qed.

Lemma keeps_GetFinalStageDescSet : ManagerReads R m -> keeps_ext (GetFinalStageDescSet m).
Proof.
  intros Hm. unfold GetFinalStageDescSet. destruct (FinalStagesStorage m) as [st|] eqn:Ef; auto with werf.
  apply keeps_bind; [typeclasses eauto|..].
  - apply keeps_wrap. unfold getOrCreateFinalStagesListCache. apply keeps_bind; auto with werf.
    intros [ids|]; auto with werf. apply keeps_bind; eauto with werf.
  - intros ids. apply keeps_fetchDescs. intros id. apply keeps_wrap, keeps_getStageDesc;
      intros; eauto with werf. set_solver.
Qed.

End world.

(** ** What the operations on every element keep, where each of their calls does *)

Section every.
Context (R : Env W X -> Env W X -> Prop) `{!PreOrder R, !Invisible R}.
Abbreviation st := (StagesStorage m).
Abbreviation project := (ProjectName m).

Lemma keeps_ForEachDeleteFinalStage o set f final :
  FinalStagesStorage m = Some final ->
  (forall p d, set !! p = Some d ->
     keeps R (call (DeleteStage W final d (deleteImageOptions o)))) ->
  (forall d e, keeps R (f d e)) -> keeps R (ForEachDeleteFinalStage m o set f).
Proof.
  intros Es Hd Hf. unfold ForEachDeleteFinalStage. rewrite Es. apply keeps_pop_each; auto with werf.
  intros p d Hp. apply keeps_bind; eauto with werf.
Qed.

(** The filter of a local storage drops stages. *)
Definition FilterKeeps : Prop :=
  forall filter set o, localFilter m = Some filter ->
    keeps R (call (filter set o)) /\
    forall w r w', filter set o w = (Ok r, w') -> r ⊆ set.

Lemma keeps_ForEachDeleteStage o set f :
  FilterKeeps ->
  (forall p d c, set !! p = Some d -> c ∈ st :: CacheStagesStorageList m ->
     keeps R (call (DeleteStage W c d (deleteImageOptions o)))) ->
  (forall d e, keeps R (f d e)) -> keeps R (ForEachDeleteStage m o set f).
Proof.
  intros Hl Hd Hf. unfold ForEachDeleteStage.
  assert (forall filtered, filtered ⊆ set -> keeps R (pop_each m filtered (fun d =>
    for_each (CacheStagesStorageList m) (fun cache =>
      try (call (DeleteStage W cache d.2 (deleteImageOptions o))) ;; mret tt) ;;
    r ← try (call (DeleteStage W st d.2 (deleteImageOptions o)));
    f d (err_of r)))) as Hpop.
  { intros filtered Hsub. apply keeps_pop_each; auto with werf. intros p d Hp.
    assert (set !! p = Some d) as Hp' by by eapply lookup_weaken. apply keeps_bind; auto with werf.
    - apply keeps_for_each; auto with werf. intros c Hc. apply keeps_bind; auto with werf.
      apply keeps_try, (Hd p); [done|by right].
    - intros _. apply keeps_bind; auto with werf.
      apply keeps_try, (Hd p); [done|by left]. }
  destruct (localFilter m) as [filter|] eqn:E; [|intros e; by apply Hpop].
  destruct (Hl filter set (filterOptions o) E) as [Hk Hsub].
  apply keeps_bind_Ok; [done|auto with werf|].
  intros r e e' Hr. apply wrap_Ok in Hr. apply Hpop.
  unfold call in Hr. destruct (filter set (filterOptions o) (ext e)) as [[a| |] w'] eqn:Ef; try done.
  simplify_eq. by eapply Hsub.
Qed.

Lemma keeps_ForEachRmImageMetadata i l f :
  (forall c s, keeps R (call (RmImageMetadata W st project i c s))) ->
  (forall c s e, keeps R (f c s e)) -> keeps R (ForEachRmImageMetadata m i l f).
Proof.
  intros Hr Hf. unfold ForEachRmImageMetadata. apply keeps_bind; auto with werf.
  intros order. apply keeps_each; [typeclasses eauto..|]. intros x _. apply keeps_bind; auto with werf.
Qed.

Lemma keeps_ForEachRmManagedImage l f :
  (forall i, keeps R (call (RmManagedImage W st project i))) ->
  (forall c e, keeps R (f c e)) -> keeps R (ForEachRmManagedImage m l f).
Proof.
  intros Hr Hf. unfold ForEachRmManagedImage. apply keeps_each; [typeclasses eauto..|].
  intros x _. apply keeps_bind; auto with werf.
Qed.

Lemma keeps_ForEachGetImportMetadata l f :
  (forall id, keeps R (call (GetImportMetadata W st project id))) ->
  (forall c e, keeps R (f c e)) -> keeps R (ForEachGetImportMetadata m l f).
Proof.
  intros Hr Hf. unfold ForEachGetImportMetadata. apply keeps_each; [typeclasses eauto..|].
  intros x _. apply keeps_bind; auto with werf.
Qed.

Lemma keeps_ForEachRmImportMetadata l f :
  (forall id, keeps R (call (RmImportMetadata W st project id))) ->
  (forall c e, keeps R (f c e)) -> keeps R (ForEachRmImportMetadata m l f).
Proof.
  intros Hr Hf. unfold ForEachRmImportMetadata. apply keeps_each; [typeclasses eauto..|].
  intros x _. apply keeps_bind; auto with werf.
Qed.

Lemma keeps_ForEachDeleteStageCustomTag l f :
  (forall t, keeps R (call (DeleteStageCustomTag W st t))) ->
  (forall t, keeps R (call (UnregisterStageCustomTag W st t))) ->
  (forall c e, keeps R (f c e)) -> keeps R (ForEachDeleteStageCustomTag m l f).
Proof.
  intros Hr Hu Hf. unfold ForEachDeleteStageCustomTag. apply keeps_each; [typeclasses eauto..|].
  intros x _. apply keeps_bind; auto with werf. intros [u|e]; auto with werf.
  apply keeps_bind; auto with werf. intros [v|e]; auto with werf.
Qed.

Lemma keeps_ForEachGetStageCustomTagMetadata l f :
  (forall t, keeps R (call (GetStageCustomTagMetadata W st t))) ->
  (forall c e, keeps R (f c e)) -> keeps R (ForEachGetStageCustomTagMetadata m l f).
Proof.
  intros Hr Hf. unfold ForEachGetStageCustomTagMetadata. apply keeps_each; [typeclasses eauto..|].
  intros x _. apply keeps_bind; auto with werf.
Qed.

End every.
End manager.
End ManagerFacts.
