(* ===== verification/StageManagerFacts.v ===== *)
(** The stage manager's sets: which stages are protected after a mark, that the marks
    change nothing else, and the descriptions found by their stage id. *)
From S2P Require Import Prelude Go Slug Image Registry StagesStorage RepoStorage Parallel.
From S2P Require Import StorageManager StageManager ManagerFacts.

Module StageManagerFacts.
Import StagesStorage StorageManager StageManager.

(** The stage at the pointer is marked. *)
Definition marked (s : managedStageDescSet) (p : positive) : Prop :=
  exists d meta, stageDescMetaMap s !! p = Some (d, meta) /\ isProtected meta = true.

(** The stages found by their id are in the set. *)
Definition indexed (s : managedStageDescSet) : Prop :=
  forall id d, stageDescByStageID s !! id = Some d ->
    stageDescSet s !! d.1 = Some d.2 /\ stage_id d = id.

(** What is marked points at what is in the set. *)
Definition marks_in_set (s : managedStageDescSet) : Prop :=
  forall p d meta, stageDescMetaMap s !! p = Some (d, meta) -> stageDescSet s !! p = Some d.

(** No two pointers of a set have the stage id in common. *)
Definition distinct_ids (set : StageDescSet) : Prop :=
  forall p q d d', set !! p = Some d -> set !! q = Some d' ->
    stage_id (p, d) = stage_id (q, d') -> p = q.

(** ** Protected stages *)

Lemma byReason_lookup s r p d :
  default (∅ : StageDescSet) (set_GetProtectedStageDescSetByReason s !! r) !! p = Some d <->
  exists meta, stageDescMetaMap s !! p = Some (d, meta) /\ isProtected meta = true /\
    reasonOf meta = r.
Proof.
  revert r p d. unfold set_GetProtectedStageDescSetByReason.
  apply (map_fold_weak_ind (fun (byReason : gmap (option protectionReason) StageDescSet) metas =>
    forall r p d, default (∅ : StageDescSet) (byReason !! r) !! p = Some d <->
      exists meta, metas !! p = Some (d, meta) /\ isProtected meta = true /\ reasonOf meta = r)).
  { intros r p d. rewrite lookup_empty. simpl. rewrite !lookup_empty.
    split; [done|]. intros (? & [=] & _). }
  intros i [x meta] metas byReason Hi IH r p d. destruct (isProtected meta) eqn:Em.
  - destruct (decide (r = reasonOf meta)) as [->|Hr].
    + rewrite lookup_insert_eq. simpl. destruct (decide (p = i)) as [->|Hp].
      * rewrite !lookup_insert_eq. split; [intros [= ->]; eauto|by intros (? & [= -> ->] & _)].
      * rewrite !lookup_insert_ne by done. apply IH.
    + rewrite lookup_insert_ne by done. rewrite IH. destruct (decide (p = i)) as [->|Hp].
      * rewrite lookup_insert_eq, Hi. split; [by intros (? & [=] & _)|].
        intros (m & [= -> ->] & _ & Hm). congruence.
      * by rewrite lookup_insert_ne.
  - rewrite IH. destruct (decide (p = i)) as [->|Hp].
    + rewrite lookup_insert_eq, Hi. split; [by intros (? & [=] & _)|].
      intros (m & [= -> ->] & Hm & _). congruence.
    + by rewrite lookup_insert_ne.
Qed.

Lemma union_fold_lookup (m : gmap (option protectionReason) StageDescSet) p :
  match map_fold (fun _ set acc => acc ∪ set) (∅ : StageDescSet) m !! p with
  | Some d => exists r set, m !! r = Some set /\ set !! p = Some d
  | None => forall r set, m !! r = Some set -> set !! p = None
  end.
Proof.
  apply (map_fold_weak_ind (fun (all : StageDescSet) (m : gmap (option protectionReason) StageDescSet) =>
    match all !! p with
    | Some d => exists r set, m !! r = Some set /\ set !! p = Some d
    | None => forall r set, m !! r = Some set -> set !! p = None
    end)).
  { rewrite lookup_empty. intros r set. by rewrite lookup_empty. }
  intros r x m' all Hr IH. rewrite lookup_union. destruct (all !! p) as [d|] eqn:E.
  - destruct IH as (r' & set & Hs & Hp). assert (r' <> r) by (intros ->; congruence).
    rewrite union_Some_l. exists r', set. by rewrite lookup_insert_ne.
  - rewrite (left_id_L None union). destruct (x !! p) as [d|] eqn:Ex.
    + exists r, x. by rewrite lookup_insert_eq.
    + intros r' set. destruct (decide (r' = r)) as [->|].
      * rewrite lookup_insert_eq. by intros [= <-].
      * rewrite lookup_insert_ne by done. apply IH.
Qed.

Lemma protected_lookup s p d :
  set_GetProtectedStageDescSet s !! p = Some d <->
  exists meta, stageDescMetaMap s !! p = Some (d, meta) /\ isProtected meta = true.
Proof.
  unfold set_GetProtectedStageDescSet.
  pose proof (union_fold_lookup (set_GetProtectedStageDescSetByReason s) p) as H.
  assert (forall r set d, set_GetProtectedStageDescSetByReason s !! r = Some set ->
    set !! p = Some d -> exists meta, stageDescMetaMap s !! p = Some (d, meta) /\
      isProtected meta = true) as Hby.
  { intros r set d' Hr Hp. destruct (proj1 (byReason_lookup s r p d')) as (meta & ? & ? & _);
      [by rewrite Hr|eauto]. }
  split.
  - intros E. rewrite E in H. destruct H as (r & set & Hr & Hp). eauto.
  - intros (meta & Hm & Hpr).
    assert (default ∅ (set_GetProtectedStageDescSetByReason s !! reasonOf meta) !! p = Some d) as Hd
      by (apply byReason_lookup; eauto).
    destruct (set_GetProtectedStageDescSetByReason s !! reasonOf meta) as [set|] eqn:Er;
      simpl in Hd; [|by rewrite lookup_empty in Hd].
    destruct (map_fold _ _ _ !! p) as [d'|] eqn:E; [|by rewrite (H _ _ Er) in Hd].
    destruct H as (r & set' & Hr & Hp). destruct (Hby _ _ _ Hr Hp) as (? & ? & _). congruence.
Qed.

Lemma unprotected_lookup s p d :
  (stageDescSet s ∖ set_GetProtectedStageDescSet s) !! p = Some d <->
  stageDescSet s !! p = Some d /\ ~ marked s p.
Proof.
  rewrite lookup_difference_Some. split; intros [H1 H2]; (split; [done|]).
  - intros (d' & meta & Hm). assert (set_GetProtectedStageDescSet s !! p = Some d') as Hd
      by (apply protected_lookup; eauto). congruence.
  - destruct (set_GetProtectedStageDescSet s !! p) as [d'|] eqn:E; [|done].
    apply protected_lookup in E as (meta & ?). destruct H2. by exists d', meta.
Qed.

(** ** Marks *)

Lemma mark_sets s d r f :
  stageDescSet (set_MarkStageDescAsProtected s d r f) = stageDescSet s /\
  stageDescByStageID (set_MarkStageDescAsProtected s d r f) = stageDescByStageID s.
Proof. done. Qed.

Lemma marked_mark s d r f p :
  marked (set_MarkStageDescAsProtected s d r f) p <-> p = d.1 \/ marked s p.
Proof.
  unfold marked, set_MarkStageDescAsProtected. simpl. destruct (decide (p = d.1)) as [->|Hp].
  - setoid_rewrite lookup_insert_eq. split; [auto|]. intros _. eexists _, _. split; [done|].
    destruct (stageDescMetaMap s !! d.1) as [[? meta]|]; simpl; [|done].
    by destruct (isProtected meta) eqn:E, f.
  - setoid_rewrite lookup_insert_ne; [|done]. naive_solver.
Qed.

Lemma marks_in_set_mark s d r f :
  stageDescSet s !! d.1 = Some d.2 -> marks_in_set s ->
  marks_in_set (set_MarkStageDescAsProtected s d r f).
Proof.
  intros Hd Hs p x meta. unfold set_MarkStageDescAsProtected. simpl.
  destruct (decide (p = d.1)) as [->|Hp].
  - rewrite lookup_insert_eq. intros [= <- _]. done.
  - rewrite lookup_insert_ne by done. apply Hs.
Qed.

(** A mark that does not force its reason keeps the reason of a marked stage. *)
Lemma mark_first_reason s d r p d' meta :
  stageDescMetaMap s !! p = Some (d', meta) -> isProtected meta = true ->
  exists d'', stageDescMetaMap (set_MarkStageDescAsProtected s d r false) !! p = Some (d'', meta).
Proof.
  intros Hm Hp. unfold set_MarkStageDescAsProtected. simpl.
  destruct (decide (p = d.1)) as [->|]; [|rewrite lookup_insert_ne by done; eauto].
  rewrite lookup_insert_eq, Hm. simpl. rewrite Hp. simpl. eauto.
Qed.

(** ** Descriptions by stage id *)

Lemma byStageID_fold (order : list Desc) (m : gmap string Desc) id :
  (foldl (fun m d => <[stage_id d := d]> m) m order !! id = m !! id /\
   forall d, d ∈ order -> stage_id d <> id) \/
  (exists d, foldl (fun m d => <[stage_id d := d]> m) m order !! id = Some d /\
   d ∈ order /\ stage_id d = id).
Proof.
  revert m. induction order as [|d order IH]; intros m; simpl; [left; set_solver|].
  destruct (IH (<[stage_id d := d]> m)) as [[E Hn]|(d' & E & Hd & Hi)]; [|right; set_solver].
  destruct (decide (stage_id d = id)) as [<-|Hd].
  - right. exists d. rewrite E, lookup_insert_eq. set_solver.
  - left. rewrite E, lookup_insert_ne by done. set_solver.
Qed.

Lemma indexed_new set order :
  order ≡ₚ map_to_list set -> indexed (newManagedStageDescSet set order).
Proof.
  intros Ho id d. unfold newManagedStageDescSet. simpl.
  destruct (byStageID_fold order ∅ id) as [[E _]|(d' & E & Hd & Hi)]; rewrite E.
  - by rewrite lookup_empty.
  - intros [= <-]. rewrite Ho in Hd. destruct d'. by apply elem_of_map_to_list in Hd.
Qed.

(** Every stage of a set without duplicates is found by its id. *)
Lemma found_new set order p d :
  order ≡ₚ map_to_list set -> distinct_ids set -> set !! p = Some d ->
  stageDescByStageID (newManagedStageDescSet set order) !! stage_id (p, d) = Some (p, d).
Proof.
  intros Ho Hdis Hp. unfold newManagedStageDescSet. simpl.
  assert ((p, d) ∈ order) as Hin by (rewrite Ho; by apply elem_of_map_to_list).
  destruct (byStageID_fold order ∅ (stage_id (p, d))) as [[_ Hn]|([q d'] & E & Hd & Hi)].
  - by destruct (Hn _ Hin).
  - rewrite E. rewrite Ho in Hd. apply elem_of_map_to_list in Hd.
    assert (q = p) as -> by eauto. congruence.
Qed.

End StageManagerFacts.
