(* ===== verification/CleanupProtect.v ===== *)
(** The relatives of the kept stages: the search for them always ends, whatever cycles the
    stages' labels have, and leaves a set of marked stages that is closed under parents. *)
From S2P Require Import Prelude Go Slug Image Registry StagesStorage RepoStorage Parallel.
From S2P Require Import StorageManager StageManager ManagerFacts StageManagerFacts AllowList.
From S2P Require Import Cleanup.

Module CleanupProtect.
Import StagesStorage StorageManager StageManager StageManagerFacts Cleanup.

(** [wpb B m w Q]: [m] returns a value of which [Q] holds, or else panics and [B] holds. *)
Definition wpb {W A} (B : Prop) (m : prog W A) (w : W) (Q : A -> W -> Prop) : Prop :=
  match m w with (Ok a, w') => Q a w' | (Panic _, _) => B | (Err _, _) => False end.

Section wpb.
Context {W : Type} (B : Prop).

Lemma wpb_ret {A} (a : A) (w : W) (Q : A -> W -> Prop) : Q a w -> wpb B (mret a) w Q.
Proof. done. Qed.

Lemma wpb_bind {A A'} (m : prog W A) (f : A -> prog W A') w Q :
  wpb B m w (fun a w' => wpb B (f a) w' Q) -> wpb B (m ≫= f) w Q.
Proof. unfold wpb, mbind, prog_bind. by destruct (m w) as [[]]. Qed.

Lemma wpb_mono {A} (m : prog W A) w (Q Q' : A -> W -> Prop) :
  wpb B m w Q -> (forall a w', Q a w' -> Q' a w') -> wpb B m w Q'.
Proof. unfold wpb. destruct (m w) as [[]]; naive_solver. Qed.

Lemma wpb_wp {A} (m : prog W A) w (Q : A -> W -> Prop) : wpb B m w Q -> ~ B -> wp m w Q.
Proof. unfold wpb, wp. by destruct (m w) as [[]]. Qed.

Lemma wpb_wlp {A} (m : prog W A) w (Q : A -> W -> Prop) : wpb B m w Q -> wlp m w Q.
Proof. unfold wpb, wlp. by destruct (m w) as [[]]. Qed.

Lemma wpb_keeps {A} (R : W -> W -> Prop) (m : prog W A) w (Q : A -> W -> Prop) :
  keeps R m -> wpb B m w Q -> wpb B m w (fun a w' => Q a w' /\ R w w').
Proof. intros Hk. specialize (Hk w). unfold wpb. by destruct (m w) as [[]]. Qed.

(** A loop whose body keeps an invariant of what is done so far and what is left. *)
Lemma wpb_for_fold {A S} (I : list A -> list A -> S -> W -> Prop) (l : list A) body :
  (forall done x rest s w, done ++ x :: rest = l -> I done (x :: rest) s w ->
     wpb B (body s x) w (fun s' w' => I (done ++ [x]) rest s' w')) ->
  forall s w, I [] l s w -> wpb B (for_fold l s body) w (fun s' w' => I l [] s' w').
Proof.
  intros Hb.
  assert (forall rest dn s w, dn ++ rest = l -> I dn rest s w ->
    wpb B (for_fold rest s body) w (fun s' w' => I l [] s' w')) as H; [|by intros; apply (H l [])].
  induction rest as [|x rest IH]; intros dn s w E HI; simpl.
  - rewrite app_nil_r in E. subst. by apply wpb_ret.
  - apply wpb_bind. eapply wpb_mono; [by apply Hb|]. simpl. intros s' w' HI'.
    apply (IH (dn ++ [x])); [by rewrite <-app_assoc|done].
Qed.
End wpb.

(** ** Invariants of the search *)

Abbreviation mset s := (managed (stageManager s)).

(** What the marks do to the state: nothing else changes. *)
Record stable (s s' : CleanupState) : Prop := {
  stable_set : stageDescSet (mset s') = stageDescSet (mset s);
  stable_index : stageDescByStageID (mset s') = stageDescByStageID (mset s);
  stable_checksums : checksumSourceStageIDs s' = checksumSourceStageIDs s;
  stable_marks p : marked (mset s) p -> marked (mset s') p;
  stable_records : imageMetadataList (stageManager s') = imageMetadataList (stageManager s);
}.

#[export] Instance stable_PreOrder : PreOrder stable.
Proof.
  split; [by split|]. intros s1 s2 s3 [? ? ? ? ?] [? ? ? ? ?].
  split; congruence || auto.
Qed.

(** A parent of a stage: the one its label names, or the only one with the id of its
    parent image. *)
Definition parent (s : CleanupState) (d : Image.StageDesc) (q : Desc) : Prop :=
  stageDescByStageID (mset s)
    !! Image.label (Image.Labels (Image.SDInfo d)) Image.WerfParentStageID = Some q \/
  (stageDescSet (mset s) !! q.1 = Some q.2 /\
   Image.ParentID (Image.SDInfo d) = Image.ID (Image.SDInfo q.2) /\
   forall p x, stageDescSet (mset s) !! p = Some x ->
     Image.ParentID (Image.SDInfo d) = Image.ID (Image.SDInfo x) -> p = q.1).

Lemma parent_stable s s' d q : stable s s' -> parent s d q <-> parent s' d q.
Proof. intros [E1 E2 _ _ _]. unfold parent. by rewrite E1, E2. Qed.

(** The digests of the stages and of their platforms are all well formed. *)
Definition digests_ok (set : StageDescSet) : Prop :=
  forall p d, set !! p = Some d ->
    (exists x, Image.GetDigest (Image.SDInfo d) = Ok x) /\
    forall i, i ∈ Image.Index (Image.SDInfo d) -> exists x, Image.GetDigest i = Ok x.

(** The current and the handled set. *)
Record Inv (s0 s : CleanupState) (cur handled : StageDescSet) : Prop := {
  inv_stable : stable s0 s;
  inv_indexed : indexed (mset s0);
  inv_cur : cur ⊆ stageDescSet (mset s0);
  inv_handled : handled ⊆ stageDescSet (mset s0);
  inv_marks p : marked (mset s) p -> marked (mset s0) p \/ p ∈ dom cur \/ p ∈ dom handled;
  inv_closed p d q : handled !! p = Some d -> parent s0 d q ->
    marked (mset s) q.1 /\ (q.1 ∈ dom cur \/ q.1 ∈ dom handled);
}.

Section search.
Context {W : Type} `{!GoQuote, !Nondet, !GitHistory W, !CleaningLibrary W}.
Variable sm : StorageManager.Manager W.
Variable options : CleanupOptions W KeepPolicy.
Variable B : Prop.
Abbreviation E := (Env W CleanupState).

Lemma wpb_manager (e : E) (Q : Manager -> E -> Prop) :
  Q (stageManager (own e)) e -> wpb B manager e Q.
Proof. done. Qed.

Lemma wpb_iterate {A} (l : list A) (e : E) (Q : list A -> E -> Prop) :
  (forall order e', order ≡ₚ l -> own e' = own e -> Q order e') -> wpb B (iterate l) e Q.
Proof. intros HQ. apply HQ; [apply shuffle_perm|done]. Qed.

Lemma wpb_lift {A} (r : res A) (e : E) (Q : A -> E -> Prop) :
  (forall a, r = Ok a -> Q a e) -> (forall m, r = Panic m -> B) -> (forall x, r <> Err x) ->
  wpb B (lift r) e Q.
Proof. unfold wpb, lift. destruct r; naive_solver. Qed.

(** A set of relatives that grows: all in the set, all new marks in it. *)
Definition grown (s0 : CleanupState) (cur : StageDescSet) (s : CleanupState)
  (cur' : StageDescSet) (s' : CleanupState) : Prop :=
  stable s s' /\ cur ⊆ cur' /\ cur' ⊆ stageDescSet (mset s0) /\
  forall p, marked (mset s') p -> marked (mset s) p \/ p ∈ dom cur'.

Lemma grown_refl s0 cur s : cur ⊆ stageDescSet (mset s0) -> grown s0 cur s cur s.
Proof. split; [reflexivity|]. auto. Qed.

Lemma grown_trans s0 c1 s1 c2 s2 c3 s3 :
  grown s0 c1 s1 c2 s2 -> grown s0 c2 s2 c3 s3 -> grown s0 c1 s1 c3 s3.
Proof.
  intros (H1 & H2 & H3 & H4) (H5 & H6 & H7 & H8).
  split; [by etrans|]. split; [by etrans|]. split; [done|].
  intros p Hp. destruct (H8 p Hp) as [Hp'|]; [|auto]. destruct (H4 p Hp') as [|Hd]; [auto|].
  right. by apply (subseteq_dom _ _ H6).
Qed.

Lemma grown_keeps s0 cur s cur' s' p d :
  grown s0 cur s cur' s' -> cur !! p = Some d -> marked (mset s) p ->
  cur' !! p = Some d /\ marked (mset s') p.
Proof.
  intros (H1 & H2 & _) Hp Hm. split; [by eapply lookup_weaken|by apply (stable_marks _ _ H1)].
Qed.

Lemma addRelative_spec s0 rel reason cur (e : E) :
  (forall d, rel = Some d -> stageDescSet (mset s0) !! d.1 = Some d.2) ->
  cur ⊆ stageDescSet (mset s0) ->
  wpb B (addRelative rel reason cur) e (fun cur' e' =>
    grown s0 cur (own e) cur' (own e') /\
    forall d, rel = Some d -> cur' !! d.1 = Some d.2 /\ marked (mset (own e')) d.1).
Proof.
  intros Hr Hc. destruct rel as [d|]; [|apply wpb_ret; split; [by apply grown_refl|done]].
  specialize (Hr d eq_refl). unfold addRelative, protect, update. 
  unfold wpb, mbind, prog_bind. simpl. split.
  - split; [|split; [|split]].
    + split; try done. intros p. simpl. rewrite marked_mark. auto.
    + unfold add. apply map_subseteq_spec. intros p x Hp. destruct (decide (p = d.1)) as [->|].
      * rewrite lookup_insert_eq. rewrite <-Hr. by eapply lookup_weaken.
      * by rewrite lookup_insert_ne.
    + unfold add. by apply insert_subseteq_l.
    + intros p. simpl. rewrite marked_mark. unfold add. rewrite dom_insert. set_solver.
  - intros d' [= <-]. split; [apply lookup_insert_eq|]. simpl. rewrite marked_mark. auto.
Qed.

(** A loop that only lets the set of relatives grow. *)
Lemma wpb_grow {A} s0 (l : list A) body cur (e : E) :
  cur ⊆ stageDescSet (mset s0) -> stable s0 (own e) ->
  (forall x c (e1 : E), x ∈ l -> c ⊆ stageDescSet (mset s0) -> stable s0 (own e1) ->
     wpb B (body c x) e1 (fun c' e' => grown s0 c (own e1) c' (own e'))) ->
  wpb B (for_fold l cur body) e (fun c' e' => grown s0 cur (own e) c' (own e')).
Proof.
  intros Hc Hs Hb.
  eapply (wpb_for_fold B (fun _ _ c (e1 : E) => grown s0 cur (own e) c (own e1)));
    [|by apply grown_refl].
  intros dn x rest c e1 El Hg. eapply wpb_mono; [apply Hb|].
  - rewrite <-El. set_solver.
  - apply Hg.
  - etrans; [done|apply Hg].
  - intros c' e' Hg'. by eapply grown_trans.
Qed.

Lemma found_in_set s0 s id d :
  indexed (mset s0) -> stable s0 s ->
  GetStageDescByStageID (stageManager s) id = Some d ->
  stageDescSet (mset s0) !! d.1 = Some d.2.
Proof.
  intros Hi Hs. unfold GetStageDescByStageID, set_GetStageDescByStageID.
  rewrite (stable_index _ _ Hs). intros E. by apply (Hi id).
Qed.

Lemma sources_spec s0 d cur (e : E) :
  indexed (mset s0) -> stable s0 (own e) -> cur ⊆ stageDescSet (mset s0) ->
  wpb B (importAndDependencySources d cur) e (fun cur' e' =>
    grown s0 cur (own e) cur' (own e')).
Proof.
  intros Hi Hs Hc. unfold importAndDependencySources. apply wpb_bind, wpb_iterate.
  intros labels e1 _ Ho. rewrite <-Ho in Hs |- *. apply wpb_grow; [done..|].
  intros [l v] c e2 _ Hc2 Hs2. simpl. destruct (Str.HasPrefix _ _).
  - apply wpb_bind. apply wpb_grow; [done..|]. intros id c' e3 _ Hc3 Hs3.
    destruct (Str.HasPrefix _ _); [by apply wpb_ret, grown_refl|].
    apply wpb_bind, wpb_manager. eapply wpb_mono; [apply (addRelative_spec s0)|]; [|done|].
    + intros x. by apply found_in_set.
    + intros ? ? [? _]. done.
  - destruct (Str.HasPrefix _ _); [|by apply wpb_ret, grown_refl].
    apply wpb_bind, wpb_manager. eapply wpb_mono; [apply (addRelative_spec s0)|]; [|done|].
    + intros x. by apply found_in_set.
    + intros ? ? [? _]. done.
Qed.

Lemma findDesc_Some test l d : findDesc test l = Some d -> d ∈ l /\ test d = true.
Proof. induction l as [|x l IH]; simpl; [done|]. destruct (test x) eqn:E; [|set_solver].
  intros [= ->]. set_solver. Qed.

Lemma findDesc_None test l : findDesc test l = None -> forall d, d ∈ l -> test d = false.
Proof. induction l as [|x l IH]; simpl; [set_solver|]. destruct (test x) eqn:E; [done|].
  set_solver. Qed.

Lemma parents_spec s0 d cur (e : E) :
  indexed (mset s0) -> stable s0 (own e) -> cur ⊆ stageDescSet (mset s0) ->
  wpb B (parents (stageDescSet (mset s0)) d cur) e (fun cur' e' =>
    grown s0 cur (own e) cur' (own e') /\
    forall q, parent s0 d.2 q -> q.1 ∈ dom cur' /\ marked (mset (own e')) q.1).
Proof.
  intros Hi Hs Hc. unfold parents. apply wpb_bind, wpb_iterate.
  intros order e1 Hord Ho. rewrite <-Ho in Hs |- *. apply wpb_bind.
  set (test := fun x : Desc => bool_decide
    (Image.ParentID (Image.SDInfo d.2) = Image.ID (Image.SDInfo x.2))).
  eapply wpb_mono; [apply (addRelative_spec s0); [|done]|].
  { intros [p x] Hf. apply findDesc_Some in Hf as [Hin _]. rewrite Hord in Hin.
    by apply elem_of_map_to_list. }
  intros c2 e2 [G2 Hf2]. apply wpb_bind, wpb_manager.
  eapply wpb_mono; [apply (addRelative_spec s0); [|apply G2]|].
  { intros x. apply found_in_set; [done|]. etrans; [done|apply G2]. }
  intros c3 e3 [G3 Hf3]. split; [by eapply grown_trans|].
  intros q [Hq|(Hq & Hid & Huniq)].
  - assert (GetStageDescByStageID (stageManager (own e2))
      (Image.label (Image.Labels (Image.SDInfo d.2)) Image.WerfParentStageID) = Some q) as Hget.
    { unfold GetStageDescByStageID, set_GetStageDescByStageID.
      rewrite (stable_index _ _ (proj1 G2)), (stable_index _ _ Hs). done. }
    destruct (Hf3 q Hget). split; [by apply elem_of_dom|done].
  - destruct (findDesc test order) as [[p x]|] eqn:Ef.
    + destruct (findDesc_Some _ _ _ Ef) as [Hin Ht]. rewrite Hord in Hin.
      apply elem_of_map_to_list in Hin. apply bool_decide_eq_true in Ht.
      assert (p = q.1) as -> by eauto. destruct (Hf2 _ eq_refl) as [Hp2 Hm2].
      destruct (grown_keeps _ _ _ _ _ _ _ G3 Hp2 Hm2). split; [by apply elem_of_dom|done].
    + pose proof (findDesc_None _ _ Ef q) as Hn. rewrite Hord in Hn.
      destruct q as [p x]. specialize (Hn ltac:(by apply elem_of_map_to_list)).
      by apply bool_decide_eq_false in Hn.
Qed.

(** One step of a pass. *)
Definition visit (s0 : CleanupState) (withSources : bool) (st : StageDescSet * StageDescSet)
  (d : Desc) : prog E (StageDescSet * StageDescSet) :=
  let current := delete d.1 st.1 in
  if bool_decide (is_Some (st.2 !! d.1)) then mret (current, st.2)
  else
    current ← relatives (stageDescSet (mset s0)) withSources d current;
    mret (current, add d st.2).

Definition covers (st st' : StageDescSet * StageDescSet) : Prop :=
  forall p, p ∈ dom st.1 \/ p ∈ dom st.2 -> p ∈ dom st'.1 \/ p ∈ dom st'.2.

Lemma visit_spec s0 ws d cur handled (e : E) :
  stageDescSet (mset s0) !! d.1 = Some d.2 -> Inv s0 (own e) cur handled ->
  wpb B (visit s0 ws (cur, handled) d) e (fun st' e' =>
    Inv s0 (own e') st'.1 st'.2 /\ covers (cur, handled) st' /\ handled ⊆ st'.2 /\
    d.1 ∈ dom st'.2 /\
    (d.1 ∈ dom handled -> st' = (delete d.1 cur, handled))).
Proof.
  intros Hd [Is Ii Ic Ih Im Icl]. unfold visit. simpl. case_bool_decide as Hh.
  - apply wpb_ret. simpl. assert (d.1 ∈ dom handled) by by apply elem_of_dom.
    split; [|split; [|split; [done|split; [done|done]]]].
    + split; try done.
      * etrans; [apply delete_subseteq|done].
      * intros p Hp. rewrite dom_delete_L. destruct (Im p Hp) as [|[|]]; [auto| |auto].
        destruct (decide (p = d.1)) as [->|]; [auto|set_solver].
      * intros p x q Hp Hq. rewrite dom_delete_L. destruct (Icl p x q Hp Hq) as [? [|]]; [|auto].
        split; [done|]. destruct (decide (q.1 = d.1)) as [->|]; [auto|set_solver].
    + intros p. simpl. rewrite dom_delete_L. destruct (decide (p = d.1)) as [->|]; set_solver.
  - assert (delete d.1 cur ⊆ stageDescSet (mset s0)) as Hdel
      by (etrans; [apply delete_subseteq|done]).
    apply wpb_bind. unfold relatives. apply wpb_bind.
    assert (wpb B (if ws then importAndDependencySources d (delete d.1 cur)
                   else mret (delete d.1 cur)) e
      (fun c e' => grown s0 (delete d.1 cur) (own e) c (own e'))) as Hsrc.
    { destruct ws; [by apply sources_spec|by apply wpb_ret, grown_refl]. }
    eapply wpb_mono; [apply Hsrc|]. intros c1 e1 G1.
    eapply wpb_mono; [apply (parents_spec s0 d)|]; [done|by etrans; [|apply G1]|apply G1|].
    intros c2 e2 [G2 Hpar]. pose proof (grown_trans _ _ _ _ _ _ _ G1 G2) as G.
    destruct G as (Gs & Gsub & Gset & Gm). apply wpb_ret. simpl.
    assert (dom (add d handled) = {[d.1]} ∪ dom handled) as Hdom
      by (unfold add; apply dom_insert_L).
    pose proof (subseteq_dom _ _ Gsub) as Gdom. rewrite dom_delete_L in Gdom.
    split; [split|split; [|split; [|split]]].
    + by etrans.
    + done.
    + done.
    + unfold add. by apply insert_subseteq_l.
    + intros p Hp. rewrite Hdom. destruct (Gm p Hp) as [Hp'|]; [|auto].
      destruct (Im p Hp') as [|[|]]; [auto| |set_solver].
      destruct (decide (p = d.1)); set_solver.
    + intros p x q. unfold add. rewrite lookup_insert_Some. rewrite dom_insert_L.
      intros [[<- <-]|[Hne Hp]] Hq.
      * destruct (Hpar q Hq). auto.
      * destruct (Icl p x q Hp Hq) as [Hq1 Hq2]. split; [by apply (stable_marks _ _ Gs)|].
        destruct Hq2; [|set_solver]. destruct (decide (q.1 = d.1)); set_solver.
    + intros p. simpl. rewrite Hdom. destruct (decide (p = d.1)); set_solver.
    + unfold add. apply insert_subseteq. by apply eq_None_not_Some.
    + rewrite Hdom. set_solver.
    + intros Hin. by apply elem_of_dom in Hin.
Qed.

(** A pass handles its slice; where all of it is handled already, it only removes it. *)
Lemma pass_spec s0 ws slice cur handled (e : E) :
  (forall d, d ∈ slice -> stageDescSet (mset s0) !! d.1 = Some d.2) ->
  Inv s0 (own e) cur handled ->
  wpb B (pass (stageDescSet (mset s0)) ws slice (cur, handled)) e (fun st' e' =>
    Inv s0 (own e') st'.1 st'.2 /\ covers (cur, handled) st' /\ handled ⊆ st'.2 /\
    (forall d, d ∈ slice -> d.1 ∈ dom st'.2) /\
    ((forall d, d ∈ slice -> d.1 ∈ dom handled) ->
       st'.2 = handled /\ forall p, p ∈ dom st'.1 <-> p ∈ dom cur /\ p ∉ slice.*1)).
Proof.
  intros Hs HI. unfold pass.
  eapply (wpb_for_fold B (fun dn _ (st' : StageDescSet * StageDescSet) (e' : E) =>
    Inv s0 (own e') st'.1 st'.2 /\ covers (cur, handled) st' /\ handled ⊆ st'.2 /\
    (forall d, d ∈ dn -> d.1 ∈ dom st'.2) /\
    ((forall d, d ∈ slice -> d.1 ∈ dom handled) ->
       st'.2 = handled /\ forall p, p ∈ dom st'.1 <-> p ∈ dom cur /\ p ∉ dn.*1))).
  2: { split; [done|]. split; [by intros p|]. split; [done|]. split; [set_solver|].
       intros _. split; [done|]. set_solver. }
  intros dn d rest [c h] e1 El (HI1 & Hcov & Hsub & Hdn & Hall). simpl in *.
  assert (d ∈ slice) as Hin by (rewrite <-El; set_solver).
  eapply wpb_mono; [by apply (visit_spec s0 ws d c h); auto|].
  intros [c' h'] e2 (HI2 & Hcov2 & Hsub2 & Hd2 & Hskip). simpl in *.
  split; [done|]. split; [intros p Hp; by apply Hcov2, Hcov|]. split; [by etrans|]. split.
  - intros x. rewrite elem_of_app, list_elem_of_singleton. intros [Hx| ->]; [|done].
    by apply (subseteq_dom _ _ Hsub2), Hdn.
  - intros Hh. destruct (Hall Hh) as [-> Hc]. pose proof (Hskip (Hh d Hin)) as E; injection E as -> ->.
    split; [done|]. intros p. rewrite dom_delete_L, fmap_app. set_solver.
Qed.

Lemma size_strict (h h' : StageDescSet) p :
  h ⊆ h' -> p ∈ dom h' -> p ∉ dom h -> size h < size h'.
Proof.
  intros Hs Hp Hn. rewrite <-!size_dom. apply subset_size.
  split; [by apply subseteq_dom|set_solver].
Qed.

(** The fuel of a pass for every stage not handled yet, and two more, is enough. *)
Lemma passes_spec s0 ws fuel cur handled (e : E) :
  Inv s0 (own e) cur handled ->
  size (stageDescSet (mset s0)) - size handled + (if decide (cur = ∅) then 1 else 2) <= fuel ->
  wpb B (passes fuel (stageDescSet (mset s0)) ws (cur, handled)) e (fun handled' e' =>
    Inv s0 (own e') ∅ handled' /\ handled ⊆ handled' /\ dom cur ⊆ dom handled').
Proof.
  revert cur handled e. induction fuel as [|fuel IH]; intros cur handled e HI Hf;
    [destruct (decide _); lia|]. cbn [passes fst snd].
  case_bool_decide as Hc.
  { subst. apply wpb_ret. split; [done|]. set_solver. }
  destruct (decide (cur = ∅)) as [|_]; [done|]. apply wpb_bind, wpb_iterate.
  intros slice e1 Hsl Ho. apply wpb_bind. rewrite <-Ho in HI.
  assert (forall d, d ∈ slice -> cur !! d.1 = Some d.2) as Hcur.
  { intros [p x]. rewrite Hsl. apply elem_of_map_to_list. }
  assert (forall p, p ∈ dom cur -> exists x, (p, x) ∈ slice) as Hcov0.
  { intros p [x Hx]%elem_of_dom. exists x. by rewrite Hsl, elem_of_map_to_list. }
  eapply wpb_mono; [apply pass_spec; [|done]|].
  { intros d Hd. eapply lookup_weaken; [by apply Hcur|apply HI]. }
  intros [c h] e2 (HI2 & Hcov & Hsub & Hin & Hall). cbn [fst snd] in *.
  assert (dom cur ⊆ dom h) as Hch.
  { intros p Hp. destruct (Hcov0 p Hp) as [x Hx]. apply (Hin _ Hx). }
  eapply wpb_mono; [apply IH; [done|]|].
  - destruct (decide (Forall (fun d => d.1 ∈ dom handled) slice)) as [Hh|Hh].
    + rewrite Forall_forall in Hh. destruct (Hall Hh) as [-> Hcd]. assert (c = ∅) as ->.
      { apply dom_empty_inv_L, set_eq. intros p. rewrite Hcd. split; [|set_solver].
        intros [Hp Hn]. destruct (Hcov0 p Hp) as [x Hx]. destruct Hn.
        apply list_elem_of_fmap. by exists (p, x). }
      rewrite decide_True by done. lia.
    + apply not_Forall_Exists in Hh; [|typeclasses eauto].
      apply Exists_exists in Hh as (d & Hd & Hn). simpl in Hn.
      pose proof (size_strict handled h d.1 Hsub (Hin d Hd) Hn).
      assert (size h <= size (stageDescSet (mset s0))).
      { rewrite <-!size_dom. apply subseteq_size, subseteq_dom, HI2. }
      destruct (decide (c = ∅)); lia.
  - intros h' e3 (HI3 & Hsub3 & Hdom3). split; [done|]. split; [by etrans|].
    etrans; [exact Hch|by apply subseteq_dom].
Qed.

(** The first stage of the set with a digest. *)
Lemma findDigest_spec digest l :
  match findDigest digest l with
  | Ok (Some d) => d ∈ l /\ Image.GetDigest (Image.SDInfo d.2) = Ok digest
  | Ok None => forall d, d ∈ l -> Image.GetDigest (Image.SDInfo d.2) <> Ok digest
  | Err _ => False
  | Panic _ => exists d m, d ∈ l /\ Image.GetDigest (Image.SDInfo d.2) = Panic m
  end.
Proof.
  induction l as [|x l IH]; simpl; [set_solver|].
  unfold mbind, res_bind. destruct (Image.GetDigest (Image.SDInfo x.2)) as [y|y|m] eqn:E.
  - case_bool_decide as Ey; [subst; split; [by left|done]|].
    destruct (findDigest digest l) as [[d|]|m|].
    + destruct IH. split; [by right|done].
    + intros d [-> | Hd]%elem_of_cons; [congruence|auto].
    + done.
    + destruct IH as (d & m & ? & ?). exists d, m. split; [by right|done].
  - unfold Image.GetDigest in E. case_bool_decide; [done|].
    by destruct (Str.Split _ _) as [|? [|? []]].
  - exists x, m. split; [by left|done].
Qed.

Lemma GetDigest_not_Err i x : Image.GetDigest i <> Err x.
Proof.
  unfold Image.GetDigest. case_bool_decide; [done|]. by destruct (Str.Split _ _) as [|? [|? []]].
Qed.

(** Where the set has a stage with the platform's digest, one of them is marked. *)
Definition platform_marked (s0 : CleanupState) (cur : StageDescSet) (s : CleanupState)
  (i : Image.Info) : Prop :=
  forall digest, Image.GetDigest i = Ok digest -> digest <> "" ->
    (exists q x, stageDescSet (mset s0) !! q = Some x /\
       Image.GetDigest (Image.SDInfo x) = Ok digest) ->
    exists q x, cur !! q = Some x /\ marked (mset s) q /\
      Image.GetDigest (Image.SDInfo x) = Ok digest.

Lemma platform_marked_grown s0 c s c' s' i :
  platform_marked s0 c s i -> grown s0 c s c' s' -> platform_marked s0 c' s' i.
Proof.
  intros Hp G digest H1 H2 H3. destruct (Hp digest H1 H2 H3) as (q & x & Hq & Hm & Hx).
  destruct (grown_keeps _ _ _ _ _ _ _ G Hq Hm). eauto.
Qed.

(** The platform images of an index that are in the set get marked. *)
Lemma platformImages_spec s0 d (e : E) p :
  (~ digests_ok (stageDescSet (mset s0)) -> B) -> stageDescSet (mset s0) !! p = Some d ->
  indexed (mset s0) -> stable s0 (own e) ->
  wpb B (platformImages d) e (fun cur e' =>
    grown s0 ∅ (own e) cur (own e') /\
    forall i, i ∈ Image.Index (Image.SDInfo d) -> platform_marked s0 cur (own e') i).
Proof.
  intros HB Hp Hi Hs. unfold platformImages.
  eapply (wpb_for_fold B (fun dn _ (cur : StageDescSet) (e' : E) =>
    grown s0 ∅ (own e) cur (own e') /\
    forall i, i ∈ dn -> platform_marked s0 cur (own e') i)).
  2: { split; [apply grown_refl, map_empty_subseteq|set_solver]. }
  intros dn i rest cur e1 El [G Hdn].
  assert (forall cur' (e' : E), grown s0 cur (own e1) cur' (own e') ->
    platform_marked s0 cur' (own e') i ->
    grown s0 ∅ (own e) cur' (own e') /\
    forall i0, i0 ∈ dn ++ [i] -> platform_marked s0 cur' (own e') i0) as Hstep.
  { intros cur' e' G' Hd'. split; [by eapply grown_trans|]. intros i0 Hin.
    apply elem_of_app in Hin as [Hin| ->%list_elem_of_singleton]; [|done].
    by eapply platform_marked_grown; [apply Hdn|]. }
  assert (i ∈ Image.Index (Image.SDInfo d)) as Hin by (rewrite <-El; set_solver).
  apply wpb_bind, wpb_lift; [|intros m Hm; apply HB; intros Hok|by apply GetDigest_not_Err].
  2: { destruct (Hok _ _ Hp) as [_ Hx]. destruct (Hx i Hin). congruence. }
  intros digest Hdi. case_bool_decide as He.
  { apply wpb_ret, Hstep; [apply grown_refl, G|]. intros x Hx Hne. congruence. }
  apply wpb_bind, wpb_manager, wpb_bind, wpb_iterate. intros order e2 Hord Ho.
  unfold mgr_StageDescSet in Hord. rewrite (stable_set s0) in Hord by (etrans; [done|apply G]).
  pose proof (findDigest_spec digest order) as Hfind.
  apply wpb_bind, wpb_lift; [|intros m Hm; apply HB; intros Hok|intros x Hx; by rewrite Hx in Hfind].
  2: { rewrite Hm in Hfind. destruct Hfind as ([q x] & m' & Hq & Hx). rewrite Hord in Hq.
       apply elem_of_map_to_list in Hq. destruct (Hok _ _ Hq) as [[y Hy] _]. simpl in Hx. congruence. }
  intros found Hf. rewrite Hf in Hfind.
  assert (forall q, found = Some q -> stageDescSet (mset s0) !! q.1 = Some q.2) as Hset.
  { intros [q x] ->. destruct Hfind as [Hq _]. rewrite Hord in Hq. by apply elem_of_map_to_list. }
  eapply wpb_mono; [apply (addRelative_spec s0); [done|apply G]|].
  intros cur' e3 [G3 Hadd]. rewrite Ho in G3. apply Hstep; [done|].
  intros dg Hdg Hne (q & x & Hq & Hx). rewrite Hdi in Hdg. injection Hdg as <-.
  destruct found as [[r y]|].
  - destruct (Hadd _ eq_refl). destruct Hfind as [_ Hy]. eauto.
  - destruct (Hfind (q, x)); [|done]. rewrite Hord. by apply elem_of_map_to_list.
Qed.

(** ** The marks only grow *)

Abbreviation keeps_stable := (keeps (on (@own W CleanupState) stable)).

Lemma keeps_protect d reason : keeps_stable (protect (W:=W) d reason).
Proof.
  intros e. unfold on. simpl. split; try done. intros p. simpl. rewrite marked_mark. auto.
Qed.

Lemma keeps_manager : keeps_stable (manager (W:=W)).
Proof. intros e. unfold on. simpl. reflexivity. Qed.

Hint Resolve keeps_protect keeps_manager : werf.

Lemma keeps_addRelative rel reason cur : keeps_stable (addRelative (W:=W) rel reason cur).
Proof. unfold addRelative. destruct rel; auto with werf. Qed.
Hint Resolve keeps_addRelative : werf.

Lemma keeps_sources d cur : keeps_stable (importAndDependencySources (W:=W) d cur).
Proof.
  unfold importAndDependencySources. apply keeps_bind; auto with werf. intros labels.
  apply keeps_for_fold; auto with werf. intros c lv _. destruct (Str.HasPrefix _ _).
  - apply keeps_bind; auto with werf. intros s. apply keeps_for_fold; auto with werf.
    intros c' id _. destruct (Str.HasPrefix _ _); auto with werf.
  - destruct (Str.HasPrefix _ _); auto with werf.
Qed.

Lemma keeps_relatives set ws d cur : keeps_stable (relatives (W:=W) set ws d cur).
Proof.
  unfold relatives, parents. apply keeps_bind; [typeclasses eauto| |auto 8 with werf].
  destruct ws; auto with werf. apply keeps_sources.
Qed.
Hint Resolve keeps_relatives : werf.

Lemma keeps_passes fuel set ws st : keeps_stable (passes (W:=W) fuel set ws st).
Proof.
  revert st. induction fuel as [|fuel IH]; intros st; simpl; auto with werf.
  case_bool_decide; auto with werf. apply keeps_bind; auto with werf. intros slice.
  apply keeps_bind; auto with werf. unfold pass. apply keeps_for_fold; auto with werf.
  intros st' d _. case_bool_decide; auto with werf.
Qed.
Hint Resolve keeps_passes : werf.

Lemma keeps_protectRelative d ws handled :
  keeps_stable (protectRelativeStageDescSetByStageDesc (W:=W) d ws handled).
Proof.
  unfold protectRelativeStageDescSetByStageDesc, platformImages.
  apply keeps_bind; [typeclasses eauto| |auto with werf].
  destruct (Image.IsIndex _); auto with werf. apply keeps_for_fold; auto with werf.
  intros set i _. apply keeps_bind; auto with werf. intros digest.
  case_bool_decide; auto 8 with werf.
Qed.
Hint Resolve keeps_protectRelative : werf.

Lemma keeps_protectRelatives : keeps_stable (protectRelatives (W:=W)).
Proof.
  unfold protectRelatives. apply keeps_bind; auto with werf. intros m.
  apply keeps_bind; auto 10 with werf.
Qed.

(** ** The search from one stage, and from all of them *)

(** What the search from a kept stage has to do: handle the stage, or the platforms of an
    index. *)
Definition served (s0 : CleanupState) (handled : StageDescSet) (s : CleanupState) (d : Desc)
  : Prop :=
  if Image.IsIndex (Image.SDInfo d.2)
  then forall i, i ∈ Image.Index (Image.SDInfo d.2) -> platform_marked s0 handled s i
  else d.1 ∈ dom handled.

Lemma served_mono s0 h s h' s' d :
  served s0 h s d -> h ⊆ h' -> stable s s' -> served s0 h' s' d.
Proof.
  unfold served. intros Hs Hh Hst. destruct (Image.IsIndex _).
  - intros i Hi digest H1 H2 H3. destruct (Hs i Hi digest H1 H2 H3) as (q & x & Hq & Hm & Hx).
    exists q, x. split; [by eapply lookup_weaken|]. split; [by apply (stable_marks _ _ Hst)|done].
  - by apply (subseteq_dom _ _ Hh).
Qed.

Lemma protectRelative_spec s0 ws d handled (e : E) :
  (~ digests_ok (stageDescSet (mset s0)) -> B) ->
  stageDescSet (mset s0) !! d.1 = Some d.2 -> Inv s0 (own e) ∅ handled ->
  wpb B (protectRelativeStageDescSetByStageDesc d ws handled) e (fun handled' e' =>
    Inv s0 (own e') ∅ handled' /\ handled ⊆ handled' /\ served s0 handled' (own e') d).
Proof.
  intros HB Hd HI. unfold protectRelativeStageDescSetByStageDesc. apply wpb_bind.
  assert (wpb B (if Image.IsIndex (Image.SDInfo d.2) then platformImages d.2
                 else mret (add d ∅)) e (fun targets e' =>
    Inv s0 (own e') targets handled /\ served s0 targets (own e') d)) as Ht.
  { unfold served. destruct (Image.IsIndex _).
    - eapply wpb_mono; [eapply platformImages_spec; [done|done|apply HI|apply HI]|].
      intros targets e' [(Gs & _ & Gset & Gm) Hp]. split; [|done]. destruct HI as [Is Ii _ Ih Im Icl].
      split; [by etrans|done..| |].
      + intros p Hp'. destruct (Gm p Hp') as [Hp''|]; [|auto]. destruct (Im p Hp''); set_solver.
      + intros p x q Hp' Hq. destruct (Icl p x q Hp' Hq) as [? [|]]; [set_solver|].
        split; [by apply (stable_marks _ _ Gs)|auto].
    - apply wpb_ret. destruct HI as [Is Ii _ Ih Im Icl]. unfold add.
      split; [split; try done|rewrite dom_insert_L; set_solver].
      + apply insert_subseteq_l; [done|apply map_empty_subseteq].
      + intros p Hp. destruct (Im p Hp) as [|[|]]; [auto|set_solver|auto].
      + intros p x q Hp Hq. destruct (Icl p x q Hp Hq) as [? [|]]; [set_solver|auto]. }
  eapply wpb_mono; [apply Ht|]. clear Ht. intros targets e1 [HI1 Hs1].
  apply wpb_bind, wpb_manager. unfold mgr_StageDescSet.
  rewrite (stable_set s0 (own e1)) by apply HI1.
  eapply wpb_mono; [apply wpb_keeps; [apply keeps_passes|apply (passes_spec s0); [done|]]|].
  - rewrite (map_subseteq_union targets) by apply HI1. destruct (decide _); lia.
  - intros h' e2 [(HI2 & Hsub & Hdom) Hst]. split; [done|]. split; [done|].
    eapply served_mono; [|reflexivity|exact Hst]. unfold served in *. destruct (Image.IsIndex _).
    + intros i Hi digest H1 H2 H3. destruct (Hs1 i Hi digest H1 H2 H3) as (q & x & Hq & Hm & Hx).
      exists q, x. split; [|done].
      assert (q ∈ dom h') as [y Hy]%elem_of_dom by (apply Hdom; by apply elem_of_dom).
      rewrite Hy. f_equal. pose proof (lookup_weaken _ _ _ _ Hy (inv_handled _ _ _ _ HI2)).
      pose proof (lookup_weaken _ _ _ _ Hq (inv_cur _ _ _ _ HI1)). congruence.
    + by apply Hdom.
Qed.

Lemma Inv_refl s : indexed (mset s) -> Inv s s ∅ ∅.
Proof.
  intros Hi. split; [reflexivity|done|apply map_empty_subseteq|apply map_empty_subseteq|auto|].
  intros p d q. by rewrite lookup_empty.
Qed.

Lemma protectRelatives_spec (e : E) :
  (~ digests_ok (stageDescSet (mset (own e))) -> B) ->
  indexed (mset (own e)) -> marks_in_set (mset (own e)) ->
  wpb B (protectRelatives (W:=W)) e (fun _ e' => exists handled,
    Inv (own e) (own e') ∅ handled /\
    forall p d, stageDescSet (mset (own e)) !! p = Some d -> marked (mset (own e)) p ->
      served (own e) handled (own e') (p, d)).
Proof.
  intros HB Hi Hm. set (s0 := own e) in *. unfold protectRelatives.
  apply wpb_bind, wpb_manager, wpb_bind, wpb_iterate. intros byReason e1 Hby Ho.
  assert (forall r set p d, (r, set) ∈ byReason -> set !! p = Some d ->
    stageDescSet (mset s0) !! p = Some d) as Hset.
  { intros r set p d Hin Hp. rewrite Hby in Hin. apply elem_of_map_to_list in Hin.
    destruct (proj1 (byReason_lookup (mset s0) r p d)) as (meta & Hmeta & _).
    - unfold GetProtectedStageDescSetByReason in Hin. change (own e) with s0 in Hin. by rewrite Hin.
    - by apply (Hm p d meta). }
  apply wpb_bind. eapply wpb_mono.
  - apply (wpb_for_fold B (fun dn _ (h : StageDescSet) (e' : E) =>
      Inv s0 (own e') ∅ h /\ forall r set p d, (r, set) ∈ dn -> set !! p = Some d ->
        served s0 h (own e') (p, d))); [|split; [rewrite Ho; by apply Inv_refl|set_solver]].
    intros dn [r set] rest h e2 El [HI Hdn]. apply wpb_bind, wpb_iterate.
    intros order e3 Hord Ho3. rewrite <-Ho3 in HI. 
    assert (forall p d, (p, d) ∈ order <-> set !! p = Some d) as Hin
      by (intros; by rewrite Hord, elem_of_map_to_list).
    eapply wpb_mono.
    + apply (wpb_for_fold B (fun dn' _ (h' : StageDescSet) (e' : E) =>
        Inv s0 (own e') ∅ h' /\ h ⊆ h' /\ stable (own e2) (own e') /\
        forall d, d ∈ dn' -> served s0 h' (own e') d));
        [|split; [done|split; [done|split; [by rewrite Ho3|set_solver]]]].
      intros dn' d rest' h' e4 El' (HI' & Hsub & Hst & Hdn').
      eapply wpb_mono; [apply wpb_keeps; [apply keeps_protectRelative|
        apply (protectRelative_spec s0); [done| |done]]|].
      * destruct d as [p x]. apply (Hset r set); [rewrite <-El; set_solver|].
        apply Hin. rewrite <-El'. set_solver.
      * intros h2 e5 [(HI2 & Hsub2 & Hs2) Hst2].
        split; [done|]. split; [by etrans|]. split; [by etrans|].
        intros y [Hy| ->%list_elem_of_singleton]%elem_of_app; [|done].
        eapply served_mono; [by apply Hdn'|done|done].
    + intros h' e4 (HI4 & Hsub & Hst & Hall). split; [done|].
      intros r' set' p d [Hd|[= -> ->]%list_elem_of_singleton]%elem_of_app Hp.
      * eapply served_mono; [by eapply Hdn|done|done].
      * by apply Hall, Hin.
  - intros h e2 [HI Hall]. apply wpb_ret. exists h. split; [done|].
    intros p d Hp (d' & meta & Hmeta & Hpr). pose proof (Hm p d' meta Hmeta) as Hp'.
    rewrite Hp in Hp'. injection Hp' as <-.
    assert (default ∅ (set_GetProtectedStageDescSetByReason (mset s0) !! reasonOf meta) !! p = Some d)
      as Hr by (apply byReason_lookup; eauto).
    destruct (set_GetProtectedStageDescSetByReason (mset s0) !! reasonOf meta) as [set|] eqn:Er;
      simpl in Hr; [|by rewrite lookup_empty in Hr].
    apply (Hall (reasonOf meta) set); [|done]. rewrite Hby, elem_of_map_to_list. exact Er.
Qed.

(** An ancestor of a stage, itself included. *)
Definition ancestor (s : CleanupState) : Desc -> Desc -> Prop :=
  rtc (fun d q => parent s d.2 q).

Lemma ancestors_handled s0 s h p d q :
  Inv s0 s ∅ h -> h !! p = Some d -> marked (mset s) p -> ancestor s0 (p, d) q ->
  marked (mset s) q.1 /\ h !! q.1 = Some q.2.
Proof.
  intros HI Hp Hm Ha.
  assert (forall x, ancestor s0 x q -> h !! x.1 = Some x.2 -> marked (mset s) x.1 ->
    marked (mset s) q.1 /\ h !! q.1 = Some q.2) as Hgen; [|by apply (Hgen (p, d))].
  clear p d Hp Hm Ha. intros x Hx. induction Hx as [x|x y z Hxy _ IH]; [done|]. intros Hh Hm.
  destruct (inv_closed _ _ _ _ HI _ _ _ Hh Hxy) as [Hy [|Hd]]; [set_solver|].
  apply IH; [|done]. apply elem_of_dom in Hd as [y' Hy']. rewrite Hy'. f_equal.
  pose proof (lookup_weaken _ _ _ _ Hy' (inv_handled _ _ _ _ HI)) as Hset.
  destruct Hxy as [Hid|[Hid _]]; [|congruence].
  destruct (inv_indexed _ _ _ _ HI _ _ Hid). congruence.
Qed.

End search.

(** What is kept after the search, from what was kept before it. *)
Definition kept_closed (s0 s : CleanupState) : Prop :=
  (forall p d q, stageDescSet (mset s0) !! p = Some d -> marked (mset s0) p ->
     Image.IsIndex (Image.SDInfo d) = false -> ancestor s0 (p, d) q -> marked (mset s) q.1) /\
  (forall p d i digest, stageDescSet (mset s0) !! p = Some d -> marked (mset s0) p ->
     Image.IsIndex (Image.SDInfo d) = true -> i ∈ Image.Index (Image.SDInfo d) ->
     Image.GetDigest i = Ok digest -> digest <> "" ->
     (exists q x, stageDescSet (mset s0) !! q = Some x /\
        Image.GetDigest (Image.SDInfo x) = Ok digest) ->
     exists q x, stageDescSet (mset s0) !! q = Some x /\
       Image.GetDigest (Image.SDInfo x) = Ok digest /\
       forall r, ancestor s0 (q, x) r -> marked (mset s) r.1).

Lemma served_closed s0 s h :
  Inv s0 s ∅ h ->
  (forall p d, stageDescSet (mset s0) !! p = Some d -> marked (mset s0) p -> served s0 h s (p, d)) ->
  kept_closed s0 s.
Proof.
  intros HI Hs. split.
  - intros p d q Hp Hm Hx Ha. specialize (Hs p d Hp Hm). unfold served in Hs. simpl in Hs.
    rewrite Hx in Hs. apply elem_of_dom in Hs as [d' Hd'].
    pose proof (lookup_weaken _ _ _ _ Hd' (inv_handled _ _ _ _ HI)).
    assert (d' = d) as -> by congruence.
    eapply ancestors_handled; [done|done| |done]. by apply (stable_marks _ _ (inv_stable _ _ _ _ HI)).
  - intros p d i digest Hp Hm Hx Hi H1 H2 H3. specialize (Hs p d Hp Hm). unfold served in Hs.
    simpl in Hs. rewrite Hx in Hs. destruct (Hs i Hi digest H1 H2 H3) as (q & x & Hq & Hmq & Hdx).
    exists q, x. split; [eapply lookup_weaken; [done|apply HI]|]. split; [done|]. intros r Hr.
    eapply ancestors_handled; [done|done|done|done].
Qed.

End CleanupProtect.

Module CleanupProtectProps.
Import StagesStorage StorageManager StageManager StageManagerFacts Cleanup CleanupProtect.

(** C7: the search for the relatives of the kept stages ends, whatever cycles the labels of
    the stages have, without an error or a panic; it changes only marks, and adds none
    outside the set. After it, of every stage that was kept all ancestors are kept: the
    stage that its label names as the parent, or else the one with the id of its parent
    image, and so on; and of every index that was kept, the stage of each platform is kept
    with its ancestors. *)
Theorem protectRelatives_closed {W} `{!GoQuote, !Nondet, !GitHistory W, !CleaningLibrary W}
  (e : Env W CleanupState) :
  indexed (mset (own e)) -> marks_in_set (mset (own e)) ->
  digests_ok (stageDescSet (mset (own e))) ->
  wp protectRelatives e (fun _ e' =>
    stable (own e) (own e') /\ kept_closed (own e) (own e') /\
    forall p, marked (mset (own e')) p -> is_Some (stageDescSet (mset (own e)) !! p)).
Proof.
  intros Hi Hm Hd. apply (wpb_wp (~ digests_ok (stageDescSet (mset (own e))))); [|by intros Hn].
  eapply wpb_mono; [by apply protectRelatives_spec|].
  intros _ e' (h & HI & Hs). split; [apply HI|]. split; [by eapply served_closed|].
  intros p Hp. destruct (inv_marks _ _ _ _ HI p Hp) as [(d & meta & Hmeta & _)|[|Hh]].
  - exists d. by eapply Hm.
  - set_solver.
  - apply elem_of_dom in Hh as [d Hh]. exists d. eapply lookup_weaken; [done|apply HI].
Qed.

End CleanupProtectProps.
