(* ===== verification/CleanupFacts.v ===== *)
(** What a cleanup keeps of the world. [R] is a relation over the storages' world that
    everything but a deletion of a stage keeps; [P] is a condition on the cleanup's state,
    closed under more marks, under which the deletions that are made keep [R]. *)
From S2P Require Import Prelude Go Slug Image Registry StagesStorage RepoStorage Parallel.
From S2P Require Import StorageManager StageManager ManagerFacts StageManagerFacts AllowList.
From S2P Require Import Cleanup CleanupProtect.

Module CleanupFacts.
Import StagesStorage StorageManager StageManager ManagerFacts StageManagerFacts Cleanup
  CleanupProtect.

(** More marks on the same set; its index and the records of the images are left alone. *)
Record grows (s s' : CleanupState) : Prop := {
  grows_set : stageDescSet (mset s') = stageDescSet (mset s);
  grows_marks p : marked (mset s) p -> marked (mset s') p;
  grows_index : stageDescByStageID (mset s') = stageDescByStageID (mset s);
  grows_records : imageMetadataList (stageManager s') = imageMetadataList (stageManager s);
}.

#[export] Instance grows_PreOrder : PreOrder grows.
Proof. split; [by split|]. intros s1 s2 s3 [? ? ? ?] [? ? ? ?]. split; congruence || auto. Qed.

Lemma stable_grows s s' : stable s s' -> grows s s'.
Proof. intros [? ? ? ? ?]. by split. Qed.

(** What a cleanup calls, the deletions of stages apart, keeps [R]. *)
Record CleanupKeeps {W} `{!GoQuote, !Nondet, !GitHistory W, !CleaningLibrary W}
  (R : W -> W -> Prop) (sm : StorageManager.Manager W) (options : CleanupOptions W KeepPolicy)
  : Prop := {
  ck_reads : ManagerReads R sm;
  ck_records : DryRun options = false -> RecordsKeep R (StagesStorage sm);
  ck_filter : forall filter set o, localFilter sm = Some filter ->
    keeps R (filter set o) /\ forall w r w', filter set o w = (Ok r, w') -> r ⊆ set;
  ck_open : keeps R PlainOpen;
  ck_exists c : keeps R (IsCommitExists c);
  ck_refs ps : keeps R (ReferencesToScan ps);
  ck_scan rs l : keeps R (ScanReferencesHistory rs l);
  ck_now : keeps R time_Now;
  ck_kube client ns : client ∈ KubernetesContextClients options ->
    keeps R (AllowList.DeployedDockerImages (KubeAPI0 := Client client) ns);
  ck_post p : keeps R (PostLastCleanupRecord W (StagesStorage sm) p);
}.

Section facts.
Context {W : Type} `{!GoQuote, !Nondet, !GitHistory W, !CleaningLibrary W}.
Context (R : W -> W -> Prop) `{!PreOrder R}.
Variable sm : StorageManager.Manager W.
Variable options : CleanupOptions W KeepPolicy.
Context (P : CleanupState -> Prop) (HP : forall s s', grows s s' -> P s -> P s').
Hypothesis HK : CleanupKeeps R sm options.

Abbreviation E := (Env W CleanupState).
Abbreviation main := (StagesStorage sm).

(** From a state that satisfies [P], [R] holds of the worlds, and [P] again. *)
Definition guarded (e e' : E) : Prop := P (own e) -> R (ext e) (ext e') /\ P (own e').

#[export] Instance guarded_PreOrder : PreOrder guarded.
Proof.
  split; [split; [reflexivity|done]|]. intros e1 e2 e3 H1 H2 He1.
  destruct (H1 He1) as [? He2]. destruct (H2 He2). split; [by etrans|done].
Qed.

#[export] Instance guarded_Invisible : Invisible guarded.
Proof. split; intros [] ? ?; simpl; (split; [reflexivity|done]). Qed.

Abbreviation keepsP := (keeps guarded).

Lemma keepsP_call {A} (m : prog W A) : keeps R m -> keepsP (call m).
Proof.
  intros Hm e HPe. unfold call. specialize (Hm (ext e)). destruct (m (ext e)). by split.
Qed.

(** A change of the cleanup's state that only adds marks. *)
Lemma keepsP_own {A} (m : prog E A) :
  keeps (on (@own W _) grows) m -> keeps (on (@ext W _) eq) m -> keepsP m.
Proof.
  intros Hm He e HPe. specialize (Hm e). specialize (He e). unfold on in *.
  split; [by rewrite He|by apply (HP (own e))].
Qed.

Lemma keepsP_set_own_bind {A} (f : CleanupState -> CleanupState) (k : unit -> prog E A) :
  (forall s, grows s (f s)) -> (forall u, keepsP (k u)) ->
  keepsP (s ← get_own; set_own (f s) ≫= k).
Proof.
  intros Hf Hk e HPe. unfold mbind, prog_bind. simpl.
  apply (Hk tt (mkEnv (ext e) (tick e) (next_ptr e) (FinalStagesListCache e) (f (own e)))).
  by apply (HP (own e)).
Qed.

Lemma keepsP_update (f : Manager -> Manager) :
  (forall s, grows s (mkCleanupState (f (stageManager s)) (checksumSourceStageIDs s)
                        (sourceStageIDImportIDs s))) -> keepsP (update f).
Proof. intros Hf e HPe. split; [reflexivity|]. apply (HP (own e)); [apply Hf|done]. Qed.

Lemma grows_mark s d r f :
  grows s (mkCleanupState (MarkStageDescAsProtected (stageManager s) d r f)
             (checksumSourceStageIDs s) (sourceStageIDImportIDs s)).
Proof. split; try done. intros p. simpl. rewrite marked_mark. auto. Qed.

Lemma keepsP_protect d r : keepsP (protect d r).
Proof. apply keepsP_update. intros s. apply grows_mark. Qed.

Lemma keepsP_protectFinal d r : keepsP (protectFinal d r).
Proof. apply keepsP_update. by intros s. Qed.

Lemma keepsP_manager : keepsP manager.
Proof. intros e HPe. split; [reflexivity|done]. Qed.

Hint Resolve keepsP_call keepsP_protect keepsP_protectFinal keepsP_manager : werf.

Lemma keepsP_onDelete err : keepsP (onDelete err).
Proof. destruct err as [err|]; simpl; [destruct (handleDeletionError err)|]; auto with werf. Qed.
Hint Resolve keepsP_onDelete : werf.

Lemma keepsP_deleteImageMetadata i l : keepsP (deleteImageMetadata sm (DryRun options) i l).
Proof using All.
  unfold deleteImageMetadata. destruct (DryRun options) eqn:Ed; auto with werf.
  apply keeps_ForEachRmImageMetadata; auto with werf.
  intros. apply keepsP_call. apply (ck_records _ _ _ HK Ed).
Qed.

Lemma keepsP_deleteManagedImages l : keepsP (deleteManagedImages sm (DryRun options) l).
Proof using All.
  unfold deleteManagedImages. destruct (DryRun options) eqn:Ed; auto with werf.
  apply keeps_ForEachRmManagedImage; auto with werf.
  intros. apply keepsP_call. apply (ck_records _ _ _ HK Ed).
Qed.

Lemma keepsP_deleteImportsMetadata l : keepsP (deleteImportsMetadata sm (DryRun options) l).
Proof using All.
  unfold deleteImportsMetadata. destruct (DryRun options) eqn:Ed; auto with werf.
  apply keeps_ForEachRmImportMetadata; auto with werf.
  intros. apply keepsP_call. apply (ck_records _ _ _ HK Ed).
Qed.

Lemma keepsP_deleteCustomTags l : keepsP (deleteCustomTags sm (DryRun options) l).
Proof using All.
  unfold deleteCustomTags. destruct (DryRun options) eqn:Ed; auto with werf.
  apply keeps_ForEachDeleteStageCustomTag; auto with werf;
    intros; apply keepsP_call; apply (ck_records _ _ _ HK Ed).
Qed.

Hint Resolve keepsP_deleteImageMetadata keepsP_deleteManagedImages
  keepsP_deleteImportsMetadata keepsP_deleteCustomTags : werf.

Lemma main_reads : ReadsKeep R main.
Proof using All. apply HK. Qed.
Hint Resolve main_reads : werf.

Lemma keepsP_purgeImageMetadata : keepsP (purgeImageMetadata sm (DryRun options)).
Proof using All. unfold purgeImageMetadata. keeps_go. Qed.

Lemma keepsP_purgeManagedImages : keepsP (purgeManagedImages sm (DryRun options)).
Proof using All. unfold purgeManagedImages. keeps_go. Qed.

(** ** The policies *)

Lemma keepsP_markWhitelist : keepsP (markWhitelistStagesAsProtected options).
Proof using All. unfold markWhitelistStagesAsProtected. keeps_go. Qed.

Lemma keepsP_handleTagFunc dep h t id f : keepsP f -> keepsP (handleTagFunc sm dep h t id f).
Proof using All. intros Hf. unfold handleTagFunc. keeps_go. Qed.

Lemma keepsP_forgetTags id : keepsP (update (fun m => ForgetCustomTagsByStageID m id)).
Proof using All. apply keepsP_update. by intros s. Qed.
Hint Resolve keepsP_forgetTags keepsP_handleTagFunc : werf.

Lemma keepsP_skipStageIDs dep : keepsP (skipStageIDsThatAreUsedInKubernetes sm dep).
Proof using All.
  unfold skipStageIDsThatAreUsedInKubernetes. keeps_go. apply keepsP_handleTagFunc. keeps_go.
Qed.

Lemma keepsP_skipFinal dep : keepsP (skipFinalStageIDsThatAreUsedInKubernetes sm dep).
Proof using All. unfold skipFinalStageIDsThatAreUsedInKubernetes. keeps_go. Qed.
Hint Resolve keepsP_skipStageIDs keepsP_skipFinal : werf.

Lemma keepsP_deployedDockerImages : keepsP (deployedDockerImages options).
Proof using All.
  unfold deployedDockerImages. apply keeps_for_fold; [typeclasses eauto|]. intros imgs c Hc.
  keeps_go. apply keepsP_call, HK, Hc.
Qed.
Hint Resolve keepsP_deployedDockerImages : werf.

Lemma keepsP_kubernetesPolicy : keepsP (kubernetesPolicy sm options).
Proof using All. unfold kubernetesPolicy. keeps_go. Qed.

Lemma keepsP_keepRecentlyBuilt : keepsP (keepRecentlyBuilt options).
Proof using All. unfold keepRecentlyBuilt. keeps_go. apply keepsP_call, HK. Qed.

Lemma keepsP_deleteIfAny i l : keepsP (deleteIfAny sm options i l).
Proof using All. unfold deleteIfAny. keeps_go. Qed.
Hint Resolve keepsP_deleteIfAny : werf.

Lemma keepsP_cleanupImageMetadata i hit u : keepsP (cleanupImageMetadata sm options i hit u).
Proof using All. unfold cleanupImageMetadata. keeps_go. Qed.
Hint Resolve keepsP_cleanupImageMetadata : werf.

Lemma keepsP_handleSaved ids : keepsP (handleSavedStageIDs ids).
Proof using All.
  unfold handleSavedStageIDs. apply keeps_for_each; [typeclasses eauto|]. intros id _ e HPe.
  unfold mbind, prog_bind, lift, MarkStageDescAsProtectedByStageID. simpl.
  destruct (GetStageDescByStageID _ id) as [d|]; simpl; (split; [reflexivity|]); [|done].
  apply (HP (own e)); [apply grows_mark|done].
Qed.
Hint Resolve keepsP_handleSaved : werf.

Lemma keepsP_scanImage refs pair : keepsP (scanImage sm options refs pair).
Proof using All. unfold scanImage. keeps_go. apply keepsP_call, HK. Qed.
Hint Resolve keepsP_scanImage : werf.

Lemma keepsP_cleanupNonexistent : keepsP (cleanupNonexistentImageMetadata sm options).
Proof using All. unfold cleanupNonexistentImageMetadata. keeps_go. Qed.
Hint Resolve keepsP_cleanupNonexistent : werf.

Lemma keepsP_gitHistoryBasedCleanup : keepsP (gitHistoryBasedCleanup sm options).
Proof using All.
  unfold gitHistoryBasedCleanup. keeps_go; [apply keepsP_call, HK..|].
  apply Parallel.keeps_DoTasks; [typeclasses eauto|]. intros i _.
  apply keeps_index_bind; [typeclasses eauto|]. auto with werf.
Qed.

Lemma keepsP_gitPolicy : keepsP (gitPolicy sm options).
Proof using All.
  unfold gitPolicy. destruct (DisableGitHistoryBasedPolicy _);
    [apply keepsP_purgeImageMetadata|apply keepsP_gitHistoryBasedCleanup].
Qed.

(** ** The relatives and the records that nothing needs *)

Lemma keepsP_addRelative rel r c : keepsP (addRelative rel r c).
Proof using All. unfold addRelative. keeps_go. Qed.
Hint Resolve keepsP_addRelative : werf.

Lemma keepsP_relatives set ws d c : keepsP (relatives set ws d c).
Proof using All. unfold relatives, importAndDependencySources, parents. keeps_go. Qed.
Hint Resolve keepsP_relatives : werf.

Lemma keepsP_passes fuel set ws st : keepsP (passes fuel set ws st).
Proof using All.
  revert st. induction fuel as [|fuel IH]; intros st; simpl; [auto with werf|].
  unfold pass. keeps_go.
Qed.
Hint Resolve keepsP_passes : werf.

Lemma keepsP_protectRelatives : keepsP protectRelatives.
Proof using All.
  unfold protectRelatives, protectRelativeStageDescSetByStageDesc, platformImages. keeps_go.
Qed.

Lemma keepsP_initImports : keepsP (initImportsMetadata sm options).
Proof using All.
  unfold initImportsMetadata, cleanup_deleteImportsMetadata. apply keepsP_set_own_bind.
  { by intros s. }
  intros _. keeps_go. apply keeps_ForEachGetImportMetadata; [typeclasses eauto..|auto with werf|].
  intros id [[md|]|err]; [|auto with werf..]. intros e HPe. split; [reflexivity|].
  by apply (HP (own e)).
Qed.

Lemma keepsP_deleteUnusedCustomTags : keepsP (deleteUnusedCustomTags sm options).
Proof using All. unfold deleteUnusedCustomTags. keeps_go. Qed.

Lemma keepsP_deleteUnusedImports : keepsP (deleteUnusedImportsMetadata sm options).
Proof using All.
  unfold deleteUnusedImportsMetadata, cleanup_deleteImportsMetadata. keeps_go.
Qed.

(** ** The final stages *)

Lemma keepsP_cleanupFinalStages :
  (DryRun options = false -> forall final d o, FinalStagesStorage sm = Some final ->
     keeps R (DeleteStage W final d o)) ->
  FinalStagesStorage sm <> None -> keepsP (cleanupFinalStages sm options).
Proof using All.
  intros Hd Hf. unfold cleanupFinalStages. keeps_go.
  - unfold deleteStages, deleteStageDescSet. destruct (DryRun options); [auto with werf|].
    destruct (FinalStagesStorage sm) as [final|] eqn:Ef; [|done].
    eapply keeps_ForEachDeleteFinalStage; [typeclasses eauto..|done| |auto with werf].
    intros. apply keepsP_call. by eapply Hd.
  - apply keepsP_update. by intros s.
Qed.

End facts.

(** ** The deletion of the stages *)

Section deletion.
Context {W : Type} `{!GoQuote, !Nondet, !GitHistory W, !CleaningLibrary W}.
Context (R : W -> W -> Prop) `{!PreOrder R}.
Variable sm : StorageManager.Manager W.
Variable options : CleanupOptions W KeepPolicy.
Hypothesis HK : CleanupKeeps R sm options.
Abbreviation E := (Env W CleanupState).

(** A description whose deletion from the repository and its caches keeps [R]. *)
Definition Deletable (d : Image.StageDesc) : Prop :=
  DryRun options = false ->
  forall c o, c ∈ StagesStorage sm :: CacheStagesStorageList sm -> keeps R (DeleteStage W c d o).

Definition FinalDeletable : Prop :=
  DryRun options = false -> forall final d o, FinalStagesStorage sm = Some final ->
    keeps R (DeleteStage W final d o).

(** What is not marked may be deleted. *)
Definition Good (s : CleanupState) : Prop :=
  forall p d, stageDescSet (mset s) !! p = Some d -> marked (mset s) p \/ Deletable d.

Lemma Good_grows s s' : grows s s' -> Good s -> Good s'.
Proof.
  intros [Es Hm _ _] Hg p d. rewrite Es. intros Hp. destruct (Hg p d Hp); auto.
Qed.

Abbreviation keepsG := (keeps (guarded R Good)).

Lemma keepsG_deleteUnprotected : keepsG (deleteUnprotected sm options).
Proof using All.
  intros e HG. unfold deleteUnprotected. unfold mbind, prog_bind. simpl.
  set (m := stageManager (own e)). set (toDelete := mgr_StageDescSet m ∖ GetProtectedStageDescSet m).
  case_bool_decide; [split; [reflexivity|done]|].
  assert (forall p d, toDelete !! p = Some d -> Deletable d) as Hdel.
  { intros p d Hp. apply unprotected_lookup in Hp as [Hp Hn]. by destruct (HG p d Hp). }
  assert (keepsG (deleteStages sm options toDelete false)) as Hk.
  { unfold deleteStages, deleteStageDescSet. destruct (DryRun options) eqn:Ed; [auto with werf|].
    apply keeps_ForEachDeleteStage; [typeclasses eauto..| | |].
    - intros filter set o Ef. destruct (ck_filter _ _ _ HK filter set o Ef). split; [|done].
      by apply keepsP_call.
    - intros p d c Hp Hc. apply keepsP_call. by eapply Hdel.
    - intros _ err. by apply keepsP_onDelete. }
  specialize (Hk e HG). destruct (deleteStages sm options toDelete false e) as [[[]|x|x] e']; try done.
  destruct Hk as [HR HG']. split; [done|]. simpl in *. intros p d. simpl. intros Hp.
  apply lookup_difference_Some in Hp as [Hp _]. exact (HG' p d Hp).
Qed.

Lemma keepsG_cleanupUnusedStages : keepsG (cleanupUnusedStages sm options).
Proof using All.
  pose proof Good_grows as HP. unfold cleanupUnusedStages.
  pose proof (keepsP_initImports R sm options Good HP HK).
  pose proof (keepsP_protectRelatives R sm options Good HP HK).
  pose proof keepsG_deleteUnprotected.
  pose proof (keepsP_deleteUnusedCustomTags R sm options Good HP HK).
  pose proof (keepsP_deleteUnusedImports R sm options Good HP HK). keeps_go.
Qed.

End deletion.
End CleanupFacts.

(** * The set after the initialisation, and after the policies *)

Module CleanupInit.
Import StagesStorage StorageManager StageManager ManagerFacts StageManagerFacts Cleanup
  CleanupProtect CleanupFacts.

Section init.
Context {W : Type} `{!GoQuote, !Nondet, !GitHistory W, !CleaningLibrary W}.
Variable sm : StorageManager.Manager W.
Variable options : CleanupOptions W KeepPolicy.
Abbreviation E := (Env W CleanupState).

(** The set is indexed as it was read, and nothing is marked. *)
Definition fresh (m : Manager) : Prop :=
  exists set order, order ≡ₚ map_to_list set /\ managed m = newManagedStageDescSet set order.

(** The state was reached by the initialisation of a cleanup. *)
Definition initialised (e : E) : Prop := exists e0, init sm options e0 = (Ok tt, e).

Lemma wlp_trivial {A} (m : prog E A) e : wlp m e (fun _ _ => True).
Proof using Type. unfold wlp. by destruct (m e) as [[]]. Qed.

Lemma wlp_result {A B} (P : A -> Prop) (l : list B) (body : A -> B -> prog E A) :
  (forall a x e, P a -> wlp (body a x) e (fun a' _ => P a')) ->
  forall a e, P a -> wlp (for_fold l a body) e (fun a' _ => P a').
Proof using Type. intros Hb a e Ha. apply (wlp_for_fold (fun _ a _ => P a)); auto. Qed.

Lemma init_metadata maps m e :
  fresh m -> wlp (processImageMetadata (X:=CleanupState) IsCommitExists maps m) e (fun m' _ => fresh m').
Proof using Type.
  intros Hm. unfold processImageMetadata. apply wlp_bind. eapply wlp_mono; [apply wlp_trivial|].
  intros images e1 _. apply wlp_bind. eapply wlp_mono; [apply (wlp_result (fun st => fresh st.1)); [|done]|].
  - intros st im e2 Hst. apply wlp_bind. eapply wlp_mono; [apply wlp_trivial|]. intros stages e3 _.
    apply wlp_result; [|done]. intros st' sc e4 Hst'. apply wlp_bind.
    eapply wlp_mono; [apply wlp_trivial|]. intros r e5 _. by apply wlp_ret.
  - intros r e2 Hr. by apply wlp_ret.
Qed.

Lemma init_fresh e : initialised e -> fresh (stageManager (own e)).
Proof using Type.
  intros [e0 He]. cut (wlp (init sm options) e0 (fun _ e' => fresh (stageManager (own e')))).
  { unfold wlp. by rewrite He. }
  clear e He. unfold init. wp_step. unfold wlp at 1. simpl. wp_step. unfold InitStageDescSet. wp_step.
  eapply wlp_mono; [apply wlp_trivial|]. intros set e1 _. wp_step. unfold wlp at 1. simpl. wp_step.
  match goal with |- wlp _ _ (fun m2 _ => _) => idtac end.
  eapply wlp_mono.
  { instantiate (1 := fun m _ => fresh m).
    assert (fresh (upd_managed (stageManager (own e0)) (newManagedStageDescSet set
      (shuffle (tick e1) (map_to_list set))))) as Hf.
    { exists set, (shuffle (tick e1) (map_to_list set)). split; [apply shuffle_perm|done]. }
    destruct (FinalStagesStorage sm); [|by apply wlp_ret].
    unfold InitFinalStageDescSet. apply wlp_bind. eapply wlp_mono; [apply wlp_trivial|]. intros fs e2 _.
    apply wlp_bind. eapply wlp_mono; [apply wlp_trivial|]. intros order e3 _. by apply wlp_ret. }
  intros m2 e2 H2. wp_step. unfold InitImagesMetadata. wp_step. eapply wlp_mono; [apply wlp_trivial|].
  intros maps e3 _. wp_step. eapply wlp_mono; [apply wlp_trivial|]. intros images e4 _. wp_step.
  eapply wlp_mono; [apply (wlp_result fresh); [|exact H2]|].
  { intros m im e5 Hm. apply wlp_bind. eapply wlp_mono; [apply wlp_trivial|]. intros stages e6 _.
    apply wlp_result; [|done]. intros m' sc e7 Hm'. by apply wlp_ret. }
  intros m3 e5 H3. wp_step. eapply wlp_mono; [by apply init_metadata|]. intros m4 e6 H4.
  wp_step. unfold InitCustomTagsMetadata. wp_step. eapply wlp_mono; [apply wlp_trivial|]. intros tags e7 _.
  wp_step. unfold wlp, update. simpl. exact H4.
Qed.

(** The stages found by an id are in the set, and so is what is marked. *)
Lemma fresh_indexed m : fresh m -> indexed (managed m) /\ marks_in_set (managed m).
Proof using Type.
  intros (set & order & Ho & ->). split; [by apply indexed_new|]. intros p d meta Hp.
  simpl in Hp. by rewrite lookup_empty in Hp.
Qed.

Lemma fresh_found m p d :
  fresh m -> distinct_ids (stageDescSet (managed m)) -> stageDescSet (managed m) !! p = Some d ->
  stageDescByStageID (managed m) !! stage_id (p, d) = Some (p, d).
Proof using Type. intros (set & order & Ho & ->) Hd Hp. by apply found_new. Qed.

(** ** The policies mark stages of the set *)

Section held.
Context (set0 : StageDescSet) (index0 : gmap string Desc).
Hypothesis Hindex : forall id d, index0 !! id = Some d -> set0 !! d.1 = Some d.2.

(** The set and its index are these, and what is marked is in the set. *)
Definition ok_manager (m : Manager) : Prop :=
  stageDescSet (managed m) = set0 /\ stageDescByStageID (managed m) = index0 /\
  marks_in_set (managed m).
Definition held (s s' : CleanupState) : Prop :=
  ok_manager (stageManager s) -> ok_manager (stageManager s').

#[local] Instance held_PreOrder : PreOrder held.
Proof using Type. unfold held. split; [by intros s ?|]. intros s1 s2 s3 G1 G2 G. auto. Qed.

Abbreviation keepsH := (keeps (on (@own W _) held)).

Lemma held_manager {A} (f : Manager -> prog E A) :
  (forall m, ok_manager m -> keepsH (f m)) -> keepsH (manager ≫= f).
Proof using Type. intros Hf e He. by apply (Hf _ He e). Qed.

Lemma held_protect d r : set0 !! d.1 = Some d.2 -> keepsH (protect d r).
Proof using Type.
  intros Hd e (Hs & Hi & Hm). split; [done|]. split; [done|]. apply marks_in_set_mark; [|done].
  by rewrite Hs.
Qed.

Lemma held_update f : (forall m, managed (f m) = managed m) -> keepsH (update f).
Proof using Type. intros Hf e. unfold on, held, ok_manager. simpl. by rewrite Hf. Qed.

Lemma held_found id d m : ok_manager m -> GetStageDescByStageID m id = Some d -> set0 !! d.1 = Some d.2.
Proof using Hindex.
  intros (_ & Hi & _). unfold GetStageDescByStageID, set_GetStageDescByStageID. rewrite Hi. apply Hindex.
Qed.

(** A loop over the stages of the set. *)
Lemma held_each {A} (f : list Desc -> prog E A) :
  (forall order, (forall d, d ∈ order -> set0 !! d.1 = Some d.2) -> keepsH (f order)) ->
  keepsH (m ← manager; order ← iterate (map_to_list (mgr_StageDescSet m)); f order).
Proof using Type.
  intros Hf. apply held_manager. intros m (Hs & _). apply keeps_iterate_bind; [typeclasses eauto..|].
  intros order Ho. apply Hf. intros [p d]. rewrite Ho. unfold mgr_StageDescSet. rewrite Hs.
  apply elem_of_map_to_list.
Qed.

Lemma held_whitelist : keepsH (markWhitelistStagesAsProtected options).
Proof using Type.
  unfold markWhitelistStagesAsProtected. case_bool_decide; [auto with werf|]. apply held_each.
  intros order Ho. apply keeps_for_each; [typeclasses eauto|]. intros d Hd.
  case_bool_decide; [by apply held_protect, Ho|auto with werf].
Qed.

Lemma held_recent : keepsH (keepRecentlyBuilt options).
Proof using Type.
  unfold keepRecentlyBuilt. destruct (_ || _); [auto with werf|]. apply held_each.
  intros order Ho. apply keeps_for_each; [typeclasses eauto|]. intros d Hd.
  apply keeps_bind; [typeclasses eauto| |].
  - apply keeps_for_fold; [typeclasses eauto|]. intros b i _.
    apply keeps_bind; [typeclasses eauto|apply keeps_call_own; typeclasses eauto|].
    intros n. apply keeps_ret; typeclasses eauto.
  - intros [|]; [by apply held_protect, Ho|auto with werf].
Qed.

Lemma held_handleTag dep h t id f : keepsH f -> keepsH (handleTagFunc sm dep h t id f).
Proof using Type. intros Hf. unfold handleTagFunc. keeps_go. Qed.

Lemma held_kubernetes : keepsH (kubernetesPolicy sm options).
Proof using Hindex.
  unfold kubernetesPolicy. keeps_step; [auto with werf|]. keeps_step; [auto with werf|].
  apply keeps_bind; [typeclasses eauto| |intros dep; apply keeps_bind; [typeclasses eauto| |intros _]].
  - unfold deployedDockerImages. apply keeps_wrap, keeps_for_fold; [typeclasses eauto|]. intros imgs c' _.
    apply keeps_bind; [typeclasses eauto|apply keeps_wrap, keeps_call_own; typeclasses eauto|].
    intros ctx. apply keeps_ret; typeclasses eauto.
  - unfold skipStageIDsThatAreUsedInKubernetes. apply held_each. intros order Ho.
    apply keeps_bind; [typeclasses eauto| |intros h].
    { apply keeps_for_fold; [typeclasses eauto|]. intros h d Hd. by apply held_handleTag, held_protect, Ho. }
    apply held_manager. intros m _. apply keeps_bind; [typeclasses eauto|auto with werf|]. intros tags.
    apply keeps_bind; [typeclasses eauto| |auto with werf].
    apply keeps_for_fold; [typeclasses eauto|]. intros h1 st _.
    apply keeps_for_fold; [typeclasses eauto|]. intros h2 t _. apply held_handleTag, held_manager.
    intros m' Hm'. destruct (GetStageDescByStageID m' st.1) as [d|] eqn:Ed.
    + by eapply held_protect, held_found.
    + by apply held_update.
  - unfold skipFinalStageIDsThatAreUsedInKubernetes.
    assert (forall d r, keepsH (protectFinal d r)) by (intros; by apply held_update).
    assert (keepsH manager) by (intros e He; exact He). keeps_go.
Qed.

Lemma held_onDelete err : keepsH (onDelete err).
Proof using Type. destruct err as [err|]; simpl; [destruct (handleDeletionError err)|]; auto with werf. Qed.

Lemma held_deleteImageMetadata i l : keepsH (deleteImageMetadata sm (DryRun options) i l).
Proof using Type.
  unfold deleteImageMetadata. destruct (DryRun options); [auto with werf|].
  apply keeps_ForEachRmImageMetadata; [typeclasses eauto..| |].
  - intros. apply keeps_call_own; typeclasses eauto.
  - intros _ _ err. apply held_onDelete.
Qed.

Lemma held_handleSaved ids : keepsH (handleSavedStageIDs ids).
Proof using Hindex.
  unfold handleSavedStageIDs. apply keeps_for_each; [typeclasses eauto|]. intros id _ e He.
  unfold mbind, prog_bind, lift, MarkStageDescAsProtectedByStageID. simpl.
  destruct (GetStageDescByStageID _ id) as [d|] eqn:Ed; simpl; [|done].
  pose proof (held_found _ _ _ He Ed) as Hd. destruct He as (Hs & Hi & Hm).
  split; [done|]. split; [done|]. apply marks_in_set_mark; [by rewrite Hs|done].
Qed.

Lemma held_git : keepsH (gitPolicy sm options).
Proof using Hindex.
  pose proof held_deleteImageMetadata. assert (keepsH manager) by (intros e He; exact He).
  assert (forall A (m : prog W A), keepsH (call m)) as Hcall
    by (intros; apply keeps_call_own; typeclasses eauto).
  unfold gitPolicy. destruct (DisableGitHistoryBasedPolicy _).
  { unfold purgeImageMetadata. keeps_go. }
  unfold gitHistoryBasedCleanup. keeps_go.
  - apply Parallel.keeps_DoTasks; [typeclasses eauto|]. intros i _.
    apply keeps_index_bind; [typeclasses eauto|]. intros [n l] _. unfold scanImage.
    pose proof held_handleSaved. unfold cleanupImageMetadata, deleteIfAny. keeps_go.
  - unfold cleanupNonexistentImageMetadata. keeps_go.
Qed.
End held.

(** What the policies do before anything is deleted. *)
Definition policies : prog E unit :=
  kubernetesPolicy sm options ;; gitPolicy sm options ;; keepRecentlyBuilt options ;;
  markWhitelistStagesAsProtected options.

(** After them the set and the index are as the initialisation left them, and what is marked is
    in the set. *)
Lemma policies_hold e e1 u :
  fresh (stageManager (own e)) -> policies e = (Ok u, e1) ->
  indexed (mset (own e1)) /\ marks_in_set (mset (own e1)) /\
  stageDescSet (mset (own e1)) = stageDescSet (mset (own e)) /\
  stageDescByStageID (mset (own e1)) = stageDescByStageID (mset (own e)).
Proof using Type.
  intros Hf He. destruct (fresh_indexed _ Hf) as [Hi Hm].
  set (set0 := stageDescSet (mset (own e))). set (index0 := stageDescByStageID (mset (own e))).
  assert (forall id d, index0 !! id = Some d -> set0 !! d.1 = Some d.2) as Hindex
    by (intros id d Hd; by destruct (Hi id d Hd)).
  assert (keeps (on (@own W _) (held set0 index0)) policies) as Hk.
  { pose proof (held_kubernetes set0 index0 Hindex). pose proof (held_git set0 index0 Hindex).
    pose proof (held_recent set0 index0). pose proof (held_whitelist set0 index0).
    pose proof (held_PreOrder set0 index0).
    unfold policies. repeat (apply keeps_bind; [typeclasses eauto|done|intros _]); done. }
  specialize (Hk e). rewrite He in Hk. destruct (Hk ltac:(done)) as (Hs & Hx & Hm1). simpl in *.
  split; [|done]. intros id d. rewrite Hx, Hs. apply Hi.
Qed.

End init.
End CleanupInit.
