(* ===== verification/CleanupProps.v ===== *)
(** What a cleanup never deletes: nothing at all on a dry run; and from the repository and its
    caches no stage of the keep list, no stage built recently, no stage that Kubernetes uses,
    and no ancestor of a stage that is kept. Each theorem is about an arbitrary relation [R] over the storages' world that
    everything keeps but the deletion of the stages in question: the whole cleanup keeps it. *)
From S2P Require Import Prelude Go Slug Image Registry StagesStorage RepoStorage Parallel.
From S2P Require Import StorageManager StageManager ManagerFacts StageManagerFacts AllowList.
From S2P Require Import Cleanup CleanupProtect CleanupFacts.

Module CleanupSafe.
Import StagesStorage StorageManager StageManager ManagerFacts StageManagerFacts Cleanup
  CleanupProtect CleanupFacts CleanupInit.

Section marks.
Context {W : Type} `{!GoQuote, !Nondet, !GitHistory W, !CleaningLibrary W}.
Variable options : CleanupOptions W KeepPolicy.
Abbreviation E := (Env W CleanupState).

(** ** What the policies mark *)

(** A loop over the set that marks some of its stages. *)
Lemma wlp_mark_each (test : Desc -> Prop) (order : list Desc) (body : Desc -> prog E unit) set e :
  order ≡ₚ map_to_list set ->
  (forall d, keeps (on (@own W _) grows) (body d)) ->
  (forall d e1, d ∈ order -> wlp (body d) e1 (fun _ e2 => test d -> marked (mset (own e2)) d.1)) ->
  wlp (for_each order body) e (fun _ e' =>
    forall p d, set !! p = Some d -> test (p, d) -> marked (mset (own e')) p).
Proof.
  intros Ho Hk Hb. eapply wlp_mono.
  - apply (wlp_for_each (fun dn (e' : E) => forall d, d ∈ dn -> test d -> marked (mset (own e')) d.1));
      [|set_solver].
    intros dn d e1 Hd HI. eapply wlp_mono; [apply (wlp_conj _ _ _ _ (Hb d e1 Hd) (keeps_wlp _ _ _ (Hk d)))|].
    intros _ e2 [Hm Hg] x [Hx|Hx]%elem_of_app Ht.
    + apply (grows_marks _ _ Hg). auto.
    + apply list_elem_of_singleton in Hx. subst. auto.
  - intros ? e' HI p d Hp Ht. apply (HI (p, d)); [|done]. by rewrite Ho, elem_of_map_to_list.
Qed.

Lemma grows_protect d r : keeps (on (@own W _) grows) (protect d r).
Proof. intros e. unfold on. apply grows_mark. Qed.

Lemma marked_protect d r (e : E) : wlp (protect d r) e (fun _ e' => marked (mset (own e')) d.1).
Proof. unfold wlp. simpl. rewrite marked_mark. auto. Qed.

Lemma marks_keepList e :
  wlp (markWhitelistStagesAsProtected options) e (fun _ e' =>
    forall p d, stageDescSet (mset (own e')) !! p = Some d ->
      Image.Tag (Image.SDInfo d) ∈ KeepList options -> marked (mset (own e')) p).
Proof.
  unfold markWhitelistStagesAsProtected. case_bool_decide as Hk.
  { apply wlp_ret. rewrite Hk. set_solver. }
  wp_step. unfold wlp at 1. simpl. set (set := mgr_StageDescSet (stageManager (own e))).
  wp_step. unfold wlp at 1. simpl.
  match goal with |- wlp (for_each ?l ?b) ?e1 _ => set (order := l); set (body := b); set (e0 := e1) end.
  assert (forall d, keeps (on (@own W _) grows) (body d)) as Hb.
  { intros d. unfold body. case_bool_decide; [apply grows_protect|intros x; unfold on; simpl; reflexivity]. }
  assert (keeps (on (@own W _) grows) (for_each order body)) as Hall
    by (apply keeps_for_each; [typeclasses eauto|auto]).
  eapply wlp_mono; [apply wlp_conj; [|apply (keeps_wlp _ _ e0 Hall)]|].
  - apply (wlp_mark_each (fun d => Image.Tag (Image.SDInfo d.2) ∈ KeepList options) order body set e0
       (shuffle_perm _ _) Hb).
    intros d e1 _. unfold body. case_bool_decide; [|by apply wlp_ret].
    eapply wlp_mono; [apply marked_protect|auto].
  - intros ? e' [Hm Hg] p d. rewrite (grows_set _ _ Hg). intros Hp Ht. by eapply Hm.
Qed.

(** Built within the last hours by every reading of the clock; of an index, some platform is. *)
Definition recent_info (i : Image.Info) : Prop :=
  forall w now w', @time_Now W _ w = (Ok now, w') -> builtWithin now (keepHours options) i = true.
Definition recent (d : Image.StageDesc) : Prop :=
  exists i, recent_info i /\
    if Image.IsIndex (Image.SDInfo d) then i ∈ Image.Index (Image.SDInfo d) else i = Image.SDInfo d.

Lemma recent_aged d p : recent d <-> exists i, i ∈ agedInfos (p, d) /\ recent_info i.
Proof.
  unfold recent, agedInfos. simpl. destruct (Image.IsIndex (Image.SDInfo d)); [naive_solver|].
  setoid_rewrite list_elem_of_singleton. naive_solver.
Qed.

Lemma for_fold_recent infos b e :
  wlp (for_fold infos b (fun recent info =>
         now ← call time_Now; mret (recent || builtWithin now (keepHours options) info))) e
    (fun b' (e' : E) => own e' = own e /\
       (b = true \/ (exists i, i ∈ infos /\ recent_info i) -> b' = true)).
Proof.
  revert b e. induction infos as [|i infos IH]; intros b e; simpl.
  - apply wlp_ret. split; [done|]. intros [|(i & Hi & _)]; [done|set_solver].
  - apply wlp_bind. apply wlp_alt. intros now' e1 Hnow. apply bind_Ok in Hnow as (now & e2 & Hnow & Hret).
    injection Hret as <- <-. unfold call in Hnow.
    destruct (time_Now (ext e)) as [[t| |] w'] eqn:Et; [|done..]. injection Hnow as <- <-.
    eapply wlp_mono; [apply IH|]. simpl. intros b' e' [Ho Hi]. split; [exact Ho|]. intros Hr. apply Hi.
    destruct Hr as [->|(j & Hj & Hb)]; [by left|].
    apply elem_of_cons in Hj as [->|Hj]; [left; by rewrite (Hb _ _ _ Et), orb_true_r|right; eauto].
Qed.

Lemma marks_recent e :
  DisableBuiltWithinLastNHoursPolicy (ConfigMetaCleanup options) = false ->
  keepHours options <> 0%Z ->
  wlp (keepRecentlyBuilt options) e (fun _ e' =>
    forall p d, stageDescSet (mset (own e')) !! p = Some d -> recent d -> marked (mset (own e')) p).
Proof.
  intros Hdis Hh. unfold keepRecentlyBuilt. rewrite Hdis.
  destruct (Z.eqb_spec (keepHours options) 0) as [|_]; [done|]. simpl.
  wp_step. unfold wlp at 1. simpl. set (set := mgr_StageDescSet (stageManager (own e))).
  wp_step. unfold wlp at 1. simpl.
  match goal with |- wlp (for_each ?l ?b) ?e1 _ => set (order := l); set (body := b); set (e0 := e1) end.
  assert (forall d, keeps (on (@own W _) grows) (body d)) as Hb.
  { intros d. unfold body. apply keeps_bind; [typeclasses eauto| |].
    - apply keeps_for_fold; [typeclasses eauto|]. intros b i _.
      apply keeps_bind; [typeclasses eauto|apply keeps_call_own; typeclasses eauto|].
      intros n. apply keeps_ret; typeclasses eauto.
    - intros [|]; [apply grows_protect|intros x; unfold on; simpl; reflexivity]. }
  assert (keeps (on (@own W _) grows) (for_each order body)) as Hall
    by (apply keeps_for_each; [typeclasses eauto|auto]).
  eapply wlp_mono; [apply wlp_conj; [|apply (keeps_wlp _ _ e0 Hall)]|].
  - apply (wlp_mark_each (fun d => recent d.2) order body set e0 (shuffle_perm _ _) Hb).
    intros d e1 _. unfold body. apply wlp_bind. eapply wlp_mono; [apply for_fold_recent|].
    intros b e2 [Ho Hr]. destruct b; [eapply wlp_mono; [apply marked_protect|auto]|].
    apply wlp_ret. intros (i & Hi & Hw)%(recent_aged _ d.1). rewrite <-surjective_pairing in Hi.
    discriminate Hr. right. eauto.
  - intros ? e' [Hm Hg] p d. rewrite (grows_set _ _ Hg). intros Hp Ht. by eapply Hm.
Qed.

(** *** What Kubernetes uses *)

Variable sm : StorageManager.Manager W.

Definition deployed_names (l : list DeployedDockerImage) : gset string := list_to_set (DName <$> l).

Lemma isDeployed_true l n : isDeployed l n = true <-> n ∈ deployed_names l.
Proof.
  unfold isDeployed, deployed_names. rewrite existsb_exists, elem_of_list_to_set, list_elem_of_fmap.
  setoid_rewrite <-list_elem_of_In. setoid_rewrite bool_decide_eq_true. naive_solver.
Qed.

Lemma dnames_cons d l : deployed_names (d :: l) = {[DName d]} ∪ deployed_names l.
Proof. done. Qed.

Lemma deployed_names_append l c images :
  deployed_names (AppendContextDeployedDockerImages l c images) =
  deployed_names l ∪ AllowList.names images.
Proof.
  unfold AppendContextDeployedDockerImages. revert l. induction images as [|i images IH]; intros l; simpl.
  - rewrite AllowList.names_nil. set_solver.
  - rewrite IH, AllowList.names_cons.
    assert (deployed_names (appendContextImage c l i) = deployed_names l ∪ {[AllowList.Name i]}) as ->;
      [|set_solver].
    clear IH. induction l as [|d l IHl]; simpl; [rewrite dnames_cons; simpl; set_solver|].
    case_bool_decide as E; rewrite !dnames_cons; simpl; [rewrite E; set_solver|].
    rewrite IHl. set_solver.
Qed.

(** The name is always among the images that a client of the options finds. *)
Definition in_use (name : string) : Prop :=
  exists client, client ∈ KubernetesContextClients options /\ forall w,
    wlp (AllowList.DeployedDockerImages (KubeAPI0 := Client client)
           (Image.label (KubernetesNamespaceRestrictionByContext options) (ContextName client))) w
      (fun l _ => name ∈ AllowList.names l).

Lemma deployed_in_use name (e : E) :
  in_use name -> wlp (deployedDockerImages options) e (fun l _ => name ∈ deployed_names l).
Proof.
  intros (client & Hc & Hl). unfold deployedDockerImages. eapply wlp_mono.
  - apply (wlp_for_fold (fun dn l (_ : E) => client ∈ dn -> name ∈ deployed_names l)); [|set_solver].
    intros dn x l e1 _ HI. wp_step. unfold call. specialize (Hl (ext e1)). unfold wlp at 1.
    destruct (AllowList.DeployedDockerImages (Image.label _ (ContextName x)) (ext e1))
      as [[imgs| |] w'] eqn:Ex; [|done..].
    wp_step. rewrite deployed_names_append. intros [Hin|Hin]%elem_of_app; [set_solver|].
    apply list_elem_of_singleton in Hin. subst. unfold wlp in Hl. rewrite Ex in Hl. set_solver.
  - simpl. auto.
Qed.

(** Every stage of the set is found by its id: no two have the same. *)
Definition found_by_id (s : CleanupState) : Prop :=
  forall p d, stageDescSet (mset s) !! p = Some d ->
    stageDescByStageID (mset s) !! stage_id (p, d) = Some (p, d).

(** The tag names the stage: it is its id, or a custom tag of it. *)
Definition tag_of (s : CleanupState) (tag stageID : string) : Prop :=
  tag = stageID \/ exists tags, stageIDCustomTagList (stageManager s) !! stageID = Some tags /\ tag ∈ tags.

(** The stages with the id are marked. *)
Definition id_marked (stageID : string) (s : CleanupState) : Prop :=
  forall p d, stageDescSet (mset s) !! p = Some d -> stage_id (p, d) = stageID -> marked (mset s) p.

Lemma id_marked_grows id s s' : grows s s' -> id_marked id s -> id_marked id s'.
Proof. intros [Es Hm] Hi p d. rewrite Es. intros Hp E. apply Hm. eauto. Qed.

(** Only marks: the index is the same too. *)
Definition kept_index (s s' : CleanupState) : Prop :=
  grows s s' /\ stageDescByStageID (mset s') = stageDescByStageID (mset s).

#[local] Instance kept_index_PreOrder : PreOrder kept_index.
Proof.
  split; [by split|]. intros x y z [G1 E1] [G2 E2]. split; [by etrans|congruence].
Qed.

Lemma found_kept s s' : kept_index s s' -> found_by_id s -> found_by_id s'.
Proof. intros [[Es _] Ei] Hf p d. rewrite Es, Ei. apply Hf. Qed.

Section skip.
Variables (s0 : CleanupState) (stageID : string).
Hypothesis Hfound : found_by_id s0.

(** The stages handled so far are marked, the one of interest at least. *)
Definition handled_ok (h : gset string) (s : CleanupState) : Prop :=
  kept_index s0 s /\ (stageID ∈ h -> id_marked stageID s).

Lemma protect_found p d r (e : E) :
  kept_index s0 (own e) -> stageDescSet (mset s0) !! p = Some d ->
  wlp (protect (p, d) r) e (fun _ e' =>
    kept_index (own e) (own e') /\ id_marked (stage_id (p, d)) (own e')).
Proof using Hfound.
  intros Hk Hp. unfold wlp. simpl. split; [split; [apply grows_mark|done]|].
  intros q x. simpl. rewrite (grows_set _ _ (proj1 Hk)). intros Hq Hid. rewrite marked_mark. left.
  pose proof (Hfound _ _ Hp) as H1. pose proof (Hfound _ _ Hq) as H2. simpl. congruence.
Qed.

Lemma handleTag_ok dep h t id f (e : E) :
  handled_ok h (own e) ->
  wlp f e (fun _ e' => kept_index (own e) (own e') /\ (id = stageID -> id_marked stageID (own e'))) ->
  wlp (handleTagFunc sm dep h t id f) e (fun h' e' =>
    handled_ok h' (own e') /\ h ⊆ h' /\
    (Address (StagesStorage sm) +:+ ":" +:+ t ∈ deployed_names dep -> id ∈ h')).
Proof using Type.
  clear Hfound. intros [Hk Hh] Hf. unfold handleTagFunc. destruct (isDeployed dep _) eqn:Ed; simpl.
  - case_bool_decide as Hin; simpl.
    + apply wlp_ret. done.
    + wp_step. eapply wlp_mono; [exact Hf|]. intros ? e' [Hk' Hm]. wp_step.
      split; [split; [by etrans|]|set_solver]. rewrite elem_of_union, elem_of_singleton.
      intros [->|Hs]; [by apply Hm|]. eapply id_marked_grows; [apply Hk'|auto].
  - apply wlp_ret. split; [done|]. split; [done|]. intros Hn. apply isDeployed_true in Hn.
    discriminate (eq_trans (eq_sym Hn) Ed).
Qed.

Lemma custom_tag_ok id (e : E) :
  kept_index s0 (own e) ->
  wlp (m ← manager;
       match GetStageDescByStageID m id with
       | Some d => protect d ProtectionReasonKubernetesBasedPolicy
       | None => update (fun m => ForgetCustomTagsByStageID m id)
       end) e (fun _ e' => kept_index (own e) (own e') /\ (id = stageID -> id_marked stageID (own e'))).
Proof using Hfound.
  intros Hk. wp_step. unfold wlp at 1. simpl.
  unfold GetStageDescByStageID, set_GetStageDescByStageID. rewrite (proj2 Hk).
  destruct (stageDescByStageID (mset s0) !! id) as [[p d]|] eqn:Eid.
  - unfold wlp. simpl. split; [split; [apply grows_mark|done]|]. intros -> q x. simpl.
    rewrite (grows_set _ _ (proj1 Hk)). intros Hq Hid. pose proof (Hfound _ _ Hq).
    rewrite marked_mark. left. simpl. congruence.
  - unfold wlp. simpl. split; [done|]. intros -> q x. simpl.
    rewrite (grows_set _ _ (proj1 Hk)). intros Hq Hid. pose proof (Hfound _ _ Hq). congruence.
Qed.
End skip.

(** The stage that a deployed tag names gets marked. *)
Lemma skip_marks stageID tag dep (e : E) :
  found_by_id (own e) -> tag_of (own e) tag stageID ->
  Address (StagesStorage sm) +:+ ":" +:+ tag ∈ deployed_names dep ->
  wlp (skipStageIDsThatAreUsedInKubernetes sm dep) e (fun _ e' => id_marked stageID (own e')).
Proof.
  intros Hf Ht Hdep. set (s0 := own e) in *. unfold skipStageIDsThatAreUsedInKubernetes.
  wp_step. unfold wlp at 1. simpl. wp_step. unfold wlp at 1. simpl. wp_step.
  match goal with |- wlp (for_fold ?l _ _) ?e1 _ => set (order := l); set (e0 := e1) end.
  assert (order ≡ₚ map_to_list (stageDescSet (mset s0))) as Ho by apply shuffle_perm.
  eapply wlp_mono.
  { apply (wlp_for_fold (fun dn h (e1 : E) => handled_ok s0 stageID h (own e1) /\
      stageIDCustomTagList (stageManager (own e1)) = stageIDCustomTagList (stageManager s0) /\
      (tag = stageID -> forall d, d ∈ dn -> stage_id d = stageID -> stageID ∈ h))).
    2: { split; [split; [reflexivity|set_solver]|]. split; [done|set_solver]. }
    intros dn [p d] h e1 Hd (Hh & Htags & Hdn). rewrite Ho in Hd. apply elem_of_map_to_list in Hd.
    assert (keeps (on own (fun s s' => stageIDCustomTagList (stageManager s') =
      stageIDCustomTagList (stageManager s))) (handleTagFunc sm dep h (stage_id (p, d)) (stage_id (p, d))
        (protect (p, d) ProtectionReasonKubernetesBasedPolicy))) as Hkt.
    { intros x. unfold handleTagFunc. by destruct (_ && _). }
    eapply wlp_mono; [apply wlp_conj; [apply (handleTag_ok s0 stageID); [done|]|apply (keeps_wlp _ _ e1 Hkt)]|].
    - eapply wlp_mono; [apply (protect_found s0); [done|apply Hh|done]|].
      intros ? e2 [? Hm]. split; [done|]. by intros <-.
    - intros h' e2 [(Hh' & Hsub & Hin) Hc]. split; [done|]. split; [unfold on in Hc; congruence|].
      intros -> x [Hx|Hx]%elem_of_app Hid; [apply Hsub; eauto|].
      apply list_elem_of_singleton in Hx as ->. rewrite <-Hid. apply Hin. by rewrite Hid. }
  intros h e1 (Hh & Htags & Hall). wp_step. unfold wlp at 1. simpl. wp_step. unfold wlp at 1. simpl.
  wp_step. match goal with |- wlp (for_fold ?l _ _) ?e2 _ => set (tags := l); set (e3 := e2) end.
  assert (tags ≡ₚ map_to_list (stageIDCustomTagList (stageManager s0))) as Htl
    by (rewrite <-Htags; apply shuffle_perm).
  eapply wlp_mono.
  { apply (wlp_for_fold (fun dn h' (e1 : E) => handled_ok s0 stageID h' (own e1) /\ h ⊆ h' /\
      forall ts, (stageID, ts) ∈ dn -> tag ∈ ts -> stageID ∈ h')); [|by split; [|set_solver]].
    intros dn [id ts] h1 e4 _ (Hh1 & Hs1 & Hd1). eapply wlp_mono.
    - apply (wlp_for_fold (fun dn' h' (e1 : E) => handled_ok s0 stageID h' (own e1) /\ h1 ⊆ h' /\
        (id = stageID -> tag ∈ dn' -> stageID ∈ h'))); [|by split; [|set_solver]].
      intros dn' t h2 e5 _ (Hh2 & Hs2 & Hd2). eapply wlp_mono.
      + apply (handleTag_ok s0 stageID); [done|]. apply (custom_tag_ok s0); [done|apply Hh2].
      + intros h3 e6 (Hh3 & Hs3 & Hin). split; [done|]. split; [by etrans|].
        intros Hid [Ht'|Ht']%elem_of_app; [apply Hs3; eauto|].
        apply list_elem_of_singleton in Ht'. subst. by apply Hin.
    - simpl. intros h2 e5 (Hh2 & Hs2 & Hd2). split; [done|]. split; [by etrans|].
      intros ts' [Hts|Hts]%elem_of_app Hin; [apply Hs2; eauto|].
      apply list_elem_of_singleton in Hts. injection Hts as -> ->. auto. }
  intros h' e4 ((Hk & Hm) & Hsub & Hct). wp_step. destruct Ht as [->|(ts & Hts & Hin)].
  - intros p d Hp Hid. refine (Hm _ p d Hp Hid). rewrite (grows_set _ _ (proj1 Hk)) in Hp.
    apply Hsub, (Hall eq_refl (p, d)); [|done]. by rewrite Ho, elem_of_map_to_list.
  - apply Hm. apply (Hct ts); [|done]. by rewrite Htl, elem_of_map_to_list.
Qed.

End marks.

Section safe.
Context {W : Type} `{!GoQuote, !Nondet, !GitHistory W, !CleaningLibrary W}.
Context (R : W -> W -> Prop) `{!PreOrder R}.
Variable sm : StorageManager.Manager W.
Variable options : CleanupOptions W KeepPolicy.
Hypothesis HK : CleanupKeeps R sm options.
Hypothesis Hfinal : FinalDeletable R sm options.
Abbreviation E := (Env W CleanupState).
Abbreviation keeps_ext := (keeps (on (@ext W CleanupState) R)).
Abbreviation Good := (Good R sm options).

(** With no condition on the state, [guarded] is [R] itself. *)
Lemma guarded_True {A} (m : prog E A) : keeps (guarded R (fun _ => True)) m -> keeps_ext m.
Proof. intros Hm e. by apply Hm. Qed.

Lemma trivial_grows s s' : grows s s' -> True -> True.
Proof. done. Qed.

(** Once the state is [Good], what follows keeps [R]. *)
Lemma keeps_then {A} (m : prog E unit) (k : prog E A) e :
  R (ext e) (ext (m e).2) -> wlp m e (fun _ e' => Good (own e')) ->
  keeps (guarded R Good) k -> R (ext e) (ext ((m ;; k) e).2).
Proof.
  intros Hm Hg Hk. unfold wlp in Hg. unfold mbind, prog_bind in *.
  destruct (m e) as [[[]|x|x] e1]; simpl in *; [|done..].
  etrans; [exact Hm|]. by apply Hk.
Qed.

Lemma keeps_init : keeps_ext (init sm options).
Proof using All.
  clear Hfinal. unfold init, manager, update.
  pose proof (keeps_GetStageDescSetWithCache (X:=CleanupState) sm R (ck_reads _ _ _ HK)).
  pose proof (keeps_GetFinalStageDescSet (X:=CleanupState) sm R (ck_reads _ _ _ HK)).
  assert (ReadsKeep R (StagesStorage sm)) by apply HK.
  assert (forall l st, keeps_ext (splitCommits IsCommitExists st l [] [])) as Hsplit.
  { assert (forall l st a b, keeps_ext (splitCommits (X:=CleanupState) IsCommitExists st l a b)) as Hs;
      [|intros; apply Hs].
    induction l as [|c l IH]; intros st a b; simpl; keeps_go. apply keeps_call, HK. }
  unfold InitStageDescSet, InitFinalStageDescSet, InitImagesMetadata, processImageMetadata,
    InitCustomTagsMetadata, GetCustomTagsMetadata. keeps_go.
  apply keeps_with_own. apply keeps_ForEachGetStageCustomTagMetadata;
    [typeclasses eauto..|auto with werf|]. intros c [md|err]; keeps_go.
Qed.

(** ** After the policies *)

Definition deletions : prog E unit :=
  cleanupUnusedStages sm options ;;
  match FinalStagesStorage sm with
  | None => mret tt
  | Some _ => cleanupFinalStages sm options
  end ;;
  try (call (PostLastCleanupRecord W (StagesStorage sm) (ProjectName sm))) ;;
  mret tt.

Lemma keepsG_deletions : keeps (guarded R Good) deletions.
Proof using All.
  pose proof (Good_grows R sm options) as HP. unfold deletions.
  pose proof (keepsG_cleanupUnusedStages R sm options HK).
  keeps_go.
  - eapply keepsP_cleanupFinalStages; [done|exact HP|exact HK|exact Hfinal|congruence].
  - apply keepsP_call, HK.
Qed.

Lemma keepsP_policies (P : CleanupState -> Prop) :
  (forall s s', grows s s' -> P s -> P s') ->
  keeps (guarded R P) (kubernetesPolicy sm options) /\
  keeps (guarded R P) (gitPolicy sm options) /\
  keeps (guarded R P) (keepRecentlyBuilt options) /\
  keeps (guarded R P) (markWhitelistStagesAsProtected options).
Proof using All.
  intros HP. pose proof (keepsP_kubernetesPolicy R sm options P HP HK).
  pose proof (keepsP_gitPolicy R sm options P HP HK).
  pose proof (keepsP_keepRecentlyBuilt R sm options P HP HK).
  pose proof (keepsP_markWhitelist R sm options P HP HK). done.
Qed.

(** A policy after which the state is [Good] protects the run, given what comes before. *)
Lemma runAfterInit_split e :
  (runAfterInit sm options e) =
  ((kubernetesPolicy sm options ;; (gitPolicy sm options ;; keepRecentlyBuilt options ;;
     (markWhitelistStagesAsProtected options ;; deletions))) e).
Proof. done. Qed.

Lemma guarded_R {A} (m : prog E A) e :
  keeps (guarded R (fun _ => True)) m -> R (ext e) (ext (m e).2).
Proof. intros Hm. by apply Hm. Qed.

Lemma keeps_run :
  (forall e, R (ext e) (ext (runAfterInit sm options e).2)) -> keeps_ext (run sm options).
Proof using All.
  intros Hr. unfold run. destruct (DisableCleanup _).
  - apply guarded_True. apply keeps_bind; [typeclasses eauto|..].
    + by apply keepsP_purgeManagedImages.
    + intros _. by apply keepsP_purgeImageMetadata.
  - apply keeps_bind; [typeclasses eauto|by apply keeps_init|]. intros _. exact Hr.
Qed.

(** ** What follows the marks of the policies *)

Definition afterSearch : prog E unit :=
  deleteUnprotected sm options ;;
  wrap "unable to cleanup custom tags metadata: %w" [] (deleteUnusedCustomTags sm options) ;;
  wrap "unable to cleanup imports metadata: %w" [] (deleteUnusedImportsMetadata sm options).

Lemma keepsG_afterSearch : keeps (guarded R Good) afterSearch.
Proof using All.
  pose proof (Good_grows R sm options) as HP. unfold afterSearch.
  pose proof (keepsG_deleteUnprotected R sm options HK).
  pose proof (keepsP_deleteUnusedCustomTags R sm options _ HP HK).
  pose proof (keepsP_deleteUnusedImports R sm options _ HP HK). keeps_go.
Qed.

Definition same_manager (s s' : CleanupState) : Prop := stageManager s' = stageManager s.

#[local] Instance same_manager_PreOrder : PreOrder same_manager.
Proof. split; [done|]. unfold same_manager. intros ??? -> ->. done. Qed.

(** Reading the import metadata leaves the stage manager alone. *)
Lemma initImports_manager : keeps (on (@own W _) same_manager) (initImportsMetadata sm options).
Proof using Type.
  clear HK Hfinal. intros e. unfold initImportsMetadata, mbind, prog_bind. simpl.
  match goal with |- on own _ e (let (_, _) := call ?m ?e1 in _).2 => set (e0 := e1) end.
  assert (same_manager (own e) (own e0)) as H0' by done. unfold on. etrans; [exact H0'|]. clear H0'.
  generalize e0. clear e e0.
  change (keeps (on (@own W _) same_manager)
    (ids ← call (GetImportMetadataIDs W (StagesStorage sm) (ProjectName sm) [WithCache]);
     ForEachGetImportMetadata sm ids (fun metadataID r =>
      match r with
      | inr err => fail err
      | inl None =>
          wrap "unable to delete import metadata %s: %w" [FS metadataID]
            (cleanup_deleteImportsMetadata sm options [metadataID])
      | inl (Some metadata) =>
          s ← get_own;
          set_own (mkCleanupState (stageManager s)
            (addCommits (checksumSourceStageIDs s) (Checksum metadata) [SourceStageID metadata])
            (addCommits (sourceStageIDImportIDs s) (SourceStageID metadata)
               [ImportSourceID metadata]))
      end))).
  keeps_go. apply keeps_ForEachGetImportMetadata; [typeclasses eauto..|auto with werf|].
  intros id [[md|]|err]; [intros e; done| |auto with werf].
  unfold cleanup_deleteImportsMetadata, deleteImportsMetadata. keeps_go.
  apply keeps_ForEachRmImportMetadata; [typeclasses eauto..|auto with werf|].
  intros c [e|]; simpl; keeps_go.
Qed.

(** ** What a kept stage needs *)

(** Where the search for the relatives of a kept stage starts: the stage, or for an index the
    only stage of the set with the digest of a platform. *)
Definition kept_root (s : CleanupState) (d r : Desc) : Prop :=
  if Image.IsIndex (Image.SDInfo d.2) then
    stageDescSet (mset s) !! r.1 = Some r.2 /\
    exists i digest, i ∈ Image.Index (Image.SDInfo d.2) /\ Image.GetDigest i = Ok digest /\
      digest <> "" /\ Image.GetDigest (Image.SDInfo r.2) = Ok digest /\
      forall p x, stageDescSet (mset s) !! p = Some x ->
        Image.GetDigest (Image.SDInfo x) = Ok digest -> p = r.1
  else r = d.

(** The stage itself, and the ancestors of such a stage. *)
Definition needed (s : CleanupState) (d q : Desc) : Prop :=
  q = d \/ exists r, kept_root s d r /\ ancestor s r q.

Lemma needed_same s s' d q :
  stageDescSet (mset s') = stageDescSet (mset s) ->
  stageDescByStageID (mset s') = stageDescByStageID (mset s) -> needed s d q -> needed s' d q.
Proof using Type.
  intros Es Ei [->|(r & Hr & Ha)]; [by left|right]. exists r. split.
  - unfold kept_root in *. by rewrite Es.
  - revert Ha. apply rtc_subrel. intros x y. unfold parent. by rewrite Es, Ei.
Qed.

Lemma ancestor_in_set s d q :
  indexed (mset s) -> stageDescSet (mset s) !! d.1 = Some d.2 -> ancestor s d q ->
  stageDescSet (mset s) !! q.1 = Some q.2.
Proof using Type.
  intros Hi Hd Ha. induction Ha as [x|x y z Hxy _ IH]; [done|]. apply IH.
  destruct Hxy as [Hid|[Hy _]]; [by destruct (Hi _ _ Hid)|done].
Qed.

Lemma needed_in_set s d q :
  indexed (mset s) -> stageDescSet (mset s) !! d.1 = Some d.2 -> needed s d q ->
  stageDescSet (mset s) !! q.1 = Some q.2.
Proof using Type.
  intros Hi Hd [->|(r & Hr & Ha)]; [done|]. eapply ancestor_in_set; [done| |exact Ha].
  unfold kept_root in Hr. destruct (Image.IsIndex _); [by destruct Hr|by subst].
Qed.

(** All of it is marked when the search is over. *)
Lemma needed_marked s s' p d q :
  kept_closed s s' -> stable s s' -> stageDescSet (mset s) !! p = Some d -> marked (mset s) p ->
  needed s (p, d) q -> marked (mset s') q.1.
Proof using Type.
  intros [Hc Hx] Hst Hp Hm [->|(r & Hr & Ha)]; [by apply (stable_marks _ _ Hst)|].
  unfold kept_root in Hr. simpl in Hr. destruct (Image.IsIndex (Image.SDInfo d)) eqn:E.
  - destruct Hr as (Hr & i & digest & Hi & Hd & Hne & Hdr & Huniq).
    destruct (Hx p d i digest) as (q0 & x & Hq0 & Hdx & Hall); [done..|by exists r.1, r.2|].
    assert (q0 = r.1) as -> by eauto. destruct r as [r y]. simpl in *.
    assert (x = y) as -> by congruence. auto.
  - subst r. by apply (Hc p d).
Qed.

Lemma initialised_found e :
  initialised sm options e -> distinct_ids (stageDescSet (mset (own e))) -> found_by_id (own e).
Proof using Type. intros Hi Hd p d. by apply fresh_found; [eapply init_fresh|]. Qed.

(** The policies, and then the rest. *)
Lemma runAfterInit_policies e e1 :
  policies sm options e = (Ok tt, e1) -> runAfterInit sm options e = deletions e1.
Proof using Type.
  unfold policies. intros Hp. apply bind_Ok in Hp as ([] & ? & H1 & Hp).
  apply bind_Ok in Hp as ([] & ? & H2 & Hp). apply bind_Ok in Hp as ([] & ? & H3 & Hp).
  rewrite runAfterInit_split. unfold mbind, prog_bind in *.
  by rewrite H1, H2, H3, Hp.
Qed.

Lemma policies_keep e e1 : policies sm options e = (Ok tt, e1) -> R (ext e) (ext e1).
Proof using All.
  intros Hp. destruct (keepsP_policies (fun _ => True) trivial_grows) as (? & ? & ? & ?).
  assert (keeps (guarded R (fun _ => True)) (policies sm options)) as Hk by (unfold policies; keeps_go).
  pose proof (guarded_True _ Hk e) as HR. by rewrite Hp in HR.
Qed.

(** Where a stage is marked before, what it needs is neither deleted nor unmarked. *)
Lemma needed_kept e p d q :
  indexed (mset (own e)) -> marks_in_set (mset (own e)) -> found_by_id (own e) ->
  stageDescSet (mset (own e)) !! p = Some d -> marked (mset (own e)) p -> needed (own e) (p, d) q ->
  (forall x, Image.StageID_String (Image.SDStageID x) <> stage_id q -> Deletable R sm options x) ->
  R (ext e) (ext (cleanupUnusedStages sm options e).2) /\
  wlp (cleanupUnusedStages sm options) e (fun _ e' => Good (own e')).
Proof using All.
  intros Hi Hm Hf Hp Hmp Hq Hdel. unfold wlp.
  change (cleanupUnusedStages sm options e) with
    ((wrap "unable to init imports metadata: %w" [] (initImportsMetadata sm options) ;;
      (protectRelatives ;; afterSearch)) e).
  pose proof (keeps_wrap _ "unable to init imports metadata: %w" [] _ initImports_manager e) as Hman.
  assert (R (ext e) (ext (wrap "unable to init imports metadata: %w" []
    (initImportsMetadata sm options) e).2)) as Hr1.
  { apply guarded_R. apply keeps_wrap. by apply keepsP_initImports. }
  unfold mbind, prog_bind.
  destruct (wrap _ _ (initImportsMetadata sm options) e) as [[[]|err|msg] e1]; [|done..].
  simpl in *. unfold on, same_manager in Hman. 
  assert (needed (own e1) (p, d) q) as Hq1 by (apply (needed_same (own e)); [by rewrite Hman..|done]).
  unfold found_by_id in Hf. rewrite <-Hman in Hi, Hm, Hf, Hp, Hmp.
  assert (R (ext e1) (ext (protectRelatives e1).2)) as Hr2
    by (apply guarded_R; by apply (keepsP_protectRelatives R sm options)).
  pose proof (wpb_wlp True _ _ _ (protectRelatives_spec True e1 (fun _ => I) Hi Hm)) as Hs. unfold wlp in Hs.
  destruct (protectRelatives e1) as [[[]|err|msg] e2]; simpl in *; [|by (split; [etrans|])..].
  destruct Hs as (h & HI & Hserved). pose proof (inv_stable _ _ _ _ HI) as Hst.
  assert (Good (own e2)) as HG.
  { pose proof (needed_marked _ _ _ _ _ (served_closed _ _ _ HI Hserved) Hst Hp Hmp Hq1) as Hmq.
    pose proof (needed_in_set _ (p, d) _ Hi Hp Hq1) as Hqs.
    intros r x. rewrite (stable_set _ _ Hst). intros Hr.
    destruct (decide (Image.StageID_String (Image.SDStageID x) = stage_id q)) as [Hid|]; [left|auto].
    pose proof (Hf _ _ Hr) as F1. pose proof (Hf _ _ Hqs) as F2. destruct q as [q y].
    unfold stage_id in *. simpl in *. rewrite Hid, F2 in F1. by injection F1 as ->. }
  destruct (keepsG_afterSearch e2 HG) as [Hr3 HG3].
  destruct (afterSearch e2) as [[[]|err|msg] e3]; simpl in *; (split; [by etrans; [|etrans]|done]).
Qed.

End safe.
End CleanupSafe.

Module CleanupProps.
Import StagesStorage StorageManager StageManager ManagerFacts StageManagerFacts Cleanup
  CleanupProtect CleanupFacts CleanupInit CleanupSafe.

Section props.
Context {W : Type} `{!GoQuote, !Nondet, !GitHistory W, !CleaningLibrary W}.
Context (R : W -> W -> Prop) `{!PreOrder R}.

(** C6: a dry run changes nothing but for the record of the last cleanup: whatever
    relation the reads of the storages, of the git history, of the cluster and the post of
    that record keep, the whole run keeps, whichever policies are on, with no condition on
    any operation that deletes. *)
Theorem dry_run_deletes_nothing (sm : StorageManager.Manager W) options :
  DryRun options = true -> CleanupKeeps R sm options ->
  keeps (on (@ext W CleanupState) R) (run sm options).
Proof.
  intros Hd HK.
  assert (forall d, Deletable R sm options d) as Hdel by (intros d Hf; congruence).
  assert (FinalDeletable R sm options) as Hfin by (intros Hf; congruence).
  apply keeps_run; [done..|]. intros e.
  assert (keeps (guarded R (Good R sm options)) (runAfterInit sm options)) as Hk.
  { destruct (keepsP_policies R sm options HK Hfin _ (Good_grows R sm options)) as (? & ? & ? & ?).
    pose proof (keepsG_deletions R sm options HK Hfin).
    intros e1. rewrite runAfterInit_split. revert e1. change (keeps (guarded R (Good R sm options))
      (kubernetesPolicy sm options ;; (gitPolicy sm options ;; keepRecentlyBuilt options ;;
         (markWhitelistStagesAsProtected options ;; deletions sm options)))). keeps_go. }
  apply Hk. intros p d _. auto.
Qed.

(** C1: a stage whose tag is on the keep list is never deleted from the repository or from a
    cache of it. Where every call but the deletion of a stage keeps [R], and so do the deletion
    of a stage whose tag is not on the list and every deletion from the final repository, the
    whole run keeps [R], whatever the policies, the errors and the order of the deletions. The
    final repository is left out of the claim: the copy of a kept stage there may go. *)
Theorem keep_list_never_deleted (sm : StorageManager.Manager W) options :
  CleanupKeeps R sm options -> FinalDeletable R sm options ->
  (forall d, Image.Tag (Image.SDInfo d) ∉ KeepList options -> Deletable R sm options d) ->
  keeps (on (@ext W CleanupState) R) (run sm options).
Proof.
  intros HK Hfin Hdel. apply keeps_run; [done..|]. intros e. rewrite runAfterInit_split.
  destruct (keepsP_policies R sm options HK Hfin _ trivial_grows) as (? & ? & ? & Hmark).
  assert (forall e, R (ext e) (ext ((markWhitelistStagesAsProtected options ;;
    deletions sm options) e).2)) as Hlast.
  { intros e1. apply (keeps_then R sm options); [by apply guarded_R| |by apply keepsG_deletions].
    eapply wlp_mono; [apply marks_keepList|]. intros ? e2 Hm p d Hp.
    destruct (decide (Image.Tag (Image.SDInfo d) ∈ KeepList options)); [left; eauto|right; auto]. }
  revert e. change (keeps (on ext R) (kubernetesPolicy sm options ;; (gitPolicy sm options ;;
    keepRecentlyBuilt options ;; (markWhitelistStagesAsProtected options ;; deletions sm options)))).
  do 3 (apply keeps_bind; [typeclasses eauto|by apply guarded_True|]; intros _). exact Hlast.
Qed.

(** C5: where the policy is on, stages built within the last hours are never deleted from the
    repository or from a cache of it: those that are recent by every time the clock shows during
    the cleanup, an index being as recent as some platform of it. For any such stages [K], where
    every call but the deletion of a stage keeps [R], and so do the deletion of a stage that is
    not in [K] and every deletion from the final repository, which is left out of the claim, the
    whole run keeps [R]. *)
Theorem recently_built_never_deleted (sm : StorageManager.Manager W) options
  (K : Image.StageDesc -> bool) :
  CleanupKeeps R sm options -> FinalDeletable R sm options ->
  DisableBuiltWithinLastNHoursPolicy (ConfigMetaCleanup options) = false ->
  keepHours options <> 0%Z ->
  (forall d, K d = true -> recent options d) ->
  (forall d, K d = false -> Deletable R sm options d) ->
  keeps (on (@ext W CleanupState) R) (run sm options).
Proof.
  intros HK Hfin Hdis Hh Hrecent Hdel. apply keeps_run; [done..|]. intros e. rewrite runAfterInit_split.
  destruct (keepsP_policies R sm options HK Hfin _ trivial_grows) as (? & ? & Hrec & _).
  destruct (keepsP_policies R sm options HK Hfin _ (Good_grows R sm options)) as (_ & _ & _ & Hmark).
  pose proof (keepsG_deletions R sm options HK Hfin) as Hlast.
  assert (forall e, R (ext e) (ext ((keepRecentlyBuilt options ;;
    (markWhitelistStagesAsProtected options ;; deletions sm options)) e).2)) as Hrest.
  { intros e1. apply (keeps_then R sm options); [by apply guarded_R| |keeps_go].
    eapply wlp_mono; [by apply (marks_recent options)|]. intros ? e2 Hm p d Hp.
    destruct (K d) eqn:Hd; [left; eauto|right; auto]. }
  revert e. change (keeps (on ext R) (kubernetesPolicy sm options ;; (gitPolicy sm options ;;
    keepRecentlyBuilt options ;; (markWhitelistStagesAsProtected options ;; deletions sm options)))).
  do 2 (apply keeps_bind; [typeclasses eauto|by apply guarded_True|]; intros _). exact Hrest.
Qed.

(** C2: a stage that Kubernetes uses is never deleted from the repository or from a cache of
    it. From a state that the initialisation of the cleanup leaves, with no two stages of one
    id, where the policy is on and the images found in some cluster always have the name of a
    tag of the stage, its id or a custom tag, the rest of the run keeps every relation that
    everything keeps but the deletion of a stage with that id; deletions from the final
    repository are left out of the claim. *)
Theorem deployed_never_deleted (sm : StorageManager.Manager W) options e stageID tag :
  CleanupKeeps R sm options -> FinalDeletable R sm options ->
  initialised sm options e -> distinct_ids (stageDescSet (mset (own e))) ->
  WithoutKube options = false ->
  DisableKubernetesBasedPolicy (ConfigMetaCleanup options) = false ->
  tag_of (own e) tag stageID ->
  in_use options (Address (StagesStorage sm) +:+ ":" +:+ tag) ->
  (forall d, Image.StageID_String (Image.SDStageID d) <> stageID -> Deletable R sm options d) ->
  R (ext e) (ext (runAfterInit sm options e).2).
Proof.
  intros HK Hfin Hinit Hids Hk1 Hk2 Ht Huse Hdel. rewrite runAfterInit_split.
  pose proof (initialised_found sm options e Hinit Hids) as Hf.
  destruct (keepsP_policies R sm options HK Hfin _ trivial_grows) as (Hkube & _).
  destruct (keepsP_policies R sm options HK Hfin _ (Good_grows R sm options)) as (_ & ? & ? & ?).
  pose proof (keepsG_deletions R sm options HK Hfin).
  apply (keeps_then R sm options); [by apply guarded_R| |keeps_go].
  unfold kubernetesPolicy. rewrite Hk1, Hk2. simpl.
  destruct (KubernetesContextClients options) as [|c cs]; [done|]. clear c cs.
  wp_step.
  eapply wlp_mono; [apply wlp_conj; [by apply (deployed_in_use options)|
    apply (keeps_wlp (on (@own W _) eq))]|].
  { unfold deployedDockerImages. apply keeps_for_fold; [typeclasses eauto|]. intros l c _.
    keeps_go. }
  intros dep e1 [Hdep Ho]. unfold on in Ho. rewrite Ho in Hf, Ht. wp_step.
  eapply wlp_mono; [by apply (skip_marks sm stageID tag)|]. intros ? e2 Hm.
  eapply wlp_mono; [apply (keeps_wlp (on (@own W _) grows) _ e2)|].
  - unfold skipFinalStageIDsThatAreUsedInKubernetes, protectFinal, manager. keeps_go;
      intros ?; unfold on; simpl; by split.
  - intros ? e3 Hg p d Hp.
    destruct (decide (Image.StageID_String (Image.SDStageID d) = stageID)) as [Hid|]; [left|auto].
    exact (id_marked_grows stageID _ _ Hg Hm p d Hp Hid).
Qed.

(** C4: what a kept stage needs is never deleted from the repository or from a cache of it.
    From a state that the initialisation of the cleanup leaves, with no two stages of one id,
    where the policies keep a stage, the rest of the run keeps every relation that everything
    keeps but the deletion of a stage with the id of an ancestor of it: the stage itself, the
    parents that the labels name, theirs in turn; for an index, the ancestors of the only stage
    of the set with the digest of a platform. Deletions from the final repository are left out
    of the claim. *)
Theorem ancestors_never_deleted (sm : StorageManager.Manager W) options e e1 p d q :
  CleanupKeeps R sm options -> FinalDeletable R sm options ->
  initialised sm options e -> distinct_ids (stageDescSet (mset (own e))) ->
  policies sm options e = (Ok tt, e1) ->
  stageDescSet (mset (own e)) !! p = Some d -> marked (mset (own e1)) p ->
  needed (own e) (p, d) q ->
  (forall x, Image.StageID_String (Image.SDStageID x) <> stage_id q -> Deletable R sm options x) ->
  R (ext e) (ext (runAfterInit sm options e).2).
Proof.
  intros HK Hfin Hinit Hids Hpol Hp Hmp Hq Hdel.
  pose proof (initialised_found sm options e Hinit Hids) as Hf.
  destruct (policies_hold sm options e e1 tt (init_fresh _ _ _ Hinit) Hpol) as (Hi & Hm & Es & Ei).
  apply (needed_same _ (own e1)) in Hq; [|done..].
  assert (found_by_id (own e1)) as Hf1 by (intros x y; rewrite Es, Ei; apply Hf).
  rewrite <-Es in Hp. etrans; [by apply (policies_keep R sm options HK Hfin e e1)|].
  rewrite (runAfterInit_policies sm options e e1 Hpol).
  destruct (needed_kept R sm options HK Hfin e1 p d q Hi Hm Hf1 Hp Hmp Hq Hdel) as [HR HG].
  apply (keeps_then R sm options); [exact HR|exact HG|].
  pose proof (Good_grows R sm options) as HP. keeps_go.
  - eapply keepsP_cleanupFinalStages; [done|exact HP|exact HK|exact Hfin|congruence].
  - apply keepsP_call, HK.
Qed.

End props.
End CleanupProps.
