(* ===== verification/CleanupRecords.v ===== *)
(** The records of a cleanup: how the commits of an image's metadata are sorted, which of
    them a cleanup removes, and which errors of a deletion end it. *)
From S2P Require Import Prelude Go Slug Image Registry StagesStorage RepoStorage Parallel.
From S2P Require Import StorageManager StageManager ManagerFacts StageManagerFacts AllowList.
From S2P Require Import Cleanup CleanupProtect CleanupFacts.

Module RecordFacts.
Import StagesStorage StorageManager StageManager ManagerFacts Cleanup CleanupProtect CleanupFacts.

(** ** Counting commits *)

Lemma count_zero (m : gmap string (list string)) :
  countStageIDCommitList m = 0 <-> forall s l, m !! s = Some l -> l = [].
Proof.
  unfold countStageIDCommitList.
  apply (map_fold_weak_ind (fun n m => n = 0 <-> forall s (l : list string), m !! s = Some l -> l = [])).
  - split; [|done]. intros _ s l. by rewrite lookup_empty.
  - intros s l m' n Hs IH. split.
    + intros H s' l'. destruct (decide (s = s')) as [->|].
      * rewrite lookup_insert_eq. intros [= <-]. destruct l; [done|simpl in H; lia].
      * rewrite lookup_insert_ne by done. apply IH. lia.
    + intros H. assert (l = []) as -> by (apply (H s); by rewrite lookup_insert_eq).
      simpl. rewrite Nat.add_0_r. apply IH. intros s' l' Hl. apply (H s').
      rewrite lookup_insert_ne by congruence. done.
Qed.

Lemma countStageIDCommitList_insert s l (m : gmap string (list string)) :
  m !! s = None ->
  countStageIDCommitList (<[s := l]> m) = length l + countStageIDCommitList m.
Proof.
  intros Hs. unfold countStageIDCommitList. rewrite map_fold_insert_L; [lia| |done].
  intros. lia.
Qed.

(** ** The commits that exist *)

Section split.
Context {W X : Type} `{!GoQuote, !Nondet}.
Variable IsCommitExists : string -> prog W bool.
Variable ex : string -> bool.
(** The local git answers, and always the same. *)
Hypothesis Hex : forall c w, exists w', IsCommitExists c w = (Ok (ex c), w').

Definition cache_ok (cache : gmap string bool) : Prop :=
  forall c b, cache !! c = Some b -> b = ex c.

Lemma splitCommits_wp cache commits keep del (e : Env W X) :
  cache_ok cache ->
  wp (splitCommits IsCommitExists cache commits keep del) e (fun r _ =>
    cache_ok r.1 /\
    r.2 = (keep ++ filter (fun c => ex c = true) commits,
           del ++ filter (fun c => ex c = false) commits)).
Proof using Hex.
  revert cache keep del e. induction commits as [|c commits IH]; intros cache keep del e Hc; simpl.
  { apply wp_ret. rewrite !app_nil_r. done. }
  apply wp_bind.
  assert (wp (match cache !! c with
              | Some found => mret (found, cache)
              | None => found ← wrap "check commit %s in local git failed: %w" [FS c]
                          (call (IsCommitExists c));
                        mret (found, <[c := found]> cache)
              end) e (fun r _ => r.1 = ex c /\ cache_ok r.2)) as Hfound.
  { destruct (cache !! c) as [b|] eqn:E.
    - apply wp_ret. split; [by apply (Hc c)|done].
    - wp_step. unfold wp, call. destruct (Hex c (ext e)) as [w' ->]. wp_step. split; [done|].
      intros c' b. simpl. rewrite lookup_insert_Some. intros [[<- <-]|[_ Hb]]; [done|by apply (Hc c')]. }
  eapply wp_mono; [exact Hfound|]. intros [b cache'] e' [Hb Hc']. simpl in *. subst b.
  rewrite !filter_cons. destruct (ex c) eqn:Ec.
  - rewrite decide_True, decide_False by done. eapply wp_mono; [by apply IH|].
    intros r e2 [Hr ->]. split; [done|]. by rewrite <-app_assoc.
  - rewrite decide_False, decide_True by done. eapply wp_mono; [by apply IH|].
    intros r e2 [Hr ->]. split; [done|]. by rewrite <-app_assoc.
Qed.
End split.

(** ** The lists of an image *)

Definition key (im : imageMetadata) : string * string := (imImageName im, imStageID im).

Definition commits_of (m : gmap string (list string)) (s : string) : list string :=
  default [] (m !! s).

Lemma commits_addCommits m s l s' :
  commits_of (addCommits m s l) s' = commits_of m s' ++ (if decide (s = s') then l else []).
Proof.
  unfold commits_of, addCommits. destruct (decide (s = s')) as [->|].
  - by rewrite lookup_insert_eq.
  - by rewrite lookup_insert_ne, app_nil_r.
Qed.

Lemma exists_cons {A} (P : A -> Prop) a l :
  (exists x, x ∈ a :: l /\ P x) <-> P a \/ exists x, x ∈ l /\ P x.
Proof.
  split.
  - intros (x & Hx & HP). apply elem_of_cons in Hx as [->|Hx]; eauto.
  - intros [HP|(x & Hx & HP)]; [exists a|exists x]; rewrite elem_of_cons; auto.
Qed.

Lemma exists_nil {A} (P : A -> Prop) : (exists x, x ∈ [] /\ P x) <-> False.
Proof. split; [|done]. intros (x & Hx & _). by apply elem_of_nil in Hx. Qed.

(** A getter: the commits that [f] selects of the records that [test] selects. *)
Lemma getter_fold (test : imageMetadata -> bool) (f : imageMetadata -> list string) l m c s :
  c ∈ commits_of (foldl (fun res im => if test im then addCommits res (imStageID im) (f im) else res)
    m l) s <->
  c ∈ commits_of m s \/ exists im, im ∈ l /\ test im = true /\ imStageID im = s /\ c ∈ f im.
Proof.
  revert m. induction l as [|im l IH]; intros m; simpl.
  { rewrite exists_nil. tauto. }
  rewrite IH, exists_cons. destruct (test im) eqn:Et.
  - rewrite commits_addCommits, elem_of_app. destruct (decide (imStageID im = s)) as [E|E];
      [|rewrite elem_of_nil]; clear -E; tauto.
  - clear. split; [tauto|]. intros [|[(? & _)|]]; [tauto|done|tauto].
Qed.

Definition image_commits (m : ImageMetadataMap) (i s : string) : list string :=
  commits_of (default ∅ (m !! i)) s.

Lemma image_commits_add m im l i s :
  image_commits (addImageCommits m im l) i s =
  image_commits m i s ++ (if decide (key im = (i, s)) then l else []).
Proof.
  unfold image_commits, addImageCommits, key. destruct (decide (imImageName im = i)) as [<-|Hne].
  - rewrite lookup_insert_eq. simpl. rewrite commits_addCommits.
    destruct (decide (imStageID im = s)) as [->|]; [by rewrite decide_True|].
    rewrite decide_False by congruence. done.
  - rewrite lookup_insert_ne by done. rewrite decide_False by congruence. by rewrite app_nil_r.
Qed.

Lemma image_getter_fold (test : imageMetadata -> bool) (f : imageMetadata -> list string) l m i c s :
  c ∈ image_commits (foldl (fun res im => if test im then addImageCommits res im (f im) else res)
    m l) i s <->
  c ∈ image_commits m i s \/ exists im, im ∈ l /\ test im = true /\ key im = (i, s) /\ c ∈ f im.
Proof.
  revert m. induction l as [|im l IH]; intros m; simpl.
  { rewrite exists_nil. tauto. }
  rewrite IH, exists_cons. destruct (test im) eqn:Et.
  - rewrite image_commits_add, elem_of_app. destruct (decide (key im = (i, s))) as [E|E];
      [|rewrite elem_of_nil]; clear -E; tauto.
  - clear. split; [tauto|]. intros [|[(? & _)|]]; [tauto|done|tauto].
Qed.

Lemma foldl_ext {A B} (f g : A -> B -> A) l a :
  (forall a b, f a b = g a b) -> foldl f a l = foldl g a l.
Proof. intros H. revert a. induction l as [|b l IH]; intros a; simpl; [done|]. by rewrite H. Qed.

Lemma toCleanup_spec m i s c :
  c ∈ commits_of (GetStageIDCommitListToCleanup m i) s <->
  exists im, im ∈ imageMetadataList m /\ key im = (i, s) /\ isNonexistentImage im = false /\
    isNonexistentStage im = false /\ c ∈ commitList im.
Proof.
  unfold GetStageIDCommitListToCleanup, GetImageStageIDCommitListToCleanup.
  rewrite (foldl_ext _ (fun res im => if negb (isNonexistentImage im || isNonexistentStage im)
    then addImageCommits res im (commitList im) else res)) by (intros; by destruct (_ || _)).
  fold (image_commits (foldl (fun res im => if negb (isNonexistentImage im || isNonexistentStage im)
    then addImageCommits res im (commitList im) else res) ∅ (imageMetadataList m)) i s).
  rewrite image_getter_fold. unfold image_commits, commits_of. rewrite lookup_empty. simpl.
  rewrite lookup_empty. simpl. setoid_rewrite negb_true_iff. setoid_rewrite orb_false_iff. set_solver.
Qed.

Lemma nonexistentStage_spec m i s c :
  c ∈ commits_of (GetNonexistentStageIDCommitList m i) s <->
  exists im, im ∈ imageMetadataList m /\ key im = (i, s) /\ isNonexistentStage im = true /\
    c ∈ commitList im ++ commitListToDelete im.
Proof.
  unfold GetNonexistentStageIDCommitList.
  rewrite (foldl_ext _ (fun res im => if isNonexistentStage im && bool_decide (imImageName im = i)
    then addCommits res (imStageID im) (commitList im ++ commitListToDelete im) else res))
    by (intros; by destruct (isNonexistentStage _), (bool_decide _)).
  rewrite getter_fold. unfold commits_of. rewrite lookup_empty. simpl.
  setoid_rewrite andb_true_iff. setoid_rewrite bool_decide_eq_true. unfold key. set_solver.
Qed.

Lemma nonexistentCommits_spec m i s c :
  c ∈ commits_of (GetStageIDNonexistentCommitList m i) s <->
  exists im, im ∈ imageMetadataList m /\ key im = (i, s) /\ isNonexistentStage im = false /\
    c ∈ commitListToDelete im.
Proof.
  unfold GetStageIDNonexistentCommitList.
  rewrite (foldl_ext _ (fun res im => if negb (isNonexistentStage im) && bool_decide (imImageName im = i)
    then addCommits res (imStageID im) (commitListToDelete im) else res))
    by (intros; by destruct (isNonexistentStage _), (bool_decide _)).
  rewrite getter_fold. unfold commits_of. rewrite lookup_empty. simpl.
  setoid_rewrite andb_true_iff. setoid_rewrite negb_true_iff. setoid_rewrite bool_decide_eq_true.
  unfold key. set_solver.
Qed.

Lemma nonexistentImage_spec m i s c :
  c ∈ image_commits (GetStageIDCommitListByNonexistentImage m) i s <->
  exists im, im ∈ imageMetadataList m /\ key im = (i, s) /\ isNonexistentImage im = true /\
    c ∈ commitList im ++ commitListToDelete im.
Proof.
  unfold GetStageIDCommitListByNonexistentImage.
  rewrite (foldl_ext _ (fun res im => if isNonexistentImage im
    then addImageCommits res im (commitList im ++ commitListToDelete im) else res))
    by (intros; by destruct (isNonexistentImage _)).
  rewrite image_getter_fold. unfold image_commits, commits_of. rewrite lookup_empty. simpl.
  rewrite lookup_empty. set_solver.
Qed.

(** ** The records after the initialisation *)

(** A record of the image and the stage has the commit in the list. *)
Definition has (f : imageMetadata -> list string) (l : list imageMetadata) (i s c : string) : Prop :=
  exists im, im ∈ l /\ key im = (i, s) /\ c ∈ f im.

Lemma has_updateFirst f i s new upd l i' s' c extra :
  key new = (i, s) -> f new = [] -> (forall im, key (upd im) = key im) ->
  (forall im, f (upd im) = f im ++ extra) ->
  has f (updateFirst i s new upd l) i' s' c <->
  has f l i' s' c \/ ((i, s) = (i', s') /\ c ∈ extra).
Proof.
  intros Hk Hn Hu Hf. unfold has. induction l as [|im l IH]; simpl.
  - rewrite exists_cons, !exists_nil, Hu, Hf, Hn, Hk. simpl. naive_solver.
  - destruct (bool_decide (imImageName im = i) && bool_decide (imStageID im = s)) eqn:E.
    + split_bools. assert (key im = (i, s)) as Hkey by (unfold key; congruence).
      rewrite !exists_cons, Hu, Hf, Hkey, elem_of_app. clear IH. tauto.
    + rewrite !exists_cons, IH. clear. tauto.
Qed.

Section process.
Context {W X : Type} `{!GoQuote, !Nondet}.
Variable IsCommitExists : string -> prog W bool.
Variable ex : string -> bool.
Hypothesis Hex : forall c w, exists w', IsCommitExists c w = (Ok (ex c), w').

(** The commits of the stages of an image, and those of all images. *)
Definition in_stages (dn : list (string * list string)) (s c : string) : Prop :=
  exists l, (s, l) ∈ dn /\ c ∈ l.
Definition in_images (dn : list (string * gmap string (list string))) (i s c : string) : Prop :=
  exists m, (i, m) ∈ dn /\ in_stages (map_to_list m) s c.

Definition sorted (l l' : list imageMetadata) (new : string -> string -> string -> Prop) : Prop :=
  forall i s c,
    (has commitList l' i s c <-> has commitList l i s c \/ (new i s c /\ ex c = true)) /\
    (has commitListToDelete l' i s c <-> has commitListToDelete l i s c \/ (new i s c /\ ex c = false)).

Lemma sorted_ext l l' new new' :
  sorted l l' new -> (forall i s c, new i s c <-> new' i s c) -> sorted l l' new'.
Proof. intros Hs E i s c. rewrite <-E. apply Hs. Qed.

Lemma sorted_stage (m m' : Manager) l i s commits new new' :
  sorted l (imageMetadataList m) new ->
  m' = getOrCreateImageMetadata m i s (fun x =>
    mkImageMetadata (imStageID x) (imImageName x)
      (commitList x ++ filter (fun c => ex c = true) commits)
      (commitListToDelete x ++ filter (fun c => ex c = false) commits)
      (isNonexistentImage x) (isNonexistentStage x)) ->
  (forall i' s' c, new' i' s' c <-> new i' s' c \/ ((i, s) = (i', s') /\ c ∈ commits)) ->
  sorted l (imageMetadataList m') new'.
Proof.
  intros Hs -> Hn i' s' c. destruct (Hs i' s' c) as [H1 H2]. unfold getOrCreateImageMetadata.
  simpl. rewrite !(has_updateFirst commitList _ _ _ _ _ _ _ _ (filter (fun c => ex c = true) commits));
    [|done..].
  rewrite !(has_updateFirst commitListToDelete _ _ _ _ _ _ _ _ (filter (fun c => ex c = false) commits));
    [|done..].
  rewrite H1, H2, Hn, !list_elem_of_filter. clear. tauto.
Qed.

Lemma processImageMetadata_wp (maps : ImageMetadataMap) m (e : Env W X) :
  wp (processImageMetadata IsCommitExists maps m) e (fun m' _ =>
    managed m' = managed m /\
    sorted (imageMetadataList m) (imageMetadataList m') (fun i s c => c ∈ image_commits maps i s)).
Proof using Hex.
  unfold processImageMetadata. apply wp_bind. unfold wp at 1. simpl.
  set (images := shuffle (tick e) (map_to_list maps)).
  assert (images ≡ₚ map_to_list maps) as Hi by apply shuffle_perm.
  apply wp_bind. eapply wp_mono.
  { apply (wp_for_fold (fun dn (st : Manager * gmap string bool) (_ : Env W X) =>
      cache_ok ex st.2 /\ managed st.1 = managed m /\
      sorted (imageMetadataList m) (imageMetadataList st.1) (in_images dn))).
    2: { split; [by intros ? ?|]. split; [done|]. intros i s c. unfold in_images.
         setoid_rewrite elem_of_nil. naive_solver. }
    intros dn [i x] st e1 _ (Hc & Hm & Hs). apply wp_bind. unfold wp at 1. simpl.
    set (stages := shuffle (tick e1) (map_to_list x)).
    assert (stages ≡ₚ map_to_list x) as Hst by apply shuffle_perm.
    eapply wp_mono.
    { apply (wp_for_fold (fun dn' (st' : Manager * gmap string bool) (_ : Env W X) =>
        cache_ok ex st'.2 /\ managed st'.1 = managed m /\
        sorted (imageMetadataList m) (imageMetadataList st'.1)
          (fun i' s c => in_images dn i' s c \/ (i = i' /\ in_stages dn' s c)))).
      2: { split; [done|]. split; [done|]. eapply sorted_ext; [exact Hs|]. intros i' s c.
           unfold in_stages. setoid_rewrite elem_of_nil. naive_solver. }
      intros dn' [s commits] st' e2 _ (Hc' & Hm' & Hs'). apply wp_bind.
      eapply wp_mono; [by apply (splitCommits_wp IsCommitExists ex Hex)|].
      intros r e3 [Hr ->]. apply wp_ret. split; [done|]. split; [done|].
      eapply sorted_stage; [exact Hs'|done|]. intros i' s' c. unfold in_stages.
      setoid_rewrite elem_of_app. setoid_rewrite list_elem_of_singleton. naive_solver. }
    intros st' e2 (Hc' & Hm' & Hs'). split; [done|]. split; [done|].
    eapply sorted_ext; [exact Hs'|]. intros i' s c. unfold in_images at 2.
    assert (in_stages stages s c <-> in_stages (map_to_list x) s c) as ->
      by (unfold in_stages; by setoid_rewrite Hst).
    setoid_rewrite elem_of_app. setoid_rewrite list_elem_of_singleton. unfold in_images. naive_solver. }
  intros st e1 (_ & Hm & Hs). apply wp_ret. split; [done|]. eapply sorted_ext; [exact Hs|].
  intros i s c. unfold in_images, in_stages, image_commits, commits_of.
  setoid_rewrite Hi. setoid_rewrite elem_of_map_to_list. split.
  - intros (x & -> & l & Hl & Hc). simpl. by rewrite Hl.
  - destruct (maps !! i) as [x|] eqn:Ex; simpl; [|rewrite lookup_empty; by intros ?%elem_of_nil].
    intros Hc. exists x. split; [done|]. destruct (x !! s) as [l|] eqn:El; [eauto|].
    by apply elem_of_nil in Hc.
Qed.

End process.
End RecordFacts.

Module CleanupRecordProps.
Import StagesStorage StorageManager StageManager ManagerFacts StageManagerFacts Cleanup
  CleanupProtect CleanupFacts RecordFacts.

(** Where the local git answers, the initialisation of the images' metadata returns, and
    sorts every commit of every stage of every image: those that exist are added to the
    record's commits, the others to the commits to delete, no other commit is added, and
    none that was recorded is lost; the cache of answers changes nothing. *)
Theorem processImageMetadata_sorts {W X} `{!GoQuote, !Nondet} IsCommitExists ex
  (maps : ImageMetadataMap) m (e : Env W X) :
  (forall c w, exists w', IsCommitExists c w = (Ok (ex c), w')) ->
  wp (processImageMetadata IsCommitExists maps m) e (fun m' _ =>
    managed m' = managed m /\
    sorted ex (imageMetadataList m) (imageMetadataList m')
      (fun i s c => c ∈ image_commits maps i s)).
Proof. intros Hex. by apply processImageMetadata_wp. Qed.

(** The four lists that a cleanup reads of the records: the commits to check are those
    of existing images and stages; of a nonexistent stage or image all commits are listed for
    deletion; of an existing stage the commits that do not exist are. *)
Theorem record_lists m i s c :
  (c ∈ commits_of (GetStageIDCommitListToCleanup m i) s <->
     exists im, im ∈ imageMetadataList m /\ key im = (i, s) /\ isNonexistentImage im = false /\
       isNonexistentStage im = false /\ c ∈ commitList im) /\
  (c ∈ commits_of (GetNonexistentStageIDCommitList m i) s <->
     exists im, im ∈ imageMetadataList m /\ key im = (i, s) /\ isNonexistentStage im = true /\
       c ∈ commitList im ++ commitListToDelete im) /\
  (c ∈ commits_of (GetStageIDNonexistentCommitList m i) s <->
     exists im, im ∈ imageMetadataList m /\ key im = (i, s) /\ isNonexistentStage im = false /\
       c ∈ commitListToDelete im) /\
  (c ∈ image_commits (GetStageIDCommitListByNonexistentImage m) i s <->
     exists im, im ∈ imageMetadataList m /\ key im = (i, s) /\ isNonexistentImage im = true /\
       c ∈ commitList im ++ commitListToDelete im).
Proof.
  split; [apply toCleanup_spec|]. split; [apply nonexistentStage_spec|].
  split; [apply nonexistentCommits_spec|apply nonexistentImage_spec].
Qed.

Section cleanup.
Context {W : Type} `{!GoQuote, !Nondet, !GitHistory W, !CleaningLibrary W}.

(** [ExcludeFromStringArray] as its name says. *)
Definition excludes : Prop :=
  forall l x c, c ∈ @ExcludeFromStringArray W _ l x <-> c ∈ l /\ c ∉ x.

(** Of the commits of a stage, all are to be deleted where the stage is to be unlinked;
    otherwise those that the scan did not hit, and only they. *)
Theorem commitsToDelete_exact toCleanup hit unlink s c :
  excludes ->
  c ∈ commits_of (commitsToDelete (W:=W) toCleanup hit unlink) s <->
  c ∈ commits_of toCleanup s /\ (s ∈ unlink \/ c ∉ commits_of hit s).
Proof.
  intros Hx. unfold excludes in Hx. unfold commits_of, commitsToDelete. rewrite map_lookup_imap.
    pose proof (not_elem_of_nil c). destruct (toCleanup !! s) as [l|]; simpl; [|tauto].
  case_bool_decide as Hu; simpl; [tauto|].
  destruct (hit !! s) as [h|]; simpl; [rewrite Hx; tauto|tauto].
Qed.

Context (R : W -> W -> Prop) `{!PreOrder R}.
Variable sm : StorageManager.Manager W.
Variable options : CleanupOptions W KeepPolicy.
Abbreviation E := (Env W CleanupState).
Abbreviation keeps_ext := (keeps (on (@ext W CleanupState) R)).
Abbreviation st := (StagesStorage sm).
Abbreviation project := (ProjectName sm).

Lemma keeps_onDelete err : keeps_ext (onDelete err).
Proof. destruct err as [err|]; simpl; [destruct (handleDeletionError err)|]; auto with werf. Qed.
Hint Resolve keeps_onDelete : werf.

Lemma keeps_rm_commits i l :
  (forall s c, c ∈ commits_of l s -> keeps R (RmImageMetadata W st project i c s)) ->
  keeps_ext (deleteImageMetadata sm (DryRun options) i l).
Proof.
  intros Hrm. unfold deleteImageMetadata. destruct (DryRun options); [auto with werf|].
  unfold ForEachRmImageMetadata. apply keeps_iterate_bind; [typeclasses eauto..|]. intros order Ho.
  apply keeps_each; [typeclasses eauto..|]. intros [c s] Hin. apply keeps_bind; [typeclasses eauto| |auto with werf].
  apply keeps_try, keeps_call, Hrm. simpl. apply list_elem_of_bind in Hin as ([s' cs] & Hin & Hs).
  simpl in Hin. apply list_elem_of_bind in Hin as (c' & Hin & Hc).
  apply list_elem_of_singleton in Hin. injection Hin as -> ->. rewrite Ho in Hs.
  apply elem_of_map_to_list in Hs. unfold commits_of. by rewrite Hs.
Qed.

Lemma keeps_deleteIfAny i l :
  (forall s c, c ∈ commits_of l s -> keeps R (RmImageMetadata W st project i c s)) ->
  keeps_ext (deleteIfAny sm options i l).
Proof.
  intros Hrm. unfold deleteIfAny. destruct (_ =? _); [auto with werf|]. by apply keeps_rm_commits.
Qed.

(** A record of an image that the cleanup may remove. *)
Definition unneeded (m : Manager) (i : string) (hit : gmap string (list string))
  (unlink : list string) (s c : string) : Prop :=
  (c ∈ commits_of (GetStageIDCommitListToCleanup m i) s /\ (s ∈ unlink \/ c ∉ commits_of hit s)) \/
  c ∈ commits_of (GetNonexistentStageIDCommitList m i) s \/
  c ∈ commits_of (GetStageIDNonexistentCommitList m i) s.

(** The cleanup of an image's metadata removes no record that is needed: a commit on
    which the scan hit a stage that stays linked, unless the stage or the commit does not
    exist, or anything that is not recorded. *)
Theorem cleanupImageMetadata_keeps_hits i hit unlink (e : E) :
  excludes ->
  (forall s c, unneeded (stageManager (own e)) i hit unlink s c ->
     keeps R (RmImageMetadata W st project i c s)) ->
  R (ext e) (ext (cleanupImageMetadata sm options i hit unlink e).2).
Proof.
  intros Hx. set (m := stageManager (own e)). intros Hrm.
  assert (keeps_ext ((if negb (countStageIDCommitList hit =? 0) || negb (length unlink =? 0)
    then deleteIfAny sm options i (commitsToDelete (GetStageIDCommitListToCleanup m i) hit unlink)
    else mret tt) ;;
    deleteIfAny sm options i (GetNonexistentStageIDCommitList m i) ;;
    deleteIfAny sm options i (GetStageIDNonexistentCommitList m i))) as Hk; [|exact (Hk e)].
  unfold unneeded in Hrm. keeps_go; apply keeps_deleteIfAny; intros s c Hin; apply Hrm; [|tauto..].
  left. by apply commitsToDelete_exact in Hin.
Qed.

(** Only the custom tags of stages that are not in the set any more are deleted, none of
    a stage that is. *)
Theorem only_unused_custom_tags_deleted (e : E) :
  (forall stageID tags t, stageIDCustomTagList (stageManager (own e)) !! stageID = Some tags ->
     t ∈ tags -> ContainsStageDescByStageID (stageManager (own e)) stageID = false ->
     keeps R (DeleteStageCustomTag W st t) /\ keeps R (UnregisterStageCustomTag W st t)) ->
  R (ext e) (ext (deleteUnusedCustomTags sm options e).2).
Proof.
  set (m := stageManager (own e)). intros Hrm.
  assert (keeps_ext (order ← iterate (map_to_list (stageIDCustomTagList m));
    let tags := x ← order; if ContainsStageDescByStageID m x.1 then [] else x.2 in
    match tags with
    | [] => mret tt
    | _ => deleteCustomTags sm (DryRun options) tags
    end)) as Hk; [|exact (Hk e)].
  apply keeps_iterate_bind; [typeclasses eauto..|]. intros order Ho.
  assert (forall l, (forall t, t ∈ l -> keeps R (DeleteStageCustomTag W st t) /\
    keeps R (UnregisterStageCustomTag W st t)) ->
    keeps_ext (deleteCustomTags sm (DryRun options) l)) as Hdel.
  { intros l Hl. unfold deleteCustomTags. destruct (DryRun options); [auto with werf|].
    unfold ForEachDeleteStageCustomTag. apply keeps_each; [typeclasses eauto..|]. intros t Ht.
    destruct (Hl t Ht). keeps_go. }
  assert (forall t, t ∈ (x ← order; if ContainsStageDescByStageID m x.1 then [] else x.2) ->
    keeps R (DeleteStageCustomTag W st t) /\ keeps R (UnregisterStageCustomTag W st t)) as Hin.
  { intros t Ht. apply list_elem_of_bind in Ht as ([id tags] & Ht & Hx). simpl in Ht.
    destruct (ContainsStageDescByStageID m id) eqn:Ec; [by apply elem_of_nil in Ht|].
    rewrite Ho in Hx. apply elem_of_map_to_list in Hx. eauto. }
  cbv zeta. destruct (order ≫= _) as [|t l]; [auto with werf|]. by apply Hdel.
Qed.

(** Only the import metadata whose source stage is not protected is deleted. *)
Theorem only_unused_imports_deleted (e : E) :
  (forall sourceStageID ids id, sourceStageIDImportIDs (own e) !! sourceStageID = Some ids ->
     id ∈ ids ->
     (forall p d, GetProtectedStageDescSet (stageManager (own e)) !! p = Some d ->
        stage_id (p, d) <> sourceStageID) ->
     keeps R (RmImportMetadata W st project id)) ->
  R (ext e) (ext (deleteUnusedImportsMetadata sm options e).2).
Proof.
  set (s := own e). intros Hrm.
  set (protected := map_to_list (GetProtectedStageDescSet (stageManager s))).
  assert (keeps_ext (order ← iterate (map_to_list (sourceStageIDImportIDs s));
    let ids := x ← order; if existsb (fun d => bool_decide (x.1 = stage_id d)) protected
                          then [] else x.2 in
    match ids with
    | [] => mret tt
    | _ => cleanup_deleteImportsMetadata sm options ids
    end)) as Hk; [|exact (Hk e)].
  apply keeps_iterate_bind; [typeclasses eauto..|]. intros order Ho.
  assert (forall l, (forall id, id ∈ l -> keeps R (RmImportMetadata W st project id)) ->
    keeps_ext (cleanup_deleteImportsMetadata sm options l)) as Hdel.
  { intros l Hl. unfold cleanup_deleteImportsMetadata, deleteImportsMetadata.
    destruct (DryRun options); [auto with werf|]. unfold ForEachRmImportMetadata.
    apply keeps_each; [typeclasses eauto..|]. intros id Hid. specialize (Hl id Hid). keeps_go. }
  assert (forall id, id ∈ (x ← order; if existsb (fun d => bool_decide (x.1 = stage_id d)) protected
    then [] else x.2) -> keeps R (RmImportMetadata W st project id)) as Hin.
  { intros id Hid. apply list_elem_of_bind in Hid as ([src ids] & Hid & Hx). simpl in Hid.
    destruct (existsb _ protected) eqn:Ex; [by apply elem_of_nil in Hid|].
    rewrite Ho in Hx. apply elem_of_map_to_list in Hx. eapply Hrm; [done..|]. intros p d Hp Hs.
    assert (existsb (fun d => bool_decide (src = stage_id d)) protected = true) as Hc; [|congruence].
    apply existsb_exists. exists (p, d). rewrite bool_decide_eq_true. split; [|done].
    apply list_elem_of_In. by apply elem_of_map_to_list. }
  cbv zeta. destruct (order ≫= _) as [|t l]; [auto with werf|]. by apply Hdel.
Qed.

(** Whether the repository has the stage of a final stage. *)
Definition has_final (m : Manager) (d : Desc) : bool :=
  existsb (fun x : Desc => Image.IsEqual (Image.SDStageID x.2) (Image.SDStageID d.2))
    (map_to_list (mgr_StageDescSet m)).

Lemma has_final_spec m (d : Desc) :
  has_final m d = true -> exists q x, stageDescSet (managed m) !! q = Some x /\
    Image.IsEqual (Image.SDStageID x) (Image.SDStageID d.2) = true.
Proof.
  intros ([q x] & Hq & Heq)%existsb_exists. apply list_elem_of_In in Hq.
  apply elem_of_map_to_list in Hq. by exists q, x.
Qed.

(** The loop that protects the final stages that [found] does not find. *)
Definition protect_lost (found : Desc -> bool) (order : list Desc) : prog E unit :=
  for_each order (fun d => if found d then mret tt
    else protectFinal (W:=W) d ProtectionReasonNotFoundInRepo).

Abbreviation final_set := (fun e' : E => finalManaged (stageManager (own e'))).

Lemma protect_lost_ext found order : keeps (on (@ext W CleanupState) eq) (protect_lost found order).
Proof. apply keeps_for_each; [typeclasses eauto|]. intros d _. by destruct (found d). Qed.

Lemma protect_lost_marks found order (e : E) :
  wlp (protect_lost found order) e (fun _ e' =>
    stageDescSet (final_set e') = stageDescSet (final_set e) /\
    (forall p, marked (final_set e) p -> marked (final_set e') p) /\
    forall d, d ∈ order -> found d = false -> marked (final_set e') d.1).
Proof.
  apply (wlp_for_each (fun dn e' => stageDescSet (final_set e') = stageDescSet (final_set e) /\
    (forall p, marked (final_set e) p -> marked (final_set e') p) /\
    forall d, d ∈ dn -> found d = false -> marked (final_set e') d.1)).
  2: { split; [done|]. split; [done|]. intros d Hd. by apply elem_of_nil in Hd. }
  intros dn d e' _ (Hset & Hm & Hd).
  assert (forall x, x ∈ dn ++ [d] -> x ∈ dn \/ x = d) as Happ
    by (intros x; rewrite elem_of_app, list_elem_of_singleton; done).
  destruct (found d) eqn:Ef.
  - apply wlp_ret. split; [done|]. split; [done|]. intros x [Hx| ->]%Happ Hn; [auto|congruence].
  - unfold wlp. simpl. split; [done|]. split.
    + intros p Hp. rewrite marked_mark. right. by apply Hm.
    + intros x [Hx| ->]%Happ Hn; rewrite marked_mark; [right; by apply Hd|by left].
Qed.

(** The deletion of the final stages that are not marked. *)
Lemma keeps_delete_final final m :
  FinalStagesStorage sm = Some final ->
  let toDelete := mgr_FinalStageDescSet m ∖ GetFinalProtectedStageDescSet m in
  (forall p d o, toDelete !! p = Some d -> keeps R (DeleteStage W final d o)) ->
  keeps_ext (if bool_decide (toDelete = ∅) then mret tt
    else deleteStages sm options toDelete true ;;
         update (fun m => ForgetDeletedFinalStageDescSet m toDelete)).
Proof.
  intros Hfin toDelete Hdel. keeps_go; [|intros x; unfold on; simpl; reflexivity].
  unfold deleteStages, deleteStageDescSet. destruct (DryRun options); [auto with werf|].
  eapply keeps_ForEachDeleteFinalStage; [typeclasses eauto..|exact Hfin| |auto with werf].
  intros p d Hp. by apply keeps_call, (Hdel p d).
Qed.

(** A final stage is deleted only if its stage is still in the repository and the final
    stage is not marked; the final stages whose stage the repository has lost are kept. *)
Theorem final_deleted_only_if_in_repository final (e : E) :
  FinalStagesStorage sm = Some final ->
  (forall p d o, stageDescSet (finalManaged (stageManager (own e))) !! p = Some d ->
     ~ marked (finalManaged (stageManager (own e))) p ->
     (exists q x, stageDescSet (mset (own e)) !! q = Some x /\
        Image.IsEqual (Image.SDStageID x) (Image.SDStageID d) = true) ->
     keeps R (DeleteStage W final d o)) ->
  R (ext e) (ext (cleanupFinalStages sm options e).2).
Proof.
  intros Hfin Hdel. unfold cleanupFinalStages, manager. set (s0 := own e) in *.
  set (order := shuffle (tick e) (map_to_list (mgr_FinalStageDescSet (stageManager s0)))).
  set (e0 := mkEnv (ext e) (S (tick e)) (next_ptr e) (FinalStagesListCache e) s0).
  set (loop := protect_lost (has_final (stageManager s0)) order).
  set (k := fun u : unit => m ← manager (W:=W);
    let toDelete := mgr_FinalStageDescSet m ∖ GetFinalProtectedStageDescSet m in
    if bool_decide (toDelete = ∅) then mret tt
    else deleteStages sm options toDelete true ;;
         update (fun m => ForgetDeletedFinalStageDescSet m toDelete)).
  change (R (ext e0) (ext ((loop ≫= k) e0).2)).
  pose proof (protect_lost_ext (has_final (stageManager s0)) order e0) as Hext.
  pose proof (protect_lost_marks (has_final (stageManager s0)) order e0) as Hloop.
  fold loop in Hext, Hloop. unfold on in Hext. unfold wlp in Hloop.
  unfold mbind at 1, prog_bind at 1. destruct (loop e0) as [[[]|x|x] e1];
    change (ext e0 = ext e1) in Hext; rewrite Hext; [|simpl; reflexivity..].
  destruct Hloop as (Hset & Hm & Hmark). clear loop.
  refine (keeps_delete_final final (stageManager (own e1)) Hfin _ e1).
  intros p d o Hp. apply unprotected_lookup in Hp as [Hp Hn]. rewrite Hset in Hp.
  apply (Hdel p); [exact Hp|intros Hmp; by apply Hn, Hm|].
  destruct (has_final (stageManager s0) (p, d)) eqn:Ef; [by apply has_final_spec in Ef|].
  destruct Hn. apply (Hmark (p, d)); [|done]. unfold order. rewrite shuffle_perm.
  by apply elem_of_map_to_list.
Qed.

End cleanup.

(** The errors of a deletion that end a cleanup or a purge: those of missing rights, of an
    unsupported operation, and of an image in use by a container; such an error is passed on
    with its cause. Every other error is only warned of. *)
Theorem deletion_error_ends `{!GoQuote} err :
  match handleDeletionError err with
  | Some err' =>
      errors_Is err' err = true /\
      (IsDockerHubUnauthorizedErr err || IsGitHubPackagesUnauthorizedErr err
       || IsGitHubPackagesForbiddenErr err || IsImageDeletionFailedDueToUsingByContainerErr err
       || Str.Contains (err_text err) "UNAUTHORIZED" || Str.Contains (err_text err) "UNSUPPORTED")
      = true
  | None =>
      IsDockerHubUnauthorizedErr err = false /\ IsGitHubPackagesUnauthorizedErr err = false /\
      IsGitHubPackagesForbiddenErr err = false /\
      IsImageDeletionFailedDueToUsingByContainerErr err = false /\
      Str.Contains (err_text err) "UNAUTHORIZED" = false /\
      Str.Contains (err_text err) "UNSUPPORTED" = false
  end.
Proof.
  assert (errors_Is err err = true) as Hrefl
    by (destruct err; unfold errors_Is; by rewrite bool_decide_eq_true_2).
  unfold handleDeletionError. destruct (IsDockerHubUnauthorizedErr err); simpl.
  { by rewrite Hrefl, orb_true_r. }
  destruct (IsGitHubPackagesUnauthorizedErr err); simpl; [by rewrite Hrefl, orb_true_r|].
  destruct (IsGitHubPackagesForbiddenErr err); simpl; [by rewrite Hrefl, orb_true_r|].
  destruct (IsImageDeletionFailedDueToUsingByContainerErr err); simpl; [done|].
  destruct (Str.Contains _ "UNAUTHORIZED"); simpl; [done|].
  by destruct (Str.Contains _ "UNSUPPORTED").
Qed.

End CleanupRecordProps.
