(* ===== verification/CleanupExamples.v ===== *)
(** The theorems on cleanups at work: two storages held in memory, a git history in which
    nothing is reached, and a cluster with one pod. Each witness applies a theorem of
    CleanupProtect.v, CleanupProps.v or CleanupRecords.v there. *)
From S2P Require Import Prelude Go Slug Image Registry StagesStorage RepoStorage Parallel.
From S2P Require Import StorageManager StageManager ManagerFacts StageManagerFacts AllowList.
From S2P Require Import Cleanup CleanupProtect CleanupFacts CleanupProps CleanupRecords.

Module CleanupExamples.
Import StagesStorage StorageManager StageManager ManagerFacts StageManagerFacts Cleanup
  CleanupProtect CleanupFacts CleanupInit RecordFacts.

#[local] Existing Instance in_order.

(** ** Two storages in memory *)

(** The stages of the repository and of the final repository, the tags and records that were
    removed, and the number of cleanups recorded. *)
Record Two := mkTwo {
  mains : list Image.StageDesc;
  finals : list Image.StageDesc;
  removed : list string;
  cleanups : nat;
}.

Definition with_mains (w : Two) (l : list Image.StageDesc) : Two :=
  mkTwo l (finals w) (removed w) (cleanups w).
Definition with_finals (w : Two) (l : list Image.StageDesc) : Two :=
  mkTwo (mains w) l (removed w) (cleanups w).
Definition remove (s : string) : prog Two unit := fun w =>
  (Ok tt, mkTwo (mains w) (finals w) (s :: removed w) (cleanups w)).

Definition id_of (d : Image.StageDesc) : string := Image.StageID_String (Image.SDStageID d).

(** The same image: what a deletion removes. *)
Definition same (d x : Image.StageDesc) : bool :=
  bool_decide (id_of d = id_of x) && bool_decide (Image.Tag (Image.SDInfo d) = Image.Tag (Image.SDInfo x))
  && (Image.CreatedAtUnixNano (Image.SDInfo d) =? Image.CreatedAtUnixNano (Image.SDInfo x))%Z
  && eqb (Image.IsIndex (Image.SDInfo d)) (Image.IsIndex (Image.SDInfo x)).

Definition unused {A} : prog Two A := panic "not used".

Definition memory (addr : string) (get : Two -> list Image.StageDesc)
  (set : Two -> list Image.StageDesc -> Two) (metadata : ImageMetadataMap)
  (tags : list CustomTagMetadata) : Storage Two := {|
  Address := addr;
  ConstructStageImageName p d t := addr +:+ ":" +:+ d +:+ "-" +:+ itoa t;
  GetStagesIDs _ _ w := (Ok (Image.SDStageID <$> get w), w);
  GetStagesIDsByDigest _ _ _ _ := unused;
  GetStageDesc _ id w := (Ok (find (fun d => Image.IsEqual (Image.SDStageID d) id) (get w)), w);
  DeleteStage d _ w := (Ok tt, set w (filter (fun x => same d x = false) (get w)));
  AddStageCustomTag _ _ := unused;
  CheckStageCustomTag _ _ := unused;
  DeleteStageCustomTag t := remove t;
  GetStageCustomTagMetadata id w :=
    (match find (fun m => bool_decide (MdTag m = id)) tags with
     | Some m => Ok m | None => Err (Errorf "no metadata" []) end, w);
  GetStageCustomTagMetadataIDs _ := mret (MdTag <$> tags);
  RegisterStageCustomTag _ _ _ := unused;
  UnregisterStageCustomTag _ := mret tt;
  RejectStage _ _ _ := unused;
  CopyFromStorage _ _ _ := unused;
  AddManagedImage _ _ := unused;
  RmManagedImage _ i := remove i;
  IsManagedImageExist _ _ _ := unused;
  GetManagedImages _ _ := mret [];
  PutImageMetadata _ _ _ _ := unused;
  RmImageMetadata _ i c s := remove (i +:+ "/" +:+ s +:+ "/" +:+ c);
  IsImageMetadataExist _ _ _ _ _ := unused;
  GetAllAndGroupImageMetadataByImageName _ _ _ := mret (metadata, ∅);
  GetImportMetadata _ _ := mret None;
  PutImportMetadata _ _ := unused;
  RmImportMetadata _ id := remove id;
  GetImportMetadataIDs _ _ := mret [];
  GetClientIDRecords _ _ := unused;
  PostClientIDRecord _ _ := unused;
  GetSyncServerRecords _ _ := unused;
  PostSyncServerRecord _ _ := unused;
  GetLastCleanupRecord _ _ := unused;
  PostLastCleanupRecord _ w := (Ok tt, mkTwo (mains w) (finals w) (removed w) (S (cleanups w)));
|}.

Definition no_manifests : ManifestCache Two := mkManifestCache Two (fun _ _ => mret None) (fun _ _ => mret tt).

Definition main_storage (metadata : ImageMetadataMap) (tags : list CustomTagMetadata) : Storage Two :=
  memory "repo" mains with_mains metadata tags.
Definition final_storage : Storage Two := memory "final" finals with_finals ∅ [].

Definition storage_manager (metadata : ImageMetadataMap) (tags : list CustomTagMetadata)
  (final : bool) : StorageManager.Manager Two :=
  StorageManager.mkManager Two false 0 "proj" (main_storage metadata tags)
    (if final then Some final_storage else None) [] no_manifests None.

#[local] Instance no_history : GitHistory Two := {|
  Reference := unit;
  KeepPolicy := unit;
  PlainOpen := mret tt;
  IsCommitExists c := mret (bool_decide (c = "c1"));
  ReferencesToScan _ := mret [];
  ScanReferencesHistory _ _ := mret ([], ∅);
|}.

Definition clock : Z := 100000000000000%Z.

#[local] Instance library : CleaningLibrary Two := {|
  time_Now := mret clock;
  ExcludeFromStringArray l x := filter (fun c => c ∉ x) l;
|}.

(** ** A cluster with one pod *)

Definition none {S} (ns : string) : prog Two (list (Workload S)) := mret [].

Definition cluster (image : string) : KubeAPI Two := {|
  ListPods ns := mret [mkWorkload ns "p" (mkPodSpec [mkContainer "app" image] [])];
  ListReplicationControllers := none; ListDeployments := none; ListStatefulSets := none;
  ListDaemonSets := none; ListReplicaSets := none; ListCronJobsV1 := none;
  ListCronJobsV1beta1 := none; ListJobs := none; IsNotFound _ := false;
|}.

Definition options (kube : option string) (hours : Z) (dry : bool) (keep : gset string)
  : CleanupOptions Two KeepPolicy :=
  mkCleanupOptions Two unit [] 
    (match kube with Some image => [mkContextClient Two "ctx" (cluster image)] | None => [] end)
    ∅ (match kube with Some _ => false | None => true end)
    (mkMetaCleanup unit false false false false hours []) None dry 0 keep.

(** A stage with a digest, a parent and an age in hours. *)
Definition stage (digest parent : string) (age : Z) : Image.StageDesc :=
  Image.mkStageDesc (Image.NewStageID digest 1)
    (Image.mkInfo ("repo:" +:+ digest +:+ "-1") "repo" (digest +:+ "-1") "" [] [] ("sha-" +:+ digest)
       "none" {[ Image.WerfParentStageID := parent ]} 0 (clock - age * Hour)%Z ∅ false []).

Definition stages : list Image.StageDesc := [stage "a" "" 50; stage "b" "a-1" 40; stage "c" "" 30].
Definition world : Two := mkTwo stages [stage "b" "a-1" 40; stage "z" "" 90] [] 0.

Definition start : Env Two CleanupState := mkEnv world 0 1%positive None newCleanupState.

(** The ids that a run leaves in the two repositories. *)
Definition left (r : res unit * Env Two CleanupState) : res unit * list string * list string :=
  (r.1, id_of <$> mains (ext r.2), id_of <$> finals (ext r.2)).

(** The keep list keeps "b" and its parent "a"; "c" is deleted. *)
Example keep_list_run :
  left (run (storage_manager ∅ [] false) (options None 0 false {["b-1"]}) start) =
  (Ok tt, ["a-1"; "b-1"], ["b-1"; "z-1"]).
Proof. vm_compute. reflexivity. Qed.

Example kubernetes_run :
  left (run (storage_manager ∅ [] false) (options (Some "repo:c-1") 0 false ∅) start) =
  (Ok tt, ["c-1"], ["b-1"; "z-1"]).
Proof. vm_compute. reflexivity. Qed.

Example recent_run :
  left (run (storage_manager ∅ [] false) (options None 40 false ∅) start) =
  (Ok tt, ["a-1"; "b-1"; "c-1"], ["b-1"; "z-1"]).
Proof. vm_compute. reflexivity. Qed.

(** A finding: a kept stage loses its copy in the final repository, while the final stage
    that the repository does not have is kept. *)
Theorem kept_stage_loses_final :
  left (run (storage_manager ∅ [] true) (options None 0 false {["b-1"]}) start) =
  (Ok tt, ["a-1"; "b-1"], ["z-1"]).
Proof. vm_compute. reflexivity. Qed.

(** ** The stages that stay *)

(** Every stage of the repository that satisfies [P] stays. *)
Definition stays (P : Image.StageDesc -> Prop) (w w' : Two) : Prop :=
  forall x, x ∈ mains w -> P x -> x ∈ mains w'.

#[local] Instance stays_PreOrder P : PreOrder (stays P).
Proof. split; [by intros w x|]. intros w1 w2 w3 H1 H2 x Hx HP. by apply H2; [apply H1|]. Qed.

Section stay.
Variable P : Image.StageDesc -> Prop.

Lemma stays_same {A} (m : prog Two A) : (forall w, mains (m w).2 = mains w) -> keeps (stays P) m.
Proof. intros Hm w x Hx _. by rewrite Hm. Qed.

Lemma memory_reads addr get set md tags : ReadsKeep (stays P) (memory addr get set md tags).
Proof. split; intros; by apply stays_same. Qed.

Lemma memory_records addr get set md tags : RecordsKeep (stays P) (memory addr get set md tags).
Proof. split; intros; by apply stays_same. Qed.

Lemma cleanup_keeps md tags final kube hours dry keep :
  CleanupKeeps (stays P) (storage_manager md tags final) (options kube hours dry keep).
Proof.
  split; try (intros; by apply stays_same).
  - split; try (intros; by apply stays_same); [apply memory_reads| |by intros ? ?%elem_of_nil].
    intros st Hst. unfold storage_manager in Hst. destruct final; [|done]. injection Hst as <-.
    apply memory_reads.
  - intros _. apply memory_records.
  - by intros filter set o Hf.
  - intros client ns Hc. apply stays_same. intros w. unfold options in Hc.
    destruct kube as [image|]; [|by apply elem_of_nil in Hc].
    apply list_elem_of_singleton in Hc as ->. reflexivity.
Qed.

Lemma final_deletable md tags final kube hours dry keep :
  FinalDeletable (stays P) (storage_manager md tags final) (options kube hours dry keep).
Proof.
  intros _ st d o Hst. unfold storage_manager in Hst. destruct final; [|done].
  injection Hst as <-. by apply stays_same.
Qed.

Lemma deletable md tags final kube hours dry keep d :
  (forall x, same d x = true -> ~ P x) ->
  Deletable (stays P) (storage_manager md tags final) (options kube hours dry keep) d.
Proof.
  intros Hd _ c o Hc. apply list_elem_of_singleton in Hc as ->. intros w x Hx HP. simpl.
  apply list_elem_of_filter. split; [|done]. destruct (same d x) eqn:E; [|done]. by destruct (Hd x E).
Qed.
End stay.

Lemma same_spec d x :
  same d x = true -> id_of d = id_of x /\ Image.Tag (Image.SDInfo d) = Image.Tag (Image.SDInfo x) /\
    Image.CreatedAtUnixNano (Image.SDInfo d) = Image.CreatedAtUnixNano (Image.SDInfo x) /\
    Image.IsIndex (Image.SDInfo d) = Image.IsIndex (Image.SDInfo x).
Proof. unfold same. intros H. split_bools. repeat split; [done..|by apply Z.eqb_eq|by apply eqb_prop]. Qed.

(** ** Witnesses *)

Lemma dry_run_deletes_nothing_witness :
  stays (fun _ => True) world
    (ext (run (storage_manager ∅ [] true) (options (Some "repo:c-1") 2 true ∅) start).2).
Proof.
  refine (CleanupProps.dry_run_deletes_nothing (stays (fun _ => True)) (storage_manager ∅ [] true)
    (options (Some "repo:c-1") 2 true ∅) _ _ start); [reflexivity|apply cleanup_keeps].
Defined.

Lemma keep_list_never_deleted_witness :
  stays (fun x => Image.Tag (Image.SDInfo x) = "b-1") world
    (ext (run (storage_manager ∅ [] true) (options None 0 false {["b-1"]}) start).2).
Proof.
  refine (CleanupProps.keep_list_never_deleted (stays (fun x => Image.Tag (Image.SDInfo x) = "b-1"))
    (storage_manager ∅ [] true) (options None 0 false {["b-1"]}) _ _ _ start);
    [apply cleanup_keeps|apply final_deletable|].
  intros d Hd. apply deletable. intros x (_ & Ht & _)%same_spec Hx. apply Hd. rewrite Ht, Hx. by apply elem_of_singleton.
Defined.

(** The stages that are no index and at most 40 hours old. *)
Definition fresh_enough (d : Image.StageDesc) : bool :=
  negb (Image.IsIndex (Image.SDInfo d)) && builtWithin clock 40 (Image.SDInfo d).

Lemma recently_built_never_deleted_witness :
  stays (fun x => fresh_enough x = true) world
    (ext (run (storage_manager ∅ [] true) (options None 40 false ∅) start).2).
Proof.
  refine (CleanupProps.recently_built_never_deleted (stays (fun x => fresh_enough x = true))
    (storage_manager ∅ [] true) (options None 40 false ∅) fresh_enough _ _ _ _ _ _ start);
    [apply cleanup_keeps|apply final_deletable|reflexivity|by vm_compute| |].
  - intros d [Hx Hb]%andb_true_iff. apply negb_true_iff in Hx. exists (Image.SDInfo d).
    rewrite Hx. split; [|done]. intros w now w' [= <- _]. exact Hb.
  - intros d Hd. apply deletable. intros x (_ & _ & Hc & Hi)%same_spec Hx.
    unfold fresh_enough, builtWithin, Image.GetCreatedAt in *. rewrite <-Hc, <-Hi, Hd in Hx. discriminate Hx.
Defined.

(** The state after the initialisation. *)
Definition ready : Env Two CleanupState :=
  (init (storage_manager ∅ [mkCustomTagMetadata "c-1" "latest"] false)
     (options (Some "repo:latest") 0 false ∅) start).2.

Lemma run_snd {B} (r : res unit * B) : r.1 = Ok tt -> r = (Ok tt, r.2).
Proof. destruct r as [x b]. simpl. by intros ->. Qed.

Lemma ready_initialised :
  initialised (storage_manager ∅ [mkCustomTagMetadata "c-1" "latest"] false)
    (options (Some "repo:latest") 0 false ∅) ready.
Proof. exists start. unfold ready. apply run_snd. vm_compute. reflexivity. Qed.

(** The ids of the stages of a set are all different. *)
Lemma distinct_list (set : StageDescSet) : NoDup (stage_id <$> map_to_list set) -> distinct_ids set.
Proof.
  intros Hn p q d d' Hp%elem_of_map_to_list Hq%elem_of_map_to_list E.
  apply list_elem_of_lookup in Hp as [i Hi], Hq as [j Hj].
  assert (i = j) as ->; [|congruence]. eapply (NoDup_lookup (stage_id <$> map_to_list set));
    [done|by rewrite list_lookup_fmap, Hi|rewrite list_lookup_fmap, Hj; simpl; by rewrite E].
Qed.

Lemma ready_distinct : distinct_ids (stageDescSet (mset (own ready))).
Proof. apply distinct_list. apply (bool_decide_unpack _). vm_compute. exact I. Qed.

(** The stage is in use by its custom tag. *)
Lemma deployed_never_deleted_witness :
  stays (fun x => id_of x = "c-1") (ext ready)
    (ext (runAfterInit (storage_manager ∅ [mkCustomTagMetadata "c-1" "latest"] false)
            (options (Some "repo:latest") 0 false ∅) ready).2).
Proof.
  apply (CleanupProps.deployed_never_deleted (stays (fun x => id_of x = "c-1"))
    (storage_manager ∅ [mkCustomTagMetadata "c-1" "latest"] false)
    (options (Some "repo:latest") 0 false ∅) ready "c-1" "latest");
    [apply cleanup_keeps|apply final_deletable|apply ready_initialised|apply ready_distinct
    |reflexivity|reflexivity| | |].
  - right. exists ["latest"]. split; [vm_compute; reflexivity|by left].
  - exists (mkContextClient Two "ctx" (cluster "repo:latest")).
    split; [by apply list_elem_of_singleton|]. intros w. vm_compute. reflexivity.
  - intros d Hd. apply deletable. intros x (Hi & _)%same_spec Hx. apply Hd. unfold id_of in *. congruence.
Defined.

(** From here "b" is on the keep list already. *)
Definition marked_b : Env Two CleanupState :=
  (markWhitelistStagesAsProtected (W:=Two) (options None 0 false {["b-1"]}) ready).2.

Definition b_pointer : positive := 2.
Definition a_pointer : positive := 1.

Lemma marked_b_indexed : indexed (mset (own marked_b)).
Proof.
  intros id d Hd. apply elem_of_map_to_list in Hd.
  assert (Forall (fun x : string * (positive * Image.StageDesc) =>
    stageDescSet (mset (own marked_b)) !! x.2.1 = Some x.2.2 /\ stage_id x.2 = x.1)
    (map_to_list (stageDescByStageID (mset (own marked_b))))) as Hall.
  { vm_compute. repeat constructor. }
  rewrite Forall_forall in Hall. by apply (Hall (id, d)).
Qed.

Lemma marked_b_in_set : marks_in_set (mset (own marked_b)).
Proof.
  intros p d meta Hp. apply elem_of_map_to_list in Hp.
  assert (Forall (fun x : positive * (Image.StageDesc * stageMeta) =>
    stageDescSet (mset (own marked_b)) !! x.1 = Some x.2.1)
    (map_to_list (stageDescMetaMap (mset (own marked_b))))) as Hall.
  { vm_compute. repeat constructor. }
  rewrite Forall_forall in Hall. by apply (Hall (p, (d, meta))).
Qed.

Lemma marked_b_digests : digests_ok (stageDescSet (mset (own marked_b))).
Proof.
  intros p d Hp. apply elem_of_map_to_list in Hp.
  assert (Forall (fun x : positive * Image.StageDesc =>
    Image.GetDigest (Image.SDInfo x.2) = Ok "" /\ Image.Index (Image.SDInfo x.2) = [])
    (map_to_list (stageDescSet (mset (own marked_b))))) as Hall.
  { vm_compute. repeat constructor. }
  rewrite Forall_forall in Hall. destruct (Hall (p, d) Hp) as [H1 H2]. simpl in *.
  split; [eauto|]. rewrite H2. by intros i ?%elem_of_nil.
Qed.

Lemma protectRelatives_closed_witness :
  wp (protectRelatives (W:=Two)) marked_b (fun _ e' =>
    stable (own marked_b) (own e') /\ kept_closed (own marked_b) (own e') /\
    forall p, marked (mset (own e')) p -> is_Some (stageDescSet (mset (own marked_b)) !! p)).
Proof.
  apply (CleanupProtectProps.protectRelatives_closed marked_b);
    [apply marked_b_indexed|apply marked_b_in_set|apply marked_b_digests].
Defined.

(** A cleanup whose keep list has "b": the state after its initialisation, and after its
    policies. *)
Definition keep_b : CleanupOptions Two KeepPolicy := options None 0 false {["b-1"]}.
Definition ready_b : Env Two CleanupState := (init (storage_manager ∅ [] false) keep_b start).2.
Definition kept_b : Env Two CleanupState := (policies (storage_manager ∅ [] false) keep_b ready_b).2.

Lemma ancestors_never_deleted_witness :
  stays (fun x => id_of x = "a-1") (ext ready_b)
    (ext (runAfterInit (storage_manager ∅ [] false) keep_b ready_b).2).
Proof.
  apply (CleanupProps.ancestors_never_deleted (stays (fun x => id_of x = "a-1"))
    (storage_manager ∅ [] false) keep_b ready_b kept_b b_pointer
    (stage "b" "a-1" 40) (a_pointer, stage "a" "" 50));
    [apply cleanup_keeps|apply final_deletable| | | | | | |].
  - exists start. unfold ready_b. apply run_snd. vm_compute. reflexivity.
  - apply distinct_list. apply (bool_decide_unpack _). vm_compute. exact I.
  - unfold kept_b. apply run_snd. vm_compute. reflexivity.
  - vm_compute. reflexivity.
  - eexists _, _. split; [vm_compute; reflexivity|reflexivity].
  - right. exists (b_pointer, stage "b" "a-1" 40). split; [reflexivity|].
    apply rtc_once. left. vm_compute. reflexivity.
  - intros d Hd. apply deletable. intros x (Hi & _)%same_spec Hx. apply Hd. unfold id_of in *.
    rewrite Hi, Hx. reflexivity.
Defined.

(** ** Records *)

(** The record or tag is not removed. *)
Definition spared (s : string) (w w' : Two) : Prop := s ∉ removed w -> s ∉ removed w'.

#[local] Instance spared_PreOrder s : PreOrder (spared s).
Proof. split; [by intros w Hn|]. intros w1 w2 w3 H1 H2 Hn. by apply H2, H1. Qed.

Lemma spared_remove s s' : s <> s' -> keeps (spared s) (remove s').
Proof. intros Hs w Hn [?|Hin]%elem_of_cons; [by apply Hs|by apply Hn]. Qed.

(** Stage "b-1" of the image "app" has a commit that exists, "c1", and one that does not. *)
Definition metadata : ImageMetadataMap := {[ "app" := {[ "b-1" := ["c1"; "c2"] ]} ]}.

Lemma processImageMetadata_sorts_witness :
  wp (processImageMetadata (X:=unit) (W:=Two) IsCommitExists metadata NewManager)
    (mkEnv world 0 1%positive None tt) (fun m' _ =>
    managed m' = managed NewManager /\
    sorted (fun c => bool_decide (c = "c1")) (imageMetadataList NewManager) (imageMetadataList m')
      (fun i s c => c ∈ image_commits metadata i s)).
Proof.
  apply (CleanupRecordProps.processImageMetadata_sorts (X:=unit) (W:=Two) IsCommitExists
    (fun c => bool_decide (c = "c1")) metadata NewManager (mkEnv world 0 1%positive None tt)).
  intros c w. exists w. reflexivity.
Defined.

Lemma exclusion : CleanupRecordProps.excludes (W:=Two).
Proof. intros l x c. simpl. rewrite list_elem_of_filter. tauto. Qed.

Lemma commitsToDelete_exact_witness :
  "c2" ∈ commits_of (commitsToDelete (W:=Two) {[ "b-1" := ["c1"; "c2"] ]} {[ "b-1" := ["c1"] ]} []) "b-1" <->
  "c2" ∈ commits_of {[ "b-1" := ["c1"; "c2"] ]} "b-1" /\
    ("b-1" ∈ [] \/ "c2" ∉ commits_of {[ "b-1" := ["c1"] ]} "b-1").
Proof.
  apply (CleanupRecordProps.commitsToDelete_exact {[ "b-1" := ["c1"; "c2"] ]} {[ "b-1" := ["c1"] ]} []
    "b-1" "c2"). apply exclusion.
Defined.

Lemma in_commits (m : gmap string (list string)) s c :
  c ∈ commits_of m s -> exists l, (s, l) ∈ map_to_list m /\ c ∈ l.
Proof.
  unfold commits_of. destruct (m !! s) as [l|] eqn:E; simpl; [|by intros ?%elem_of_nil].
  intros Hc. exists l. by rewrite elem_of_map_to_list.
Qed.

(** The state after the initialisation with the metadata; the scan hits "c1". *)
Definition with_metadata : Env Two CleanupState :=
  (init (storage_manager metadata [mkCustomTagMetadata "c-1" "latest"; mkCustomTagMetadata "x-1" "old"]
     false) (options None 0 false ∅) start).2.

Lemma cleanupImageMetadata_keeps_hits_witness :
  spared "app/b-1/c1" (ext with_metadata)
    (ext (cleanupImageMetadata (storage_manager metadata [] false) (options None 0 false ∅) "app"
       {[ "b-1" := ["c1"] ]} [] with_metadata).2).
Proof.
  apply (CleanupRecordProps.cleanupImageMetadata_keeps_hits (spared "app/b-1/c1")
    (storage_manager metadata [] false) (options None 0 false ∅) "app" {[ "b-1" := ["c1"] ]} []
    with_metadata); [apply exclusion|].
  intros s c Hu. apply spared_remove. intros E.
  destruct Hu as [[Hin Hx]|[Hin|Hin]]; apply in_commits in Hin as (l & Hin & Hc); vm_compute in Hin.
  - apply list_elem_of_singleton in Hin. injection Hin as -> ->.
    apply list_elem_of_singleton in Hc as ->. destruct Hx as [Hx|Hx]; [by apply elem_of_nil in Hx|].
    apply Hx. vm_compute. by left.
  - by apply elem_of_nil in Hin.
  - apply list_elem_of_singleton in Hin. injection Hin as -> ->.
    apply list_elem_of_singleton in Hc as ->. discriminate E.
Defined.

(** The stage of the tag "latest" is in the set. *)
Lemma latest_in_use :
  forallb (fun x : string * list string => negb (bool_decide ("latest" ∈ x.2))
      || ContainsStageDescByStageID (stageManager (own with_metadata)) x.1)
    (map_to_list (stageIDCustomTagList (stageManager (own with_metadata)))) = true.
Proof. vm_compute. reflexivity. Qed.

Lemma only_unused_custom_tags_deleted_witness :
  spared "latest" (ext with_metadata)
    (ext (deleteUnusedCustomTags (storage_manager metadata [] false) (options None 0 false ∅)
       with_metadata).2).
Proof.
  apply (CleanupRecordProps.only_unused_custom_tags_deleted (spared "latest")
    (storage_manager metadata [] false) (options None 0 false ∅) with_metadata).
  intros id tags t Hid Ht Hc. split; [|intros w Hw; exact Hw]. apply spared_remove. intros <-.
  apply elem_of_map_to_list, list_elem_of_In in Hid.
  pose proof (proj1 (forallb_forall _ _) latest_in_use _ Hid) as Hl. cbv beta in Hl.
  cbn [fst snd] in Hl.
  rewrite Hc, bool_decide_eq_true_2 in Hl by exact Ht. cbn [negb orb] in Hl. exact (Bool.diff_false_true Hl).
Defined.

(** The imports of "b-1" and of a stage that no longer exists; "b-1" is marked. *)
Definition with_imports : Env Two CleanupState :=
  mkEnv (ext marked_b) 0 1%positive None
    (mkCleanupState (stageManager (own marked_b)) ∅ {[ "b-1" := ["i1"]; "x-1" := ["i2"] ]}).

Lemma i1_from_b :
  forallb (fun x : string * list string => negb (bool_decide ("i1" ∈ x.2)) || bool_decide (x.1 = "b-1"))
    (map_to_list (sourceStageIDImportIDs (own with_imports))) = true.
Proof. vm_compute. reflexivity. Qed.

Lemma only_unused_imports_deleted_witness :
  spared "i1" (ext with_imports)
    (ext (deleteUnusedImportsMetadata (storage_manager ∅ [] false) (options None 0 false ∅)
       with_imports).2).
Proof.
  apply (CleanupRecordProps.only_unused_imports_deleted (spared "i1")
    (storage_manager ∅ [] false) (options None 0 false ∅) with_imports).
  intros src ids id Hid Hin Hp. apply spared_remove. intros <-.
  apply elem_of_map_to_list, list_elem_of_In in Hid.
  pose proof (proj1 (forallb_forall _ _) i1_from_b _ Hid) as Hl. cbv beta in Hl.
  cbn [fst snd] in Hl.
  rewrite (bool_decide_eq_true_2 _ Hin) in Hl. cbn [negb orb] in Hl. apply bool_decide_eq_true in Hl. subst src.
  apply (Hp b_pointer (stage "b" "a-1" 40)); vm_compute; reflexivity.
Defined.

(** With the final repository; "z-1" is not in the repository. *)
Definition with_final : Env Two CleanupState :=
  (init (storage_manager ∅ [] true) (options None 0 false ∅) start).2.

Definition final_stays (id : string) (w w' : Two) : Prop :=
  id ∈ (id_of <$> finals w) -> id ∈ (id_of <$> finals w').

#[local] Instance final_stays_PreOrder id : PreOrder (final_stays id).
Proof. split; [by intros w Hn|]. intros w1 w2 w3 H1 H2 Hn. by apply H2, H1. Qed.

(** No stage of the repository is the final stage "z-1". *)
Lemma only_b_common :
  forallb (fun x => forallb (fun y =>
      negb (bool_decide (id_of x.2 = "z-1")
            && Image.IsEqual (Image.SDStageID y.2) (Image.SDStageID x.2)))
    (map_to_list (stageDescSet (mset (own with_final)))))
  (map_to_list (stageDescSet (finalManaged (stageManager (own with_final))))) = true.
Proof. vm_compute. reflexivity. Qed.

Lemma final_deleted_only_if_in_repository_witness :
  final_stays "z-1" (ext with_final)
    (ext (cleanupFinalStages (storage_manager ∅ [] true) (options None 0 false ∅) with_final).2).
Proof.
  apply (CleanupRecordProps.final_deleted_only_if_in_repository (final_stays "z-1")
    (storage_manager ∅ [] true) (options None 0 false ∅) final_storage with_final); [reflexivity|].
  intros p d o Hp _ (q & x & Hq & He) w Hz. simpl.
  assert (id_of d <> "z-1") as Hd.
  { apply elem_of_map_to_list, list_elem_of_In in Hp, Hq. intros Hd.
    pose proof (proj1 (forallb_forall _ _) only_b_common _ Hp) as H1.
    pose proof (proj1 (forallb_forall _ _) H1 _ Hq) as H2. cbv beta in H2. cbn [fst snd] in H2.
    rewrite He, bool_decide_eq_true_2 in H2 by exact Hd. cbn [negb andb] in H2. exact (Bool.diff_false_true H2). }
  apply list_elem_of_fmap in Hz as (y & Ey & Hy). apply list_elem_of_fmap. exists y. split; [done|].
  apply list_elem_of_filter. split; [|done]. destruct (same d y) eqn:Es; [|done].
  apply same_spec in Es as [Ei _]. destruct Hd. by rewrite Ei.
Defined.

End CleanupExamples.
