(* ===== verification/GitRefs.v ===== *)
(** pkg/config/meta_cleanup.go and git_history_based_cleanup/reference_to_scan.go: the
    policies that say which references of a repository are scanned and how many images of
    each are kept, and the references they select. The git library is third-party code: a
    repository is the class [GitRepository] of the answers it gives, and a reference what
    the code asks of it. A compiled regular expression is the set of the strings it
    matches. *)
From S2P Require Import Prelude Go.

Module MetaCleanup.

Definition OrOperator : string := "Or".
Definition AndOperator : string := "And".

(** [metaCleanupKeepPolicyLimit]: the fields may be nil; a duration is in nanoseconds. *)
Record Limit := mkLimit {
  last : option Z;
  In : option Z;
  operator : option string;
}.

Definition defaultReferencesLimitLast : Z := -1.
Definition defaultReferencesLimitOperator : string := AndOperator.
Definition defaultImagesPerReferenceLast : Z := 1.
Definition defaultImagesPerReferenceOperator : string := AndOperator.

Definition Operator (default : string) (l : Limit) : string :=
  match operator l with
  | Some op => if bool_decide (op = "") then default else op
  | None => default
  end.

(** [MetaCleanupKeepPolicyReferencesLimit]. *)
Definition References_Last (l : Limit) : Z := default defaultReferencesLimitLast (last l).
Definition References_Operator : Limit -> string := Operator defaultReferencesLimitOperator.

(** [MetaCleanupKeepPolicyImagesPerReference]. *)
Definition Images_Last (l : Limit) : Z := default defaultImagesPerReferenceLast (last l).
Definition Images_Operator : Limit -> string := Operator defaultImagesPerReferenceOperator.

Definition NewLimit (last In : option Z) (operator : option string) : Limit :=
  mkLimit last In operator.

Definition no_limit : Limit := mkLimit None None None.

Record KeepPolicyReferences := mkKeepPolicyReferences {
  TagRegexp : option (string -> bool);
  BranchRegexp : option (string -> bool);
  RefLimit : option Limit;
}.

Record KeepPolicy := mkKeepPolicy {
  References : KeepPolicyReferences;
  ImagesPerReference : Limit;
}.

End MetaCleanup.

(** * What the git library answers *)

Record GitReference := mkGitReference {
  RefName : string;
  Short : string;
  IsRemote : bool;
  IsTag : bool;
  RefHash : string;
}.

Record Commit := mkCommit { CHash : string; CParents : list string; CWhen : Z }.

(** A tag object of a commit, a tag object of another object, which the library may fail to
    read, a commit, or an object of another type. Objects are named by their contents: the
    chain of tags is finite. *)
Inductive GitObject :=
| OTagOfCommit (target : string)
| OTagOfObject (obj : GitObject)
| OTagUnreadable (err : error)
| OCommit (hash : string)
| OOther (type : string).

Definition ZeroHash : string := "0000000000000000000000000000000000000000".
Definition ErrObjectNotFound : error := Errorf "object not found" [].

Class GitRepository := {
  AllReferences : list GitReference + error;
  CommitObject : string -> Commit + error;
  (** [Reference(name, true)], the hash of it *)
  ResolveReference : string -> string + error;
  AnyObject : string -> GitObject + error;
  (** the time of the tagger *)
  TagObject : string -> Z + error;
}.

Module GitRefs.
Import MetaCleanup.

(** A [*ReferenceToScan]: [ptr] is its address. Its [imagesCleanupKeepPolicy] is assigned
    through the pointer, and so is kept apart, in a store. *)
Record ReferenceToScan := mkReferenceToScan {
  ptr : nat;
  reference : GitReference;
  CreatedAt : Z;
  HeadCommit : Commit;
  scanDepthLimit : Z;
}.

Abbreviation Policies := (gmap nat Limit).

Definition of_sum {A} (r : A + error) : res A :=
  match r with inl a => Ok a | inr e => Err e end.

Definition wrap_res {A} (f : string) (args : list farg) (r : res A) : res A :=
  match r with Err e => Err (Wrapf f args e) | r => r end.

Section refs.
Context `{git : GitRepository, sorting : SortSlice}.
(** [time.Now()] *)
Variable now : Z.

(** ** The references of the repository *)

Fixpoint peelObject (obj : GitObject) : res string :=
  match obj with
  | OTagOfCommit target => Ok target
  | OTagOfObject obj' => peelObject obj'
  | OTagUnreadable err => Err err
  | OCommit hash => Ok hash
  | OOther type => Err (Errorf "unsupported tag target %q" [FQ type])
  end.

Definition getCommitHashForReference (name : string) : res string :=
  hash ← of_sum (ResolveReference name);
  obj ← of_sum (AnyObject hash);
  peelObject obj.

(** The callback of [ForEach]: nothing for a reference that is not scanned. *)
Definition collectReference (ptr : nat) (r : GitReference) : res (option ReferenceToScan) :=
  if negb (IsRemote r || IsTag r) then Ok None
  else if IsRemote r && negb (Str.HasPrefix (Short r) "origin/") then Ok None
  else if negb (IsTag r) then
    if bool_decide (RefHash r = ZeroHash) then Ok None
    else
      c ← wrap_res "reference %s: commit object %s failed: %w" [FS (Short r); FS (RefHash r)]
            (of_sum (CommitObject (RefHash r)));
      Ok (Some (mkReferenceToScan ptr r (CWhen c) c (-1)))
  else
    refHash ← wrap_res "unable to get commit hash for reference %q: %w" [FQ (RefName r)]
      (getCommitHashForReference (RefName r));
    c ← wrap_res "reference %s: commit object %s failed: %w" [FS (Short r); FS refHash]
          (of_sum (CommitObject refHash));
    modifiedAt ← match TagObject (RefHash r) with
                 | inl taggedAt => Ok taggedAt
                 | inr err =>
                     if bool_decide (err = ErrObjectNotFound) then Ok (CWhen c)
                     else Err (Wrapf "tag object %s failed: %w" [FS (RefHash r)] err)
                 end;
    Ok (Some (mkReferenceToScan ptr r modifiedAt c 1)).

Fixpoint collectReferences (ptr : nat) (l : list GitReference) : res (list ReferenceToScan) :=
  match l with
  | [] => Ok []
  | r :: l' =>
      x ← collectReference ptr r;
      rest ← collectReferences (S ptr) l';
      Ok (match x with Some ref => ref :: rest | None => rest end)
  end.

(** ** The policies *)

Definition same_ref (r1 r2 : ReferenceToScan) : bool := ptr r1 =? ptr r2.

Definition mergeReferences (refs1 refs2 : list ReferenceToScan) : list ReferenceToScan :=
  refs2 ++ filter (fun r => existsb (same_ref r) refs2 = false) refs1.

Definition referencesOr (refs1 refs2 : list ReferenceToScan) : list ReferenceToScan :=
  mergeReferences refs1 refs2.

Definition referencesAnd (refs1 refs2 : list ReferenceToScan) : list ReferenceToScan :=
  filter (fun r => existsb (same_ref r) refs2 = true) refs1.

Definition newer (r1 r2 : ReferenceToScan) : bool := (CreatedAt r2 <? CreatedAt r1)%Z.

(** The duration of [in] is subtracted from the clock. *)
Definition filterReferencesByIn (refs : list ReferenceToScan) (inn : option Z)
  : list ReferenceToScan :=
  match inn with
  | None => refs
  | Some d => filter (fun r => (now - d <? CreatedAt r)%Z = true) refs
  end.

(** The slice after the call, sorted where there is a limit, and the result. *)
Definition filterReferencesByLast (refs : list ReferenceToScan) (last : Z)
  : list ReferenceToScan * list ReferenceToScan :=
  if (last <? 0)%Z then (refs, refs)
  else
    let refs := sort_Slice newer refs in
    (refs, if (Z.of_nat (length refs) <? last)%Z then refs else take (Z.to_nat last) refs).

(** The references filtered by time are the same slice as [refs] where there is no such
    limit, and are sorted with it. *)
Definition applyReferencesLimit (refs : list ReferenceToScan) (limit : option Limit)
  : list ReferenceToScan :=
  match limit with
  | None => refs
  | Some l =>
      let '(sorted, policyLastRefs) := filterReferencesByLast refs (References_Last l) in
      let policyInRefs := match In l with
                          | None => sorted
                          | Some _ => filterReferencesByIn refs (In l)
                          end in
      if bool_decide (References_Operator l = OrOperator)
      then referencesOr policyInRefs policyLastRefs
      else referencesAnd policyInRefs policyLastRefs
  end.

Definition applyImagesPerReference (refs : list ReferenceToScan) (images : Limit)
  (policies : Policies) : Policies :=
  foldl (fun policies r => <[ptr r := images]> policies) policies refs.

Definition applyCleanupKeepPolicy (refs : list ReferenceToScan) (policy : KeepPolicy)
  (policies : Policies) : list ReferenceToScan * Policies :=
  let refs := applyReferencesLimit refs (RefLimit (References policy)) in
  (refs, applyImagesPerReference refs (ImagesPerReference policy) policies).

(** The name without the remote: the second part of the short name. *)
Fixpoint selectBranchReferencesByRegexp (branches : list ReferenceToScan) (regexp : string -> bool)
  : res (list ReferenceToScan) :=
  match branches with
  | [] => Ok []
  | r :: branches' =>
      match Str.SplitN (Short (reference r)) "/" 2 with
      | [_; name] =>
          rest ← selectBranchReferencesByRegexp branches' regexp;
          Ok (if regexp name then r :: rest else rest)
      | _ => Panic "index out of range"
      end
  end.

Definition selectTagReferencesByRegexp (tags : list ReferenceToScan) (regexp : string -> bool)
  : list ReferenceToScan :=
  filter (fun r => regexp (Short (reference r)) = true) tags.

(** [regexp.MustCompile] of the two expressions of the default policies. *)
Definition anything : string -> bool := fun _ => true.
Definition main_branches : string -> bool := fun s =>
  bool_decide (s ∈ ["main"; "master"; "staging"; "production"]).

Definition Week : Z := 604800000000000%Z.

Definition defaultPolicies : list KeepPolicy :=
  [mkKeepPolicy
     (mkKeepPolicyReferences (Some anything) None (Some (NewLimit (Some 10%Z) None None)))
     no_limit;
   mkKeepPolicy
     (mkKeepPolicyReferences None (Some anything)
        (Some (NewLimit (Some 10%Z) (Some Week) (Some AndOperator))))
     (NewLimit (Some 2%Z) (Some Week) (Some AndOperator));
   mkKeepPolicy (mkKeepPolicyReferences None (Some main_branches) None)
     (NewLimit (Some 10%Z) None None)].

(** What the policies have selected so far: branches, tags, and the store. *)
Record Selected := mkSelected {
  resultBranchesRefs : list ReferenceToScan;
  resultTagsRefs : list ReferenceToScan;
  policies : Policies;
}.

Definition applyPolicy (branches tags : list ReferenceToScan) (s : Selected) (policy : KeepPolicy)
  : res Selected :=
  match BranchRegexp (References policy), TagRegexp (References policy) with
  | Some regexp, _ =>
      selected ← selectBranchReferencesByRegexp branches regexp;
      let '(policyRefs, policies') := applyCleanupKeepPolicy selected policy (policies s) in
      Ok (mkSelected (mergeReferences (resultBranchesRefs s) policyRefs) (resultTagsRefs s) policies')
  | None, Some regexp =>
      let '(policyRefs, policies') :=
        applyCleanupKeepPolicy (selectTagReferencesByRegexp tags regexp) policy (policies s) in
      Ok (mkSelected (resultBranchesRefs s) (mergeReferences (resultTagsRefs s) policyRefs) policies')
  | None, None => Ok s
  end.

Fixpoint applyPolicies (branches tags : list ReferenceToScan) (s : Selected) (l : list KeepPolicy)
  : res Selected :=
  match l with
  | [] => Ok s
  | policy :: l' => s' ← applyPolicy branches tags s policy; applyPolicies branches tags s' l'
  end.

(** The references with the policy that each has in the end. *)
Definition ReferencesToScan (keepPolicies : list KeepPolicy)
  : res (list (ReferenceToScan * Limit)) :=
  rs ← wrap_res "get repository references failed: %w" [] (of_sum AllReferences);
  refs ← collectReferences 0 rs;
  let tagsRefs := filter (fun r => IsTag (reference r) = true) refs in
  let branchesRefs := filter (fun r => IsTag (reference r) = false) refs in
  let keepPolicies := match keepPolicies with [] => defaultPolicies | _ => keepPolicies end in
  s ← applyPolicies branchesRefs tagsRefs (mkSelected [] [] ∅) keepPolicies;
  let result := sort_Slice newer (resultBranchesRefs s) ++ sort_Slice newer (resultTagsRefs s) in
  Ok ((fun r => (r, default no_limit (policies s !! ptr r))) <$> result).

End refs.
End GitRefs.
