(* ===== verification/GitRefsProps.v ===== *)
(** The references a cleanup scans: which they are and which policy each of them has. *)
From S2P Require Import Prelude Go GitRefs.

Module GitRefsFacts.
Import MetaCleanup GitRefs.

#[export] Instance GitReference_eq_dec : EqDecision GitReference.
Proof. solve_decision. Defined.
#[export] Instance Commit_eq_dec : EqDecision Commit.
Proof. solve_decision. Defined.
#[export] Instance ReferenceToScan_eq_dec : EqDecision ReferenceToScan.
Proof. solve_decision. Defined.

Section facts.
Context `{git : GitRepository, sorting : SortSlice}.
Variable now : Z.

(** ** Pointers *)

Definition ptrs (l : list ReferenceToScan) : list nat := ptr <$> l.

Lemma collectReference_ptr p r x : collectReference p r = Ok (Some x) -> ptr x = p.
Proof.
  unfold collectReference. destruct (negb _); [done|]. destruct (_ && _); [done|].
  destruct (negb _).
  - case_bool_decide; [done|]. unfold mbind, res_bind. destruct (wrap_res _ _ _); [|done..].
    by intros [= <-].
  - unfold mbind, res_bind. destruct (wrap_res _ _ (getCommitHashForReference _)); [|done..].
    destruct (wrap_res _ _ _); [|done..]. destruct (match TagObject _ with inl _ => _ | inr _ => _ end);
      [|done..]. by intros [= <-].
Qed.

Lemma collectReferences_ptr l p refs :
  collectReferences p l = Ok refs -> NoDup (ptrs refs) /\ forall r, r ∈ refs -> p <= ptr r.
Proof.
  revert p refs. induction l as [|r l IH]; intros p refs; simpl.
  - intros [= <-]. split; [constructor|]. by intros r ?%elem_of_nil.
  - unfold mbind, res_bind. destruct (collectReference p r) as [x| |] eqn:Er; [|done..].
    destruct (collectReferences (S p) l) as [rest| |] eqn:El; [|done..]. intros [= <-].
    destruct (IH _ _ El) as [Hn Hp]. destruct x as [x|].
    + apply collectReference_ptr in Er. split.
      * simpl. constructor; [|done]. intros Hin. apply list_elem_of_fmap in Hin as (y & Ey & Hy).
        specialize (Hp y Hy). lia.
      * intros y [->|Hy]%elem_of_cons; [lia|]. specialize (Hp y Hy). lia.
    + split; [done|]. intros y Hy. specialize (Hp y Hy). lia.
Qed.

Lemma same_ref_true r1 r2 : same_ref r1 r2 = true <-> ptr r1 = ptr r2.
Proof. apply Nat.eqb_eq. Qed.

Lemma existsb_same r l : existsb (same_ref r) l = true <-> ptr r ∈ ptrs l.
Proof.
  unfold ptrs. rewrite existsb_exists, list_elem_of_fmap. setoid_rewrite <-list_elem_of_In.
  setoid_rewrite same_ref_true. naive_solver.
Qed.

(** Within a list without two elements at one pointer, the pointer tells the element. *)
Definition injective_on (all : list ReferenceToScan) : Prop :=
  forall x y, x ∈ all -> y ∈ all -> ptr x = ptr y -> x = y.

Lemma NoDup_injective l : NoDup (ptrs l) -> injective_on l.
Proof.
  intros Hn x y Hx Hy E. apply list_elem_of_lookup in Hx as [i Hi], Hy as [j Hj].
  assert (i = j) as ->.
  { eapply (NoDup_lookup (ptrs l)); [done| |]; unfold ptrs; rewrite list_lookup_fmap;
      [by rewrite Hi|rewrite Hj; simpl; by rewrite E]. }
  congruence.
Qed.

Lemma in_ptrs all l r :
  injective_on all -> l ⊆ all -> r ∈ all -> ptr r ∈ ptrs l <-> r ∈ l.
Proof.
  intros Hi Hl Hr. unfold ptrs. rewrite list_elem_of_fmap. split.
  - intros (y & E & Hy). by rewrite (Hi r y Hr (Hl y Hy) E).
  - intros Hin. by exists r.
Qed.

(** ** Merging *)

Lemma merge_elem all l1 l2 r :
  injective_on all -> l1 ⊆ all -> l2 ⊆ all ->
  r ∈ mergeReferences l1 l2 <-> r ∈ l1 \/ r ∈ l2.
Proof.
  intros Hi H1 H2. unfold mergeReferences. rewrite elem_of_app, list_elem_of_filter.
  split; [tauto|]. intros [Hr|]; [|tauto]. destruct (existsb (same_ref r) l2) eqn:E; [|tauto].
  left. apply existsb_same in E. by apply (in_ptrs all) in E; [|done|done|apply H1].
Qed.

Lemma merge_NoDup l1 l2 : NoDup (ptrs l1) -> NoDup (ptrs l2) -> NoDup (ptrs (mergeReferences l1 l2)).
Proof.
  intros H1 H2. unfold mergeReferences, ptrs. rewrite fmap_app. apply NoDup_app.
  split; [done|]. split.
  - intros p Hp Hin. apply list_elem_of_fmap in Hin as (r & -> & Hr).
    apply list_elem_of_filter in Hr as [Hr _]. apply existsb_same in Hp. congruence.
  - revert H1. unfold ptrs. induction l1 as [|x l1 IH]; intros Hn; [constructor|].
    simpl in Hn. apply NoDup_cons in Hn as [Hx Hn]. rewrite filter_cons.
    destruct (decide _); simpl; [|by apply IH]. constructor; [|by apply IH].
    intros Hin. apply Hx. apply list_elem_of_fmap in Hin as (y & Ey & Hy).
    apply list_elem_of_filter in Hy as [_ Hy]. apply list_elem_of_fmap. eauto.
Qed.

Lemma NoDup_filter_ptrs (P : ReferenceToScan -> Prop) `{!forall x, Decision (P x)} l :
  NoDup (ptrs l) -> NoDup (ptrs (filter P l)).
Proof.
  unfold ptrs. induction l as [|x l IH]; intros Hn; [constructor|].
  simpl in Hn. apply NoDup_cons in Hn as [Hx Hn]. rewrite filter_cons.
  destruct (decide _); simpl; [|by apply IH]. constructor; [|by apply IH].
  intros Hin. apply Hx. apply list_elem_of_fmap in Hin as (y & Ey & Hy).
  apply list_elem_of_filter in Hy as [_ Hy]. apply list_elem_of_fmap. eauto.
Qed.

Lemma NoDup_perm_ptrs l l' : l ≡ₚ l' -> NoDup (ptrs l) -> NoDup (ptrs l').
Proof. intros Hp. unfold ptrs. by rewrite Hp. Qed.

Lemma NoDup_take_ptrs n l : NoDup (ptrs l) -> NoDup (ptrs (take n l)).
Proof.
  unfold ptrs. rewrite fmap_take. intros Hn. rewrite <-(take_drop n (ptr <$> l)) in Hn.
  by apply NoDup_app in Hn as [? _].
Qed.

(** ** The limit *)

Lemma byLast_perm refs last : (filterReferencesByLast refs last).1 ≡ₚ refs.
Proof. unfold filterReferencesByLast. destruct (last <? 0)%Z; [done|apply sort_perm]. Qed.

Lemma byLast_sub refs last r : r ∈ (filterReferencesByLast refs last).2 -> r ∈ refs.
Proof.
  unfold filterReferencesByLast. destruct (last <? 0)%Z; [done|]. simpl.
  destruct (_ <? _)%Z; rewrite <-(sort_perm newer refs) at 2; [done|]. apply subseteq_take.
Qed.

(** The references that a policy's limit leaves, by the meaning of the limit. *)
Definition within (inn : option Z) (r : ReferenceToScan) : Prop :=
  match inn with None => True | Some d => (now - d < CreatedAt r)%Z end.

Lemma byIn_elem refs inn r : r ∈ filterReferencesByIn now refs inn <-> r ∈ refs /\ within inn r.
Proof.
  unfold filterReferencesByIn, within. destruct inn as [d|]; [|tauto].
  rewrite list_elem_of_filter, Z.ltb_lt. tauto.
Qed.

Lemma policyIn_elem refs l r :
  r ∈ (match In l with
       | None => (filterReferencesByLast refs (References_Last l)).1
       | Some _ => filterReferencesByIn now refs (In l)
       end) <-> r ∈ refs /\ within (In l) r.
Proof.
  destruct (In l) as [d|] eqn:E; [rewrite <-E; rewrite E; apply byIn_elem|].
  rewrite byLast_perm. simpl. tauto.
Qed.

Lemma limit_elem all refs l r :
  injective_on all -> refs ⊆ all ->
  r ∈ applyReferencesLimit now refs (Some l) <->
  if bool_decide (References_Operator l = OrOperator)
  then (r ∈ refs /\ within (In l) r) \/ r ∈ (filterReferencesByLast refs (References_Last l)).2
  else within (In l) r /\ r ∈ (filterReferencesByLast refs (References_Last l)).2.
Proof.
  intros Hi Hsub. unfold applyReferencesLimit.
  pose proof (fun x => byLast_sub refs (References_Last l) x) as Hlast.
  pose proof (policyIn_elem refs l r) as Hin.
  destruct (filterReferencesByLast refs (References_Last l)) as [sorted policyLast] eqn:Ef.
  simpl in *. case_bool_decide.
  - unfold referencesOr. rewrite (merge_elem all); [by rewrite Hin|done| |].
    + intros x Hx. apply Hsub. destruct (In l).
      * unfold filterReferencesByIn in Hx. by apply list_elem_of_filter in Hx as [_ Hx].
      * pose proof (byLast_perm refs (References_Last l)) as Hp. rewrite Ef in Hp. simpl in Hp.
        by rewrite <-Hp.
    + intros x Hx. by apply Hsub, Hlast.
  - unfold referencesAnd. rewrite list_elem_of_filter, existsb_same, Hin.
    split.
    + intros (Hp & Hr & Hw). split; [done|].
      apply (in_ptrs all) in Hp; [done|done|by intros x Hx; apply Hsub, Hlast|by apply Hsub].
    + intros [Hw Hl]. split; [|split; [by apply Hlast|done]]. unfold ptrs. apply list_elem_of_fmap. eauto.
Qed.

Lemma limit_sub all refs limit r :
  injective_on all -> refs ⊆ all -> r ∈ applyReferencesLimit now refs limit -> r ∈ refs.
Proof.
  intros Hi Hsub. destruct limit as [l|]; [|done]. rewrite (limit_elem all) by done.
  case_bool_decide; [intros [[? _]|?]|intros [_ ?]]; [done|by eapply byLast_sub..].
Qed.

Lemma limit_NoDup refs limit : NoDup (ptrs refs) -> NoDup (ptrs (applyReferencesLimit now refs limit)).
Proof.
  intros Hn. destruct limit as [l|]; [|done]. unfold applyReferencesLimit.
  pose proof (byLast_perm refs (References_Last l)) as Hp.
  assert (NoDup (ptrs (filterReferencesByLast refs (References_Last l)).2)) as Hl.
  { unfold filterReferencesByLast. destruct (_ <? 0)%Z; [done|]. simpl.
    pose proof (NoDup_perm_ptrs _ _ (symmetry (sort_perm newer refs)) Hn).
    destruct (_ <? _)%Z; [done|by apply NoDup_take_ptrs]. }
  destruct (filterReferencesByLast refs (References_Last l)) as [sorted policyLast]. simpl in *.
  assert (NoDup (ptrs (match In l with
    | None => sorted | Some _ => filterReferencesByIn now refs (In l) end))) as Hin.
  { destruct (In l); [by apply NoDup_filter_ptrs|]. by eapply NoDup_perm_ptrs. }
  case_bool_decide; [by apply merge_NoDup|by apply NoDup_filter_ptrs].
Qed.

(** ** The policies *)

Lemma images_lookup refs images (policies : Policies) k :
  applyImagesPerReference refs images policies !! k =
  if decide (k ∈ ptrs refs) then Some images else policies !! k.
Proof.
  unfold applyImagesPerReference. revert policies. induction refs as [|r refs IH]; intros policies.
  { case_decide as E; [by apply elem_of_nil in E|done]. }
  cbn [foldl]. rewrite IH. clear IH. change (ptrs (r :: refs)) with (ptr r :: ptrs refs).
  destruct (decide (k = ptr r)) as [->|Hne].
  - rewrite lookup_insert_eq. destruct (decide (ptr r ∈ ptrs refs)) as [|],
      (decide (ptr r ∈ ptr r :: ptrs refs)) as [|E2]; try done; destruct E2; by left.
  - rewrite lookup_insert_ne by done. destruct (decide (k ∈ ptrs refs)) as [|E1],
      (decide (k ∈ ptr r :: ptrs refs)) as [E2|E2]; try done.
    + destruct E2. by right.
    + apply elem_of_cons in E2 as [?|?]; contradiction.
Qed.

(** The branch's name without the remote. *)
Definition branch_name (r : ReferenceToScan) : option string :=
  match Str.SplitN (Short (reference r)) "/" 2 with [_; name] => Some name | _ => None end.

#[local] Arguments Str.SplitN : simpl never.

Lemma selectBranch_elem branches regexp l :
  selectBranchReferencesByRegexp branches regexp = Ok l ->
  NoDup (ptrs branches) ->
  NoDup (ptrs l) /\ forall r, r ∈ l <-> r ∈ branches /\ exists n, branch_name r = Some n /\ regexp n = true.
Proof.
  unfold branch_name. revert l. induction branches as [|x branches IH]; intros l; simpl.
  { intros [= <-] _. split; [constructor|]. intros r. split; [by intros ?%elem_of_nil|].
    by intros [?%elem_of_nil _]. }
  destruct (Str.SplitN (Short (reference x)) "/" 2) as [|a [|n []]] eqn:Es; try done.
  unfold mbind, res_bind. destruct (selectBranchReferencesByRegexp branches regexp) as [rest| |] eqn:E;
    [|done..]. intros [= <-] Hn. simpl in Hn. apply NoDup_cons in Hn as [Hx Hn].
  destruct (IH rest eq_refl Hn) as [Hr Hel]. destruct (regexp n) eqn:En.
  - split.
    + simpl. constructor; [|done]. intros Hin. apply Hx. apply list_elem_of_fmap in Hin as (y & Ey & Hy).
      apply Hel in Hy as [Hy _]. apply list_elem_of_fmap. eauto.
    + intros r. rewrite !elem_of_cons, Hel. split; [|tauto].
      intros [->|?]; [|tauto]. split; [by left|]. rewrite Es. eauto.
  - split; [done|]. intros r. rewrite elem_of_cons, Hel. split; [tauto|].
    intros [[->|?] Hm]; [|tauto]. rewrite Es in Hm. destruct Hm as (m & [= <-] & Hm). congruence.
Qed.

(** What a policy selects, before and after its limit. *)
Definition matching (branches tags : list ReferenceToScan) (policy : KeepPolicy)
  : res (list ReferenceToScan) :=
  match BranchRegexp (References policy), TagRegexp (References policy) with
  | Some regexp, _ => selectBranchReferencesByRegexp branches regexp
  | None, Some regexp => Ok (selectTagReferencesByRegexp tags regexp)
  | None, None => Ok []
  end.

Definition selects (branches tags : list ReferenceToScan) (policy : KeepPolicy)
  (r : ReferenceToScan) : Prop :=
  exists l, matching branches tags policy = Ok l /\
    r ∈ applyReferencesLimit now l (RefLimit (References policy)).

(** The policy is the last of the list that selects the reference. *)
Definition last_policy (branches tags : list ReferenceToScan) (l : list KeepPolicy)
  (r : ReferenceToScan) (images : Limit) : Prop :=
  exists pre policy post, l = pre ++ policy :: post /\ selects branches tags policy r /\
    images = ImagesPerReference policy /\ forall p, p ∈ post -> ~ selects branches tags p r.

Record Inv (branches tags : list ReferenceToScan) (dn : list KeepPolicy) (s : Selected) : Prop := {
  inv_branches_NoDup : NoDup (ptrs (resultBranchesRefs s));
  inv_tags_NoDup : NoDup (ptrs (resultTagsRefs s));
  inv_branches : resultBranchesRefs s ⊆ branches;
  inv_tags : resultTagsRefs s ⊆ tags;
  inv_result r : r ∈ resultBranchesRefs s ++ resultTagsRefs s <->
    exists p, p ∈ dn /\ selects branches tags p r;
  inv_policies r images : r ∈ branches ++ tags ->
    policies s !! ptr r = Some images <-> last_policy branches tags dn r images;
}.

Lemma last_policy_snoc branches tags dn p r images :
  last_policy branches tags (dn ++ [p]) r images <->
  (selects branches tags p r /\ images = ImagesPerReference p) \/
  (~ selects branches tags p r /\ last_policy branches tags dn r images).
Proof.
  unfold last_policy. split.
  - intros (pre & q & post & E & Hs & Hi & Hp). destruct post as [|x post] using rev_ind.
    + apply app_inj_tail in E as [-> ->]. auto.
    + clear IHpost. rewrite app_comm_cons, app_assoc in E. apply app_inj_tail in E as [-> ->].
      right. split; [apply Hp, elem_of_app; right; by left|]. exists pre, q, post.
      split; [done|]. split; [done|]. split; [done|]. intros y Hy. apply Hp, elem_of_app. by left.
  - intros [[Hs ->]|[Hn (pre & q & post & -> & Hs & Hi & Hp)]].
    + exists dn, p, []. split; [done|]. split; [done|]. split; [done|]. by intros ? ?%elem_of_nil.
    + exists pre, q, (post ++ [p]). rewrite <-app_assoc. split; [done|]. split; [done|].
      split; [done|]. intros y [Hy|Hy]%elem_of_app; [auto|]. apply list_elem_of_singleton in Hy. by subst.
Qed.

#[export] Instance selects_dec branches tags policy r : Decision (selects branches tags policy r).
Proof.
  unfold selects. destruct (matching branches tags policy) as [l| |].
  - destruct (decide (r ∈ applyReferencesLimit now l (RefLimit (References policy)))) as [Hr|Hr].
    + left. eauto.
    + right. intros (l' & [= <-] & ?). contradiction.
  - right. by intros (? & ? & _).
  - right. by intros (? & ? & _).
Qed.

(** A reference that some policy selects has a last such policy. *)
Lemma selected_last branches tags l r :
  (exists p, p ∈ l /\ selects branches tags p r) -> exists images, last_policy branches tags l r images.
Proof.
  induction l as [|p l IH] using rev_ind; [by intros (? & ?%elem_of_nil & _)|].
  intros (q & Hq & Hs). setoid_rewrite last_policy_snoc.
  destruct (decide (selects branches tags p r)) as [Hp|Hp]; [eauto|].
  destruct IH as [images Hi]; [|eauto]. exists q. split; [|done].
  apply elem_of_app in Hq as [?|Hq%list_elem_of_singleton]; [done|by subst].
Qed.

Lemma matching_spec branches tags policy l :
  NoDup (ptrs branches) -> NoDup (ptrs tags) -> matching branches tags policy = Ok l ->
  NoDup (ptrs l) /\
  (BranchRegexp (References policy) = None -> l ⊆ tags) /\
  (BranchRegexp (References policy) <> None -> l ⊆ branches) /\
  (BranchRegexp (References policy) = None -> TagRegexp (References policy) = None -> l = []).
Proof.
  intros Hb Ht. unfold matching. destruct (BranchRegexp _) as [re|].
  - intros Hm. destruct (selectBranch_elem _ _ _ Hm Hb) as [Hn Hel].
    split; [done|]. split; [done|]. split; [|done]. intros _ r Hr. by apply Hel in Hr as [? _].
  - destruct (TagRegexp _) as [re|]; intros [= <-].
    + unfold selectTagReferencesByRegexp. split; [by apply NoDup_filter_ptrs|]. split; [|done].
      intros _ r Hr. by apply list_elem_of_filter in Hr as [_ ?].
    + split; [constructor|]. split; [|done]. intros _ r Hr. by apply elem_of_nil in Hr.
Qed.

Section step.
Variables (branches tags : list ReferenceToScan) (dn : list KeepPolicy) (s : Selected)
  (policy : KeepPolicy).
Hypothesis Hall : NoDup (ptrs (branches ++ tags)).
Hypothesis HI : Inv branches tags dn s.

Lemma split_NoDup : NoDup (ptrs branches) /\ NoDup (ptrs tags).
Proof using Hall. unfold ptrs in *. rewrite fmap_app in Hall. by apply NoDup_app in Hall as (? & _ & ?). Qed.

(** The references of the policy, and the policies after it. *)
Lemma policies_step refs r images :
  refs ⊆ branches ++ tags -> (forall x, x ∈ refs <-> selects branches tags policy x) ->
  r ∈ branches ++ tags ->
  applyImagesPerReference refs (ImagesPerReference policy) (policies s) !! ptr r = Some images <->
  last_policy branches tags (dn ++ [policy]) r images.
Proof using Hall HI.
  intros Hsub Hsel Hr. rewrite images_lookup, last_policy_snoc, <-Hsel.
  pose proof (in_ptrs (branches ++ tags) refs r (NoDup_injective _ Hall) Hsub Hr) as Hin.
  destruct (decide (ptr r ∈ ptrs refs)) as [Hp|Hp]; rewrite Hin in Hp.
  - split; [intros [= <-]; by left|]. intros [[_ ->]|[? _]]; [done|contradiction].
  - rewrite (inv_policies _ _ _ _ HI) by done. split; [by right|].
    intros [[? _]|[_ ?]]; [contradiction|done].
Qed.

(** The result of merging what the policy selects. *)
Lemma result_step (refs res other : list ReferenceToScan) (r : ReferenceToScan) :
  refs ⊆ branches ++ tags -> (forall x, x ∈ refs <-> selects branches tags policy x) ->
  res ⊆ branches ++ tags ->
  (forall x, x ∈ res \/ x ∈ other <-> exists p, p ∈ dn /\ selects branches tags p x) ->
  r ∈ mergeReferences res refs \/ r ∈ other <->
  exists p, p ∈ dn ++ [policy] /\ selects branches tags p r.
Proof using Hall.
  intros Hsub Hsel Hres Hdn. rewrite (merge_elem (branches ++ tags)); [|by apply NoDup_injective|done..].
  rewrite Hsel. setoid_rewrite elem_of_app. setoid_rewrite list_elem_of_singleton.
  specialize (Hdn r). split.
  - intros [[Hr|Hr]|Hr]; [|by exists policy; auto|];
      (destruct (proj1 Hdn) as (p & ? & ?); [tauto|exists p; auto]).
  - intros (p & [Hp| ->] & Hs); [|tauto]. destruct (proj2 Hdn); [eauto|tauto|tauto].
Qed.

Lemma applyPolicy_inv s' :
  applyPolicy now branches tags s policy = Ok s' -> Inv branches tags (dn ++ [policy]) s'.
Proof using Hall HI.
  intros Ha. destruct split_NoDup as [Hnb Hnt]. pose proof (NoDup_injective _ Hall) as Hinj.
  assert (exists l, matching branches tags policy = Ok l) as [l Hl].
  { unfold applyPolicy in Ha. unfold matching. destruct (BranchRegexp _).
    - unfold mbind, res_bind in Ha. destruct (selectBranchReferencesByRegexp _ _); [eauto|done..].
    - destruct (TagRegexp _); eauto. }
  destruct (matching_spec _ _ _ _ Hnb Hnt Hl) as (Hln & Hlt & Hlb & Hnil).
  assert (l ⊆ branches ++ tags) as Hlsub.
  { intros r Hr. apply elem_of_app. destruct (BranchRegexp (References policy)) eqn:E;
      [left; by apply Hlb|right; by apply Hlt]. }
  set (refs := applyReferencesLimit now l (RefLimit (References policy))).
  assert (forall r, r ∈ refs -> r ∈ l) as Hrl by (intros r; by apply (limit_sub (branches ++ tags))).
  assert (forall x, x ∈ refs <-> selects branches tags policy x) as Hsel.
  { intros x. unfold selects. split; [eauto|]. intros (l' & Hl' & Hx). rewrite Hl in Hl'. by injection Hl' as <-. }
  assert (refs ⊆ branches ++ tags) as Hsub by (intros r Hr; by apply Hlsub, Hrl).
  assert (NoDup (ptrs refs)) as Hrn by by apply limit_NoDup.
  pose proof HI as [In1 In2 Ib It Ir Ip]. unfold applyPolicy in Ha. unfold matching in Hl.
  destruct (BranchRegexp (References policy)) as [re|] eqn:Eb; [|destruct (TagRegexp (References policy)) eqn:Et].
  - rewrite Hl in Ha. simpl in Ha. injection Ha as <-. split; simpl; [by apply merge_NoDup|done| |done|..].
    + intros r Hr. apply (merge_elem (branches ++ tags)) in Hr as [Hr|Hr];
        [by apply Ib|by apply Hlb, Hrl|done|by intros x Hx; apply elem_of_app; left; apply Ib|done].
    + intros r. rewrite elem_of_app. apply result_step; [done|done| |].
      * intros x Hx. apply elem_of_app. left. by apply Ib.
      * intros x. by rewrite <-Ir, elem_of_app.
    + intros r images Hr. by apply policies_step.
  - injection Hl as <-. simpl in Ha. injection Ha as <-.
    split; simpl; [done|by apply merge_NoDup|done| |..].
    + intros r Hr. apply (merge_elem (branches ++ tags)) in Hr as [Hr|Hr];
        [by apply It|by apply Hlt, Hrl|done|by intros x Hx; apply elem_of_app; right; apply It|done].
    + intros r. rewrite elem_of_app, Logic.or_comm. apply result_step; [done|done| |].
      * intros x Hx. apply elem_of_app. right. by apply It.
      * intros x. by rewrite Logic.or_comm, <-Ir, elem_of_app.
    + intros r images Hr. by apply policies_step.
  - injection Ha as <-. assert (forall x, ~ selects branches tags policy x) as Hno.
    { intros x Hx. apply Hsel, Hrl in Hx. rewrite Hnil in Hx by done. by apply elem_of_nil in Hx. }
    split; try done.
    + intros r. rewrite Ir. setoid_rewrite elem_of_app. setoid_rewrite list_elem_of_singleton.
      split; [intros (p & ? & ?); eauto|]. intros (p & [?| ->] & Hs); [eauto|by apply Hno in Hs].
    + intros r images Hr. rewrite last_policy_snoc, Ip by done. specialize (Hno r). tauto.
Qed.
End step.

Lemma applyPolicies_inv branches tags l dn s s' :
  NoDup (ptrs (branches ++ tags)) -> Inv branches tags dn s ->
  applyPolicies now branches tags s l = Ok s' -> Inv branches tags (dn ++ l) s'.
Proof.
  intros Hall. revert dn s. induction l as [|p l IH]; intros dn s HI; simpl.
  - intros [= <-]. by rewrite app_nil_r.
  - unfold mbind, res_bind. destruct (applyPolicy now branches tags s p) as [s1| |] eqn:E; [|done..].
    intros Ha. change (p :: l) with ([p] ++ l). rewrite (app_assoc dn [p] l). eapply IH; [by eapply applyPolicy_inv|done].
Qed.

Lemma Inv_init branches tags : Inv branches tags [] (mkSelected [] [] ∅).
Proof.
  split; simpl; [constructor|constructor|by intros ? ?%elem_of_nil|by intros ? ?%elem_of_nil|..].
  - intros r. split; [by intros ?%elem_of_nil|]. by intros (p & ?%elem_of_nil & _).
  - intros r images _. rewrite lookup_empty. split; [done|].
    intros (pre & p & post & E & _). by destruct pre.
Qed.

End facts.
End GitRefsFacts.

Module GitRefsProps.
Import MetaCleanup GitRefs GitRefsFacts.

Section props.
Context `{git : GitRepository, sorting : SortSlice}.
Variable now : Z.

#[local] Arguments Str.SplitN : simpl never.

Definition branchesOf (refs : list ReferenceToScan) : list ReferenceToScan :=
  filter (fun r => IsTag (reference r) = false) refs.
Definition tagsOf (refs : list ReferenceToScan) : list ReferenceToScan :=
  filter (fun r => IsTag (reference r) = true) refs.
Definition effective (keepPolicies : list KeepPolicy) : list KeepPolicy :=
  match keepPolicies with [] => defaultPolicies | _ => keepPolicies end.

Lemma partition_perm refs : branchesOf refs ++ tagsOf refs ≡ₚ refs.
Proof.
  unfold branchesOf, tagsOf. induction refs as [|r refs IH]; [done|].
  rewrite !filter_cons. destruct (IsTag (reference r)); simpl.
  - by rewrite <-Permutation_middle, IH.
  - by rewrite IH.
Qed.

Lemma partition_NoDup refs : NoDup (ptrs refs) -> NoDup (ptrs (branchesOf refs ++ tagsOf refs)).
Proof. apply NoDup_perm_ptrs. symmetry. apply partition_perm. Qed.

(** The run, taken apart. *)
Lemma run_inv keepPolicies result :
  ReferencesToScan now keepPolicies = Ok result ->
  exists rs refs s, AllReferences = inl rs /\ collectReferences 0 rs = Ok refs /\
    Inv now (branchesOf refs) (tagsOf refs) (effective keepPolicies) s /\
    NoDup (ptrs (branchesOf refs ++ tagsOf refs)) /\
    result = (fun r => (r, default no_limit (policies s !! ptr r))) <$>
      sort_Slice newer (resultBranchesRefs s) ++ sort_Slice newer (resultTagsRefs s).
Proof.
  unfold ReferencesToScan, mbind, res_bind. destruct AllReferences as [rs|e]; [|done]. simpl.
  destruct (collectReferences 0 rs) as [refs| |] eqn:Ec; [|done..].
  fold (branchesOf refs) (tagsOf refs) (effective keepPolicies).
  destruct (applyPolicies _ _ _ _ _) as [s| |] eqn:Ea; [|done..]. intros [= <-].
  destruct (collectReferences_ptr _ _ _ Ec) as [Hn _]. apply partition_NoDup in Hn.
  exists rs, refs, s. split; [done|]. split; [done|]. split; [|done].
  change (effective keepPolicies) with ([] ++ effective keepPolicies).
  eapply applyPolicies_inv; [done|apply Inv_init|done].
Qed.

Lemma selected_elem (s : Selected) r :
  r ∈ sort_Slice newer (resultBranchesRefs s) ++ sort_Slice newer (resultTagsRefs s) <->
  r ∈ resultBranchesRefs s ++ resultTagsRefs s.
Proof. by rewrite !elem_of_app, !sort_perm. Qed.

(** The references and the policies of the result. *)
Lemma run_elem keepPolicies rs refs result r images :
  AllReferences = inl rs -> collectReferences 0 rs = Ok refs ->
  ReferencesToScan now keepPolicies = Ok result ->
  (r, images) ∈ result <->
    r ∈ refs /\ last_policy now (branchesOf refs) (tagsOf refs) (effective keepPolicies) r images.
Proof.
  intros Hrs Hrefs Hrun. destruct (run_inv _ _ Hrun) as (rs' & refs' & s & Hrs' & Hc & HI & Hn & ->).
  assert (rs' = rs) as -> by congruence. assert (refs' = refs) as -> by congruence. clear Hrs' Hc.
  set (all := branchesOf refs ++ tagsOf refs) in *.
  assert (forall r, r ∈ all <-> r ∈ refs) as Hall by (intros x; unfold all; by rewrite partition_perm).
  destruct HI as [Inb Int Ib It Ir Ip].
  assert (resultBranchesRefs s ++ resultTagsRefs s ⊆ all) as Hsub.
  { intros x [Hx|Hx]%elem_of_app; apply elem_of_app; auto. }
  rewrite list_elem_of_fmap. setoid_rewrite selected_elem. split.
  - intros (x & [= -> ->] & Hx). pose proof (Hsub _ Hx) as Hin. split; [by apply Hall|].
    destruct (policies s !! ptr x) as [i|] eqn:E; [by apply Ip|]. apply Ir in Hx as (p & Hp & Hs).
    destruct (selected_last now (branchesOf refs) (tagsOf refs) (effective keepPolicies) x)
      as [i Hi]; [eauto|]. apply Ip in Hi; [|done]. congruence.
  - intros [Hr Hl]. apply Hall in Hr. exists r. split.
    + apply (Ip r images Hr) in Hl. by rewrite Hl.
    + apply Ir. destruct Hl as (pre & p & post & E & Hs & _). exists p. split; [|done].
      rewrite E. apply elem_of_app. right. by left.
Qed.

Lemma run_NoDup keepPolicies result : ReferencesToScan now keepPolicies = Ok result -> NoDup (result.*1).
Proof.
  intros (rs & refs & s & _ & _ & [Inb Int Ib It _ _] & _ & ->)%run_inv.
  rewrite <-list_fmap_compose, (list_fmap_ext _ id _ ltac:(done)), list_fmap_id, !sort_perm.
  apply NoDup_app. split; [by eapply NoDup_fmap_1|]. split; [|by eapply NoDup_fmap_1].
  intros r Hb%Ib Ht%It. unfold branchesOf, tagsOf in *. apply list_elem_of_filter in Hb as [Hb _].
  apply list_elem_of_filter in Ht as [Ht _]. congruence.
Qed.

(** The history of a branch is scanned without a limit, of a tag only its commit. *)
Lemma collected_depth n l refs :
  collectReferences n l = Ok refs ->
  forall x, x ∈ refs -> scanDepthLimit x = if IsTag (reference x) then 1%Z else (-1)%Z.
Proof.
  revert n refs. induction l as [|r l IH]; intros n refs; simpl.
  { by intros [= <-] x ?%elem_of_nil. }
  unfold mbind, res_bind. destruct (collectReference n r) as [y| |] eqn:Er; [|done..].
  destruct (collectReferences (S n) l) as [rest| |] eqn:El; [|done..]. intros [= <-] x Hx.
  destruct y as [y|]; [|by eapply IH]. apply elem_of_cons in Hx as [->|Hx]; [|by eapply IH].
  revert Er. unfold collectReference, mbind, res_bind. destruct (negb (_ || _)); [done|].
  destruct (_ && negb _); [done|]. destruct (IsTag r) eqn:Et; cbn [negb].
  - destruct (wrap_res _ _ _); [|done..]. destruct (wrap_res _ _ _); [|done..].
    destruct (match TagObject _ with inl _ => _ | inr _ => _ end); [|done..].
    intros [= <-]. simpl. by rewrite Et.
  - case_bool_decide; [done|]. destruct (wrap_res _ _ _); [|done..]. intros [= <-]. simpl. by rewrite Et.
Qed.

(** The references to scan are, each once, the collected references that some policy
    selects, and each has the images policy of the last policy of the configuration (of the
    default policies, where it has none) that selects it. *)
Theorem ReferencesToScan_last_policy keepPolicies rs refs result :
  AllReferences = inl rs -> collectReferences 0 rs = Ok refs ->
  ReferencesToScan now keepPolicies = Ok result ->
  NoDup (result.*1) /\
  forall r images, (r, images) ∈ result <->
    r ∈ refs /\ last_policy now (branchesOf refs) (tagsOf refs) (effective keepPolicies) r images.
Proof.
  intros Hrs Hrefs Hrun. split; [by eapply run_NoDup|]. intros r images. by eapply run_elem.
Qed.

(** ** No index out of range *)

Lemma split_origin s : Str.HasPrefix s "origin/" = true -> exists a b, Str.SplitN s "/" 2 = [a; b].
Proof.
  intros [t ->]%Str.HasPrefix_spec. exists "origin", t.
  change ("origin/" +:+ t) with ("origin" +:+ String "/" t). unfold Str.SplitN. by rewrite Str.cut_char.
Qed.

Lemma of_sum_panic {A} (r : A + error) p : of_sum r <> Panic p.
Proof. by destruct r. Qed.

Lemma wrap_panic {A} f args (r : res A) p : wrap_res f args r = Panic p -> r = Panic p.
Proof. by destruct r. Qed.

Lemma bind_panic {A B} (m : res A) (f : A -> res B) p :
  m ≫= f = Panic p -> m = Panic p \/ exists a, m = Ok a /\ f a = Panic p.
Proof. destruct m; [eauto|done|]. intros [= ->]. by left. Qed.

Lemma getCommitHash_panic name p : getCommitHashForReference name <> Panic p.
Proof.
  unfold getCommitHashForReference. intros [H|(h & _ & H)]%bind_panic; [by apply of_sum_panic in H|].
  apply bind_panic in H as [H|(obj & _ & H)]; [by apply of_sum_panic in H|].
  by induction obj.
Qed.

(** A collected branch is one of the remote that the code expects. *)
Lemma collectReference_origin n r x :
  collectReference n r = Ok (Some x) -> IsTag (reference x) = false ->
  Str.HasPrefix (Short (reference x)) "origin/" = true.
Proof.
  unfold collectReference, mbind, res_bind. destruct (IsTag r) eqn:Et; intros H Hx.
  - exfalso. destruct (negb (_ || _)); [done|]. destruct (_ && _); [done|]. cbn [negb] in H.
    destruct (wrap_res _ _ _); [|done..]. destruct (wrap_res _ _ _); [|done..].
    destruct (match TagObject _ with inl _ => _ | inr _ => _ end); [|done..].
    injection H as <-. simpl in Hx. congruence.
  - destruct (IsRemote r); [|done]. cbn [orb negb andb] in H.
    destruct (Str.HasPrefix (Short r) "origin/") eqn:Ho; [|done]. cbn [negb] in H.
    case_bool_decide; [done|]. destruct (wrap_res _ _ _); [|done..]. by injection H as <-.
Qed.

Lemma collectReference_panic n r p : collectReference n r <> Panic p.
Proof.
  unfold collectReference. destruct (negb (_ || _)); [done|]. destruct (_ && _); [done|].
  destruct (negb (IsTag r)).
  - case_bool_decide; [done|].
    intros [E%wrap_panic%of_sum_panic|(c & _ & E)]%bind_panic; done.
  - intros [E%wrap_panic%getCommitHash_panic|(h & _ & E)]%bind_panic; [done|].
    apply bind_panic in E as [E%wrap_panic%of_sum_panic|(c & _ & E)]; [done|].
    apply bind_panic in E as [E|(t & _ & E)]; [|done].
    destruct (TagObject _); [done|]. by case_bool_decide.
Qed.

Lemma collectReferences_origin n l refs :
  collectReferences n l = Ok refs ->
  forall x, x ∈ branchesOf refs -> Str.HasPrefix (Short (reference x)) "origin/" = true.
Proof.
  revert n refs. induction l as [|r l IH]; intros n refs; simpl.
  { by intros [= <-] x ?%elem_of_nil. }
  unfold mbind, res_bind. destruct (collectReference n r) as [y| |] eqn:Er; [|done..].
  destruct (collectReferences (S n) l) as [rest| |] eqn:El; [|done..]. intros [= <-] x Hx.
  destruct y as [y|]; [|by eapply IH].
  unfold branchesOf in Hx. apply list_elem_of_filter in Hx as [Ht [->|Hx]%elem_of_cons];
    [by eapply collectReference_origin|].
  eapply IH; [done|]. apply list_elem_of_filter. done.
Qed.

Lemma collectReferences_panic n l p : collectReferences n l <> Panic p.
Proof.
  revert n. induction l as [|r l IH]; intros n; [done|]. simpl.
  intros [E%collectReference_panic|(y & _ & E)]%bind_panic; [done|].
  by apply bind_panic in E as [E%IH|(rest & _ & E)].
Qed.

Lemma selectBranch_panic branches regexp p :
  (forall x, x ∈ branches -> Str.HasPrefix (Short (reference x)) "origin/" = true) ->
  selectBranchReferencesByRegexp branches regexp <> Panic p.
Proof.
  induction branches as [|x branches IH]; intros Ho; [done|]. simpl.
  destruct (split_origin (Short (reference x))) as (a & b & ->); [apply Ho; by left|].
  intros [E|(rest & _ & E)]%bind_panic; [|done]. apply IH in E; [done|]. intros y Hy. apply Ho. by right.
Qed.

Lemma applyPolicies_panic branches tags l s p :
  (forall x, x ∈ branches -> Str.HasPrefix (Short (reference x)) "origin/" = true) ->
  applyPolicies now branches tags s l <> Panic p.
Proof.
  intros Ho. revert s. induction l as [|policy l IH]; intros s; [done|]. simpl.
  intros [E|(s' & _ & E)]%bind_panic; [|by apply IH in E]. unfold applyPolicy in E.
  destruct (BranchRegexp _).
  - by apply bind_panic in E as [E%selectBranch_panic|(refs & _ & E)].
  - by destruct (TagRegexp _).
Qed.

(** Whatever the repository answers and whatever the policies, the selection of the
    references ends with a result or an error: the second part of a branch's short name,
    which the code takes without a check, is there. *)
Theorem ReferencesToScan_never_panics keepPolicies p : ReferencesToScan now keepPolicies <> Panic p.
Proof.
  unfold ReferencesToScan.
  intros [E%wrap_panic%of_sum_panic|(rs & _ & E)]%bind_panic; [done|].
  apply bind_panic in E as [E%collectReferences_panic|(refs & Hc & E)]; [done|].
  apply bind_panic in E as [E|(s & _ & E)]; [|done].
  apply applyPolicies_panic in E; [done|]. by eapply collectReferences_origin.
Qed.

(** ** The limit *)

Lemma byLast_length refs last :
  (0 <= last)%Z ->
  length (filterReferencesByLast refs last).2 = Nat.min (length refs) (Z.to_nat last).
Proof.
  intros Hl. unfold filterReferencesByLast. destruct (Z.ltb_spec last 0); [lia|].
  cbn [snd]. rewrite (Permutation_length (sort_perm newer refs)).
  destruct (Z.ltb_spec (Z.of_nat (length refs)) last).
  - rewrite (Permutation_length (sort_perm newer refs)). lia.
  - rewrite length_take, (Permutation_length (sort_perm newer refs)). lia.
Qed.

Lemma newer_sorted refs :
  StronglySorted (fun x y => (CreatedAt y <= CreatedAt x)%Z) (sort_Slice newer refs).
Proof.
  assert (StronglySorted (fun x y => newer y x = false) (sort_Slice newer refs)) as Hs.
  { apply sort_sorted; unfold newer.
    - intros x y. rewrite Z.ltb_lt, Z.ltb_ge. lia.
    - intros x y z. rewrite !Z.ltb_ge. lia. }
  induction Hs as [|x l Hs IH Hall]; constructor; [done|]. eapply Forall_impl; [done|].
  intros y Hy. by apply Z.ltb_ge in Hy.
Qed.

Lemma byLast_newest refs last r r' :
  r ∈ (filterReferencesByLast refs last).2 -> r' ∈ refs -> (CreatedAt r < CreatedAt r')%Z ->
  r' ∈ (filterReferencesByLast refs last).2.
Proof.
  unfold filterReferencesByLast. destruct (_ <? 0)%Z; [done|]. cbn [snd]. intros Hr Hr' Hlt.
  rewrite <-(sort_perm newer refs) in Hr'. destruct (_ <? _)%Z; [done|].
  rewrite <-(take_drop (Z.to_nat last)) in Hr'. apply elem_of_app in Hr' as [?|Hd]; [done|].
  pose proof (newer_sorted refs) as Hs. rewrite <-(take_drop (Z.to_nat last)) in Hs.
  apply StronglySorted_app in Hs as (Hs & _ & _). specialize (Hs _ _ Hr Hd). simpl in Hs. lia.
Qed.

(** The references that are not older than any other, [last] of them, or all where there are fewer or
    [last] is negative, which stands for no such limit. *)
Record newest_of (refs : list ReferenceToScan) (last : Z) (newest : list ReferenceToScan) : Prop := {
  newest_sub : newest ⊆ refs;
  newest_NoDup : NoDup newest;
  newest_length : length newest = if (last <? 0)%Z then length refs else Nat.min (length refs) (Z.to_nat last);
  newest_first : forall r r', r ∈ newest -> r' ∈ refs -> r' ∉ newest -> (CreatedAt r' <= CreatedAt r)%Z;
}.

Lemma byLast_newest_of refs last : NoDup (ptrs refs) -> newest_of refs last (filterReferencesByLast refs last).2.
Proof.
  intros Hn%NoDup_fmap_1. split.
  - intros r. apply byLast_sub.
  - unfold filterReferencesByLast. destruct (_ <? 0)%Z; [done|]. cbn [snd].
    assert (NoDup (sort_Slice newer refs)) as Hs by by rewrite sort_perm.
    destruct (_ <? _)%Z; [done|]. eapply sublist_NoDup; [done|apply sublist_take].
  - destruct (Z.ltb_spec last 0) as [Hl|Hl]; [|by apply byLast_length].
    unfold filterReferencesByLast. by rewrite (proj2 (Z.ltb_lt last 0) Hl).
  - intros r r' Hr Hr' Hout. pose proof (byLast_newest refs last r r' Hr Hr'). destruct (decide (CreatedAt r < CreatedAt r')%Z); [naive_solver|lia].
Qed.

(** C32: of different references a limit of a policy keeps, each once, exactly the references that are within [in] and among the
    [last] newest with [operator: And], and exactly those that are within [in] or among the [last] newest with
    [operator: Or], a limit that is not given being met by all; so with each reference it keeps every newer
    one. *)
Theorem references_limit_keeps_newest refs l :
  NoDup (ptrs refs) ->
  let kept := applyReferencesLimit now refs (Some l) in
  NoDup kept /\
  (exists newest, newest_of refs (References_Last l) newest /\
     forall r, r ∈ kept <-> r ∈ refs /\
       if bool_decide (References_Operator l = OrOperator)
       then within now (In l) r \/ r ∈ newest
       else within now (In l) r /\ r ∈ newest) /\
  (forall r r', r ∈ kept -> r' ∈ refs -> (CreatedAt r < CreatedAt r')%Z -> r' ∈ kept).
Proof.
  intros Hn kept. pose proof (NoDup_injective _ Hn) as Hi.
  pose proof (fun r => limit_elem now refs refs l r Hi ltac:(done)) as Hel. fold kept in Hel.
  assert (forall (r r' : ReferenceToScan), within now (In l) r -> (CreatedAt r < CreatedAt r')%Z ->
    within now (In l) r') as Hw by (unfold within; destruct (In l); intros; [lia|done]).
  split; [by eapply NoDup_fmap_1, limit_NoDup|]. split.
  - exists (filterReferencesByLast refs (References_Last l)).2. split; [by apply byLast_newest_of|]. intros r. rewrite Hel.
    pose proof (byLast_sub refs (References_Last l) r). case_bool_decide; naive_solver.
  - intros r r' Hr Hr' Hlt. apply Hel in Hr. apply Hel. pose proof (byLast_newest refs (References_Last l) r r').
    pose proof (Hw r r'). case_bool_decide; tauto.
Qed.
End props.
End GitRefsProps.
