(* ===== verification/GitRefsExamples.v ===== *)
(** A repository with three remote branches and two tags, and the selection of its references
    by the policies of a configuration: the hypotheses of the theorems of GitRefsProps can
    hold. *)
From S2P Require Import Prelude Go GitRefs GitRefsProps.

Module GitRefsExamples.
Import MetaCleanup GitRefs GitRefsFacts GitRefsProps.

(** ** An insertion sort is an instance of [sort.Slice] *)

Section sort.
Context {A : Type} (less : A -> A -> bool).

Fixpoint insert_sorted (x : A) (l : list A) : list A :=
  match l with
  | [] => [x]
  | y :: l' => if less y x then y :: insert_sorted x l' else x :: y :: l'
  end.

Fixpoint insertion_sort (l : list A) : list A :=
  match l with [] => [] | x :: l' => insert_sorted x (insertion_sort l') end.

Lemma insert_sorted_perm x l : insert_sorted x l ≡ₚ x :: l.
Proof.
  induction l as [|y l IH]; [done|]. simpl. destruct (less y x); [|done].
  rewrite IH. apply Permutation_swap.
Qed.

Lemma insertion_sort_perm l : insertion_sort l ≡ₚ l.
Proof. induction l as [|x l IH]; [done|]. simpl. by rewrite insert_sorted_perm, IH. Qed.

Hypothesis Hasym : forall x y, less x y = true -> less y x = false.
Hypothesis Htrans : forall x y z, less y x = false -> less z y = false -> less z x = false.

Lemma insert_sorted_sorted x l :
  StronglySorted (fun x y => less y x = false) l ->
  StronglySorted (fun x y => less y x = false) (insert_sorted x l).
Proof using Hasym Htrans.
  induction 1 as [|y l Hs IH Hy]; simpl; [repeat constructor|].
  destruct (less y x) eqn:E.
  - constructor; [done|]. rewrite (insert_sorted_perm x l). constructor; [|done]. by apply Hasym.
  - constructor; [by constructor|]. constructor; [done|]. eapply Forall_impl; [done|].
    intros z Hz. by eapply Htrans.
Qed.

Lemma insertion_sort_sorted l : StronglySorted (fun x y => less y x = false) (insertion_sort l).
Proof using Hasym Htrans. induction l; simpl; [constructor|]. by apply insert_sorted_sorted. Qed.
End sort.

#[export] Instance stable_sort : SortSlice := {
  sort_Slice := @insertion_sort;
  sort_perm := @insertion_sort_perm;
  sort_sorted A less l Ha Ht := @insertion_sort_sorted A less Ha Ht l;
}.

(** ** The repository *)

Definition branch (name hash : string) : GitReference :=
  mkGitReference ("refs/remotes/" +:+ name) name true false hash.
Definition tag (name hash : string) : GitReference :=
  mkGitReference ("refs/tags/" +:+ name) name false true hash.

Definition day : Z := 86400000000000.

(** [c1 <- c2 <- c3], a day apart, and [v1] an annotated tag of [c1]. *)
Definition commits (h : string) : Commit + error :=
  if bool_decide (h = "c1") then inl (mkCommit "c1" [] day)
  else if bool_decide (h = "c2") then inl (mkCommit "c2" ["c1"] (2 * day))
  else if bool_decide (h = "c3") then inl (mkCommit "c3" ["c2"] (3 * day))
  else inr ErrObjectNotFound.

Definition remote : list GitReference :=
  [mkGitReference "refs/heads/main" "main" false false "c3"; branch "upstream/main" "c1";
   branch "origin/main" "c3"; branch "origin/feature" "c2"; branch "origin/old" "c1";
   tag "v1" "t1"; tag "v2" "c2"].

#[export] Instance repository : GitRepository := {
  AllReferences := inl remote;
  CommitObject := commits;
  ResolveReference name :=
    if bool_decide (name = "refs/tags/v1") then inl "t1"
    else if bool_decide (name = "refs/tags/v2") then inl "c2" else inr ErrObjectNotFound;
  AnyObject h := if bool_decide (h = "t1") then inl (OTagOfCommit "c1") else inl (OCommit h);
  TagObject h := if bool_decide (h = "t1") then inl (4 * day)%Z else inr ErrObjectNotFound;
}.

Definition collected : list ReferenceToScan :=
  match collectReferences 0 remote with Ok refs => refs | _ => [] end.

(** The two newest branches keep an image each, [main] keeps ten, the tags of the last day
    or the newest tag two. *)
Definition configured : list KeepPolicy :=
  [mkKeepPolicy (mkKeepPolicyReferences None (Some anything) (Some (NewLimit (Some 2%Z) None None)))
     no_limit;
   mkKeepPolicy
     (mkKeepPolicyReferences (Some anything) None
        (Some (NewLimit (Some 1%Z) (Some day) (Some OrOperator))))
     (NewLimit (Some 2%Z) None None);
   mkKeepPolicy (mkKeepPolicyReferences None (Some main_branches) None)
     (NewLimit (Some 10%Z) None None)].

Definition selection : list (ReferenceToScan * Limit) :=
  match ReferencesToScan (5 * day) configured with Ok l => l | _ => [] end.

Example collected_names :
  (fun r => Short (reference r)) <$> collected = ["origin/main"; "origin/feature"; "origin/old"; "v1"; "v2"].
Proof. vm_compute. reflexivity. Qed.

(** The policy of [main] is the last one that selects it; [v2] is too old. *)
Example selection_names :
  (fun '(r, images) => (Short (reference r), Images_Last images)) <$> selection =
  [("origin/main", 10%Z); ("origin/feature", 1%Z); ("v1", 2%Z)].
Proof. vm_compute. reflexivity. Qed.

(** The default policies keep ten images of [main] and one of each of the last ten tags; no
    other branch is kept after a week. *)
Example default_selection :
  match ReferencesToScan (20 * day) [] with
  | Ok l => (fun '(r, images) => (Short (reference r), Images_Last images)) <$> l
  | _ => []
  end = [("origin/main", 10%Z); ("v1", 1%Z); ("v2", 1%Z)].
Proof. vm_compute. reflexivity. Qed.

(** A tag without a commit stops the selection. *)
Example blob_tag : peelObject (OTagOfObject (OOther "blob")) = Err (Errorf "unsupported tag target %q" [FQ "blob"]).
Proof. reflexivity. Qed.

Lemma ReferencesToScan_last_policy_witness :
  NoDup (selection.*1) /\
  forall r images, (r, images) ∈ selection <->
    r ∈ collected /\
    last_policy (5 * day) (branchesOf collected) (tagsOf collected) (effective configured) r images.
Proof.
  apply (ReferencesToScan_last_policy (5 * day) configured remote collected selection).
  - reflexivity.
  - vm_compute. reflexivity.
  - vm_compute. reflexivity.
Defined.

Lemma references_limit_keeps_newest_witness :
  let l := NewLimit (Some 1%Z) (Some (3 * day)%Z) (Some OrOperator) in
  let kept := applyReferencesLimit (5 * day) collected (Some l) in
  ((fun r => Short (reference r)) <$> kept = ["v1"; "origin/main"]) /\
  exists newest, newest_of collected (References_Last l) newest /\
    forall r, r ∈ kept <-> r ∈ collected /\ (within (5 * day) (In l) r \/ r ∈ newest).
Proof.
  split; [vm_compute; reflexivity|].
  apply (references_limit_keeps_newest (5 * day) collected (NewLimit (Some 1%Z) (Some (3 * day)%Z) (Some OrOperator))).
  vm_compute. repeat constructor; set_solver.
Defined.

End GitRefsExamples.
