(* ===== verification/GitScan.v ===== *)
(** git_history_based_cleanup/scanner.go and repo_with_cache.go: the scan of the history of
    the selected references, which tells which of the expected stages are reached and on which
    commits. The order in which a map is iterated is whatever the class [Nondet] gives at the
    tick of the reference that is scanned. What is printed is not modelled. *)
From S2P Require Import Prelude Go GitRefs.

(** [LocalGit]: the commits by their hash. A repository is finite: [History] has the hash of
    every commit it has and of every parent that these name. *)
Class LocalGit := {
  LocalCommitObject : string -> Commit + error;
  History : list string;
  History_parents : forall h c p, LocalCommitObject h = inl c -> p ∈ CParents c -> p ∈ History;
}.

(** [util.AddNewStringsToStringArray], which is third-party code: it appends the strings that
    the array does not have. *)
Class StringArrays := {
  AddNewStringsToStringArray : list string -> list string -> list string;
  AddNewStrings_elem : forall l l' x, x ∈ AddNewStringsToStringArray l l' <-> x ∈ l \/ x ∈ l';
}.

(** * The cache of commit objects *)

Module RepoWithCache.

(** [CommitCache] by hash; [repo] is the repository's own lookup. *)
Abbreviation CommitCache := (gmap string Commit).

Definition getFromCache (hash : string) (cache : CommitCache) : option Commit := cache !! hash.
Definition addToCache (hash : string) (obj : Commit) (cache : CommitCache) : CommitCache :=
  <[hash := obj]> cache.
Definition ClearCache (cache : CommitCache) : CommitCache := ∅.

(** The second lookup is made under the lock. *)
Definition CommitObject (repo : string -> Commit + error) (hash : string) : prog CommitCache Commit :=
  fun cache =>
    match getFromCache hash cache with
    | Some c => (Ok c, cache)
    | None =>
        match getFromCache hash cache with
        | Some c => (Ok c, cache)
        | None =>
            match repo hash with
            | inl c => (Ok c, addToCache hash c cache)
            | inr err => (Err (Wrapf "unable to get commit object for %s: %w" [FS hash] err), cache)
            end
        end
    end.

End RepoWithCache.

Module GitScan.
Import MetaCleanup GitRefs.

Abbreviation StageIDCommitList := (gmap string (list string)).

(** A map from the commit objects, which the string of the commit stands for, to the stages
    whose latest commit it is. *)
Abbreviation LatestCommits := (gmap string (Commit * list string)).

(** [commitHistoryScanner] without its repository. *)
Record commitHistoryScanner := mkScanner {
  expectedStageIDCommitList : StageIDCommitList;
  reachedStageIDCommitList : StageIDCommitList;
  reachedCommitList : list string;
  stopCommitList : list string;
  isAlreadyScannedCommit : gset string;
  scanDepth : Z;
  depthLimit : Z;
  imagesCleanupKeepPolicy : Limit;
}.

Definition add_reached (reached : StageIDCommitList) (commits : list string) (s : commitHistoryScanner)
  : commitHistoryScanner :=
  mkScanner (expectedStageIDCommitList s) reached (reachedCommitList s ++ commits) (stopCommitList s)
    (isAlreadyScannedCommit s) (scanDepth s) (depthLimit s) (imagesCleanupKeepPolicy s).
Definition mark_scanned (commit : string) (s : commitHistoryScanner) : commitHistoryScanner :=
  mkScanner (expectedStageIDCommitList s) (reachedStageIDCommitList s) (reachedCommitList s)
    (stopCommitList s) ({[commit]} ∪ isAlreadyScannedCommit s) (scanDepth s) (depthLimit s)
    (imagesCleanupKeepPolicy s).
Definition deeper (s : commitHistoryScanner) : commitHistoryScanner :=
  mkScanner (expectedStageIDCommitList s) (reachedStageIDCommitList s) (reachedCommitList s)
    (stopCommitList s) (isAlreadyScannedCommit s) (scanDepth s + 1)%Z (depthLimit s)
    (imagesCleanupKeepPolicy s).
Definition add_stop (commit : string) (s : commitHistoryScanner) : commitHistoryScanner :=
  mkScanner (expectedStageIDCommitList s) (reachedStageIDCommitList s) (reachedCommitList s)
    (stopCommitList s ++ [commit]) (isAlreadyScannedCommit s) (scanDepth s) (depthLimit s)
    (imagesCleanupKeepPolicy s).

(** What the scan of a reference returns: the stages, the stop commits and the hits. *)
Definition Scan : Type := list string * list string * StageIDCommitList.

Section scan.
Context `{git : LocalGit, arrays : StringArrays, sorting : SortSlice, nondet : Nondet}.
(** [time.Now()] *)
Variable now : Z.

(** ** The history of a reference *)

Definition isStopCommit (s : commitHistoryScanner) (commit : string) : bool :=
  existsb (String.eqb commit) (stopCommitList s).

(** The stages that are expected on the commit get it appended. *)
Definition reachStage (commit : string) (reached : StageIDCommitList) (e : string * list string)
  : StageIDCommitList :=
  if existsb (String.eqb commit) e.2
  then <[e.1 := default [] (reached !! e.1) ++ [commit]]> reached else reached.

Definition handleCommit (s : commitHistoryScanner) (commit : string)
  : res (commitHistoryScanner * list string) :=
  let expected := map_to_list (expectedStageIDCommitList s) in
  let isReachedCommit := existsb (fun e => existsb (String.eqb commit) e.2) expected in
  let s := add_reached (foldl (reachStage commit) (reachedStageIDCommitList s) expected)
             (if isReachedCommit then [commit] else []) s in
  match LocalCommitObject commit with
  | inr err => Err (Wrapf "commit hash %s resolve failed: %w" [FS commit] err)
  | inl co => Ok (s, CParents co)
  end.

(** One pass over [currentIteration]; [break] leaves this loop only. *)
Fixpoint scanIteration (s : commitHistoryScanner) (nextIteration currentIteration : list string)
  : res (commitHistoryScanner * list string) :=
  match currentIteration with
  | [] => Ok (s, nextIteration)
  | commit :: rest =>
      if bool_decide (commit ∈ isAlreadyScannedCommit s) then scanIteration s nextIteration rest
      else if isStopCommit s commit then scanIteration s nextIteration rest
      else
        r ← handleCommit s commit;
        let '(s, commitParents) := r in
        if (scanDepth s =? depthLimit s)%Z then scanIteration s nextIteration rest
        else if size (expectedStageIDCommitList s) =? size (reachedStageIDCommitList s)
        then Ok (s, nextIteration)
        else scanIteration (mark_scanned commit s) (nextIteration ++ commitParents) rest
  end.

Fixpoint scanCommits (fuel : nat) (s : commitHistoryScanner) (currentIteration : list string)
  : res commitHistoryScanner :=
  match fuel with
  | 0 => Panic "out of fuel"
  | S fuel =>
      r ← scanIteration (deeper s) [] currentIteration;
      let '(s, nextIteration) := r in
      match nextIteration with
      | [] => Ok s
      | _ => scanCommits fuel s nextIteration
      end
  end.

(** Every pass but the last marks a commit of the history, or the head. *)
Definition scanFuel : nat := S (S (length History)).

Definition scanCommitHistory (s : commitHistoryScanner) (commit : string) : res commitHistoryScanner :=
  scanCommits scanFuel s [commit].

(** ** What was reached *)

Definition reachedStageIDList (tick : nat) (s : commitHistoryScanner) : list string :=
  (filter (fun e => e.2 <> []) (shuffle tick (map_to_list (reachedStageIDCommitList s)))).*1.

(** The newest of the commits, the first one where several are. *)
Fixpoint latestCommit (commitList : list string) (latest : option (string * Commit))
  : res (option (string * Commit)) :=
  match commitList with
  | [] => Ok latest
  | commit :: rest =>
      match LocalCommitObject commit with
      | inr _ => Panic "unexpected condition"
      | inl o =>
          latestCommit rest
            (match latest with
             | None => Some (commit, o)
             | Some (_, lo) => if (CWhen lo <? CWhen o)%Z then Some (commit, o) else latest
             end)
      end
  end.

Definition addLatest (stageID : string) (latest : option (string * Commit)) (m : LatestCommits)
  : LatestCommits :=
  match latest with
  | None => m
  | Some (commit, o) => <[commit := (o, from_option snd [] (m !! commit) ++ [stageID])]> m
  end.

Fixpoint addLatestCommits (l : list (string * list string)) (m : LatestCommits) : res LatestCommits :=
  match l with
  | [] => Ok m
  | (stageID, commitList) :: l' =>
      latest ← latestCommit commitList None;
      addLatestCommits l' (addLatest stageID latest m)
  end.

Definition latestCommitStageIDs (tick : nat) (s : commitHistoryScanner) : res LatestCommits :=
  addLatestCommits (shuffle tick (map_to_list (reachedStageIDCommitList s))) ∅.

(** Assigns the hit of each of the stages. *)
Definition setHits (hash : string) (hits : StageIDCommitList) (stageIDs : list string)
  : StageIDCommitList :=
  foldl (fun hits stageID => <[stageID := [hash]]> hits) hits stageIDs.

Definition stageIDHitCommitList (tick : nat) (s : commitHistoryScanner) : res StageIDCommitList :=
  latest ← latestCommitStageIDs tick s;
  Ok (foldl (fun hits e => setHits (CHash e.2.1) hits e.2.2) ∅ (shuffle tick (map_to_list latest))).

(** ** More stages than the policy keeps *)

(** The stages of the commits and their hits. *)
Definition keepCommits (latest : list (string * (Commit * list string))) : list string * StageIDCommitList :=
  foldl (fun '(stageIDs, hits) e => (stageIDs ++ e.2.2, setHits (CHash e.2.1) hits e.2.2)) ([], ∅) latest.

Definition handleExtraStageIDsByLast (s : commitHistoryScanner)
  (latestCommitList : list (string * (Commit * list string))) : Scan :=
  let '(reachedStageIDs, hits) :=
    keepCommits (take (Z.to_nat (Images_Last (imagesCleanupKeepPolicy s))) latestCommitList) in
  (reachedStageIDs, stopCommitList s, hits).

Definition same_commit (e1 e2 : string * (Commit * list string)) : bool := String.eqb e1.1 e2.1.

Definition handleExtraStageIDsByLastWithIn (s : commitHistoryScanner) (inn : Z)
  (latestCommitList : list (string * (Commit * list string))) : Scan :=
  let byLast := take (Z.to_nat (Images_Last (imagesCleanupKeepPolicy s))) latestCommitList in
  let byIn := filter (fun e => (now - inn <? CWhen e.2.1)%Z = true) latestCommitList in
  let result :=
    if bool_decide (Images_Operator (imagesCleanupKeepPolicy s) = AndOperator)
    then byLast ≫= (fun e => (fun _ => e) <$> filter (fun e' => same_commit e e' = true) byIn)
    else byIn ++ filter (fun e => existsb (same_commit e) byIn = false) byLast in
  let '(reachedStageIDs, hits) := keepCommits result in
  (reachedStageIDs, stopCommitList s, hits).

Definition newerCommit (e1 e2 : string * (Commit * list string)) : bool :=
  (CWhen e2.2.1 <? CWhen e1.2.1)%Z.

(** ** A reference *)

Definition result_of (tick : nat) (s : commitHistoryScanner) : res Scan :=
  hits ← stageIDHitCommitList tick s;
  Ok (reachedStageIDList tick s, stopCommitList s, hits).

Definition handleStopCommitList (tick : nat) (s : commitHistoryScanner) (ref : ReferenceToScan)
  : res Scan :=
  let lastReached := match List.rev (reachedCommitList s) with
                     | commit :: _ => Ok commit
                     | [] => Panic "index out of range"
                     end in
  s ← (if negb (depthLimit s =? 0)%Z then
         if length (reachedStageIDList tick s) =? size (expectedStageIDCommitList s)
         then commit ← lastReached; Ok (add_stop commit s)
         else Ok s
       else if negb (length (reachedStageIDList tick s) =? 0)
       then commit ← lastReached; Ok (add_stop commit s)
       else Ok (add_stop (CHash (HeadCommit ref)) s));
  result_of tick s.

(** The commits of the expected stages that are within [in]. *)
Fixpoint commitsWithin (inn : Z) (commitList : list string) : res (list string) :=
  match commitList with
  | [] => Ok []
  | commit :: rest =>
      match LocalCommitObject commit with
      | inr _ => Panic "unexpected condition"
      | inl c =>
          l ← commitsWithin inn rest;
          Ok (if (now - inn <? CWhen c)%Z then commit :: l else l)
      end
  end.

Fixpoint applyIn (inn : Z) (l : list (string * list string)) (policy : StageIDCommitList)
  : res StageIDCommitList :=
  match l with
  | [] => Ok policy
  | (stageID, commitList) :: l' =>
      result ← commitsWithin inn commitList;
      applyIn inn l' (match result with [] => policy | _ => <[stageID := result]> policy end)
  end.

Definition applyImagesCleanupInPolicy (stageIDCommitList : StageIDCommitList) (inn : option Z)
  : res StageIDCommitList :=
  match inn with
  | None => Ok stageIDCommitList
  | Some d => applyIn d (map_to_list stageIDCommitList) ∅
  end.

(** The expected stages of the reference. *)
Definition refExpected (policy : Limit) (expected : StageIDCommitList) : res StageIDCommitList :=
  if (Images_Last policy =? 0)%Z then Ok ∅
  else if negb (bool_decide (In policy = None)) && bool_decide (Images_Operator policy = AndOperator)
  then applyImagesCleanupInPolicy expected (In policy)
  else Ok expected.

(** More stages were reached than the last ones that the policy keeps. *)
Definition handleExtra (tick : nat) (s : commitHistoryScanner) : res Scan :=
  latest ← latestCommitStageIDs tick s;
  let latestCommitList := sort_Slice newerCommit (shuffle tick (map_to_list latest)) in
  Ok (match In (imagesCleanupKeepPolicy s) with
      | None => handleExtraStageIDsByLast s latestCommitList
      | Some inn => handleExtraStageIDsByLastWithIn s inn latestCommitList
      end).

(** What is done with a finished scan. *)
Definition handleResult (tick : nat) (ref : ReferenceToScan) (expected refExp : StageIDCommitList)
  (s : commitHistoryScanner) : res Scan :=
  let last := Images_Last (imagesCleanupKeepPolicy s) in
  let reached := Z.of_nat (length (reachedStageIDList tick s)) in
  if (0 <? last)%Z && (reached =? last)%Z then result_of tick s
  else if (0 <? last)%Z && (last <? reached)%Z then handleExtra tick s
  else if negb (bool_decide (expected = refExp)) then result_of tick s
  else handleStopCommitList tick s ref.

Definition scanReferenceHistory (tick : nat) (ref : ReferenceToScan) (policy : Limit)
  (expected : StageIDCommitList) (stop : list string) : res Scan :=
  refExp ← refExpected policy expected;
  if bool_decide (refExp = ∅) then Ok ([], stop, ∅)
  else
    let s := mkScanner refExp ∅ [] stop ∅ 0 (scanDepthLimit ref) policy in
    s ← wrap_res "scan commit %s history failed: %w" [FS (CHash (HeadCommit ref))]
          (scanCommitHistory s (CHash (HeadCommit ref)));
    handleResult tick ref expected refExp s.

(** ** All references, the last one first *)

Definition mergeHits (hits : StageIDCommitList) (e : string * list string) : StageIDCommitList :=
  <[e.1 := match hits !! e.1 with
           | None => e.2
           | Some hitCommitList => AddNewStringsToStringArray hitCommitList e.2
           end]> hits.

Definition mergeScan (acc r : Scan) : Scan :=
  let '(reached, stop, hits) := acc in
  let '(refReached, refStop, refHits) := r in
  (AddNewStringsToStringArray reached refReached, AddNewStringsToStringArray stop refStop,
   foldl mergeHits hits (map_to_list refHits)).

(** The references in the order of the scan; the tick counts them. *)
Fixpoint scanReferences (tick : nat) (refs : list (ReferenceToScan * Limit))
  (expected : StageIDCommitList) (acc : Scan) : res Scan :=
  match refs with
  | [] => Ok acc
  | (ref, policy) :: refs' =>
      r ← wrap_res "scan reference history failed: %w" []
            (scanReferenceHistory tick ref policy expected acc.1.2);
      scanReferences (S tick) refs' expected (mergeScan acc r)
  end.

Definition ScanReferencesHistory (refs : list (ReferenceToScan * Limit)) (expected : StageIDCommitList)
  : res (list string * StageIDCommitList) :=
  r ← scanReferences 0 (List.rev refs) expected ([], [], ∅);
  let '(reached, _, hits) := r in
  Ok (reached, hits).

End scan.
End GitScan.
