(* ===== verification/GitScanFacts.v ===== *)
(** The scan of a reference: it ends, what it reaches is expected and is in the history of the
    reference, and without a limit it reaches all that is there. *)
From S2P Require Import Prelude Go GitRefs GitScan.

Module GitScanFacts.
Import MetaCleanup GitRefs GitScan.

Section facts.
Context `{git : LocalGit, arrays : StringArrays, sorting : SortSlice, nondet : Nondet}.

(** The commits of the history of [head]. *)
Inductive history (head : string) : string -> Prop :=
| history_head : history head head
| history_parent c co p :
    history head c -> LocalCommitObject c = inl co -> p ∈ CParents co -> history head p.

Definition resolves (c : string) : Prop := exists co, LocalCommitObject c = inl co.

(** ** One commit *)

Lemma existsb_eqb c l : existsb (String.eqb c) l = true <-> c ∈ l.
Proof.
  rewrite existsb_exists. setoid_rewrite <-list_elem_of_In. setoid_rewrite String.eqb_eq. naive_solver.
Qed.

(** What a handled commit is appended to. *)
Lemma reach_lookup c expected reached k :
  foldl (reachStage c) reached (map_to_list expected) !! k =
  match expected !! k with
  | Some v => if existsb (String.eqb c) v then Some (default [] (reached !! k) ++ [c]) else reached !! k
  | None => reached !! k
  end.
Proof.
  rewrite (foldl_keywise _ (fun v o => if existsb (String.eqb c) v then Some (default [] o ++ [c]) else o));
    [done|..].
  - intros m [k' v]. unfold reachStage. simpl. destruct (existsb _ _); [|done]. by rewrite lookup_insert_eq.
  - intros m e k' Hne. unfold reachStage. destruct (existsb _ _); [|done]. by rewrite lookup_insert_ne.
Qed.

(** ** The scanner *)

(** What does not change during a scan. *)
Record same_job (s s' : commitHistoryScanner) : Prop := {
  same_expected : expectedStageIDCommitList s' = expectedStageIDCommitList s;
  same_stop : stopCommitList s' = stopCommitList s;
  same_limit : depthLimit s' = depthLimit s;
  same_policy : imagesCleanupKeepPolicy s' = imagesCleanupKeepPolicy s;
}.

#[export] Instance same_job_PreOrder : PreOrder same_job.
Proof. split; [by intros s|]. intros s1 s2 s3 [? ? ? ?] [? ? ? ?]. split; congruence. Qed.

(** What has been reached is expected, in the history, and resolves. *)
Record sound (head : string) (s : commitHistoryScanner) : Prop := {
  sound_reached k l : reachedStageIDCommitList s !! k = Some l -> l <> [] /\
    exists exp, expectedStageIDCommitList s !! k = Some exp /\
      forall c, c ∈ l -> c ∈ exp /\ history head c /\ resolves c;
  sound_list : reachedStageIDCommitList s <> ∅ -> reachedCommitList s <> [];
}.

Definition all_reached (s : commitHistoryScanner) : Prop :=
  forall k, is_Some (expectedStageIDCommitList s !! k) -> is_Some (reachedStageIDCommitList s !! k).

(** A commit that has been handled: the stages expected on it are reached. *)
Definition handled (s : commitHistoryScanner) (c : string) : Prop :=
  forall k exp, expectedStageIDCommitList s !! k = Some exp -> c ∈ exp ->
    is_Some (reachedStageIDCommitList s !! k).

Definition grown (s s' : commitHistoryScanner) : Prop :=
  same_job s s' /\ scanDepth s' = scanDepth s /\
  (forall k, is_Some (reachedStageIDCommitList s !! k) -> is_Some (reachedStageIDCommitList s' !! k)).

Lemma grown_handled s s' c : grown s s' -> handled s c -> handled s' c.
Proof.
  intros ([He _ _ _] & _ & Hg) Hh k exp Hk Hc. rewrite He in Hk. apply Hg. by eapply Hh.
Qed.

Lemma handleCommit_Ok s c s' ps :
  handleCommit s c = Ok (s', ps) ->
  exists co, LocalCommitObject c = inl co /\ ps = CParents co /\
    s' = add_reached
           (foldl (reachStage c) (reachedStageIDCommitList s) (map_to_list (expectedStageIDCommitList s)))
           (if existsb (fun e => existsb (String.eqb c) e.2) (map_to_list (expectedStageIDCommitList s))
            then [c] else []) s.
Proof.
  unfold handleCommit. destruct (LocalCommitObject c) as [co|err]; [|done]. intros [= <- <-]. eauto.
Qed.

Lemma handleCommit_spec head s c s' ps :
  handleCommit s c = Ok (s', ps) -> sound head s -> history head c ->
  grown s s' /\ sound head s' /\ handled s' c /\ isAlreadyScannedCommit s' = isAlreadyScannedCommit s /\
  exists co, LocalCommitObject c = inl co /\ ps = CParents co.
Proof.
  intros (co & Hco & -> & ->)%handleCommit_Ok [Hs Hl] Hc.
  split; [|split; [|split; [|split; [done|eauto]]]].
  - split; [done|]. split; [done|]. intros k Hk. simpl. rewrite reach_lookup.
    destruct (expectedStageIDCommitList s !! k) as [v|]; [|done]. destruct (existsb _ _); [by eexists|done].
  - split; simpl.
    + intros k l. rewrite reach_lookup. destruct (expectedStageIDCommitList s !! k) as [v|] eqn:E;
        [|intros Hk; destruct (Hs _ _ Hk) as (? & exp & ? & _); congruence].
      destruct (existsb (String.eqb c) v) eqn:Ev.
      * intros [= <-]. apply existsb_eqb in Ev. split; [by destruct (default [] _)|]. exists v.
        split; [done|]. intros c' [Hc'|Hc']%elem_of_app.
        -- destruct (reachedStageIDCommitList s !! k) as [l0|] eqn:El; [|by apply elem_of_nil in Hc'].
           destruct (Hs _ _ El) as (_ & exp & Hexp & Hall). assert (exp = v) as -> by congruence. auto.
        -- apply list_elem_of_singleton in Hc' as ->. split; [done|]. split; [done|]. by exists co.
      * intros Hk. destruct (Hs _ _ Hk) as (? & exp & Hexp & Hall). split; [done|].
        exists exp. split; [congruence|done].
    + intros Hne. destruct (existsb _ _) eqn:E; [by destruct (reachedCommitList s)|]. rewrite app_nil_r.
      apply Hl. intros Hempty. apply Hne. apply map_empty. intros k. rewrite reach_lookup, Hempty, lookup_empty.
      destruct (expectedStageIDCommitList s !! k) as [v|] eqn:Ek; [|done].
      destruct (existsb (String.eqb c) v) eqn:Ev; [|done]. exfalso.
      apply not_true_iff_false in E. apply E. apply existsb_exists. exists (k, v). split; [|done].
      apply list_elem_of_In. by apply elem_of_map_to_list.
  - intros k exp Hk Hin. simpl in *. rewrite reach_lookup, Hk.
    apply existsb_eqb in Hin. rewrite Hin. by eexists.
Qed.

(** ** The passes *)

Lemma more_reached_refl s : grown s s.
Proof. split; [done|]. by split. Qed.

Lemma more_reached_trans s1 s2 s3 : grown s1 s2 -> grown s2 s3 -> grown s1 s3.
Proof.
  intros (? & ? & ?) (? & ? & ?). split; [by etrans|]. split; [congruence|auto].
Qed.

Lemma grown_mark s c : grown s (mark_scanned c s).
Proof. split; [done|]. by split. Qed.

Lemma sound_mark head s c : sound head s -> sound head (mark_scanned c s).
Proof. intros [? ?]. by split. Qed.

(** What a pass does to the state and to the commits of the next one. *)
Record pass_of (head : string) (s s' : commitHistoryScanner) (next next' : list string) : Prop := {
  pass_grown : grown s s';
  pass_sound : sound head s';
  pass_next c : c ∈ next' -> history head c;
  pass_scanned : isAlreadyScannedCommit s ⊆ isAlreadyScannedCommit s';
  pass_history c : c ∈ isAlreadyScannedCommit s' -> c ∈ isAlreadyScannedCommit s \/ history head c;
  pass_progress : next' <> [] ->
    next <> [] \/ exists c, c ∈ isAlreadyScannedCommit s' /\ c ∉ isAlreadyScannedCommit s;
}.

Lemma scanIteration_spec head cur s next s' next' :
  scanIteration s next cur = Ok (s', next') -> sound head s ->
  (forall c, c ∈ next ++ cur -> history head c) ->
  pass_of head s s' next next'.
Proof.
  revert s next. induction cur as [|c cur IH]; intros s next; simpl.
  { intros [= <- <-] Hs Hh. rewrite app_nil_r in Hh. split; [apply more_reached_refl|done|done|done|auto|auto]. }
  assert (forall c', c' ∈ next ++ cur -> c' ∈ next ++ c :: cur) as Hsub by set_solver.
  case_bool_decide as Hin; [intros Hrun Hs Hh; apply IH; auto|].
  destruct (isStopCommit s c); [intros Hrun Hs Hh; apply IH; auto|].
  unfold mbind, res_bind. destruct (handleCommit s c) as [[s1 ps]| |] eqn:Eh; [|done..].
  intros Hrun Hs Hh. assert (history head c) as Hc by (apply Hh; set_solver).
  destruct (handleCommit_spec head _ _ _ _ Eh Hs Hc) as (Hg & Hs1 & Hd & Hsc & co & Hco & ->).
  destruct (_ =? _)%Z.
  { destruct (IH _ _ Hrun Hs1) as [G1 G2 G3 G4 G5 G6]; [auto|]. rewrite Hsc in *.
    split; auto. by eapply more_reached_trans. }
  destruct (size _ =? size _).
  { injection Hrun as <- <-. split; [done|done|intros c' Hc'; apply Hh; set_solver|by rewrite Hsc|intros c'; rewrite Hsc; auto|auto]. }
  destruct (IH _ _ Hrun (sound_mark _ _ _ Hs1)) as [G1 G2 G3 G4 G5 G6].
  { intros c'. rewrite !elem_of_app. intros [[?|Hp]|?]; [apply Hh; set_solver| |apply Hh; set_solver].
    by eapply history_parent. }
  simpl in *. rewrite Hsc in *. split; auto.
  - eapply more_reached_trans; [done|]. eapply more_reached_trans; [apply grown_mark|done].
  - set_solver.
  - intros c' Hc'. apply G5 in Hc' as [[->%elem_of_singleton|?]%elem_of_union|?]; auto.
  - intros _. right. exists c. split; [set_solver|done].
Qed.

(** Every parent of a scanned commit has been scanned, stops the scan, or is waiting. *)
Record closed (head : string) (s : commitHistoryScanner) (waiting : list string) : Prop := {
  closed_head : head ∈ isAlreadyScannedCommit s \/ head ∈ stopCommitList s \/ head ∈ waiting;
  closed_handled c : c ∈ isAlreadyScannedCommit s -> handled s c;
  closed_parents c co p : c ∈ isAlreadyScannedCommit s -> LocalCommitObject c = inl co -> p ∈ CParents co ->
    p ∈ isAlreadyScannedCommit s \/ p ∈ stopCommitList s \/ p ∈ waiting;
}.

Lemma closed_weaken head s w w' :
  (forall c, c ∈ w -> c ∈ isAlreadyScannedCommit s \/ c ∈ stopCommitList s \/ c ∈ w') ->
  closed head s w -> closed head s w'.
Proof.
  intros Hw [Hh Hd Hp]. split; [|done|].
  - destruct Hh as [?|[?|?]]; auto.
  - intros c co p Hc Hco Hin. destruct (Hp c co p Hc Hco Hin) as [?|[?|?]]; auto.
Qed.

(** A handled commit that is marked leaves its parents waiting. *)
Lemma closed_mark head s s1 c co w :
  grown s s1 -> isAlreadyScannedCommit s1 = isAlreadyScannedCommit s -> handled s1 c ->
  LocalCommitObject c = inl co -> closed head s (c :: w) ->
  closed head (mark_scanned c s1) (w ++ CParents co).
Proof.
  intros Hg Hsc Hc Hco [Hh Hd Hp]. pose proof Hg as ([_ Hst _ _] & _ & _). split; simpl.
  - rewrite Hsc, Hst, elem_of_union, elem_of_app, elem_of_singleton.
    destruct Hh as [?|[?|[?|?]%elem_of_cons]]; auto.
  - intros c' [->%elem_of_singleton|Hc']%elem_of_union; [done|]. rewrite Hsc in Hc'.
    eapply grown_handled; [eapply more_reached_trans; [exact Hg|apply grown_mark]|by apply Hd].
  - intros c' co' p Hc' Hco' Hin. rewrite Hsc, Hst, elem_of_union, elem_of_app, elem_of_singleton in *.
    destruct Hc' as [->|Hc'].
    + assert (co' = co) as -> by congruence. auto.
    + destruct (Hp c' co' p Hc' Hco' Hin) as [?|[?|[?|?]%elem_of_cons]]; auto.
Qed.

Definition full (s : commitHistoryScanner) : Prop :=
  size (expectedStageIDCommitList s) = size (reachedStageIDCommitList s).

Lemma scanIteration_closed head cur s next s' next' :
  scanIteration s next cur = Ok (s', next') -> sound head s ->
  (forall c, c ∈ next ++ cur -> history head c) -> (depthLimit s < 0 <= scanDepth s)%Z ->
  closed head s (cur ++ next) -> full s' \/ closed head s' next'.
Proof.
  revert s next. induction cur as [|c cur IH]; intros s next; simpl.
  { intros [= <- <-] _ _ _ Hc. by right. }
  assert (forall c', c' ∈ next ++ cur -> c' ∈ next ++ c :: cur) as Hsub by set_solver.
  case_bool_decide as Hin.
  { intros Hrun Hs Hh Hd Hc. apply (IH _ _ Hrun Hs); auto. eapply closed_weaken; [|done].
    intros c' [->|?]%elem_of_cons; auto. }
  destruct (isStopCommit s c) eqn:Est.
  { intros Hrun Hs Hh Hd Hc. apply (IH _ _ Hrun Hs); auto. eapply closed_weaken; [|done].
    apply existsb_eqb in Est. intros c' [->|?]%elem_of_cons; auto. }
  unfold mbind, res_bind. destruct (handleCommit s c) as [[s1 ps]| |] eqn:Eh; [|done..].
  intros Hrun Hs Hh Hd Hcl. assert (history head c) as Hc by (apply Hh; set_solver).
  destruct (handleCommit_spec head _ _ _ _ Eh Hs Hc) as (Hg & Hs1 & Hdn & Hsc & co & Hco & ->).
  pose proof Hg as ([_ _ Hlim _] & Hdep & _).
  destruct (Z.eqb_spec (scanDepth s1) (depthLimit s1)); [lia|].
  destruct (Nat.eqb_spec (size (expectedStageIDCommitList s1)) (size (reachedStageIDCommitList s1))).
  { injection Hrun as <- <-. by left. }
  apply (IH _ _ Hrun (sound_mark _ _ _ Hs1)).
  - intros c'. rewrite !elem_of_app. intros [[?|Hp]|?]; [apply Hh; set_solver| |apply Hh; set_solver].
    by eapply history_parent.
  - simpl. lia.
  - rewrite app_assoc. by eapply closed_mark.
Qed.

(** ** The end of the scan *)

Definition unresolved (head : string) : Prop := exists c, history head c /\ ~ resolves c.

(** A pass fails only on a commit that does not resolve. *)
Lemma scanIteration_fails head cur s next :
  (forall c, c ∈ next ++ cur -> history head c) ->
  match scanIteration s next cur with Ok _ => True | Err _ => unresolved head | Panic _ => False end.
Proof.
  revert s next. induction cur as [|c cur IH]; intros s next Hh; simpl; [done|].
  assert (forall c', c' ∈ next ++ cur -> history head c') as Hh' by (intros; apply Hh; set_solver).
  assert (history head c) as Hc by (apply Hh; set_solver).
  case_bool_decide; [by apply IH|]. destruct (isStopCommit s c); [by apply IH|].
  unfold mbind, res_bind. destruct (handleCommit s c) as [[s1 ps]|err|] eqn:Eh.
  - apply handleCommit_Ok in Eh as (co & Hco & -> & _).
    destruct (_ =? _)%Z; [by apply IH|]. destruct (size _ =? size _); [done|]. apply IH.
    intros c'. rewrite !elem_of_app. intros [[?|Hp]|?]; [apply Hh; set_solver| |apply Hh; set_solver].
    by eapply history_parent.
  - exists c. split; [done|]. unfold handleCommit in Eh. intros [co Hco]. by rewrite Hco in Eh.
  - unfold handleCommit in Eh. by destruct (LocalCommitObject c).
Qed.

Definition allowed (head : string) : gset string := {[head]} ∪ list_to_set History.

Lemma history_allowed head c : history head c -> c ∈ allowed head.
Proof.
  unfold allowed. induction 1 as [|c co p _ _ Hco Hp]; [set_solver|].
  apply elem_of_union_r, elem_of_list_to_set. by eapply History_parents.
Qed.

Lemma size_allowed head : size (allowed head) <= S (length History).
Proof.
  unfold allowed. rewrite size_union_alt, size_singleton.
  assert (size (list_to_set History ∖ {[head]} : gset string) <= length History); [|lia].
  etrans; [apply subseteq_size, (subseteq_difference_l _ _ (list_to_set History)); reflexivity|].
  apply size_list_to_set_le.
Qed.

Lemma sound_deeper head s : sound head s -> sound head (deeper s).
Proof. intros [? ?]. by split. Qed.

Lemma closed_deeper head s w : closed head s w -> closed head (deeper s) w.
Proof. intros [? ? ?]. by split. Qed.

(** Where as many stages are reached as are expected, all of them are. *)
Lemma full_all head s : sound head s -> full s -> all_reached s.
Proof.
  intros [Hs _] Hf k Hk. apply elem_of_dom. apply elem_of_dom in Hk.
  assert (dom (reachedStageIDCommitList s) ⊆ dom (expectedStageIDCommitList s)) as Hsub.
  { intros k' [l Hl]%elem_of_dom. destruct (Hs _ _ Hl) as (_ & exp & ? & _). apply elem_of_dom. eauto. }
  assert (dom (reachedStageIDCommitList s) = dom (expectedStageIDCommitList s)) as ->; [|done].
  apply set_eq, set_subseteq_antisymm; [done|]. destruct (decide (dom (expectedStageIDCommitList s)
    ⊆ dom (reachedStageIDCommitList s))) as [?|Hn]; [done|]. exfalso.
  assert (dom (reachedStageIDCommitList s) ⊂ dom (expectedStageIDCommitList s)) as Hlt%subset_size by done.
  rewrite !size_dom in Hlt. unfold full in Hf. lia.
Qed.

Definition reaches_more (s s' : commitHistoryScanner) : Prop :=
  forall k, is_Some (reachedStageIDCommitList s !! k) -> is_Some (reachedStageIDCommitList s' !! k).

Lemma all_reached_more s s' : same_job s s' -> reaches_more s s' -> all_reached s -> all_reached s'.
Proof. intros [He _ _ _] Hm Ha k Hk. rewrite He in Hk. auto. Qed.

(** What the scan of a history promises. *)
Definition scan_post (head : string) (s : commitHistoryScanner) (cur : list string)
  (r : res commitHistoryScanner) : Prop :=
  match r with
  | Ok s' => same_job s s' /\ reaches_more s s' /\ sound head s' /\
      ((depthLimit s < 0 <= scanDepth s)%Z -> closed head s cur -> all_reached s' \/ closed head s' [])
  | Err _ => unresolved head
  | Panic _ => False
  end.

(** Every pass that leaves commits for another one marks a commit of the history. *)
Lemma scanCommits_spec head fuel s cur :
  size (allowed head ∖ isAlreadyScannedCommit s) < fuel -> sound head s ->
  (forall c, c ∈ cur -> history head c) -> scan_post head s cur (scanCommits fuel s cur).
Proof.
  revert s cur. induction fuel as [|fuel IH]; intros s cur Hf Hs Hh; [lia|]. simpl.
  pose proof (scanIteration_fails head cur (deeper s) [] Hh) as Hfail.
  unfold mbind, res_bind. destruct (scanIteration (deeper s) [] cur) as [[s1 next]| |] eqn:E; [|done..].
  pose proof (scanIteration_spec head _ _ _ _ _ E (sound_deeper _ _ Hs) Hh) as [G1 G2 G3 G4 G5 G6].
  pose proof (scanIteration_closed head _ _ _ _ _ E (sound_deeper _ _ Hs) Hh) as Hcl. simpl in *.
  destruct G1 as (Hjob & Hdep & Hmore). assert (same_job s s1) as Hjob1 by (destruct Hjob; by split).
  assert ((depthLimit s < 0 <= scanDepth s)%Z -> closed head s cur -> all_reached s1 \/ closed head s1 next) as Hcl1.
  { intros Hlim Hc. destruct Hcl as [Hf1|?]; [lia| | |by right].
    - rewrite app_nil_r. by apply closed_deeper.
    - left. by eapply full_all. }
  destruct next as [|n next]; [done|]. destruct G6 as [?|(c & Hc & Hnew)]; [done|done|].
  assert (size (allowed head ∖ isAlreadyScannedCommit s1) < fuel) as Hf1.
  { assert (size (allowed head ∖ isAlreadyScannedCommit s1) < size (allowed head ∖ isAlreadyScannedCommit s));
      [|lia].
    apply subset_size. split; [set_solver|]. intros Hsub. specialize (Hsub c).
    apply G5 in Hc as Hh1. destruct Hh1 as [?|Hh1]; [done|]. apply history_allowed in Hh1. set_solver. }
  specialize (IH s1 (n :: next) Hf1 G2 G3). unfold scan_post in *.
  destruct (scanCommits fuel s1 (n :: next)) as [s2| |]; [|done..]. destruct IH as (J & M & S2 & C).
  split; [by etrans|]. split; [by intros k Hk; apply M, Hmore|]. split; [done|]. intros Hlim Hc0.
  destruct (Hcl1 Hlim Hc0) as [Ha|Hc1]; [left; by eapply all_reached_more|].
  apply C; [|done]. destruct Hjob1 as [_ _ -> _]. simpl in Hdep. lia.
Qed.

(** Without stop commits and limits, the whole history is handled. *)
Lemma closed_all head s :
  closed head s [] -> stopCommitList s = [] -> forall c, history head c -> c ∈ isAlreadyScannedCommit s.
Proof.
  intros [Hh Hd Hp] Hst. rewrite Hst in *. induction 1 as [|c co p _ IH Hco Hin].
  - destruct Hh as [?|[?%elem_of_nil|?%elem_of_nil]]; done.
  - destruct (Hp c co p IH Hco Hin) as [?|[?%elem_of_nil|?%elem_of_nil]]; done.
Qed.

Lemma scanCommitHistory_spec head s :
  reachedStageIDCommitList s = ∅ -> isAlreadyScannedCommit s = ∅ -> scanDepth s = 0%Z ->
  scan_post head s [head] (scanCommitHistory s head).
Proof.
  intros Hr Hsc Hd. apply scanCommits_spec.
  - rewrite Hsc, difference_empty_L. pose proof (size_allowed head). unfold scanFuel. lia.
  - split; rewrite Hr; [intros k l; by rewrite lookup_empty|done].
  - intros c ->%list_elem_of_singleton. constructor.
Qed.

(** ** The latest commits *)

(** The latest commit on which a stage was reached. *)
Definition latest (s : commitHistoryScanner) (stageID commit : string) (o : Commit) : Prop :=
  exists cl, reachedStageIDCommitList s !! stageID = Some cl /\
    latestCommit cl None = Ok (Some (commit, o)).

Lemma latestCommit_spec cl best :
  (forall c, c ∈ cl -> resolves c) ->
  (forall b bo, best = Some (b, bo) -> LocalCommitObject b = inl bo) ->
  exists r, latestCommit cl best = Ok r /\ (cl <> [] \/ best <> None -> r <> None) /\
    forall c o, r = Some (c, o) -> LocalCommitObject c = inl o /\ (c ∈ cl \/ best = Some (c, o)) /\
      (forall c' o', c' ∈ cl -> LocalCommitObject c' = inl o' -> (CWhen o' <= CWhen o)%Z) /\
      (forall b bo, best = Some (b, bo) -> (CWhen bo <= CWhen o)%Z).
Proof.
  revert best. induction cl as [|c cl IH]; intros best Hr Hb; simpl.
  { exists best. split; [done|]. split; [by intros [?|?]|]. intros c o ->. split; [by apply Hb|].
    split; [by right|]. split; [by intros ? ? ?%elem_of_nil|]. by intros ? ? [= <- <-]. }
  destruct (Hr c) as [co Hco]; [by left|]. rewrite Hco.
  set (best' := match best with
    | Some (_, lo) => if (CWhen lo <? CWhen co)%Z then Some (c, co) else best
    | None => Some (c, co)
    end).
  destruct (IH best') as (r & Hrun & Hsome & Hspec).
  { intros c' Hc'. apply Hr. by right. }
  { intros b bo. unfold best'. destruct best as [[b0 lo]|]; [destruct (_ <? _)%Z|]; intros [= <- <-]; eauto. }
  exists r. split; [done|]. split.
  { intros _. apply Hsome. right. unfold best'. destruct best as [[b0 lo]|]; [by destruct (_ <? _)%Z|done]. }
  intros c' o' ->. destruct (Hspec _ _ eq_refl) as (Ho & Hin & Hmax & Hbest).
  assert ((CWhen co <= CWhen o')%Z /\ forall b bo, best = Some (b, bo) -> (CWhen bo <= CWhen o')%Z) as [Hc Hb'].
  { unfold best' in Hbest. destruct best as [[b0 lo]|].
    - destruct (Z.ltb_spec (CWhen lo) (CWhen co)); (split; [|intros b bo [= <- <-]]);
        specialize (Hbest _ _ eq_refl); lia.
    - split; [by eapply Hbest|done]. }
  split; [done|]. split; [|split; [|done]].
  - destruct Hin as [?|Hin]; [left; by right|]. unfold best' in Hin.
    destruct best as [[b0 lo]|]; [destruct (_ <? _)%Z|]; try (by right); injection Hin as <- <-; left; by left.
  - intros c1 o1 [->|?]%elem_of_cons Ho1; [|by eapply Hmax]. congruence.
Qed.

(** The map of latest commits tells the latest commit of every stage. *)
Definition listed (m : LatestCommits) (stageID commit : string) (o : Commit) : Prop :=
  exists ids, m !! commit = Some (o, ids) /\ stageID ∈ ids.

Definition objects_ok (m : LatestCommits) : Prop :=
  forall c o ids, m !! c = Some (o, ids) -> LocalCommitObject c = inl o.

Lemma addLatest_spec m id c o :
  objects_ok m -> LocalCommitObject c = inl o ->
  objects_ok (addLatest id (Some (c, o)) m) /\
  forall id' c' o', listed (addLatest id (Some (c, o)) m) id' c' o' <->
    listed m id' c' o' \/ (id' = id /\ c' = c /\ o' = o).
Proof.
  intros Hm Ho. unfold addLatest, listed, objects_ok. cbn beta iota. split.
  - intros c' o' ids. destruct (decide (c' = c)) as [->|Hne].
    + rewrite lookup_insert_eq. by intros [= <- <-].
    + rewrite lookup_insert_ne by done. apply Hm.
  - intros id' c' o'. destruct (decide (c' = c)) as [->|Hne].
    + rewrite lookup_insert_eq. split.
      * intros (ids & [= <- <-] & [Hin|Hin]%elem_of_app).
        -- left. destruct (m !! c) as [[o1 ids]|] eqn:E; [|by apply elem_of_nil in Hin].
           apply Hm in E as Ho1. assert (o1 = o) as -> by congruence. eauto.
        -- apply list_elem_of_singleton in Hin as ->. by right.
      * intros [(ids & Hids & Hin)|(-> & _ & ->)].
        -- apply Hm in Hids as Ho1. assert (o' = o) as -> by congruence. rewrite Hids. simpl.
           eexists. split; [done|]. apply elem_of_app. by left.
        -- eexists. split; [done|]. apply elem_of_app. right. by left.
    + rewrite lookup_insert_ne by done. split; [by left|]. by intros [?|(_ & ? & _)].
Qed.

Lemma addLatestCommits_spec l m :
  (forall id cl, (id, cl) ∈ l -> forall c, c ∈ cl -> resolves c) -> objects_ok m ->
  exists m', addLatestCommits l m = Ok m' /\ objects_ok m' /\
    forall id c o, listed m' id c o <->
      listed m id c o \/ exists cl, (id, cl) ∈ l /\ latestCommit cl None = Ok (Some (c, o)).
Proof.
  revert m. induction l as [|[id cl] l IH]; intros m Hr Hm; simpl.
  { exists m. split; [done|]. split; [done|]. intros id c o. split; [by left|].
    by intros [?|(? & ?%elem_of_nil & _)]. }
  assert (forall id' cl', (id', cl') ∈ l -> forall c, c ∈ cl' -> resolves c) as Hr'.
  { intros id' cl' Hin. apply Hr with id'. by right. }
  destruct (latestCommit_spec cl None) as (r & Hrun & _ & Hspec).
  { intros c Hc. by apply (Hr id cl); [left|]. } { done. }
  rewrite Hrun. unfold mbind, res_bind. destruct r as [[c0 o0]|].
  - destruct (Hspec _ _ eq_refl) as (Ho & _). destruct (addLatest_spec m id c0 o0 Hm Ho) as [Hm1 Hl1].
    destruct (IH _ Hr' Hm1) as (m' & Hm' & Hok & Hlist). exists m'. split; [done|]. split; [done|].
    intros id' c o. rewrite Hlist, Hl1. setoid_rewrite elem_of_cons. split.
    + intros [[?|(-> & -> & ->)]|(cl' & ? & ?)]; eauto 6.
    + intros [?|(cl' & [[= -> ->]|?] & Hcl')]; eauto.
      rewrite Hrun in Hcl'. injection Hcl' as -> ->. auto.
  - destruct (IH _ Hr' Hm) as (m' & Hm' & Hok & Hlist). exists m'. split; [done|]. split; [done|].
    intros id' c o. rewrite Hlist. setoid_rewrite elem_of_cons. split.
    + intros [?|(cl' & ? & ?)]; eauto 6.
    + intros [?|(cl' & [[= -> ->]|?] & Hcl')]; eauto. by rewrite Hrun in Hcl'.
Qed.

Lemma latestCommitStageIDs_spec head tick s :
  sound head s ->
  exists m, latestCommitStageIDs tick s = Ok m /\ objects_ok m /\
    forall id c o, listed m id c o <-> latest s id c o.
Proof.
  intros [Hs _]. unfold latestCommitStageIDs.
  destruct (addLatestCommits_spec (shuffle tick (map_to_list (reachedStageIDCommitList s))) ∅)
    as (m & Hm & Hok & Hlist).
  - intros id cl. rewrite shuffle_perm, elem_of_map_to_list. intros Hcl c Hc.
    destruct (Hs _ _ Hcl) as (_ & exp & _ & Hall). by apply Hall.
  - intros c o ids. by rewrite lookup_empty.
  - exists m. split; [done|]. split; [done|]. intros id c o. rewrite Hlist. unfold latest.
    setoid_rewrite shuffle_perm. setoid_rewrite elem_of_map_to_list. split; [|by right].
    intros [(ids & Hids & _)|?]; [by rewrite lookup_empty in Hids|done].
Qed.

(** Every reached stage has a latest commit, which is in the history and expected. *)
Lemma latest_exists head s id :
  sound head s -> is_Some (reachedStageIDCommitList s !! id) -> exists c o, latest s id c o.
Proof.
  intros [Hs _] [cl Hcl]. destruct (Hs _ _ Hcl) as (Hne & exp & _ & Hall).
  destruct (latestCommit_spec cl None) as (r & Hrun & Hsome & _); [intros c Hc; by apply Hall|done|].
  destruct r as [[c o]|]; [|by destruct Hsome; auto]. exists c, o, cl. done.
Qed.

Lemma latest_sound head s id c o :
  sound head s -> latest s id c o -> LocalCommitObject c = inl o /\ history head c /\
    exists exp, expectedStageIDCommitList s !! id = Some exp /\ c ∈ exp.
Proof.
  intros [Hs _] (cl & Hcl & Hl). destruct (Hs _ _ Hcl) as (Hne & exp & Hexp & Hall).
  destruct (latestCommit_spec cl None) as (r & Hrun & _ & Hspec); [intros c' Hc; by apply Hall|done|].
  assert (r = Some (c, o)) as -> by congruence.
  destruct (Hspec _ _ eq_refl) as (Ho & [Hin|?] & _); [|done]. destruct (Hall _ Hin) as (? & ? & _).
  split; [done|]. split; [done|]. eauto.
Qed.

End facts.
End GitScanFacts.
