(* ===== verification/GitScanProps.v ===== *)
(** What a scan of the references returns: it ends, every stage it reaches has a hit on a commit
    of the history of a reference, and nothing that a reference without a limit leads to is
    missed. *)
From S2P Require Import Prelude Go GitRefs GitScan GitScanFacts.

Module GitScanResults.
Import MetaCleanup GitRefs GitScan GitScanFacts.

Abbreviation Latest := (string * (Commit * list string))%type.

Section results.
Context `{git : LocalGit, arrays : StringArrays, sorting : SortSlice, nondet : Nondet}.
Variable now : Z.

(** ** Hits *)

Lemma setHits_lookup hash hits ids k :
  setHits hash hits ids !! k = if decide (k ∈ ids) then Some [hash] else hits !! k.
Proof.
  unfold setHits. revert hits. induction ids as [|id ids IH]; intros hits.
  { case_decide as E; [by apply elem_of_nil in E|done]. }
  cbn [foldl]. rewrite IH. destruct (decide (k = id)) as [->|Hne].
  - rewrite lookup_insert_eq. rewrite (decide_True (P := id ∈ id :: ids)) by by left. by case_decide.
  - rewrite lookup_insert_ne by done. apply decide_ext. rewrite elem_of_cons. tauto.
Qed.

(** The stages and the hits of a list of latest commits agree. *)
Definition hits_of (L : list Latest) (hits : StageIDCommitList) : Prop :=
  (forall e id, e ∈ L -> id ∈ e.2.2 -> is_Some (hits !! id)) /\
  (forall id v, hits !! id = Some v -> exists e, e ∈ L /\ id ∈ e.2.2 /\ v = [CHash e.2.1]).

Lemma hits_of_nil : hits_of [] ∅.
Proof. split; [by intros ? ? ?%elem_of_nil|]. intros id v. by rewrite lookup_empty. Qed.

Lemma hits_of_snoc L e hits : hits_of L hits -> hits_of (L ++ [e]) (setHits (CHash e.2.1) hits e.2.2).
Proof.
  intros [H1 H2]. split.
  - intros e' id He Hid. rewrite setHits_lookup. case_decide as Hd; [by eexists|].
    apply elem_of_app in He as [He|He%list_elem_of_singleton]; [eauto|by subst].
  - intros id v. rewrite setHits_lookup. setoid_rewrite elem_of_app. setoid_rewrite list_elem_of_singleton.
    case_decide; [intros [= <-]; eauto 6|]. intros Hv. destruct (H2 _ _ Hv) as (e' & ? & ? & ?). eauto 6.
Qed.

Lemma hits_fold L L0 hits :
  hits_of L0 hits ->
  hits_of (L0 ++ L) (foldl (fun hits (e : Latest) => setHits (CHash e.2.1) hits e.2.2) hits L).
Proof.
  revert L0 hits. induction L as [|e L IH]; intros L0 hits H0; simpl; [by rewrite app_nil_r|].
  change (e :: L) with ([e] ++ L). rewrite (app_assoc L0 [e] L). by apply IH, hits_of_snoc.
Qed.

Lemma keepCommits_spec L :
  hits_of L (keepCommits L).2 /\ forall id, id ∈ (keepCommits L).1 <-> exists e, e ∈ L /\ id ∈ e.2.2.
Proof.
  unfold keepCommits. induction L as [|e L [IHh IHi]] using rev_ind.
  { split; [apply hits_of_nil|]. intros id. split; [by intros ?%elem_of_nil|].
    by intros (? & ?%elem_of_nil & _). }
  rewrite foldl_app. simpl. destruct (foldl _ _ L) as [ids hits]. simpl in *.
  split; [by apply hits_of_snoc|]. intros id. rewrite elem_of_app, IHi. setoid_rewrite elem_of_app.
  setoid_rewrite list_elem_of_singleton. split; [intros [(e' & ? & ?)|?]; eauto|].
  intros (e' & [?| ->] & ?); eauto.
Qed.

(** ** What a finished scan returns *)

Variables (head : string) (s : commitHistoryScanner).
Hypothesis Hs : sound head s.

(** The stages and the hits of a result: a hit is the latest commit of the stage. *)
Definition result_ok (r : Scan) : Prop :=
  (forall id, id ∈ r.1.1 <-> is_Some (r.2 !! id)) /\
  (forall id v, r.2 !! id = Some v -> exists c o, latest s id c o /\ v = [CHash o]).

Lemma reachedStageIDList_elem tick id :
  id ∈ reachedStageIDList tick s <-> is_Some (reachedStageIDCommitList s !! id).
Proof using Hs.
  unfold reachedStageIDList. rewrite list_elem_of_fmap. setoid_rewrite list_elem_of_filter.
  setoid_rewrite shuffle_perm. split.
  - intros ([k l] & -> & _ & Hin). apply elem_of_map_to_list in Hin. simpl. eauto.
  - intros [l Hl]. exists (id, l). split; [done|]. split; [by destruct (sound_reached _ _ Hs _ _ Hl)|].
    by apply elem_of_map_to_list.
Qed.

Lemma reachedStageIDList_length tick :
  length (reachedStageIDList tick s) = size (reachedStageIDCommitList s).
Proof using Hs.
  unfold reachedStageIDList. rewrite length_fmap. rewrite list_filter_all.
  - rewrite (Permutation_length (shuffle_perm _ _)). apply length_map_to_list.
  - intros [k l] Hi. rewrite shuffle_perm in Hi. apply elem_of_map_to_list in Hi. by destruct (sound_reached _ _ Hs _ _ Hi).
Qed.

(** The entries of a map of latest commits. *)
Lemma entry_latest m c o ids id :
  (forall id c o, listed m id c o <-> latest s id c o) ->
  (c, (o, ids)) ∈ map_to_list m -> id ∈ ids -> latest s id c o.
Proof using.
  intros Hm Hin Hid. apply elem_of_map_to_list in Hin. apply Hm. exists ids. done.
Qed.

Lemma result_of_spec tick :
  exists r, result_of tick s = Ok r /\ result_ok r /\ r.1.2 = stopCommitList s /\
    r.1.1 = reachedStageIDList tick s.
Proof using Hs.
  unfold result_of, stageIDHitCommitList.
  destruct (latestCommitStageIDs_spec head tick s Hs) as (m & -> & Hok & Hm).
  unfold mbind, res_bind. eexists. split; [done|]. split; [|done].
  pose proof (hits_fold (shuffle tick (map_to_list m)) [] ∅ hits_of_nil) as [H1 H2].
  rewrite app_nil_l in H1, H2. split; simpl.
  - intros id. rewrite reachedStageIDList_elem. split.
    + intros Hid. destruct (latest_exists head s id Hs Hid) as (c & o & Hl).
      apply Hm in Hl as (ids & Hids & Hin). apply (H1 (c, (o, ids))); [|done].
      rewrite shuffle_perm. by apply elem_of_map_to_list.
    + intros [v Hv]. destruct (H2 _ _ Hv) as ([c [o ids]] & Hin & Hid & _).
      rewrite shuffle_perm in Hin. destruct (entry_latest _ _ _ _ _ Hm Hin Hid) as (cl & ? & _). eauto.
  - intros id v Hv. destruct (H2 _ _ Hv) as ([c [o ids]] & Hin & Hid & ->).
    rewrite shuffle_perm in Hin. exists c, o. split; [by eapply entry_latest|done].
Qed.

(** A selection of the latest commits keeps [result_ok]. *)
Lemma keepCommits_ok m (L : list Latest) stop :
  (forall id c o, listed m id c o <-> latest s id c o) ->
  (forall e, e ∈ L -> e ∈ map_to_list m) ->
  result_ok ((keepCommits L).1, stop, (keepCommits L).2).
Proof using.
  intros Hm HL. destruct (keepCommits_spec L) as [[H1 H2] Hi]. split; simpl.
  - intros id. rewrite Hi. split; [intros (e & ? & ?); eauto|].
    intros [v Hv]. destruct (H2 _ _ Hv) as (e & ? & ? & _). eauto.
  - intros id v Hv. destruct (H2 _ _ Hv) as ([c [o ids]] & Hin & Hid & ->).
    exists c, o. split; [|done]. eapply entry_latest; [done|by apply HL|done].
Qed.

(** More stages were reached than the policy keeps. *)
Lemma handleExtra_spec tick :
  exists r m L, handleExtra now tick s = Ok r /\ result_ok r /\ r.1.2 = stopCommitList s /\
    L = sort_Slice newerCommit (shuffle tick (map_to_list m)) /\
    (forall id c o, listed m id c o <-> latest s id c o) /\
    (In (imagesCleanupKeepPolicy s) = None ->
      r = handleExtraStageIDsByLast s L).
Proof using Hs.
  unfold handleExtra. destruct (latestCommitStageIDs_spec head tick s Hs) as (m & -> & Hok & Hm).
  unfold mbind, res_bind. set (L := sort_Slice newerCommit (shuffle tick (map_to_list m))).
  assert (forall e, e ∈ L -> e ∈ map_to_list m) as HL.
  { intros e. unfold L. by rewrite sort_perm, shuffle_perm. }
  eexists _, m, L. split; [done|]. split; [|split; [|split; [done|]; split; [done|]; by intros ->]].
  - destruct (In (imagesCleanupKeepPolicy s)) as [inn|].
    + unfold handleExtraStageIDsByLastWithIn. set (kept := if bool_decide _ then _ else _).
      pose proof (keepCommits_ok m kept (stopCommitList s) Hm) as Hk.
      destruct (keepCommits kept) as [ids hits]. apply Hk. intros e He. apply HL.
      unfold kept in He. case_bool_decide.
      * apply list_elem_of_bind in He as (e' & He & Hin). apply list_elem_of_fmap in He as (? & -> & _).
        by eapply subseteq_take.
      * apply elem_of_app in He as [He|He]; apply list_elem_of_filter in He as [_ He]; [done|].
        by eapply subseteq_take.
    + unfold handleExtraStageIDsByLast.
      pose proof (keepCommits_ok m (take (Z.to_nat (Images_Last (imagesCleanupKeepPolicy s))) L)
        (stopCommitList s) Hm) as Hk.
      destruct (keepCommits _) as [ids hits]. apply Hk. intros e He. apply HL. by eapply subseteq_take.
  - destruct (In (imagesCleanupKeepPolicy s)).
    + unfold handleExtraStageIDsByLastWithIn. by destruct (keepCommits _).
    + unfold handleExtraStageIDsByLast. by destruct (keepCommits _).
Qed.

Lemma sound_add_stop c : sound head (add_stop c s).
Proof using Hs. destruct Hs. by split. Qed.

End results.

Section handled.
Context `{git : LocalGit, arrays : StringArrays, sorting : SortSlice, nondet : Nondet}.
Variable now : Z.

(** What the end of a scan returns: stop commits are added only where every expected stage is
    reached, and all reached stages are returned where the policy has no limit. *)
Record scan_result (s : commitHistoryScanner) (expected : StageIDCommitList) (r : Scan) : Prop := {
  scan_result_ok : result_ok s r;
  scan_result_stop : r.1.2 = stopCommitList s \/ forall id, is_Some (expected !! id) -> id ∈ r.1.1;
  scan_result_all id : (Images_Last (imagesCleanupKeepPolicy s) < 0)%Z ->
    is_Some (reachedStageIDCommitList s !! id) -> id ∈ r.1.1;
}.

Lemma result_of_result head s tick expected :
  sound head s -> exists r, result_of tick s = Ok r /\ scan_result s expected r /\
    r.1.1 = reachedStageIDList tick s.
Proof.
  intros Hs. destruct (result_of_spec head s Hs tick) as (r & Hr & Hok & Hstop & Hids).
  exists r. split; [done|]. split; [|done]. split; [done|by left|].
  intros id _ Hid. rewrite Hids. by apply (reachedStageIDList_elem head).
Qed.

Lemma handleStop_spec head s tick ref :
  sound head s -> depthLimit s <> 0%Z -> expectedStageIDCommitList s <> ∅ ->
  exists r, handleStopCommitList tick s ref = Ok r /\ scan_result s (expectedStageIDCommitList s) r.
Proof.
  intros Hs Hd Hne. unfold handleStopCommitList. apply Z.eqb_neq in Hd. rewrite Hd. cbn [negb].
  rewrite (reachedStageIDList_length head s Hs).
  destruct (Nat.eqb_spec (size (reachedStageIDCommitList s)) (size (expectedStageIDCommitList s))) as [E|E].
  - assert (reachedCommitList s <> []) as Hlist.
    { apply (sound_list _ _ Hs). intros Hempty. apply Hne, map_size_empty_inv. rewrite <-E, Hempty.
      apply map_size_empty. }
    destruct (List.rev (reachedCommitList s)) as [|c l] eqn:Erev.
    { exfalso. apply Hlist. rewrite <-(List.rev_involutive (reachedCommitList s)), Erev. done. }
    unfold mbind, res_bind.
    destruct (result_of_spec head (add_stop c s) (sound_add_stop head s Hs c) tick)
      as (r & Hr & Hok & Hstop & Hids).
    exists r. split; [done|]. assert (forall id, is_Some (reachedStageIDCommitList s !! id) -> id ∈ r.1.1) as Hall.
    { intros id Hid. rewrite Hids. by apply (reachedStageIDList_elem head _ (sound_add_stop head s Hs c)). }
    split; [done| |by auto]. right. intros id Hid. apply Hall. by apply (full_all head).
  - unfold mbind, res_bind. destruct (result_of_result head s tick (expectedStageIDCommitList s) Hs)
      as (r & Hr & Hres & _). eauto.
Qed.

Lemma handleResult_spec head s tick ref expected :
  sound head s -> depthLimit s <> 0%Z -> expectedStageIDCommitList s <> ∅ ->
  exists r, handleResult now tick ref expected (expectedStageIDCommitList s) s = Ok r /\
    scan_result s expected r.
Proof.
  intros Hs Hd Hne. unfold handleResult. set (last := Images_Last (imagesCleanupKeepPolicy s)).
  destruct (result_of_result head s tick expected Hs) as (r & Hr & Hres & _).
  destruct ((0 <? last)%Z && (_ =? last)%Z); [eauto|].
  destruct ((0 <? last)%Z && (last <? _)%Z) eqn:E.
  { destruct (handleExtra_spec now head s Hs tick) as (r' & m & L & Hr' & Hok & Hstop & _).
    exists r'. split; [done|]. split; [done|by left|]. apply andb_true_iff in E as [E%Z.ltb_lt _].
    fold last. intros id Hl. lia. }
  case_bool_decide as He; cbn [negb]; [|eauto]. rewrite He. by apply (handleStop_spec head).
Qed.
End handled.

End GitScanResults.

Module GitScanProps.
Import MetaCleanup GitRefs GitScan GitScanFacts GitScanResults.

Section props.
Context `{git : LocalGit, arrays : StringArrays, sorting : SortSlice, nondet : Nondet}.
Variable now : Z.

Definition resolved_expected (expected : StageIDCommitList) : Prop :=
  forall id l c, expected !! id = Some l -> c ∈ l -> resolves c.

(** The policy keeps every image of the reference. *)
Definition unlimited (policy : Limit) : Prop :=
  (Images_Last policy < 0)%Z /\ (In policy = None \/ Images_Operator policy <> AndOperator).

Definition head_of (ref : ReferenceToScan) : string := CHash (HeadCommit ref).

(** ** The expected stages of a reference *)

Lemma commitsWithin_spec inn l :
  (forall c, c ∈ l -> resolves c) -> exists l', commitsWithin now inn l = Ok l' /\ l' ⊆ l.
Proof.
  induction l as [|c l IH]; intros Hr; simpl; [by exists []|].
  destruct (Hr c) as [o ->]; [by left|]. destruct IH as (l' & -> & Hsub).
  { intros c' Hc'. apply Hr. by right. }
  unfold mbind, res_bind. eexists. split; [done|]. destruct (_ <? _)%Z; set_solver.
Qed.

Definition part_of (e expected : StageIDCommitList) : Prop :=
  forall id l, e !! id = Some l -> exists exp, expected !! id = Some exp /\ l ⊆ exp.

Lemma applyIn_spec inn expected l policy :
  resolved_expected expected -> (forall id cl, (id, cl) ∈ l -> expected !! id = Some cl) ->
  part_of policy expected -> exists e, applyIn now inn l policy = Ok e /\ part_of e expected.
Proof.
  intros Hr. revert policy. induction l as [|[id cl] l IH]; intros policy Hl Hp; simpl; [eauto|].
  assert (expected !! id = Some cl) as Hid by (apply Hl; by left).
  destruct (commitsWithin_spec inn cl) as (l' & -> & Hsub); [intros c Hc; by eapply Hr|].
  unfold mbind, res_bind. apply IH; [intros id' cl' Hin; apply Hl; by right|].
  destruct l' as [|c l']; [done|]. intros id' l0. destruct (decide (id' = id)) as [->|Hne].
  - rewrite lookup_insert_eq. intros [= <-]. eauto.
  - rewrite lookup_insert_ne by done. apply Hp.
Qed.

Lemma refExpected_spec policy expected :
  resolved_expected expected ->
  exists e, refExpected now policy expected = Ok e /\ part_of e expected /\
    (unlimited policy -> e = expected).
Proof.
  intros Hr. assert (part_of expected expected) as Hself by (intros id l Hl; eauto). unfold refExpected, unlimited.
  destruct (Z.eqb_spec (Images_Last policy) 0).
  { exists ∅. split; [done|]. split; [intros id l; by rewrite lookup_empty|lia]. }
  destruct (In policy) as [inn|] eqn:Ein; cbn [bool_decide negb andb];
    [|rewrite bool_decide_true by done; cbn [negb andb]; eauto].
  rewrite bool_decide_false by done. cbn [negb andb]. case_bool_decide as Hop; [|eauto].
  unfold applyImagesCleanupInPolicy.
  destruct (applyIn_spec inn expected (map_to_list expected) ∅ Hr) as (e & He & Hpart).
  - intros id cl. by rewrite elem_of_map_to_list.
  - intros id l. by rewrite lookup_empty.
  - exists e. split; [done|]. split; [done|]. intros (_ & [?|?]); done.
Qed.

(** ** A reference *)

(** Where a hit of a stage comes from. *)
Definition hit_from (ref : ReferenceToScan) (expected : StageIDCommitList) (id hash : string) : Prop :=
  exists c o exp, LocalCommitObject c = inl o /\ hash = CHash o /\ history (head_of ref) c /\
    expected !! id = Some exp /\ c ∈ exp.

(** The reference leads to a commit on which the stage is expected. *)
Definition leads_to (ref : ReferenceToScan) (expected : StageIDCommitList) (id : string) : Prop :=
  exists exp c, expected !! id = Some exp /\ c ∈ exp /\ history (head_of ref) c.

Record ref_scan (ref : ReferenceToScan) (policy : Limit) (expected : StageIDCommitList)
  (stop : list string) (r : Scan) : Prop := {
  ref_scan_hits id : id ∈ r.1.1 <-> is_Some (r.2 !! id);
  ref_scan_from id v h : r.2 !! id = Some v -> h ∈ v -> hit_from ref expected id h;
  ref_scan_stop : r.1.2 = stop \/ forall id, is_Some (expected !! id) -> id ∈ r.1.1;
  ref_scan_all id : (scanDepthLimit ref < 0)%Z -> unlimited policy -> stop = [] ->
    leads_to ref expected id -> id ∈ r.1.1;
}.

Lemma empty_scan ref policy expected stop e :
  part_of e expected -> (unlimited policy -> e = expected) -> e = ∅ ->
  ref_scan ref policy expected stop ([], stop, ∅).
Proof.
  intros Hp Hu ->. split; simpl.
  - intros id. rewrite lookup_empty. split; [by intros ?%elem_of_nil|by intros [? ?]].
  - intros id v h. by rewrite lookup_empty.
  - by left.
  - intros id _ Hun _ (exp & c & Hexp & _). rewrite <-(Hu Hun), lookup_empty in Hexp. done.
Qed.

Definition start (e : StageIDCommitList) (stop : list string) (ref : ReferenceToScan) (policy : Limit) :=
  mkScanner e ∅ [] stop ∅ 0 (scanDepthLimit ref) policy.

Lemma full_scan ref policy expected stop e s r :
  part_of e expected -> (unlimited policy -> e = expected) ->
  same_job (start e stop ref policy) s -> sound (head_of ref) s ->
  ((scanDepthLimit ref < 0 <= 0)%Z -> closed (head_of ref) (start e stop ref policy) [head_of ref] ->
    all_reached s \/ closed (head_of ref) s []) ->
  scan_result s expected r -> ref_scan ref policy expected stop r.
Proof.
  intros Hp Hu [Je Jst _ Jp] Hs Hend [[Rids Rhits] Rstop Rall]. simpl in *. split; [done| |by rewrite <-Jst|].
  - intros id v h Hv Hh. destruct (Rhits _ _ Hv) as (c & o & Hl & ->).
    apply list_elem_of_singleton in Hh as ->.
    destruct (latest_sound _ _ _ _ _ Hs Hl) as (Ho & Hc & l & Hle & Hin). rewrite Je in Hle.
    destruct (Hp _ _ Hle) as (exp & Hexp & Hsub). exists c, o, exp. repeat split; auto.
  - intros id Hlim Hun Hnil (exp & c & Hexp & Hin & Hc). apply Rall; [rewrite Jp; by destruct Hun|].
    assert (expectedStageIDCommitList s !! id = Some exp) as Hse by (by rewrite Je, (Hu Hun)).
    destruct Hend as [Ha|Hcl]; [lia| |by apply Ha; rewrite Hse|].
    + split; simpl; [right; right; by left|by intros ? ?%elem_of_empty|by intros ? ? ? ?%elem_of_empty].
    + eapply (closed_handled _ _ _ Hcl); [|done|done]. by apply (closed_all (head_of ref)); [|congruence|].
Qed.

Lemma scanReferenceHistory_spec tick ref policy expected stop :
  resolved_expected expected -> scanDepthLimit ref <> 0%Z ->
  match scanReferenceHistory now tick ref policy expected stop with
  | Ok r => ref_scan ref policy expected stop r
  | Err _ => unresolved (head_of ref)
  | Panic _ => False
  end.
Proof.
  intros Hr Hd. unfold scanReferenceHistory.
  destruct (refExpected_spec policy expected Hr) as (e & -> & Hp & Hu). unfold mbind at 1, res_bind at 1.
  case_bool_decide as He; [by eapply empty_scan|]. fold (start e stop ref policy) (head_of ref).
  pose proof (scanCommitHistory_spec (head_of ref) (start e stop ref policy) eq_refl eq_refl eq_refl) as Hpost.
  destruct (scanCommitHistory (start e stop ref policy) (head_of ref)) as [s|err|]; simpl; [|done..].
  destruct Hpost as (J & _ & Hs & Hend). pose proof J as [Je _ Jd _]. simpl in *.
  destruct (handleResult_spec now (head_of ref) s tick ref expected Hs) as (r & Hrun & Hres);
    [by rewrite Jd|by rewrite Je|]. rewrite Je in Hrun. rewrite Hrun. by eapply full_scan.
Qed.

(** ** All references *)

Lemma mergeHits_lookup hits refHits k :
  foldl mergeHits hits (map_to_list refHits) !! k =
  match refHits !! k with
  | Some v => Some (match hits !! k with None => v | Some v0 => AddNewStringsToStringArray v0 v end)
  | None => hits !! k
  end.
Proof.
  rewrite (foldl_keywise _ (fun v o => Some (match o with None => v | Some v0 => AddNewStringsToStringArray v0 v end)));
    [done|..].
  - intros m e. unfold mergeHits. by rewrite lookup_insert_eq.
  - intros m e k' Hne. unfold mergeHits. by rewrite lookup_insert_ne.
Qed.

(** What is known after the scan of some references. *)
Record scanned (refs : list (ReferenceToScan * Limit)) (expected : StageIDCommitList) (acc : Scan) : Prop := {
  scanned_hits id : id ∈ acc.1.1 <-> is_Some (acc.2 !! id);
  scanned_from id v h : acc.2 !! id = Some v -> h ∈ v ->
    exists r, r ∈ refs /\ hit_from r.1 expected id h;
  scanned_stop : acc.1.2 <> [] -> forall id, is_Some (expected !! id) -> id ∈ acc.1.1;
  scanned_all r id : r ∈ refs -> (scanDepthLimit r.1 < 0)%Z -> unlimited r.2 ->
    leads_to r.1 expected id -> id ∈ acc.1.1;
}.

Lemma scanned_nil expected : scanned [] expected ([], [], ∅).
Proof.
  split; simpl; [|intros id v h; by rewrite lookup_empty|done|by intros ? ? ?%elem_of_nil].
  intros id. rewrite lookup_empty. split; [by intros ?%elem_of_nil|by intros [? ?]].
Qed.

Lemma leads_expected ref expected id : leads_to ref expected id -> is_Some (expected !! id).
Proof. intros (exp & c & -> & _). eauto. Qed.

Lemma scanned_merge refs expected acc ref policy r :
  scanned refs expected acc -> ref_scan ref policy expected acc.1.2 r ->
  scanned (refs ++ [(ref, policy)]) expected (mergeScan acc r).
Proof.
  destruct acc as [[reached stop] hits], r as [[refReached refStop] refHits].
  intros [A1 A2 A3 A4] [R1 R2 R3 R4]. simpl in *. split; simpl.
  - intros id. rewrite AddNewStrings_elem, A1, R1, mergeHits_lookup.
    destruct (refHits !! id); [split; [by eexists|by right; eexists]|].
    split; [by intros [?|[? ?]]|by left].
  - intros id v h. rewrite mergeHits_lookup. setoid_rewrite elem_of_app. setoid_rewrite list_elem_of_singleton.
    destruct (refHits !! id) as [v1|] eqn:E1.
    + intros [= <-] Hh. assert (h ∈ v1 \/ exists v0, hits !! id = Some v0 /\ h ∈ v0) as [Hin|(v0 & E0 & Hin)].
      { destruct (hits !! id) as [v0|]; [|auto]. apply AddNewStrings_elem in Hh as [?|?]; eauto. }
      * exists (ref, policy). split; [by right|]. eauto.
      * destruct (A2 _ _ _ E0 Hin) as (r & ? & ?). eauto.
    + intros Hv Hh. destruct (A2 _ _ _ Hv Hh) as (r & ? & ?). eauto.
  - intros Hne id Hid. apply AddNewStrings_elem. destruct R3 as [->|Hall]; [|auto].
    left. apply A3; [|done]. intros Hnil. subst stop. destruct (AddNewStringsToStringArray [] []) as [|x l] eqn:E; [done|].
    assert (x ∈ x :: l) as Hx by by left. rewrite <-E in Hx.
    by apply AddNewStrings_elem in Hx as [?%elem_of_nil|?%elem_of_nil].
  - intros r id Hr Hlim Hun Hl. apply AddNewStrings_elem. apply elem_of_app in Hr as [Hr|Hr]; [eauto|].
    apply list_elem_of_singleton in Hr as ->. simpl in *. destruct stop as [|c stop].
    + right. auto.
    + left. apply A3; [done|]. by eapply leads_expected.
Qed.

Lemma scanReferences_spec tick refs refs0 expected acc :
  resolved_expected expected -> (forall r, r ∈ refs -> scanDepthLimit r.1 <> 0%Z) ->
  scanned refs0 expected acc ->
  match scanReferences now tick refs expected acc with
  | Ok acc' => scanned (refs0 ++ refs) expected acc'
  | Err _ => exists r, r ∈ refs /\ unresolved (head_of r.1)
  | Panic _ => False
  end.
Proof.
  intros Hr. revert tick refs0 acc. induction refs as [|[ref policy] refs IH]; intros tick refs0 acc Hd Hacc; simpl.
  { by rewrite app_nil_r. }
  pose proof (scanReferenceHistory_spec tick ref policy expected acc.1.2 Hr (Hd (ref, policy) ltac:(by left))) as Hs.
  destruct (scanReferenceHistory now tick ref policy expected acc.1.2) as [r|err|]; simpl; [|exists (ref, policy); split; [by left|done]|done].
  specialize (IH (S tick) (refs0 ++ [(ref, policy)]) (mergeScan acc r)). rewrite <-(app_assoc refs0) in IH.
  specialize (IH (fun r Hin => Hd r ltac:(by right)) (scanned_merge _ _ _ _ _ _ Hacc Hs)).
  simpl in IH. destruct (scanReferences _ _ _ _ _); [done| |done].
  destruct IH as (r' & ? & ?). exists r'. split; [by right|done].
Qed.

Lemma ScanReferencesHistory_spec refs expected :
  resolved_expected expected -> (forall r, r ∈ refs -> scanDepthLimit r.1 <> 0%Z) ->
  match ScanReferencesHistory now refs expected with
  | Ok r => exists stop, scanned (List.rev refs) expected (r.1, stop, r.2)
  | Err _ => exists r, r ∈ refs /\ unresolved (head_of r.1)
  | Panic _ => False
  end.
Proof.
  intros Hr Hd. unfold ScanReferencesHistory.
  assert (forall r, r ∈ List.rev refs <-> r ∈ refs) as Hrev.
  { intros r. by rewrite !list_elem_of_In, <-List.in_rev. }
  pose proof (scanReferences_spec 0 (List.rev refs) [] expected ([], [], ∅) Hr) as Hs.
  unfold mbind, res_bind. destruct (scanReferences now 0 (List.rev refs) expected ([], [], ∅)) as [[[reached stop] hits]|err|].
  - exists stop. apply Hs; [intros r; rewrite Hrev; apply Hd|apply scanned_nil].
  - destruct Hs as (r & Hin & ?); [intros r; rewrite Hrev; apply Hd|apply scanned_nil|].
    rewrite Hrev in Hin. eauto.
  - apply Hs; [intros r; rewrite Hrev; apply Hd|apply scanned_nil].
Qed.

(** C35: where every commit on which a stage is expected exists, the scan of the references
    ends without a panic, whatever the order of the maps, the clock and the depth of the
    history; and where the whole history of every reference is there, it returns no error. *)
Theorem scan_returns refs expected :
  resolved_expected expected -> (forall r, r ∈ refs -> scanDepthLimit r.1 <> 0%Z) ->
  (forall p, ScanReferencesHistory now refs expected <> Panic p) /\
  ((forall r c, r ∈ refs -> history (head_of r.1) c -> resolves c) ->
    exists result, ScanReferencesHistory now refs expected = Ok result).
Proof.
  intros Hr Hd. pose proof (ScanReferencesHistory_spec refs expected Hr Hd) as Hs.
  destruct (ScanReferencesHistory now refs expected) as [r|err|]; [split; [done|eauto]| |done].
  split; [done|]. intros Hall. destruct Hs as (r & Hin & c & Hc & Hno). destruct Hno. by eapply Hall.
Qed.

(** C34: the scan reaches only what it may: a stage is reached exactly if it has hits, and every
    hit of a stage is a commit on which the stage is expected and to whose commit the history
    of some scanned reference leads. *)
Theorem scan_sound refs expected reached hits :
  resolved_expected expected -> (forall r, r ∈ refs -> scanDepthLimit r.1 <> 0%Z) ->
  ScanReferencesHistory now refs expected = Ok (reached, hits) ->
  (forall id, id ∈ reached <-> is_Some (hits !! id)) /\
  forall id v hash, hits !! id = Some v -> hash ∈ v ->
    exists r, r ∈ refs /\ hit_from r.1 expected id hash.
Proof.
  intros Hr Hd Hrun. pose proof (ScanReferencesHistory_spec refs expected Hr Hd) as Hs. rewrite Hrun in Hs.
  destruct Hs as (stop & [H1 H2 _ _]). split; [done|]. intros id v hash Hv Hh.
  destruct (H2 _ _ _ Hv Hh) as (r & Hin & ?). exists r. split; [|done].
  by rewrite list_elem_of_In, List.in_rev, <-list_elem_of_In.
Qed.

(** C33: nothing is missed: a stage that is expected on a commit to which the history of a branch
    leads is reached, if the policy of the branch keeps all its images. The scans of the other
    references, and the commits at which they stop it, hide no stage. *)
Theorem scan_complete refs expected reached hits ref policy id :
  resolved_expected expected -> (forall r, r ∈ refs -> scanDepthLimit r.1 <> 0%Z) ->
  ScanReferencesHistory now refs expected = Ok (reached, hits) ->
  (ref, policy) ∈ refs -> (scanDepthLimit ref < 0)%Z -> unlimited policy ->
  leads_to ref expected id -> id ∈ reached.
Proof.
  intros Hr Hd Hrun Hin Hlim Hun Hl. pose proof (ScanReferencesHistory_spec refs expected Hr Hd) as Hs.
  rewrite Hrun in Hs. destruct Hs as (stop & [_ _ _ H4]). eapply (H4 (ref, policy)); [|done..].
  by rewrite list_elem_of_In, <-List.in_rev, <-list_elem_of_In.
Qed.

(** ** The last images *)

(** The commits of the hits. *)
Definition hit_commits (hits : StageIDCommitList) : gset string :=
  list_to_set (concat (map_to_list hits).*2).

Lemma hit_commits_elem hits c : c ∈ hit_commits hits <-> exists id v, hits !! id = Some v /\ c ∈ v.
Proof.
  unfold hit_commits. rewrite elem_of_list_to_set, list_elem_of_In, List.in_concat. split.
  - intros (v & Hv & Hc). apply list_elem_of_In, list_elem_of_fmap in Hv as ([id v'] & -> & Hin).
    apply elem_of_map_to_list in Hin. exists id, v'. split; [done|]. by apply list_elem_of_In.
  - intros (id & v & Hv & Hc). exists v. split; [|by apply list_elem_of_In]. apply list_elem_of_In, list_elem_of_fmap.
    exists (id, v). split; [done|]. by apply elem_of_map_to_list.
Qed.

(** As many commits as stages, where every stage has one hit. *)
Lemma hit_commits_size s r : result_ok s r -> size (hit_commits r.2) <= length r.1.1.
Proof.
  intros [Hids Hhits].
  assert (hit_commits r.2 ⊆ list_to_set ((fun id => from_option (fun v => hd "" v) "" (r.2 !! id)) <$> r.1.1)) as Hsub.
  { intros c (id & v & Hv & Hc)%hit_commits_elem. apply elem_of_list_to_set, list_elem_of_fmap.
    exists id. destruct (Hhits _ _ Hv) as (c0 & o & _ & ->). apply list_elem_of_singleton in Hc as ->.
    rewrite Hv. split; [done|]. apply Hids. by eexists. }
  etrans; [by apply subseteq_size|]. etrans; [apply size_list_to_set_le|]. by rewrite length_fmap.
Qed.

Lemma kept_commits_size (L : list Latest) : size (hit_commits (keepCommits L).2) <= length L.
Proof.
  destruct (keepCommits_spec L) as [[_ H2] _].
  assert (hit_commits (keepCommits L).2 ⊆ list_to_set ((fun e : Latest => CHash e.2.1) <$> L)) as Hsub.
  { intros c (id & v & Hv & Hc)%hit_commits_elem. apply elem_of_list_to_set, list_elem_of_fmap.
    destruct (H2 _ _ Hv) as (e & He & _ & ->). apply list_elem_of_singleton in Hc as ->. eauto. }
  etrans; [by apply subseteq_size|]. etrans; [apply size_list_to_set_le|]. by rewrite length_fmap.
Qed.

(** A prefix of the sorted commits has every newer commit. *)
Lemma take_newest n (L : list Latest) e e' :
  e ∈ take n (sort_Slice newerCommit L) -> e' ∈ L -> (CWhen e.2.1 < CWhen e'.2.1)%Z ->
  e' ∈ take n (sort_Slice newerCommit L).
Proof.
  intros He He' Hlt. rewrite <-(sort_perm newerCommit L) in He'.
  assert (StronglySorted (fun x y => newerCommit y x = false) (sort_Slice newerCommit L)) as Hs.
  { apply sort_sorted; unfold newerCommit.
    - intros x y. rewrite Z.ltb_lt, Z.ltb_ge. lia.
    - intros x y z. rewrite !Z.ltb_ge. lia. }
  rewrite <-(take_drop n (sort_Slice newerCommit L)) in Hs, He'.
  apply elem_of_app in He' as [?|He']; [done|]. apply StronglySorted_app in Hs as (Hs & _ & _).
  specialize (Hs _ _ He He'). unfold newerCommit in Hs. apply Z.ltb_ge in Hs. lia.
Qed.

(** At most [n] commits are kept, and with each the stages of every newer commit. *)
Definition keeps_last (n : nat) (s : commitHistoryScanner) (r : Scan) : Prop :=
  size (hit_commits r.2) <= n /\
  forall id c o id' c' o', latest s id c o -> latest s id' c' o' -> id' ∈ r.1.1 ->
    (CWhen o' < CWhen o)%Z -> id ∈ r.1.1.

Lemma result_keeps_last head s s' tick q n :
  sound head s' -> reachedStageIDCommitList s' = reachedStageIDCommitList s ->
  result_of tick s' = Ok q -> length (reachedStageIDList tick s) <= n -> keeps_last n s q.
Proof.
  intros Hs Hreach Hq Hlen. destruct (result_of_spec head s' Hs tick) as (q' & Hq' & Hok & _ & Hids).
  assert (q' = q) as -> by congruence. split.
  - etrans; [by eapply hit_commits_size|]. rewrite Hids. unfold reachedStageIDList in *. by rewrite Hreach.
  - intros id c o ? ? ? (cl & Hcl & _) _ _ _. rewrite Hids. apply (reachedStageIDList_elem head); [done|].
    rewrite Hreach. eauto.
Qed.

Lemma stop_keeps_last head s tick ref r n :
  sound head s -> handleStopCommitList tick s ref = Ok r ->
  length (reachedStageIDList tick s) <= n -> keeps_last n s r.
Proof.
  intros Hs Hr Hlen. assert (exists s', sound head s' /\ reachedStageIDCommitList s' = reachedStageIDCommitList s
    /\ result_of tick s' = Ok r) as (s' & ? & ? & ?); [|by eapply result_keeps_last].
  unfold handleStopCommitList in Hr. pose proof (fun c => sound_add_stop head s Hs c).
  destruct (negb (depthLimit s =? 0)%Z), (_ =? _), (List.rev (reachedCommitList s)) as [|c l]; simpl in Hr;
    try done; eauto.
Qed.

Lemma extra_keeps_last head s tick r :
  sound head s -> In (imagesCleanupKeepPolicy s) = None -> handleExtra now tick s = Ok r ->
  keeps_last (Z.to_nat (Images_Last (imagesCleanupKeepPolicy s))) s r.
Proof.
  intros Hs Hin Hr. set (n := Z.to_nat _).
  destruct (handleExtra_spec now head s Hs tick) as (r' & m & L & Hr' & _ & _ & -> & Hm & Hform).
  assert (r' = r) as -> by congruence. rewrite (Hform Hin). clear Hform Hr' Hr.
  unfold handleExtraStageIDsByLast. fold n. set (sorted := sort_Slice _ _).
  destruct (keepCommits_spec (take n sorted)) as [_ Hk]. pose proof (kept_commits_size (take n sorted)) as Hsize.
  rewrite length_take in Hsize. destruct (keepCommits (take n sorted)) as [ids hits]. simpl in *. split; [simpl; lia|].
  simpl. intros id c o id' c' o' Hl Hl' Hid' Hlt. apply Hk in Hid' as ([c1 [o1 ids1]] & He1 & Hin1).
  apply Hk. apply Hm in Hl as (idsl & Hidsl & Hinl). exists (c, (o, idsl)). split; [|done].
  assert (latest s id' c1 o1) as Hl1.
  { eapply entry_latest; [done| |done]. apply subseteq_take in He1. unfold sorted in He1.
    by rewrite sort_perm, shuffle_perm in He1. }
  destruct Hl' as (cl & Hcl & Hlc), Hl1 as (cl1 & Hcl1 & Hlc1).
  assert (cl1 = cl) as -> by congruence. assert (o1 = o') as -> by congruence.
  apply (take_newest _ _ (c1, (o', ids1))); [done| |done].
  rewrite shuffle_perm. by apply elem_of_map_to_list.
Qed.

(** With [last] images for a reference, a scan keeps the stages of at most that many
    commits, the newest ones of those it reached: with the stage of a commit it keeps the stages
    of every newer commit. *)
Theorem scan_keeps_last tick ref policy expected stop e s r :
  In policy = None -> (0 < Images_Last policy)%Z ->
  refExpected now policy expected = Ok e -> e <> ∅ ->
  scanCommitHistory (start e stop ref policy) (head_of ref) = Ok s ->
  scanReferenceHistory now tick ref policy expected stop = Ok r ->
  keeps_last (Z.to_nat (Images_Last policy)) s r.
Proof.
  intros Hin Hlast He Hne Hscan Hrun. unfold scanReferenceHistory in Hrun. rewrite He in Hrun.
  unfold mbind at 1, res_bind at 1 in Hrun. rewrite bool_decide_false in Hrun by done.
  fold (start e stop ref policy) (head_of ref) in Hrun. rewrite Hscan in Hrun. simpl in Hrun.
  pose proof (scanCommitHistory_spec (head_of ref) (start e stop ref policy) eq_refl eq_refl eq_refl) as Hpost.
  rewrite Hscan in Hpost. destruct Hpost as ([Je _ Jd Jp] & _ & Hs & _). simpl in Jp.
  unfold handleResult in Hrun. rewrite Jp, (proj2 (Z.ltb_lt _ _) Hlast) in Hrun. cbn [andb] in Hrun.
  destruct (Z.eqb_spec (Z.of_nat (length (reachedStageIDList tick s))) (Images_Last policy)) as [E|E].
  { eapply result_keeps_last; [done|done|done|lia]. }
  destruct (Z.ltb_spec (Images_Last policy) (Z.of_nat (length (reachedStageIDList tick s)))) as [El|El].
  { rewrite <-Jp. apply (extra_keeps_last (head_of ref) s tick r Hs); [by rewrite Jp|done]. }
  destruct (negb _); [eapply result_keeps_last|eapply stop_keeps_last]; done || lia.
Qed.

End props.
End GitScanProps.

(** * The cache of commit objects *)

Module CommitCacheProps.
Import RepoWithCache.

(** What is done with a cache between two lookups. *)
Inductive op := Lookup (hash : string) | Clear.

Definition do_op (repo : string -> Commit + error) (cache : CommitCache) (o : op) : CommitCache :=
  match o with
  | Lookup hash => (CommitObject repo hash cache).2
  | Clear => ClearCache cache
  end.

(** The lookup without a cache. *)
Definition direct (repo : string -> Commit + error) (hash : string) : res Commit :=
  match repo hash with
  | inl c => Ok c
  | inr err => Err (Wrapf "unable to get commit object for %s: %w" [FS hash] err)
  end.

(** What is in the cache is what the repository has. *)
Definition coherent (repo : string -> Commit + error) (cache : CommitCache) : Prop :=
  forall hash c, cache !! hash = Some c -> repo hash = inl c.

Lemma do_op_coherent repo cache o : coherent repo cache -> coherent repo (do_op repo cache o).
Proof.
  intros Hc. destruct o as [hash|]; simpl; [|done].
  unfold CommitObject, getFromCache. destruct (cache !! hash) eqn:E; [done|].
  destruct (repo hash) as [c|err] eqn:Er; [|done]. intros k c'. simpl. unfold addToCache.
  destruct (decide (k = hash)) as [->|Hne]; [rewrite lookup_insert_eq; congruence|].
  rewrite lookup_insert_ne by done. apply Hc.
Qed.

Lemma ops_coherent repo ops cache : coherent repo cache -> coherent repo (foldl (do_op repo) cache ops).
Proof.
  revert cache. induction ops as [|o ops IH]; intros cache Hc; [done|]. simpl. by apply IH, do_op_coherent.
Qed.

(** The cache of commit objects cannot be told from the repository: after any lookups and
    clearings a lookup returns what the repository returns, the error wrapped with the hash, and
    a commit that was found is not asked for again: whatever the repository then says, the
    lookup that follows returns the same commit. An error is not cached. *)
Theorem commit_cache_transparent repo ops hash :
  let cache := foldl (do_op repo) ∅ ops in
  (CommitObject repo hash cache).1 = direct repo hash /\
  forall repo', (CommitObject repo' hash (CommitObject repo hash cache).2).1 =
    match repo hash with inl c => Ok c | inr _ => direct repo' hash end.
Proof.
  intros cache. assert (coherent repo cache) as Hc by by apply ops_coherent.
  unfold CommitObject, direct, getFromCache. destruct (cache !! hash) as [c|] eqn:E.
  { rewrite (Hc _ _ E). split; [done|]. intros repo'. simpl. by rewrite E. }
  destruct (repo hash) as [c|err]; split; try done; intros repo'; simpl; unfold addToCache.
  - by rewrite lookup_insert_eq.
  - rewrite E. by destruct (repo' hash).
Qed.

End CommitCacheProps.
