(* ===== verification/GitScanExamples.v ===== *)
(** A history with a merge, scanned for the stages of two branches: the hypotheses of the
    theorems of GitScanProps can hold. *)
From S2P Require Import Prelude Go GitRefs GitRefsExamples GitScan GitScanFacts GitScanProps.

Module GitScanExamples.
Import MetaCleanup GitRefs GitScan GitScanFacts GitScanResults GitScanProps.

#[local] Existing Instance in_order.
#[local] Existing Instance GitRefsExamples.stable_sort.

(** ** The repository *)

(** [c1 <- c2 <- c4] and [c1 <- c3 <- c4]; [f] is a branch from [c2]. *)
Definition objects : list (string * Commit) :=
  [("c1", mkCommit "c1" [] 1); ("c2", mkCommit "c2" ["c1"] 2); ("c3", mkCommit "c3" ["c1"] 3);
   ("c4", mkCommit "c4" ["c2"; "c3"] 4); ("f", mkCommit "f" ["c2"] 5)].

Fixpoint object_of (l : list (string * Commit)) (h : string) : Commit + error :=
  match l with
  | [] => inr ErrObjectNotFound
  | (k, c) :: l' => if String.eqb h k then inl c else object_of l' h
  end.

Definition hashes : list string := ["c1"; "c2"; "c3"; "c4"; "f"].

Lemma object_of_elem l h c : object_of l h = inl c -> (h, c) ∈ l.
Proof.
  induction l as [|[k c'] l IH]; simpl; [done|]. destruct (String.eqb_spec h k) as [->|]; [|intros; right; auto].
  intros [= ->]. left.
Qed.

Lemma objects_parents h c p : object_of objects h = inl c -> p ∈ CParents c -> p ∈ hashes.
Proof.
  intros Hc%object_of_elem Hp. unfold objects in Hc. repeat (apply elem_of_cons in Hc as [[= -> ->]|Hc]);
    [..|by apply elem_of_nil in Hc]; simpl in Hp; unfold hashes; set_solver.
Qed.

#[export] Instance local_git : LocalGit := {
  LocalCommitObject := object_of objects;
  History := hashes;
  History_parents := objects_parents;
}.

Definition add_new (l l' : list string) : list string :=
  foldl (fun acc x => if bool_decide (x ∈ acc) then acc else acc ++ [x]) l l'.

Lemma add_new_elem l l' x : x ∈ add_new l l' <-> x ∈ l \/ x ∈ l'.
Proof.
  unfold add_new. revert l. induction l' as [|y l' IH]; intros l; simpl; [set_solver|].
  rewrite IH. case_bool_decide; set_solver.
Qed.

#[export] Instance string_arrays : StringArrays := {
  AddNewStringsToStringArray := add_new;
  AddNewStrings_elem := add_new_elem;
}.

(** ** The references *)

Definition head (h : string) : Commit := match object_of objects h with inl c => c | inr _ => mkCommit h [] 0 end.

Definition main : ReferenceToScan := mkReferenceToScan 0 (GitRefsExamples.branch "origin/main" "c4") 4 (head "c4") (-1).
Definition feature : ReferenceToScan := mkReferenceToScan 1 (GitRefsExamples.branch "origin/feature" "f") 5 (head "f") (-1).
Definition tagged : ReferenceToScan := mkReferenceToScan 2 (GitRefsExamples.tag "v1" "c1") 1 (head "c1") 1.

(** [old] was built on [c1], [left] on [c2], [right] on [c3], [both] on [c1] and [c4]; [lost] on
    a commit of [feature] only. *)
Definition expected : StageIDCommitList :=
  {["old" := ["c1"]; "left" := ["c2"]; "right" := ["c3"]; "both" := ["c1"; "c4"]; "lost" := ["f"]]}.

Definition keep_all : Limit := mkLimit (Some (-1)%Z) None None.
Definition keep_two : Limit := mkLimit (Some 2%Z) None None.

Definition refs : list (ReferenceToScan * Limit) := [(main, keep_all); (feature, keep_two); (tagged, no_limit)].

Definition resolvesb (c : string) : bool := if object_of objects c then true else false.

Lemma expected_resolved : resolved_expected expected.
Proof.
  intros k l c Hk%elem_of_map_to_list Hc.
  assert (bool_decide (Forall (fun e => Forall (fun c => resolvesb c = true) e.2)
    (map_to_list expected)) = true) as H by (vm_compute; reflexivity).
  apply bool_decide_eq_true in H. rewrite Forall_forall in H. specialize (H _ Hk).
  rewrite Forall_forall in H. specialize (H _ Hc). unfold resolvesb in H. unfold resolves.
  unfold LocalCommitObject, local_git. destruct (object_of objects c); [eauto|done].
Qed.

Lemma refs_depth r : r ∈ refs -> scanDepthLimit r.1 <> 0%Z.
Proof.
  intros Hr. assert (bool_decide (Forall (fun r => scanDepthLimit r.1 <> 0%Z) refs) = true) as H
    by (vm_compute; reflexivity).
  apply bool_decide_eq_true in H. rewrite Forall_forall in H. by apply H.
Qed.

Definition result : list string * StageIDCommitList :=
  match ScanReferencesHistory 10 refs expected with Ok r => r | _ => ([], ∅) end.

(** The two newest stages of [feature], all of [main]; [both] has the hits of the tag and of
    the head of [main]. *)
Example result_is :
  (result.1, map_to_list result.2) =
  (["old"; "both"; "lost"; "left"; "right"],
   [("old", ["c1"]); ("right", ["c3"]); ("both", ["c1"; "c4"]); ("lost", ["f"]); ("left", ["c2"])]).
Proof. vm_compute. reflexivity. Qed.

(** A shallow clone: the parents of [c1] are not there, and the scan says so. *)
Example broken_history :
  let refs := [(mkReferenceToScan 0 (GitRefsExamples.branch "origin/x" "gone") 0 (head "gone") (-1), keep_all)] in
  ScanReferencesHistory 10 refs expected =
  Err (Wrapf "scan reference history failed: %w" []
        (Wrapf "scan commit %s history failed: %w" [FS "gone"]
          (Wrapf "commit hash %s resolve failed: %w" [FS "gone"] ErrObjectNotFound))).
Proof. vm_compute. reflexivity. Qed.

Lemma run_is : ScanReferencesHistory 10 refs expected = Ok (result.1, result.2).
Proof. vm_compute. reflexivity. Qed.

Lemma history_resolves h c : h ∈ hashes -> history h c -> resolves c.
Proof.
  intros Hh Hc. assert (c ∈ hashes) as Hin by (induction Hc; [done|]; change (p ∈ History); by eapply History_parents).
  assert (bool_decide (Forall (fun c => resolvesb c = true) hashes) = true) as H by (vm_compute; reflexivity).
  apply bool_decide_eq_true in H. rewrite Forall_forall in H. specialize (H _ Hin).
  unfold resolvesb in H. unfold resolves, LocalCommitObject, local_git.
  destruct (object_of objects c); [eauto|done].
Qed.

Lemma refs_heads r : r ∈ refs -> head_of r.1 ∈ hashes.
Proof.
  intros Hr. assert (bool_decide (Forall (fun r => head_of r.1 ∈ hashes) refs) = true) as H
    by (vm_compute; reflexivity).
  apply bool_decide_eq_true in H. rewrite Forall_forall in H. by apply H.
Qed.

Lemma scan_returns_witness : exists result, ScanReferencesHistory 10 refs expected = Ok result.
Proof.
  apply (scan_returns 10 refs expected expected_resolved refs_depth).
  intros r c Hr. apply history_resolves. by apply refs_heads.
Defined.

Lemma scan_sound_witness :
  result.2 !! "both" = Some ["c1"; "c4"] /\
  exists r, r ∈ refs /\ hit_from r.1 expected "both" "c4".
Proof.
  split; [vm_compute; reflexivity|].
  apply (scan_sound 10 refs expected result.1 result.2 expected_resolved refs_depth run_is)
    with (v := ["c1"; "c4"]); [vm_compute; reflexivity|set_solver].
Defined.

Lemma history_of_main : history "c4" "c2".
Proof.
  eapply (history_parent "c4" "c4"); [constructor|reflexivity|]. simpl. set_solver.
Qed.

Lemma scan_complete_witness : "left" ∈ result.1.
Proof.
  apply (scan_complete 10 refs expected result.1 result.2 main keep_all "left"
    expected_resolved refs_depth run_is).
  - unfold refs. set_solver.
  - reflexivity.
  - split; [reflexivity|by left].
  - exists ["c2"], "c2". split; [reflexivity|]. split; [set_solver|]. exact history_of_main.
Defined.

Definition feature_scan : Scan :=
  match scanReferenceHistory 10 1 feature keep_two expected [] with Ok r => r | _ => ([], [], ∅) end.
Definition feature_scanner : commitHistoryScanner :=
  match scanCommitHistory (start expected [] feature keep_two) "f" with
  | Ok s => s | _ => start expected [] feature keep_two end.

(** Four stages are reached, the two newest commits are kept. *)
Lemma scan_keeps_last_witness :
  length (reachedStageIDList 1 feature_scanner) = 4 /\ feature_scan.1.1 = ["lost"; "left"] /\
  keeps_last 2 feature_scanner feature_scan.
Proof.
  split; [vm_compute; reflexivity|]. split; [vm_compute; reflexivity|].
  apply (scan_keeps_last 10 1 feature keep_two expected [] expected feature_scanner feature_scan).
  - reflexivity.
  - reflexivity.
  - reflexivity.
  - intros H. assert (expected !! "lost" = Some ["f"]) as Hl by (vm_compute; reflexivity).
    by rewrite H, lookup_empty in Hl.
  - vm_compute. reflexivity.
  - vm_compute. reflexivity.
Defined.

End GitScanExamples.
