(* ===== verification/CleanupGit.v ===== *)
(** The cleanup with the history of git: the scan of GitRefs and GitScan is what the cleanup
    calls. A stage that was built for a commit of a branch whose policy keeps all its images is
    never deleted. *)
From S2P Require Import Prelude Go Slug Image Registry StagesStorage RepoStorage Parallel StorageManager StageManager AllowList Cleanup ManagerFacts StageManagerFacts CleanupProtect CleanupFacts CleanupProps CleanupExamples GitRefs GitRefsProps GitRefsExamples GitScan GitScanFacts GitScanProps GitScanExamples.
(** * The scan as the cleanup sees it *)

Section history.
Context {W : Type} `{!CleaningLibrary W, git : GitRepository, localGit : LocalGit,
  arrays : StringArrays, sorting : SortSlice, nondet : Nondet}.
Variables (plainOpen : prog W unit) (isCommitExists : string -> prog W bool).

(** The clock is read once for the selection and once for the scan for an image. *)
Definition git_history : GitHistory W := {|
  Cleanup.Reference := GitRefs.ReferenceToScan * MetaCleanup.Limit;
  Cleanup.KeepPolicy := MetaCleanup.KeepPolicy;
  PlainOpen := plainOpen;
  IsCommitExists := isCommitExists;
  Cleanup.ReferencesToScan policies :=
    now ← time_Now; lift (GitRefs.ReferencesToScan now policies);
  Cleanup.ScanReferencesHistory refs expected :=
    now ← time_Now; lift (GitScan.ScanReferencesHistory now refs expected);
|}.
End history.

Module CleanupGit.
Import StagesStorage StorageManager StageManager ManagerFacts StageManagerFacts Cleanup
  CleanupProtect CleanupFacts CleanupSafe.

(** * What the git policy marks *)

Section marks.
Context {W : Type} `{!GoQuote, !Nondet, !GitHistory W, !CleaningLibrary W}.
Context (R : W -> W -> Prop) `{!PreOrder R}.
Variable sm : StorageManager.Manager W.
Variable options : CleanupOptions W KeepPolicy.
Hypothesis HK : CleanupKeeps R sm options.
Abbreviation E := (Env W CleanupState).

(** A program that keeps every condition closed under marks only adds marks. *)
Lemma grows_of {A} (m : prog E A) e :
  (forall P : CleanupState -> Prop, (forall s s', grows s s' -> P s -> P s') -> keeps (guarded R P) m) ->
  grows (own e) (own (m e).2).
Proof using Type. intros Hm. apply (Hm (grows (own e))); [intros s s' ? ?; by etrans|reflexivity]. Qed.

Lemma wlp_grows {A} (m : prog E A) e :
  (forall P : CleanupState -> Prop, (forall s s', grows s s' -> P s -> P s') -> keeps (guarded R P) m) ->
  wlp m e (fun _ e' => grows (own e) (own e')).
Proof using Type. intros Hm%(grows_of m e). unfold wlp. by destruct (m e) as [[]]. Qed.

(** What is read of the state through the marks. *)
Lemma found_grows s s' : grows s s' -> found_by_id s -> found_by_id s'.
Proof using Type. intros [Es _ Ei _] Hf p d. rewrite Es, Ei. apply Hf. Qed.

Lemma handleSaved_marks ids stageID (e : E) :
  found_by_id (own e) -> stageID ∈ ids ->
  wlp (handleSavedStageIDs ids) e (fun _ e' => id_marked stageID (own e')).
Proof using Type.
  intros Hf Hin. unfold handleSavedStageIDs. eapply wlp_mono.
  - apply (wlp_for_each (fun dn (e1 : E) => grows (own e) (own e1) /\
      (stageID ∈ dn -> id_marked stageID (own e1)))); [|by split; [|intros ?%elem_of_nil]].
    intros dn id e1 _ [Hg Hm]. wp_step. unfold wlp at 1. simpl. apply wlp_bind, wlp_lift.
    unfold MarkStageDescAsProtectedByStageID.
    destruct (GetStageDescByStageID (stageManager (own e1)) id) as [d|] eqn:Ed; [|done].
    intros m [= <-]. unfold wlp. simpl. split; [etrans; [done|apply grows_mark]|].
    intros [Hd|Hd%list_elem_of_singleton]%elem_of_app.
    + eapply id_marked_grows; [apply grows_mark|auto].
    + subst id. intros p x Hp Hx. simpl. rewrite marked_mark. left. simpl in Hp.
      pose proof (found_grows _ _ Hg Hf _ _ Hp) as Hi.
      unfold GetStageDescByStageID, set_GetStageDescByStageID in Ed. rewrite Hx in Hi.
      assert (d = (p, x)) as -> by congruence. done.
  - intros ? e' [_ Hm]. auto.
Qed.

Lemma wlp_call {A} (m : prog W A) (e : E) :
  wlp (call m) e (fun a e' => own e' = own e /\ exists w w', m w = (Ok a, w')).
Proof using Type. unfold wlp, call. destruct (m (ext e)) as [[] w'] eqn:Em; simpl; eauto. Qed.

(** Every scan for the records of the image reaches the stage. *)
Definition always_reached (records : gmap string (list string)) (stageID : string) : Prop :=
  countStageIDCommitList records <> 0 /\
  forall refs w1 w1' r w2 w2',
    ReferencesToScan (KeepPolicies (ConfigMetaCleanup options)) w1 = (Ok refs, w1') ->
    ScanReferencesHistory refs records w2 = (Ok r, w2') -> stageID ∈ r.1.

Lemma scanImage_marks refs imageName records stageID (e : E) w1 w1' :
  found_by_id (own e) -> always_reached records stageID ->
  ReferencesToScan (KeepPolicies (ConfigMetaCleanup options)) w1 = (Ok refs, w1') ->
  wlp (scanImage sm options refs (imageName, records)) e (fun _ e' => id_marked stageID (own e')).
Proof using All.
  intros Hf [Hc Hr] Hrefs. unfold scanImage. destruct (Nat.eqb_spec (countStageIDCommitList records) 0); [done|].
  apply wlp_bind. eapply wlp_mono; [apply wlp_call|]. intros r e1 [He1 (w2 & w2' & Hscan)].
  specialize (Hr _ _ _ _ _ _ Hrefs Hscan). apply wlp_bind. unfold wlp at 1. simpl. apply wlp_bind.
  eapply wlp_mono; [apply (handleSaved_marks _ stageID); [simpl; by rewrite He1|done]|].
  intros ? e2 Hm. eapply wlp_mono; [apply wlp_grows|].
  - intros P HP. by apply (keepsP_cleanupImageMetadata R sm options P HP HK).
  - intros ? e3 Hg. exact (id_marked_grows stageID _ _ Hg Hm).
Qed.

(** The tasks of a list that has the image's, in whatever order they run. *)
Lemma tasks_mark pairs k l refs imageName records stageID (e : E) w1 w1' :
  found_by_id (own e) -> always_reached records stageID ->
  ReferencesToScan (KeepPolicies (ConfigMetaCleanup options)) w1 = (Ok refs, w1') ->
  pairs !! k = Some (imageName, records) -> k ∈ l ->
  wlp (for_each l (fun t => pair ← index pairs t; scanImage sm options refs pair)) e
    (fun _ e' => id_marked stageID (own e')).
Proof using All.
  intros Hf Hr Hrefs Hk Hkl. eapply wlp_mono.
  - apply (wlp_for_each (fun dn (e' : E) => grows (own e) (own e') /\
      (k ∈ dn -> id_marked stageID (own e')))); [|by split; [|intros ?%elem_of_nil]].
    intros dn t e1 _ [Hg Hm]. eapply wlp_mono; [apply wlp_conj; [apply wlp_grows|]|].
    + intros P HP. apply keeps_index_bind; [typeclasses eauto|]. intros x _.
      by apply (keepsP_scanImage R sm options P HP HK).
    + instantiate (1 := fun _ e' => t = k -> id_marked stageID (own e')).
      destruct (decide (t = k)) as [->|Hne].
      * unfold index. rewrite Hk. apply wlp_bind, wlp_ret.
        eapply wlp_mono; [eapply scanImage_marks; [by eapply found_grows|done|done]|auto].
      * unfold wlp. by destruct ((index pairs t ≫= _) e1) as [[]].
    + intros ? e2 [Hg' Hm']. split; [by etrans|]. intros [Hin|Hin%list_elem_of_singleton]%elem_of_app; [|auto].
      eapply id_marked_grows; [done|auto].
  - intros ? e' [_ Hm]. auto.
Qed.

Lemma gitPolicy_marks imageName records stageID (e : E) :
  DisableGitHistoryBasedPolicy (ConfigMetaCleanup options) = false ->
  found_by_id (own e) ->
  GetImageStageIDCommitListToCleanup (stageManager (own e)) !! imageName = Some records ->
  always_reached records stageID ->
  wlp (gitPolicy sm options) e (fun _ e' => id_marked stageID (own e')).
Proof using All.
  intros Hd Hf Hrec Hr. unfold gitPolicy. rewrite Hd. unfold gitHistoryBasedCleanup. do 3 wp_step.
  eapply wlp_mono; [apply wlp_call|]. intros ? e1 [He1 _]. apply wlp_bind.
  eapply wlp_mono; [apply wlp_call|]. intros refs e2 [He2 (w1 & w1' & Hrefs)].
  rewrite He1 in He2. clear He1 e1. do 3 (apply wlp_bind; unfold wlp at 1; simpl).
  match goal with |- context [Parallel.DoTasks (fun t => index ?l t ≫= _)] => set (pairs := l) end.
  match goal with |- wlp (wrap _ _ _ ≫= _) ?e1 _ => set (e3 := e1) end.
  assert (own e3 = own e) as He3 by done. apply wlp_bind, wlp_wrap.
  assert (exists k, pairs !! k = Some (imageName, records)) as [k Hk].
  { apply list_elem_of_lookup. unfold pairs. rewrite shuffle_perm, elem_of_map_to_list. by rewrite He2. }
  apply wlp_alt. intros [] e4 (l & Hl & Hrun)%Parallel.DoTasks_Ok.
  assert (id_marked stageID (own e4)) as Hm.
  { assert (k ∈ l) as Hkl. { rewrite Hl. apply elem_of_seq. apply lookup_lt_Some in Hk. lia. }
    pose proof (tasks_mark pairs k l refs imageName records stageID e3 w1 w1') as Hw.
    rewrite He3 in Hw. specialize (Hw Hf Hr Hrefs Hk Hkl). unfold wlp in Hw. by rewrite Hrun in Hw. }
  apply wlp_wrap. eapply wlp_mono; [apply wlp_grows|].
  - intros P HP. by apply (keepsP_cleanupNonexistent R sm options P HP HK).
  - intros ? e5 Hg. exact (id_marked_grows stageID _ _ Hg Hm).
Qed.

End marks.
End CleanupGit.

Module CleanupGitProps.
Import StagesStorage StorageManager StageManager ManagerFacts StageManagerFacts Cleanup
  CleanupProtect CleanupFacts CleanupInit CleanupSafe CleanupGit.
Import GitRefs GitRefsFacts GitRefsProps GitScan GitScanFacts GitScanResults GitScanProps.

Section props.
Context {W : Type} `{!GoQuote, nondet : !Nondet, !CleaningLibrary W, git : GitRepository,
  localGit : LocalGit, arrays : StringArrays, sorting : SortSlice}.
Variables (plainOpen : prog W unit) (isCommitExists : string -> prog W bool).
#[local] Instance the_history : GitHistory W := git_history plainOpen isCommitExists.

(** At every time the last policy that selects some branch keeps all its images, and the commit
    is in the history of that branch. *)
Definition kept_commit (policies : list MetaCleanup.KeepPolicy) (commit : string) : Prop :=
  forall now rs refs, AllReferences = inl rs -> collectReferences 0 rs = Ok refs ->
    exists r images, r ∈ refs /\ IsTag (reference r) = false /\
      last_policy now (branchesOf refs) (tagsOf refs) (effective policies) r images /\
      unlimited images /\ history (head_of r) commit.

Lemma count_pos (records : gmap string (list string)) id commits commit :
  records !! id = Some commits -> commit ∈ commits -> countStageIDCommitList records <> 0.
Proof.
  intros Hid Hc. unfold countStageIDCommitList. rewrite <-(insert_id _ _ _ Hid), <-insert_delete_eq.
  rewrite map_fold_insert_L; [|intros; lia|apply lookup_delete_eq].
  destruct commits; [by apply elem_of_nil in Hc|simpl; lia].
Qed.

Lemma selected_depth now policies refs r :
  GitRefs.ReferencesToScan now policies = Ok refs -> r ∈ refs -> scanDepthLimit r.1 <> 0%Z.
Proof.
  intros Hrun Hr. destruct (run_inv _ _ _ Hrun) as (rs & all & s & Hrs & Hall & _).
  destruct r as [r images]. apply (run_elem _ _ _ _ _ _ _ Hrs Hall Hrun) in Hr as [Hr _]. simpl.
  rewrite (collected_depth _ _ _ Hall _ Hr). by destruct (IsTag _).
Qed.

Lemma kept_commit_reached (options : CleanupOptions W MetaCleanup.KeepPolicy) records stageID commits commit :
  resolved_expected records -> records !! stageID = Some commits -> commit ∈ commits ->
  kept_commit (KeepPolicies (ConfigMetaCleanup options)) commit ->
  always_reached options records stageID.
Proof.
  intros Hres Hid Hc Hkept. split; [by eapply count_pos|].
  intros refs w1 w1' r w2 w2' Hrefs Hscan. simpl in Hrefs, Hscan. unfold mbind, prog_bind, lift in *.
  destruct (time_Now w1) as [[now1| |] w3]; [|done..]. injection Hrefs as Hrefs ->.
  destruct (time_Now w2) as [[now2| |] w4]; [|done..]. injection Hscan as Hscan ->.
  destruct (run_inv _ _ _ Hrefs) as (rs & all & s & Hrs & Hall & _).
  destruct (Hkept now1 rs all Hrs Hall) as (b & images & Hb & Ht & Hl & Hun & Hh).
  pose proof (ScanReferencesHistory_spec now2 refs records Hres (fun r => selected_depth _ _ _ r Hrefs)) as Hs.
  rewrite Hscan in Hs. destruct Hs as (stop & [_ _ _ Hs]). eapply (Hs (b, images)); [|simpl|done|by exists commits, commit].
  - rewrite list_elem_of_In, <-List.in_rev, <-list_elem_of_In. by apply (run_elem _ _ _ _ _ _ _ Hrs Hall Hrefs).
  - by rewrite (collected_depth _ _ _ Hall _ Hb), Ht.
Qed.

(** C3: a stage that was built for a commit of a branch is never deleted from the repository or
    from a cache of it, where the last policy that selects the branch keeps all its images. From
    a state that the initialisation of the cleanup leaves, with no two stages of one id, where
    the local repository has every commit recorded for the image, and the branch, its policy and
    its history are the same at every time: whatever else is scanned, fails or is deleted before,
    the rest of the run keeps every relation that everything keeps but the deletion of a stage
    with that id. Deletions from the final repository are left out of the claim. *)
Theorem branch_history_never_deleted (R : W -> W -> Prop) `{!PreOrder R}
  (sm : StorageManager.Manager W) (options : CleanupOptions W KeepPolicy) e imageName records stageID
  commits commit :
  CleanupKeeps R sm options -> FinalDeletable R sm options ->
  DisableGitHistoryBasedPolicy (ConfigMetaCleanup options) = false ->
  initialised sm options e -> distinct_ids (stageDescSet (mset (own e))) ->
  GetImageStageIDCommitListToCleanup (stageManager (own e)) !! imageName = Some records ->
  resolved_expected records -> records !! stageID = Some commits -> commit ∈ commits ->
  kept_commit (KeepPolicies (ConfigMetaCleanup options)) commit ->
  (forall d, Image.StageID_String (Image.SDStageID d) <> stageID -> Deletable R sm options d) ->
  R (ext e) (ext (runAfterInit sm options e).2).
Proof.
  intros HK Hfin Hd Hinit Hids Hrec Hres Hid Hc Hkept Hdel. rewrite runAfterInit_split.
  pose proof (initialised_found sm options e Hinit Hids) as Hf.
  destruct (keepsP_policies R sm options HK Hfin _ trivial_grows) as (Hkube & Hgit & _).
  destruct (keepsP_policies R sm options HK Hfin _ (Good_grows R sm options)) as (_ & _ & ? & ?).
  pose proof (keepsG_deletions R sm options HK Hfin).
  pose proof (wlp_grows R (kubernetesPolicy sm options) e
    (fun P HP => keepsP_kubernetesPolicy R sm options P HP HK)) as Hg.
  pose proof (guarded_R R _ e Hkube) as Hr. unfold wlp in Hg. unfold mbind at 1, prog_bind at 1.
  destruct (kubernetesPolicy sm options e) as [[[]| |] e1]; [|done..]. simpl in *. etrans; [exact Hr|].
  apply (keeps_then (GitHistory0 := the_history) R sm options); [by apply guarded_R| |keeps_go].
  eapply wlp_mono.
  - apply (gitPolicy_marks (GitHistory0 := the_history) R sm options HK imageName records stageID);
      [done|by eapply found_grows| |].
    + unfold GetImageStageIDCommitListToCleanup. by rewrite (grows_records _ _ Hg).
    + by eapply kept_commit_reached.
  - intros ? e2 Hm p d Hp.
    destruct (decide (Image.StageID_String (Image.SDStageID d) = stageID)) as [E|]; [left|auto]. eauto.
Qed.
End props.
End CleanupGitProps.

(** A cleanup with the history of git at work: the stage of a commit of the main branch stays,
    the stage of a commit that no branch has any more goes. *)
Module CleanupGitExamples.
Import StagesStorage StorageManager StageManager ManagerFacts StageManagerFacts Cleanup
  CleanupProtect CleanupFacts CleanupInit CleanupExamples.
Import GitRefs GitRefsFacts GitRefsProps GitScan GitScanFacts GitScanProps.

#[local] Existing Instance in_order.
#[local] Existing Instance CleanupExamples.library.
#[local] Existing Instance CleanupExamples.stays_PreOrder.
#[local] Existing Instance GitRefsExamples.repository.
#[local] Existing Instance GitRefsExamples.stable_sort.
#[local] Existing Instance GitScanExamples.string_arrays.

(** The commits of the repository of GitRefsExamples: [c1 <- c2 <- c3], which is [main]. *)
Lemma commits_parents h c p : GitRefsExamples.commits h = inl c -> p ∈ CParents c -> p ∈ ["c1"; "c2"; "c3"].
Proof.
  unfold GitRefsExamples.commits. repeat case_bool_decide; [..|done]; intros [= <-]; simpl; set_solver.
Qed.

#[local] Instance commits_git : LocalGit := {
  LocalCommitObject := GitRefsExamples.commits;
  History := ["c1"; "c2"; "c3"];
  History_parents := commits_parents;
}.

Definition is_commit (c : string) : prog Two bool := mret (bool_decide (c ∈ ["c1"; "c2"; "c3"])).
#[local] Instance scanned_history : GitHistory Two := git_history (mret tt) is_commit.

(** Every image of [main] is kept; "b" was built for [c2], "c" for a commit that is gone from it. *)
Definition keep_main : MetaCleanup.KeepPolicy :=
  MetaCleanup.mkKeepPolicy (MetaCleanup.mkKeepPolicyReferences None (Some main_branches) None)
    (MetaCleanup.mkLimit (Some (-1)%Z) None None).

Definition records : gmap string (list string) := {["b-1" := ["c2"]; "c-1" := []]}.
Definition metadata : ImageMetadataMap := {["app" := {["b-1" := ["c2"]; "c-1" := ["gone"]]}]}.

Definition git_options : CleanupOptions Two KeepPolicy :=
  mkCleanupOptions Two MetaCleanup.KeepPolicy ["app"] [] ∅ true
    (mkMetaCleanup MetaCleanup.KeepPolicy false false false true 0 [keep_main]) None false 0 ∅.

Definition manager : StorageManager.Manager Two := storage_manager metadata [] false.

Definition ready : Env Two CleanupState := (init manager git_options CleanupExamples.start).2.

Example git_run :
  left (run manager git_options CleanupExamples.start) = (Ok tt, ["a-1"; "b-1"], ["b-1"; "z-1"]).
Proof. vm_compute. reflexivity. Qed.

Lemma git_keeps P : CleanupKeeps (stays P) manager git_options.
Proof.
  split; try (intros; by apply stays_same).
  - split; try (intros; by apply stays_same); [apply memory_reads|done|by intros ? ?%elem_of_nil].
  - intros _. apply memory_records.
  - by intros filter set o Hf.
  - by intros client ns Hc%elem_of_nil.
Qed.

Lemma git_ready_initialised : initialised manager git_options ready.
Proof. exists CleanupExamples.start. unfold ready. apply run_snd. vm_compute. reflexivity. Qed.

Lemma git_ready_distinct : distinct_ids (stageDescSet (mset (own ready))).
Proof. apply distinct_list. apply (bool_decide_unpack _). vm_compute. exact I. Qed.

Lemma records_resolved : resolved_expected records.
Proof.
  intros id l c. unfold records. rewrite lookup_insert_Some, lookup_singleton_Some.
  intros [[<- <-]|[_ [<- <-]]]; [intros ->%list_elem_of_singleton; by eexists|by intros ?%elem_of_nil].
Qed.

Lemma c2_kept : CleanupGitProps.kept_commit [keep_main] "c2".
Proof.
  intros now rs refs [= <-] Hrefs.
  assert (refs = GitRefsExamples.collected) as ->.
  { unfold GitRefsExamples.collected. by rewrite Hrefs. }
  destruct GitRefsExamples.collected as [|r rest] eqn:E; [discriminate E|].
  exists r, (MetaCleanup.mkLimit (Some (-1)%Z) None None). revert E. vm_compute GitRefsExamples.collected.
  intros [= <- <-]. split; [by left|]. split; [done|]. split; [|split; [by split; [|left]|]].
  - exists [], keep_main, []. split; [done|]. split; [|by split; [|intros ? ?%elem_of_nil]].
    eexists. split; [vm_compute; reflexivity|by left].
  - eapply (history_parent "c3" "c3"); [constructor|reflexivity|]. by left.
Qed.

Lemma branch_history_never_deleted_witness :
  stays (fun x => id_of x = "b-1") (ext ready) (ext (runAfterInit manager git_options ready).2).
Proof.
  apply (CleanupGitProps.branch_history_never_deleted (mret tt) is_commit (stays (fun x => id_of x = "b-1"))
    manager git_options ready "app" records "b-1" ["c2"] "c2").
  - apply git_keeps.
  - intros _ st d o Hst. discriminate Hst.
  - reflexivity.
  - apply git_ready_initialised.
  - apply git_ready_distinct.
  - vm_compute. reflexivity.
  - apply records_resolved.
  - reflexivity.
  - by left.
  - apply c2_kept.
  - intros d Hd _ c o Hc. apply list_elem_of_singleton in Hc as ->. intros w x Hx HP. simpl.
    apply list_elem_of_filter. split; [|done]. destruct (same d x) eqn:E; [|done].
    apply same_spec in E as (Hi & _). destruct Hd. unfold id_of in *. congruence.
Defined.

End CleanupGitExamples.
