(* ===== verification/GoStd.v ===== *)
(** Parts of Go's standard library that some components use: path and path/filepath on a Unix
    system, the sorting of strings, errors with a type; and functions of common-go on lists of strings as a
    class. *)
From S2P Require Import Prelude Go.
(** Functions of github.com/werf/common-go; [uniq_elem] and the others are what their documentation
    says. *)
Class UtilStrings := {
  UniqStrings : list string -> list string;
  RejectEmptyStrings : list string -> list string;
  UniqAppendString : list string -> string -> list string;
  uniq_elem : forall l x, x ∈ UniqStrings l <-> x ∈ l;
  uniq_NoDup : forall l, NoDup (UniqStrings l);
  reject_elem : forall l x, x ∈ RejectEmptyStrings l <-> x ∈ l /\ x <> "";
  uniq_append : forall l x, UniqAppendString l x = if existsb (String.eqb x) l then l else l ++ [x];
}.

(** [util.GetRelativeToBaseFilepath] of common-go. *)
Class UtilPaths := { GetRelativeToBaseFilepath : string -> string -> string }.

(** crypto/sha256, printed in hexadecimal, and the hashes of common-go, which are third-party
    code. *)
Class Hashes := {
  sha256_hex : string -> string;
  Sha256Hash : list string -> string;
  Sha3_224Hash : list string -> string;
}.

(** Go's [regexp]. *)
Class Regexps := {
  Regexp : Type;
  Regexp_Compile : string -> Regexp + error;
  MatchString : Regexp -> string -> bool;
}.

Module Filepath.

(** [ToSlash] and [FromSlash], where the separator is a slash. *)
Definition ToSlash (path : string) : string := path.
Definition FromSlash (path : string) : string := path.

(** One element of a path, after the elements [out] before it, the last one first. *)
Definition cleanElem (rooted : bool) (out : list string) (e : string) : list string :=
  if bool_decide (e = "") || bool_decide (e = ".") then out
  else if bool_decide (e = "..") then
    match out with
    | [] => if rooted then [] else [".."]
    | x :: out' => if bool_decide (x = "..") then ".." :: out else out'
    end
  else e :: out.

Definition Clean (path : string) : string :=
  if bool_decide (path = "") then "."
  else
    let rooted := Str.HasPrefix path "/" in
    let out := Str.Join (List.rev (foldl (cleanElem rooted) [] (Str.Split path "/"))) "/" in
    if rooted then "/" +:+ out else if bool_decide (out = "") then "." else out.

(** The elements from the first one that is not empty. *)
Fixpoint Join (elem : list string) : string :=
  match elem with
  | [] => ""
  | e :: elem' => if bool_decide (e = "") then Join elem' else Clean (Str.Join elem "/")
  end.

(** The bytes after the last slash, and the ones up to it. *)
Fixpoint lastSlash (s : string) : option (string * string) :=
  match s with
  | "" => None
  | String c s' =>
      match lastSlash s' with
      | Some (d, b) => Some (String c d, b)
      | None => if bool_decide (c = "/"%char) then Some ("/", s') else None
      end
  end.

Definition Dir (path : string) : string :=
  match lastSlash path with
  | Some (d, _) => Clean d
  | None => "."
  end.

(** Without the slashes at its end. *)
Fixpoint trimSlashes (s : string) : string :=
  match s with
  | "" => ""
  | String c s' =>
      match trimSlashes s' with
      | "" => if bool_decide (c = "/"%char) then "" else String c ""
      | t => String c t
      end
  end.

Definition Base (path : string) : string :=
  if bool_decide (path = "") then "."
  else match trimSlashes path with
       | "" => "/"
       | p => match lastSlash p with Some (_, b) => b | None => p end
       end.

Example clean_examples :
  Clean "a//b/./../c/" = "a/c" /\ Clean "/../a" = "/a" /\ Clean "../.." = "../.." /\ Clean "a/.." = ".".
Proof. vm_compute. done. Qed.

Example dir_base_examples :
  Dir "a/b/c" = "a/b" /\ Dir "a" = "." /\ Dir "/a" = "/" /\ Dir "a/b/" = "a/b" /\ Dir "" = "." /\
  Base "a/b/" = "b" /\ Base "/" = "/" /\ Base "" = "." /\ Base "b" = "b".
Proof. vm_compute. done. Qed.

End Filepath.

Module Sort.

(** The order of the bytes. *)
Definition le (s t : string) : Prop := Is_true (String.leb s t).

#[export] Instance le_dec : RelDecision le.
Proof. intros s t. unfold le. apply _. Defined.

#[export] Instance le_total : Total le.
Proof.
  intros s t. unfold le. destruct (String.leb_total s t) as [H|H]; rewrite H; [left|right]; done.
Qed.

(** [sort.Strings]. *)
Definition Strings (l : list string) : list string := merge_sort le l.

Lemma Strings_perm l : Strings l ≡ₚ l.
Proof. apply merge_sort_Permutation. Qed.

#[export] Instance le_trans : Transitive le.
Proof.
  assert (forall c d, Ascii.compare c d = N.compare (Ascii.N_of_ascii c) (Ascii.N_of_ascii d)) as Hc by done.
  intros s. unfold le, String.leb. induction s as [|c s IH]; intros [|d t] [|e u]; simpl; try done.
  specialize (IH t u). rewrite !Hc.
  destruct (N.compare_spec (Ascii.N_of_ascii c) (Ascii.N_of_ascii d)) as [H1|H1|H1]; [| |done];
    destruct (N.compare_spec (Ascii.N_of_ascii d) (Ascii.N_of_ascii e)) as [H2|H2|H2]; try done;
    destruct (N.compare_spec (Ascii.N_of_ascii c) (Ascii.N_of_ascii e)) as [H3|H3|H3]; try done; try lia.
Qed.

#[export] Instance le_antisymm : AntiSymm (=) le.
Proof. intros s t Hs Ht. by apply String.leb_antisym; apply Is_true_eq_true. Qed.

Lemma Strings_eq l k : l ≡ₚ k -> Strings l = Strings k.
Proof.
  intros H. apply (Sorted_unique le); [apply Sorted_merge_sort, _..|]. by rewrite !Strings_perm.
Qed.

Example sorted_strings : Strings ["b"; "ab"; "a"; "B"; ""] = [""; "B"; "a"; "ab"; "b"].
Proof. vm_compute. done. Qed.

End Sort.

(** More of path and path/filepath: relative paths. *)
Module GoPath.

Definition IsAbs (path : string) : bool := Str.HasPrefix path "/".

(** The elements of a cleaned path; the first one of an absolute path is empty. *)
Definition elements (path : string) : list string :=
  if bool_decide (path = "") then [] else if bool_decide (path = "/") then [""] else Str.Split path "/".

(** What is left of two lists after the elements that they share. *)
Fixpoint rests (base targ : list string) : list string * list string :=
  match base, targ with
  | b :: base', t :: targ' => if bool_decide (b = t) then rests base' targ' else (base, targ)
  | _, _ => (base, targ)
  end.

Definition Rel (basepath targpath : string) : string + error :=
  let base := Filepath.Clean basepath in
  let targ := Filepath.Clean targpath in
  let cannot := inr (Errorf "Rel: can't make %s relative to %s" [FS targpath; FS basepath]) in
  if bool_decide (targ = base) then inl "."
  else
    let base := if bool_decide (base = ".") then "" else base in
    if negb (Bool.eqb (IsAbs base) (IsAbs targ)) then cannot
    else
      let r := rests (elements base) (elements targ) in
      if bool_decide (head r.1 = Some "..") then cannot
      else inl (Str.Join (((fun _ => "..") <$> r.1) ++ r.2) "/").

(** A relative path that does not stay below the directory. *)
Definition outside (rel : string) : bool :=
  bool_decide (rel = ".") || bool_decide (rel = "..") || Str.HasPrefix rel "../".

Example rel_paths :
  (Rel "a/b" "a/b/c", Rel "a/b" "a", Rel "a" "ab", Rel "" "x/y", Rel "/" "/a", Rel "a" "a/./", Rel "a/b" "../c") =
  (inl "c", inl "..", inl "../ab", inl "x/y", inl "a", inl ".", inl "../../../c").
Proof. vm_compute. done. Qed.

Lemma rests_app b p : rests b (b ++ p) = ([], p).
Proof. induction b as [|x b IH]; simpl; [by destruct p|]. by rewrite bool_decide_eq_true_2. Qed.

End GoPath.

(** Errors of a type of their own, which a type switch and [errors.As] tell from others. Such an error is
    a struct with the error in it: it has the text of that error, and is not unwrapped. *)
Module GoErrors.

(** An error of the type [kind], which keeps [paths]. *)
Definition typed (kind : string) (paths : list string) (e : error) : error := Wrapf "%w" (FS kind :: (FS <$> paths)) e.

(** The type of an error and the paths that it keeps, where the type is one of these. *)
Definition type_of (e : error) : option (string * list string) :=
  match e with
  | Wrapf "%w" (FS kind :: paths) _ => Some (kind, omap (fun a => match a with FS p => Some p | _ => None end) paths)
  | _ => None
  end.

Definition is_type (kind : string) (e : error) : bool :=
  match type_of e with Some (k, _) => bool_decide (k = kind) | None => false end.

(** [errors.As]. *)
Fixpoint As (kind : string) (e : error) : bool :=
  match type_of e with
  | Some (k, _) => bool_decide (k = kind)
  | None => match e with Wrapf _ _ e' => As kind e' | Errorf _ _ => false end
  end.

Lemma type_of_typed kind paths e : type_of (typed kind paths e) = Some (kind, paths).
Proof. simpl. f_equal. f_equal. induction paths as [|p paths IH]; [done|]. rewrite fmap_cons. csimpl. by rewrite IH. Qed.

Lemma As_typed kind kind' paths e : As kind (typed kind' paths e) = bool_decide (kind' = kind).
Proof. done. Qed.

Lemma typed_text `{GoQuote} kind paths e : err_text (typed kind paths e) = err_text e.
Proof. simpl. by rewrite Str.app_nil_r. Qed.

(** A wrapped error with a format of its own. *)
Lemma As_wrapped kind f args e : f <> "%w" -> As kind (Wrapf f args e) = As kind e.
Proof.
  intros Hf. cbn [As]. assert (type_of (Wrapf f args e) = None) as ->; [|done].
  unfold type_of. destruct f as [|c f]; [done|]. destruct c as [[] [] [] [] [] [] [] []]; try done.
  destruct f as [|c f]; [done|]. destruct c as [[] [] [] [] [] [] [] []]; try done. by destruct f.
Qed.

End GoErrors.
