(* ===== verification/WerfConfig.v ===== *)
(** pkg/config/werf.go and images_to_process.go: the images of a werf.yaml, what they depend on,
    the validation of the dependencies, the choice of the images to process and their grouping into
    sets in which no image depends on another. An image is known to the other parts by a pointer
    that [GetImage] gave for its name, so its name stands for the pointer. *)
From S2P Require Import Prelude Go GoStd Slug GoMatch.

Module WerfConfig.

(** * The images *)

Record Import := mkImport {
  imp_ImageName : string; imp_ExternalImage : bool; imp_ArtifactName : string;
}.

(** StapelImageBase or ImageFromDockerfile, as far as the functions below go; [rawDoc] is the text of
    the section, which errors show. *)
Record ImageInterface := mkImageInterface {
  GetName : string;
  IsStapel : bool;
  IsFinal : bool;
  Platform : list string;
  From : string;
  FromArtifactName : string;
  ImportList : list Import;
  DependencyList : list string;
  rawDoc : string;
}.

Record DependsOn := mkDependsOn {
  dep_From : string; dep_Imports : list string; dep_Dependencies : list string;
}.

Definition relatedImageNameList (d : DependsOn) : list string :=
  (if bool_decide (dep_From d <> "") then [dep_From d] else []) ++ dep_Imports d ++ dep_Dependencies d.

(** Of [ImageFromDockerfile] it panics. *)
Definition GetFrom (image : ImageInterface) : string :=
  if bool_decide (FromArtifactName image <> "") then FromArtifactName image else From image.

Definition newConfigError (message : string) : error := Errorf "%s" [FS message].
Definition newDetailedConfigError (message doc : string) : error :=
  newConfigError (message +:+ String "010" (String "010" "") +:+ doc).

Section config.
Context `{!GoQuote, !Nondet, !UtilStrings}.

(** The imports of one item. *)
Definition importNames (imp : Import) : list string :=
  (if bool_decide (imp_ImageName imp <> "") && negb (imp_ExternalImage imp) then [imp_ImageName imp] else []) ++
  (if bool_decide (imp_ArtifactName imp <> "") then [imp_ArtifactName imp] else []).

Definition stapel_dependsOn (image : ImageInterface) : DependsOn :=
  mkDependsOn (FromArtifactName image) (concat (importNames <$> ImportList image))
    (UniqStrings (DependencyList image)).

Definition dockerfile_dependsOn (image : ImageInterface) : DependsOn :=
  mkDependsOn "" [] (UniqStrings (DependencyList image)).

Definition dependsOn (image : ImageInterface) : DependsOn :=
  if IsStapel image then stapel_dependsOn image else dockerfile_dependsOn image.

(** ** The state: the order in which maps are iterated, and the images whose [FromExternal] was set. *)

Record Cfg := mkCfg { cfg_tick : nat; FromExternal : gset string }.

Abbreviation P := (prog Cfg).

Definition iterate {A} (l : list A) : P (list A) := fun s =>
  (Ok (shuffle (cfg_tick s) l), mkCfg (S (cfg_tick s)) (FromExternal s)).

Definition SetFromExternal (image : ImageInterface) : P unit := fun s =>
  (Ok tt, mkCfg (cfg_tick s) ({[GetName image]} ∪ FromExternal s)).

(** WerfConfig: the images of the file. *)
Variable images : list ImageInterface.

Definition Images (onlyFinal : bool) : list ImageInterface :=
  filter (fun image => negb onlyFinal || IsFinal image = true) images.

Definition GetImageNameList (onlyFinal : bool) : list string := GetName <$> Images onlyFinal.

Definition GetImage (imageName : string) : option ImageInterface :=
  find (fun image => String.eqb (GetName image) imageName) (Images false).

Definition notFound (name : string) : string :=
  "image " +:+ Quote name +:+ " not found but must be found".

(** ** Validation *)

Fixpoint conflicts (byName : gmap string ImageInterface) (l : list ImageInterface) : res unit :=
  match l with
  | [] => Ok tt
  | image :: l' =>
      let name := GetName image in
      if bool_decide (name = "") && (1 <? length (Images true)) then
        Err (newConfigError ("conflict between images names: a nameless image cannot be specified in the config with multiple images!" +:+
                             String "010" (String "010" "") +:+ rawDoc image +:+ String "010" ""))
      else match byName !! name with
           | Some d => Err (newConfigError ("conflict between images names!" +:+ String "010" (String "010" "") +:+
                                            rawDoc d +:+ rawDoc image +:+ String "010" ""))
           | None => conflicts (<[name := image]> byName) l'
           end
  end.

Definition validateConflictBetweenImagesNames : res unit := conflicts ∅ (Images false).

(** The related images that are not there. *)
Definition missing (image : ImageInterface) : list string :=
  filter (fun name => GetImage name = None) (relatedImageNameList (dependsOn image)).

Fixpoint allFound (l : list ImageInterface) : res unit :=
  match l with
  | [] => Ok tt
  | image :: l' =>
      match missing image with
      | name :: _ => Err (newDetailedConfigError ("image " +:+ Quote name +:+ " not found!") (rawDoc image))
      | [] => allFound l'
      end
  end.

Definition validateRelatedImages : res unit := allFound (Images false).

(** The names on a loop, if there is one; [None] where the fuel is not enough. *)
Fixpoint validateImageInfiniteLoop (fuel : nat) (imageName : string) (imageNameStack : list string)
  : option (res (option (list string))) :=
  match fuel with
  | 0 => None
  | S fuel' =>
      if bool_decide (imageName ∈ imageNameStack) then Some (Ok (Some [imageName]))
      else
        match GetImage imageName with
        | None => Some (Panic (notFound imageName))
        | Some image =>
            (fix each (l : list string) : option (res (option (list string))) :=
               match l with
               | [] => Some (Ok None)
               | relatedImageName :: l' =>
                   match validateImageInfiniteLoop fuel' relatedImageName (imageNameStack ++ [imageName]) with
                   | Some (Ok None) => each l'
                   | Some (Ok (Some loop)) => Some (Ok (Some (imageName :: loop)))
                   | other => other
                   end
               end) (relatedImageNameList (dependsOn image))
        end
  end.

Fixpoint loops (fuel : nat) (l : list ImageInterface) : option (res unit) :=
  match l with
  | [] => Some (Ok tt)
  | image :: l' =>
      match validateImageInfiniteLoop fuel (GetName image) [] with
      | Some (Ok None) => loops fuel l'
      | Some (Ok (Some loop)) =>
          Some (Err (Wrapf "%w: %s" [FS (Str.Join loop " -> ")] (Errorf "infinite loop detected" [])))
      | Some (Err e) => Some (Err e)
      | Some (Panic p) => Some (Panic p)
      | None => None
      end
  end.

(** The names on the stack are names of images, each once. *)
Definition validateInfiniteLoopBetweenRelatedImages : option (res unit) :=
  loops (S (length images)) (Images false).

(** What [prepareWerfConfig] asks for. *)
Definition validateWerfConfig : option (res unit) :=
  match validateConflictBetweenImagesNames with
  | Ok _ =>
      match validateRelatedImages with
      | Ok _ => validateInfiniteLoopBetweenRelatedImages
      | r => Some r
      end
  | r => Some r
  end.

(** ** The images to process *)

Record ImagesToProcess := mkImagesToProcess {
  ImageNameList : list string; FinalImageNameList : list string; WithoutImages : bool;
}.

Definition containsAny (s chars : string) : bool :=
  existsb (fun c => Str.mem c chars) (String.list_ascii_of_string s).

(** A pattern to include or to exclude. *)
Definition parsePattern (pattern : string) : res (string + string) :=
  if Str.Contains pattern "**" then Err (Errorf "recursive glob (**) not supported" [])
  else if 100 <? Str.len pattern then Err (Errorf "pattern too long" [])
  else if containsAny pattern "&|$" then Err (Errorf "special characters not allowed" [])
  else if Str.HasPrefix pattern "!" then Ok (inr (Str.TrimPrefix pattern "!"))
  else Ok (inl pattern).

Fixpoint parsePatterns (imageNameList : list string) : res (list string * list string) :=
  match imageNameList with
  | [] => Ok ([], [])
  | pattern :: l =>
      match parsePattern pattern with
      | Err e => Err e
      | Panic p => Panic p
      | Ok x =>
          match parsePatterns l with
          | Ok (inc, exc) => Ok (match x with inl i => (i :: inc, exc) | inr e => (inc, e :: exc) end)
          | Err e => Err e
          | Panic p => Panic p
          end
      end
  end.

(** The cause is formatted as a value, so it is not wrapped. *)
Definition matchPattern (name pattern : string) : res bool :=
  match Match.Match pattern name with
  | Ok b => Ok b
  | Err e => Err (Errorf "invalid pattern %q: %v" [FQ pattern; FS (err_text e)])
  | Panic p => Panic p
  end.

(** The names that the pattern selects. *)
Fixpoint matching (pattern : string) (names : list string) : res (list string) :=
  match names with
  | [] => Ok []
  | name :: names' =>
      match matchPattern name pattern with
      | Ok b =>
          match matching pattern names' with
          | Ok l => Ok (if b then name :: l else l)
          | r => r
          end
      | Err e => Err e
      | Panic p => Panic p
      end
  end.

Fixpoint includeEach (allImageNames includePatterns : list string) (finalImages : gset string)
  : res (gset string) :=
  match includePatterns with
  | [] => Ok finalImages
  | pattern :: l =>
      match matching pattern allImageNames with
      | Ok [] => Err (Errorf "no image matches pattern %q" [FQ pattern])
      | Ok found => includeEach allImageNames l (list_to_set found ∪ finalImages)
      | Err e => Err e
      | Panic p => Panic p
      end
  end.

Definition filterUsingIncludePatterns (allImageNames includePatterns : list string) : res (gset string) :=
  match includePatterns with
  | [] => Ok (list_to_set allImageNames)
  | _ => includeEach allImageNames includePatterns ∅
  end.

(** A name that is one of the patterns is never excluded. *)
Fixpoint shouldExclude (name : string) (includePatterns excludePatterns : list string) : res bool :=
  match excludePatterns with
  | [] => Ok false
  | pattern :: l =>
      match matchPattern name pattern with
      | Ok b => if b && negb (bool_decide (name ∈ includePatterns)) then Ok true
                else shouldExclude name includePatterns l
      | r => r
      end
  end.

Definition filterUsingExcludePatterns (finalImages : gset string) (excludePatterns includePatterns : list string)
  : P (gset string) :=
  match excludePatterns with
  | [] => mret finalImages
  | _ =>
      names ← iterate (elements finalImages);
      for_fold names ∅ (fun temp name =>
        exclude ← lift (shouldExclude name includePatterns excludePatterns);
        mret (if (exclude : bool) then temp else {[name]} ∪ temp))
  end.

Definition filterUsingFinalAttribute (imageNames : list string) : list string :=
  filter (fun name => match GetImage name with Some image => IsFinal image | None => false end = true) imageNames.

Definition NewImagesToProcess (imageNameList : list string) (onlyFinal withoutImages : bool) : P ImagesToProcess :=
  if withoutImages then mret (mkImagesToProcess [] [] true)
  else
    patterns ← lift (parsePatterns imageNameList);
    finalImages ← lift (filterUsingIncludePatterns (GetImageNameList false) patterns.1);
    finalImages ← filterUsingExcludePatterns finalImages patterns.2 patterns.1;
    resolvedImageNames ← iterate (elements finalImages);
    let finalImageNameList := filterUsingFinalAttribute resolvedImageNames in
    let names := if onlyFinal then finalImageNameList else resolvedImageNames in
    mret (mkImagesToProcess names finalImageNameList (bool_decide (length names = 0))).

(** ** Independent sets *)

Fixpoint getSpecificImages (names : list string) : P (list string) :=
  match names with
  | [] => mret []
  | name :: names' =>
      match GetImage name with
      | None => panic (notFound name)
      | Some _ => l ← getSpecificImages names'; mret (name :: l)
      end
  end.

(** The base image counts if it is the name of an image. *)
Definition updateDependencies (image : ImageInterface) : P DependsOn :=
  if negb (IsStapel image) then mret (dependsOn image)
  else
    let from := GetFrom image in
    let curDeps := dependsOn image in
    match GetImage from with
    | Some _ => mret (mkDependsOn from (dep_Imports curDeps) (dep_Dependencies curDeps))
    | None => SetFromExternal image ;; mret (mkDependsOn "" (dep_Imports curDeps) (dep_Dependencies curDeps))
    end.

(** The loop of getImageRelativesInOrder; [None] where the fuel is not enough. *)
Fixpoint relativesLoop (fuel : nat) (stack : list string) (imageRelatives : gmap string (list string))
  : P (option (gmap string (list string))) :=
  match stack with
  | [] => mret (Some imageRelatives)
  | current :: stack' =>
      match fuel with
      | 0 => mret None
      | S fuel' =>
          match GetImage current with
          | None => panic "nil pointer dereference"
          | Some image =>
              depends ← updateDependencies image;
              let relatives := relatedImageNameList depends in
              let imageRelatives := <[current := relatives]> imageRelatives in
              relativesLoop fuel' (stack' ++ filter (fun r => imageRelatives !! r = None) relatives) imageRelatives
          end
      end
  end.

Definition getImageRelativesInOrder (fuel : nat) (names : list string) : P (option (gmap string (list string))) :=
  relativesLoop fuel names ∅.

(** The images all of whose relatives were put into a set before. *)
Definition currentRelatives (isRelativeChecked : gset string) (l : list (string * list string)) : list string :=
  fst <$> filter (fun x => forallb (fun r => bool_decide (r ∈ isRelativeChecked)) x.2 = true) l.

Fixpoint groupLoop (fuel : nat) (toHandle : gmap string (list string)) (isRelativeChecked : gset string)
  (sets : list (list string)) : P (option (list (list string))) :=
  if bool_decide (toHandle = ∅) then mret (Some sets)
  else
    match fuel with
    | 0 => mret None
    | S fuel' =>
        l ← iterate (map_to_list toHandle);
        let current := currentRelatives isRelativeChecked l in
        groupLoop fuel' (foldr delete toHandle current) (list_to_set current ∪ isRelativeChecked) (sets ++ [current])
    end.

Definition GroupImagesByIndependentSets (fuel : nat) (imagesToProcess : ImagesToProcess)
  : P (option (list (list string))) :=
  if WithoutImages imagesToProcess then mret (Some [])
  else
    names ← getSpecificImages (ImageNameList imagesToProcess);
    relatives ← getImageRelativesInOrder fuel names;
    match relatives with
    | None => mret None
    | Some relatives => groupLoop fuel relatives ∅ []
    end.

Fixpoint graphs (names : list string) : P (list (string * DependsOn)) :=
  match names with
  | [] => mret []
  | name :: names' =>
      match GetImage name with
      | None => panic "nil pointer dereference"
      | Some image =>
          d ← updateDependencies image;
          l ← graphs names'; mret ((GetName image, d) :: l)
      end
  end.

Definition GetImageGraphList (imagesToProcess : ImagesToProcess) : P (list (string * DependsOn)) :=
  names ← getSpecificImages (ImageNameList imagesToProcess); graphs names.

End config.
End WerfConfig.
