(* ===== verification/WerfConfigProps.v ===== *)
(** The theorems on pkg/config/werf.go: which files the validation accepts, and the sets into which
    the images are grouped. *)
From S2P Require Import Prelude Go GoStd Slug GoMatch WerfConfig.
From Stdlib Require Import Wellfounded.
Import WerfConfig.

Module WerfConfigProps.

(** * Chains of names *)

Section graph.
Variable deps : string -> list string.

(** Each name depends on the next one. *)
Fixpoint linked (l : list string) : Prop :=
  match l with
  | a :: l' => match l' with b :: _ => b ∈ deps a /\ linked l' | [] => True end
  | [] => True
  end.

Definition needs (r n : string) : Prop := r ∈ deps n.

Lemma linked_cons a l : linked l -> (forall b, head l = Some b -> b ∈ deps a) -> linked (a :: l).
Proof. destruct l as [|b l]; [done|]. intros Hl Hb. split; [by apply Hb|done]. Qed.

Lemma linked_app_r l k : linked (l ++ k) -> linked k.
Proof.
  induction l as [|a l IH]; [done|]. intros H. apply IH. simpl in H.
  destruct (l ++ k); [done|]. by destruct H.
Qed.

Lemma linked_tc a l z : linked (a :: l ++ [z]) -> tc needs z a.
Proof.
  revert a. induction l as [|b l IH]; intros a [Hb H]; [by apply tc_once|].
  eapply tc_r; [by apply IH|done].
Qed.

(** A chain that comes back to a name starts at names that are not well-founded. *)
Lemma chain_not_acc front mid z :
  linked (front ++ z :: mid ++ [z]) -> ~ Acc needs z.
Proof. intros H Ha. eapply Acc_not_tc; [exact Ha|]. eapply linked_tc, linked_app_r, H. Qed.
End graph.

Section config.
Context {gq : GoQuote} {nd : Nondet} {us : UtilStrings}.
Variable images : list ImageInterface.

Abbreviation GetImage := (GetImage images).
Abbreviation validateImageInfiniteLoop := (validateImageInfiniteLoop images).

(** * The validation *)

Definition related (n : string) : list string :=
  match GetImage n with Some image => relatedImageNameList (dependsOn image) | None => [] end.

(** What the file has to be. *)
Record valid : Prop := {
  valid_names : NoDup (GetName <$> images);
  valid_nameless : "" ∈ GetName <$> images -> length (Images images true) <= 1;
  valid_found : forall image n, image ∈ images -> n ∈ relatedImageNameList (dependsOn image) ->
    n ∈ GetName <$> images;
  valid_acyclic : forall n, Acc (needs related) n;
}.

Lemma Images_false : Images images false = images.
Proof. unfold Images. induction images as [|i l IH]; [done|]. by rewrite filter_cons, IH. Qed.

Lemma GetImage_Some n image : GetImage n = Some image -> image ∈ images /\ GetName image = n.
Proof.
  unfold WerfConfig.GetImage. rewrite Images_false. intros [H E]%List.find_some.
  split; [by apply list_elem_of_In|by apply String.eqb_eq].
Qed.

Lemma GetImage_None n : GetImage n = None <-> n ∉ GetName <$> images.
Proof.
  unfold WerfConfig.GetImage. rewrite Images_false. split.
  - intros Hf (image & -> & Hi)%list_elem_of_fmap. apply list_elem_of_In in Hi.
    apply (List.find_none _ _ Hf) in Hi. by rewrite String.eqb_refl in Hi.
  - intros H. destruct (find _ images) as [image|] eqn:E; [|done]. apply List.find_some in E as [Hi E].
    apply String.eqb_eq in E as <-. destruct H. apply list_elem_of_fmap_2. by apply list_elem_of_In.
Qed.

Lemma GetImage_is_Some n : n ∈ GetName <$> images -> exists image, GetImage n = Some image.
Proof. intros H. destruct (GetImage n) eqn:E; [by eexists|]. by apply GetImage_None in E. Qed.

(** ** Names *)

Definition namelessAlone : Prop := length (Images images true) <= 1.

Lemma conflicts_step byName image l :
  conflicts images byName (image :: l) = Ok tt <->
  (GetName image = "" -> namelessAlone) /\ byName !! GetName image = None /\
  conflicts images (<[GetName image := image]> byName) l = Ok tt.
Proof.
  simpl. unfold namelessAlone. destruct (bool_decide_reflect (GetName image = "")) as [E|E]; simpl;
    [destruct (Nat.ltb_spec 1 (length (Images images true)))|]; try destruct (byName !! GetName image); naive_solver lia.
Qed.

Lemma conflicts_Ok l : forall byName,
  conflicts images byName l = Ok tt <->
  NoDup (GetName <$> l) /\ (forall n, n ∈ GetName <$> l -> byName !! n = None) /\
  ("" ∈ GetName <$> l -> namelessAlone).
Proof.
  induction l as [|image l IH]; intros byName.
  { split; [|done]. intros _. split; [constructor|]. split; [by intros ? ?%not_elem_of_nil|by intros ?%not_elem_of_nil]. }
  rewrite conflicts_step, IH, fmap_cons, NoDup_cons. setoid_rewrite elem_of_cons. split.
  - intros (Hi & Hf & Hn & Hb & Hs). split; [|split].
    + split; [|done]. intros H. specialize (Hb _ H). by rewrite lookup_insert_eq in Hb.
    + intros n [->|Hin]; [done|]. specialize (Hb _ Hin). by apply lookup_insert_None in Hb as [? _].
    + intros [E|?]; [by apply Hi|by apply Hs].
  - intros ((Hni & Hn) & Hb & Hs). split; [by auto|]. split; [by auto|]. split; [done|]. split; [|by auto].
    intros n Hin. rewrite lookup_insert_ne; [by auto|]. by intros <-.
Qed.

Lemma conflicts_no_panic l p : forall byName, conflicts images byName l <> Panic p.
Proof. induction l as [|image l IH]; intros byName; simpl; [done|]. repeat case_match; by try apply IH. Qed.

(** ** Related images *)

Lemma missing_nil image :
  missing images image = [] <->
  forall n, n ∈ relatedImageNameList (dependsOn image) -> n ∈ GetName <$> images.
Proof.
  unfold missing. split.
  - intros H n Hn. destruct (decide (n ∈ GetName <$> images)) as [|Hni]; [done|].
    apply GetImage_None in Hni. exfalso. apply (not_elem_of_nil n). rewrite <-H. by apply list_elem_of_filter.
  - intros H. destruct (filter _ _) as [|n l] eqn:E; [done|].
    assert (n ∈ n :: l) as Hn by by left. rewrite <-E in Hn.
    apply list_elem_of_filter in Hn as [Hn1 Hn2]. apply GetImage_None in Hn1. by apply H in Hn2.
Qed.

Lemma allFound_Ok l : allFound images l = Ok tt <-> forall image, image ∈ l -> missing images image = [].
Proof.
  induction l as [|image l IH]; simpl.
  { split; [|done]. by intros _ ? ?%not_elem_of_nil. }
  setoid_rewrite elem_of_cons. destruct (missing images image) as [|n k] eqn:E; [rewrite IH; naive_solver|].
  split; [done|]. intros H. by rewrite (H image ltac:(by left)) in E.
Qed.

Lemma allFound_no_panic l p : allFound images l <> Panic p.
Proof. induction l as [|image l IH]; simpl; [done|]. by case_match. Qed.

(** ** Loops *)

Section found.
Hypothesis Hfound : forall image n, image ∈ images -> n ∈ relatedImageNameList (dependsOn image) ->
  n ∈ GetName <$> images.

(** What the search says of a name, under the names on the stack. *)
Definition verdict (stack : list string) (n : string) (r : option (res (option (list string)))) : Prop :=
  match r with
  | Some (Ok None) => Acc (needs related) n
  | Some (Ok (Some loop)) =>
      exists front z, loop = front ++ [z] /\ z ∈ stack ++ front /\ linked related loop /\ head loop = Some n
  | _ => False
  end.

Lemma verdict_over stack n front z a :
  head (front ++ [z]) = Some a -> a ∈ related n -> z ∈ (stack ++ [n]) ++ front -> linked related (front ++ [z]) ->
  verdict stack n (Some (Ok (Some (n :: front ++ [z])))).
Proof.
  intros Ha Hr Hz Hl. exists (n :: front), z. split; [done|]. split; [set_solver|]. split; [|done].
  apply linked_cons; [done|]. rewrite Ha. by intros ? [= <-].
Qed.

Lemma search_verdict fuel : forall n stack,
  n ∈ GetName <$> images -> NoDup stack -> stack ⊆ GetName <$> images ->
  length images < fuel + length stack ->
  verdict stack n (validateImageInfiniteLoop fuel n stack).
Proof.
  induction fuel as [|fuel IH]; intros n stack Hn Hnd Hsub Hf.
  { apply NoDup_submseteq in Hsub; [|done]. apply submseteq_length in Hsub. rewrite length_fmap in Hsub. lia. }
  simpl. case_bool_decide as Hin; [exists [], n; rewrite List.app_nil_r; done|].
  destruct (GetImage_is_Some n Hn) as [image E]. rewrite E. pose proof (GetImage_Some _ _ E) as [Hi _].
  assert (NoDup (stack ++ [n])) as Hnd' by (apply NoDup_app; set_solver by (apply NoDup_singleton || done)).
  assert (forall l, l ⊆ relatedImageNameList (dependsOn image) ->
     (forall r, r ∈ relatedImageNameList (dependsOn image) -> r ∈ l \/ Acc (needs related) r) ->
     verdict stack n ((fix each (l : list string) : option (res (option (list string))) :=
               match l with
               | [] => Some (Ok None)
               | relatedImageName :: l' =>
                   match validateImageInfiniteLoop fuel relatedImageName (stack ++ [n]) with
                   | Some (Ok None) => each l'
                   | Some (Ok (Some loop)) => Some (Ok (Some (n :: loop)))
                   | other => other
                   end
               end) l)) as H; [|apply H; [done|by left]].
  induction l as [|r l IHl]; intros Hl Hd.
  { constructor. intros r Hr. unfold needs, related in Hr. rewrite E in Hr. by destruct (Hd r Hr) as [?%not_elem_of_nil|]. }
  assert (verdict (stack ++ [n]) r (validateImageInfiniteLoop fuel r (stack ++ [n]))) as Hv.
  { apply IH; [apply (Hfound image); set_solver|done|set_solver|rewrite length_app; simpl; lia]. }
  destruct (validateImageInfiniteLoop fuel r (stack ++ [n])) as [[[loop|]|?|?]|]; try done.
  - destruct Hv as (front & z & -> & Hz & Hlink & Hh). eapply verdict_over; [done| |done|done].
    unfold related. rewrite E. set_solver.
  - apply IHl; [set_solver|]. intros r' [[->|?]%elem_of_cons|?]%Hd; by auto.
Qed.

(** The error shows names each of which depends on the next one, the last of them for a second time. *)
Definition loopError (e : error) : Prop :=
  exists pre mid z, linked related (pre ++ z :: mid ++ [z]) /\
    e = Wrapf "%w: %s" [FS (Str.Join (pre ++ z :: mid ++ [z]) " -> ")] (Errorf "infinite loop detected" []).

Lemma loops_spec l : l ⊆ images ->
  match loops images (S (length images)) l with
  | Some (Ok _) => forall image, image ∈ l -> Acc (needs related) (GetName image)
  | Some (Err e) => loopError e
  | _ => False
  end.
Proof.
  induction l as [|image l IH]; intros Hl; [by intros ? ?%not_elem_of_nil|].
  unfold loops; fold (loops images (S (length images))).
  assert (verdict [] (GetName image) (validateImageInfiniteLoop (S (length images)) (GetName image) [])) as Hv.
  { apply search_verdict; [apply list_elem_of_fmap_2; set_solver|constructor|set_solver|simpl; lia]. }
  destruct (validateImageInfiniteLoop _ _ _) as [[[loop|]|?|?]|]; try done.
  - destruct Hv as (front & z & -> & Hz & Hlink & _).
    simpl in Hz. apply list_elem_of_split in Hz as (pre & mid & ->).
    assert ((pre ++ z :: mid) ++ [z] = pre ++ z :: mid ++ [z]) as E by by rewrite <-List.app_assoc.
    rewrite E in Hlink |- *. exists pre, mid, z. split; [exact Hlink|reflexivity].
  - specialize (IH ltac:(set_solver)). simpl in Hv.
    destruct (loops images (S (length images)) l) as [[u|e|p]|]; [|exact IH|exact IH|exact IH].
    intros ? [->|?]%elem_of_cons; [done|by apply IH].
Qed.
End found.

Lemma names_Ok :
  validateConflictBetweenImagesNames images = Ok tt <->
  NoDup (GetName <$> images) /\ ("" ∈ GetName <$> images -> namelessAlone).
Proof.
  unfold validateConflictBetweenImagesNames. rewrite Images_false, conflicts_Ok.
  pose proof (fun n => lookup_empty (M:=gmap string) (A:=ImageInterface) n). naive_solver.
Qed.

Lemma related_Ok :
  validateRelatedImages images = Ok tt <->
  forall image n, image ∈ images -> n ∈ relatedImageNameList (dependsOn image) -> n ∈ GetName <$> images.
Proof.
  unfold validateRelatedImages. rewrite Images_false, allFound_Ok. setoid_rewrite missing_nil. naive_solver.
Qed.

Lemma loops_Ok : validateRelatedImages images = Ok tt ->
  (validateInfiniteLoopBetweenRelatedImages images = Some (Ok tt) /\ forall n, Acc (needs related) n) \/
  (exists e, validateInfiniteLoopBetweenRelatedImages images = Some (Err e) /\ loopError e).
Proof.
  intros H. pose proof (proj1 related_Ok H) as Hf. unfold validateInfiniteLoopBetweenRelatedImages. rewrite Images_false.
  pose proof (loops_spec Hf images ltac:(done)) as Hl.
  destruct (loops images (S (length images)) images) as [[[]|e|p]|]; [|right; by exists e|by destruct Hl|by destruct Hl].
  left. split; [done|]. intros n. destruct (GetImage n) as [image|] eqn:E.
  - apply GetImage_Some in E as [Hi <-]. by apply Hl.
  - constructor. intros r. unfold needs, related. rewrite E. by intros ?%not_elem_of_nil.
Qed.

(** C13: the validation of the images of a werf.yaml always ends, never panics, and accepts exactly
    the lists of images in which the names differ, every image that one depends on is there, no image
    depends on itself through others, and, where an image has no name, at most one image is final: a
    nameless image beside others that are not final is accepted. *)
Theorem validation_exact :
  exists r, validateWerfConfig images = Some r /\ (forall p, r <> Panic p) /\ (r = Ok tt <-> valid).
Proof.
  unfold validateWerfConfig. destruct names_Ok as [Hn Hn'], related_Ok as [Hr Hr'].
  destruct (validateConflictBetweenImagesNames images) as [[]|e|p] eqn:Ec; [|exists (Err e)|by apply conflicts_no_panic in Ec].
  2:{ split; [done|]. split; [done|]. split; [done|]. intros [H1 H2 _ _]. exact (Hn' (conj H1 H2)). }
  destruct (validateRelatedImages images) as [[]|e|p] eqn:Er; [|exists (Err e)|by apply allFound_no_panic in Er].
  2:{ split; [done|]. split; [done|]. split; [done|]. intros [_ _ H _]. exact (Hr' H). }
  destruct (Hn eq_refl) as [Hnd Hal]. specialize (Hr eq_refl).
  destruct (loops_Ok Er) as [[-> Ha]|(e & -> & pre & mid & z & Hl & _)]; [exists (Ok tt)|exists (Err e)].
  - split; [done|]. split; [done|]. split; [|done]. intros _. by split.
  - split; [done|]. split; [done|]. split; [done|]. intros [_ _ _ H]. by destruct (chain_not_acc _ _ _ _ Hl (H z)).
Qed.

(** An error about a loop shows a chain of images that comes back to itself. *)
Theorem loop_error_shows_loop e :
  validateRelatedImages images = Ok tt ->
  validateInfiniteLoopBetweenRelatedImages images = Some (Err e) -> loopError e.
Proof. intros Hr He. destruct (loops_Ok Hr) as [[H _]|(e' & H & Hl)]; rewrite He in H; by simplify_eq. Qed.

(** * The images to process *)

(** The pattern is well-formed and matches the name, or does not. *)
Definition matches (pattern name : string) (b : bool) : Prop := Match.Match pattern name = Ok b.

Definition chosen (includes excludes : list string) (n : string) : Prop :=
  n ∈ GetName <$> images /\
  (includes = [] \/ exists p, p ∈ includes /\ matches p n true) /\
  (n ∈ includes \/ forall p, p ∈ excludes -> matches p n false).

Lemma matchPattern_Ok name pattern b : matchPattern name pattern = Ok b <-> matches pattern name b.
Proof. unfold matchPattern, matches. by destruct (Match.Match pattern name). Qed.

Lemma matching_Ok pattern names found : matching pattern names = Ok found ->
  forall n, n ∈ found <-> n ∈ names /\ matches pattern n true.
Proof.
  revert found. induction names as [|m names IH]; intros found; simpl; [intros [= <-]; set_solver|].
  destruct (matchPattern m pattern) as [b|e|e] eqn:Em; [|done..]. apply matchPattern_Ok in Em.
  destruct (matching pattern names) as [l|e|e] eqn:El; [|done..]. intros [= <-] n. specialize (IH l eq_refl n).
  assert (n = m -> matches pattern n true -> b = true) as Hb by (unfold matches in *; intros ->; congruence).
  rewrite elem_of_cons. destruct b; [rewrite elem_of_cons|]; naive_solver.
Qed.

Lemma includeEach_Ok names includes chosenSet r : includeEach names includes chosenSet = Ok r ->
  forall n, n ∈ r <-> n ∈ chosenSet \/ (n ∈ names /\ exists p, p ∈ includes /\ matches p n true).
Proof.
  revert chosenSet. induction includes as [|p includes IH]; intros chosenSet; simpl; [intros [= <-]; set_solver|].
  destruct (matching p names) as [[|m l]|e|e] eqn:E; try done. intros Hr n.
  rewrite (IH _ Hr n), elem_of_union, elem_of_list_to_set, (matching_Ok _ _ _ E). setoid_rewrite elem_of_cons. naive_solver.
Qed.

Lemma filterUsingIncludePatterns_Ok names includes r : filterUsingIncludePatterns names includes = Ok r ->
  forall n, n ∈ r <-> n ∈ names /\ (includes = [] \/ exists p, p ∈ includes /\ matches p n true).
Proof.
  unfold filterUsingIncludePatterns. destruct includes as [|p includes].
  - intros [= <-] n. rewrite elem_of_list_to_set. naive_solver.
  - intros H n. rewrite (includeEach_Ok _ _ _ _ H n). set_solver.
Qed.

Lemma shouldExclude_Ok name includes excludes b : shouldExclude name includes excludes = Ok b ->
  b = false <-> name ∈ includes \/ forall p, p ∈ excludes -> matches p name false.
Proof.
  induction excludes as [|p excludes IH]; simpl; [intros [= <-]; set_solver|].
  destruct (matchPattern name p) as [c|e|e] eqn:E; [|done..]. apply matchPattern_Ok in E.
  assert (matches p name false <-> c = false) as Hc by (unfold matches in *; split; congruence).
  setoid_rewrite elem_of_cons. case_bool_decide as Hin; destruct c; simpl; intros H.
  3:{ simplify_eq. split; [done|]. intros [?|Hf]; [done|]. discriminate (proj1 Hc (Hf p ltac:(by left))). }
  all: rewrite (IH H); naive_solver.
Qed.

Lemma filterUsingExcludePatterns_wlp (names : gset string) excludes includes s :
  wlp (filterUsingExcludePatterns names excludes includes) s (fun r _ =>
    forall n, n ∈ r <-> n ∈ names /\ (n ∈ includes \/ forall p, p ∈ excludes -> matches p n false)).
Proof.
  unfold filterUsingExcludePatterns. destruct excludes as [|p excludes]; [apply wlp_ret; set_solver|].
  apply wlp_bind. unfold iterate, wlp at 1. set (l := shuffle _ _).
  assert (forall n, n ∈ l <-> n ∈ names) as Hl 
    by (intros n; assert (l ≡ₚ elements names) as Hp by apply shuffle_perm; rewrite Hp; apply elem_of_elements).
  eapply wlp_mono; [apply (wlp_for_fold (fun dn (r : gset string) _ => forall n, n ∈ r <-> n ∈ dn /\
    (n ∈ includes \/ forall q, q ∈ p :: excludes -> matches q n false)))|]; [|set_solver|].
  - intros dn x r w _ Hr. apply wlp_bind, wlp_lift. intros b Hb%shouldExclude_Ok. apply wlp_ret. intros n.
    destruct b; [|set_solver]. rewrite Hr, elem_of_app, list_elem_of_singleton. naive_solver.
  - intros r w Hr n. cbv beta in Hr. by rewrite (Hr n), Hl.
Qed.

Lemma filterUsingFinalAttribute_elem names n :
  n ∈ filterUsingFinalAttribute images names <-> n ∈ names /\ exists image, GetImage n = Some image /\ IsFinal image = true.
Proof.
  unfold filterUsingFinalAttribute. rewrite list_elem_of_filter. destruct (GetImage n) as [image|]; naive_solver.
Qed.

(** The images to process are the ones that a pattern selects, or all without such a pattern, but
    those that a pattern excludes and that are not given by name; of these the final ones where only
    they are asked for; each once. *)
Theorem NewImagesToProcess_spec patterns includes excludes onlyFinal s :
  parsePatterns patterns = Ok (includes, excludes) ->
  wlp (NewImagesToProcess images patterns onlyFinal false) s (fun r _ =>
    NoDup (ImageNameList r) /\ (WithoutImages r = true <-> ImageNameList r = []) /\
    forall n, n ∈ ImageNameList r <-> chosen includes excludes n /\
      (onlyFinal = true -> exists image, GetImage n = Some image /\ IsFinal image = true)).
Proof.
  intros Hp. unfold NewImagesToProcess. apply wlp_bind, wlp_lift. rewrite Hp. intros ? [= <-].
  apply wlp_bind, wlp_lift. simpl. intros found Hf. apply wlp_bind.
  eapply wlp_mono; [apply filterUsingExcludePatterns_wlp|]. intros r s' Hr. apply wlp_bind.
  unfold iterate, wlp at 1. set (l := shuffle _ _). cbv zeta.
  assert (l ≡ₚ elements r) as Hl by apply shuffle_perm.
  assert (forall n, n ∈ l <-> chosen includes excludes n) as Hin.
  { intros n. cbv beta in Hr. rewrite Hl, elem_of_elements, (Hr n), (filterUsingIncludePatterns_Ok _ _ _ Hf n).
    unfold GetImageNameList. rewrite Images_false. unfold chosen. tauto. }
  assert (NoDup l) as Hnd by (rewrite Hl; apply NoDup_elements).
  apply wlp_ret. simpl. split; [|split].
  - destruct onlyFinal; [by apply NoDup_filter|done].
  - rewrite bool_decide_eq_true. apply length_zero_iff_nil.
  - intros n. destruct onlyFinal; [rewrite filterUsingFinalAttribute_elem|]; rewrite Hin; naive_solver.
Qed.
End config.
End WerfConfigProps.
