(* ===== verification/WerfConfigGroups.v ===== *)
(** The grouping of the images of a werf.yaml into independent sets (pkg/config/werf.go): it ends where
    no base image leads back to an image, and then gives the images that are needed, each once, as
    early as its relatives allow; it never ends where one does. *)
From S2P Require Import Prelude Go Slug GoMatch GoStd WerfConfig WerfConfigProps.
Import WerfConfig WerfConfigProps.

Module WerfConfigGroups.

(** * Lemmas on lists and maps *)

Lemma lookup_foldr_delete {A} (m : gmap string A) l k :
  foldr delete m l !! k = if bool_decide (k ∈ l) then None else m !! k.
Proof.
  induction l as [|x l IH]; [done|]. simpl. destruct (decide (k = x)) as [->|Hne].
  - rewrite lookup_delete_eq. by rewrite bool_decide_eq_true_2 by left.
  - rewrite lookup_delete_ne, IH by done. case_bool_decide; case_bool_decide; set_solver.
Qed.

Lemma NoDup_fmap_filter {A B} (f : A -> B) (P : A -> Prop) `{!forall x, Decision (P x)} l :
  NoDup (f <$> l) -> NoDup (f <$> filter P l).
Proof.
  induction l as [|x l IH]; [done|]. rewrite fmap_cons, NoDup_cons, filter_cons. intros [Hx Hn].
  case_decide; [|by apply IH]. rewrite fmap_cons, NoDup_cons. split; [|by apply IH].
  intros (y & E & Hy)%list_elem_of_fmap. apply list_elem_of_filter in Hy as [_ Hy].
  apply Hx. rewrite E. by apply list_elem_of_fmap_2.
Qed.

(** How many names come before the first one that is not a key. *)
Fixpoint keysBefore (m : gmap string (list string)) (l : list string) : nat :=
  match l with
  | [] => 0
  | n :: l' => match m !! n with None => 0 | Some _ => S (keysBefore m l') end
  end.

Lemma keysBefore_app m l k :
  (k <> [] -> exists n, n ∈ l /\ m !! n = None) -> keysBefore m (l ++ k) = keysBefore m l.
Proof.
  induction l as [|x l IH]; intros H; simpl.
  - destruct k as [|y k]; [done|]. destruct H as (n & Hn & _); [done|]. by apply not_elem_of_nil in Hn.
  - destruct (m !! x) eqn:E; [|done]. rewrite IH; [done|]. intros Hk.
    destruct (H Hk) as (n & [->|Hn]%elem_of_cons & Hm); [congruence|by exists n].
Qed.

(** * Layers of a graph *)

Section layers.
Variable deps : string -> list string.

(** Sets in which every name comes as early as the names it depends on allow, after [before]. *)
Inductive layered : gset string -> list (list string) -> Prop :=
| layered_nil before : layered before []
| layered_cons before cur rest :
    cur <> [] ->
    (forall x, x ∈ cur -> x ∉ before /\ list_to_set (deps x) ⊆ before) ->
    (forall x, x ∈ concat rest -> ~ list_to_set (deps x) ⊆ before) ->
    layered (list_to_set cur ∪ before) rest ->
    layered before (cur :: rest).

Definition dependsOnIt (a b : string) : Prop := b ∈ deps a.

Definition reached (names : list string) (x : string) : Prop :=
  exists n, n ∈ names /\ rtc dependsOnIt n x.

Lemma acc_rtc a b : Acc (needs deps) a -> rtc dependsOnIt a b -> Acc (needs deps) b.
Proof. intros Ha H. induction H as [|a c b Hac _ IH]; [done|]. apply IH. by eapply Acc_inv. Qed.

(** Some name has all that it depends on. *)
Lemma first_ready (toHandle : gmap string (list string)) (checked : gset string) x rs :
  (forall k ks, toHandle !! k = Some ks -> ks = deps k /\ forall r, r ∈ ks -> is_Some (toHandle !! r) \/ r ∈ checked) ->
  Acc (needs deps) x -> toHandle !! x = Some rs ->
  exists y ys, toHandle !! y = Some ys /\ forall r, r ∈ ys -> r ∈ checked.
Proof.
  intros Hc Ha. revert rs. induction Ha as [x _ IH]; intros rs Hx.
  destruct (Hc _ _ Hx) as [-> Hr].
  destruct (decide (Forall (fun r => r ∈ checked) (deps x))) as [Hf|Hf].
  { exists x, (deps x). split; [done|]. by apply Forall_forall. }
  apply not_Forall_Exists in Hf; [|apply _]. apply Exists_exists in Hf as (r & Hin & Hn).
  destruct (Hr r Hin) as [[rs Hrs]|]; [|done]. by apply (IH r Hin rs).
Qed.
End layers.

Section config.
Context {gq : GoQuote} {nd : Nondet} {us : UtilStrings}.
Variable images : list ImageInterface.

Abbreviation GetImage := (GetImage images).

(** * What an image depends on, its base image included *)

Definition updated (image : ImageInterface) : DependsOn :=
  if IsStapel image then
    mkDependsOn (match GetImage (GetFrom image) with Some _ => GetFrom image | None => "" end)
      (dep_Imports (dependsOn image)) (dep_Dependencies (dependsOn image))
  else dependsOn image.

Definition relatives (n : string) : list string :=
  match GetImage n with Some image => relatedImageNameList (updated image) | None => [] end.

Lemma updateDependencies_wp image s (Q : DependsOn -> Cfg -> Prop) :
  (forall s', Q (updated image) s') -> wp (updateDependencies images image) s Q.
Proof.
  intros H. unfold updateDependencies, updated in *. destruct (IsStapel image); [|by apply wp_ret].
  simpl. destruct (GetImage (GetFrom image)); [by apply wp_ret|]. by apply wp_bind, wp_ret.
Qed.

Hypothesis Hfound : validateRelatedImages images = Ok tt.

Lemma relatives_found n r : r ∈ relatives n -> r ∈ GetName <$> images.
Proof.
  unfold relatives. destruct (GetImage n) as [image|] eqn:E; [|by intros ?%not_elem_of_nil].
  apply GetImage_Some in E as [Hi _]. pose proof (fun m => proj1 (related_Ok images) Hfound image m Hi) as Hf.
  unfold updated. destruct (IsStapel image) eqn:Es; [|by apply Hf].
  unfold relatedImageNameList in *. simpl. intros [Hr|Hr]%elem_of_app; [|apply Hf; set_solver].
  destruct (GetImage (GetFrom image)) as [base|] eqn:Eb; simpl in Hr; [|by apply not_elem_of_nil in Hr].
  case_bool_decide; [|by apply not_elem_of_nil in Hr].
  apply list_elem_of_singleton in Hr as ->. apply GetImage_Some in Eb as [Hb <-]. by apply list_elem_of_fmap_2.
Qed.

(** * The walk over the images *)

Section walk.
Variable names : list string.
Hypothesis Hnames : names ⊆ GetName <$> images.

Abbreviation reached := (reached relatives names).

Lemma reached_found x : reached x -> x ∈ GetName <$> images.
Proof.
  intros (n & Hn & H). apply rtc_inv_r in H as [<-|(y & _ & H)]; [by apply Hnames|]. by eapply relatives_found.
Qed.

Lemma reached_step x r : reached x -> r ∈ relatives x -> reached r.
Proof. intros (n & Hn & H) Hr. exists n. split; [done|]. by eapply rtc_r. Qed.

Record walkInv (stack : list string) (m : gmap string (list string)) : Prop := {
  walk_stack : forall n, n ∈ stack -> reached n;
  walk_keys : forall k rs, m !! k = Some rs ->
    rs = relatives k /\ reached k /\ forall r, r ∈ rs -> r ∈ stack \/ is_Some (m !! r);
  walk_names : forall n, n ∈ names -> n ∈ stack \/ is_Some (m !! n);
}.

Lemma walkInv_start : walkInv names ∅.
Proof. split; [intros n Hn; by exists n|intros k rs; by rewrite lookup_empty|by left]. Qed.

Lemma walkInv_step n stack m :
  walkInv (n :: stack) m ->
  walkInv (stack ++ filter (fun r => <[n := relatives n]> m !! r = None) (relatives n)) (<[n := relatives n]> m).
Proof.
  intros [Hs Hk Hn]. assert (forall x, x ∈ n :: stack \/ is_Some (m !! x) ->
    x ∈ stack ++ filter (fun r => <[n := relatives n]> m !! r = None) (relatives n) \/
    is_Some (<[n := relatives n]> m !! x)) as Hm.
  { intros x [[->|H]%elem_of_cons|H]; [right|left; set_solver|right; apply lookup_insert_is_Some'; by right].
    rewrite lookup_insert_eq. by eexists. }
  split.
  - intros x [Hx|Hx]%elem_of_app; [apply Hs; by right|]. apply list_elem_of_filter in Hx as [_ Hx].
    eapply reached_step; [apply Hs; by left|done].
  - intros k rs. destruct (decide (k = n)) as [->|Hne].
    + rewrite lookup_insert_eq. intros [= <-]. split; [done|]. split; [apply Hs; by left|]. intros r Hr.
      destruct (<[n := relatives n]> m !! r) eqn:E; [right; by eexists|left].
      apply elem_of_app. right. by apply list_elem_of_filter.
    + rewrite lookup_insert_ne by done. intros Hks. destruct (Hk _ _ Hks) as (? & ? & Hr). naive_solver.
  - intros x Hx. by apply Hm, Hn.
Qed.

Lemma walkInv_end m : walkInv [] m -> forall k rs, m !! k = Some rs <-> reached k /\ rs = relatives k.
Proof.
  intros [_ Hk Hn] k rs. split; [intros H; by destruct (Hk _ _ H) as (-> & ? & _)|].
  intros [(n & Hin & H) ->]. assert (is_Some (m !! k)) as [ks E].
  { destruct (Hn n Hin) as [?%not_elem_of_nil|Hs]; [done|]. clear Hin. induction H as [|a b c Hab _ IH]; [done|].
    apply IH. destruct Hs as [as_ Ha]. destruct (Hk _ _ Ha) as (-> & _ & Hr).
    by destruct (Hr b Hab) as [?%not_elem_of_nil|]. }
  rewrite E. by destruct (Hk _ _ E) as (-> & _).
Qed.

Definition unkeyed (m : gmap string (list string)) : nat :=
  size (list_to_set (C:=gset string) (GetName <$> images) ∖ dom m).

Definition walked (r : option (gmap string (list string))) : Prop :=
  exists m, r = Some m /\ walkInv [] m.

Lemma relativesLoop_step fuel n stack m s Q :
  reached n ->
  (forall s', let m' := <[n := relatives n]> m in
     wp (relativesLoop images fuel (stack ++ filter (fun r => m' !! r = None) (relatives n)) m') s' Q) ->
  wp (relativesLoop images (S fuel) (n :: stack) m) s Q.
Proof.
  intros Hn H. cbn [relativesLoop]. destruct (GetImage_is_Some images n (reached_found n Hn)) as [image E].
  rewrite E. apply wp_bind, updateDependencies_wp. intros s'. cbv zeta.
  assert (relatedImageNameList (updated image) = relatives n) as -> by (unfold relatives; by rewrite E).
  apply H.
Qed.

Lemma unkeyed_insert n m : reached n -> m !! n = None -> unkeyed (<[n := relatives n]> m) < unkeyed m.
Proof.
  intros Hn Hm. unfold unkeyed. apply subset_size. rewrite dom_insert_L.
  apply not_elem_of_dom in Hm. apply reached_found in Hn. set_solver.
Qed.

(** Either a name becomes a key or the next one that is none comes nearer. *)
Lemma walk_ends : forall u b stack m, unkeyed m = u -> keysBefore m stack = b -> walkInv stack m ->
  exists enough, forall fuel, enough <= fuel -> forall s,
    wp (relativesLoop images fuel stack m) s (fun r _ => walked r).
Proof.
  induction u as [u IHu] using lt_wf_ind. induction b as [b IHb] using lt_wf_ind.
  intros [|n stack] m Hu Hb Hi.
  { exists 0. intros [|fuel] _ s; apply wp_ret; by exists m. }
  pose proof (walk_stack _ _ Hi n ltac:(by left)) as Hn. pose proof (walkInv_step _ _ _ Hi) as Hi'.
  assert (exists enough, forall fuel, enough <= fuel -> forall s,
    wp (relativesLoop images fuel (stack ++ filter (fun r => <[n := relatives n]> m !! r = None) (relatives n))
      (<[n := relatives n]> m)) s (fun r _ => walked r)) as [enough He].
  { destruct (m !! n) as [rs|] eqn:E.
    - destruct (walk_keys _ _ Hi _ _ E) as (-> & _ & Hr). rewrite insert_id in Hi' |- * by done.
      eapply IHb; [|done|reflexivity|done]. simpl in Hb. rewrite E in Hb. rewrite keysBefore_app; [lia|].
      intros Hne. destruct (filter _ _) as [|x l] eqn:Ef; [done|].
      assert (x ∈ x :: l) as Hx by by left. rewrite <-Ef in Hx. apply list_elem_of_filter in Hx as [Hx1 Hx2].
      destruct (Hr x Hx2) as [[->|H]%elem_of_cons|[? H]]; [congruence|by exists x|congruence].
    - eapply IHu; [|reflexivity..|done]. subst u. by apply unkeyed_insert. }
  exists (S enough). intros [|fuel] Hf s; [lia|]. apply relativesLoop_step; [done|]. intros s'. apply He. lia.
Qed.

(** * The sets *)

Record groupInv (toHandle : gmap string (list string)) (checked : gset string) : Prop := {
  group_keys : forall k rs, toHandle !! k = Some rs ->
    k ∉ checked /\ rs = relatives k /\ forall r, r ∈ rs -> is_Some (toHandle !! r) \/ r ∈ checked;
}.

Definition ready (checked : gset string) (toHandle : gmap string (list string)) (cur : list string) : Prop :=
  NoDup cur /\
  forall x, x ∈ cur <-> exists rs, toHandle !! x = Some rs /\ forall r, r ∈ rs -> r ∈ checked.

Lemma currentRelatives_ready checked toHandle l :
  l ≡ₚ map_to_list toHandle -> ready checked toHandle (currentRelatives checked l).
Proof.
  intros Hl. unfold currentRelatives. split.
  - apply NoDup_fmap_filter. rewrite Hl. apply NoDup_fst_map_to_list.
  - intros x. rewrite list_elem_of_fmap. setoid_rewrite list_elem_of_filter. setoid_rewrite Hl. split.
    + intros ([y rs] & -> & Hf & Hin%elem_of_map_to_list). exists rs. split; [done|].
      simpl in Hf. rewrite List.forallb_forall in Hf. intros r Hr%list_elem_of_In.
      by eapply bool_decide_eq_true_1, Hf.
    + intros (rs & Hx & Hr). exists (x, rs). split; [done|]. split; [|by apply elem_of_map_to_list].
      apply List.forallb_forall. intros r Hin%list_elem_of_In. by apply bool_decide_eq_true_2, Hr.
Qed.

Lemma groupInv_step toHandle checked cur :
  groupInv toHandle checked -> ready checked toHandle cur ->
  groupInv (foldr delete toHandle cur) (list_to_set cur ∪ checked).
Proof.
  intros [Hk] [_ Hc]. split. intros k rs. rewrite lookup_foldr_delete.
  case_bool_decide as Hin; [done|]. intros Hks. destruct (Hk _ _ Hks) as (Hn & -> & Hr).
  split; [set_solver|]. split; [done|]. intros r Hr'. rewrite lookup_foldr_delete.
  case_bool_decide; [right; set_solver|]. destruct (Hr r Hr'); [by left|right; set_solver].
Qed.

Lemma groupLoop_unfold fuel toHandle checked sets s Q :
  toHandle <> ∅ ->
  (forall s' cur, ready checked toHandle cur ->
     wp (groupLoop fuel (foldr delete toHandle cur) (list_to_set cur ∪ checked) (sets ++ [cur])) s' Q) ->
  wp (groupLoop (S fuel) toHandle checked sets) s Q.
Proof.
  intros Hne H. cbn [groupLoop]. rewrite bool_decide_eq_false_2 by done. apply wp_bind.
  unfold wp, iterate. cbv zeta. apply H, currentRelatives_ready. apply shuffle_perm.
Qed.

Definition grouped (toHandle : gmap string (list string)) (checked : gset string) (sets : list (list string))
  (r : option (list (list string))) : Prop :=
  exists more, r = Some (sets ++ more) /\ layered relatives checked more /\ NoDup (concat more) /\
    forall x, x ∈ concat more <-> is_Some (toHandle !! x).

Lemma ready_shrinks checked toHandle cur :
  ready checked toHandle cur -> cur <> [] -> size (dom (foldr delete toHandle cur)) < size (dom toHandle).
Proof.
  intros [_ Hc] Hne. apply subset_size. destruct cur as [|x cur]; [done|].
  destruct (proj1 (Hc x) ltac:(by left)) as (rs & Hx & _). split.
  - intros y. rewrite !elem_of_dom, lookup_foldr_delete. case_bool_decide; [by intros []|done].
  - intros H. specialize (H x). rewrite !elem_of_dom, lookup_foldr_delete in H.
    rewrite bool_decide_eq_true_2 in H by by left. destruct H as [? ?]; [by eexists|done].
Qed.

Lemma grouped_cons toHandle checked sets cur r :
  groupInv toHandle checked -> ready checked toHandle cur -> cur <> [] ->
  grouped (foldr delete toHandle cur) (list_to_set cur ∪ checked) (sets ++ [cur]) r ->
  grouped toHandle checked sets r.
Proof.
  intros [Hk] [Hnd Hc] Hne (more & -> & Hl & Hmd & Hm). setoid_rewrite lookup_foldr_delete in Hm.
  exists (cur :: more). split; [by rewrite <-List.app_assoc|]. split; [|split].
  - constructor; [done| | |done].
    + intros x (rs & Hx & Hr)%Hc. destruct (Hk _ _ Hx) as (Hn & -> & _). split; [done|]. set_solver.
    + intros x Hx Hsub. apply Hm in Hx as [rs Hx]. case_bool_decide as Hin; [done|].
      destruct (Hk _ _ Hx) as (_ & -> & _). apply Hin, Hc. exists (relatives x). set_solver.
  - simpl. apply NoDup_app. split; [done|]. split; [|done]. intros x Hx [rs Hm']%Hm. by case_bool_decide.
  - intros x. simpl. rewrite elem_of_app, Hm. case_bool_decide as Hin; [|naive_solver].
    split; [|by left]. intros _. apply Hc in Hin as (rs & -> & _). by eexists.
Qed.

Lemma group_any fuel : forall toHandle checked sets s,
  groupInv toHandle checked -> (forall k, is_Some (toHandle !! k) -> Acc (needs relatives) k) ->
  wp (groupLoop fuel toHandle checked sets) s (fun r _ =>
    grouped toHandle checked sets r \/ (r = None /\ fuel < size (dom toHandle))).
Proof.
  induction fuel as [|fuel IH]; intros toHandle checked sets s Hi Ha; destruct (decide (toHandle = ∅)) as [->|Hne].
  1,3: apply wp_ret; left; exists []; rewrite List.app_nil_r; split; [done|]; split; [constructor|];
    split; [constructor|]; intros x; rewrite lookup_empty; split; [by intros ?%not_elem_of_nil|by intros []].
  { unfold groupLoop. rewrite bool_decide_eq_false_2 by done. apply wp_ret. right. split; [done|].
    destruct (size (dom toHandle)) eqn:E; [|lia]. destruct Hne. apply dom_empty_inv_L.
    by apply leibniz_equiv, size_empty_inv. }
  apply groupLoop_unfold; [done|]. intros s' cur Hr.
  assert (cur <> []) as Hc.
  { apply map_choose in Hne as (x & rs & Hx). intros ->. destruct Hi as [Hk].
    destruct (first_ready relatives toHandle checked x rs) as (y & ys & Hy); [|apply Ha; by eexists|done|].
    - intros k ks Hks. destruct (Hk _ _ Hks) as (_ & -> & H). by split.
    - apply (not_elem_of_nil y), Hr. by exists ys. }
  eapply wp_mono; [apply IH|simpl].
  - by apply groupInv_step.
  - intros k. rewrite lookup_foldr_delete. case_bool_decide; [by intros []|apply Ha].
  - intros r _ [H|[-> H]]; [left; by apply (grouped_cons _ _ _ cur)|right].
    pose proof (ready_shrinks _ _ _ Hr Hc). split; [done|lia].
Qed.

(** ** Cycles *)

Lemma walk_any_fuel fuel : forall stack m s, walkInv stack m ->
  wp (relativesLoop images fuel stack m) s (fun r _ => r = None \/ walked r).
Proof.
  induction fuel as [|fuel IH]; intros [|n stack] m s Hi.
  1,3: apply wp_ret; right; by exists m.
  { apply wp_ret. by left. }
  apply relativesLoop_step; [apply (walk_stack _ _ Hi); by left|]. intros s'. by apply IH, walkInv_step.
Qed.

(** Names none of which is ready before another one. *)
Record blocked (C : string -> Prop) (toHandle : gmap string (list string)) (checked : gset string) : Prop := {
  blocked_keys : forall x, C x -> toHandle !! x = Some (relatives x) /\ x ∉ checked;
  blocked_next : forall x, C x -> exists r, r ∈ relatives x /\ C r;
}.

Lemma blocked_step C toHandle checked cur :
  blocked C toHandle checked -> ready checked toHandle cur ->
  blocked C (foldr delete toHandle cur) (list_to_set cur ∪ checked).
Proof.
  intros [Hk Hn] [_ Hc]. split; [|done]. intros x Hx. destruct (Hk x Hx) as [Ht Hx'].
  assert (x ∉ cur) as Hcur.
  { intros (rs & E & Hr)%Hc. destruct (Hn x Hx) as (r & Hin & HC). rewrite Ht in E. simplify_eq.
    by apply (Hk r HC), Hr. }
  rewrite lookup_foldr_delete, bool_decide_eq_false_2 by done. split; [done|]. set_solver.
Qed.

Lemma group_hangs C y fuel : forall toHandle checked sets s, C y -> blocked C toHandle checked ->
  wp (groupLoop fuel toHandle checked sets) s (fun r _ => r = None).
Proof.
  induction fuel as [|fuel IH]; intros toHandle checked sets s Hy Hb.
  all: assert (toHandle <> ∅) as Hne by (intros ->; by destruct (blocked_keys _ _ _ Hb y Hy)).
  - unfold groupLoop. rewrite bool_decide_eq_false_2 by done. by apply wp_ret.
  - apply groupLoop_unfold; [done|]. intros s' cur Hr. apply IH; [done|]. by apply blocked_step.
Qed.

Definition onCycle (y x : string) : Prop := tc (dependsOnIt relatives) y x /\ tc (dependsOnIt relatives) x y.

Lemma onCycle_next y x : onCycle y x -> exists r, r ∈ relatives x /\ onCycle y r.
Proof.
  intros [Hyx Hxy]. inversion Hxy as [? ? H|? z ? H Hz]; subst.
  - exists y. split; [done|]. by split; eapply tc_transitive.
  - exists z. split; [done|]. split; [|done]. by eapply tc_r.
Qed.

Lemma walked_blocked y m : reached y -> walkInv [] m -> blocked (onCycle y) m ∅.
Proof.
  intros Hy Hm. split; [|apply onCycle_next]. intros x [Hyx _]. split; [|set_solver].
  apply walkInv_end; [done|]. split; [|done]. destruct Hy as (n & Hn & H). exists n. split; [done|].
  etrans; [done|]. by apply tc_rtc.
Qed.

Lemma walked_grouped m : walkInv [] m -> groupInv m ∅ /\ size (dom m) <= length images.
Proof.
  intros Hm. pose proof (walkInv_end m Hm) as He. split.
  - split. intros k rs Hk. split; [set_solver|]. apply He in Hk as [Hk ->]. split; [done|].
    intros r Hr. left. exists (relatives r). apply He. split; [|done]. by eapply reached_step.
  - rewrite <-(length_fmap GetName images). unfold size, set_size. simpl. apply submseteq_length.
    apply NoDup_submseteq; [apply NoDup_elements|]. intros x [rs Hx]%elem_of_elements%elem_of_dom.
    apply He in Hx as [Hx _]. by apply reached_found.
Qed.

Lemma getSpecificImages_wp l s : l ⊆ GetName <$> images ->
  wp (getSpecificImages images l) s (fun r s' => r = l /\ s' = s).
Proof.
  induction l as [|n l IH]; intros Hl; [done|]. cbn [getSpecificImages].
  destruct (GetImage_is_Some images n ltac:(set_solver)) as [image ->]. apply wp_bind.
  eapply wp_mono; [apply IH; set_solver|]. by intros ? ? [-> ->].
Qed.
End walk.

(** What the sets are. *)
Definition groupsOf (itp : ImagesToProcess) (sets : list (list string)) : Prop :=
  layered relatives ∅ sets /\ NoDup (concat sets) /\
  forall x, x ∈ concat sets <-> WithoutImages itp = false /\ reached relatives (ImageNameList itp) x.

Section groups.
Variable itp : ImagesToProcess.
Hypothesis Hn : ImageNameList itp ⊆ GetName <$> images.
Hypothesis Ha : forall n, n ∈ ImageNameList itp -> Acc (needs relatives) n.

Lemma walked_groups fuel m s : walkInv (ImageNameList itp) [] m -> WithoutImages itp = false ->
  wp (groupLoop fuel m ∅ []) s (fun r _ =>
    (exists sets, r = Some sets /\ groupsOf itp sets) \/ (r = None /\ fuel < length images)).
Proof.
  intros Hm Hw. destruct (walked_grouped (ImageNameList itp) Hn m Hm) as [Hg Hs].
  eapply wp_mono; [apply (group_any (ImageNameList itp) Hn fuel m ∅ [] s Hg)|].
  - intros k [rs Hk]. apply (walkInv_end _ m Hm) in Hk as [(n & Hin & Hr) _]. by eapply acc_rtc; [apply Ha|].
  - intros r s'' [(sets & -> & Hl & Hnd & Hx)|[-> Hf]]; [left|right; split; [done|lia]].
    exists sets. split; [done|]. split; [done|]. split; [done|]. intros x. rewrite Hx, Hw. split.
    + intros [rs Hk]. by apply (walkInv_end _ m Hm) in Hk as [Hk _].
    + intros [_ Hr]. exists (relatives x). by apply (walkInv_end _ m Hm).
Qed.

Lemma no_groups s : WithoutImages itp = true ->
  forall fuel, wp (GroupImagesByIndependentSets images fuel itp) s (fun r _ => exists sets, r = Some sets /\ groupsOf itp sets).
Proof.
  intros Hw fuel. unfold GroupImagesByIndependentSets. rewrite Hw. apply wp_ret. exists []. split; [done|].
  split; [constructor|]. split; [constructor|]. rewrite Hw. intros x. split; [by intros ?%not_elem_of_nil|by intros []].
Qed.

Lemma grouping_ends :
  exists enough, forall fuel, enough <= fuel -> forall s,
    wp (GroupImagesByIndependentSets images fuel itp) s (fun r _ => exists sets, r = Some sets /\ groupsOf itp sets).
Proof.
  destruct (WithoutImages itp) eqn:Hw.
  { exists 0. intros fuel _ s. by apply no_groups. }
  destruct (walk_ends (ImageNameList itp) Hn _ _ (ImageNameList itp) ∅ eq_refl eq_refl (walkInv_start _)) as [enough He].
  exists (enough + length images). intros fuel Hf s. unfold GroupImagesByIndependentSets. rewrite Hw. apply wp_bind.
  eapply wp_mono; [by eapply getSpecificImages_wp|]. intros l s' [-> ->]. apply wp_bind.
  eapply wp_mono; [apply He; lia|]. intros r s' (m & -> & Hm).
  eapply wp_mono; [by apply walked_groups|]. intros r w [?|[_ ?]]; [done|lia].
Qed.
(** C14: where the base images do not lead back to an image either, the grouping ends, and its sets
    are exactly the images that the chosen ones need, each once, in the first set that comes after
    all its relatives. *)
Theorem grouping_spec :
  exists enough, forall fuel, enough <= fuel -> forall s,
    wp (GroupImagesByIndependentSets images fuel itp) s (fun r _ => exists sets, r = Some sets /\ groupsOf itp sets).
Proof. exact grouping_ends. Qed.
End groups.

(** C15: where a chosen image leads to one that leads back to itself, base images included, the
    grouping never ends, whatever the fuel: the validation of the file follows fromArtifact but not
    from, so such a file passes it. *)
Theorem grouping_hangs itp y :
  ImageNameList itp ⊆ GetName <$> images -> WithoutImages itp = false ->
  reached relatives (ImageNameList itp) y -> tc (dependsOnIt relatives) y y ->
  forall fuel s, wp (GroupImagesByIndependentSets images fuel itp) s (fun r _ => r = None).
Proof.
  intros Hn Hw Hy Hc fuel s. unfold GroupImagesByIndependentSets. rewrite Hw. apply wp_bind.
  eapply wp_mono; [by eapply getSpecificImages_wp|]. intros l s' [-> ->]. apply wp_bind.
  eapply wp_mono; [apply walk_any_fuel; [done|apply walkInv_start]|].
  intros r s' [->|(m & -> & Hm)]; [by apply wp_ret|].
  apply (group_hangs (ImageNameList itp) Hn (onCycle y) y); [done|].
  by apply (walked_blocked (ImageNameList itp) Hn).
Qed.
End config.
End WerfConfigGroups.

Import WerfConfig WerfConfigProps WerfConfigGroups.

(** A small werf.yaml, and files with loops. *)
Module WerfConfigExamples.

#[local] Existing Instance in_order.
#[local] Instance quote : GoQuote := fun s => s.

Fixpoint uniq (l : list string) : list string :=
  match l with
  | [] => []
  | x :: l' => x :: filter (fun y => y <> x) (uniq l')
  end.

Lemma uniq_in l x : x ∈ uniq l <-> x ∈ l.
Proof.
  induction l as [|y l IH]; [done|]. simpl. rewrite !elem_of_cons, list_elem_of_filter, IH.
  destruct (decide (x = y)); naive_solver.
Qed.

Lemma uniq_once l : NoDup (uniq l).
Proof.
  induction l as [|y l IH]; [constructor|]. simpl. constructor; [|by apply NoDup_filter].
  rewrite list_elem_of_filter. by intros [? _].
Qed.

#[local] Instance strings : UtilStrings.
Proof.
  refine {| UniqStrings := uniq; RejectEmptyStrings := filter (fun x => x <> "");
    UniqAppendString l x := if existsb (String.eqb x) l then l else l ++ [x] |}.
  - exact uniq_in.
  - exact uniq_once.
  - abstract (intros l x; rewrite list_elem_of_filter; tauto).
  - reflexivity.
Defined.

Definition stapel (name from : string) (imports deps : list string) : ImageInterface :=
  mkImageInterface name true true [] from "" ((fun i => mkImport i false "") <$> imports) deps name.

(** An application over a base image, with the files of one more image. *)
Definition app : list ImageInterface :=
  [stapel "app" "base" ["assets"] []; stapel "base" "alpine" [] []; stapel "assets" "base" [] []].

(** Two images each of which is the base of the other one. *)
Definition ring : list ImageInterface := [stapel "a" "b" [] []; stapel "b" "a" [] []].

(** Two images that import each other. *)
Definition loop : list ImageInterface := [stapel "a" "alpine" ["b"] []; stapel "b" "alpine" ["a"] []].

Definition all_of (names : list string) : ImagesToProcess := mkImagesToProcess names names false.

Example app_accepted : validateWerfConfig app = Some (Ok tt).
Proof. vm_compute. reflexivity. Qed.

Example app_groups :
  (GroupImagesByIndependentSets app 10 (all_of ["app"]) (mkCfg 0 ∅)).1 =
  Ok (Some [["base"]; ["assets"]; ["app"]]).
Proof. vm_compute. reflexivity. Qed.

Example loop_refused :
  match validateWerfConfig loop with Some (Err e) => err_text e | _ => "" end
  = "infinite loop detected: a -> b -> a".
Proof. vm_compute. reflexivity. Qed.

Lemma loop_error_shows_loop_witness : exists e, loopError loop e.
Proof.
  assert (exists e, validateInfiniteLoopBetweenRelatedImages loop = Some (Err e)) as [e He]
    by (eexists; vm_compute; reflexivity).
  exists e. apply loop_error_shows_loop; [vm_compute; reflexivity|exact He].
Defined.

Lemma app_acc n : n ∈ ["app"; "base"; "assets"] -> Acc (needs (relatives app)) n.
Proof.
  assert (Acc (needs (relatives app)) "base") as Hb.
  { constructor. intros r Hr. vm_compute in Hr. by apply not_elem_of_nil in Hr. }
  assert (Acc (needs (relatives app)) "assets") as Ha.
  { constructor. intros r Hr. vm_compute in Hr. by apply list_elem_of_singleton in Hr as ->. }
  intros Hn. repeat apply elem_of_cons in Hn as [->|Hn]; [|done|done|by apply not_elem_of_nil in Hn].
  constructor. intros r Hr. vm_compute in Hr. set_solver.
Qed.

Lemma grouping_spec_witness :
  exists enough, forall fuel, enough <= fuel -> forall s,
    wp (GroupImagesByIndependentSets app fuel (all_of ["app"])) s (fun r _ => exists sets,
      r = Some sets /\ groupsOf app (all_of ["app"]) sets).
Proof.
  apply (grouping_spec app).
  - vm_compute. reflexivity.
  - intros x ->%list_elem_of_singleton. left.
  - intros n ->%list_elem_of_singleton. apply app_acc. left.
Defined.

Lemma grouping_hangs_witness :
  validateWerfConfig ring = Some (Ok tt) /\
  forall fuel s, wp (GroupImagesByIndependentSets ring fuel (all_of ["a"])) s (fun r _ => r = None).
Proof.
  split; [vm_compute; reflexivity|].
  apply (grouping_hangs ring) with (itp := all_of ["a"]) (y := "a").
  - vm_compute. reflexivity.
  - intros x ->%list_elem_of_singleton. left.
  - reflexivity.
  - exists "a". split; [left|constructor].
  - eapply tc_l; [|apply tc_once]; vm_compute; left.
Defined.

Lemma NewImagesToProcess_spec_witness :
  let m := NewImagesToProcess app ["a*"; "!assets"] false false (mkCfg 0 ∅) in
  m.1 = Ok (mkImagesToProcess ["app"] ["app"] false) /\
  wlp (NewImagesToProcess app ["a*"; "!assets"] false false) (mkCfg 0 ∅) (fun r _ =>
    NoDup (ImageNameList r) /\ (WithoutImages r = true <-> ImageNameList r = []) /\
    forall n, n ∈ ImageNameList r <-> chosen app ["a*"] ["assets"] n /\
      (false = true -> exists image, GetImage app n = Some image /\ IsFinal image = true)).
Proof.
  split; [vm_compute; reflexivity|]. apply NewImagesToProcess_spec. vm_compute. reflexivity.
Defined.

End WerfConfigExamples.
