(* ===== verification/Dockerfile.v ===== *)
(** pkg/dockerfile and pkg/dockerfile/frontend: the stages of a Dockerfile as werf keeps them, the
    references between them, and how they are made from what buildkit parsed. Buildkit's parser and
    its expansion of words are parameters. A pointer to a stage is its position in the file. *)
From S2P Require Import Prelude Go GoStd.

Module Dockerfile.

(** [strings.ToLower] and [ToUpper] on ASCII, of which the names of stages and commands are. *)
Definition lower (c : Ascii.ascii) : Ascii.ascii :=
  let n := Ascii.nat_of_ascii c in
  if (65 <=? n) && (n <=? 90) then Ascii.ascii_of_nat (n + 32) else c.

Fixpoint ToLower (s : string) : string :=
  match s with "" => "" | String c s' => String (lower c) (ToLower s') end.

Definition upper (c : Ascii.ascii) : Ascii.ascii :=
  let n := Ascii.nat_of_ascii c in
  if (97 <=? n) && (n <=? 122) then Ascii.ascii_of_nat (n - 32) else c.

Fixpoint ToUpper (s : string) : string :=
  match s with "" => "" | String c s' => String (upper c) (ToUpper s') end.

(** * Instructions *)

(** instructions.KeyValuePairOptional *)
Record KeyValuePairOptional := mkKV { Key : string; Value : option string }.

Definition ValueString (kv : KeyValuePairOptional) : string := default "" (Value kv).

(** The commands of buildkit's package instructions, with what is read of them here; [words] stands
    for the rest. *)
Inductive InstructionData :=
| AddCommand (words : list string)
| ArgCommand (Args : list KeyValuePairOptional)
| CmdCommand
| CopyCommand (From : string) (words : list string)
| EntrypointCommand
| EnvCommand (Env : list (string * string))
| ExposeCommand (Ports : list string)
| HealthCheckCommand
| LabelCommand (words : list string)
| MaintainerCommand (words : list string)
| OnbuildCommand
| RunCommand (MountsFrom : list string) (words : list string)
| ShellCommand
| StopSignalCommand (words : list string)
| UserCommand (words : list string)
| VolumeCommand (words : list string)
| WorkdirCommand (words : list string).

(** Functions of buildkit, of common-go and of pkg/container_backend/thirdparty that the conversion
    calls: the names of commands, the expander of words with or without SkipUnsetEnv, and Expand of
    the commands that have it. *)
Class Buildkit := {
  Name : InstructionData -> string;
  ProcessWordWithMap : bool -> string -> gmap string string -> string * option error;
  ProcessWordsWithMap : bool -> string -> gmap string string -> res (list string);
  SingleWordExpand : (string -> res string) -> InstructionData -> option (res InstructionData);
  GetPlatformMetaArgsMap : string -> res (gmap string string);
  MergeMaps : gmap string string -> gmap string string -> gmap string string;
}.

Record DockerfileStageInstruction := mkInstruction {
  Data : InstructionData;
  Env : gmap string string;
  DependenciesByStageRef : gmap string nat;
}.

Definition NewDockerfileStageInstruction (data : InstructionData) (env : gmap string string)
  : DockerfileStageInstruction := mkInstruction data env ∅.

(** * Stages *)

Record DockerfileStage := mkStage {
  Dependencies : list nat;
  BaseStage : option nat;
  BaseName : string;
  Index : Z;
  StageName : string;
  WerfImageName : string;
  Platform : string;
  Instructions : list DockerfileStageInstruction;
}.

(** The index is not kept: the field has the zero value. *)
Definition NewDockerfileStage (index : Z) (baseName stageName werfImageName : string)
  (instructions : list DockerfileStageInstruction) (platform : string) : DockerfileStage :=
  mkStage [] None baseName 0 stageName werfImageName platform instructions.

Definition HasStageName (stage : DockerfileStage) : bool := bool_decide (StageName stage <> "").

Definition GetWerfImageName (stage : DockerfileStage) : string :=
  if HasStageName stage then WerfImageName stage +:+ "/stage/" +:+ StageName stage
  else WerfImageName stage +:+ "/stage" +:+ itoa (Index stage).

Definition LogName (stage : DockerfileStage) : string :=
  if HasStageName stage then StageName stage else "<" +:+ itoa (Index stage) +:+ ">".

(** Dockerfile with the options that are read here. *)
Record Dockerfile := mkDockerfile { Target : string; Stages : list DockerfileStage }.

Definition GetTargetStage (df : Dockerfile) : res nat :=
  if bool_decide (Target df = "") then
    match length (Stages df) with 0 => Panic "index out of range [-1]" | S n => Ok n end
  else
    match list_find (fun s => StageName s = Target df) (Stages df) with
    | Some (i, _) => Ok i
    | None => Err (Errorf "%s is not a valid target dockerfile stage" [FS (Target df)])
    end.

Definition FindStage (df : Dockerfile) (name : string) : option nat :=
  fst <$> list_find (fun s => StageName s = name) (Stages df).

(** * References between stages *)

(** The stages, which are changed one after the other. *)
Abbreviation P := (prog (list DockerfileStage)).

Definition set_deps (s : DockerfileStage) (deps : list nat) (base : option nat) : DockerfileStage :=
  mkStage deps base (BaseName s) (Index s) (StageName s) (WerfImageName s) (Platform s) (Instructions s).

Definition set_instructions (s : DockerfileStage) (l : list DockerfileStageInstruction) : DockerfileStage :=
  mkStage (Dependencies s) (BaseStage s) (BaseName s) (Index s) (StageName s) (WerfImageName s) (Platform s) l.

Definition getStage (i : nat) : P DockerfileStage := fun stages =>
  match stages !! i with Some s => (Ok s, stages) | None => (Panic "index out of range", stages) end.

Definition setStage (i : nat) (s : DockerfileStage) : P unit := fun stages => (Ok tt, <[i := s]> stages).

Definition indexOf (stages : list DockerfileStage) (i : nat) : Z :=
  match stages !! i with Some s => Index s | None => 0 end.

Definition AppendDependencyStage (i dep : nat) : P unit := fun stages =>
  match stages !! i with
  | Some s =>
      if existsb (fun d => Z.eqb (indexOf stages d) (indexOf stages dep)) (Dependencies s) then (Ok tt, stages)
      else (Ok tt, <[i := set_deps s (Dependencies s ++ [dep]) (BaseStage s)]> stages)
  | None => (Panic "index out of range", stages)
  end.

(** Of the [k]-th instruction of the [i]-th stage. *)
Definition SetDependencyByStageRef (i k : nat) (ref : string) (dep : nat) : P unit := fun stages =>
  match stages !! i with
  | Some s =>
      match Instructions s !! k with
      | Some instr =>
          match DependenciesByStageRef instr !! ref with
          | Some d =>
              if negb (Z.eqb (indexOf stages d) (indexOf stages dep)) then (Panic "already set instruction dependency", stages)
              else (Ok tt, stages)
          | None =>
              (Ok tt, <[i := set_instructions s (<[k := mkInstruction (Data instr) (Env instr)
                 (<[ref := dep]> (DependenciesByStageRef instr))]> (Instructions s))]> stages)
          end
      | None => (Panic "index out of range", stages)
      end
  | None => (Panic "index out of range", stages)
  end.

(** The stages by their names in lower case; of several with one name the last one. *)
Definition stagesByName (stages : list DockerfileStage) : gmap string nat :=
  foldl (fun m x => if HasStageName x.2 then <[ToLower (StageName x.2) := x.1]> m else m) ∅ (imap pair stages).

Definition findStageByRef (ref : string) (stages : list DockerfileStage) (stageByName : gmap string nat) : option nat :=
  match stageByName !! ToLower ref with
  | Some stg => Some stg
  | None =>
      match ParseInt ref with
      | Some ind => if ((0 <=? ind) && (ind <? Z.of_nat (length stages)))%Z then Some (Z.to_nat ind) else None
      | None => None
      end
  end.

Section setup.
Context `{!Buildkit}.
Variable stageByName : gmap string nat.

(** One reference of the [k]-th instruction; [err] is the error where there is no such stage. *)
Definition resolveRef (i k : nat) (ref : string) (err : string -> error) : P unit :=
  if bool_decide (ref = "") then mret tt
  else fun stages =>
    match findStageByRef ref stages stageByName with
    | Some dep => (AppendDependencyStage i dep ;; SetDependencyByStageRef i k ref dep) stages
    | None => (Err (err (default "" (LogName <$> stages !! i))), stages)
    end.

Definition setupInstruction (i k : nat) (instr : DockerfileStageInstruction) : P unit :=
  match Data instr with
  | CopyCommand from _ =>
      resolveRef i k from (fun logName =>
        Errorf "unable to resolve stage %q instruction %s --from=%q: no such stage" [FQ logName; FS (Name (Data instr)); FQ from])
  | RunCommand mounts _ =>
      for_each mounts (fun from => resolveRef i k from (fun logName =>
        Errorf "unable to resolve stage %q instruction %s --mount=from=%s: no such stage"
          [FQ logName; FS (Name (Data instr)); FS from]))
  | _ => mret tt
  end.

Definition setupStage (i : nat) : P unit :=
  stage ← getStage i;
  match stageByName !! ToLower (BaseName stage) with
  | Some base => setStage i (set_deps stage (Dependencies stage ++ [base]) (Some base))
  | None => mret tt
  end ;;
  for_each (imap pair (Instructions stage)) (fun x => setupInstruction i x.1 x.2).
End setup.

Definition SetupDockerfileStagesDependencies `{!Buildkit} : P unit := fun stages =>
  for_each (seq 0 (length stages)) (setupStage (stagesByName stages)) stages.

(** * From what buildkit parsed *)

(** instructions.Stage *)
Record BuildkitStage := mkBuildkitStage {
  bk_BaseName : string; bk_Name : string; bk_Platform : string; bk_Commands : list InstructionData;
}.

Section frontend.
Context `{!GoQuote, !Buildkit}.

Fixpoint mapRes {A B} (f : A -> res B) (l : list A) : res (list B) :=
  match l with
  | [] => Ok []
  | a :: l' =>
      match f a with
      | Ok b => match mapRes f l' with Ok bs => Ok (b :: bs) | Err e => Err e | Panic p => Panic p end
      | Err e => Err e
      | Panic p => Panic p
      end
  end.

Definition isDependencyArg (argKey : string) (dependenciesArgsKeys : list string) : bool :=
  existsb (fun dep => String.eqb dep argKey) dependenciesArgsKeys.

Definition removeDependenciesArgs (args : list KeyValuePairOptional) (dependenciesArgsKeys : list string)
  : list KeyValuePairOptional :=
  filter (fun arg => isDependencyArg (Key arg) dependenciesArgsKeys = false) args.

Definition expandWord (skipUnsetEnv : bool) (word : string) (env : gmap string string) : res string :=
  match ProcessWordWithMap skipUnsetEnv word env with (v, None) => Ok v | (_, Some e) => Err e end.

(** Expand of an instruction, in its environment. *)
Definition Expand (d : InstructionData) (env : gmap string string) (skipUnsetEnv : bool) : res InstructionData :=
  match SingleWordExpand (fun word => expandWord skipUnsetEnv word env) d with
  | Some r => r
  | None =>
      match d with
      | ExposeCommand ports =>
          l ← mapRes (fun p => match ProcessWordsWithMap skipUnsetEnv p env with
                               | Err e => Err (Wrapf "unable to expand expose instruction port %q: %w" [FQ p] e)
                               | r => r
                               end) ports;
          Ok (ExposeCommand (concat l))
      | _ => Ok d
      end
  end.

Definition createAndExpandInstruction (data : InstructionData) (env : gmap string string)
  : res DockerfileStageInstruction :=
  match Expand data env true with
  | Ok d => Ok (NewDockerfileStageInstruction d env)
  | Err e => Err (Wrapf "unable to expand instruction %q: %w" [FQ (Name data)] e)
  | Panic p => Panic p
  end.

(** The environment after an ARG: a value given to the build, else the one of the instruction, else the
    one of the ARGs before the first stage. *)
Definition argEnv (metaArgs buildArgs : gmap string string) (env : gmap string string) (arg : KeyValuePairOptional)
  : gmap string string :=
  match buildArgs !! Key arg with
  | Some v => <[Key arg := v]> env
  | None =>
      match Value arg with
      | Some v => <[Key arg := v]> env
      | None => match metaArgs !! Key arg with Some v => <[Key arg := v]> env | None => env end
      end
  end.

Definition nextEnv (metaArgs buildArgs env : gmap string string) (d : InstructionData) : gmap string string :=
  match d with
  | ArgCommand args => foldl (argEnv metaArgs buildArgs) env args
  | EnvCommand kvs => foldl (fun m kv => <[kv.1 := kv.2]> m) env kvs
  | _ => env
  end.

Fixpoint convertCommands (metaArgs buildArgs : gmap string string) (dependenciesArgsKeys : list string)
  (env : gmap string string) (cmds : list InstructionData) : res (list DockerfileStageInstruction) :=
  match cmds with
  | [] => Ok []
  | cmd :: cmds' =>
      let data := match cmd with
                  | ArgCommand args => ArgCommand (removeDependenciesArgs args dependenciesArgsKeys)
                  | _ => cmd
                  end in
      instr ← createAndExpandInstruction data env;
      l ← convertCommands metaArgs buildArgs dependenciesArgsKeys (nextEnv metaArgs buildArgs env (Data instr)) cmds';
      Ok (instr :: l)
  end.

Definition NewDockerfileStageFromBuildkitStage (index : Z) (werfImageName : string) (stage : BuildkitStage)
  (metaArgs buildArgs : gmap string string) (dependenciesArgsKeys : list string) : res DockerfileStage :=
  l ← convertCommands metaArgs buildArgs dependenciesArgsKeys ∅ (bk_Commands stage);
  Ok (NewDockerfileStage index (bk_BaseName stage) (bk_Name stage) werfImageName l (bk_Platform stage)).

(** ** Arguments before the first stage *)

Definition metaArgsToMap (metaArgs : list KeyValuePairOptional) : gmap string string :=
  foldl (fun m arg => <[Key arg := ValueString arg]> m) ∅ metaArgs.

Definition setKVValue (kvpo : KeyValuePairOptional) (values : gmap string string) : KeyValuePairOptional :=
  match values !! Key kvpo with Some v => mkKV (Key kvpo) (Some v) | None => kvpo end.

(** An error of the expansion is dropped. *)
Definition metaArg (buildArgs : gmap string string) (dependenciesArgsKeys : list string)
  (optMetaArgs : list KeyValuePairOptional) (arg : KeyValuePairOptional) : list KeyValuePairOptional :=
  if isDependencyArg (Key arg) dependenciesArgsKeys then optMetaArgs
  else
    let arg := match Value arg with
               | Some v => mkKV (Key arg) (Some (ProcessWordWithMap true v (metaArgsToMap optMetaArgs)).1)
               | None => arg
               end in
    optMetaArgs ++ [setKVValue arg buildArgs].

Definition resolveMetaArgs (metaArgsCommands : list (list KeyValuePairOptional)) (buildArgs : gmap string string)
  (dependenciesArgsKeys : list string) (targetPlatform : string) : res (gmap string string) :=
  let optMetaArgs := foldl (metaArg buildArgs dependenciesArgsKeys) [] (concat metaArgsCommands) in
  match GetPlatformMetaArgsMap targetPlatform with
  | Ok platformMetaArgsMap => Ok (MergeMaps platformMetaArgsMap (metaArgsToMap optMetaArgs))
  | Err e => Err (Wrapf "unable to get platform args: %w" [] e)
  | Panic p => Panic p
  end.

(** DockerfileOptions *)
Record DockerfileOptions := mkOptions {
  opt_Target : string; BuildArgs : gmap string string; DependenciesArgsKeys : list string; TargetPlatform : string;
}.

Definition parseStage (metaArgs : gmap string string) (werfImageName : string) (opts : DockerfileOptions)
  (i : nat) (dockerStage : BuildkitStage) : res DockerfileStage :=
  match expandWord true (bk_BaseName dockerStage) metaArgs with
  | Err e => Err (Wrapf "unable to expand docker stage base image name %q: %w" [FQ (bk_BaseName dockerStage)] e)
  | Panic p => Panic p
  | Ok name =>
      if bool_decide (name = "") then
        Err (Errorf "expanded docker stage base image name %q to empty string: expected image name" [FQ (bk_BaseName dockerStage)])
      else
        match NewDockerfileStageFromBuildkitStage (Z.of_nat i) werfImageName
                (mkBuildkitStage name (bk_Name dockerStage) (bk_Platform dockerStage) (bk_Commands dockerStage))
                metaArgs (BuildArgs opts) (DependenciesArgsKeys opts) with
        | Err e => Err (Wrapf "error converting buildkit stage to dockerfile stage: %w" [] e)
        | r => r
        end
  end.

(** What buildkit parsed is given; the error of the setup of the references is dropped. *)
Definition ParseDockerfileWithBuildkit (dockerStages : list BuildkitStage)
  (dockerMetaArgsCommands : list (list KeyValuePairOptional)) (werfImageName : string) (opts : DockerfileOptions)
  : res Dockerfile :=
  match resolveMetaArgs dockerMetaArgsCommands (BuildArgs opts) (DependenciesArgsKeys opts) (TargetPlatform opts) with
  | Err e => Err (Wrapf "unable to process meta args: %w" [] e)
  | Panic p => Panic p
  | Ok metaArgs =>
      stages ← mapRes (fun x => parseStage metaArgs werfImageName opts x.1 x.2) (imap pair dockerStages);
      match SetupDockerfileStagesDependencies stages with
      | (Panic p, _) => Panic p
      | (_, stages) => Ok (mkDockerfile (opt_Target opts) stages)
      end
  end.

(** ** References as indices, of Dockerfiles that are not built by stages *)

Definition GetDockerStagesNameToIndexMap (stages : list BuildkitStage) : gmap string nat :=
  foldl (fun m x => let name := ToLower (bk_Name x.2) in
    if bool_decide (name <> itoa (Z.of_nat x.1)) then <[name := x.1]> m else m) ∅ (imap pair stages).

Definition resolveFrom (nameToIndex : gmap string nat) (from : string) : string :=
  if bool_decide (from <> "") then
    match nameToIndex !! ToLower from with Some val => itoa (Z.of_nat val) | None => from end
  else from.

Definition ResolveDockerStagesFromValue (stages : list BuildkitStage) : list BuildkitStage :=
  let nameToIndex := GetDockerStagesNameToIndexMap stages in
  (fun s => mkBuildkitStage (bk_BaseName s) (bk_Name s) (bk_Platform s)
     ((fun cmd => match cmd with
                  | CopyCommand from w => CopyCommand (resolveFrom nameToIndex from) w
                  | RunCommand mounts w => RunCommand (resolveFrom nameToIndex <$> mounts) w
                  | _ => cmd
                  end) <$> bk_Commands s)) <$> stages.

Definition GetDockerTargetStageIndex (dockerStages : list BuildkitStage) (dockerTargetStage : string) : res Z :=
  if bool_decide (dockerTargetStage = "") then Ok (Z.of_nat (length dockerStages) - 1)%Z
  else
    match list_find (fun s => bk_Name s = dockerTargetStage) dockerStages with
    | Some (i, _) => Ok (Z.of_nat i)
    | None => Err (Errorf "%s is not a valid target build stage" [FS dockerTargetStage])
    end.

End frontend.
End Dockerfile.
