(* ===== verification/DockerfileProps.v ===== *)
(** Theorems on pkg/dockerfile: what parsing a Dockerfile gives, and the names of its stages. *)
From S2P Require Import Prelude Go GoStd Dockerfile.
Import Dockerfile.

Module DockerfileProps.

Section props.
Context {gq : GoQuote} {bk : Buildkit}.

(** * The setup of the references *)

(** The references of the instructions lead to stages. *)
Definition inRange (n : nat) (s : DockerfileStage) : Prop :=
  forall instr ref d, instr ∈ Instructions s -> DependenciesByStageRef instr !! ref = Some d -> d < n.

(** What the setup does not change of a stage. *)
Definition sameStage (s s' : DockerfileStage) : Prop :=
  Index s' = Index s /\ StageName s' = StageName s /\ WerfImageName s' = WerfImageName s /\ BaseName s' = BaseName s /\
  Data <$> Instructions s' = Data <$> Instructions s.

Definition setupKeeps (st st' : list DockerfileStage) : Prop :=
  length st' = length st /\
  (forall i s', st' !! i = Some s' -> exists s, st !! i = Some s /\ sameStage s s') /\
  (Forall (inRange (length st)) st -> Forall (inRange (length st)) st').

#[local] Instance setupKeeps_preorder : PreOrder setupKeeps.
Proof.
  split.
  - intros st. split; [done|]. split; [|done]. intros i s Hs. by exists s.
  - intros a b c (Hl & Hs & Hr) (Hl' & Hs' & Hr'). split; [congruence|]. split; [|rewrite Hl in Hr'; auto].
    intros i s Hi. destruct (Hs' _ _ Hi) as (s1 & E1 & ? & ? & ? & ? & ?).
    destruct (Hs _ _ E1) as (s2 & E2 & ? & ? & ? & ? & ?). exists s2. split; [done|]. repeat split; congruence.
Qed.

Lemma set_keeps st i s s' :
  st !! i = Some s -> sameStage s s' -> (inRange (length st) s -> inRange (length st) s') ->
  setupKeeps st (<[i := s']> st).
Proof.
  intros Hi Hs Hr. split; [by rewrite length_insert|]. split.
  - intros j t. destruct (decide (i = j)) as [<-|Hne].
    + rewrite list_lookup_insert_eq by by eapply lookup_lt_Some. intros [= <-]. by exists s.
    + rewrite list_lookup_insert_ne by done. intros Hj. exists t. by repeat split.
  - intros Hf. apply Forall_insert; [done|]. apply Hr. by eapply Forall_lookup_1.
Qed.

Lemma keeps_AppendDependencyStage i dep : keeps setupKeeps (AppendDependencyStage i dep).
Proof.
  intros st. unfold AppendDependencyStage. destruct (st !! i) as [s|] eqn:E; [|reflexivity].
  case_match; [reflexivity|]. by apply (set_keeps _ _ s).
Qed.

Lemma keeps_SetDependencyByStageRef st i k ref dep :
  dep < length st -> setupKeeps st (SetDependencyByStageRef i k ref dep st).2.
Proof.
  intros Hd. unfold SetDependencyByStageRef. destruct (st !! i) as [s|] eqn:E; [|reflexivity].
  destruct (Instructions s !! k) as [instr|] eqn:Ek; [|reflexivity].
  destruct (DependenciesByStageRef instr !! ref) as [d|] eqn:Er; [by case_match|].
  apply (set_keeps _ _ s); [done| |].
  { repeat split. simpl. rewrite list_fmap_insert. apply list_insert_id. by rewrite list_lookup_fmap, Ek. }
  intros Hs instr' r d Hi. simpl in Hi.
  apply list_elem_of_lookup in Hi as [j Hj]. destruct (decide (k = j)) as [<-|Hne].
  - rewrite list_lookup_insert_eq in Hj by by eapply lookup_lt_Some. simplify_eq/=.
    intros [[_ <-]|[_ Hd']]%lookup_insert_Some; [done|].
    eapply (Hs instr); [by eapply list_elem_of_lookup_2|done].
  - rewrite list_lookup_insert_ne in Hj by done. intros Hd'. eapply (Hs instr'); [by eapply list_elem_of_lookup_2|done].
Qed.

(** References are resolved to stages. *)
Definition boundedNames (n : nat) (m : gmap string nat) : Prop := forall k d, m !! k = Some d -> d < n.

Lemma stagesByName_bounded st : boundedNames (length st) (stagesByName st).
Proof.
  unfold stagesByName. assert (forall l m, (forall x, x ∈ l -> x.1 < length st) -> boundedNames (length st) m ->
    boundedNames (length st) (foldl (fun (m : gmap string nat) (x : nat * DockerfileStage) =>
      if HasStageName x.2 then <[ToLower (StageName x.2) := x.1]> m else m) m l)) as H.
  { induction l as [|x l IH]; intros m Hl Hm; [done|]. simpl. apply IH; [intros y Hy; apply Hl; by right|].
    destruct (HasStageName x.2); [|done]. intros k d [[_ <-]|[_ ?]]%lookup_insert_Some; [apply Hl; by left|by eapply Hm]. }
  apply H; [|intros k d; by rewrite lookup_empty].
  intros x (i & y & -> & Hi)%elem_of_lookup_imap_1. by eapply lookup_lt_Some.
Qed.

Lemma findStageByRef_bounded ref st m d :
  boundedNames (length st) m -> findStageByRef ref st m = Some d -> d < length st.
Proof.
  intros Hm. unfold findStageByRef. destruct (m !! ToLower ref) eqn:E; [intros [= <-]; by eapply Hm|].
  destruct (ParseInt ref) as [z|]; [|done]. destruct (_ && _)%bool eqn:Ez; [|done]. intros [= <-].
  apply andb_true_iff in Ez as [H0 H1]. lia.
Qed.

Lemma keeps_resolveRef n m i k ref err : boundedNames n m ->
  forall st, length st = n -> setupKeeps st (resolveRef m i k ref err st).2.
Proof.
  intros Hm st <-. unfold resolveRef. case_bool_decide; [reflexivity|].
  destruct (findStageByRef ref st m) as [dep|] eqn:E; [|reflexivity].
  apply findStageByRef_bounded in E; [|done]. unfold mbind, prog_bind.
  pose proof (keeps_AppendDependencyStage i dep st) as Ha.
  destruct (AppendDependencyStage i dep st) as [[[]| |] st1]; [|done..]. simpl in Ha. etrans; [exact Ha|].
  apply keeps_SetDependencyByStageRef. destruct Ha as [-> _]. done.
Qed.

(** With the number of stages fixed. *)
Definition keepsOf (n : nat) (st st' : list DockerfileStage) : Prop := length st = n -> setupKeeps st st'.

#[local] Instance keepsOf_preorder n : PreOrder (keepsOf n).
Proof.
  split; [by intros st _|]. intros a b c H1 H2 Hn. specialize (H1 Hn). etrans; [done|]. apply H2.
  destruct H1 as [-> _]. done.
Qed.

Lemma keeps_setupStage n m i : boundedNames n m -> keeps (keepsOf n) (setupStage m i).
Proof.
  intros Hm st Hst. unfold setupStage. unfold mbind at 1, prog_bind at 1, getStage at 1.
  destruct (st !! i) as [s|] eqn:E; [|reflexivity].
  assert (keeps (keepsOf n) (for_each (imap pair (Instructions s)) (fun x => setupInstruction m i x.1 x.2))) as Hl.
  { apply keeps_for_each; [apply _|]. intros [k instr] _. unfold setupInstruction. simpl.
    destruct (Data instr); try (by intros ? ?).
    - intros w Hw. by eapply keeps_resolveRef.
    - apply keeps_for_each; [apply _|]. intros from _ w Hw. by eapply keeps_resolveRef. }
  destruct (m !! ToLower (BaseName s)) as [base|].
  - unfold mbind, prog_bind, setStage.
    assert (setupKeeps st (<[i := set_deps s (Dependencies s ++ [base]) (Some base)]> st)) as Hs by by apply (set_keeps _ _ s).
    etrans; [exact Hs|]. apply Hl. destruct Hs as [-> _]. done.
  - by apply Hl.
Qed.

Lemma keeps_Setup : keeps setupKeeps SetupDockerfileStagesDependencies.
Proof.
  intros st. unfold SetupDockerfileStagesDependencies.
  assert (keeps (keepsOf (length st)) (for_each (seq 0 (length st)) (setupStage (stagesByName st)))) as H.
  { apply keeps_for_each; [apply _|]. intros i _. apply keeps_setupStage, stagesByName_bounded. }
  by apply H.
Qed.

(** * The references that are recorded *)

Lemma wp_for_each {W A} (I : list A -> W -> Prop) (l : list A) (body : A -> prog W unit) :
  (forall dn x w, x ∈ l -> I dn w -> wp (body x) w (fun _ w' => I (dn ++ [x]) w')) ->
  forall w, I [] w -> wp (for_each l body) w (fun _ w' => I l w').
Proof using Type.
  intros Hb. assert (forall rest dn w, dn ++ rest = l -> I dn w -> wp (for_each rest body) w (fun _ w' => I l w')) as H;
    [|by intros; apply (H l [])].
  induction rest as [|x rest IH]; intros dn w E Hi; simpl.
  - rewrite app_nil_r in E. subst. by apply wp_ret.
  - apply wp_bind. eapply wp_mono; [apply Hb; [subst l; set_solver|exact Hi]|]. intros [] w' Hi'.
    apply (IH (dn ++ [x])); [by rewrite <-app_assoc|done].
Qed.

(** The stages and images that an instruction takes files from. *)
Definition referred (d : InstructionData) : list string :=
  match d with CopyCommand from _ => [from] | RunCommand mounts _ => mounts | _ => [] end.

Definition recorded (w : list DockerfileStage) (i k : nat) (ref : string) : Prop :=
  exists s instr, w !! i = Some s /\ Instructions s !! k = Some instr /\ is_Some (DependenciesByStageRef instr !! ref).

Section setup.
Variable st : list DockerfileStage.
Abbreviation names := (stagesByName st).
Abbreviation stageOf ref := (findStageByRef ref st names).

(** The stages on the way: what was parsed, with some references, each to the stage that it names. *)
Record settingUp (w : list DockerfileStage) : Prop := {
  up_length : length w = length st;
  up_index : forall i s, w !! i = Some s -> Index s = 0%Z;
  up_name : StageName <$> w = StageName <$> st;
  up_data : forall i s s0, w !! i = Some s -> st !! i = Some s0 -> Data <$> Instructions s = Data <$> Instructions s0;
  up_sound : forall i s instr ref d, w !! i = Some s -> instr ∈ Instructions s -> DependenciesByStageRef instr !! ref = Some d ->
    stageOf ref = Some d /\ ref ∈ referred (Data instr) /\ ref <> "";
}.

Definition grows (w w' : list DockerfileStage) : Prop := forall i k ref, recorded w i k ref -> recorded w' i k ref.

#[local] Instance grows_preorder : PreOrder grows.
Proof using Type. split; unfold grows; auto. Qed.

Lemma setting_deps w i s deps base : settingUp w -> w !! i = Some s ->
  settingUp (<[i := set_deps s deps base]> w) /\ grows w (<[i := set_deps s deps base]> w).
Proof using Type.
  intros [Hl Hx Hn Hd Hs] Hi. pose proof (lookup_lt_Some _ _ _ Hi) as Hlt.
  assert (forall j t, <[i := set_deps s deps base]> w !! j = Some t -> exists t0, w !! j = Some t0 /\
    Index t = Index t0 /\ Instructions t = Instructions t0) as Hj.
  { intros j t [(-> & <- & _)|[_ Ht]]%list_lookup_insert_Some; [by exists s|by exists t]. }
  split; [split|].
  - by rewrite length_insert.
  - intros j t (t0 & H0 & -> & _)%Hj. by eapply Hx.
  - rewrite list_fmap_insert, Hn. apply list_insert_id. rewrite <-Hn, list_lookup_fmap. by rewrite Hi.
  - intros j t s0 (t0 & H0 & _ & ->)%Hj. by apply (Hd j).
  - intros j t instr ref d (t0 & H0 & _ & ->)%Hj. by apply (Hs j t0).
  - intros j k ref (t & instr & Ht & Hk & Hr). destruct (decide (i = j)) as [<-|Hne].
    + rewrite Hi in Ht. injection Ht as <-. exists (set_deps s deps base), instr. by rewrite list_lookup_insert_eq.
    + exists t, instr. by rewrite list_lookup_insert_ne.
Qed.

Lemma setting_ref w i k s instr ref dep : settingUp w -> w !! i = Some s -> Instructions s !! k = Some instr ->
  stageOf ref = Some dep -> ref ∈ referred (Data instr) -> ref <> "" ->
  let instr' := mkInstruction (Data instr) (Env instr) (<[ref := dep]> (DependenciesByStageRef instr)) in
  let w' := <[i := set_instructions s (<[k := instr']> (Instructions s))]> w in
  settingUp w' /\ grows w w' /\ recorded w' i k ref.
Proof using Type.
  intros [Hl Hx Hn Hd Hs] Hi Hk Hr Hin Hne. pose proof (lookup_lt_Some _ _ _ Hi) as Hlt. pose proof (lookup_lt_Some _ _ _ Hk) as Hlk.
  cbv zeta. set (instr' := mkInstruction _ _ _). set (s' := set_instructions s _). split; [split|split].
  - by rewrite length_insert.
  - intros j t [(-> & <- & _)|[_ Ht]]%list_lookup_insert_Some; [by apply (Hx j s)|by eapply Hx].
  - rewrite list_fmap_insert, Hn. apply list_insert_id. rewrite <-Hn, list_lookup_fmap. by rewrite Hi.
  - intros j t s0 [(-> & <- & _)|[_ Ht]]%list_lookup_insert_Some H0; [|by eapply Hd]. simpl.
    rewrite list_fmap_insert, <-(Hd j s s0 Hi H0). apply list_insert_id. by rewrite list_lookup_fmap, Hk.
  - intros j t instr0 r d [(-> & <- & _)|[_ Ht]]%list_lookup_insert_Some Hin0; [|by eapply Hs]. simpl in Hin0.
    apply list_elem_of_lookup in Hin0 as [l [(-> & <- & _)|[_ H0]]%list_lookup_insert_Some]; [|eapply Hs; [done|by eapply list_elem_of_lookup_2]].
    simpl. intros [[<- <-]|[_ H0]]%lookup_insert_Some; [done|]. eapply Hs; [exact Hi|by eapply list_elem_of_lookup_2|done].
  - intros j l r (t & instr0 & Ht & Hl0 & Hr0). destruct (decide (i = j)) as [<-|Hij].
    + rewrite Hi in Ht. injection Ht as <-. destruct (decide (k = l)) as [<-|Hkl].
      * rewrite Hk in Hl0. injection Hl0 as <-. exists s', instr'. split; [by apply list_lookup_insert_eq|]. split; [by apply list_lookup_insert_eq|]. simpl.
        destruct (decide (ref = r)) as [<-|Hrr]; [rewrite lookup_insert_eq; by eexists|by rewrite lookup_insert_ne].
      * exists s', instr0. rewrite list_lookup_insert_eq by done. split; [done|]. split; [|done]. simpl. by rewrite list_lookup_insert_ne.
    + exists t, instr0. by rewrite list_lookup_insert_ne.
  - exists s', instr'. split; [by apply list_lookup_insert_eq|]. split; [by apply list_lookup_insert_eq|]. simpl. rewrite lookup_insert_eq. by eexists.
Qed.

(** The instruction at a place is there and refers to this. *)
Definition refersAt (w : list DockerfileStage) (i k : nat) (ref : string) : Prop :=
  exists s instr, w !! i = Some s /\ Instructions s !! k = Some instr /\ ref ∈ referred (Data instr).

Lemma refersAt_up w w' i k ref : settingUp w -> settingUp w' -> refersAt w i k ref -> refersAt w' i k ref.
Proof using Type.
  intros [Hl _ _ Hd _] [Hl' _ _ Hd' _] (s & instr & Hi & Hk & Hr).
  destruct (lookup_lt_is_Some_2 w' i) as [s' Hi']; [rewrite Hl', <-Hl; by eapply lookup_lt_Some|].
  destruct (lookup_lt_is_Some_2 st i) as [s0 H0]; [rewrite <-Hl; by eapply lookup_lt_Some|].
  assert ((Data <$> Instructions s') !! k = Some (Data instr)) as E.
  { by rewrite (Hd' i s' s0 Hi' H0), <-(Hd i s s0 Hi H0), list_lookup_fmap, Hk. }
  rewrite list_lookup_fmap in E. destruct (Instructions s' !! k) as [instr'|] eqn:Ek; [|done]. injection E as E.
  exists s', instr'. by rewrite E.
Qed.

Lemma resolveRef_records i k ref err w : settingUp w -> refersAt w i k ref -> (ref <> "" -> is_Some (stageOf ref)) ->
  wp (resolveRef names i k ref err) w (fun _ w' => settingUp w' /\ grows w w' /\ (ref <> "" -> recorded w' i k ref)).
Proof using Type.
  intros Hw Hat Href. unfold resolveRef. case_bool_decide as He; [by apply wp_ret|]. destruct (Href He) as [dep Hdep].
  assert (findStageByRef ref w names = Some dep) as E by (unfold findStageByRef in *; by rewrite (up_length w Hw)).
  unfold wp at 1. rewrite E. change (wp (AppendDependencyStage i dep;; SetDependencyByStageRef i k ref dep) w
    (fun _ w' => settingUp w' /\ grows w w' /\ (ref <> "" -> recorded w' i k ref))).
  apply wp_bind. eapply wp_mono with (Q := fun _ w1 => settingUp w1 /\ grows w w1).
  { destruct Hat as (s & instr & Hi & _). unfold AppendDependencyStage, wp. rewrite Hi. destruct (existsb _ _); [by split|]. by apply setting_deps. }
  intros _ w1 [Hw1 Hg]. destruct (refersAt_up w w1 i k ref Hw Hw1 Hat) as (s & instr & Hi & Hk & Hr).
  unfold SetDependencyByStageRef, wp. rewrite Hi, Hk. destruct (DependenciesByStageRef instr !! ref) as [d|] eqn:Ed.
  - destruct (up_sound w1 Hw1 i s instr ref d Hi) as (Ed' & _ & _); [by eapply list_elem_of_lookup_2|done|]. rewrite Hdep in Ed'. injection Ed' as <-.
    rewrite Z.eqb_refl. simpl. split; [done|]. split; [done|]. intros _. exists s, instr. by rewrite Ed.
  - destruct (setting_ref w1 i k s instr ref dep Hw1 Hi Hk Hdep Hr He) as (H1 & H2 & H3). split; [done|]. split; [by etrans|done].
Qed.

(** All references of all instructions lead to stages. *)
Hypothesis Hall : forall s instr ref, s ∈ st -> instr ∈ Instructions s -> ref ∈ referred (Data instr) -> ref <> "" -> is_Some (stageOf ref).

Lemma setupInstruction_records i k instr w s0 : settingUp w -> st !! i = Some s0 -> Data <$> Instructions s0 !! k = Some (Data instr) ->
  wp (setupInstruction names i k instr) w (fun _ w' => settingUp w' /\ grows w w' /\
    forall ref, ref ∈ referred (Data instr) -> ref <> "" -> recorded w' i k ref).
Proof using Hall.
  intros Hw H0 Hk0. assert (forall w ref, settingUp w -> ref ∈ referred (Data instr) -> refersAt w i k ref) as Hat.
  { intros w1 ref Hw1 Hr. destruct (lookup_lt_is_Some_2 w1 i) as [s Hs]; [rewrite (up_length w1 Hw1); by eapply lookup_lt_Some|].
    pose proof (up_data w1 Hw1 i s s0 Hs H0) as E. apply (f_equal (fun l => l !! k)) in E. rewrite !list_lookup_fmap, Hk0 in E.
    destruct (Instructions s !! k) as [instr'|] eqn:Ek; [|done]. injection E as E. exists s, instr'. by rewrite E. }
  assert (forall ref, ref ∈ referred (Data instr) -> ref <> "" -> is_Some (stageOf ref)) as Hst.
  { intros ref Hr. destruct (Instructions s0 !! k) as [instr0|] eqn:E0; [|done]. injection Hk0 as E.
    rewrite <-E in Hr. apply (Hall s0 instr0 ref); [by eapply list_elem_of_lookup_2|by eapply list_elem_of_lookup_2|done]. }
  unfold setupInstruction. destruct (Data instr) eqn:Ed; simpl in *;
    try (apply wp_ret; split; [done|]; split; [done|]; by intros ref ?%not_elem_of_nil).
  - eapply wp_mono; [apply resolveRef_records; [done|apply Hat; [done|left]|apply Hst; left]|].
    intros _ w' (H1 & H2 & H3). split; [done|]. split; [done|]. by intros ref ->%list_elem_of_singleton.
  - apply (wp_for_each (fun dn w' => settingUp w' /\ grows w w' /\ forall ref, ref ∈ dn -> ref <> "" -> recorded w' i k ref));
      [|split; [done|]; split; [done|]; by intros ref ?%not_elem_of_nil].
    intros dn ref w1 Hin (Hw1 & Hg & Hd). eapply wp_mono; [apply resolveRef_records; [done|by apply Hat|by apply Hst]|].
    intros _ w2 (H1 & H2 & H3). split; [done|]. split; [by etrans|]. intros r [Hr| ->%list_elem_of_singleton]%elem_of_app; [|done].
    intros Hne. by apply H2, Hd.
Qed.

Lemma setupStage_records i s0 w : settingUp w -> st !! i = Some s0 ->
  wp (setupStage names i) w (fun _ w' => settingUp w' /\ grows w w' /\
    forall k instr ref, Instructions s0 !! k = Some instr -> ref ∈ referred (Data instr) -> ref <> "" -> recorded w' i k ref).
Proof using Hall.
  intros Hw H0. destruct (lookup_lt_is_Some_2 w i) as [s Hs]; [rewrite (up_length w Hw); by eapply lookup_lt_Some|].
  unfold setupStage. apply wp_bind. unfold wp at 1, getStage. rewrite Hs. apply wp_bind.
  eapply wp_mono with (Q := fun _ w1 => settingUp w1 /\ grows w w1).
  { destruct (names !! ToLower (BaseName s)) as [base|]; [|by apply wp_ret]. unfold setStage, wp. by apply setting_deps. }
  intros _ w1 [Hw1 Hg]. pose proof (up_data w Hw i s s0 Hs H0) as Ed.
  eapply wp_mono; [apply (wp_for_each (fun dn w' => settingUp w' /\ grows w w' /\
    forall k instr ref, (k, instr) ∈ dn -> ref ∈ referred (Data instr) -> ref <> "" -> recorded w' i k ref))|].
  - intros dn [k instr] w2 Hin (Hw2 & Hg2 & Hd). apply elem_of_lookup_imap_1 in Hin as (k' & x & [= <- <-] & Hk).
    eapply wp_mono; [apply (setupInstruction_records i k instr w2 s0 Hw2 H0)|].
    + apply (f_equal (fun l => l !! k)) in Ed. rewrite !list_lookup_fmap, Hk in Ed. done.
    + intros _ w3 (H1 & H2 & H3). split; [done|]. split; [by etrans|]. intros k' instr' ref [Hin|[= -> ->]%list_elem_of_singleton]%elem_of_app; [|by apply H3].
      intros Hr Hne. by eapply H2, Hd.
  - split; [done|]. split; [done|]. by intros k instr ref ?%not_elem_of_nil.
  - intros _ w' (H1 & H2 & H3). split; [done|]. split; [done|]. intros k instr ref Hk Hr Hne.
    apply (f_equal (fun l => l !! k)) in Ed. rewrite !list_lookup_fmap, Hk in Ed.
    destruct (Instructions s !! k) as [instr'|] eqn:Ek; [|done]. injection Ed as Ed.
    apply (H3 k instr' ref); [|by rewrite Ed|done]. by eapply elem_of_lookup_imap_2 with (f := pair).
Qed.

Lemma Setup_records : settingUp st ->
  wp SetupDockerfileStagesDependencies st (fun _ w' => settingUp w' /\
    forall i s k instr ref, st !! i = Some s -> Instructions s !! k = Some instr -> ref ∈ referred (Data instr) -> ref <> "" ->
      recorded w' i k ref).
Proof using Hall.
  intros Hst. unfold SetupDockerfileStagesDependencies. unfold wp.
  assert (wp (for_each (seq 0 (length st)) (setupStage names)) st (fun _ w' => settingUp w' /\
    forall i, i ∈ seq 0 (length st) -> forall s k instr ref, st !! i = Some s -> Instructions s !! k = Some instr ->
      ref ∈ referred (Data instr) -> ref <> "" -> recorded w' i k ref)) as H.
  { apply (wp_for_each (fun dn w' => settingUp w' /\ forall i, i ∈ dn -> forall s k instr ref, st !! i = Some s ->
      Instructions s !! k = Some instr -> ref ∈ referred (Data instr) -> ref <> "" -> recorded w' i k ref));
      [|split; [done|]; by intros i ?%not_elem_of_nil].
    intros dn i w Hin (Hw & Hd). apply elem_of_seq in Hin as [_ Hlt]. destruct (lookup_lt_is_Some_2 st i Hlt) as [s0 H0].
    eapply wp_mono; [by apply (setupStage_records i s0)|]. intros _ w' (H1 & H2 & H3). split; [done|].
    intros j [Hj| ->%list_elem_of_singleton]%elem_of_app s k instr ref Hs Hk Hr Hne; [by eapply H2, Hd|].
    rewrite H0 in Hs. injection Hs as <-. by eapply H3. }
  unfold wp in H. destruct (for_each _ _ st) as [[[]| |] w']; [|done..]. destruct H as [H1 H2]. split; [done|].
  intros i s k instr ref Hs. apply (H2 i); [|done]. apply elem_of_seq. apply lookup_lt_Some in Hs. lia.
Qed.
End setup.

(** * What is parsed *)

Lemma mapRes_Ok {A B} (f : A -> res B) l k : mapRes f l = Ok k -> Forall2 (fun a b => f a = Ok b) l k.
Proof.
  revert k. induction l as [|a l IH]; intros k; simpl; [intros [= <-]; constructor|].
  destruct (f a) eqn:E; [|done..]. destruct (mapRes f l); [|done..]. intros [= <-]. constructor; [done|by apply IH].
Qed.

(** No instruction refers to a stage yet. *)
Lemma convertCommands_fresh metaArgs buildArgs keys cmds : forall env l,
  convertCommands metaArgs buildArgs keys env cmds = Ok l ->
  forall instr, instr ∈ l -> DependenciesByStageRef instr = ∅.
Proof.
  induction cmds as [|cmd cmds IH]; intros env l; simpl; [intros [= <-] instr ?%not_elem_of_nil; done|].
  unfold mbind at 1, res_bind at 1. unfold createAndExpandInstruction.
  destruct (Expand _ _ _) as [d| |]; [|done..]. simpl. unfold mbind, res_bind.
  destruct (convertCommands _ _ _ _ _) as [l'| |] eqn:E; [|done..]. intros [= <-] instr [->|Hi]%elem_of_cons; [done|].
  by eapply IH.
Qed.

Definition parsedStage (werfImageName : string) (n : nat) (s : DockerfileStage) : Prop :=
  Index s = 0%Z /\ WerfImageName s = werfImageName /\ inRange n s.

Lemma parseStage_parsed metaArgs name opts i bs s n :
  parseStage metaArgs name opts i bs = Ok s -> parsedStage name n s /\ StageName s = bk_Name bs.
Proof.
  unfold parseStage. destruct (expandWord _ _ _) as [base| |]; [|done..]. case_bool_decide; [done|].
  unfold NewDockerfileStageFromBuildkitStage, mbind, res_bind.
  destruct (convertCommands _ _ _ _ _) as [l| |] eqn:E; [|done..]. intros [= <-]. split; [|done].
  split; [done|]. split; [done|]. intros instr ref d Hi Hd. simpl in Hi.
  rewrite (convertCommands_fresh _ _ _ _ _ _ E instr Hi) in Hd. by rewrite lookup_empty in Hd.
Qed.

(** Every stage has the index 0 and the name of the image, and the references lead to stages. *)
Lemma parsed_stages dockerStages metaArgs name opts d :
  ParseDockerfileWithBuildkit dockerStages metaArgs name opts = Ok d ->
  length (Stages d) = length dockerStages /\
  forall i s, Stages d !! i = Some s -> parsedStage name (length (Stages d)) s /\
    StageName s = default "" (bk_Name <$> dockerStages !! i).
Proof.
  unfold ParseDockerfileWithBuildkit. destruct (resolveMetaArgs _ _ _ _) as [ma| |]; [|done..].
  unfold mbind, res_bind. destruct (mapRes _ _) as [st| |] eqn:E; [|done..]. apply mapRes_Ok in E.
  pose proof (Forall2_length _ _ _ E) as Hlen. rewrite length_imap in Hlen.
  assert (forall i s, st !! i = Some s -> parsedStage name (length st) s /\
    StageName s = default "" (bk_Name <$> dockerStages !! i)) as Hp.
  { intros i s Hs. destruct (Forall2_lookup_r _ _ _ _ _ E Hs) as ([j bs] & Hb & Hf).
    rewrite list_lookup_imap in Hb. destruct (dockerStages !! i) as [bs'|] eqn:Ei; [|done]. simpl in Hb. simplify_eq.
    by apply (parseStage_parsed _ _ _ _ _ _ (length st)) in Hf. }
  pose proof (keeps_Setup st) as (Hl & Hs & Hr). destruct (SetupDockerfileStagesDependencies st) as [r st'].
  simpl in Hl, Hs, Hr. assert (d = mkDockerfile (opt_Target opts) st' -> length (Stages d) = length dockerStages /\
    forall i s, Stages d !! i = Some s -> parsedStage name (length (Stages d)) s /\
    StageName s = default "" (bk_Name <$> dockerStages !! i)) as Hd.
  { intros ->. simpl. split; [congruence|]. intros i s Hi. destruct (Hs i s Hi) as (s0 & H0 & Ex & En & Ew & _).
    destruct (Hp i s0 H0) as [(Hx & Hw & _) Hn]. split; [|congruence]. split; [congruence|]. split; [congruence|].
    rewrite Hl. assert (Forall (inRange (length st)) st) as Hf by (apply Forall_lookup; intros j t Hj; by apply Hp in Hj as [(_ & _ & ?) _]).
    by eapply (Forall_lookup_1 _ _ _ _ (Hr Hf)). }
  destruct r; intros [= <-]; by apply Hd.
Qed.

(** ** References *)

Lemma stagesByName_names a b : StageName <$> a = StageName <$> b -> stagesByName a = stagesByName b.
Proof using Type.
  intros E. assert (forall l : list DockerfileStage, stagesByName l =
    foldl (fun m x => if bool_decide (x.2 <> "") then <[ToLower x.2 := x.1]> m else m) ∅ (imap pair (StageName <$> l))) as H.
  { intros l. unfold stagesByName. generalize (∅ : gmap string nat). rewrite imap_fmap.
    assert (forall f g : nat -> nat, (forall i, f i = g i) -> forall m, foldl (fun (m : gmap string nat) (x : nat * DockerfileStage) =>
      if HasStageName x.2 then <[ToLower (StageName x.2) := x.1]> m else m) m (imap (fun i => pair (f i)) l) =
      foldl (fun m x => if bool_decide (x.2 <> "") then <[ToLower x.2 := x.1]> m else m) m (imap (fun i x => (g i, StageName x)) l)) as Hi.
    { clear. induction l as [|x l IH]; intros f g Hfg m; [done|]. simpl. rewrite Hfg. unfold HasStageName at 2.
      apply (IH (f ∘ S) (g ∘ S)). intros i. apply Hfg. }
    intros m. apply (Hi id id). done. }
  by rewrite !H, E.
Qed.

(** Every reference of an instruction names a stage. *)
Definition resolvable (d : Dockerfile) : Prop := forall s instr ref, s ∈ Stages d -> instr ∈ Instructions s ->
  ref ∈ referred (Data instr) -> ref <> "" -> is_Some (findStageByRef ref (Stages d) (stagesByName (Stages d))).

Lemma findStageByRef_length ref a b m : length a = length b -> findStageByRef ref a m = findStageByRef ref b m.
Proof using Type. unfold findStageByRef. by intros ->. Qed.

Lemma parseStage_up metaArgs name opts dockerStages st :
  mapRes (fun x => parseStage metaArgs name opts x.1 x.2) (imap pair dockerStages) = Ok st -> settingUp st st.
Proof using Type.
  intros E%mapRes_Ok. split; [done| |done| |].
  - intros i s Hs. destruct (Forall2_lookup_r _ _ _ _ _ E Hs) as (x & _ & Hf). by apply (parseStage_parsed _ _ _ _ _ _ 0) in Hf as [(Hx & _) _].
  - intros i s s0 Hs H0. congruence.
  - intros i s instr ref t Hs Hi Hd. destruct (Forall2_lookup_r _ _ _ _ _ E Hs) as ([j bs] & _ & Hf).
    unfold parseStage in Hf. destruct (expandWord _ _ _) as [base| |]; [|done..]. case_bool_decide; [done|].
    unfold NewDockerfileStageFromBuildkitStage, mbind, res_bind in Hf. destruct (convertCommands _ _ _ _ _) as [l| |] eqn:El; [|done..].
    injection Hf as <-. by rewrite (convertCommands_fresh _ _ _ _ _ _ El instr Hi), lookup_empty in Hd.
Qed.

(** Where every reference names a stage, the recorded stages are those that the instructions refer to. *)
Theorem references_recorded dockerStages metaArgs name opts d :
  ParseDockerfileWithBuildkit dockerStages metaArgs name opts = Ok d -> resolvable d ->
  forall s instr ref t, s ∈ Stages d -> instr ∈ Instructions s ->
    DependenciesByStageRef instr !! ref = Some t <->
    ref ∈ referred (Data instr) /\ ref <> "" /\ findStageByRef ref (Stages d) (stagesByName (Stages d)) = Some t.
Proof using Type.
  unfold ParseDockerfileWithBuildkit. destruct (resolveMetaArgs _ _ _ _) as [ma| |]; [|done..].
  unfold mbind, res_bind. destruct (mapRes _ _) as [st| |] eqn:E; [|done..]. apply parseStage_up in E.
  pose proof (keeps_Setup st) as (Hl & Hs & _).
  assert (forall d', Stages d' = (SetupDockerfileStagesDependencies st).2 -> resolvable d' -> forall s instr ref t,
    s ∈ Stages d' -> instr ∈ Instructions s -> DependenciesByStageRef instr !! ref = Some t <->
    ref ∈ referred (Data instr) /\ ref <> "" /\ findStageByRef ref (Stages d') (stagesByName (Stages d')) = Some t) as H.
  2:{ intros Hd. apply H. destruct (SetupDockerfileStagesDependencies st) as [r st']. destruct r; [by injection Hd as <-|by injection Hd as <-|done]. }
  clear d. intros d Ed Hres. rewrite <-Ed in Hl, Hs. set (st' := Stages d) in *.
  assert (forall i s, st !! i = Some s -> exists s', st' !! i = Some s' /\ sameStage s s') as Hs'.
  { intros i s Hi. destruct (lookup_lt_is_Some_2 st' i) as [s' Hi']; [rewrite Hl; by eapply lookup_lt_Some|].
    destruct (Hs i s' Hi') as (s0 & H0 & Hsame). exists s'. split; [done|]. congruence. }
  assert (stagesByName st' = stagesByName st) as En.
  { apply stagesByName_names, list_eq. intros i. rewrite !list_lookup_fmap. destruct (st !! i) as [s|] eqn:Ei.
    - destruct (Hs' i s Ei) as (s' & -> & _ & E' & _). simpl. by rewrite E'.
    - apply lookup_ge_None in Ei. rewrite <-Hl in Ei. by rewrite (proj2 (lookup_ge_None st' i) Ei). }
  assert (forall ref, findStageByRef ref st' (stagesByName st') = findStageByRef ref st (stagesByName st)) as Ef
    by (intros ref; rewrite En; by apply findStageByRef_length).
  assert (wp SetupDockerfileStagesDependencies st (fun _ w' => settingUp st w' /\ forall i s k instr ref,
    st !! i = Some s -> Instructions s !! k = Some instr -> ref ∈ referred (Data instr) -> ref <> "" -> recorded w' i k ref)) as Hw.
  { apply Setup_records; [|done]. intros s instr ref Hin Hi Hr Hne. rewrite <-Ef.
    apply list_elem_of_lookup in Hin as [i Hin], Hi as [k Hi]. destruct (Hs' i s Hin) as (s' & Hi' & _ & _ & _ & _ & Edata).
    apply (f_equal (fun l => l !! k)) in Edata. rewrite !list_lookup_fmap, Hi in Edata.
    destruct (Instructions s' !! k) as [instr'|] eqn:Ek; [|done]. injection Edata as Edata.
    apply (Hres s' instr' ref); [by eapply list_elem_of_lookup_2|by eapply list_elem_of_lookup_2|by rewrite Edata|done]. }
  unfold wp in Hw. destruct (SetupDockerfileStagesDependencies st) as [[[]| |] w']; [|done..]. simpl in Ed. subst w'.
  destruct Hw as [Hup Hrec]. intros s instr ref t Hin Hi. rewrite Ef.
  apply list_elem_of_lookup in Hin as [i Hin]. pose proof Hi as [k Hk]%list_elem_of_lookup. split.
  - intros Hd. destruct (up_sound st st' Hup i s instr ref t Hin Hi Hd) as (H1 & H2 & H3). done.
  - intros (Hr & Hne & Hf). destruct (Hs i s Hin) as (s0 & H0 & _ & _ & _ & _ & Edata).
    apply (f_equal (fun l => l !! k)) in Edata. rewrite !list_lookup_fmap, Hk in Edata.
    destruct (Instructions s0 !! k) as [instr0|] eqn:Ek; [|done]. injection Edata as Edata.
    destruct (Hrec i s0 k instr0 ref H0 Ek) as (s1 & instr1 & H1 & Hk1 & t' & Ht); [by rewrite <-Edata|done|].
    rewrite Hin in H1. injection H1 as <-. rewrite Hk in Hk1. injection Hk1 as <-.
    destruct (up_sound st st' Hup i s instr ref t' Hin Hi Ht) as (H1 & _). rewrite H1 in Hf. by injection Hf as <-.
Qed.

(** * Names of stages *)

Lemma parsed_name name n s : parsedStage name n s ->
  GetWerfImageName s = name +:+ (if bool_decide (StageName s = "") then "/stage0" else "/stage/" +:+ StageName s).
Proof.
  intros (Hi & Hw & _). unfold GetWerfImageName, HasStageName. rewrite Hi, Hw.
  destruct (bool_decide_reflect (StageName s = "")) as [E|E].
  - rewrite bool_decide_eq_false_2 by tauto. done.
  - by rewrite bool_decide_eq_true_2.
Qed.

Lemma parsed_name_inj name n s t : parsedStage name n s -> parsedStage name n t ->
  GetWerfImageName s = GetWerfImageName t <-> StageName s = StageName t.
Proof.
  intros Hs Ht. rewrite (parsed_name _ _ _ Hs), (parsed_name _ _ _ Ht). split; [|by intros ->].
  intros H%Str.app_inv_l.
  repeat case_bool_decide; [congruence|discriminate H|discriminate H|by apply (Str.app_inv_l "/stage/")].
Qed.

(** The images of two stages of a Dockerfile have the same name exactly where the stages have:
    the position in the file is not kept, so all stages without a name share one. *)
Theorem stage_names_collide dockerStages metaArgs name opts d i j s t :
  ParseDockerfileWithBuildkit dockerStages metaArgs name opts = Ok d ->
  Stages d !! i = Some s -> Stages d !! j = Some t ->
  GetWerfImageName s = GetWerfImageName t <->
  default "" (bk_Name <$> dockerStages !! i) = default "" (bk_Name <$> dockerStages !! j).
Proof.
  intros [_ Hp]%parsed_stages Hs Ht. destruct (Hp _ _ Hs) as [Hps <-], (Hp _ _ Ht) as [Hpt <-].
  by eapply parsed_name_inj.
Qed.
End props.
End DockerfileProps.
