(* ===== verification/ImagesTree.v ===== *)
(** pkg/build/image, how the tree of images is made from the configuration: image_tree.go
    (Calculate), images_sets.go, stapel.go, dockerfile.go, with the parts of pkg/build/stage that say
    which stages an image has, and the platforms of pkg/build/conveyor.go. *)
From S2P Require Import Prelude Go GoStd WerfConfig Dockerfile.
Import WerfConfig.

Module ImagesTree.
Import Dockerfile(Dockerfile, DockerfileStage, DockerfileStageInstruction, InstructionData).

(** * Images *)

Inductive BaseImageType := ImageFromRegistryAsBaseImage | StageAsBaseImage | NoBaseImage.

#[export] Instance BaseImageType_eq_dec : EqDecision BaseImageType.
Proof. solve_decision. Defined.

(** A stage of an image: one of pkg/build/stage, by its name, or of pkg/build/stage/instruction, with
    the log name, whether it has a stage before it, and whether it resets the command. *)
Inductive Stage :=
| NamedStage (name : string)
| FromInstruction (baseImageReference logName : string)
| Instruction (data : InstructionData) (logName : string) (hasPrevStage entrypointResetCMD : bool).

Record Image := mkImage {
  img_Name : string;
  img_TargetPlatform : string;
  img_IsFinal : bool;
  IsDockerfileImage : bool;
  ForceTargetPlatformLogging : bool;
  baseImageType : BaseImageType;
  baseImageReference : string;
  baseImageName : string;
  stages : list Stage;
  logImageIndex : nat;
  logTotalImages : nat;
}.

(** The sets of one image of the configuration. *)
Definition ImagesSets := list (list Image).

(** ImageOptions and the options of all images, as far as they are read here. *)
Record ImageOptions := mkImageOptions {
  opt_IsFinal : bool; opt_IsDockerfileImage : bool; opt_ForceTargetPlatformLogging : bool;
  BaseImageReference : string; BaseImageName : string; FetchLatestBaseImage : bool;
}.

(** [setupBaseImageRepoDigest] asks the registry for the digest. *)
Definition NewImage (setupBaseImageRepoDigest : string -> res unit) (targetPlatform name : string)
  (type : BaseImageType) (opts : ImageOptions) : res Image :=
  if bool_decide (targetPlatform = "") then Panic "assertion: targetPlatform cannot be empty"
  else
    let i := mkImage name targetPlatform (opt_IsFinal opts) (opt_IsDockerfileImage opts)
               (opt_ForceTargetPlatformLogging opts) type (BaseImageReference opts) (BaseImageName opts) [] 0 0 in
    if FetchLatestBaseImage opts then
      match setupBaseImageRepoDigest (baseImageReference i) with
      | Ok _ => Ok i
      | Err e => Err (Wrapf "error fetching base image id from registry: %w" [] e)
      | Panic p => Panic p
      end
    else Ok i.

Definition set_stages (i : Image) (l : list Stage) : Image :=
  mkImage (img_Name i) (img_TargetPlatform i) (img_IsFinal i) (IsDockerfileImage i) (ForceTargetPlatformLogging i)
    (baseImageType i) (baseImageReference i) (baseImageName i) l (logImageIndex i) (logTotalImages i).

Definition set_log (i : Image) (ind total : nat) : Image :=
  mkImage (img_Name i) (img_TargetPlatform i) (img_IsFinal i) (IsDockerfileImage i) (ForceTargetPlatformLogging i)
    (baseImageType i) (baseImageReference i) (baseImageName i) (stages i) ind total.

(** * Sets of images *)

(** Once it is among the images of the builder, an image is known by its position there: the sets
    share it with the list. *)
Record ImagesSetsBuilder := mkBuilder {
  bld_images : list Image; imagesSets : list (list nat); curSetInd : nat; nextSetInd : nat;
}.

Definition NewImagesSetsBuilder : ImagesSetsBuilder := mkBuilder [] [] 0 1.

Definition getImagesByInd (bld : ImagesSetsBuilder) (ind : nat) : list nat :=
  default [] (imagesSets bld !! ind).

(** A slice without elements that comes from nil is nil. *)
Definition setImagesByInd (bld : ImagesSetsBuilder) (ind : nat) (set : list nat) : ImagesSetsBuilder :=
  let sets := if length (imagesSets bld) <=? ind
              then imagesSets bld ++ replicate (ind + 1 - length (imagesSets bld)) [] else imagesSets bld in
  mkBuilder (bld_images bld) (match set with [] => sets | _ => <[ind := set]> sets end) (curSetInd bld) (nextSetInd bld).

Definition mergeSet (bld : ImagesSetsBuilder) (x : nat * list Image) : ImagesSetsBuilder :=
  let targetSetInd := curSetInd bld + x.1 in
  let newSet := seq (length (bld_images bld)) (length x.2) in
  let bld := setImagesByInd bld targetSetInd (getImagesByInd bld targetSetInd ++ newSet) in
  mkBuilder (bld_images bld ++ x.2) (imagesSets bld) (curSetInd bld) (nextSetInd bld).

Definition MergeImagesSets (bld : ImagesSetsBuilder) (newImagesSets : ImagesSets) : ImagesSetsBuilder :=
  let next := curSetInd bld + length newImagesSets in
  let bld := foldl mergeSet bld (imap pair newImagesSets) in
  mkBuilder (bld_images bld) (imagesSets bld) (curSetInd bld)
    (if nextSetInd bld <? next then next else nextSetInd bld).

Definition Next (bld : ImagesSetsBuilder) : ImagesSetsBuilder :=
  mkBuilder (bld_images bld) (imagesSets bld) (nextSetInd bld) (nextSetInd bld).

(** * Stages of a stapel image *)

Definition From := "from".
Definition BeforeInstall := "beforeInstall".
Definition DependenciesBeforeInstall := "dependenciesBeforeInstall".
Definition GitArchive := "gitArchive".
Definition Install := "install".
Definition DependenciesAfterInstall := "dependenciesAfterInstall".
Definition BeforeSetup := "beforeSetup".
Definition DependenciesBeforeSetup := "dependenciesBeforeSetup".
Definition Setup := "setup".
Definition DependenciesAfterSetup := "dependenciesAfterSetup".
Definition GitCache := "gitCache".
Definition GitLatestPatch := "gitLatestPatch".
Definition DockerInstructions := "dockerInstructions".
Definition DockerfileName := "dockerfile".
Definition ImageSpec := "imageSpec".

Definition AllStages : list string :=
  [From; BeforeInstall; DependenciesBeforeInstall; GitArchive; Install; DependenciesAfterInstall; BeforeSetup;
   DependenciesBeforeSetup; Setup; DependenciesAfterSetup; GitCache; GitLatestPatch; DockerInstructions;
   DockerfileName; ImageSpec].

Definition GetLegacyCompatibleStageName (name : string) : string :=
  if bool_decide (name = DependenciesBeforeInstall) then "importsBeforeInstall"
  else if bool_decide (name = DependenciesAfterInstall) then "importsAfterInstall"
  else if bool_decide (name = DependenciesBeforeSetup) then "importsBeforeSetup"
  else if bool_decide (name = DependenciesAfterSetup) then "importsAfterSetup"
  else name.

(** An import or a dependency: where it comes. *)
Record Placed := mkPlaced { Before : string; After : string }.

(** builder.Builder: which of its steps are empty. *)
Record Builder := mkBuilderSteps {
  IsBeforeInstallEmpty : bool; IsInstallEmpty : bool; IsBeforeSetupEmpty : bool; IsSetupEmpty : bool;
}.

(** What the choice of the stages reads of a stapel image. *)
Record StapelConfig := mkStapelConfig {
  FromLatest : bool;
  Shell : option Builder;
  Ansible : option Builder;
  sc_Imports : list Placed;
  sc_Dependencies : list Placed;
  IsGitAfterPatchDisabled : bool;
  Docker : bool;
  sc_ImageSpec : bool;
}.

Definition getBuilder (c : StapelConfig) : option Builder :=
  match Shell c with Some b => Some b | None => Ansible c end.

(** One of the two is given. *)
Definition placed (before after : string) (l : list Placed) : list Placed :=
  filter (fun e => (bool_decide (before <> "") && bool_decide (Before e <> "") && bool_decide (Before e = before)) ||
                   (bool_decide (after <> "") && bool_decide (After e <> "") && bool_decide (After e = after)) = true) l.

Definition getImports (c : StapelConfig) (before after : string) : list Placed := placed before after (sc_Imports c).

Definition getDependencies (c : StapelConfig) (before after : string) : list Placed :=
  filter (fun e => (bool_decide (Before e <> "") && bool_decide (before = Before e)) ||
                   (bool_decide (After e <> "") && bool_decide (after = After e)) = true) (sc_Dependencies c).

(** The stage if it is not nil. *)
Definition appendIfExist (exist : bool) (name : string) : list string := if exist then [name] else [].

Definition userStageExists (c : StapelConfig) (empty : Builder -> bool) : bool :=
  match getBuilder c with Some b => negb (empty b) | None => false end.

Definition dependenciesExist (c : StapelConfig) (before after : string) : bool :=
  0 <? length (getImports c before after) + length (getDependencies c before after).

Definition initStages (c : StapelConfig) (gitMappingsExist skipImageSpecStage : bool) : list string :=
  appendIfExist true From ++
  appendIfExist (userStageExists c IsBeforeInstallEmpty) BeforeInstall ++
  appendIfExist (dependenciesExist c Install "") DependenciesBeforeInstall ++
  appendIfExist gitMappingsExist GitArchive ++
  appendIfExist (userStageExists c IsInstallEmpty) Install ++
  appendIfExist (dependenciesExist c "" Install) DependenciesAfterInstall ++
  appendIfExist (userStageExists c IsBeforeSetupEmpty) BeforeSetup ++
  appendIfExist (dependenciesExist c Setup "") DependenciesBeforeSetup ++
  appendIfExist (userStageExists c IsSetupEmpty) Setup ++
  appendIfExist (dependenciesExist c "" Setup) DependenciesAfterSetup ++
  (if IsGitAfterPatchDisabled c then []
   else appendIfExist gitMappingsExist GitCache ++ appendIfExist gitMappingsExist GitLatestPatch ++
        appendIfExist (Docker c) DockerInstructions) ++
  appendIfExist (sc_ImageSpec c && negb skipImageSpecStage) ImageSpec.

(** * Stages of a Dockerfile *)

(** What is read of an image from a Dockerfile, and of the files, once read and parsed. *)
Record DockerfileConfig := mkDockerfileConfig {
  Staged : bool;
  dc_Target : string;
  dc_ImageSpec : bool;
  dc_opts : string -> Dockerfile.DockerfileOptions;
}.

(** What the rest of the configuration, the files and git give for an image. *)
Class ImageSources := {
  stapelConfig : ImageInterface -> StapelConfig;
  dockerfileConfig : ImageInterface -> DockerfileConfig;
  generateGitMappings : ImageInterface -> res (list string);
  fetchBaseImageRepoDigest : string -> res unit;
  readDockerfile : ImageInterface -> res (list Dockerfile.BuildkitStage * list (list Dockerfile.KeyValuePairOptional));
  checkContext : ImageInterface -> res unit;
  getBuildSecrets : ImageInterface -> res (list string);
  NormalizeUserParams : list string -> res (list string);
}.

(** The options of the build. *)
Record TreeOptions := mkTreeOptions {
  ForcedTargetPlatforms : list string;
  CommonPlatform : list string;
  DefaultPlatform : string;
  SkipImageSpecStage : bool;
  StagedDockerfileV2 : bool;
}.

Section tree.
Context `{!GoQuote, !Nondet, !UtilStrings, !Dockerfile.Buildkit, !ImageSources}.
Variable opts : TreeOptions.

Abbreviation P := (prog Cfg).

Definition newImage := NewImage fetchBaseImageRepoDigest.

Definition mapStapelConfigToImage (image : ImageInterface) (targetPlatform : string) (forceLogging : bool) : P Image :=
  fun s =>
    let external := bool_decide (GetName image ∈ FromExternal s) in
    let fromImage := if bool_decide (FromArtifactName image <> "") then FromArtifactName image
                     else WerfConfig.From image in
    let c := stapelConfig image in
    ((img ← wrap "unable to create image %q: %w" [FQ (GetName image)] (lift (
        if external
        then newImage targetPlatform (GetName image) ImageFromRegistryAsBaseImage
               (mkImageOptions (IsFinal image) false forceLogging (WerfConfig.From image) "" (FromLatest c))
        else newImage targetPlatform (GetName image) StageAsBaseImage
               (mkImageOptions (IsFinal image) false forceLogging "" fromImage false)));
      gitMappings ← lift (generateGitMappings image);
      mret (set_stages img (NamedStage <$>
        initStages c (negb (bool_decide (length gitMappings = 0))) (SkipImageSpecStage opts)))) : P Image) s.

Definition MapStapelConfigToImagesSets (image : ImageInterface) (targetPlatform : string) (forceLogging : bool)
  : P ImagesSets :=
  img ← mapStapelConfigToImage image targetPlatform forceLogging; mret [[img]].

(** ** A Dockerfile as one stage *)

Definition mapLegacyDockerfileToImage (image : ImageInterface) (targetPlatform : string) (forceLogging : bool)
  : P Image :=
  let c := dockerfileConfig image in
  img ← wrap "unable to create image %q: %w" [FQ (GetName image)] (lift (
    newImage targetPlatform (GetName image) NoBaseImage (mkImageOptions (IsFinal image) true forceLogging "" "" false)));
  lift (checkContext image) ;;
  parsed ← lift (readDockerfile image);
  lift (Dockerfile.GetDockerTargetStageIndex (Dockerfile.ResolveDockerStagesFromValue parsed.1) (dc_Target c)) ;;
  lift (getBuildSecrets image) ;;
  mret (set_stages img (NamedStage <$> [DockerfileName] ++
    appendIfExist (dc_ImageSpec c && negb (SkipImageSpecStage opts)) ImageSpec)).

(** ** A Dockerfile by its stages *)

Record QueueItem := mkItem { WerfImageName : string; item_Stage : nat; Level : nat; IsTargetStage : bool }.

Definition exclude (newName : string) (set : list Image) : list Image :=
  filter (fun img => img_Name img <> newName) set.

(** The first set is the one of the deepest level. *)
Definition appendImageToCurrentSet (level : nat) (ret : ImagesSets) (newImg : Image) : res ImagesSets :=
  let ret := if level =? length ret then [] :: ret else ret in
  match ret with
  | [] => Panic "index out of range [0] with length 0"
  | cur :: prev =>
      if existsb (fun img => String.eqb (img_Name img) (img_Name newImg)) cur then Ok ret
      else Ok ((cur ++ [newImg]) :: (exclude (img_Name newImg) <$> prev))
  end.

(** Whether an ENTRYPOINT resets the command: there is one before any CMD. *)
Fixpoint entrypointResetCMD (reset : bool) (l : list DockerfileStageInstruction) : bool :=
  match l with
  | [] => reset
  | instr :: l' =>
      match Dockerfile.Data instr with
      | Dockerfile.CmdCommand => false
      | Dockerfile.EntrypointCommand => entrypointResetCMD true l'
      | _ => entrypointResetCMD reset l'
      end
  end.

Section dockerfile.
Variable cfg : Dockerfile.

Definition queued (dep : nat) (level : nat) : QueueItem :=
  mkItem (match Dockerfile.Stages cfg !! dep with Some s => Dockerfile.GetWerfImageName s | None => "" end) dep level false.

(** The stages for the instructions, and what they put into the queue. *)
Fixpoint mapInstructions (reset : bool) (level instrNum : nat) (l : list DockerfileStageInstruction)
  (stgs : list Stage) (queue : list QueueItem) : P (list Stage * list QueueItem) :=
  match l with
  | [] => mret (stgs, queue)
  | instr :: l' =>
      match Dockerfile.Data instr with
      | Dockerfile.ArgCommand _ => mapInstructions reset level instrNum l' stgs queue
      | data =>
          let stageLogName := Dockerfile.ToUpper (Dockerfile.Name data) +:+ itoa (Z.of_nat (instrNum + 1)) in
          let isFirstStage := bool_decide (length stgs = 0) in
          let stg := Instruction data stageLogName (negb isFirstStage)
                       (match data with Dockerfile.EntrypointCommand => reset | _ => false end) in
          deps ← iterate (map_to_list (Dockerfile.DependenciesByStageRef instr));
          mapInstructions reset level (instrNum + 1) l' (stgs ++ [stg])
            (queue ++ ((fun dep => queued dep (level + 1)) <$> deps.*2))
      end
  end.

(** The image of one item of the queue, and what it puts into the queue. *)
Definition mapItem (image : ImageInterface) (targetPlatform : string) (forceLogging : bool) (item : QueueItem)
  : P (Image * list QueueItem) :=
  match Dockerfile.Stages cfg !! item_Stage item with
  | None => panic "nil pointer dereference"
  | Some stg =>
      let o reference name := mkImageOptions (IsFinal image && IsTargetStage item) true forceLogging reference name false in
      let base := Dockerfile.FindStage cfg (Dockerfile.BaseName stg) in
      img ← wrap "unable to map stage %s to werf image %q: %w" [FS (Dockerfile.LogName stg); FQ (GetName image)] (lift (
        match base with
        | Some b => newImage targetPlatform (WerfImageName item) StageAsBaseImage (o "" (WerfImageName (queued b 0)))
        | None => newImage targetPlatform (WerfImageName item) ImageFromRegistryAsBaseImage (o (Dockerfile.BaseName stg) "")
        end));
      let queue := match base with Some b => [queued b (Level item + 1)] | None => [] end in
      let v2 := StagedDockerfileV2 opts in
      let stgs := if v2 then [FromInstruction (baseImageReference img) "FROM1"] else [] in
      x ← mapInstructions (entrypointResetCMD false (Dockerfile.Instructions stg)) (Level item) (if v2 then 1 else 0)
            (Dockerfile.Instructions stg) stgs queue;
      if negb v2 && bool_decide (length x.1 = 0) then
        fail (Errorf "unsupported configuration, please enable staged dockerfile builder v2 by setting environment variable WERF_STAGED_DOCKERFILE_VERSION=v2" [])
      else mret (set_stages img x.1, x.2)
  end.

(** The loop over the queue; [None] where the fuel is not enough. *)
Fixpoint queueLoop (fuel : nat) (image : ImageInterface) (targetPlatform : string) (forceLogging : bool)
  (queue : list QueueItem) (ret : ImagesSets) : P (option ImagesSets) :=
  match queue with
  | [] => mret (Some ret)
  | item :: queue' =>
      match fuel with
      | 0 => mret None
      | S fuel' =>
          x ← mapItem image targetPlatform forceLogging item;
          ret ← lift (appendImageToCurrentSet (Level item) ret x.1);
          queueLoop fuel' image targetPlatform forceLogging (queue' ++ x.2) ret
      end
  end.

Definition mapDockerfileToImagesSets (fuel : nat) (image : ImageInterface) (targetPlatform : string) (forceLogging : bool)
  : P (option ImagesSets) :=
  targetStage ← wrap "unable to get target dockerfile stage: %w" [] (lift (Dockerfile.GetTargetStage cfg));
  wrap "unable to get build secrets: %w" [] (lift (getBuildSecrets image)) ;;
  queueLoop fuel image targetPlatform forceLogging [mkItem (GetName image) targetStage 0 true] [].
End dockerfile.

Definition MapDockerfileConfigToImagesSets (fuel : nat) (image : ImageInterface) (targetPlatform : string)
  (forceLogging : bool) : P (option ImagesSets) :=
  let c := dockerfileConfig image in
  if Staged c then
    parsed ← lift (readDockerfile image);
    d ← wrap "unable to parse dockerfile %s: %w" [FS (GetName image)] (lift (
      Dockerfile.ParseDockerfileWithBuildkit parsed.1 parsed.2 (GetName image) (dc_opts c targetPlatform)));
    mapDockerfileToImagesSets d fuel image targetPlatform forceLogging
  else
    img ← mapLegacyDockerfileToImage image targetPlatform forceLogging; mret (Some [[img]]).

(** * Platforms *)

Definition validatePlatforms (platforms : list string) : res unit :=
  match filter (fun p => Str.Contains p "," = true) platforms with
  | p :: _ => Err (Errorf "invalid platform specified %q: specify multiple platforms using yaml array" [FQ p])
  | [] => Ok tt
  end.

Definition prepareConfigurationPlatforms (platforms : list string) : res (list string) :=
  match validatePlatforms platforms with
  | Err e => Err (Wrapf "unable to validate platforms: %w" [] e)
  | Panic p => Panic p
  | Ok _ =>
      match NormalizeUserParams platforms with
      | Err e => Err (Wrapf "unable to normalize platforms specified in the werf.yaml %v: %w"
                           [FS ("[" +:+ Str.Join platforms " " +:+ "]")] e)
      | r => r
      end
  end.

Variable images : list ImageInterface.

Definition GetImageTargetPlatforms (targetImageName : string) : res (list string) :=
  match GetImage images targetImageName with
  | Some image => prepareConfigurationPlatforms (Platform image)
  | None => Ok []
  end.

Definition GetTargetPlatforms : res (list string) := prepareConfigurationPlatforms (CommonPlatform opts).

(** * The tree *)

Definition imagePlatforms (commonTargetPlatforms : list string) (name : string) : P (list string) :=
  match ForcedTargetPlatforms opts with
  | _ :: _ => mret (ForcedTargetPlatforms opts)
  | [] =>
      l ← wrap "invalid image %q target platforms: %w" [FQ name] (lift (GetImageTargetPlatforms name));
      mret (match l with [] => commonTargetPlatforms | _ => l end)
  end.

Definition mapImage (fuel : nat) (image : ImageInterface) (forceLogging : bool) (targetPlatform : string)
  : P (option ImagesSets) :=
  if IsStapel image then
    sets ← wrap "unable to map stapel config to images sets: %w" []
      (MapStapelConfigToImagesSets image targetPlatform forceLogging);
    mret (Some sets)
  else wrap "unable to map dockerfile to images sets: %w" []
         (MapDockerfileConfigToImagesSets fuel image targetPlatform forceLogging).

(** One image on its platforms; [None] where the fuel is not enough for a Dockerfile. *)
Fixpoint mapPlatforms (fuel : nat) (image : ImageInterface) (forceLogging : bool) (platforms : list string)
  (builder : ImagesSetsBuilder) : P (option ImagesSetsBuilder) :=
  match platforms with
  | [] => mret (Some builder)
  | targetPlatform :: platforms' =>
      newImagesSets ← mapImage fuel image forceLogging targetPlatform;
      match newImagesSets with
      | None => mret None
      | Some sets => mapPlatforms fuel image forceLogging platforms' (MergeImagesSets builder sets)
      end
  end.

Fixpoint mapSet (fuel : nat) (commonTargetPlatforms : list string) (names : list string) (builder : ImagesSetsBuilder)
  : P (option ImagesSetsBuilder) :=
  match names with
  | [] => mret (Some builder)
  | name :: names' =>
      match GetImage images name with
      | None => panic "nil pointer dereference"
      | Some image =>
          platforms ← imagePlatforms commonTargetPlatforms name;
          b ← mapPlatforms fuel image (1 <? length platforms) platforms builder;
          match b with
          | None => mret None
          | Some builder => mapSet fuel commonTargetPlatforms names' builder
          end
      end
  end.

Fixpoint mapSets (fuel : nat) (commonTargetPlatforms : list string) (sets : list (list string))
  (builder : ImagesSetsBuilder) : P (option ImagesSetsBuilder) :=
  match sets with
  | [] => mret (Some builder)
  | set :: sets' =>
      b ← mapSet fuel commonTargetPlatforms set builder;
      match b with
      | None => mret None
      | Some builder => mapSets fuel commonTargetPlatforms sets' (Next builder)
      end
  end.

(** The sets of images, by position, and all images, in the order in which they are numbered. *)
Definition Calculate (fuel : nat) (imagesToProcess : ImagesToProcess) : P (option (list (list nat) * list Image)) :=
  imageConfigSets ← wrap "unable to group werf config images by independent sets: %w" []
    (GroupImagesByIndependentSets images fuel imagesToProcess);
  match imageConfigSets with
  | None => mret None
  | Some [] => mret (Some ([], []))
  | Some imageConfigSets =>
      platforms ← wrap "invalid common target platforms: %w" [] (lift GetTargetPlatforms);
      let commonTargetPlatforms := match platforms with [] => [DefaultPlatform opts] | _ => platforms end in
      builder ← mapSets fuel commonTargetPlatforms imageConfigSets NewImagesSetsBuilder;
      match builder with
      | None => mret None
      | Some b =>
          mret (Some (imagesSets b,
            imap (fun ind img => set_log img ind (length (bld_images b))) (bld_images b)))
      end
  end.

End tree.
End ImagesTree.
