(* ===== verification/ImagesTreeFacts.v ===== *)
(** Lemmas on the loop that maps a Dockerfile to sets of images: what a step adds to the queue and to
    the sets, and the invariant. *)
From S2P Require Import Prelude Go GoStd WerfConfig WerfConfigGroups Dockerfile ImagesTree.
Import WerfConfig ImagesTree.

Module ImagesTreeFacts.
Import Dockerfile(Dockerfile, DockerfileStage, DockerfileStageInstruction).

Abbreviation names set := (img_Name <$> set).

(** * Where an image is *)

(** At a level, the last set being level 0. *)
Fixpoint placed (ret : ImagesSets) (l : nat) (nm : string) : Prop :=
  match ret with
  | [] => False
  | set :: ret' => (l = length ret' /\ nm ∈ names set) \/ placed ret' l nm
  end.

Lemma placed_below ret l nm : placed ret l nm -> l < length ret.
Proof. induction ret as [|set ret IH]; [done|]. simpl. intros [[-> _]|H]; [lia|]. specialize (IH H). lia. Qed.

Lemma placed_in ret nm : nm ∈ names (concat ret) <-> exists l, placed ret l nm.
Proof.
  induction ret as [|set ret IH]; simpl; [split; [by intros ?%not_elem_of_nil|by intros []]|].
  rewrite fmap_app, elem_of_app, IH. naive_solver.
Qed.

Lemma placed_once ret l l' nm : NoDup (names (concat ret)) -> placed ret l nm -> placed ret l' nm -> l = l'.
Proof.
  induction ret as [|set ret IH]; [done|]. simpl. rewrite fmap_app, NoDup_app. intros (_ & Hd & Hn).
  assert (forall k, nm ∈ names set -> placed ret k nm -> False) as Hx.
  { intros k Hs Hk. apply (Hd nm Hs), placed_in. by exists k. }
  naive_solver.
Qed.

Lemma names_exclude n set : names (exclude n set) = filter (fun nm => nm <> n) (names set).
Proof.
  induction set as [|i set IH]; [done|]. unfold exclude in *. rewrite filter_cons, fmap_cons, filter_cons.
  case_decide; rewrite ?fmap_cons, IH; done.
Qed.

Lemma names_concat_exclude n ret :
  names (concat (exclude n <$> ret)) = filter (fun nm => nm <> n) (names (concat ret)).
Proof.
  induction ret as [|set ret IH]; [done|]. csimpl. by rewrite !fmap_app, names_exclude, IH, filter_app.
Qed.

Lemma placed_exclude n ret l nm : placed (exclude n <$> ret) l nm <-> nm <> n /\ placed ret l nm.
Proof.
  induction ret as [|set ret IH]; simpl; [tauto|].
  rewrite length_fmap, names_exclude, list_elem_of_filter, IH. tauto.
Qed.

(** * Appending an image *)

Lemma append_spec level ret img :
  NoDup (names (concat ret)) -> length ret = level \/ length ret = S level ->
  exists ret', appendImageToCurrentSet level ret img = Ok ret' /\
    length ret' = S level /\ NoDup (names (concat ret')) /\
    forall l nm, placed ret' l nm <-> (nm = img_Name img /\ l = level) \/ (nm <> img_Name img /\ placed ret l nm).
Proof.
  intros Hnd Hl. unfold appendImageToCurrentSet.
  assert (exists cur prev, (if level =? length ret then [] :: ret else ret) = cur :: prev /\ length prev = level /\
    NoDup (names (concat (cur :: prev))) /\ forall l nm, placed (cur :: prev) l nm <-> placed ret l nm)
    as (cur & prev & -> & Hlen & Hn & Hp).
  { destruct (Nat.eqb_spec level (length ret)) as [->|Hne]; [exists [], ret|destruct ret as [|cur prev]; [simpl in *; lia|exists cur, prev]].
    - split; [done|]. split; [done|]. split; [done|]. intros l nm. simpl. set_solver.
    - simpl in Hl, Hne. split; [done|]. split; [lia|]. by split. }
  destruct (existsb _ cur) eqn:E; (eexists; split; [done|]); simpl; (split; [rewrite ?length_fmap; lia|]).
  - apply List.existsb_exists in E as (old & Hin%list_elem_of_In & E%String.eqb_eq).
    split; [done|]. intros l nm. simpl in Hp. rewrite Hp.
    assert (placed ret level (img_Name img)) as Hlv by (apply Hp; left; split; [done|rewrite <-E; by apply list_elem_of_fmap_2]).
    destruct (decide (nm = img_Name img)) as [->|Hne]; [|tauto].
    split; [intros H; left; split; [done|exact (placed_once _ _ _ _ Hnd H Hlv)]|].
    intros [[_ ->]|[Hx _]]; [exact Hlv|by destruct Hx].
  - assert (img_Name img ∉ names cur) as Hcur.
    { intros (old & Eo & Hin)%list_elem_of_fmap. assert (existsb (fun i => (img_Name i =? img_Name img)%string) cur = true); [|congruence].
      apply List.existsb_exists. exists old. split; [by apply list_elem_of_In|by apply String.eqb_eq]. }
    simpl in Hn. rewrite fmap_app in Hn. apply NoDup_app in Hn as (Hc & Hd & Hpn). split.
    + rewrite !fmap_app, names_concat_exclude. apply NoDup_app. split; [|split; [|by apply NoDup_filter]].
      * apply NoDup_app. split; [done|]. split; [|apply NoDup_singleton]. set_solver.
      * intros nm. simpl. rewrite elem_of_app, list_elem_of_filter, list_elem_of_singleton. naive_solver.
    + intros l nm. simpl in Hp. rewrite <-Hp, length_fmap, fmap_app, elem_of_app, placed_exclude. simpl.
      rewrite list_elem_of_singleton, Hlen. destruct (decide (nm = img_Name img)) as [->|Hne]; [|naive_solver].
      naive_solver.
Qed.

(** * One item of the queue *)

Section loop.
Context {gq : GoQuote} {nd : Nondet} {us : UtilStrings} {bk : Dockerfile.Buildkit} {src : ImageSources}.
Variables (opts : TreeOptions) (cfg : Dockerfile) (image : ImageInterface) (targetPlatform : string) (forceLogging : bool).

Abbreviation mapItem := (mapItem opts cfg image targetPlatform forceLogging).
Abbreviation queueLoop := (queueLoop opts cfg).

(** The stages that the instructions refer to; ARG is passed over. *)
Definition references (l : list DockerfileStageInstruction) : list nat :=
  concat ((fun instr => match Dockerfile.Data instr with
                        | Dockerfile.ArgCommand _ => []
                        | _ => (map_to_list (Dockerfile.DependenciesByStageRef instr)).*2
                        end) <$> l).

(** The stages that a stage is built from: its base and the ones it refers to. *)
Definition children (t : nat) : list nat :=
  match Dockerfile.Stages cfg !! t with
  | Some stg => option_list (Dockerfile.FindStage cfg (Dockerfile.BaseName stg)) ++ references (Dockerfile.Instructions stg)
  | None => []
  end.

(** An instruction that gives a stage of the image. *)
Definition notArg (instr : DockerfileStageInstruction) : Prop :=
  match Dockerfile.Data instr with Dockerfile.ArgCommand _ => False | _ => True end.

(** A stage with such an instruction. *)
Definition hasInstruction (t : nat) : Prop :=
  forall stg, Dockerfile.Stages cfg !! t = Some stg -> Exists notArg (Dockerfile.Instructions stg).

Lemma mapInstructions_stages reset level l : forall n stgs queue s,
  wlp (mapInstructions cfg reset level n l stgs queue) s (fun x _ =>
    length stgs <= length x.1 /\ (Exists notArg l -> length stgs < length x.1)).
Proof.
  induction l as [|instr l IH]; intros n stgs queue s.
  { apply wlp_ret. split; [done|]. by intros ?%Exists_nil. }
  cbn [mapInstructions]. destruct (Dockerfile.Data instr) eqn:E.
  2:{ eapply wlp_mono; [apply IH|]. intros x w [Hl Hx]. split; [done|]. intros [Ha|Ha]%Exists_cons; [|by apply Hx].
      unfold notArg in Ha. by rewrite E in Ha. }
  all: apply wlp_bind; unfold wlp at 1, iterate; eapply wlp_mono; [apply IH|]; intros x w [Hl _];
    rewrite length_app in Hl; simpl in Hl; split; [|intros _]; lia.
Qed.

Lemma mapInstructions_wp reset level l : forall n stgs queue s,
  wp (mapInstructions cfg reset level n l stgs queue) s (fun x _ => exists q,
    x.2 = queue ++ q /\ q ≡ₚ (fun d => queued cfg d (level + 1)) <$> references l).
Proof.
  induction l as [|instr l IH]; intros n stgs queue s.
  { apply wp_ret. exists []. by rewrite List.app_nil_r. }
  assert (forall n' stgs' queue' s' ds, references (instr :: l) = ds ++ references l ->
    queue' ≡ₚ (fun d => queued cfg d (level + 1)) <$> ds ->
    wp (mapInstructions cfg reset level n' l stgs' (queue ++ queue')) s' (fun x _ => exists q,
      x.2 = queue ++ q /\ q ≡ₚ (fun d => queued cfg d (level + 1)) <$> references (instr :: l))) as Hgo.
  { intros n' stgs' queue' s' ds -> Hq. eapply wp_mono; [apply IH|]. intros x w (q & -> & Hr).
    exists (queue' ++ q). split; [by rewrite List.app_assoc|]. by rewrite fmap_app, Hq, Hr. }
  cbn [mapInstructions]. destruct (Dockerfile.Data instr) eqn:E.
  2:{ specialize (Hgo n stgs [] s []). rewrite List.app_nil_r in Hgo. apply Hgo; [|done].
      unfold references. rewrite fmap_cons. simpl. by rewrite E. }
  all: apply wp_bind; unfold wp at 1, iterate; apply (Hgo _ _ _ _ (map_to_list (Dockerfile.DependenciesByStageRef instr)).*2);
    [unfold references; rewrite fmap_cons; simpl; by rewrite E|by rewrite shuffle_perm].
Qed.

(** What an item gives: an image of its name, and its children on the next level. *)
Definition itemDone (item : QueueItem) (x : Image * list QueueItem) : Prop :=
  img_Name x.1 = WerfImageName item /\
  x.2 ≡ₚ (fun d => queued cfg d (S (Level item))) <$> children (item_Stage item).

Lemma newImage_name platform name type o img : newImage platform name type o = Ok img -> img_Name img = name.
Proof. unfold newImage, NewImage. repeat case_match; intros; by simplify_eq. Qed.

Lemma newImage_ok platform name type o :
  platform <> "" -> FetchLatestBaseImage o = false -> exists img, newImage platform name type o = Ok img.
Proof. intros Hp Hf. unfold newImage, NewImage. rewrite bool_decide_eq_false_2, Hf by done. by eexists. Qed.

Lemma mapItem_wlp item s : wlp (mapItem item) s (fun x _ => itemDone item x).
Proof.
  unfold ImagesTree.mapItem. destruct (Dockerfile.Stages cfg !! item_Stage item) as [stg|] eqn:E; [|done].
  cbv zeta. apply wlp_bind, wlp_wrap, wlp_lift. intros img Himg.
  assert (img_Name img = WerfImageName item) as Hn by (case_match; by apply newImage_name in Himg).
  apply wlp_bind. eapply wlp_mono; [apply wp_wlp, mapInstructions_wp|]. intros [stgs q] w (q' & Hq & Hp).
  destruct (negb _ && _); [exact I|]. apply wlp_ret. split; [done|]. simpl in Hq |- *. subst q. rewrite Nat.add_1_r in *.
  unfold children. rewrite E, fmap_app, Hp. destruct (Dockerfile.FindStage _ _); reflexivity.
Qed.

Lemma mapItem_ok item s : targetPlatform <> "" ->
  StagedDockerfileV2 opts = true \/ hasInstruction (item_Stage item) ->
  item_Stage item < length (Dockerfile.Stages cfg) -> wp (mapItem item) s (fun x _ => itemDone item x).
Proof.
  intros Hp Hv [stg E]%lookup_lt_is_Some. eapply wp_mono; [apply (wp_conj _ _ (fun _ _ => True)); [|apply mapItem_wlp]|naive_solver].
  unfold ImagesTree.mapItem. rewrite E. cbv zeta. apply wp_bind, wp_wrap.
  destruct (Dockerfile.FindStage _ _).
  all: edestruct (newImage_ok targetPlatform) as [img Hi]; [done| |eapply wp_lift; [exact Hi|]]; [done|].
  all: apply wp_bind; eapply wp_mono; [eapply wp_conj; [apply mapInstructions_wp|apply mapInstructions_stages]|].
  all: intros x w [_ [_ Hx]].
  all: destruct (StagedDockerfileV2 opts); simpl; [by apply wp_ret|].
  all: destruct Hv as [?|Hv]; [done|]; specialize (Hx (Hv _ E)); simpl in Hx.
  all: rewrite bool_decide_eq_false_2 by lia; by apply wp_ret.
Qed.
End loop.
End ImagesTreeFacts.
