(* ===== verification/ImagesTreeProps.v ===== *)
(** The theorems on the tree of images: a Dockerfile is mapped to sets in which each stage it needs
    comes once and after the stages it is built from, and the mapping ends just where no stage needs
    itself. *)
From S2P Require Import Prelude Go GoStd WerfConfig WerfConfigGroups Dockerfile DockerfileProps.
From S2P Require Import ImagesTree ImagesTreeFacts.
Import WerfConfig DockerfileProps ImagesTree ImagesTreeFacts.

Module ImagesTreeProps.
Import Dockerfile(Dockerfile, DockerfileStage, DockerfileStageInstruction).

Section dockerfile.
Context {gq : GoQuote} {nd : Nondet} {us : UtilStrings} {bk : Dockerfile.Buildkit} {src : ImageSources}.
Variables (opts : TreeOptions) (cfg : Dockerfile) (image : ImageInterface) (targetPlatform : string) (forceLogging : bool).
Variable root : nat.

Abbreviation children := (children cfg).
Abbreviation queueLoop fuel := (queueLoop opts cfg fuel image targetPlatform forceLogging).

Definition uses (t d : nat) : Prop := d ∈ children t.
Definition usedBy (d t : nat) : Prop := d ∈ children t.
Definition reach (t : nat) : Prop := rtc uses root t.

Lemma reach_step t d : reach t -> d ∈ children t -> reach d.
Proof. intros Ht Hd. by eapply rtc_r. Qed.

(** The name of the image of a stage. *)
Definition key (t : nat) : string :=
  if bool_decide (t = root) then GetName image
  else match Dockerfile.Stages cfg !! t with Some s => Dockerfile.GetWerfImageName s | None => "" end.

(** * The invariant of the loop *)

Definition queuedAt (queue : list QueueItem) (t l : nat) : Prop :=
  exists i, i ∈ queue /\ item_Stage i = t /\ Level i = l.

Record inv (queue : list QueueItem) (ret : ImagesSets) : Prop := {
  inv_levels : exists cur q1 q2, queue = q1 ++ q2 /\ (forall i, i ∈ q1 -> Level i = cur) /\
    (forall i, i ∈ q2 -> Level i = S cur) /\ (length ret = S cur \/ (length ret = cur /\ q2 = []));
  inv_items : forall i, i ∈ queue -> reach (item_Stage i) /\ WerfImageName i = key (item_Stage i);
  inv_names : NoDup (names (concat ret));
  inv_placed : forall l nm, placed ret l nm -> exists t, reach t /\ nm = key t /\
    forall d, d ∈ children t -> (exists l', l < l' /\ placed ret l' (key d)) \/ queuedAt queue d (S l);
  inv_root : (exists l, placed ret l (key root)) \/ exists l, queuedAt queue root l;
}.

Lemma inv_start : inv [mkItem (GetName image) root 0 true] [].
Proof.
  split.
  - exists 0, [mkItem (GetName image) root 0 true], []. split; [done|].
    split; [by intros i ->%list_elem_of_singleton|]. split; [by intros i ?%not_elem_of_nil|]. by right.
  - intros i ->%list_elem_of_singleton. split; [constructor|]. unfold key. by rewrite bool_decide_eq_true_2.
  - constructor.
  - done.
  - right. exists 0, (mkItem (GetName image) root 0 true). split; [left|done].
Qed.

(** No stage needs the target, and different stages have different names. *)
Hypothesis Hroot : forall t, reach t -> root ∉ children t.
Hypothesis Hkey : forall t d, reach t -> reach d -> key t = key d -> t = d.

Lemma queued_key t d l : reach t -> d ∈ children t -> WerfImageName (queued cfg d l) = key d.
Proof.
  intros Ht Hd. unfold key. rewrite bool_decide_eq_false_2; [done|]. intros ->. by apply (Hroot t).
Qed.

Lemma levels_step item rest ret q n :
  inv (item :: rest) ret -> (forall i, i ∈ q -> Level i = S (Level item)) -> n = S (Level item) ->
  (length ret = Level item \/ length ret = S (Level item)) /\
  exists cur q1 q2, rest ++ q = q1 ++ q2 /\ (forall i, i ∈ q1 -> Level i = cur) /\
    (forall i, i ∈ q2 -> Level i = S cur) /\ (n = S cur \/ (n = cur /\ q2 = [])).
Proof.
  intros [(cur & q1 & q2 & E & H1 & H2 & Hl) _ _ _ _] Hq ->. destruct q1 as [|i q1]; simplify_eq/=.
  - rewrite (H2 item ltac:(left)) in *. destruct Hl as [Hl|[_ ?]]; [|done]. split; [by left|].
    exists (S cur), rest, q. split; [done|]. split; [|split; [done|by left]]. intros i Hi. apply H2. by right.
  - rewrite (H1 i ltac:(left)) in *. split; [destruct Hl as [?|[? _]]; auto|].
    exists cur, q1, (q2 ++ q). split; [by rewrite List.app_assoc|]. split; [intros j Hj; apply H1; by right|].
    split; [|by left]. intros j [Hj|Hj]%elem_of_app; auto.
Qed.

Lemma queuedAt_step item rest q t l :
  queuedAt (item :: rest) t l -> queuedAt (rest ++ q) t l \/ (item_Stage item = t /\ Level item = l).
Proof.
  intros (i & [->|Hi]%elem_of_cons & Ht & Hl); [by right|]. left. exists i. set_solver.
Qed.

Lemma inv_step item rest ret x :
  inv (item :: rest) ret -> itemDone cfg item x ->
  exists ret', appendImageToCurrentSet (Level item) ret x.1 = Ok ret' /\ inv (rest ++ x.2) ret'.
Proof.
  intros Hi [Hn Hq]. pose proof (inv_items _ _ Hi item ltac:(left)) as [Hr Hk].
  assert (forall i, i ∈ x.2 -> exists d, d ∈ children (item_Stage item) /\ i = queued cfg d (S (Level item))) as Hqi.
  { intros i Hx. rewrite Hq in Hx. apply list_elem_of_fmap in Hx as (d & -> & Hd). by exists d. }
  destruct (levels_step item rest ret x.2 (S (Level item)) Hi) as [Hlen Hlv]; [|done|].
  { intros i (d & _ & ->)%Hqi. done. }
  destruct (append_spec (Level item) ret x.1 (inv_names _ _ Hi) Hlen) as (ret' & Ea & El & Hnd & Hp).
  exists ret'. split; [done|]. rewrite Hn, Hk in Hp. split.
  - by rewrite El.
  - intros i [Hx|(d & Hd & ->)%Hqi]%elem_of_app; [apply (inv_items _ _ Hi); by right|].
    split; [by eapply reach_step|]. by eapply queued_key.
  - done.
  - intros l nm [[-> ->]|[Hne Hpl]]%Hp.
    + exists (item_Stage item). split; [done|]. split; [done|]. intros d Hd. right.
      exists (queued cfg d (S (Level item))). split; [|done]. apply elem_of_app. right. rewrite Hq.
      by apply (list_elem_of_fmap_2 (fun d => queued cfg d (S (Level item)))).
    + destruct (inv_placed _ _ Hi _ _ Hpl) as (t & Ht & -> & Hc). exists t. split; [done|]. split; [done|].
      intros d Hd. pose proof (reach_step t d Ht Hd) as Hrd. pose proof (placed_below _ _ _ Hpl) as Hb.
      destruct (decide (d = item_Stage item)) as [->|Hdi].
      * destruct (Hc _ Hd) as [(l' & Hl' & Hpd)|H].
        -- left. exists (Level item). split; [|apply Hp; by left]. pose proof (placed_below _ _ _ Hpd). lia.
        -- apply (queuedAt_step item rest x.2) in H as [?|[_ E]]; [by right|].
           left. exists (Level item). split; [lia|apply Hp; by left].
      * destruct (Hc _ Hd) as [(l' & Hl' & Hpd)|H]; [left; exists l'; split; [done|]|].
        -- apply Hp. right. split; [|done]. intros E. by apply Hdi, Hkey.
        -- apply (queuedAt_step item rest x.2) in H as [?|[? _]]; [by right|done].
  - destruct (inv_root _ _ Hi) as [[l Hl]|[l H]].
    + left. destruct (decide (key root = key (item_Stage item))) as [E|E].
      * exists (Level item). apply Hp. by left.
      * exists l. apply Hp. by right.
    + apply (queuedAt_step item rest x.2) in H as [?|[<- _]]; [right; by exists l|].
      left. exists (Level item). apply Hp. by left.
Qed.

(** * Where the loop ends *)

(** What the sets are. *)
Definition ordered (ret : ImagesSets) : Prop :=
  NoDup (names (concat ret)) /\
  (forall nm, nm ∈ names (concat ret) <-> exists t, reach t /\ nm = key t) /\
  forall t d i j set set', reach t -> d ∈ children t ->
    ret !! i = Some set -> key t ∈ names set -> ret !! j = Some set' -> key d ∈ names set' -> j < i.

Lemma placed_index ret i set nm :
  ret !! i = Some set -> nm ∈ names set -> placed ret (length ret - S i) nm.
Proof.
  revert i. induction ret as [|c ret IH]; intros [|i]; simpl; [done..| |].
  - intros [= ->] H. left. split; [lia|done].
  - intros Hi H. right. by apply IH.
Qed.

Lemma inv_end ret : inv [] ret -> ordered ret.
Proof.
  intros Hi. assert (forall l nm, placed ret l nm -> exists t, reach t /\ nm = key t /\
    forall d, d ∈ children t -> exists l', l < l' /\ placed ret l' (key d)) as Hp.
  { intros l nm Hl. destruct (inv_placed _ _ Hi _ _ Hl) as (t & Ht & -> & Hc). exists t. split; [done|].
    split; [done|]. intros d Hd. destruct (Hc d Hd) as [?|(i & Hin & _)]; [done|by apply not_elem_of_nil in Hin]. }
  assert (forall t, reach t -> exists l, placed ret l (key t)) as Hall.
  { unfold reach. apply (rtc_ind_r (fun t => exists l, placed ret l (key t)) root).
    - destruct (inv_root _ _ Hi) as [?|(l & i & Hin & _)]; [done|by apply not_elem_of_nil in Hin].
    - intros t d Ht Hd [l Hl]. destruct (Hp _ _ Hl) as (t' & Ht' & E & Hc). apply Hkey in E as <-; [|done..].
      destruct (Hc d Hd) as (l' & _ & H). by exists l'. }
  split; [apply Hi|]. split.
  - intros nm. rewrite placed_in. split.
    + intros [l Hl]. destruct (Hp _ _ Hl) as (t & Ht & E & _). by exists t.
    + intros (t & Ht & ->). by apply Hall.
  - intros t d i j set set' Ht Hd Hs Hn Hs' Hn'. pose proof (lookup_lt_Some _ _ _ Hs). pose proof (lookup_lt_Some _ _ _ Hs').
    destruct (Hp _ _ (placed_index _ _ _ _ Hs Hn)) as (t' & Ht' & E & Hc). apply Hkey in E as <-; [|done..].
    destruct (Hc d Hd) as (l' & Hl & Hpl).
    pose proof (placed_once _ _ _ _ (inv_names _ _ Hi) Hpl (placed_index _ _ _ _ Hs' Hn')). lia.
Qed.

(** The number of items that an item leads to, itself included. *)
Inductive weighs : nat -> nat -> Prop :=
| weighs_S t ns : Forall2 weighs (children t) ns -> weighs t (S (sum_list ns)).

Lemma weighs_ex t : Acc usedBy t -> exists n, weighs t n.
Proof.
  induction 1 as [t _ IH]. assert (exists ns, Forall2 weighs (children t) ns) as [ns H].
  { apply Forall_exists_Forall2_l, Forall_forall. exact IH. }
  exists (S (sum_list ns)). by constructor.
Qed.

Hypothesis Hplatform : targetPlatform <> "".
Hypothesis Hversion : forall t, reach t -> StagedDockerfileV2 opts = true \/ hasInstruction cfg t.
Hypothesis Hrange : forall t, reach t -> t < length (Dockerfile.Stages cfg).

Lemma loop_ends fuel : forall queue ret ns s,
  inv queue ret -> Forall2 (fun i n => weighs (item_Stage i) n) queue ns -> sum_list ns <= fuel ->
  wp (queueLoop fuel queue ret) s (fun r _ => exists ret', r = Some ret' /\ inv [] ret').
Proof.
  induction fuel as [|fuel IH]; intros [|item rest] ret ns s Hi Hw Hf.
  1,3: apply wp_ret; by exists ret.
  all: inversion Hw as [|? n ? ns' Hn Hns]; subst; inversion Hn as [t ms Hms]; subst; simpl in Hf.
  { lia. }
  apply wp_bind. eapply wp_mono; [apply mapItem_ok; [done|apply Hversion, (inv_items _ _ Hi); left|apply Hrange, (inv_items _ _ Hi); left]|].
  intros x s' Hx. destruct (inv_step item rest ret x Hi Hx) as (ret' & Ea & Hi'). apply wp_bind.
  eapply wp_lift; [exact Ea|]. destruct Hx as [_ Hq].
  assert (Forall2 (fun i n => weighs (item_Stage i) n) ((fun d => queued cfg d (S (Level item))) <$> children (item_Stage item)) ms) as Hqw.
  { by apply Forall2_fmap_l. }
  symmetry in Hq. destruct (Permutation_Forall2 Hq Hqw) as (ms' & Hp & Hqw').
  apply (IH _ _ (ns' ++ ms')); [done|by apply Forall2_app|]. rewrite sum_list_with_app, <-Hp. lia.
Qed.

(** Whatever the names, and errors apart, the loop ends. *)
Lemma loop_returns fuel : forall queue ret ns s,
  Forall2 (fun i n => weighs (item_Stage i) n) queue ns -> sum_list ns <= fuel ->
  wlp (queueLoop fuel queue ret) s (fun r _ => is_Some r).
Proof using Type.
  clear. induction fuel as [|fuel IH]; intros [|item rest] ret ns s Hw Hf.
  1,3: by apply wlp_ret.
  all: inversion Hw as [|? n ? ns' Hn Hns]; subst; inversion Hn as [t ms Hms]; subst; simpl in Hf.
  { lia. }
  apply wlp_bind. eapply wlp_mono; [apply mapItem_wlp|]. intros x s' [_ Hq]. apply wlp_bind, wlp_lift. intros ret' _.
  assert (Forall2 (fun i n => weighs (item_Stage i) n) ((fun d => queued cfg d (S (Level item))) <$> children (item_Stage item)) ms) as Hqw.
  { by apply Forall2_fmap_l. }
  symmetry in Hq. destruct (Permutation_Forall2 Hq Hqw) as (ms' & Hp & Hqw').
  apply (IH _ _ (ns' ++ ms')); [by apply Forall2_app|]. rewrite sum_list_with_app, <-Hp. lia.
Qed.

(** * Cycles *)

Lemma loop_hangs (C : nat -> Prop) fuel : (forall t, C t -> exists d, d ∈ children t /\ C d) ->
  forall queue ret s, (exists i, i ∈ queue /\ C (item_Stage i)) ->
  wlp (queueLoop fuel queue ret) s (fun r _ => r = None).
Proof using Type.
  intros HC. induction fuel as [|fuel IH]; intros [|item rest] ret s (i & Hi & Hc).
  1,3: destruct (not_elem_of_nil i Hi).
  { apply wlp_ret. reflexivity. }
  apply wlp_bind. eapply wlp_mono; [apply mapItem_wlp|]. intros x s' [_ Hq]. apply wlp_bind, wlp_lift.
  intros ret' _. apply IH. apply elem_of_cons in Hi as [->|Hi]; [|exists i; split; [apply elem_of_app; left; exact Hi|exact Hc]].
  destruct (HC _ Hc) as (d & Hd & Hcd). exists (queued cfg d (S (Level item))). split; [|exact Hcd].
  apply elem_of_app. right. rewrite Hq. apply (list_elem_of_fmap_2 (fun d => queued cfg d (S (Level item)))). exact Hd.
Qed.
End dockerfile.

(** * Dockerfiles as they are parsed *)

Section parsed.
Context {gq : GoQuote} {nd : Nondet} {us : UtilStrings} {bk : Dockerfile.Buildkit} {src : ImageSources}.
Variables (opts : TreeOptions) (image : ImageInterface) (targetPlatform : string) (forceLogging : bool).
Variables (dockerStages : list Dockerfile.BuildkitStage) (metaArgs : list (list Dockerfile.KeyValuePairOptional)).
Variables (options : Dockerfile.DockerfileOptions) (cfg : Dockerfile) (root : nat).
Hypothesis Hparsed : Dockerfile.ParseDockerfileWithBuildkit dockerStages metaArgs (GetName image) options = Ok cfg.
Hypothesis Htarget : Dockerfile.GetTargetStage cfg = Ok root.

Definition stageName (t : nat) : string := default "" (Dockerfile.bk_Name <$> dockerStages !! t).

Lemma root_in_range : root < length (Dockerfile.Stages cfg).
Proof.
  unfold Dockerfile.GetTargetStage in Htarget. case_bool_decide.
  - destruct (length (Dockerfile.Stages cfg)); [done|]. simplify_eq. lia.
  - destruct (list_find _ _) as [[i s]|] eqn:E; [|done]. simplify_eq.
    apply list_find_Some in E as [E _]. by eapply lookup_lt_Some.
Qed.

Lemma children_in_range t d : d ∈ children cfg t -> d < length (Dockerfile.Stages cfg).
Proof.
  unfold children. destruct (Dockerfile.Stages cfg !! t) as [s|] eqn:E; [|by intros ?%not_elem_of_nil].
  intros [H|H]%elem_of_app.
  - unfold Dockerfile.FindStage in H. destruct (list_find _ _) as [[i s']|] eqn:Ef; [|by apply not_elem_of_nil in H].
    simpl in H. apply list_elem_of_singleton in H as ->. apply list_find_Some in Ef as [Ef _]. by eapply lookup_lt_Some.
  - apply list_elem_of_In, List.in_concat in H as (l & Hl%list_elem_of_In & Hd%list_elem_of_In).
    apply list_elem_of_fmap in Hl as (instr & -> & Hi).
    destruct (parsed_stages _ _ _ _ _ Hparsed) as [_ Hp]. destruct (Hp _ _ E) as [(_ & _ & Hr) _].
    assert (d ∈ (map_to_list (Dockerfile.DependenciesByStageRef instr)).*2) as Hm
      by (by destruct (Dockerfile.Data instr); try by apply not_elem_of_nil in Hd).
    apply list_elem_of_fmap in Hm as ([ref d'] & -> & Hm%elem_of_map_to_list). by eapply Hr.
Qed.

Lemma reach_in_range t : reach cfg root t -> t < length (Dockerfile.Stages cfg).
Proof.
  intros [<-|(u & _ & H)]%rtc_inv_r; [apply root_in_range|]. by eapply children_in_range.
Qed.

Lemma key_of t : t <> root -> t < length (Dockerfile.Stages cfg) ->
  key cfg image root t = GetName image +:+ (if bool_decide (stageName t = "") then "/stage0" else "/stage/" +:+ stageName t).
Proof.
  intros Hne [s Hs]%lookup_lt_is_Some. unfold key. rewrite bool_decide_eq_false_2, Hs by done.
  destruct (parsed_stages _ _ _ _ _ Hparsed) as [_ Hp]. destruct (Hp _ _ Hs) as [Hps Hn].
  unfold stageName. rewrite <-Hn. by eapply parsed_name.
Qed.

Lemma key_inj t u :
  (forall t u, reach cfg root t -> reach cfg root u -> t <> root -> u <> root -> stageName t = stageName u -> t = u) ->
  reach cfg root t -> reach cfg root u -> key cfg image root t = key cfg image root u -> t = u.
Proof.
  intros Hn Ht Hu.
  assert (forall x, reach cfg root x -> x <> root -> key cfg image root x <> GetName image) as Hne.
  { intros x Hx Hxr E. rewrite (key_of x Hxr (reach_in_range x Hx)) in E. apply (f_equal Str.len) in E.
    rewrite Str.len_app in E. case_bool_decide; simpl in E; lia. }
  assert (key cfg image root root = GetName image) as Hr by (unfold key; by rewrite bool_decide_eq_true_2).
  destruct (decide (t = root)) as [->|Htr], (decide (u = root)) as [->|Hur]; [done| | |].
  - rewrite Hr. intros E. by apply Hne in Hur.
  - rewrite Hr. intros E. by apply Hne in Htr.
  - rewrite !key_of by (try done; by apply reach_in_range). intros E%Str.app_inv_l. apply Hn; [done..|].
    repeat case_bool_decide; [congruence|discriminate E|discriminate E|by apply (Str.app_inv_l "/stage/")].
Qed.

(** What a stage needs by the file: its base, and the stages that its instructions refer to. *)
Definition needsStage (t u : nat) : Prop := exists s, Dockerfile.Stages cfg !! t = Some s /\
  (Dockerfile.FindStage cfg (Dockerfile.BaseName s) = Some u \/
   exists instr ref, instr ∈ Dockerfile.Instructions s /\ ref ∈ referred (Dockerfile.Data instr) /\ ref <> "" /\
     Dockerfile.findStageByRef ref (Dockerfile.Stages cfg) (Dockerfile.stagesByName (Dockerfile.Stages cfg)) = Some u).

Lemma children_needs t u : resolvable cfg -> u ∈ children cfg t <-> needsStage t u.
Proof using Hparsed.
  intros Hr. unfold children, needsStage. destruct (Dockerfile.Stages cfg !! t) as [s|] eqn:E.
  2:{ split; [by intros ?%not_elem_of_nil|by intros (s & ? & _)]. }
  pose proof (references_recorded _ _ _ _ _ Hparsed Hr s) as Href. rewrite elem_of_app.
  assert (u ∈ references (Dockerfile.Instructions s) <-> exists instr ref, instr ∈ Dockerfile.Instructions s /\
    Dockerfile.DependenciesByStageRef instr !! ref = Some u) as ->.
  { unfold references. rewrite list_elem_of_In, List.in_concat. setoid_rewrite <-list_elem_of_In. split.
    - intros (l & Hl & Hu). apply list_elem_of_fmap in Hl as (instr & -> & Hi). exists instr.
      assert (u ∈ (map_to_list (Dockerfile.DependenciesByStageRef instr)).*2) as Hm
        by (by destruct (Dockerfile.Data instr); try by apply not_elem_of_nil in Hu).
      apply list_elem_of_fmap in Hm as ([ref u'] & -> & Hm%elem_of_map_to_list). by exists ref.
    - intros (instr & ref & Hi & Hd). eexists. split; [apply list_elem_of_fmap; exists instr; by split|].
      destruct (Dockerfile.Data instr) eqn:Ed; [|exfalso; apply Href in Hd as [Hd _]; [rewrite Ed in Hd; by apply not_elem_of_nil in Hd|by eapply list_elem_of_lookup_2|done]|..].
      all: apply list_elem_of_fmap; exists (ref, u); split; [done|by apply elem_of_map_to_list]. }
  split.
  - intros H. exists s. split; [done|]. destruct H as [H|(instr & ref & Hi & Hd)].
    + left. destruct (Dockerfile.FindStage _ _); [|by apply not_elem_of_nil in H]. by apply list_elem_of_singleton in H as ->.
    + right. exists instr, ref. split; [done|]. apply Href; [by eapply list_elem_of_lookup_2|done|done].
  - intros (s' & [= <-] & [->|(instr & ref & Hi & Hd)]); [left; by apply list_elem_of_singleton|right].
    exists instr, ref. split; [done|]. apply Href; [by eapply list_elem_of_lookup_2|done|done].
Qed.

(** C16: a parsed Dockerfile is mapped to sets in which each stage that the target needs comes once,
    and after the stages that it needs itself. A stage needs its base, looked up by name, and the
    stages that the parser recorded for its instructions other than ARG: where every reference of the
    file names a stage, exactly those that the instructions refer to. The parser stops recording at
    the first reference to an image that is no stage, and what it did not record is not counted here
    (and not built). The conditions: the target platform is given and the build secrets are read; no
    needed stage needs itself through others; the needed stages other than the target have different
    names (so at most one has none); and either the second version of the staged builder is chosen or
    each needed stage has an instruction other than ARG, without which the first version, the default,
    gives an error. *)
Theorem dockerfile_sets secrets :
  getBuildSecrets image = Ok secrets -> targetPlatform <> "" ->
  (forall t, reach cfg root t -> StagedDockerfileV2 opts = true \/ hasInstruction cfg t) ->
  Acc (usedBy cfg) root ->
  (forall t u, reach cfg root t -> reach cfg root u -> t <> root -> u <> root -> stageName t = stageName u -> t = u) ->
  (resolvable cfg -> forall t u, u ∈ children cfg t <-> needsStage t u) /\
  exists enough, forall fuel, enough <= fuel -> forall s,
    wp (mapDockerfileToImagesSets opts cfg fuel image targetPlatform forceLogging) s
      (fun r _ => exists sets, r = Some sets /\ ordered cfg image root sets).
Proof.
  intros Hsec Hp Hv Ha Hn. split; [intros Hr t u; by apply children_needs|]. destruct (weighs_ex cfg root Ha) as [n Hw].
  exists (n + 0). intros fuel Hf s. unfold mapDockerfileToImagesSets.
  apply wp_bind, wp_wrap. eapply wp_lift; [exact Htarget|]. apply wp_bind, wp_wrap. eapply wp_lift; [exact Hsec|].
  assert (forall t, reach cfg root t -> root ∉ children cfg t) as Hroot.
  { intros t Ht Hin. apply (Acc_not_tc _ _ Ha). apply rtc_tc in Ht as [->|Ht]; [by apply tc_once|].
    eapply tc_l; [exact Hin|]. clear -Ht. induction Ht as [x y H|x z y H _ IH]; [by apply tc_once|by eapply tc_r]. }
  eapply wp_mono; [apply (loop_ends opts cfg image targetPlatform forceLogging root Hroot) with (ns := [n])|].
  - intros t u. by apply key_inj.
  - done.
  - done.
  - apply reach_in_range.
  - apply inv_start.
  - by repeat constructor.
  - done.
  - intros r w (ret & -> & Hi). exists ret. split; [done|]. apply inv_end; [|done]. intros t u. by apply key_inj.
Qed.

(** Where a stage that the target needs needs itself, the mapping of the Dockerfile never ends: a
    base image is looked up among all stages by name, so also where the stage has the name of the
    image that it is built from. *)
Theorem dockerfile_hangs t :
  reach cfg root t -> tc (uses cfg) t t ->
  forall fuel s, wlp (mapDockerfileToImagesSets opts cfg fuel image targetPlatform forceLogging) s (fun r _ => r = None).
Proof.
  intros Ht Hc fuel s. unfold mapDockerfileToImagesSets. apply wlp_bind, wlp_wrap, wlp_lift.
  intros r Er. rewrite Htarget in Er. simplify_eq. apply wlp_bind, wlp_wrap, wlp_lift. intros _ _.
  apply (loop_hangs opts cfg image targetPlatform forceLogging) with (C := fun u => rtc (uses cfg) u t).
  - intros u Hu. destruct Hu as [u|u v w Huv Hvw].
    + inversion Hc as [? ? H|? v ? H Hv]; subst; [exists u; by split|]. exists v. split; [done|by apply tc_rtc].
    + by exists v.
  - exists (mkItem (GetName image) r 0 true). split; [left|done].
Qed.
End parsed.
End ImagesTreeProps.
