(* ===== verification/ImagesTreeOrder.v ===== *)
(** The order of the sets of the tree of images: the images of a configuration image come in later
    sets than those of the images it needs. *)
From S2P Require Import Prelude Go GoStd WerfConfig WerfConfigProps WerfConfigGroups Dockerfile DockerfileProps ImagesTree ImagesTreeFacts ImagesTreeProps.
Import WerfConfig WerfConfigGroups ImagesTree ImagesTreeProps.

Module ImagesTreeOrder.

(** * The builder of the sets *)

(** The set at an index, empty beyond the last one. *)
Definition getSet (sets : list (list nat)) (a : nat) : list nat := default [] (sets !! a).

Lemma concat_replicate_nil n : concat (replicate n (A:=list nat) []) = [].
Proof. by induction n. Qed.

Lemma concat_set (sets : list (list nat)) t x y : sets !! t = Some x ->
  concat (<[t := x ++ y]> sets) ≡ₚ concat sets ++ y.
Proof.
  intros Ht. rewrite insert_take_drop by by eapply lookup_lt_Some.
  rewrite <-(take_drop_middle _ _ _ Ht) at 3. rewrite !concat_app. simpl. solve_Permutation.
Qed.

Lemma mergeSet_spec bld k set :
  let t := curSetInd bld + k in
  let bld' := mergeSet bld (k, set) in
  let new := seq (length (bld_images bld)) (length set) in
  bld_images bld' = bld_images bld ++ set /\ curSetInd bld' = curSetInd bld /\ nextSetInd bld' = nextSetInd bld /\
  length (imagesSets bld') = Nat.max (length (imagesSets bld)) (S t) /\
  concat (imagesSets bld') ≡ₚ concat (imagesSets bld) ++ new /\
  forall a, getSet (imagesSets bld') a = if decide (a = t) then getSet (imagesSets bld) t ++ new else getSet (imagesSets bld) a.
Proof.
  cbv zeta. unfold mergeSet, setImagesByInd, getImagesByInd. simpl. split; [done|]. split; [done|]. split; [done|].
  set (t := curSetInd bld + k). set (new := seq _ _). set (old := imagesSets bld).
  set (sets := if length old <=? t then _ else _).
  assert (length sets = Nat.max (length old) (S t)) as Hlen.
  { unfold sets. destruct (Nat.leb_spec (length old) t); [rewrite length_app, length_replicate|]; lia. }
  assert (concat sets = concat old) as Hc.
  { unfold sets. destruct (_ <=? _); [|done]. by rewrite concat_app, concat_replicate_nil, List.app_nil_r. }
  assert (forall a, getSet sets a = getSet old a) as Hg.
  { intros a. unfold sets, getSet. destruct (Nat.leb_spec (length old) t); [|done]. rewrite lookup_app.
    destruct (old !! a) eqn:E; [done|]. simpl. destruct (replicate _ _ !! _) eqn:Er; [|done].
    by apply lookup_replicate in Er as [-> _]. }
  assert (sets !! t = Some (getSet old t)) as Ht.
  { destruct (lookup_lt_is_Some_2 sets t) as [x Hx]; [lia|]. rewrite Hx, <-Hg. unfold getSet. by rewrite Hx. }
  fold (getSet old t). destruct (getSet old t ++ new) as [|z l] eqn:E.
  - apply app_eq_nil in E as [E1 E2]. rewrite E2, List.app_nil_r. split; [done|]. split; [by rewrite Hc|].
    intros a. rewrite Hg. case_decide; [by subst a; rewrite E1|done].
  - rewrite <-E, length_insert. split; [done|]. split; [by rewrite (concat_set _ _ _ _ Ht), Hc|].
    intros a. unfold getSet at 1. case_decide as Ha.
    + subst a. rewrite list_lookup_insert_eq by lia. by rewrite E.
    + rewrite list_lookup_insert_ne by done. apply Hg.
Qed.

(** * The invariant *)

Section order.
Context {gq : GoQuote} {nd : Nondet} {us : UtilStrings} {bk : Dockerfile.Buildkit} {src : ImageSources}.
Variables (opts : TreeOptions) (images : list ImageInterface).

(** The image was made for the configuration image [n]. *)
Definition made (n : string) (img : Image) : Prop :=
  exists image fuel fl platform s s' sets, WerfConfig.GetImage images n = Some image /\
    mapImage opts fuel image fl platform s = (Ok (Some sets), s') /\ img ∈ concat sets.

(** The number of the group of a configuration image. *)
Variable group : string -> nat.

(** After the groups below [g], within group [g]; [owner] says for which configuration image each image
    was made. *)
Record built (g : nat) (bld : ImagesSetsBuilder) (owner : list string) : Prop := {
  b_len : length owner = length (bld_images bld);
  b_made : forall i n img, owner !! i = Some n -> bld_images bld !! i = Some img -> made n img;
  b_perm : concat (imagesSets bld) ≡ₚ seq 0 (length (bld_images bld));
  b_cur : curSetInd bld <= nextSetInd bld;
  b_group : forall a i n, i ∈ getSet (imagesSets bld) a -> owner !! i = Some n ->
    group n <= g /\ (group n < g -> a < curSetInd bld) /\ (group n = g -> curSetInd bld <= a);
  b_order : forall a b i j n r, i ∈ getSet (imagesSets bld) a -> j ∈ getSet (imagesSets bld) b ->
    owner !! i = Some n -> owner !! j = Some r -> group n < group r -> a < b;
}.

Definition fits (bld : ImagesSetsBuilder) : Prop := length (imagesSets bld) <= nextSetInd bld.

Lemma getSet_in sets a i : i ∈ getSet sets a -> i ∈ concat sets.
Proof.
  unfold getSet. destruct (sets !! a) eqn:E; [|by intros ?%not_elem_of_nil]. intros Hi.
  apply list_elem_of_In, List.in_concat. exists l. split; apply list_elem_of_In; [by eapply list_elem_of_lookup_2|done].
Qed.

Lemma built_start : built 0 NewImagesSetsBuilder [] /\ fits NewImagesSetsBuilder.
Proof.
  split; [|unfold fits; simpl; lia]. split; simpl; [done|done|done|lia| |].
  - intros a i n H%getSet_in. by apply not_elem_of_nil in H.
  - intros a b i j n r H%getSet_in. by apply not_elem_of_nil in H.
Qed.

Lemma getSet_old g bld owner a i : built g bld owner -> i ∈ getSet (imagesSets bld) a -> i < length (bld_images bld).
Proof. intros Hb Hi%getSet_in. rewrite (b_perm _ _ _ Hb) in Hi. apply elem_of_seq in Hi. lia. Qed.

(** The images of one set. *)
Lemma built_mergeSet g bld owner k set n :
  built g bld owner -> group n = g -> (forall img, img ∈ set -> made n img) ->
  built g (mergeSet bld (k, set)) (owner ++ replicate (length set) n).
Proof.
  intros Hb Hg Hset. pose proof (mergeSet_spec bld k set) as (Ei & Ec & En & _ & Ep & Es).
  assert (forall a i, i ∈ getSet (imagesSets (mergeSet bld (k, set))) a ->
    (i ∈ getSet (imagesSets bld) a /\ i < length owner) \/ (a = curSetInd bld + k /\ length owner <= i)) as Hin.
  { intros a i. rewrite Es, (b_len _ _ _ Hb). case_decide as Ha; [|intros Hi; left; split; [done|by eapply getSet_old]].
    intros [Hi|Hi]%elem_of_app; [left; subst a; split; [done|by eapply getSet_old]|right].
    apply elem_of_seq in Hi. split; [done|lia]. }
  assert (forall i m, (owner ++ replicate (length set) n) !! i = Some m -> length owner <= i -> m = n) as Hnew.
  { intros i m Hi Hl. rewrite lookup_app_r in Hi by done. by apply lookup_replicate in Hi as [-> _]. }
  split.
  - rewrite length_app, length_replicate, Ei, length_app, (b_len _ _ _ Hb). done.
  - intros i m img. rewrite Ei. destruct (decide (i < length owner)) as [Hl|Hl].
    + rewrite !lookup_app_l by (rewrite <-?(b_len _ _ _ Hb); done). apply (b_made _ _ _ Hb).
    + intros Hm Himg. apply Hnew in Hm as ->; [|lia]. rewrite lookup_app_r in Himg by (rewrite <-(b_len _ _ _ Hb); lia).
      apply Hset. by eapply list_elem_of_lookup_2.
  - by rewrite Ep, Ei, length_app, seq_app, (b_perm _ _ _ Hb).
  - rewrite Ec, En. apply Hb.
  - intros a i m [[Hi Hl]|[-> Hl]]%Hin; rewrite Ec.
    + rewrite lookup_app_l by done. by apply (b_group _ _ _ Hb).
    + intros Hm. apply Hnew in Hm as ->; [|done]. split; [lia|]. split; [lia|]. intros _. lia.
  - intros a b i j m r [[Hi Hl]|[-> Hl]]%Hin [[Hj Hlj]|[-> Hlj]]%Hin Hm Hr.
    + rewrite lookup_app_l in Hm, Hr by done. by apply (b_order _ _ _ Hb _ _ i j).
    + apply Hnew in Hr as ->; [|done]. rewrite lookup_app_l in Hm by done. intros Hlt.
      destruct (b_group _ _ _ Hb _ _ _ Hi Hm) as (_ & H & _). specialize (H ltac:(lia)). lia.
    + apply Hnew in Hm as ->; [|done]. rewrite lookup_app_l in Hr by done. intros Hlt.
      destruct (b_group _ _ _ Hb _ _ _ Hj Hr) as (H & _ & _). lia.
    + apply Hnew in Hm as ->; [|done]. apply Hnew in Hr as ->; [|done]. lia.
Qed.

Lemma built_mergeSets g n sets : forall k bld owner,
  built g bld owner -> group n = g -> (forall img, img ∈ concat sets -> made n img) ->
  let bld' := foldl mergeSet bld (imap (fun i x => (k + i, x)) sets) in
  built g bld' (owner ++ replicate (length (concat sets)) n) /\
  bld_images bld' = bld_images bld ++ concat sets /\ curSetInd bld' = curSetInd bld /\ nextSetInd bld' = nextSetInd bld /\
  length (imagesSets bld') <= Nat.max (length (imagesSets bld)) (curSetInd bld + k + length sets).
Proof.
  induction sets as [|set sets IH]; intros k bld owner Hb Hg Hm; simpl.
  { rewrite !List.app_nil_r. split; [done|]. split; [done|]. split; [done|]. split; [done|lia]. }
  rewrite Nat.add_0_r. pose proof (mergeSet_spec bld k set) as (Ei & Ec & En & El & _).
  destruct (IH (S k) (mergeSet bld (k, set)) (owner ++ replicate (length set) n)) as (Ho & Ei' & Ec' & En' & El').
  - apply built_mergeSet; [done|done|]. intros img Hi. apply Hm. simpl. set_solver.
  - done.
  - intros img Hi. apply Hm. simpl. set_solver.
  - assert (imap ((fun i x => (k + i, x)) ∘ S) sets = imap (fun i x => (S k + i, x)) sets) as ->
      by (apply imap_ext; intros i x _; simpl; f_equal; lia).
    rewrite length_app, replicate_add, List.app_assoc. split; [done|]. split; [by rewrite Ei', Ei, List.app_assoc|].
    split; [congruence|]. split; [congruence|]. rewrite El, Ec in El'. lia.
Qed.

(** The images that are numbered after the others. *)
Definition grown (bld : ImagesSetsBuilder) (owner : list string) (bld' : ImagesSetsBuilder) (owner' : list string) : Prop :=
  owner `prefix_of` owner' /\ bld_images bld `prefix_of` bld_images bld'.

(** All images of [n] for the platform are numbered. *)
Definition covers (imgs : list Image) (owner : list string) (n p : string) : Prop :=
  exists image fuel fl s s' sets, WerfConfig.GetImage images n = Some image /\
    mapImage opts fuel image fl p s = (Ok (Some sets), s') /\
    forall img, img ∈ concat sets -> exists i, owner !! i = Some n /\ imgs !! i = Some img.

Lemma covers_grown bld owner bld' owner' n p :
  grown bld owner bld' owner' -> covers (bld_images bld) owner n p -> covers (bld_images bld') owner' n p.
Proof.
  intros [Ho Hi] (image & fuel & fl & s & s' & sets & Hn & Hm & Hs). exists image, fuel, fl, s, s', sets.
  split; [done|]. split; [done|]. intros img (k & Hk & Hkb)%Hs. exists k.
  split; [by eapply prefix_lookup_Some|by eapply prefix_lookup_Some].
Qed.

Lemma built_Merge g bld owner n sets :
  built g bld owner -> fits bld -> group n = g -> (forall img, img ∈ concat sets -> made n img) ->
  exists owner', built g (MergeImagesSets bld sets) owner' /\ fits (MergeImagesSets bld sets) /\
    grown bld owner (MergeImagesSets bld sets) owner' /\
    forall img, img ∈ concat sets -> exists i, owner' !! i = Some n /\ bld_images (MergeImagesSets bld sets) !! i = Some img.
Proof.
  intros Hb Hf Hg Hm. destruct (built_mergeSets g n sets 0 bld owner Hb Hg Hm) as (Hb' & Ei & Ec & En & El).
  unfold fits, MergeImagesSets in *. change (imap pair sets) with (imap (fun i x => (0 + i, x)) sets).
  set (bld' := foldl mergeSet bld _) in *. set (owner' := owner ++ _) in Hb'. exists owner'. rewrite Nat.add_0_r in El.
  split; [|split; [|split]]; simpl.
  - destruct Hb' as [H1 H2 H3 H4 H5 H6]. split; simpl; [done|done|done| |done|done].
    destruct (Nat.ltb_spec (nextSetInd bld') (curSetInd bld + length sets)); lia.
  - destruct (Nat.ltb_spec (nextSetInd bld') (curSetInd bld + length sets)); lia.
  - split; simpl; [by apply prefix_app_r|]. rewrite Ei. by apply prefix_app_r.
  - intros img [k Hk]%list_elem_of_lookup. exists (length owner + k). rewrite Ei. unfold owner'.
    pose proof (lookup_lt_Some _ _ _ Hk).
    rewrite !lookup_app_r, (b_len _ _ _ Hb), Nat.add_comm, Nat.add_sub by (rewrite ?(b_len _ _ _ Hb); lia).
    split; [by apply lookup_replicate|done].
Qed.

Lemma built_Next g bld owner : built g bld owner -> fits bld -> built (S g) (Next bld) owner /\ fits (Next bld).
Proof.
  intros Hb Hf. split; [|done]. destruct Hb as [H1 H2 H3 H4 H5 H6]. split; simpl; [done|done|done|done| |done].
  intros a i n Hi Hn. destruct (H5 a i n Hi Hn) as (Hg & _). split; [lia|]. split; [|lia]. intros _.
  assert (a < length (imagesSets bld)); [|unfold fits in Hf; lia].
  unfold getSet in Hi. destruct (imagesSets bld !! a) eqn:E; [by eapply lookup_lt_Some|by apply not_elem_of_nil in Hi].
Qed.

(** * The platforms *)

Definition commonPlatforms : list string :=
  match GetTargetPlatforms opts with Ok (p :: l) => p :: l | _ => [DefaultPlatform opts] end.

(** The platforms of a configuration image: the forced ones, else its own, else those of the
    configuration, else the default one. *)
Definition platformsOf (n : string) : list string :=
  match ForcedTargetPlatforms opts with
  | [] => match GetImageTargetPlatforms images n with Ok (p :: l) => p :: l | _ => commonPlatforms end
  | l => l
  end.

Lemma imagePlatforms_wlp n s : wlp (imagePlatforms opts images commonPlatforms n) s (fun l _ => l = platformsOf n).
Proof.
  unfold imagePlatforms, platformsOf. destruct (ForcedTargetPlatforms opts); [|by apply wlp_ret].
  apply wlp_bind, wlp_wrap, wlp_lift. intros [|p l] ->; by apply wlp_ret.
Qed.

(** * The loops *)

(** The images of the wanted names and platforms are added. *)
Definition builds (g : nat) (bld : ImagesSetsBuilder) (owner : list string) (wanted : string -> string -> Prop)
  (r : option ImagesSetsBuilder) : Prop :=
  exists bld' owner', r = Some bld' /\ built g bld' owner' /\ fits bld' /\ grown bld owner bld' owner' /\
    forall n p, wanted n p -> covers (bld_images bld') owner' n p.

Variable fuel : nat.
(** The fuel is enough for the images on their platforms. *)
Hypothesis Hfuel : forall n image p, WerfConfig.GetImage images n = Some image -> p ∈ platformsOf n ->
  forall fl s, wlp (mapImage opts fuel image fl p) s (fun r _ => is_Some r).

Lemma builds_start g bld owner (wanted : string -> string -> Prop) :
  built g bld owner -> fits bld -> (forall n p, ~ wanted n p) -> builds g bld owner wanted (Some bld).
Proof. intros Hb Hf Hw. exists bld, owner. do 3 (split; [done|]). split; [by split|]. intros n p H. destruct (Hw n p H). Qed.

(** One step after another. *)
Lemma builds_trans g g' bld owner bld1 owner1 (w1 w2 w : string -> string -> Prop) r :
  grown bld owner bld1 owner1 -> (forall n p, w1 n p -> covers (bld_images bld1) owner1 n p) ->
  builds g bld1 owner1 w2 r -> g' = g -> (forall n p, w n p -> w1 n p \/ w2 n p) -> builds g' bld owner w r.
Proof.
  intros [Ho Hi] H1 (bld' & owner' & -> & Hb & Hf & [Ho' Hi'] & H2) -> Hw. exists bld', owner'.
  do 3 (split; [done|]). split; [split; by etrans|]. intros n p [H|H]%Hw; [|by apply H2].
  eapply covers_grown; [by split|by apply H1].
Qed.

Lemma mapPlatforms_builds image fl n g platforms : forall bld owner s,
  platforms ⊆ platformsOf n ->
  WerfConfig.GetImage images n = Some image -> group n = g -> built g bld owner -> fits bld ->
  wlp (mapPlatforms opts fuel image fl platforms bld) s (fun r _ => builds g bld owner (fun m p => m = n /\ p ∈ platforms) r).
Proof.
  induction platforms as [|p platforms IH]; intros bld owner s Hp Hi Hg Hb Hf.
  { apply wlp_ret, builds_start; [done|done|]. by intros m q [_ ?%not_elem_of_nil]. }
  apply wlp_bind. apply wlp_alt. intros r s' Hm.
  destruct (proj1 (wlp_alt _ _ _) (Hfuel n image p Hi (Hp p ltac:(left)) fl s) _ _ Hm) as [sets ->].
  destruct (built_Merge g bld owner n sets Hb Hf Hg) as (owner' & Hb' & Hf' & Hgr & Hc).
  - intros img Himg. by exists image, fuel, fl, p, s, s', sets.
  - eapply wlp_mono; [apply (IH _ owner'); [set_solver|done..]|]. intros r w Hr.
    refine (builds_trans g g bld owner _ owner' (fun m q => m = n /\ q = p) _ _ r Hgr _ Hr eq_refl _).
    + intros m q [-> ->]. by exists image, fuel, fl, s, s', sets.
    + intros m q [-> Hq]. set_solver.
Qed.

Lemma mapSet_builds names g : forall bld owner s,
  (forall n, n ∈ names -> group n = g) -> built g bld owner -> fits bld ->
  wlp (mapSet opts images fuel commonPlatforms names bld) s
    (fun r _ => builds g bld owner (fun m p => m ∈ names /\ p ∈ platformsOf m) r).
Proof.
  induction names as [|n names IH]; intros bld owner s Hg Hb Hf.
  { apply wlp_ret, builds_start; [done|done|]. by intros m q [?%not_elem_of_nil _]. }
  cbn [mapSet]. destruct (WerfConfig.GetImage images n) as [image|] eqn:E; [|done].
  apply wlp_bind. eapply wlp_mono; [apply imagePlatforms_wlp|]. intros ? s' ->. apply wlp_bind.
  eapply wlp_mono; [apply (mapPlatforms_builds _ _ n g _ _ owner); [done|done|apply Hg; by left|done|done]|].
  intros r w (b & owner' & -> & Hb' & Hf' & Hgr & Hc).
  eapply wlp_mono; [apply (IH _ owner'); [|done|done]|].
  - intros m Hm. apply Hg. by right.
  - intros r w2 Hr.
    refine (builds_trans g g bld owner _ owner' _ _ _ r Hgr Hc Hr eq_refl _).
    intros m q [[->|Hm]%elem_of_cons Hq]; auto.
Qed.

Lemma mapSets_builds sets : forall g bld owner s,
  (forall k l n, sets !! k = Some l -> n ∈ l -> group n = g + k) -> built g bld owner -> fits bld ->
  wlp (mapSets opts images fuel commonPlatforms sets bld) s
    (fun r _ => builds (g + length sets) bld owner (fun m p => m ∈ concat sets /\ p ∈ platformsOf m) r).
Proof.
  induction sets as [|set sets IH]; intros g bld owner s Hg Hb Hf.
  { apply wlp_ret. simpl. rewrite Nat.add_0_r. apply builds_start; [done|done|]. by intros m q [?%not_elem_of_nil _]. }
  apply wlp_bind. eapply wlp_mono; [apply (mapSet_builds _ g _ owner); [|done|done]|].
  - intros n Hn. rewrite (Hg 0 set n eq_refl Hn). lia.
  - intros r w (b & owner' & -> & Hb' & Hf' & Hgr & Hc).
    destruct (built_Next _ _ _ Hb' Hf') as [Hb2 Hf2].
    eapply wlp_mono; [apply (IH (S g) _ owner'); [|done|done]|].
    + intros k l n Hl Hn. rewrite (Hg (S k) l n Hl Hn). lia.
    + intros r w2 Hr.
      refine (builds_trans _ _ bld owner _ owner' _ _ _ r Hgr Hc Hr _ _).
      * simpl. lia.
      * simpl. intros m q [[Hm|Hm]%elem_of_app Hq]; auto.
Qed.
End order.

(** * The whole tree *)

(** The number of the group with a name; beyond the last one for another name. *)
Definition groupOf (groups : list (list string)) (n : string) : nat :=
  match list_find (fun l => n ∈ l) groups with Some (k, _) => k | None => S (length groups) end.

Lemma groupOf_eq groups k l n : NoDup (concat groups) -> groups !! k = Some l -> n ∈ l -> groupOf groups n = k.
Proof.
  unfold groupOf. revert k. induction groups as [|x groups IH]; intros k Hnd Hk Hn; [done|].
  simpl in Hnd. apply NoDup_app in Hnd as (_ & Hd & Hnd). simpl. case_decide as Hx.
  - destruct k as [|k]; [done|]. simpl in Hk. destruct (Hd n Hx). apply list_elem_of_In, List.in_concat.
    exists l. split; apply list_elem_of_In; [by eapply list_elem_of_lookup_2|done].
  - destruct k as [|k]; [by simplify_eq/=|]. specialize (IH k Hnd Hk Hn).
    destruct (list_find _ groups) as [[k' l']|] eqn:E; simpl; [by subst|].
    apply list_find_None in E. destruct (Forall_lookup_1 _ _ _ _ E Hk Hn).
Qed.

Lemma groupOf_le groups n : groupOf groups n <= length groups -> exists l, groups !! groupOf groups n = Some l /\ n ∈ l.
Proof.
  unfold groupOf. destruct (list_find _ groups) as [[k l]|] eqn:E; [|lia]. intros _.
  apply list_find_Some in E as (Hk & Hn & _). by exists l.
Qed.

Lemma layered_before deps before groups k l n r :
  layered deps before groups -> groups !! k = Some l -> n ∈ l -> r ∈ deps n ->
  r ∈ before \/ exists k' l', k' < k /\ groups !! k' = Some l' /\ r ∈ l'.
Proof.
  intros Hl. revert k. induction Hl as [|before cur rest _ Hcur _ _ IH]; intros k Hk Hn Hr; [done|].
  destruct k as [|k]; simpl in Hk.
  - simplify_eq. left. destruct (Hcur n Hn) as [_ H]. set_solver.
  - destruct (IH k Hk Hn Hr) as [[H|H]%elem_of_union|(k' & l' & Hk' & Hl' & Hr')].
    + right. exists 0, cur. split; [lia|]. split; [done|]. by apply elem_of_list_to_set in H.
    + by left.
    + right. exists (S k'), l'. split; [lia|]. by split.
Qed.

(** * Enough fuel for the images *)

Section calculate.
Context {gq : GoQuote} {nd : Nondet} {us : UtilStrings} {bk : Dockerfile.Buildkit} {src : ImageSources}.
Variables (opts : TreeOptions) (images : list ImageInterface).

(** No stage that the target of the image's Dockerfile needs, itself included, needs itself. *)
Definition dockerfileEnds (image : ImageInterface) (p : string) : Prop :=
  IsStapel image = false -> Staged (dockerfileConfig image) = true ->
  forall parsed d root, readDockerfile image = Ok parsed ->
    Dockerfile.ParseDockerfileWithBuildkit parsed.1 parsed.2 (GetName image) (dc_opts (dockerfileConfig image) p) = Ok d ->
    Dockerfile.GetTargetStage d = Ok root -> Acc (usedBy d) root.

Definition enoughFor (image : ImageInterface) (p : string) (n : nat) : Prop :=
  forall fuel, n <= fuel -> forall fl s, wlp (mapImage opts fuel image fl p) s (fun r _ => is_Some r).

Lemma dockerfile_enough image p d :
  (forall root, Dockerfile.GetTargetStage d = Ok root -> Acc (usedBy d) root) ->
  exists n, forall fuel, n <= fuel -> forall fl s,
    wlp (mapDockerfileToImagesSets opts d fuel image p fl) s (fun r _ => is_Some r).
Proof.
  intros Ha. unfold mapDockerfileToImagesSets. destruct (Dockerfile.GetTargetStage d) as [root|e|e] eqn:E; [|exists 0; done..].
  destruct (weighs_ex d root (Ha root eq_refl)) as [n Hn]. exists n. intros fuel Hf fl s.
  apply wlp_bind, wlp_wrap, wlp_lift. intros r [= <-]. apply wlp_bind, wlp_wrap, wlp_lift. intros _ _.
  apply (loop_returns opts d image p fl fuel _ _ [n]); [by repeat constructor|simpl; lia].
Qed.

Lemma image_enough image p : dockerfileEnds image p -> exists n, enoughFor image p n.
Proof.
  intros He. unfold enoughFor, mapImage, dockerfileEnds in *. destruct (IsStapel image).
  { exists 0. intros fuel _ fl s. apply wlp_bind, wlp_alt. intros sets s' _. by apply wlp_ret. }
  unfold MapDockerfileConfigToImagesSets. destruct (Staged (dockerfileConfig image)).
  2:{ exists 0. intros fuel _ fl s. apply wlp_wrap, wlp_bind, wlp_alt. intros img s' _. by apply wlp_ret. }
  destruct (readDockerfile image) as [parsed|e|e] eqn:Er; [|exists 0; done..].
  destruct (Dockerfile.ParseDockerfileWithBuildkit parsed.1 parsed.2 (GetName image) (dc_opts (dockerfileConfig image) p)) as [d|e|e] eqn:Ep.
  - destruct (dockerfile_enough image p d) as [n Hn]; [intros root; by apply (He eq_refl eq_refl parsed d root)|]. exists n.
    intros fuel Hf fl s. apply wlp_wrap, wlp_bind, wlp_lift. intros ? [= <-]. apply wlp_bind, wlp_wrap, wlp_lift.
    intros ? Ed. rewrite Ep in Ed. injection Ed as <-. by apply Hn.
  - exists 0. intros fuel _ fl s. apply wlp_wrap, wlp_bind, wlp_lift. intros ? [= <-]. apply wlp_bind, wlp_wrap, wlp_lift.
    intros ? Ed. by rewrite Ep in Ed.
  - exists 0. intros fuel _ fl s. apply wlp_wrap, wlp_bind, wlp_lift. intros ? [= <-]. apply wlp_bind, wlp_wrap, wlp_lift.
    intros ? Ed. by rewrite Ep in Ed.
Qed.

(** For finitely many cases at once. *)
Lemma enough_all {A} (P : A -> nat -> Prop) (l : list A) :
  (forall a m n, P a m -> m <= n -> P a n) -> (forall a, a ∈ l -> exists n, P a n) ->
  exists n, forall a, a ∈ l -> P a n.
Proof.
  intros Hm. induction l as [|a l IH]; intros H; [exists 0; by intros a ?%not_elem_of_nil|].
  destruct (H a ltac:(left)) as [n Hn]. destruct IH as [m Hl]; [intros b Hb; apply H; by right|].
  exists (Nat.max n m). intros b [->|Hb]%elem_of_cons; [eapply Hm; [exact Hn|lia]|eapply Hm; [by apply Hl|lia]].
Qed.

Lemma images_enough :
  (forall image p, image ∈ images -> p ∈ platformsOf opts images (GetName image) -> dockerfileEnds image p) ->
  exists n, forall image p, image ∈ images -> p ∈ platformsOf opts images (GetName image) -> enoughFor image p n.
Proof.
  intros He. assert (forall a p m n, enoughFor a p m -> m <= n -> enoughFor a p n) as Hm.
  { intros a p m n Hn Hl fuel Hf. apply Hn. lia. }
  destruct (enough_all (fun image n => forall p, p ∈ platformsOf opts images (GetName image) -> enoughFor image p n) images) as [n Hn].
  - intros a m n Ha Hl p Hp. eapply Hm; [by apply Ha|done].
  - intros image Hi. apply (enough_all (enoughFor image)); [by apply Hm|]. intros p Hp. by apply image_enough, He.
  - exists n. intros image p Hi Hp. by apply Hn.
Qed.

(** * The whole tree *)

(** Each image is in one set; each was made for an image of the configuration, in a later set than
    those made for the images that this one needs; and all images are there of each configuration image
    that a chosen one needs, itself included, on each of its platforms. *)
Definition calculated (itp : ImagesToProcess) (sets : list (list nat)) (imgs : list Image) : Prop :=
  concat sets ≡ₚ seq 0 (length imgs) /\
  exists imgs0 owner, imgs = imap (fun i img => set_log img i (length imgs0)) imgs0 /\ length owner = length imgs0 /\
    (forall i n img, owner !! i = Some n -> imgs0 !! i = Some img -> made opts images n img) /\
    (forall i j n r a b, owner !! i = Some n -> owner !! j = Some r -> r ∈ relatives images n ->
      i ∈ getSet sets a -> j ∈ getSet sets b -> b < a) /\
    forall n p, WithoutImages itp = false -> reached (relatives images) (ImageNameList itp) n ->
      p ∈ platformsOf opts images n -> covers opts images imgs0 owner n p.

Lemma built_calculated itp groups bld owner :
  groupsOf images itp groups -> built opts images (groupOf groups) (length groups) bld owner ->
  (forall n p, n ∈ concat groups /\ p ∈ platformsOf opts images n -> covers opts images (bld_images bld) owner n p) ->
  calculated itp (imagesSets bld) (imap (fun ind img => set_log img ind (length (bld_images bld))) (bld_images bld)).
Proof.
  intros (Hl & Hnd & Hall) Hb Hc. unfold calculated. rewrite length_imap. split; [apply Hb|].
  exists (bld_images bld), owner. split; [done|]. split; [apply Hb|]. split; [apply (b_made _ _ _ _ _ _ Hb)|]. split.
  - intros i j n r a b Hn Hr Hrel Hi Hj. apply (b_order _ _ _ _ _ _ Hb b a j i r n); [done..|].
    destruct (b_group _ _ _ _ _ _ Hb _ _ _ Hi Hn) as (Hg & _).
    destruct (groupOf_le groups n Hg) as (l & Hk & Hin).
    destruct (layered_before _ _ _ _ _ _ _ Hl Hk Hin Hrel) as [?|(k' & l' & Hk' & Hl' & Hr')]; [set_solver|].
    by rewrite (groupOf_eq groups k' l' r Hnd Hl' Hr').
  - intros n p Hw Hr Hp. apply Hc. split; [|done]. apply Hall. by split.
Qed.

(** C22: where the calculation of the tree of images gives no error it gives sets, with enough fuel for
    any start; they have each image once, have all images of each configuration image that the chosen
    ones need, on each of its platforms, and the images made for an image of the configuration come in
    later sets than all those of the images it needs. The conditions: the related images of each image
    are in the configuration, and so are the chosen ones (which the validation and the choice check);
    no chosen image leads back to itself, base images included; and in no staged Dockerfile a stage
    that the target needs leads back to itself. *)
Theorem Calculate_order itp :
  validateRelatedImages images = Ok tt ->
  ImageNameList itp ⊆ GetName <$> images ->
  (forall n, n ∈ ImageNameList itp -> Acc (WerfConfigProps.WerfConfigProps.needs (relatives images)) n) ->
  (forall image p, image ∈ images -> p ∈ platformsOf opts images (GetName image) -> dockerfileEnds image p) ->
  exists enough, forall fuel, enough <= fuel -> forall s,
    wlp (Calculate opts images fuel itp) s (fun r _ => exists sets imgs, r = Some (sets, imgs) /\ calculated itp sets imgs).
Proof.
  intros Hfound Hn Ha He. destruct (grouping_ends images Hfound itp Hn Ha) as [m Hm].
  destruct (images_enough He) as [k Hk]. exists (m + k). intros fuel Hf s. unfold Calculate. apply wlp_bind, wlp_wrap.
  eapply wlp_mono; [apply wp_wlp, Hm; lia|]. intros r w (groups & -> & Hg). destruct groups as [|g groups].
  { apply wlp_ret. exists [], []. split; [done|]. split; [done|]. exists [], []. do 4 (split; [done|]).
    intros n p Hw Hr. destruct Hg as (_ & _ & H). by destruct (not_elem_of_nil n (proj2 (H n) (conj Hw Hr))). }
  apply wlp_bind, wlp_wrap, wlp_lift. intros platforms Hpl. apply wlp_bind.
  destruct (built_start opts images (groupOf (g :: groups))) as [Hb Hfit].
  assert (match platforms with [] => [DefaultPlatform opts] | _ => platforms end = commonPlatforms opts) as ->.
  { unfold commonPlatforms. rewrite Hpl. by destruct platforms. }
  eapply wlp_mono; [apply (mapSets_builds opts images (groupOf (g :: groups)) fuel) with (g := 0) (owner := []); [| |done|done]|].
  - intros n image p [Hi <-]%WerfConfigProps.WerfConfigProps.GetImage_Some Hp fl s'. apply (Hk image p Hi Hp). lia.
  - intros i l n Hi Hin. apply (groupOf_eq (g :: groups) i l); [apply Hg|done..].
  - intros r w' (b & owner & -> & Hb' & _ & _ & Hc). apply wlp_ret. eexists _, _. split; [done|].
    by apply (built_calculated itp (g :: groups) b owner).
Qed.
End calculate.
End ImagesTreeOrder.

Import WerfConfig WerfConfigGroups DockerfileProps ImagesTree ImagesTreeFacts ImagesTreeProps ImagesTreeOrder.

(** Small Dockerfiles and a small werf.yaml. *)
Module ImagesTreeExamples.
Import Dockerfile(BuildkitStage, mkBuildkitStage, InstructionData, Buildkit, Stages).

#[local] Existing Instance in_order.
#[local] Existing Instance WerfConfigExamples.strings.
#[local] Instance quote : GoQuote := fun s => s.

(** Words without variables. *)
#[local] Instance plain_words : Buildkit := {|
  Dockerfile.Name d := match d with
                       | Dockerfile.CopyCommand _ _ => "copy" | Dockerfile.RunCommand _ _ => "run"
                       | Dockerfile.EntrypointCommand => "entrypoint" | _ => "other" end;
  Dockerfile.ProcessWordWithMap _ w _ := (w, None);
  Dockerfile.ProcessWordsWithMap _ w _ := Ok [w];
  Dockerfile.SingleWordExpand _ d := Some (Ok d);
  Dockerfile.GetPlatformMetaArgsMap p := Ok ∅;
  Dockerfile.MergeMaps a b := b ∪ a;
|}.

Definition run : InstructionData := Dockerfile.RunCommand [] [].
Definition copy_from (s : string) : InstructionData := Dockerfile.CopyCommand s [].

(** FROM golang AS builder / FROM alpine AS assets / FROM alpine with files of both. *)
Definition app_file : list BuildkitStage :=
  [mkBuildkitStage "golang" "builder" "" [run]; mkBuildkitStage "builder" "assets" "" [run];
   mkBuildkitStage "alpine" "" "" [copy_from "builder"; copy_from "assets"; Dockerfile.EntrypointCommand]].

(** FROM alpine AS alpine. *)
Definition same_name : list BuildkitStage := [mkBuildkitStage "alpine" "alpine" "" [run]].

(** Two stages without a name, and one with the files of both. *)
Definition unnamed : list BuildkitStage :=
  [mkBuildkitStage "golang" "" "" [run]; mkBuildkitStage "node" "" "" [run];
   mkBuildkitStage "alpine" "app" "" [copy_from "0"; copy_from "1"]].

(** A file of an image that is no stage, before a file of a stage. *)
Definition external : list BuildkitStage :=
  [mkBuildkitStage "golang" "builder" "" [run];
   mkBuildkitStage "alpine" "" "" [copy_from "nginx"; copy_from "builder"]].

#[local] Instance sources : ImageSources := {|
  stapelConfig _ := mkStapelConfig false (Some (mkBuilderSteps true false true true)) None
                      [mkPlaced "" "install"] [] false false false;
  dockerfileConfig _ := mkDockerfileConfig true "" false (fun p => Dockerfile.mkOptions "" ∅ [] p);
  generateGitMappings _ := Ok ["own"];
  fetchBaseImageRepoDigest _ := Ok tt;
  readDockerfile _ := Ok (app_file, []);
  checkContext _ := Ok tt;
  getBuildSecrets _ := Ok [];
  NormalizeUserParams l := Ok l;
|}.

Definition opts : TreeOptions := mkTreeOptions [] [] "linux/amd64" false true.
Definition options : Dockerfile.DockerfileOptions := Dockerfile.mkOptions "" ∅ [] "linux/amd64".

(** The image of a Dockerfile. *)
Definition web : ImageInterface := mkImageInterface "web" false true [] "" "" [] [] "web".

Definition parse (f : list BuildkitStage) : Dockerfile.Dockerfile :=
  match Dockerfile.ParseDockerfileWithBuildkit f [] "web" options with
  | Ok d => d | _ => Dockerfile.mkDockerfile "" [] end.

Lemma parse_Ok f : f ∈ [app_file; same_name; unnamed; external] ->
  Dockerfile.ParseDockerfileWithBuildkit f [] (GetName web) options = Ok (parse f).
Proof. intros H. repeat apply elem_of_cons in H as [->|H]; try done. by apply not_elem_of_nil in H. Qed.

Definition setsOf (f : list BuildkitStage) (fuel : nat) : res (option (list (list string))) :=
  match (mapDockerfileToImagesSets opts (parse f) fuel web "linux/amd64" false (mkCfg 0 ∅)).1 with
  | Ok (Some sets) => Ok (Some ((fun set : list Image => img_Name <$> set) <$> sets))
  | Ok None => Ok None
  | Err e => Err e
  | Panic p => Panic p
  end.

Example app_sets : setsOf app_file 100 = Ok (Some [["web/stage/builder"]; ["web/stage/assets"]; ["web"]]).
Proof. vm_compute. reflexivity. Qed.

(** The image of the second stage without a name is lost. *)
Example unnamed_lost : setsOf unnamed 100 = Ok (Some [["web/stage0"]; ["web"]]).
Proof. vm_compute. reflexivity. Qed.

(** The reference to a stage after one to an image is lost. *)
Example external_lost : setsOf external 100 = Ok (Some [["web"]]).
Proof. vm_compute. reflexivity. Qed.

Example same_name_hangs : setsOf same_name 100 = Ok None.
Proof. vm_compute. reflexivity. Qed.

Lemma stage_names_collide_witness :
  exists s t, Stages (parse unnamed) !! 0 = Some s /\ Stages (parse unnamed) !! 1 = Some t /\
    (Dockerfile.GetWerfImageName s = Dockerfile.GetWerfImageName t <-> "" = "").
Proof.
  eexists _, _. split; [vm_compute; reflexivity|]. split; [vm_compute; reflexivity|].
  apply (stage_names_collide unnamed [] "web" options (parse unnamed) 0 1).
  - vm_compute. reflexivity.
  - vm_compute. reflexivity.
  - vm_compute. reflexivity.
Defined.

Lemma app_children t : children (parse app_file) t = match t with 1 => [0] | 2 => [0; 1] | _ => [] end.
Proof. destruct t as [|[|[|t]]]; reflexivity. Qed.

Lemma app_child d t : usedBy (parse app_file) d t -> (t = 1 /\ d = 0) \/ (t = 2 /\ d < 2).
Proof.
  unfold usedBy. rewrite app_children. destruct t as [|[|[|t]]]; rewrite ?elem_of_cons, elem_of_nil; lia.
Qed.

Lemma app_file_acc t : Acc (usedBy (parse app_file)) t.
Proof.
  assert (Acc (usedBy (parse app_file)) 0) as H0 by (constructor; intros d H; apply app_child in H; lia).
  assert (Acc (usedBy (parse app_file)) 1) as H1.
  { constructor. intros d H. apply app_child in H as [[_ ->]|[? _]]; [done|lia]. }
  constructor. intros d H. apply app_child in H as [[_ ->]|[_ H]]; [done|]. destruct d as [|[|d]]; [done|done|lia].
Qed.

Lemma app_names t u : t < 3 -> u < 3 -> stageName app_file t = stageName app_file u -> t = u.
Proof. intros Ht Hu. destruct t as [|[|[|t]]], u as [|[|[|u]]]; try lia; try done; intros E; by vm_compute in E. Qed.

Lemma app_resolvable : resolvable (parse app_file).
Proof.
  assert (forallb (fun s => forallb (fun instr => forallb (fun ref =>
    bool_decide (Dockerfile.findStageByRef ref (Stages (parse app_file)) (Dockerfile.stagesByName (Stages (parse app_file))) <> None))
    (referred (Dockerfile.Data instr))) (Dockerfile.Instructions s)) (Stages (parse app_file)) = true) as H by (vm_compute; reflexivity).
  intros s instr ref Hs Hi Hr _. rewrite forallb_forall in H. specialize (H s (proj1 (list_elem_of_In _ _) Hs)).
  rewrite forallb_forall in H. specialize (H instr (proj1 (list_elem_of_In _ _) Hi)).
  rewrite forallb_forall in H. specialize (H ref (proj1 (list_elem_of_In _ _) Hr)). apply bool_decide_eq_true in H.
  by apply not_eq_None_Some.
Qed.

Lemma dockerfile_sets_witness :
  (resolvable (parse app_file) /\ forall t u, u ∈ children (parse app_file) t <-> needsStage (parse app_file) t u) /\
  exists enough, forall fuel, enough <= fuel -> forall s,
    wp (mapDockerfileToImagesSets opts (parse app_file) fuel web "linux/amd64" false) s
      (fun r _ => exists sets, r = Some sets /\ ordered (parse app_file) web 2 sets).
Proof.
  cut (resolvable (parse app_file)); [intros Hr; cut ((resolvable (parse app_file) -> forall t u, u ∈ children (parse app_file) t <-> needsStage (parse app_file) t u) /\
    exists enough, forall fuel, enough <= fuel -> forall s,
      wp (mapDockerfileToImagesSets opts (parse app_file) fuel web "linux/amd64" false) s
        (fun r _ => exists sets, r = Some sets /\ ordered (parse app_file) web 2 sets));
    [intros [H1 H2]; split; [split; [exact Hr|exact (H1 Hr)]|exact H2]|]|exact app_resolvable].
  apply (dockerfile_sets opts web "linux/amd64" false app_file [] options (parse app_file) 2) with (secrets := []).
  - apply parse_Ok. left.
  - reflexivity.
  - reflexivity.
  - discriminate.
  - intros t _. left. reflexivity.
  - apply app_file_acc.
  - intros t u Ht Hu _ _. apply app_names.
    + apply (reach_in_range web app_file [] options (parse app_file) 2); [apply parse_Ok; left|reflexivity|exact Ht].
    + apply (reach_in_range web app_file [] options (parse app_file) 2); [apply parse_Ok; left|reflexivity|exact Hu].
Defined.

Lemma dockerfile_hangs_witness :
  tc (uses (parse same_name)) 0 0 /\
  forall fuel s, wlp (mapDockerfileToImagesSets opts (parse same_name) fuel web "linux/amd64" false) s (fun r _ => r = None).
Proof.
  split; [apply tc_once; vm_compute; left|].
  apply (dockerfile_hangs opts web "linux/amd64" false (parse same_name) 0) with (t := 0).
  - reflexivity.
  - constructor.
  - apply tc_once. vm_compute. left.
Defined.

(** ** A tree *)

(** app imports from web, a Dockerfile, and has base as its base image. *)
Definition shop : list ImageInterface :=
  [WerfConfigExamples.stapel "app" "base" ["web"] []; web; WerfConfigExamples.stapel "base" "alpine" [] []].

Example shop_tree :
  match (Calculate opts shop 100 (WerfConfigExamples.all_of ["app"]) (mkCfg 0 ∅)).1 with
  | Ok (Some (sets, imgs)) => ((fun set : list nat => (fun i => default "" (img_Name <$> imgs !! i)) <$> set) <$> sets, stages <$> last imgs)
  | _ => ([], None)
  end = ([["web/stage/builder"; "base"]; ["web/stage/assets"]; ["web"]; ["app"]],
         Some (NamedStage <$> [From; GitArchive; Install; DependenciesAfterInstall; GitCache; GitLatestPatch])).
Proof. vm_compute. reflexivity. Qed.

Lemma shop_acc n : Acc (WerfConfigProps.needs (relatives shop)) n.
Proof.
  assert (forall n, relatives shop n = match n with "app" => ["base"; "web"] | _ => [] end) as Hr.
  { intros m. unfold relatives. destruct (WerfConfig.GetImage shop m) as [image|] eqn:E.
    - apply WerfConfigProps.GetImage_Some in E as [Hi <-]. unfold shop in Hi.
      repeat apply elem_of_cons in Hi as [->|Hi]; try reflexivity. by apply not_elem_of_nil in Hi.
    - destruct (decide (m = "app")) as [->|Hne]; [vm_compute in E; discriminate E|].
      by repeat case_match; simplify_eq. }
  assert (forall m, m <> "app" -> Acc (WerfConfigProps.needs (relatives shop)) m) as Hleaf.
  { intros m Hne. constructor. intros r Hin. unfold WerfConfigProps.needs in Hin. rewrite Hr in Hin.
    repeat case_match; simplify_eq; by apply not_elem_of_nil in Hin. }
  destruct (decide (n = "app")) as [->|Hne]; [|by apply Hleaf]. constructor. intros r Hin.
  unfold WerfConfigProps.needs in Hin. rewrite Hr in Hin. apply Hleaf.
  apply elem_of_cons in Hin as [->|Hin]; [done|]. by apply list_elem_of_singleton in Hin as ->.
Qed.

Lemma shop_ends image p :
  image ∈ shop -> p ∈ platformsOf opts shop (GetName image) -> dockerfileEnds image p.
Proof.
  intros Hi Hp. unfold shop in Hi. repeat apply elem_of_cons in Hi as [->|Hi]; [intros H; discriminate H| |intros H; discriminate H|].
  - assert (p = "linux/amd64") as -> by (by apply list_elem_of_singleton in Hp).
    intros _ _ parsed d root [= <-] Hd _.
    assert (Ok d = Ok (parse app_file)) as [= ->] by (rewrite <-Hd; apply (parse_Ok app_file); left).
    apply app_file_acc.
  - by apply not_elem_of_nil in Hi.
Qed.

Lemma Calculate_order_witness :
  exists enough, forall fuel, enough <= fuel -> forall s,
    wlp (Calculate opts shop fuel (WerfConfigExamples.all_of ["app"])) s
      (fun r _ => exists sets imgs, r = Some (sets, imgs) /\ calculated opts shop (WerfConfigExamples.all_of ["app"]) sets imgs).
Proof.
  apply (Calculate_order opts shop).
  - vm_compute. reflexivity.
  - intros x ->%list_elem_of_singleton. left.
  - intros n _. apply shop_acc.
  - apply shop_ends.
Defined.
End ImagesTreeExamples.
