(* ===== verification/PathMatcher.v ===== *)
(** pkg/path_matcher: which files of a repository belong to an image. A matcher says whether a path
    is matched, and whether a directory that is not matched as a whole may have matched files below
    it. The globs of doublestar, the patterns of .dockerignore and the functions of common-go on
    paths are third-party code, and classes. *)
From S2P Require Import Prelude Go GoStd.

(** [doublestar.PathMatch]: the pattern, then the path. *)
Class Doublestar := PathMatch : string -> string -> bool + error.

(** github.com/moby/patternmatcher; a pattern is its text and whether it is an exclusion. *)
Class PatternMatchers := {
  PatternMatcher : Type;
  NewPatternMatcher : list string -> PatternMatcher + error;
  Patterns : PatternMatcher -> list (string * bool);
  Matches : PatternMatcher -> string -> bool + error;
}.

(** Functions of common-go. *)
Class UtilFilepaths := {
  SplitFilepath : string -> list string;
  SafeTrimGlobsAndSlashesFromFilepath : string -> string;
  IsSubpathOfBasePath : string -> string -> bool;
}.

Module PathMatcher.

Section matchers.
Context `{!GoQuote, !Doublestar, !PatternMatchers, !UtilFilepaths, !UtilPaths, !Hashes}.

(** * Globs *)

Definition formatPath (path : string) : string :=
  if bool_decide (path = "") || bool_decide (path = ".") then "" else Filepath.Clean path.

Definition formatPaths (paths : list string) : list string := formatPath <$> paths.

(** One element of a path: the rest of the glob, or the glob where nothing is left of it; both are empty
    where it does not match. *)
Definition matchGlob (pathPart glob : string) : res (string * string) :=
  match SplitFilepath glob with
  | [] => Panic "index out of range [0] with length 0"
  | first :: rest =>
      match PathMatch first pathPart with
      | inr err => Panic (err_text err)
      | inl false => Ok ("", "")
      | inl true =>
          if Str.Contains first "**" then Ok (glob, "")
          else match rest with
               | [] => Ok ("", glob)
               | _ => Ok (Filepath.Join rest, "")
               end
      end
  end.

(** The globs in progress, and those that matched. *)
Fixpoint matchGlobs (pathPart : string) (globs : list string) : res (list string * list string) :=
  match globs with
  | [] => Ok ([], [])
  | glob :: globs' =>
      x ← matchGlob pathPart glob;
      l ← matchGlobs pathPart globs';
      Ok (if bool_decide (x.1 <> "") then (x.1 :: l.1, l.2)
          else if bool_decide (x.2 <> "") then (l.1, x.2 :: l.2) else l)
  end.

Definition hasUniversalGlob (globs : list string) : bool :=
  existsb (fun glob => bool_decide (glob = ".") || bool_decide (SafeTrimGlobsAndSlashesFromFilepath glob = "")) globs.

Fixpoint anyRes {A} (f : A -> res bool) (l : list A) : res bool :=
  match l with
  | [] => Ok false
  | a :: l' => b ← f a; if (b : bool) then Ok true else anyRes f l'
  end.

(** A pattern that is not well-formed ends the process. *)
Definition isPathMatched (filePath glob : string) : res bool :=
  anyRes (fun g => match PathMatch g filePath with inl b => Ok b | inr _ => Panic "exit status 1" end)
    [glob; SafeTrimGlobsAndSlashesFromFilepath glob;
     Filepath.Join [SafeTrimGlobsAndSlashesFromFilepath glob; "**"; "*"]].

Definition isAnyPatternMatched (path : string) (patterns : list string) : res bool :=
  anyRes (isPathMatched path) patterns.

(** The globs along a path, as long as there are any: those in progress, and those that the last element
    matched. *)
Fixpoint globsAlong (pathParts : list string) (globsInProgress matchedGlobs : list string)
  : res (list string * list string) :=
  match pathParts with
  | [] => Ok (globsInProgress, matchedGlobs)
  | pathPart :: pathParts' =>
      match globsInProgress with
      | [] => Ok ([], matchedGlobs)
      | _ => x ← matchGlobs pathPart globsInProgress; globsAlong pathParts' x.1 x.2
      end
  end.

(** * Matchers *)

Inductive PathMatcher :=
| includePathMatcher (includeGlobs : list string)
| excludePathMatcher (excludeGlobs : list string)
| dockerfileIgnorePathMatcher (patternMatcher : PatternMatcher)
| MultiPathMatcher (matchers : list PathMatcher)
| basePathMatcher (basePath : string) (matcher : option PathMatcher)
| TruePathMatcher
| FalsePathMatcher.

Definition include_IsPathMatched (includeGlobs : list string) (path : string) : res bool :=
  match includeGlobs with
  | [] => Ok true
  | _ => isAnyPatternMatched (formatPath path) includeGlobs
  end.

Definition exclude_IsPathMatched (excludeGlobs : list string) (path : string) : res bool :=
  match excludeGlobs with
  | [] => Ok true
  | _ => b ← isAnyPatternMatched (formatPath path) excludeGlobs; Ok (negb b)
  end.

Definition dockerfileIgnore_IsPathMatched (m : PatternMatcher) (path : string) : res bool :=
  match Matches m (formatPath path) with
  | inl isMatched => Ok (negb isMatched)
  | inr err => Panic (err_text err)
  end.

(** The loop over the matchers of [MultiPathMatcher.IsPathMatched]. *)
Definition allMatched {A} (matched : A -> res bool) : list A -> res bool :=
  fix all l := match l with
               | [] => Ok true
               | a :: l' => b ← matched a; if (b : bool) then all l' else Ok false
               end.

Fixpoint IsPathMatched (m : PathMatcher) (path : string) : res bool :=
  match m with
  | includePathMatcher globs => include_IsPathMatched globs path
  | excludePathMatcher globs => exclude_IsPathMatched globs path
  | dockerfileIgnorePathMatcher pm => dockerfileIgnore_IsPathMatched pm path
  | MultiPathMatcher l =>
      allMatched (fun m' => IsPathMatched m' path) l
  | basePathMatcher basePath matcher =>
      let path := formatPath path in
      if IsSubpathOfBasePath basePath path || bool_decide (basePath = path) then
        match matcher with
        | None => Ok true
        | Some m' => IsPathMatched m' (GetRelativeToBaseFilepath basePath path)
        end
      else Ok false
  | TruePathMatcher => Ok true
  | FalsePathMatcher => Ok false
  end.

(** ** Directories to go through *)

Definition include_shouldGoThrough (includeGlobs : list string) (path : string) : res bool :=
  match includeGlobs with
  | [] => Ok false
  | _ =>
      if hasUniversalGlob includeGlobs then Ok false
      else if bool_decide (path = "") then Ok true
      else
        x ← globsAlong (SplitFilepath path) includeGlobs [];
        Ok (negb (bool_decide (x.1 = [])) && negb (hasUniversalGlob x.1))
  end.

Definition exclude_shouldGoThrough (excludeGlobs : list string) (path : string) : res bool :=
  match excludeGlobs with
  | [] => Ok false
  | _ =>
      if hasUniversalGlob excludeGlobs then Ok false
      else if bool_decide (path = "") then Ok true
      else
        x ← globsAlong (SplitFilepath path) excludeGlobs [];
        Ok (bool_decide (x.2 = []) && negb (bool_decide (x.1 = [])) && negb (hasUniversalGlob x.1))
  end.

Record pattern := mkPattern { pattern_ : string; exclusion : bool; isMatched : bool; isInProgress : bool }.

Definition patternStep (pathPart : string) (p : pattern) : res pattern :=
  if negb (isInProgress p) then Ok p
  else
    x ← matchGlob pathPart (pattern_ p);
    Ok (if bool_decide (x.1 <> "") then mkPattern x.1 (exclusion p) (isMatched p) true
        else if bool_decide (x.2 <> "") then mkPattern (pattern_ p) (exclusion p) true false
        else mkPattern (pattern_ p) (exclusion p) (isMatched p) false).

Fixpoint patternsStep (pathPart : string) (l : list pattern) : res (list pattern) :=
  match l with
  | [] => Ok []
  | p :: l' => p' ← patternStep pathPart p; l'' ← patternsStep pathPart l'; Ok (p' :: l'')
  end.

Fixpoint patternsAlong (pathParts : list string) (l : list pattern) : res (list pattern) :=
  match pathParts with
  | [] => Ok l
  | pathPart :: pathParts' => l' ← patternsStep pathPart l; patternsAlong pathParts' l'
  end.

(** The last pattern that has a say decides. *)
Definition throughPatterns (l : list pattern) : bool :=
  foldl (fun shouldGoThrough p => if isMatched p then false else if isInProgress p then true else shouldGoThrough) false l.

Definition dockerfileIgnore_shouldGoThrough (m : PatternMatcher) (path : string) : res bool :=
  if bool_decide (Patterns m = []) then Ok false
  else if bool_decide (path = "") then Ok true
  else
    l ← patternsAlong (SplitFilepath path) ((fun p => mkPattern p.1 p.2 false true) <$> Patterns m);
    Ok (throughPatterns l).

(** The loop over the matchers of [MultiPathMatcher.ShouldGoThrough]. *)
Definition throughLoop {A} (through matched : A -> res bool) : list A -> bool -> res bool :=
  fix each l shouldGoThrough :=
    match l with
    | [] => Ok shouldGoThrough
    | a :: l' =>
        t ← through a;
        if (t : bool) then each l' true
        else b ← matched a; if negb b then Ok false else each l' shouldGoThrough
    end.

Fixpoint ShouldGoThrough (m : PathMatcher) (path : string) : res bool :=
  match m with
  | includePathMatcher globs => include_shouldGoThrough globs (formatPath path)
  | excludePathMatcher globs => exclude_shouldGoThrough globs (formatPath path)
  | dockerfileIgnorePathMatcher pm => dockerfileIgnore_shouldGoThrough pm (formatPath path)
  | MultiPathMatcher l =>
      throughLoop (fun m' => ShouldGoThrough m' path) (fun m' => IsPathMatched m' path) l false
  | basePathMatcher basePath matcher =>
      let path := formatPath path in
      if IsSubpathOfBasePath path basePath then Ok true
      else match matcher with
           | None => Ok false
           | Some m' => ShouldGoThrough m' (GetRelativeToBaseFilepath basePath path)
           end
  | TruePathMatcher => Ok false
  | FalsePathMatcher => Ok false
  end.

Definition IsDirOrSubmodulePathMatched (m : PathMatcher) (path : string) : res bool :=
  match m with
  | TruePathMatcher => Ok true
  | FalsePathMatcher => Ok false
  | _ => b ← IsPathMatched m path; if (b : bool) then Ok true else ShouldGoThrough m path
  end.

(** ** Identifiers *)

Definition idOf (kind : string) (l : list string) : string := Sha256Hash [Str.Join (kind :: l) ":::"].

Fixpoint ID (m : PathMatcher) : string :=
  match m with
  | includePathMatcher globs => match globs with [] => "" | _ => idOf "include" (Sort.Strings globs) end
  | excludePathMatcher globs => match globs with [] => "" | _ => idOf "exclude" (Sort.Strings globs) end
  | dockerfileIgnorePathMatcher pm =>
      match Patterns pm with [] => "" | _ => idOf "dockerfileIgnore" (Sort.Strings (fst <$> Patterns pm)) end
  | MultiPathMatcher l =>
      idOf "multi" (Sort.Strings ((fix ids l := match l with [] => [] | m' :: l' => ID m' :: ids l' end) l))
  | basePathMatcher basePath matcher =>
      if bool_decide (basePath = "") && match matcher with None => true | Some m' => bool_decide (ID m' = "") end then ""
      else idOf "basePath" (basePath :: match matcher with None => [] | Some m' => [ID m'] end)
  | TruePathMatcher => "{ true }"
  | FalsePathMatcher => "{ false }"
  end.

(** * Constructors *)

Definition newIncludePathMatcher (includePaths : list string) : PathMatcher :=
  includePathMatcher (formatPaths includePaths).

Definition newExcludePathMatcher (excludeGlobs : list string) : PathMatcher :=
  excludePathMatcher (formatPaths excludeGlobs).

Definition newDockerfileIgnorePathMatcher (dockerignorePatterns : list string) : res PathMatcher :=
  match NewPatternMatcher dockerignorePatterns with
  | inl m => Ok (dockerfileIgnorePathMatcher m)
  | inr err => Panic (err_text err)
  end.

Definition NewMultiPathMatcher (matchers : list PathMatcher) : PathMatcher :=
  MultiPathMatcher (match matchers with [] => [TruePathMatcher] | _ => matchers end).

Definition newBasePathMatcher (basePath : string) (matcher : option PathMatcher) : PathMatcher :=
  basePathMatcher (formatPath basePath) matcher.

Record PathMatcherOptions := mkPathMatcherOptions {
  BasePath : string; IncludeGlobs : list string; ExcludeGlobs : list string;
  DockerignorePatterns : option (list string); Matchers : list PathMatcher;
}.

Definition NewPathMatcher (options : PathMatcherOptions) : res PathMatcher :=
  dockerignore ← match DockerignorePatterns options with
                 | Some l => m ← newDockerfileIgnorePathMatcher l; Ok [m]
                 | None => Ok []
                 end;
  let matchers :=
    match IncludeGlobs options with [] => [] | l => [newIncludePathMatcher l] end ++
    match ExcludeGlobs options with [] => [] | l => [newExcludePathMatcher l] end ++
    dockerignore ++ Matchers options in
  let matcher := NewMultiPathMatcher (match matchers with [] => [TruePathMatcher] | _ => matchers end) in
  Ok (if bool_decide (BasePath options <> "") then newBasePathMatcher (BasePath options) (Some matcher) else matcher).

End matchers.
End PathMatcher.
