(* ===== verification/PathMatcherFacts.v ===== *)
(** Paths as lists of their elements, globs as relations on them, and the matchers of globs: what they
    match, and which directories they go through. *)
From S2P Require Import Prelude Go GoStd PathMatcher.
Import PathMatcher.

Module PathMatcherFacts.

Lemma omap_omap {A B C} (f : A -> option B) (g : B -> option C) (l : list A) : omap g (omap f l) = omap (fun a => f a ≫= g) l.
Proof. induction l as [|a l IH]; csimpl; [done|]. destruct (f a) as [b|]; csimpl; [|done]. destruct (g b); by rewrite IH. Qed.

(** * Paths *)

Abbreviation path_of l := (Str.Join l "/").

(** An element of a path, and one that is not the parent directory. *)
Definition elem_ok (e : string) : Prop := e <> "" /\ e <> "." /\ Str.mem "/" e = false.
Definition plain (e : string) : Prop := elem_ok e /\ e <> "..".

(** The elements of a relative path as [Clean] gives it: parents come first. *)
Fixpoint normal (l : list string) : Prop :=
  match l with [] => True | x :: l' => elem_ok x /\ if bool_decide (x = "..") then normal l' else Forall plain l' end.

Lemma plain_normal l : Forall plain l -> normal l.
Proof. intros H. destruct H as [|x l [H1 H2] H]; simpl; [done|]. by rewrite bool_decide_eq_false_2. Qed.

Lemma normal_elems l : normal l -> Forall elem_ok l.
Proof.
  induction l as [|x l IH]; simpl; [constructor|]. intros [Hx H]. constructor; [done|]. case_bool_decide; [auto|].
  eapply Forall_impl; [exact H|]. by intros y [? _].
Qed.

Lemma normal_prefix l k : normal (l ++ k) -> normal l.
Proof.
  induction l as [|x l IH]; simpl; [done|]. intros [Hx H]. split; [done|]. case_bool_decide; [auto|].
  by apply Forall_app in H as [? _].
Qed.

Lemma normal_suffix l k : normal (l ++ k) -> normal k.
Proof.
  induction l as [|x l IH]; simpl; [done|]. intros [Hx H]. case_bool_decide; [auto|].
  apply Forall_app in H as [_ H]. by apply plain_normal.
Qed.

Lemma path_of_cons x l : l <> [] -> path_of (x :: l) = x +:+ String "/" (path_of l).
Proof. by destruct l. Qed.

Lemma SplitN_path n l : Forall elem_ok l -> l <> [] -> length l <= n -> Str.SplitN (path_of l) "/" n = l.
Proof.
  revert n. induction l as [|x l IH]; intros n Hl Hne Hn; [done|]. inversion_clear Hl as [|? ? (Hx & _ & Hs) Hl'].
  destruct n as [|n]; [simpl in Hn; lia|]. destruct l as [|y l].
  - simpl. destruct n; [done|]. by rewrite Str.cut_char_None.
  - rewrite path_of_cons by done. destruct n as [|n]; [simpl in Hn; lia|].
    rewrite Str.SplitN_char, IH; [done|done|done|simpl in *; lia|done].
Qed.

Lemma path_of_len l : Forall elem_ok l -> length l <= Str.len (path_of l).
Proof.
  induction l as [|x l IH]; intros Hl; [simpl; lia|]. inversion_clear Hl as [|? ? (Hx & _) Hl'].
  assert (1 <= Str.len x) by (destruct x; [done|simpl; lia]). destruct l as [|y l]; [simpl; lia|].
  rewrite path_of_cons, Str.len_app by done. specialize (IH Hl'). unfold Str.len in *. simpl String.length in *. simpl length in *. lia.
Qed.

Lemma Split_path l : Forall elem_ok l -> l <> [] -> Str.Split (path_of l) "/" = l.
Proof. intros Hl Hne. unfold Str.Split. apply SplitN_path; [done|done|]. pose proof (path_of_len l Hl). lia. Qed.

Lemma path_of_inj l k : Forall elem_ok l -> Forall elem_ok k -> path_of l = path_of k -> l = k.
Proof.
  intros Hl Hk E. pose proof (path_of_len l Hl) as Hll. pose proof (path_of_len k Hk) as Hlk.
  destruct l as [|x l]; [rewrite <-E in Hlk; destruct k; [done|simpl in Hlk; lia]|].
  destruct k as [|y k]; [rewrite E in Hll; simpl in Hll; lia|].
  by rewrite <-(Split_path (x :: l)), E, Split_path by done.
Qed.

Lemma path_of_empty l : Forall elem_ok l -> path_of l = "" <-> l = [].
Proof. intros Hl. split; [|by intros ->]. intros E. by apply (path_of_inj l []); [|constructor|]. Qed.

Lemma path_of_not_dot l : Forall elem_ok l -> path_of l <> ".".
Proof.
  intros Hl E. destruct l as [|x l]; [done|]. assert (x :: l = ["."]) as Hx.
  { rewrite <-(Split_path (x :: l)) by done. by rewrite E. }
  inversion Hl as [|? ? (_ & Hd & _)]; subst. by injection Hx as -> _.
Qed.

Lemma clean_elems l : normal l -> forall out, (out = [] \/ Forall plain l \/ exists out', out = ".." :: out') ->
  foldl (Filepath.cleanElem false) out l = rev l ++ out.
Proof.
  induction l as [|x l IH]; intros Hn out Ho; simpl; [done|]. destruct Hn as [(H1 & H2 & H3) Hn].
  assert (Filepath.cleanElem false out x = x :: out) as ->.
  { unfold Filepath.cleanElem. rewrite !(bool_decide_eq_false_2 (x = _)) by done. simpl.
    case_bool_decide as Hx; [|done]. subst. destruct Ho as [->|[Ho|[out' ->]]]; [done| |done].
    inversion_clear Ho as [|? ? [_ Hd] _]. done. }
  rewrite IH; [by rewrite <-app_assoc| |].
  - case_bool_decide; [done|by apply plain_normal].
  - case_bool_decide as Hx; [subst; right; right; eauto|by right; left].
Qed.

Lemma Clean_path l : normal l -> l <> [] -> Filepath.Clean (path_of l) = path_of l.
Proof.
  intros Hn Hne. pose proof (normal_elems l Hn) as Hl. unfold Filepath.Clean.
  rewrite bool_decide_eq_false_2 by (by rewrite path_of_empty).
  assert (Str.HasPrefix (path_of l) "/" = false) as ->.
  { destruct l as [|x l]; [done|]. inversion_clear Hl as [|? ? (H1 & _ & H3) _].
    assert (exists s, path_of (x :: l) = x +:+ s) as [s ->]
      by (destruct l as [|y l]; [exists ""; by rewrite Str.app_nil_r|exists (String "/" (path_of (y :: l))); by rewrite path_of_cons]).
    destruct x as [|c x]; [done|]. simpl in H3. apply orb_false_iff in H3 as [H3 _]. apply bool_decide_eq_false in H3.
    apply not_true_is_false. intros [t E]%Str.HasPrefix_spec. simpl in E. by injection E as -> _. }
  rewrite Split_path, clean_elems, app_nil_r by auto. rewrite List.rev_involutive.
  by rewrite bool_decide_eq_false_2 by (by rewrite path_of_empty).
Qed.

Lemma formatPath_path l : normal l -> formatPath (path_of l) = path_of l.
Proof.
  intros Hn. pose proof (normal_elems l Hn) as Hl. unfold formatPath. destruct (decide (l = [])) as [->|Hne]; [done|].
  rewrite !bool_decide_eq_false_2; [by apply Clean_path|by apply path_of_not_dot|by rewrite path_of_empty].
Qed.

Lemma Join_path l k : normal (l ++ k) -> k <> [] -> Filepath.Join (path_of l :: k) = path_of (l ++ k).
Proof.
  intros Hn Hk. pose proof (normal_elems _ Hn) as Hl. apply Forall_app in Hl as [Hl Hk'].
  destruct l as [|x l].
  - destruct k as [|y k]; [done|]. inversion_clear Hk' as [|? ? (Hy & _) _]. cbn [Filepath.Join app].
    rewrite bool_decide_eq_true_2, bool_decide_eq_false_2 by done. by apply Clean_path.
  - cbn [Filepath.Join]. rewrite bool_decide_eq_false_2 by (by rewrite path_of_empty).
    assert (forall l, l <> [] -> path_of (path_of l :: k) = path_of (l ++ k)) as Hp.
    { clear -Hk. induction l as [|x l IH]; intros Hne; [done|]. destruct l as [|y l].
      - done.
      - rewrite path_of_cons, (path_of_cons x (y :: l)) by done. rewrite <-app_comm_cons, (path_of_cons x) by done.
        rewrite <-IH by done. rewrite (path_of_cons (path_of (y :: l))) by done. by rewrite <-Str.app_assoc. }
    rewrite Hp by done. by apply Clean_path.
Qed.

(** * Globs *)

Section globs.
Context {gq : GoQuote} {ds : Doublestar} {pms : PatternMatchers} {uf : UtilFilepaths} {up : UtilPaths} {hs : Hashes}.

(** A glob against a path, element by element: ** stands for any number of elements. *)
Inductive GlobMatch : list string -> list string -> Prop :=
| gm_nil : GlobMatch [] []
| gm_elem e x g p : e <> "**" -> PathMatch e x = inl true -> GlobMatch g p -> GlobMatch (e :: g) (x :: p)
| gm_skip g p : GlobMatch g p -> GlobMatch ("**" :: g) p
| gm_more x g p : GlobMatch ("**" :: g) p -> GlobMatch ("**" :: g) (x :: p).

(** Without the elements * and ** at the end. *)
Definition stars (e : string) : Prop := e = "*" \/ e = "**".

Fixpoint trimGlobs (g : list string) : list string :=
  match g with
  | [] => []
  | e :: g' => match trimGlobs g' with
               | [] => if bool_decide (e = "*" \/ e = "**") then [] else [e]
               | t => e :: t
               end
  end.

(** What is known of the third-party code, for the elements [glob_elem] of globs: well-formed ones, in
    which ** is no part of an element, and braces are closed within an element. Of the empty path, which
    stands for the root directory, it is known only that a glob matches it or does not, and that the
    empty glob does. *)
Record GlobLaws (glob_elem : string -> Prop) : Prop := {
  glob_plain : forall e, glob_elem e -> plain e;
  glob_whole : forall e, glob_elem e -> Str.Contains e "**" = true -> e = "**";
  glob_star : glob_elem "*";
  glob_stars : glob_elem "**";
  star_matches : forall x, elem_ok x -> PathMatch "*" x = inl true;
  path_match : forall g p, Forall glob_elem g -> normal p -> p <> [] ->
    exists b, PathMatch (path_of g) (path_of p) = inl b /\ (b = true <-> GlobMatch g p);
  path_match_root : forall g, Forall glob_elem g -> exists b, PathMatch (path_of g) "" = inl b /\ (g = [] -> b = true);
  split_path : forall l, normal l -> l <> [] -> SplitFilepath (path_of l) = l;
  trim_globs : forall g, Forall glob_elem g -> SafeTrimGlobsAndSlashesFromFilepath (path_of g) = path_of (trimGlobs g);
}.

Context (glob_elem : string -> Prop) (laws : GlobLaws glob_elem).

Abbreviation glob := (Forall glob_elem).

Lemma glob_normal g : glob g -> normal g.
Proof using laws. intros H. apply plain_normal. eapply Forall_impl; [exact H|]. apply (glob_plain _ laws). Qed.

(** ** Matching *)

Lemma gm_app g1 p1 g2 p2 : GlobMatch g1 p1 -> GlobMatch g2 p2 -> GlobMatch (g1 ++ g2) (p1 ++ p2).
Proof using Type. intros H1 H2. induction H1; simpl; [done|by constructor|by constructor|by constructor]. Qed.

Lemma gm_split g1 g2 p : GlobMatch (g1 ++ g2) p -> exists p1 p2, p = p1 ++ p2 /\ GlobMatch g1 p1 /\ GlobMatch g2 p2.
Proof using Type.
  remember (g1 ++ g2) as g eqn:E. intros H. revert g1 E. induction H as [|e x g p He Hx H IH|g p H IH|x g p H IH]; intros g1 E.
  - symmetry in E. apply app_nil in E as [-> ->]. exists [], []. repeat constructor.
  - destruct g1 as [|e1 g1]; simpl in E; [subst; exists [], (x :: p); repeat constructor; done|].
    injection E as -> ->. destruct (IH g1 eq_refl) as (p1 & p2 & -> & H1 & H2). exists (x :: p1), p2. repeat constructor; done.
  - destruct g1 as [|e1 g1]; simpl in E; [subst; exists [], p; repeat constructor; done|].
    injection E as <- ->. destruct (IH g1 eq_refl) as (p1 & p2 & -> & H1 & H2). exists p1, p2. split; [done|]. split; [by apply gm_skip|done].
  - destruct g1 as [|e1 g1]; simpl in E; [subst; exists [], (x :: p); split; [done|]; split; [constructor|by apply gm_more]|].
    injection E as <- ->. destruct (IH ("**" :: g1) eq_refl) as (p1 & p2 & -> & H1 & H2).
    exists (x :: p1), p2. split; [done|]. split; [by apply gm_more|done].
Qed.

Lemma gm_stars p : GlobMatch ["**"] p.
Proof using Type. induction p as [|x p IH]; [apply gm_skip, gm_nil|by apply gm_more]. Qed.

Lemma gm_below p : Forall elem_ok p -> p <> [] -> GlobMatch ["**"; "*"] p.
Proof using laws.
  intros Hp Hne. destruct p as [|x p _] using rev_ind; [done|]. apply Forall_app in Hp as [_ Hx]. inversion_clear Hx.
  apply (gm_app ["**"] p ["*"] [x]); [apply gm_stars|]. constructor; [done|by apply (star_matches _ laws)|constructor].
Qed.

Lemma gm_below_inv p : GlobMatch ["**"; "*"] p -> p <> [].
Proof using Type.
  intros H ->. inversion H as [| |? ? H' |]; subst. inversion H'.
Qed.

(** ** Trimmed globs *)

Lemma trimGlobs_app g : exists s, g = trimGlobs g ++ s /\ Forall stars s.
Proof using Type.
  induction g as [|e g (s & E & Hs)]; [exists []; by split|]. simpl. destruct (trimGlobs g) as [|t l] eqn:Et.
  - case_bool_decide as He; [exists (e :: s); split; [by rewrite E at 1|by constructor]|exists s; split; [by rewrite E at 1|done]].
  - exists s. split; [by rewrite E at 1|done].
Qed.

Lemma trimGlobs_stars c r : trimGlobs r = [] -> trimGlobs (c ++ r) = trimGlobs c.
Proof using Type. intros Hr. induction c as [|e c IH]; [done|]. simpl. by rewrite IH. Qed.

Lemma trimGlobs_glob g : glob g -> glob (trimGlobs g).
Proof using Type. destruct (trimGlobs_app g) as (s & E & _). intros H. rewrite E in H. by apply Forall_app in H as [? _]. Qed.

(** What a pattern selects: all that is at or below what the trimmed glob matches. *)
Definition below (g p : list string) : Prop := exists t s, p = t ++ s /\ GlobMatch (trimGlobs g) t.

Lemma below_app g p s : below g p -> below g (p ++ s).
Proof using Type. intros (t & u & -> & H). exists t, (u ++ s). by rewrite app_assoc. Qed.

Lemma gm_below_trim g p : GlobMatch g p -> below g p.
Proof using Type.
  intros H. destruct (trimGlobs_app g) as (s & E & _). rewrite E in H. apply gm_split in H as (t & u & -> & H & _). by exists t, u.
Qed.

Lemma below_universal g p : trimGlobs g = [] -> below g p.
Proof using Type. intros E. exists [], p. rewrite E. repeat constructor. Qed.

(** [r] gives a boolean, true exactly if [P] holds. *)
Definition decides (r : res bool) (P : Prop) : Prop := exists b, r = Ok b /\ (b = true <-> P).

Lemma anyRes_spec {A} (f : A -> res bool) (P : A -> Prop) l :
  (forall a, a ∈ l -> decides (f a) (P a)) -> decides (anyRes f l) (exists a, a ∈ l /\ P a).
Proof using Type.
  induction l as [|a l IH]; intros H; [exists false; split; [done|]; split; [done|intros (a & Ha & _); by apply not_elem_of_nil in Ha]|]. simpl.
  destruct (H a ltac:(by left)) as (b & -> & Hb). destruct (IH (fun x Hx => H x ltac:(by right))) as (b' & -> & Hb'). simpl.
  destruct b.
  - exists true. split; [done|]. split; [|done]. intros _. exists a. split; [by left|by apply Hb].
  - exists b'. split; [done|]. rewrite Hb'. split; [intros (x & Hx & HP); exists x; split; [by right|done]|].
    intros (x & [->|Hx]%elem_of_cons & HP); [by apply Hb in HP|by exists x].
Qed.

Lemma isPathMatched_spec g p : glob g -> normal p -> p <> [] -> decides (isPathMatched (path_of p) (path_of g)) (below g p).
Proof using laws.
  intros Hg Hp Hpne. pose proof (trimGlobs_glob g Hg) as Ht. assert (glob (trimGlobs g ++ ["**"; "*"])) as Hb.
  { apply Forall_app. split; [done|]. repeat constructor; [apply (glob_stars _ laws)|apply (glob_star _ laws)]. }
  unfold isPathMatched. rewrite (trim_globs _ laws) by done. rewrite Join_path by (done || by apply glob_normal).
  unfold decides. cbn [anyRes].
  destruct (path_match _ laws g p Hg Hp Hpne) as (b1 & -> & H1), (path_match _ laws _ p Ht Hp Hpne) as (b2 & -> & H2),
    (path_match _ laws _ p Hb Hp Hpne) as (b3 & -> & H3).
  exists (b1 || b2 || b3). split; [by destruct b1, b2, b3|].
  rewrite !orb_true_iff, H1, H2, H3. split.
  - intros [[H|H]|H]; [by apply gm_below_trim|exists p, []; by rewrite app_nil_r|].
    apply gm_split in H as (t & u & -> & H & _). by exists t, u.
  - intros (t & u & -> & H). destruct (decide (u = [])) as [->|Hu]; [left; right; by rewrite app_nil_r|right].
    apply gm_app; [done|]. apply gm_below; [|done]. apply normal_elems in Hp. by apply Forall_app in Hp as [_ Hu'].
Qed.

(** The root directory is decided on, and matched by a pattern of which nothing is left. *)
Lemma isPathMatched_root g : glob g -> exists b, isPathMatched "" (path_of g) = Ok b /\ (trimGlobs g = [] -> b = true).
Proof using laws.
  intros Hg. pose proof (trimGlobs_glob g Hg) as Ht. assert (glob (trimGlobs g ++ ["**"; "*"])) as Hb.
  { apply Forall_app. split; [done|]. repeat constructor; [apply (glob_stars _ laws)|apply (glob_star _ laws)]. }
  unfold isPathMatched. rewrite (trim_globs _ laws) by done. rewrite Join_path by (done || by apply glob_normal). cbn [anyRes].
  destruct (path_match_root _ laws g Hg) as (b1 & -> & _), (path_match_root _ laws _ Ht) as (b2 & -> & H2),
    (path_match_root _ laws _ Hb) as (b3 & -> & _).
  exists (b1 || b2 || b3). split; [by destruct b1, b2, b3|]. intros ->%H2. by destruct b1.
Qed.

(** ** Globs along a path *)

Definition elemMatch (e x : string) : bool := match PathMatch e x with inl b => b | inr _ => false end.

(** What is left of a glob after one element, and whether the element ends it. *)
Definition residual (x : string) (g : list string) : option (list string) :=
  match g with
  | [] => None
  | e :: g' => if elemMatch e x then if Str.Contains e "**" then Some g else match g' with [] => None | _ => Some g' end else None
  end.

Definition ends (x : string) (g : list string) : bool :=
  match g with [e] => elemMatch e x && negb (Str.Contains e "**") | _ => false end.

(** What is left of a glob after the elements of a path. *)
Fixpoint residuals (d g : list string) : option (list string) :=
  match d with [] => Some g | x :: d' => g' ← residual x g; residuals d' g' end.

Definition some_glob (g : list string) : Prop := glob g /\ g <> [].

Lemma elemMatch_spec e x : glob_elem e -> elem_ok x -> PathMatch e x = inl (elemMatch e x).
Proof using laws.
  intros He Hx. destruct (path_match _ laws [e] [x]) as (b & E & _); [by repeat constructor|simpl; split; [done|by case_bool_decide]|done|].
  simpl in E. unfold elemMatch. by rewrite E.
Qed.

Lemma stars_match x : elem_ok x -> elemMatch "**" x = true.
Proof using laws.
  intros Hx. destruct (path_match _ laws ["**"] [x]) as (b & E & Hb); [repeat constructor; apply (glob_stars _ laws)|simpl; split; [done|by case_bool_decide]|done|].
  simpl in E. unfold elemMatch. rewrite E. apply Hb, gm_stars.
Qed.

Lemma residual_some x g r : some_glob g -> residual x g = Some r -> some_glob r.
Proof using Type.
  intros [Hg Hne]. destruct g as [|e g]; [done|]. simpl. inversion_clear Hg as [|? ? He Hg'].
  destruct (elemMatch e x); [|done]. destruct (Str.Contains e "**"); [intros [= <-]; by split; [constructor|]|].
  destruct g; [done|]. by intros [= <-].
Qed.

Lemma path_of_some g : some_glob g -> path_of g <> "".
Proof using laws. intros [Hg Hne]. rewrite path_of_empty; [done|]. by apply normal_elems, glob_normal. Qed.

Lemma matchGlob_spec x g : some_glob g -> elem_ok x ->
  matchGlob x (path_of g) = Ok (match residual x g with Some r => path_of r | None => "" end, if ends x g then path_of g else "").
Proof using laws.
  intros [Hg Hne] Hx. unfold matchGlob. rewrite (split_path _ laws) by (done || by apply glob_normal).
  destruct g as [|e g]; [done|]. inversion Hg as [|? ? He Hg']; subst. rewrite elemMatch_spec by done. simpl.
  destruct (elemMatch e x); simpl; [|by destruct g]. destruct (Str.Contains e "**"); simpl; [by destruct g|].
  destruct g as [|e' g]; [done|]. f_equal. f_equal. apply (Join_path [] (e' :: g)); [by apply glob_normal|done].
Qed.

Lemma matchGlobs_spec x G : Forall some_glob G -> elem_ok x ->
  matchGlobs x ((fun g => path_of g) <$> G) =
    Ok ((fun g => path_of g) <$> omap (residual x) G, (fun g => path_of g) <$> filter (fun g => ends x g = true) G).
Proof using laws.
  intros HG Hx. induction HG as [|g G Hg HG IH]; [done|]. rewrite fmap_cons. cbn [matchGlobs].
  rewrite matchGlob_spec, IH by done. cbn [mbind res_bind fst snd]. rewrite filter_cons. simpl omap.
  destruct (residual x g) as [r|] eqn:Er; simpl.
  - rewrite bool_decide_eq_true_2 by (by apply path_of_some, (residual_some x g)).
    rewrite decide_False; [done|]. intros He. destruct g as [|e [|]]; simpl in *; try done.
    destruct (elemMatch e x); [|done]. by destruct (Str.Contains e "**").
  - destruct (ends x g) eqn:Ee; simpl.
    + rewrite bool_decide_eq_true_2 by (by apply path_of_some). done.
    + done.
Qed.

Lemma omap_some_glob x G : Forall some_glob G -> Forall some_glob (omap (residual x) G).
Proof using Type.
  intros HG. apply Forall_forall. intros r (g & Hg & Hr)%list_elem_of_omap. rewrite Forall_forall in HG.
  eapply residual_some; eauto.
Qed.

(** The globs in progress are what is left of the globs; where there are any, those that ended did so at the
    last element. *)
Lemma globsAlong_spec d : Forall elem_ok d -> forall G M, Forall some_glob G ->
  exists M', globsAlong d ((fun g => path_of g) <$> G) M = Ok ((fun g => path_of g) <$> omap (residuals d) G, M') /\
    (omap (residuals d) G <> [] -> d <> [] -> M' <> [] -> exists g d' x, d = d' ++ [x] /\ g ∈ omap (residuals d') G /\ ends x g = true).
Proof using laws.
  induction 1 as [|x d Hx Hd IH]; intros G M HG.
  - assert (forall l : list (list string), omap (residuals []) l = l) as ->; [|by exists M].
    intros l. induction l as [|g l IH]; [done|]. change (g :: omap (residuals []) l = g :: l). by rewrite IH.
  - destruct G as [|g0 G]; [exists M; split; [done|by intros H]|]. set (G' := g0 :: G) in *.
    change (globsAlong (x :: d) ((fun g => path_of g) <$> G') M) with
      (y ← matchGlobs x ((fun g => path_of g) <$> G'); globsAlong d y.1 y.2).
    rewrite matchGlobs_spec by done. cbn [mbind res_bind fst snd].
    destruct (IH (omap (residual x) G') ((fun g => path_of g) <$> filter (fun g => ends x g = true) G') (omap_some_glob x G' HG)) as (M' & E & HM).
    assert (forall d, omap (residuals d) (omap (residual x) G') = omap (residuals (x :: d)) G') as Ho.
    { intros d'. by rewrite omap_omap. }
    exists M'. rewrite E, Ho. split; [done|]. rewrite Ho in HM. intros H1 _ H3. destruct (decide (d = [])) as [->|Hne].
    + simpl in E. injection E as _ <-. destruct (filter (fun g => ends x g = true) G') as [|g l] eqn:Ef; [done|].
      exists g, [], x. split; [done|]. assert (g ∈ filter (fun g => ends x g = true) G') as [He Hg]%list_elem_of_filter by (rewrite Ef; by left).
      split; [|done]. apply list_elem_of_omap. by exists g.
    + destruct (HM H1 Hne H3) as (g & d' & y & -> & Hg & He). exists g, (x :: d'), y. rewrite <-Ho. done.
Qed.

(** ** What is left of a glob, and what it matches *)

Lemma residual_elem e g x : glob_elem e -> e <> "**" -> elemMatch e x = true -> g <> [] -> residual x (e :: g) = Some g.
Proof using laws.
  intros He Hne Hm Hg. simpl. rewrite Hm. destruct (Str.Contains e "**") eqn:E; [by apply (glob_whole _ laws) in E|by destruct g].
Qed.

Lemma residual_stars g x : elem_ok x -> residual x ("**" :: g) = Some ("**" :: g).
Proof using laws. intros Hx. simpl. by rewrite stars_match. Qed.

Lemma residuals_stars g d : Forall elem_ok d -> residuals d ("**" :: g) = Some ("**" :: g).
Proof using laws.
  induction 1 as [|x d Hx _ IH]; [done|]. cbn [residuals]. by rewrite residual_stars.
Qed.

(** A glob that matches a path is in progress on the directories above it. *)
Lemma gm_in_progress g p : GlobMatch g p -> glob g -> normal p -> forall d y s, p = d ++ y :: s -> is_Some (residuals d g).
Proof using laws.
  induction 1 as [|e x g p He Hx H IH|g p H IH|x g p H IH]; intros Hg Hp d y s E.
  - by destruct d.
  - destruct d as [|x' d]; [by eexists|]. injection E as <- ->. inversion_clear Hg. cbn [residuals].
    assert (g <> []) as Hne by (intros ->; inversion H; by destruct d).
    rewrite residual_elem; [|done|done|unfold elemMatch; by rewrite Hx|done]. simpl. eapply IH; [done| |done].
    change (x :: d ++ y :: s) with ([x] ++ (d ++ y :: s)) in Hp. by apply normal_suffix in Hp.
  - rewrite residuals_stars; [by eexists|]. subst p. apply normal_elems in Hp. by apply Forall_app in Hp as [? _].
  - rewrite residuals_stars; [by eexists|]. rewrite E in Hp. apply normal_elems in Hp. by apply Forall_app in Hp as [? _].
Qed.

Lemma residual_app g h x r : residual x g = Some r -> residual x (g ++ h) = Some (r ++ h).
Proof using Type.
  destruct g as [|e g]; [done|]. simpl. destruct (elemMatch e x); [|done]. destruct (Str.Contains e "**"); [by intros [= <-]|].
  destruct g as [|e' g]; [done|]. by intros [= <-].
Qed.

Lemma residuals_app h d : forall g r, residuals d g = Some r -> residuals d (g ++ h) = Some (r ++ h).
Proof using Type.
  induction d as [|x d IH]; intros g r; simpl; [by intros [= <-]|].
  destruct (residual x g) as [g'|] eqn:E; [|done]. intros H. rewrite (residual_app g h x g') by done. simpl. by apply IH.
Qed.

Lemma residuals_inv d : Forall elem_ok d -> forall g r, glob g -> residuals d g = Some r ->
  exists c d1 d2, g = c ++ r /\ d = d1 ++ d2 /\ GlobMatch c d1 /\ (d2 = [] \/ exists r', r = "**" :: r').
Proof using laws.
  induction 1 as [|x d Hx Hd IH]; intros g r Hg; simpl; [intros [= <-]; exists [], [], []; split; [done|]; split; [done|]; split; [constructor|by left]|].
  destruct (residual x g) as [g'|] eqn:E; [|done]. intros H. change (residuals d g' = Some r) in H. destruct g as [|e g]; [done|]. inversion Hg as [|? ? He Hg']; subst.
  destruct (decide (e = "**")) as [->|Hne].
  - rewrite residual_stars in E by done. injection E as <-. rewrite residuals_stars in H by done. injection H as <-.
    exists [], [], (x :: d). split; [done|]. split; [done|]. split; [constructor|right; eauto].
  - simpl in E. destruct (elemMatch e x) eqn:Em; [|done].
    destruct (Str.Contains e "**") eqn:Ec; [by apply (glob_whole _ laws) in Ec|]. destruct g as [|e' g]; [done|]. injection E as <-.
    destruct (IH _ _ Hg' H) as (c & d1 & d2 & -> & -> & Hc & Hs). exists (e :: c), (x :: d1), d2. split; [done|]. split; [done|].
    split; [|done]. constructor; [done| |done]. by rewrite elemMatch_spec, Em.
Qed.

(** A directory above what a pattern selects is selected, or the pattern is in progress there. *)
Lemma below_in_progress g d y s : glob g -> normal (d ++ y :: s) -> below g (d ++ y :: s) -> below g d \/ is_Some (residuals d g).
Proof using laws.
  intros Hg Hn (t & u & E & Ht). destruct (decide (length t <= length d)) as [Hl|Hl].
  - left. exists t, (drop (length t) d). split; [|done].
    rewrite <-(take_drop (length t) d) at 1. f_equal. apply (f_equal (take (length t))) in E.
    rewrite take_app_le in E by done. rewrite take_app_length in E. done.
  - right. assert (t = d ++ drop (length d) t) as Et.
    { rewrite <-(take_drop (length d) t) at 1. f_equal. apply (f_equal (take (length d))) in E.
      rewrite take_app_length in E. rewrite take_app_le in E by lia. done. }
    destruct (drop (length d) t) as [|y' t'] eqn:Ed.
    { rewrite app_nil_r in Et. subst t. lia. }
    destruct (trimGlobs_app g) as (k & Eg & _). destruct (gm_in_progress _ _ Ht) with (d := d) (y := y') (s := t') as [r Hr];
      [by apply trimGlobs_glob|rewrite E in Hn; by apply normal_prefix in Hn|done|].
    exists (r ++ k). rewrite Eg. by apply residuals_app.
Qed.

(** Where a pattern in progress has only asterisks left, all below is selected. *)
Lemma residuals_universal g d r : glob g -> Forall elem_ok d -> residuals d g = Some r -> trimGlobs r = [] -> below g d.
Proof using laws.
  intros Hg Hd Hr Ht. destruct (residuals_inv d Hd g r Hg Hr) as (c & d1 & d2 & -> & -> & Hc & _).
  apply gm_below_trim in Hc. destruct Hc as (t & u & -> & Hc). exists t, (u ++ d2).
  split; [by rewrite app_assoc|]. by rewrite trimGlobs_stars.
Qed.

Lemma ends_below g d' x g0 : glob g0 -> Forall elem_ok (d' ++ [x]) -> residuals d' g0 = Some g -> ends x g = true -> below g0 (d' ++ [x]).
Proof using laws.
  intros Hg Hd Hr He. apply Forall_app in Hd as [Hd Hx]. inversion_clear Hx as [|? ? Hx' _].
  destruct (residuals_inv d' Hd g0 g Hg Hr) as (c & d1 & d2 & -> & -> & Hc & Hs).
  destruct g as [|e [|]]; try done. simpl in He. apply andb_true_iff in He as [He Hn]. apply Forall_app in Hg as [_ Hg].
  inversion_clear Hg as [|? ? He' _]. assert (e <> "**") as Hne by (by intros ->).
  assert (d2 = []) as -> by (destruct Hs as [Hs|[r' [= Hs _]]]; done). rewrite app_nil_r.
  apply gm_below_trim, gm_app; [done|]. constructor; [done| |constructor]. by rewrite elemMatch_spec, He.
Qed.
End globs.
End PathMatcherFacts.
