(* ===== verification/PathMatcherProps.v ===== *)
(** What the matchers of paths promise to those who walk a tree with them: no matched file is below a
    directory that they neither match nor go through, and all is matched below a directory that they
    match and do not go through. *)
From S2P Require Import Prelude Go GoStd PathMatcher PathMatcherFacts.
Import PathMatcher PathMatcherFacts.

Module PathMatcherProps.

Section props.
Context {gq : GoQuote} {ds : Doublestar} {pms : PatternMatchers} {uf : UtilFilepaths} {up : UtilPaths} {hs : Hashes}.

(** * The promise *)

Definition matches (m : PathMatcher) (p : list string) : Prop := IsPathMatched m (path_of p) = Ok true.
Definition goes_through (m : PathMatcher) (d : list string) : Prop := ShouldGoThrough m (path_of d) = Ok true.

Class Lawful (m : PathMatcher) : Prop := {
  lawful_matched : forall p s, normal p -> formatPath s = path_of p ->
    exists b, IsPathMatched m s = Ok b /\ IsPathMatched m (path_of p) = Ok b;
  lawful_through : forall d s, normal d -> formatPath s = path_of d ->
    exists b, ShouldGoThrough m s = Ok b /\ ShouldGoThrough m (path_of d) = Ok b;
  lawful_prune : forall d y s, normal (d ++ y :: s) -> matches m (d ++ y :: s) -> matches m d \/ goes_through m d;
  lawful_whole : forall d s, normal (d ++ s) -> matches m d -> ~ goes_through m d -> matches m (d ++ s);
}.

Lemma matched_dec m `{!Lawful m} p : normal p -> IsPathMatched m (path_of p) = Ok true \/ IsPathMatched m (path_of p) = Ok false.
Proof. intros Hp. destruct (lawful_matched p (path_of p) Hp (formatPath_path p Hp)) as ([] & E & _); auto. Qed.

Lemma through_dec m `{!Lawful m} p : normal p -> ShouldGoThrough m (path_of p) = Ok true \/ ShouldGoThrough m (path_of p) = Ok false.
Proof. intros Hp. destruct (lawful_through p (path_of p) Hp (formatPath_path p Hp)) as ([] & E & _); auto. Qed.

(** * Globs *)

Section globs.
Context (glob_elem : string -> Prop) (laws : GlobLaws glob_elem).

Abbreviation glob := (Forall glob_elem).
Abbreviation paths G := ((fun g => path_of g) <$> G).

(** A glob whose elements are all known. *)
Definition simple (g : string) : Prop := exists l, glob l /\ formatPath g = path_of l.

Lemma simple_globs gs : Forall simple gs -> exists G, formatPaths gs = paths G /\ Forall glob G.
Proof using Type.
  induction 1 as [|g gs (l & Hl & E) _ (G & EG & HG)]; [by exists []|]. exists (l :: G). split; [|by constructor].
  unfold formatPaths in *. rewrite fmap_cons, E, EG. done.
Qed.

Lemma hasUniversalGlob_spec G : Forall glob G -> hasUniversalGlob (paths G) = true <-> exists g, g ∈ G /\ trimGlobs g = [].
Proof using laws.
  intros HG. unfold hasUniversalGlob. rewrite existsb_exists. rewrite Forall_forall in HG. split.
  - intros (s & Hs & Hu). apply list_elem_of_In, list_elem_of_fmap in Hs as (g & -> & Hg). exists g. split; [done|].
    apply orb_true_iff in Hu as [Hu|Hu]; apply bool_decide_eq_true in Hu.
    + destruct (path_of_not_dot g); [|done]. apply normal_elems, (glob_normal _ laws), HG, Hg.
    + rewrite (trim_globs _ laws) in Hu by auto. apply path_of_empty in Hu; [done|]. apply normal_elems, (glob_normal _ laws), trimGlobs_glob, HG, Hg.
  - intros (g & Hg & Hu). exists (path_of g). split; [apply list_elem_of_In, list_elem_of_fmap; eauto|].
    rewrite (trim_globs _ laws), Hu by auto. by rewrite orb_true_r.
Qed.

Lemma patterns_spec G p : Forall glob G -> normal p -> p <> [] -> decides (isAnyPatternMatched (path_of p) (paths G)) (exists g, g ∈ G /\ below g p).
Proof using laws.
  intros HG Hp Hpne. unfold isAnyPatternMatched. rewrite Forall_forall in HG.
  assert (forall l, (forall g, g ∈ l -> glob g) -> decides (anyRes (isPathMatched (path_of p)) (paths l)) (exists g, g ∈ l /\ below g p)) as H; [|by apply H].
  intros l Hl. induction l as [|g l IH]; [exists false; split; [done|]; split; [done|intros (g & Hg & _); by apply not_elem_of_nil in Hg]|].
  rewrite fmap_cons. cbn [anyRes]. unfold decides.
  destruct (isPathMatched_spec _ laws g p (Hl g ltac:(by left)) Hp Hpne) as (b & -> & Hb).
  destruct (IH (fun x Hx => Hl x ltac:(by right))) as (b' & E & Hb'). simpl. rewrite E. exists (b || b'). split; [by destruct b|].
  rewrite orb_true_iff, Hb, Hb'. split.
  - intros [H|(x & Hx & H)]; [exists g; split; [by left|done]|exists x; split; [by right|done]].
  - intros (x & [->|Hx]%elem_of_cons & H); [by left|right; by exists x].
Qed.

Lemma patterns_root G : Forall glob G ->
  exists b, isAnyPatternMatched "" (paths G) = Ok b /\ (hasUniversalGlob (paths G) = true -> b = true).
Proof using laws.
  intros HG. cut (exists b, isAnyPatternMatched "" (paths G) = Ok b /\ ((exists g, g ∈ G /\ trimGlobs g = []) -> b = true)).
  { intros (b & E & Hb). exists b. split; [done|]. intros Hu. by apply Hb, hasUniversalGlob_spec. }
  unfold isAnyPatternMatched. induction HG as [|g G Hg HG IH]; [exists false; split; [done|intros (g & Hg & _); by apply not_elem_of_nil in Hg]|].
  rewrite fmap_cons. cbn [anyRes]. destruct (isPathMatched_root _ laws g Hg) as (b & -> & Hb), IH as (b' & E & Hb').
  rewrite E. exists (b || b'). split; [by destruct b|]. intros (x & [->|Hx]%elem_of_cons & H); [by rewrite Hb|].
  rewrite Hb'; [by destruct b|by exists x].
Qed.

(** ** Directories *)

Lemma some_globs G : Forall glob G -> hasUniversalGlob (paths G) = false -> Forall (some_glob glob_elem) G.
Proof using laws.
  intros HG Hu. apply Forall_forall. intros g Hg. split; [revert g Hg; by apply Forall_forall|]. intros ->.
  assert (hasUniversalGlob (paths G) = true) as H by (apply hasUniversalGlob_spec; [done|by exists []]). congruence.
Qed.

(** Along a path outside of what the globs select, on the way to something they select. *)
Lemma globs_through G d y s : Forall glob G -> normal (d ++ y :: s) ->
  ~ (exists g, g ∈ G /\ below g d) -> (exists g, g ∈ G /\ below g (d ++ y :: s)) ->
  hasUniversalGlob (paths G) = false /\
  (d <> [] -> exists x, globsAlong (SplitFilepath (path_of d)) (paths G) [] = Ok x /\
     x.1 <> [] /\ hasUniversalGlob x.1 = false /\ x.2 = []).
Proof using laws.
  intros HG Hn Hd (g & Hg & Hb). pose proof (normal_prefix _ _ Hn) as Hnd. pose proof (normal_elems _ Hnd) as Hed.
  assert (hasUniversalGlob (paths G) = false) as Hu.
  { apply not_true_is_false. rewrite hasUniversalGlob_spec by done. intros (g' & Hg' & E). apply Hd. exists g'. split; [done|by apply below_universal]. }
  split; [done|]. intros Hne. rewrite (split_path _ laws) by done.
  destruct (globsAlong_spec _ laws d Hed G [] (some_globs G HG Hu)) as (M & E & HM). eexists. split; [exact E|]. cbn [fst snd].
  assert (Forall glob G) as HG' by done. rewrite Forall_forall in HG'.
  assert (omap (residuals d) G <> []) as Ho.
  { destruct (below_in_progress _ laws g d y s (HG' g Hg) Hn Hb) as [H|[r Hr]]; [destruct Hd; by exists g|].
    intros Ho. assert (r ∈ omap (residuals d) G) as Hin by (apply list_elem_of_omap; by exists g). rewrite Ho in Hin. by apply not_elem_of_nil in Hin. }
  split; [by destruct (omap (residuals d) G)|]. split.
  - apply not_true_is_false. rewrite hasUniversalGlob_spec.
    + intros (r & (g' & Hg' & Hr)%list_elem_of_omap & Ht). apply Hd. exists g'. split; [done|].
      by apply (residuals_universal _ laws g' d r); [apply HG'| | |].
    + apply Forall_forall. intros r (g' & Hg' & Hr)%list_elem_of_omap.
      destruct (residuals_inv _ laws d Hed g' r (HG' g' Hg') Hr) as (c & d1 & d2 & E' & _).
      pose proof (HG' g' Hg') as H. rewrite E' in H. by apply Forall_app in H as [_ H].
  - destruct M as [|m M]; [done|]. destruct (HM Ho Hne ltac:(done)) as (r & d' & x & -> & Hr & He).
    apply list_elem_of_omap in Hr as (g' & Hg' & Hr). destruct Hd. exists g'. split; [done|]. by apply (ends_below _ laws r d' x g'); [apply HG'| | |].
Qed.

Lemma globsAlong_Ok G d : Forall glob G -> normal d -> d <> [] -> hasUniversalGlob (paths G) = false ->
  exists x, globsAlong (SplitFilepath (path_of d)) (paths G) [] = Ok x.
Proof using laws.
  intros HG Hn Hne Hu. rewrite (split_path _ laws) by done.
  destruct (globsAlong_spec _ laws d (normal_elems d Hn) G [] (some_globs G HG Hu)) as (M & E & _). eauto.
Qed.

(** ** The matchers of globs *)

Lemma include_spec G p : Forall glob G -> G <> [] -> normal p -> p <> [] ->
  decides (include_IsPathMatched (paths G) (path_of p)) (exists g, g ∈ G /\ below g p).
Proof using laws.
  intros HG Hne Hp Hpne. unfold include_IsPathMatched. rewrite formatPath_path by done. destruct G as [|g G]; [done|]. by apply patterns_spec.
Qed.

Lemma exclude_spec G p : Forall glob G -> G <> [] -> normal p -> p <> [] ->
  decides (exclude_IsPathMatched (paths G) (path_of p)) (~ exists g, g ∈ G /\ below g p).
Proof using laws.
  intros HG Hne Hp Hpne. unfold exclude_IsPathMatched. rewrite formatPath_path by done. destruct G as [|g G]; [done|].
  destruct (patterns_spec (g :: G) p HG Hp Hpne) as (b & E & Hb). cbv zeta. rewrite fmap_cons in *. rewrite E. simpl.
  exists (negb b). split; [done|]. rewrite <-Hb. by destruct b.
Qed.

(** At the root directory. *)
Lemma include_root G : Forall glob G -> G <> [] ->
  exists b, include_IsPathMatched (paths G) "" = Ok b /\ (hasUniversalGlob (paths G) = true -> b = true).
Proof using laws. intros HG Hne. destruct G; [done|]. by apply (patterns_root (_ :: _)). Qed.

Lemma exclude_root G : Forall glob G -> G <> [] ->
  exists b, exclude_IsPathMatched (paths G) "" = Ok b /\ (hasUniversalGlob (paths G) = true -> b = false).
Proof using laws.
  intros HG Hne. destruct (patterns_root G HG) as (b & E & Hb). exists (negb b). split; [|by intros ->%Hb].
  unfold exclude_IsPathMatched. destruct G as [|g G]; [done|]. rewrite fmap_cons in *. change (formatPath "") with "". cbv zeta. rewrite E. by destruct b.
Qed.

Lemma through_root G : G <> [] ->
  include_shouldGoThrough (paths G) "" = Ok (negb (hasUniversalGlob (paths G))) /\
  exclude_shouldGoThrough (paths G) "" = Ok (negb (hasUniversalGlob (paths G))).
Proof using Type. intros Hne. destruct G as [|g G]; [done|]. unfold include_shouldGoThrough, exclude_shouldGoThrough. rewrite fmap_cons. by destruct (hasUniversalGlob _). Qed.

Lemma below_list_app (G : list (list string)) p s : (exists g, g ∈ G /\ below g p) -> exists g, g ∈ G /\ below g (p ++ s).
Proof using Type. intros (g & Hg & Hb). exists g. split; [done|by apply below_app]. Qed.

Lemma not_below_false (G : list (list string)) p b : (b = true <-> exists g, g ∈ G /\ below g p) -> b <> true -> ~ exists g, g ∈ G /\ below g p.
Proof using Type. intros H Hb Hg. by apply Hb, H. Qed.

(** The functions that decide on a directory always return. *)
Lemma through_Ok G d : Forall glob G -> normal d ->
  (exists b, include_shouldGoThrough (paths G) (path_of d) = Ok b) /\ (exists b, exclude_shouldGoThrough (paths G) (path_of d) = Ok b).
Proof using laws.
  intros HG Hn. unfold include_shouldGoThrough, exclude_shouldGoThrough.
  destruct G as [|g G]; [by split; eexists|]. set (G' := g :: G) in *. change (path_of g :: paths G) with (paths G').
  change (paths G') with (path_of g :: paths G) at 1 3. cbv iota.
  destruct (hasUniversalGlob (paths G')) eqn:Hu; [by split; eexists|].
  case_bool_decide as Hd; [by split; eexists|]. assert (d <> []) as Hne by (by intros ->).
  destruct (globsAlong_Ok G' d HG Hn Hne Hu) as [x E]. change (path_of g :: paths G) with (paths G'). rewrite E. by split; eexists.
Qed.

(** They say to go on where something is selected further on. *)
Lemma through_true G d y s : Forall glob G -> normal (d ++ y :: s) ->
  ~ (exists g, g ∈ G /\ below g d) -> (exists g, g ∈ G /\ below g (d ++ y :: s)) ->
  include_shouldGoThrough (paths G) (path_of d) = Ok true /\ exclude_shouldGoThrough (paths G) (path_of d) = Ok true.
Proof using laws.
  intros HG Hn Hd Hb. destruct (globs_through G d y s HG Hn Hd Hb) as [Hu Ha].
  unfold include_shouldGoThrough, exclude_shouldGoThrough.
  destruct G as [|g G]; [destruct Hb as (g & Hg & _); by apply not_elem_of_nil in Hg|].
  rewrite fmap_cons in *. rewrite Hu. case_bool_decide as Hd0; [done|].
  destruct Ha as (x & -> & H1 & H2 & H3); [by intros ->|]. cbn [mbind res_bind]. rewrite H2, H3.
  rewrite (bool_decide_eq_false_2 (x.1 = [])) by done. by rewrite bool_decide_eq_true_2.
Qed.

#[export] Instance include_lawful gs : TCForall simple gs -> Lawful (newIncludePathMatcher gs).
Proof using laws.
  intros Hs. assert (Forall simple gs) as Hs' by (by apply TCForall_Forall).
  destruct (simple_globs gs Hs') as (G & EG & HG). unfold newIncludePathMatcher. rewrite EG.
  destruct (decide (G = [])) as [->|Hne]; [split; simpl; eauto; by left|].
  destruct (include_root G HG Hne) as (b0 & E0 & Hb0), (through_root G Hne) as [Ht0 _].
  split; unfold matches, goes_through; simpl.
  - intros p s Hp Es. assert (exists b, include_IsPathMatched (paths G) (path_of p) = Ok b) as [b E].
    { destruct (decide (p = [])) as [->|Hpne]; [by exists b0|]. destruct (include_spec G p HG Hne Hp Hpne) as (b & E & _). by exists b. }
    exists b. split; [|done]. unfold include_IsPathMatched in *. by rewrite Es, <-(formatPath_path p Hp).
  - intros d s Hd Es. rewrite Es, formatPath_path by done. destruct (through_Ok G d HG Hd) as [[b E] _]. by exists b.
  - intros d y s Hn Hm. rewrite formatPath_path by (by apply normal_prefix in Hn). destruct (decide (d = [])) as [->|Hd].
    { simpl path_of. rewrite E0, Ht0. destruct (hasUniversalGlob (paths G)); [left; by rewrite Hb0|by right]. }
    destruct (include_spec G (d ++ y :: s) HG Hne Hn) as (b & E & Hb); [by destruct d|]. rewrite Hm in E. injection E as <-.
    destruct (include_spec G d HG Hne (normal_prefix _ _ Hn) Hd) as (b' & -> & Hb'). destruct b'; [by left|right].
    by apply (through_true G d y s HG Hn); [eapply not_below_false|apply Hb].
  - intros d s Hn Hm Ht. destruct (decide (d = [])) as [->|Hd].
    { destruct (decide (s = [])) as [->|Hsne]; [done|]. change (path_of ([] ++ s)) with (path_of s).
      destruct (include_spec G s HG Hne Hn Hsne) as (b & -> & Hb). f_equal. apply Hb.
      change (formatPath (path_of [])) with "" in Ht. rewrite Ht0 in Ht. destruct (hasUniversalGlob (paths G)) eqn:Hu; [|by destruct Ht].
      apply hasUniversalGlob_spec in Hu as (g & Hg & Hu); [|done]. exists g. split; [done|by apply below_universal]. }
    destruct (include_spec G d HG Hne (normal_prefix _ _ Hn) Hd) as (b & E & Hb). rewrite Hm in E. injection E as <-.
    destruct (include_spec G (d ++ s) HG Hne Hn) as (b' & -> & Hb'); [by destruct d|]. f_equal. apply Hb'. by apply below_list_app, Hb.
Qed.

#[export] Instance exclude_lawful gs : TCForall simple gs -> Lawful (newExcludePathMatcher gs).
Proof using laws.
  intros Hs. assert (Forall simple gs) as Hs' by (by apply TCForall_Forall).
  destruct (simple_globs gs Hs') as (G & EG & HG). unfold newExcludePathMatcher. rewrite EG.
  destruct (decide (G = [])) as [->|Hne]; [split; simpl; eauto; by left|].
  destruct (exclude_root G HG Hne) as (b0 & E0 & Hb0), (through_root G Hne) as [_ Ht0].
  split; unfold matches, goes_through; simpl.
  - intros p s Hp Es. assert (exists b, exclude_IsPathMatched (paths G) (path_of p) = Ok b) as [b E].
    { destruct (decide (p = [])) as [->|Hpne]; [by exists b0|]. destruct (exclude_spec G p HG Hne Hp Hpne) as (b & E & _). by exists b. }
    exists b. split; [|done]. unfold exclude_IsPathMatched in *. by rewrite Es, <-(formatPath_path p Hp).
  - intros d s Hd Es. rewrite Es, formatPath_path by done. destruct (through_Ok G d HG Hd) as [_ [b E]]. by exists b.
  - intros d y s Hn Hm.
    destruct (exclude_spec G (d ++ y :: s) HG Hne Hn) as (b & E & Hb); [by destruct d|]. rewrite Hm in E. injection E as <-.
    destruct (decide (d = [])) as [->|Hd].
    { right. change (formatPath (path_of [])) with "". rewrite Ht0. destruct (hasUniversalGlob (paths G)) eqn:Hu; [|done].
      apply hasUniversalGlob_spec in Hu as (g & Hg & Hu); [|done]. destruct (proj1 Hb eq_refl). exists g. split; [done|by apply below_universal]. }
    left. destruct (exclude_spec G d HG Hne (normal_prefix _ _ Hn) Hd) as (b' & -> & Hb'). f_equal. apply Hb'.
    intros H. apply Hb; [done|]. by apply below_list_app.
  - intros d s Hn Hm Ht. destruct s as [|y s]; [by rewrite app_nil_r|]. destruct (decide (d = [])) as [->|Hd].
    { change (formatPath (path_of [])) with "" in Ht. rewrite Ht0 in Ht. simpl path_of in Hm. rewrite E0 in Hm.
      destruct (hasUniversalGlob (paths G)); [rewrite Hb0 in Hm by done; done|by destruct Ht]. }
    destruct (exclude_spec G d HG Hne (normal_prefix _ _ Hn) Hd) as (b & E & Hb). rewrite Hm in E. injection E as <-.
    destruct (exclude_spec G (d ++ y :: s) HG Hne Hn) as (b' & -> & Hb'); [by destruct d|]. f_equal. apply Hb'. intros H. apply Ht.
    rewrite formatPath_path by (by apply normal_prefix in Hn). by apply (through_true G d y s HG Hn); [apply Hb|].
Qed.
End globs.

(** * The other matchers *)

#[export] Instance true_lawful : Lawful TruePathMatcher.
Proof. split; simpl; eauto; by left. Qed.

#[export] Instance false_lawful : Lawful FalsePathMatcher.
Proof. split; simpl; eauto; done. Qed.

Lemma allMatched_spec {A} (f : A -> res bool) (P : A -> Prop) l :
  (forall a, a ∈ l -> decides (f a) (P a)) -> decides (allMatched f l) (forall a, a ∈ l -> P a).
Proof.
  induction l as [|a l IH]; intros Hf; [exists true; split; [done|]; split; [|done]; intros _ a Ha; by apply not_elem_of_nil in Ha|].
  destruct (Hf a ltac:(by left)) as (b & E & Hb), (IH (fun x Hx => Hf x ltac:(by right))) as (b' & E' & Hb').
  exists (b && b'). split; [simpl; rewrite E; by destruct b|]. rewrite andb_true_iff, Hb, Hb'. split.
  - intros [H1 H2] x [->|Hx]%elem_of_cons; auto.
  - intros H'. split; [apply H'; by left|intros x Hx; apply H'; by right].
Qed.

Lemma throughLoop_spec {A} (f g : A -> res bool) (T M : A -> Prop) l :
  (forall a, a ∈ l -> decides (f a) (T a)) -> (forall a, a ∈ l -> decides (g a) (M a)) -> forall st,
  decides (throughLoop f g l st) ((forall a, a ∈ l -> T a \/ M a) /\ (st = true \/ exists a, a ∈ l /\ T a)).
Proof.
  induction l as [|a l IH]; intros Hf Hg st.
  { exists st. split; [done|]. split; [intros ->; split; [intros a Ha; by apply not_elem_of_nil in Ha|by left]|].
    intros [_ [H'|(a & Ha & _)]]; [done|by apply not_elem_of_nil in Ha]. }
  destruct (Hf a ltac:(by left)) as (t & E & Ht), (Hg a ltac:(by left)) as (m & E' & Hm).
  pose proof (IH (fun x Hx => Hf x ltac:(by right)) (fun x Hx => Hg x ltac:(by right))) as IH'. unfold decides. simpl. rewrite E. simpl.
  destruct t.
  - destruct (IH' true) as (b & -> & Hb). exists b. split; [done|]. rewrite Hb. assert (T a) by by apply Ht. split.
    + intros [H1 _]. split; [intros x [->|Hx]%elem_of_cons; auto|right; exists a; split; [by left|done]].
    + intros [H1 _]. split; [intros x Hx; apply H1; by right|by left].
  - rewrite E'. simpl. assert (~ T a) as HnT by (rewrite <-Ht; done). destruct m; simpl.
    + destruct (IH' st) as (b & -> & Hb). exists b. split; [done|]. rewrite Hb. split.
      * intros [H1 [H2|(x & Hx & H2)]]; (split; [intros y [->|Hy]%elem_of_cons; [right; by apply Hm|auto]|]); [by left|right; exists x; split; [by right|done]].
      * intros [H1 H2]. split; [intros x Hx; apply H1; by right|]. destruct H2 as [H2|(x & [->|Hx]%elem_of_cons & H2)]; [by left|done|right; by exists x].
    + exists false. split; [done|]. split; [done|]. intros [H1 _]. destruct (H1 a ltac:(by left)) as [H2|H2]; [done|by apply Hm].
Qed.

Lemma decides_of (r : res bool) : r = Ok true \/ r = Ok false -> decides r (r = Ok true).
Proof. intros [->| ->]; [exists true|exists false]; done. Qed.

Section multi.
Variable l : list PathMatcher.
Hypothesis Hl : forall m, m ∈ l -> Lawful m.

Lemma multi_matched p s : normal p -> formatPath s = path_of p ->
  decides (IsPathMatched (MultiPathMatcher l) s) (forall m, m ∈ l -> matches m p).
Proof.
  intros Hp Es. simpl. apply allMatched_spec. intros m Hm. specialize (Hl m Hm).
  destruct (lawful_matched p s Hp Es) as (b & E & E'). exists b. split; [done|]. unfold matches. rewrite E'. by destruct b.
Qed.

Lemma multi_through d s : normal d -> formatPath s = path_of d ->
  decides (ShouldGoThrough (MultiPathMatcher l) s)
    ((forall m, m ∈ l -> goes_through m d \/ matches m d) /\ exists m, m ∈ l /\ goes_through m d).
Proof.
  intros Hd Es. simpl. destruct (throughLoop_spec (fun m => ShouldGoThrough m s) (fun m => IsPathMatched m s)
    (fun m => goes_through m d) (fun m => matches m d) l) with (st := false) as (b & E & Hb).
  - intros m Hm. specialize (Hl m Hm). destruct (lawful_through d s Hd Es) as (b & E & E'). exists b. split; [done|]. unfold goes_through. rewrite E'. by destruct b.
  - intros m Hm. specialize (Hl m Hm). destruct (lawful_matched d s Hd Es) as (b & E & E'). exists b. split; [done|]. unfold matches. rewrite E'. by destruct b.
  - exists b. split; [done|]. rewrite Hb. split; [intros [H1 [H2|H2]]; done|intros [H1 H2]; by split; [|right]].
Qed.

Lemma multi_lawful_list : Lawful (MultiPathMatcher l).
Proof.
  assert (forall p, normal p -> matches (MultiPathMatcher l) p <-> forall m, m ∈ l -> matches m p) as Hm.
  { intros p Hp. destruct (multi_matched p _ Hp (formatPath_path p Hp)) as (b & E & Hb). unfold matches at 1. rewrite E, <-Hb. by destruct b. }
  assert (forall d, normal d -> goes_through (MultiPathMatcher l) d <->
    (forall m, m ∈ l -> goes_through m d \/ matches m d) /\ exists m, m ∈ l /\ goes_through m d) as Ht.
  { intros p Hp. destruct (multi_through p _ Hp (formatPath_path p Hp)) as (b & E & Hb). unfold goes_through at 1. rewrite E, <-Hb. by destruct b. }
  split.
  - intros p s Hp Es. destruct (multi_matched p s Hp Es) as (b & E & Hb), (multi_matched p _ Hp (formatPath_path p Hp)) as (b' & E' & Hb').
    exists b. split; [done|]. rewrite E'. f_equal. rewrite <-Hb in Hb'. destruct b, b'; naive_solver.
  - intros d s Hd Es. destruct (multi_through d s Hd Es) as (b & E & Hb), (multi_through d _ Hd (formatPath_path d Hd)) as (b' & E' & Hb').
    exists b. split; [done|]. rewrite E'. f_equal. rewrite <-Hb in Hb'. destruct b, b'; naive_solver.
  - intros d y s Hn H1. pose proof (normal_prefix _ _ Hn) as Hd. rewrite Hm in H1 |- * by done. rewrite Ht by done.
    assert (forall m, m ∈ l -> goes_through m d \/ matches m d) as H2.
    { intros m Hin. specialize (Hl m Hin). destruct (lawful_prune d y s Hn (H1 m Hin)); auto. }
    destruct (multi_through d _ Hd (formatPath_path d Hd)) as (b & _ & Hb). destruct b; [right; by apply Hb|].
    left. intros m Hin. destruct (H2 m Hin) as [H3|H3]; [|done]. assert (false = true); [|done]. apply Hb. split; [done|by exists m].
  - intros d s Hn H1 H2. pose proof (normal_prefix _ _ Hn) as Hd. rewrite Hm in H1 |- * by done. rewrite Ht in H2 by done.
    intros m Hin. specialize (Hl m Hin). apply lawful_whole; [done|auto|]. intros H3. apply H2. split; [auto|by exists m].
Qed.
End multi.

#[export] Instance multi_lawful l : TCForall Lawful l -> Lawful (NewMultiPathMatcher l).
Proof.
  intros Hl. apply multi_lawful_list. apply TCForall_Forall in Hl. rewrite Forall_forall in Hl. destruct l as [|m l]; [|done].
  intros m [->|Hm]%elem_of_cons; [apply true_lawful|by apply not_elem_of_nil in Hm].
Qed.

(** ** Base paths *)

(** What is known of the functions on base paths. *)
Record BaseLaws : Prop := {
  subpath : forall b p, normal b -> normal p ->
    IsSubpathOfBasePath (path_of b) (path_of p) = true <-> exists x r, p = b ++ x :: r;
  relative_below : forall b q, normal (b ++ q) -> formatPath (GetRelativeToBaseFilepath (path_of b) (path_of (b ++ q))) = path_of q;
  relative_normal : forall b p, normal b -> normal p ->
    exists q, normal q /\ formatPath (GetRelativeToBaseFilepath (path_of b) (path_of p)) = path_of q;
}.

Section base.
Hypothesis blaws : BaseLaws.
Variable (b : list string) (m : PathMatcher).
Hypothesis (Hb : normal b) (Hm : Lawful m).

Abbreviation base := (basePathMatcher (path_of b) (Some m)).

Lemma in_base p : normal p ->
  IsSubpathOfBasePath (path_of b) (path_of p) || bool_decide (path_of b = path_of p) = true <-> exists q, p = b ++ q.
Proof using blaws Hb.
  intros Hp. rewrite orb_true_iff, (subpath blaws), bool_decide_eq_true by done. split.
  - intros [(x & r & ->)|E]; [eauto|]. apply path_of_inj in E; [|by apply normal_elems..]. exists []. by rewrite app_nil_r.
  - intros [[|x q] ->]; [right; by rewrite app_nil_r|left; eauto].
Qed.

Lemma base_matched p : normal p -> matches base p <-> exists q, p = b ++ q /\ matches m q.
Proof using blaws Hb Hm.
  intros Hp. unfold matches. simpl. rewrite formatPath_path by done.
  destruct (_ || _) eqn:E.
  - apply (in_base p Hp) in E as [q ->]. pose proof (normal_suffix _ _ Hp) as Hq.
    destruct (lawful_matched q _ Hq (relative_below blaws b q Hp)) as (v & -> & E). rewrite <-E. split; [eauto|].
    intros (q' & ->%app_inv_head & H). done.
  - split; [done|]. intros (q & -> & _). assert (false = true); [|done]. rewrite <-E. apply in_base; eauto.
Qed.

Lemma base_through d : normal d ->
  goes_through base d <-> (exists x r, b = d ++ x :: r) \/
    exists q, normal q /\ formatPath (GetRelativeToBaseFilepath (path_of b) (path_of d)) = path_of q /\ goes_through m q.
Proof using blaws Hb Hm.
  intros Hd. unfold goes_through. simpl. rewrite formatPath_path by done. rewrite <-(subpath blaws) by done.
  destruct (IsSubpathOfBasePath (path_of d) (path_of b)); [by split; [left|]|].
  destruct (relative_normal blaws b d Hb Hd) as (q & Hq & E). destruct (lawful_through q _ Hq E) as (v & -> & E'). split.
  - intros [= ->]. right. exists q. done.
  - intros [?|(q' & Hq' & E2 & H)]; [done|]. rewrite E in E2. apply path_of_inj in E2; [|by apply normal_elems..]. subst q'. congruence.
Qed.

Lemma base_through_below q : normal (b ++ q) -> goes_through m q -> goes_through base (b ++ q).
Proof using blaws Hb Hm.
  intros Hn H. apply base_through; [done|]. right. exists q. split; [by apply normal_suffix in Hn|]. split; [by apply relative_below|done].
Qed.

Lemma base_decided p s : normal p -> formatPath s = path_of p ->
  (exists v, IsPathMatched base s = Ok v /\ IsPathMatched base (path_of p) = Ok v) /\
  (exists v, ShouldGoThrough base s = Ok v /\ ShouldGoThrough base (path_of p) = Ok v).
Proof using blaws Hb Hm.
  intros Hp E. simpl. rewrite E, formatPath_path by done.
  destruct (relative_normal blaws b p Hb Hp) as (q & Hq & Eq).
  destruct (lawful_matched q _ Hq Eq) as (v & -> & _), (lawful_through q _ Hq Eq) as (v' & -> & _).
  split; [destruct (_ || _)|destruct (IsSubpathOfBasePath _ _)]; eauto.
Qed.

Lemma base_prune d y s : normal (d ++ y :: s) -> matches base (d ++ y :: s) -> matches base d \/ goes_through base d.
Proof using blaws Hb Hm.
  intros Hn H. pose proof (normal_prefix _ _ Hn) as Hd. apply base_matched in H as (q & E & H); [|done].
  destruct (decide (length b <= length d)) as [Hl|Hl].
  - assert (exists q', d = b ++ q') as [q' ->].
    { exists (drop (length b) d). rewrite <-(take_drop (length b) d) at 1. f_equal. apply (f_equal (take (length b))) in E.
      by rewrite take_app_le, take_app_length in E by done. }
    rewrite <-app_assoc in E. apply app_inv_head in E as <-. rewrite <-app_assoc in Hn. apply normal_suffix in Hn.
    destruct (lawful_prune q' y s Hn H) as [H'|H']; [left; apply base_matched; eauto|right; by apply base_through_below].
  - right. apply base_through; [done|]. left. destruct (drop (length d) b) as [|x r] eqn:Ed.
    { apply (f_equal length) in Ed. rewrite length_drop in Ed. simpl in Ed. lia. }
    exists x, r. rewrite <-Ed. rewrite <-(take_drop (length d) b) at 1. f_equal. apply (f_equal (take (length d))) in E.
    rewrite take_app_length, take_app_le in E by lia. done.
Qed.

Lemma base_lawful_path : Lawful base.
Proof using blaws Hb Hm.
  split.
  - intros p s Hp E. apply (base_decided p s Hp E).
  - intros d s Hd E. apply (base_decided d s Hd E).
  - exact base_prune.
  - intros d s Hn H Ht. pose proof (normal_prefix _ _ Hn) as Hd. apply base_matched in H as (q & -> & H); [|done].
    rewrite <-app_assoc in *. apply base_matched; [done|]. exists (q ++ s). split; [done|].
    apply lawful_whole; [by apply normal_suffix in Hn|done|]. intros Hg. apply Ht. by apply base_through_below.
Qed.
End base.

(** * The constructor *)

Definition cleaned (s : string) : Prop := exists b, normal b /\ formatPath s = path_of b.

Lemma base_lawful s m : BaseLaws -> cleaned s -> Lawful m -> Lawful (newBasePathMatcher s (Some m)).
Proof. intros Hl (b & Hb & E) Hm. unfold newBasePathMatcher. rewrite E. by apply base_lawful_path. Qed.

(** C28: The matchers that [NewPathMatcher] builds out of simple globs, a base path and lawful matchers, without
    patterns of a .dockerignore, are lawful: they decide on every path whatever its spelling, a file that they
    match is below a directory that they match or go through, and all is matched below a directory that they
    match and do not go through. Walks that skip the other directories, or take a directory as a whole, find
    exactly the matched files. A glob is simple where its elements are well-formed, braces are closed within an
    element, none is empty or . or .., and ** is nowhere but as a whole element: for a**/b the claim fails, since
    matchGlob keeps such a glob in progress for good. The laws of the glob library are stated for paths that are
    not empty; of the empty path, the root, only that it is decided on and that the empty glob matches it. *)
Theorem matchers_lawful glob_elem options : GlobLaws glob_elem -> BaseLaws ->
  DockerignorePatterns options = None ->
  Forall (simple glob_elem) (IncludeGlobs options) -> Forall (simple glob_elem) (ExcludeGlobs options) ->
  cleaned (BasePath options) -> Forall Lawful (Matchers options) ->
  exists m, NewPathMatcher options = Ok m /\ Lawful m.
Proof.
  intros laws blaws Hd Hi He Hb Hm. unfold NewPathMatcher. rewrite Hd. cbn [mbind res_bind app].
  set (l := _ ++ _ ++ Matchers options). assert (Lawful (NewMultiPathMatcher (match l with [] => [TruePathMatcher] | _ => l end))) as Hl.
  { assert (Forall Lawful l) as Hl.
    { apply Forall_app; split; [|apply Forall_app; split; [|done]].
      - destruct (IncludeGlobs options); constructor; [|constructor]. apply (include_lawful glob_elem laws). by apply TCForall_Forall.
      - destruct (ExcludeGlobs options); constructor; [|constructor]. apply (exclude_lawful glob_elem laws). by apply TCForall_Forall. }
    apply multi_lawful. apply TCForall_Forall. destruct l; [constructor; [apply true_lawful|constructor]|done]. }
  case_bool_decide; eexists; (split; [done|]); [by apply base_lawful|done].
Qed.

(** The identifier of a matcher of .dockerignore forgets the order of the patterns and which of them are
    exclusions: matchers that decide differently have one identifier, under which archives, patches and
    listings of trees are kept. *)
Theorem dockerignore_id_collides pm pm' :
  fst <$> Patterns pm ≡ₚ fst <$> Patterns pm' -> ID (dockerfileIgnorePathMatcher pm) = ID (dockerfileIgnorePathMatcher pm').
Proof.
  intros E. simpl. rewrite (Sort.Strings_eq _ _ E). destruct (Patterns pm), (Patterns pm'); try done.
  - by apply Permutation_nil_l in E.
  - by apply Permutation_nil_r in E.
Qed.
End props.
End PathMatcherProps.

Import PathMatcher PathMatcherFacts PathMatcherProps.

(** Matchers on concrete globs: the elements * and **, and those that are only equal to themselves. *)
Module PathMatcherExamples.

(** * The globs *)

Definition elems (s : string) : list string := if bool_decide (s = "") then [] else Str.Split s "/".

Definition elemMatches (e x : string) : bool := bool_decide (e = "*") || bool_decide (e = x).

Fixpoint globMatches (g p : list string) : bool :=
  match g with
  | [] => match p with [] => true | _ => false end
  | e :: g' =>
      if bool_decide (e = "**") then (fix stars p := globMatches g' p || match p with [] => false | _ :: p' => stars p' end) p
      else match p with [] => false | x :: p' => elemMatches e x && globMatches g' p' end
  end.

Definition isPrefix (b p : list string) : bool := bool_decide (take (length b) p = b).

(** The path from one directory to a path: up to what they share. *)
Fixpoint rel (b p : list string) : list string :=
  match b, p with
  | x :: b', y :: p' => if bool_decide (x = y) then rel b' p' else ((fun _ => "..") <$> b) ++ p
  | _, _ => ((fun _ => "..") <$> b) ++ p
  end.

(** The glob * matches the empty path as well. *)
#[export] Instance doublestar : Doublestar := fun g p =>
  inl (bool_decide (g = "*") && bool_decide (p = "") || globMatches (elems g) (elems p)).
#[export] Instance quote : GoQuote := fun s => "'" +:+ s +:+ "'".
#[export] Instance patterns : PatternMatchers := {
  PatternMatcher := list (string * bool);
  NewPatternMatcher := fun l => inl ((fun s => if Str.HasPrefix s "!" then (Str.TrimPrefix s "!", true) else (s, false)) <$> l);
  Patterns := fun m => m;
  Matches := fun m p => inl (foldl (fun b e => if globMatches (elems e.1) (elems p) then negb e.2 else b) false m);
}.
#[export] Instance filepaths : UtilFilepaths := {
  SplitFilepath := elems;
  SafeTrimGlobsAndSlashesFromFilepath := fun g => path_of (trimGlobs (elems g));
  IsSubpathOfBasePath := fun b p => isPrefix (elems b) (elems p) && negb (bool_decide (b = p));
}.
#[export] Instance paths : UtilPaths := {
  GetRelativeToBaseFilepath := fun b p => path_of (rel (elems b) (elems p));
}.
#[export] Instance hashes : Hashes := {
  sha256_hex := fun s => s; Sha256Hash := fun l => Str.Join l "|"; Sha3_224Hash := fun l => Str.Join l "|" }.

Lemma elems_path l : Forall elem_ok l -> elems (path_of l) = l.
Proof.
  intros Hl. unfold elems. case_bool_decide as E; [by apply path_of_empty in E|]. apply Split_path; [done|by intros ->].
Qed.

(** * They are as the theorems assume *)

Definition glob_elem (e : string) : Prop := plain e /\ (Str.Contains e "**" = true -> e = "**").

Lemma PathMatch_elem e x : elem_ok e -> elem_ok x -> e <> "**" -> PathMatch e x = inl (elemMatches e x).
Proof.
  intros He Hx Hne. unfold PathMatch, doublestar.
  rewrite (bool_decide_eq_false_2 (x = "")), andb_false_r by (by destruct Hx). simpl orb. change e with (path_of [e]) at 1. change x with (path_of [x]) at 1.
  rewrite (elems_path [e]), (elems_path [x]) by (by constructor). simpl.
  by rewrite bool_decide_eq_false_2, andb_true_r.
Qed.

Lemma globMatches_spec g p : Forall glob_elem g -> Forall elem_ok p -> globMatches g p = true <-> GlobMatch g p.
Proof.
  intros Hg. revert p. induction Hg as [|e g [[He _] Hw] Hg IH]; intros p Hp.
  - destruct p; [split; [constructor|done]|]. split; [done|]. intros H. inversion H.
  - simpl. case_bool_decide as Hs; [subst e|].
    + induction Hp as [|x p Hx Hp IHp]; rewrite orb_true_iff, IH by (done || by constructor).
      * split; [intros [H|H]; [by constructor|done]|]. intros H. inversion H; by left.
      * rewrite IHp. split; [intros [H|H]; [by apply gm_skip|by apply gm_more]|]. intros H. inversion H; subst; [done|by left|by right].
    + destruct Hp as [|x p Hx Hp]; [split; [done|]; intros H; by inversion H|]. rewrite andb_true_iff, IH by done. split.
      * intros [H1 H2]. constructor; [done| |done]. rewrite PathMatch_elem by done. by rewrite H1.
      * intros H. inversion H as [|? ? ? ? _ E H'| |]; subst; [|done..]. rewrite PathMatch_elem in E by done. by injection E as ->.
Qed.

Lemma laws : GlobLaws glob_elem.
Proof.
  assert (forall g, Forall glob_elem g -> Forall elem_ok g) as Hok by (intros g H; eapply Forall_impl; [exact H|]; by intros e [[? _] _]).
  split.
  - by intros e [H _].
  - by intros e [_ H].
  - repeat split; done.
  - repeat split; done.
  - intros x Hx. rewrite PathMatch_elem by (first [exact Hx|repeat split; done]). done.
  - intros g p Hg Hp Hpne. apply normal_elems in Hp. unfold PathMatch, doublestar. rewrite !elems_path by auto.
    rewrite (bool_decide_eq_false_2 (path_of p = "")), andb_false_r by (by rewrite path_of_empty).
    eexists. split; [done|]. by apply globMatches_spec.
  - intros g Hg. eexists. split; [done|]. by intros ->.
  - intros l Hl _. by apply elems_path, normal_elems.
  - intros g Hg. simpl. by rewrite elems_path by auto.
Qed.

Lemma rel_below b q : rel b (b ++ q) = q.
Proof. induction b as [|x b IH]; simpl; [done|]. by rewrite bool_decide_eq_true_2. Qed.

Lemma ups_normal {A} (l : list A) p : normal p -> normal (((fun _ => "..") <$> l) ++ p).
Proof. intros Hp. induction l as [|x l IH]; [done|]. rewrite fmap_cons. split; [repeat split; done|]. by rewrite bool_decide_eq_true_2. Qed.

Lemma rel_normal b : forall p, normal p -> normal (rel b p).
Proof.
  induction b as [|x b IH]; intros p Hp; [done|]. destruct p as [|y p]; [by apply (ups_normal (x :: b))|]. simpl.
  case_bool_decide as E; [|by apply (ups_normal (x :: b))]. apply IH. by apply (normal_suffix [y]) in Hp.
Qed.

Lemma base_laws : BaseLaws.
Proof.
  split.
  - intros b p Hb Hp. apply normal_elems in Hb, Hp. simpl. rewrite !elems_path by done. unfold isPrefix.
    rewrite andb_true_iff, negb_true_iff, bool_decide_eq_true, bool_decide_eq_false. split.
    + intros [E Hne]. rewrite <-(take_drop (length b) p), E. destruct (drop (length b) p) as [|x r] eqn:Ed; [|eauto].
      destruct Hne. by rewrite <-(take_drop (length b) p), E, Ed, app_nil_r.
    + intros (x & r & ->). rewrite take_app_length. split; [done|]. intros E. apply path_of_inj in E; [|done..].
      apply (f_equal length) in E. rewrite length_app in E. simpl in E. lia.
  - intros b q Hn. pose proof (normal_elems _ Hn) as H. pose proof H as [Hb _]%Forall_app. simpl.
    rewrite !elems_path, rel_below by done. by apply formatPath_path, normal_suffix in Hn || apply formatPath_path; apply normal_suffix in Hn.
  - intros b p Hb Hp. exists (rel b p). simpl. rewrite !elems_path by (by apply normal_elems). pose proof (rel_normal b p Hp).
    split; [done|by apply formatPath_path].
Qed.

(** * A matcher with a base path, globs to include and to exclude *)

Definition options : PathMatcherOptions :=
  mkPathMatcherOptions "app" ["docs/**/README.md"; "src/*"; "./Makefile"] ["docs/internal/"; "**/tmp"] None [TruePathMatcher].

Definition matcher : PathMatcher := match NewPathMatcher options with Ok m => m | _ => FalsePathMatcher end.

(** Files below are matched with what matches a directory; the directories on the way are gone through. *)
Example matched : (fun p => IsPathMatched matcher p) <$> ["app/src/a/b.go"; "app/Makefile"; "app/src/tmp/x"; "src/a"; "app/docs/internal/x.md"] =
  [Ok true; Ok true; Ok false; Ok false; Ok false].
Proof. vm_compute. done. Qed.

Example through : (fun p => ShouldGoThrough matcher p) <$> [""; "app"; "app/docs"; "app/src"; "app/src/a"; "lib"] =
  [Ok true; Ok true; Ok true; Ok true; Ok true; Ok false].
Proof. vm_compute. done. Qed.

Ltac plain_path l := exists l; split; [repeat constructor; done|vm_compute; done].

Lemma matchers_lawful_witness : DockerignorePatterns options = None /\ exists m, NewPathMatcher options = Ok m /\ Lawful m.
Proof.
  split; [done|]. apply (matchers_lawful glob_elem options laws base_laws); [done| | | |].
  - apply Forall_cons; split; [plain_path ["docs"; "**"; "README.md"]|]. apply Forall_cons; split; [plain_path ["src"; "*"]|].
    apply Forall_cons; split; [plain_path ["Makefile"]|constructor].
  - apply Forall_cons; split; [plain_path ["docs"; "internal"]|]. apply Forall_cons; split; [plain_path ["**"; "tmp"]|constructor].
  - exists ["app"]. split; [repeat constructor; done|vm_compute; done].
  - constructor; [apply true_lawful|constructor].
Defined.

(** ** Patterns of .dockerignore *)

Definition keepReadme : PatternMatcher := [("*", false); ("README", true)].
Definition dropReadme : PatternMatcher := [("README", true); ("*", false)].

(** One identifier, and different files. *)
Lemma dockerignore_id_collides_witness :
  ID (dockerfileIgnorePathMatcher keepReadme) = ID (dockerfileIgnorePathMatcher dropReadme) /\
  IsPathMatched (dockerfileIgnorePathMatcher keepReadme) "README" <> IsPathMatched (dockerfileIgnorePathMatcher dropReadme) "README".
Proof.
  split; [|vm_compute; done]. apply (dockerignore_id_collides keepReadme dropReadme). apply perm_swap.
Defined.

End PathMatcherExamples.
