(* ===== verification/LsTree.v ===== *)
(** pkg/git_repo/repo_handle and pkg/true_git/ls_tree: the files of a commit that a matcher takes, with
    those of the submodules, as lists of entries; their contents and their checksum. go-git is
    third-party code, and a class; nothing is written to a repository. *)
From S2P Require Import Prelude Go GoStd PathMatcher.
Import PathMatcher.

(** * go-git *)

(** plumbing/filemode: the modes of git, and the others. *)
Inductive FileMode := Empty | Dir | Regular | Deprecated | Executable | Symlink | Submodule | OtherMode (mode : Z).

#[export] Instance FileMode_eq_dec : EqDecision FileMode.
Proof. solve_decision. Defined.

(** [FileMode.IsMalformed]. *)
Definition IsMalformed (m : FileMode) : bool := match m with Empty | OtherMode _ => true | _ => false end.

(** [config.Submodule], as far as it is read. *)
Record SubmoduleConfig := mkSubmoduleConfig { config_Name : string; config_Path : string }.

Class GoGit := {
  Hash : Type;
  NewHash : string -> Hash;
  Hash_String : Hash -> string;
  ZeroHash : Hash;
  Repository : Type; Commit : Type; Tree : Type; Blob : Type; Reader : Type; Worktree : Type; Sub : Type;
  CommitObject : Repository -> Hash -> Commit + error;
  Commit_Tree : Commit -> Tree + error;
  Tree_Hash : Tree -> Hash;
  Tree_Entries : Tree -> list (string * FileMode * Hash);
  Tree_Tree : Tree -> string -> Tree + error;
  Tree_FindEntry : Tree -> string -> string * FileMode * Hash + error;
  BlobObject : Repository -> Hash -> Blob + error;
  Blob_Reader : Blob -> Reader + error;
  ReadAll : Reader -> string + error;
  Repository_Worktree : Repository -> Worktree + error;
  Submodules : Worktree -> list Sub + error;
  Sub_Config : Sub -> SubmoduleConfig;
  Sub_Repository : Sub -> Repository + error;
  Sub_Expected : Sub -> Hash + error;
  ErrDirectoryNotFound : error; ErrFileNotFound : error; ErrEntryNotFound : error; ErrObjectNotFound : error;
}.

(** [object.TreeEntry]. *)
Record TreeEntry `{GoGit} := mkTreeEntry { Name : string; Mode : FileMode; entryHash : Hash }.

(** [if err != nil { return err }], and with the error wrapped. *)
Definition ok {A} (r : A + error) : res A := match r with inl a => Ok a | inr e => Err e end.
Definition okf {A} (f : string) (args : list farg) (r : A + error) : res A :=
  match r with inl a => Ok a | inr e => Err (Wrapf f args e) end.

Fixpoint res_each {A B} (f : A -> res B) (l : list A) : res (list B) :=
  match l with [] => Ok [] | a :: l' => b ← f a; bs ← res_each f l'; Ok (b :: bs) end.

(** * pkg/git_repo/repo_handle *)

Module RepoHandle.

Section handles.
Context `{!GoGit}.

Inductive Handle := mkHandle (repository : Repository) (submoduleHandleList : list SubmoduleHandle)
with SubmoduleHandle := mkSubmoduleHandle (handle : Handle) (config : SubmoduleConfig) (Expected : Hash).

Definition repository (h : Handle) : Repository := let (r, _) := h in r.
Definition Handle_Submodules (h : Handle) : list SubmoduleHandle := let (_, l) := h in l.
Definition handle (s : SubmoduleHandle) : Handle := let (h, _, _) := s in h.
Definition Config (s : SubmoduleHandle) : SubmoduleConfig := let (_, c, _) := s in c.
Definition Expected (s : SubmoduleHandle) : Hash := let (_, _, e) := s in e.

Definition ReadBlobObjectContent (h : Handle) (hash : Hash) : res string :=
  obj ← okf "unable to get blob %q object: %w" [FQ (Hash_String hash)] (BlobObject (repository h) hash);
  f ← ok (Blob_Reader obj);
  okf "unable to read blob %q content: %w" [FQ (Hash_String hash)] (ReadAll f).

Definition GetCommitTree (h : Handle) (hash : Hash) : res Tree :=
  commit ← okf "unable to get commit %q object: %w" [FQ (Hash_String hash)] (CommitObject (repository h) hash);
  okf "unable to get commit %q tree: %w" [FQ (Hash_String hash)] (Commit_Tree commit).

Definition Handle_Submodule (h : Handle) (submodulePath : string) : res SubmoduleHandle :=
  match List.find (fun s => bool_decide (config_Path (Config s) = submodulePath)) (Handle_Submodules h) with
  | Some s => Ok s
  | None => Err (Errorf "submodule %q not found" [FQ submodulePath])
  end.

(** The trees of a handle. *)
Definition treeHandle_Tree (t : Tree) (path : string) : res Tree := okf "unable to get tree %q: %w" [FQ path] (Tree_Tree t path).

Definition treeHandle_Entries (t : Tree) : list TreeEntry := (fun e => mkTreeEntry _ e.1.1 e.1.2 e.2) <$> Tree_Entries t.

Definition treeHandle_FindEntry (t : Tree) (path : string) : TreeEntry + error :=
  match Tree_FindEntry t path with inl e => inl (mkTreeEntry _ e.1.1 e.1.2 e.2) | inr e => inr e end.

(** The submodules of submodules come first: the fuel is their depth. *)
Fixpoint NewHandle (fuel : nat) (repository : Repository) : res Handle :=
  match fuel with
  | 0 => Panic "out of fuel"
  | S fuel =>
      w ← ok (Repository_Worktree repository);
      ss ← ok (Submodules w);
      list ← res_each (fun s =>
        submoduleRepository ← okf "unable to get submodule %q repository: %w" [FQ (config_Path (Sub_Config s))] (Sub_Repository s);
        submoduleStatus ← okf "unable to get submodule %q status: %w" [FQ (config_Path (Sub_Config s))] (Sub_Expected s);
        handle ← NewHandle fuel submoduleRepository;
        Ok (mkSubmoduleHandle handle (Sub_Config s) submoduleStatus)) ss;
      Ok (mkHandle repository list)
  end.

End handles.
End RepoHandle.

(** * pkg/true_git/ls_tree *)

Module LsTree.
Import RepoHandle.

Section ls_tree.
Context `{!GoGit, !GoQuote, !Doublestar, !PatternMatchers, !UtilFilepaths, !UtilPaths, !Hashes, !SortSlice}.

Record LsTreeOptions := mkLsTreeOptions { PathScope : string; LsPathMatcher : option PathMatcher; AllFiles : bool }.

Definition LsTreeOptions_ID (opts : LsTreeOptions) : res string :=
  match LsPathMatcher opts with
  | None => Panic "nil pointer dereference"
  | Some m => Ok (Sha256Hash [PathScope opts; ID m; if AllFiles opts then "true" else "false"])
  end.

Definition formattedPathScope (opts : LsTreeOptions) : string :=
  if bool_decide (PathScope opts = ".") then "" else Filepath.FromSlash (PathScope opts).

Definition formattedPathMatcher (opts : LsTreeOptions) : res PathMatcher :=
  m ← NewPathMatcher (mkPathMatcherOptions (formattedPathScope opts) [] [] None []);
  Ok (NewMultiPathMatcher (m :: match LsPathMatcher opts with Some m' => [m'] | None => [] end)).

Record LsTreeEntry := mkLsTreeEntry { FullFilepath : string; treeEntry : TreeEntry }.

(** The result for a repository: its own entries, and the results of its submodules. A submodule finds the
    submodule that it belongs to by its place in the result of the main repository. *)
Inductive Result :=
| mkResult (commit : string) (repositoryFullFilepath : string)
    (lsTreeEntries : list LsTreeEntry) (submodulesResults : list SubmoduleResult)
with SubmoduleResult :=
| mkSubmoduleResult (submoduleName submodulePath : string) (result : Result).

Definition commit (r : Result) : string := let (c, _, _, _) := r in c.
Definition repositoryFullFilepath (r : Result) : string := let (_, p, _, _) := r in p.
Definition lsTreeEntries (r : Result) : list LsTreeEntry := let (_, _, l, _) := r in l.
Definition submodulesResults (r : Result) : list SubmoduleResult := let (_, _, _, l) := r in l.
Definition submoduleName (s : SubmoduleResult) : string := let (n, _, _) := s in n.
Definition submodulePath (s : SubmoduleResult) : string := let (_, p, _) := s in p.
Definition result (s : SubmoduleResult) : Result := let (_, _, r) := s in r.

Definition IsEmpty (r : Result) : bool :=
  match lsTreeEntries r, submodulesResults r with [], [] => true | _, _ => false end.

(** ** Going through a tree *)

(** Entries and results of submodules. *)
Definition found : Type := list LsTreeEntry * list SubmoduleResult.

Definition lsTreeDirOrSubmoduleEntryMatchBase {A} (path : string) (opts : LsTreeOptions)
    (addTreeFunc checkTreeFunc skipTreeFunc : res A) : res A :=
  pathMatcher ← formattedPathMatcher opts;
  t ← ShouldGoThrough pathMatcher path;
  if (t : bool) then checkTreeFunc
  else
    b ← IsPathMatched pathMatcher path;
    if (b : bool) then (if AllFiles opts then checkTreeFunc else addTreeFunc) else skipTreeFunc.

Definition lsTreeFileEntryMatch (lsTreeEntry : LsTreeEntry) (opts : LsTreeOptions) : res found :=
  pathMatcher ← formattedPathMatcher opts;
  b ← IsPathMatched pathMatcher (FullFilepath lsTreeEntry);
  Ok (if (b : bool) then [lsTreeEntry] else [], []).

Definition treeFindEntry (tree : Tree) (treeFullFilepath treeEntryFilepath : string) : LsTreeEntry + error :=
  match treeHandle_FindEntry tree (Filepath.ToSlash treeEntryFilepath) with
  | inl e => inl (mkLsTreeEntry (Filepath.Join [treeFullFilepath; treeEntryFilepath]) e)
  | inr e => inr e
  end.

Definition treeTree (tree : Tree) (treeFullFilepath treeDirEntryFullFilepath : string) : res Tree :=
  match GoPath.Rel treeFullFilepath treeDirEntryFullFilepath with
  | inl treeDirEntryFilepath =>
      if GoPath.outside treeDirEntryFilepath then Panic "unexpected paths"
      else treeHandle_Tree tree (Filepath.ToSlash treeDirEntryFilepath)
  | inr _ => Panic "unexpected paths"
  end.

Definition getSubmoduleTree (repoHandle : SubmoduleHandle) : res Tree :=
  match GetCommitTree (handle repoHandle) (Expected repoHandle) with
  | Err e => Err (Wrapf "unable to get submodule %q commit %q tree: %w"
                    [FQ (config_Name (Config repoHandle)); FQ (Hash_String (Expected repoHandle))] e)
  | r => r
  end.

(** The walk below a directory or in a submodule. *)
Definition walkFunc : Type := Handle -> Tree -> string -> string -> LsTreeOptions -> res found.

Definition lsTreeDirEntryMatch (lsTreeWalk : walkFunc) (repoHandle : Handle) (tree : Tree)
    (repositoryFullFilepath treeFullFilepath : string) (lsTreeEntry : LsTreeEntry) (opts : LsTreeOptions) : res found :=
  lsTreeDirOrSubmoduleEntryMatchBase (FullFilepath lsTreeEntry) opts
    (Ok ([lsTreeEntry], []))
    (entryTree ← treeTree tree treeFullFilepath (FullFilepath lsTreeEntry);
     lsTreeWalk repoHandle entryTree repositoryFullFilepath (FullFilepath lsTreeEntry) opts)
    (Ok ([], [])).

Definition lsTreeSubmoduleEntryMatch (lsTreeWalk : walkFunc) (repoHandle : Handle)
    (repositoryFullFilepath : string) (lsTreeEntry : LsTreeEntry) (opts : LsTreeOptions) : res found :=
  let path := FullFilepath lsTreeEntry in
  lsTreeDirOrSubmoduleEntryMatchBase path opts
    (Ok ([lsTreeEntry], []))
    (match GoPath.Rel repositoryFullFilepath path with
     | inl submoduleFilepath =>
         if GoPath.outside submoduleFilepath then Panic "unexpected paths"
         else
           let submodulePath := Filepath.ToSlash submoduleFilepath in
           submoduleHandle ← Handle_Submodule repoHandle submodulePath;
           submoduleTree ← getSubmoduleTree submoduleHandle;
           f ← lsTreeWalk (handle submoduleHandle) submoduleTree path path opts;
           Ok (match f.1 with
               | [] => ([], [])
               | _ =>
                   let result := mkResult (Hash_String (Expected submoduleHandle)) path f.1 f.2 in
                   ([], if IsEmpty result then [] else [mkSubmoduleResult (config_Name (Config submoduleHandle)) submodulePath result])
               end)
     | inr _ => Panic "unexpected paths"
     end)
    (Ok ([], [])).

Definition lsTreeEntryMatch (lsTreeWalk : walkFunc) (repoHandle : Handle) (tree : Tree)
    (repositoryFullFilepath treeFullFilepath : string) (lsTreeEntry : LsTreeEntry) (opts : LsTreeOptions) : res found :=
  match Mode (treeEntry lsTreeEntry) with
  | Dir => lsTreeDirEntryMatch lsTreeWalk repoHandle tree repositoryFullFilepath treeFullFilepath lsTreeEntry opts
  | Submodule => lsTreeSubmoduleEntryMatch lsTreeWalk repoHandle repositoryFullFilepath lsTreeEntry opts
  | _ => lsTreeFileEntryMatch lsTreeEntry opts
  end.

Definition joined (l : list found) : found := (concat (fst <$> l), concat (snd <$> l)).

(** The fuel is the number of trees on the longest way down, into submodules too. *)
Fixpoint lsTreeWalk (fuel : nat) (repoHandle : Handle) (tree : Tree) (repositoryFullFilepath treeFullFilepath : string)
    (opts : LsTreeOptions) : res found :=
  match fuel with
  | 0 => Panic "out of fuel"
  | S fuel =>
      l ← res_each (fun treeEntry =>
            lsTreeEntryMatch (lsTreeWalk fuel) repoHandle tree repositoryFullFilepath treeFullFilepath
              (mkLsTreeEntry (Filepath.Join [treeFullFilepath; Name treeEntry]) treeEntry) opts)
          (treeHandle_Entries tree);
      Ok (joined l)
  end.

Definition not_found (e : error) : bool :=
  bool_decide (e = ErrDirectoryNotFound) || bool_decide (e = ErrFileNotFound) ||
  bool_decide (e = ErrEntryNotFound) || bool_decide (e = ErrObjectNotFound).

(** The entry of a path that is no submodule and in none. *)
Definition processEntryFilepath (fuel : nat) (repoHandle : Handle) (tree : Tree)
    (repositoryFullFilepath treeFullFilepath treeEntryFilepath : string) (opts : LsTreeOptions) : res found :=
  match treeFindEntry tree treeFullFilepath treeEntryFilepath with
  | inr e => if not_found e then Ok ([], []) else Err e
  | inl lsTreeEntry => lsTreeEntryMatch (lsTreeWalk fuel) repoHandle tree repositoryFullFilepath treeFullFilepath lsTreeEntry opts
  end.

(** The submodules are tried in their order; the first one that the path is in takes it. *)
Fixpoint processSpecificEntryFilepath (fuel : nat) (repoHandle : Handle) (tree : Tree)
    (repositoryFullFilepath treeFullFilepath treeEntryFilepath : string) (opts : LsTreeOptions) : res found :=
  match repoHandle with
  | mkHandle _ submodules =>
      (fix each (l : list SubmoduleHandle) : res found :=
         match l with
         | [] => processEntryFilepath fuel repoHandle tree repositoryFullFilepath treeFullFilepath treeEntryFilepath opts
         | mkSubmoduleHandle h config expected as submoduleHandle :: l' =>
             let submoduleEntryFilepath := Filepath.FromSlash (config_Path config) in
             let submoduleFullFilepath := Filepath.Join [treeFullFilepath; submoduleEntryFilepath] in
             match GoPath.Rel submoduleEntryFilepath treeEntryFilepath with
             | inr e => Panic (err_text e)
             | inl relTreeEntryFilepath =>
                 if GoPath.outside relTreeEntryFilepath then each l'
                 else
                   submoduleTree ← getSubmoduleTree submoduleHandle;
                   f ← processSpecificEntryFilepath fuel h submoduleTree submoduleFullFilepath submoduleFullFilepath
                         relTreeEntryFilepath opts;
                   let result := mkResult (Hash_String expected) submoduleFullFilepath f.1 f.2 in
                   Ok ([], if IsEmpty result then [] else [mkSubmoduleResult (config_Name config) (config_Path config) result])
             end
         end) submodules
  end.

Definition rootTreeEntry (tree : Tree) : LsTreeEntry := mkLsTreeEntry "" (mkTreeEntry _ "" Dir (Tree_Hash tree)).

Definition LsTree (fuel : nat) (repoHandle : Handle) (commit : string) (opts : LsTreeOptions) : res Result :=
  tree ← GetCommitTree repoHandle (NewHash commit);
  f ← if bool_decide (formattedPathScope opts <> "") then
        processSpecificEntryFilepath fuel repoHandle tree "" "" (formattedPathScope opts) opts
      else
        lsTreeDirOrSubmoduleEntryMatchBase "" opts
          (Ok ([rootTreeEntry tree], []))
          (lsTreeWalk fuel repoHandle tree "" "" opts)
          (Ok ([], []));
  Ok (mkResult commit "" f.1 f.2).

(** ** Results *)

(** The entries of a result that other options take, where they are directories what is below them. *)
Fixpoint Result_LsTree (fuel : nat) (r : Result) (repoHandle : Handle) (opts : LsTreeOptions) : res Result :=
  match r with
  | mkResult commit repositoryFullFilepath lsTreeEntries submodulesResults =>
      tree ← GetCommitTree repoHandle (NewHash commit);
      l ← res_each (fun lsTreeEntry =>
            if bool_decide (FullFilepath lsTreeEntry = "") then
              lsTreeDirOrSubmoduleEntryMatchBase (FullFilepath lsTreeEntry) opts
                (Ok ([lsTreeEntry], []))
                (lsTreeWalk fuel repoHandle tree repositoryFullFilepath repositoryFullFilepath opts)
                (Ok ([], []))
            else lsTreeEntryMatch (lsTreeWalk fuel) repoHandle tree repositoryFullFilepath repositoryFullFilepath lsTreeEntry opts)
          lsTreeEntries;
      srs ← (fix each (l : list SubmoduleResult) : res (list SubmoduleResult) :=
         match l with
         | [] => Ok []
         | mkSubmoduleResult name path result :: l' =>
             submoduleRepository ← Handle_Submodule repoHandle path;
             sr ← Result_LsTree fuel result (handle submoduleRepository) opts;
             rest ← each l';
             Ok (if IsEmpty sr then rest else mkSubmoduleResult name path sr :: rest)
         end) submodulesResults;
      Ok (mkResult commit repositoryFullFilepath (joined l).1 ((joined l).2 ++ srs))
  end.

Definition byFullFilepath (l : list LsTreeEntry) : list LsTreeEntry :=
  sort_Slice (fun x y => String.ltb (FullFilepath x) (FullFilepath y)) l.

(** What was found of the submodules, in the order of their paths. *)
Definition byRepository {A} (l : list (string * A)) : list A :=
  snd <$> sort_Slice (fun x y => String.ltb x.1 y.1) l.

(** The order of [walkWithResult]: an entry comes with nothing where it is of the main repository, and else
    with the paths of the submodules down to the one that the caller is told. That is the outermost
    one, whose call is the last to replace what the calls inside of it tell. *)
Fixpoint walkWithResult (parents : list string) (r : Result) : list (option (list string) * LsTreeEntry) :=
  match r with
  | mkResult _ _ entries submodules =>
      ((fun e => (None, e)) <$> byFullFilepath entries) ++
      concat (byRepository ((fix each (l : list SubmoduleResult) := match l with
        | [] => []
        | mkSubmoduleResult _ path r' :: l' =>
            (repositoryFullFilepath r', (fun x => (Some (parents ++ [path]), x.2)) <$> walkWithResult (parents ++ [path]) r') :: each l'
        end) submodules))
  end.

(** The order of [Walk]. *)
Definition Walk (r : Result) : list LsTreeEntry := snd <$> walkWithResult [] r.

Fixpoint Checksum (r : Result) : string :=
  if IsEmpty r then ""
  else match r with
       | mkResult _ _ entries submodules =>
           sha256_hex (Str.Join ((fun e => Hash_String (entryHash (treeEntry e))) <$> byFullFilepath entries) "" +:+
             Str.Join (byRepository ((fix each (l : list SubmoduleResult) := match l with
               | [] => []
               | mkSubmoduleResult _ _ r' :: l' => (repositoryFullFilepath r', Checksum r') :: each l'
               end) submodules)) "")
       end.

(** The last entry of that path, or one of the mode [Empty]. *)
Definition Result_LsTreeEntry (r : Result) (relPath : string) : LsTreeEntry :=
  let relPath := if bool_decide (relPath = ".") then "" else relPath in
  match last (filter (fun e => Filepath.ToSlash (FullFilepath e) = Filepath.ToSlash relPath) (Walk r)) with
  | Some e => e
  | None => mkLsTreeEntry relPath (mkTreeEntry _ relPath Empty ZeroHash)
  end.

(** The submodules from the main repository on. *)
Fixpoint submoduleRepositoryFromParent (repoHandle : Handle) (paths : list string) : res Handle :=
  match paths with
  | [] => Ok repoHandle
  | path :: paths' => s ← Handle_Submodule repoHandle path; submoduleRepositoryFromParent (handle s) paths'
  end.

(** The repository and the entry of the last match; a submodule that is not found ends the walk. *)
Fixpoint lastMatch (mainRepoHandle : Handle) (relPath : string) (l : list (option (list string) * LsTreeEntry))
    (st : option Handle * option LsTreeEntry) : option Handle * option LsTreeEntry :=
  match l with
  | [] => st
  | (owner, e) :: l' =>
      if bool_decide (Filepath.ToSlash (FullFilepath e) = Filepath.ToSlash relPath) then
        match owner with
        | None => lastMatch mainRepoHandle relPath l' (Some mainRepoHandle, Some e)
        | Some paths =>
            match submoduleRepositoryFromParent mainRepoHandle paths with
            | Ok h => lastMatch mainRepoHandle relPath l' (Some h, Some e)
            | _ => (None, st.2)
            end
        end
      else lastMatch mainRepoHandle relPath l' st
  end.

Definition LsTreeEntryContent (r : Result) (mainRepoHandle : Handle) (relPath : string) : res string :=
  match lastMatch mainRepoHandle relPath (walkWithResult [] r) (None, None) with
  | (_, None) => Err (Errorf "unable to get tree entry %s" [FS relPath])
  | (None, Some _) => Panic "unexpected condition"
  | (Some h, Some e) => ReadBlobObjectContent h (entryHash (treeEntry e))
  end.

End ls_tree.
End LsTree.
