(* ===== verification/LsTreeProps.v ===== *)
(** What [LsTree] lists: with a lawful matcher, the files of the commit that the matcher takes, and no
    others, in the submodules too as long as these have none of their own. *)
From S2P Require Import Prelude Go GoStd PathMatcher PathMatcherFacts PathMatcherProps LsTree.
Import PathMatcher PathMatcherFacts PathMatcherProps RepoHandle LsTree.

Module LsTreeProps.

Section props.
Context {gg : GoGit} {gq : GoQuote} {ds : Doublestar} {pms : PatternMatchers} {uf : UtilFilepaths} {up : UtilPaths} {hs : Hashes} {ss : SortSlice}.

(** * The entries of a tree *)

Definition is_file (e : TreeEntry) : Prop := Mode e <> Dir /\ Mode e <> Submodule.

(** The entries at and below a tree, which is at [q] in its repository; the paths are relative to it. *)
Inductive EntryAt : Handle -> Tree -> list string -> list string -> TreeEntry -> Prop :=
| at_here h t q e : e ∈ treeHandle_Entries t -> EntryAt h t q [Name e] e
| at_dir h t q e t' p e' : e ∈ treeHandle_Entries t -> Mode e = Dir -> Tree_Tree t (Name e) = inl t' ->
    EntryAt h t' (q ++ [Name e]) p e' -> EntryAt h t q (Name e :: p) e'
| at_submodule h t q e s t' p e' : e ∈ treeHandle_Entries t -> Mode e = Submodule ->
    Handle_Submodule h (path_of (q ++ [Name e])) = Ok s -> getSubmoduleTree s = Ok t' ->
    EntryAt (handle s) t' [] p e' -> EntryAt h t q (Name e :: p) e'.

(** All trees can be read, and are at most [n] deep. *)
Fixpoint readable (n : nat) (h : Handle) (t : Tree) (q : list string) : Prop :=
  match n with
  | 0 => False
  | S n => forall e, e ∈ treeHandle_Entries t ->
      match Mode e with
      | Dir => exists t', Tree_Tree t (Name e) = inl t' /\ readable n h t' (q ++ [Name e])
      | Submodule => exists s t', Handle_Submodule h (path_of (q ++ [Name e])) = Ok s /\ getSubmoduleTree s = Ok t' /\ readable n (handle s) t' []
      | _ => True
      end
  end.

(** What git admits as names of entries. *)
Record TreeLaws : Prop := {
  names_plain : forall t e, e ∈ Tree_Entries t -> plain e.1.1;
  names_unique : forall t, NoDup ((fun e => e.1.1) <$> Tree_Entries t);
}.

(** No submodule has submodules. *)
Definition flat (h : Handle) : Prop := forall s, s ∈ Handle_Submodules h -> Handle_Submodules (handle s) = [].

(** * What a result lists *)

Fixpoint listed (r : Result) : list LsTreeEntry :=
  match r with
  | mkResult _ _ entries submodules =>
      entries ++ (fix each (l : list SubmoduleResult) := match l with [] => [] | mkSubmoduleResult _ _ r' :: l' => listed r' ++ each l' end) submodules
  end.

Lemma listed_eq c p es subs : listed (mkResult c p es subs) = es ++ concat ((fun s => listed (result s)) <$> subs).
Proof. simpl. f_equal. induction subs as [|[n q r] subs IH]; [done|]. by rewrite fmap_cons, IH. Qed.

Definition listedFound (f : found) : list LsTreeEntry := f.1 ++ concat ((fun s => listed (result s)) <$> f.2).

Lemma elem_of_concat {A} (l : list (list A)) x : x ∈ concat l <-> exists k, k ∈ l /\ x ∈ k.
Proof. rewrite list_elem_of_In, in_concat. by setoid_rewrite list_elem_of_In. Qed.

Lemma listed_joined l x : x ∈ listedFound (joined l) <-> exists f, f ∈ l /\ x ∈ listedFound f.
Proof.
  unfold listedFound, joined. cbn [fst snd]. setoid_rewrite elem_of_app. induction l as [|f l IH].
  - simpl. split; [by intros [H%not_elem_of_nil|H%not_elem_of_nil]|intros (f & H%not_elem_of_nil & _); done].
  - rewrite !fmap_cons. cbn [concat]. rewrite fmap_app, concat_app, !elem_of_app. split.
    + intros [[H|H]|[H|H]]; [exists f; split; [by left|by left]| |exists f; split; [by left|by right]|];
        (destruct IH as [IH _]; destruct IH as (g & Hg & Hx); [tauto|exists g; split; [by right|done]]).
    + intros (g & [->|Hg]%elem_of_cons & Hx); [tauto|]. destruct IH as [_ IH]. destruct IH as [H|H]; [eauto|tauto..].
Qed.

(** * Paths *)

Lemma plain_app l k : Forall plain l -> Forall plain k -> normal (l ++ k).
Proof. intros Hl Hk. by apply plain_normal, Forall_app. Qed.

Lemma Join_name tp n : Forall plain tp -> plain n -> Filepath.Join [path_of tp; n] = path_of (tp ++ [n]).
Proof. intros Ht Hn. apply Join_path; [apply plain_app; [done|by constructor]|done]. Qed.

Lemma elements_path l : Forall elem_ok l -> l <> [] -> GoPath.elements (path_of l) = l.
Proof.
  intros Hl Hne. unfold GoPath.elements. rewrite bool_decide_eq_false_2 by (by rewrite path_of_empty).
  case_bool_decide as E; [|by apply Split_path]. exfalso. assert (Str.Split (path_of l) "/" = l) as H by by apply Split_path.
  rewrite E in H. subst l. inversion Hl as [|? ? [? _]]; done.
Qed.

Lemma path_relative l : Forall elem_ok l -> GoPath.IsAbs (path_of l) = false.
Proof.
  intros Hl. unfold GoPath.IsAbs. apply not_true_is_false. intros [t E]%Str.HasPrefix_spec. destruct l as [|x l]; [done|].
  inversion Hl as [|? ? (H1 & _ & H3) _]; subst. destruct x as [|c x]; [done|]. simpl in H3. apply orb_false_iff in H3 as [H3 _].
  apply bool_decide_eq_false in H3. destruct l; simpl in E; injection E as -> _; done.
Qed.

Lemma Rel_below b p : Forall plain b -> Forall plain p -> p <> [] -> GoPath.Rel (path_of b) (path_of (b ++ p)) = inl (path_of p).
Proof.
  intros Hb Hp Hne. pose proof (plain_app b p Hb Hp) as Hn. pose proof (normal_elems _ Hn) as He.
  pose proof He as [Heb Hep]%Forall_app. assert (b ++ p <> []) as Hbp by (destruct b; done).
  unfold GoPath.Rel. rewrite (Clean_path (b ++ p)) by done. destruct (decide (b = [])) as [->|Hb0].
  - simpl. rewrite bool_decide_eq_false_2 by (by apply path_of_not_dot). rewrite path_relative by done. simpl.
    rewrite elements_path by done. by destruct p.
  - rewrite (Clean_path b) by (done || by apply plain_normal).
    rewrite bool_decide_eq_false_2; [|intros E; apply path_of_inj in E; [|done..]; apply (f_equal length) in E; rewrite length_app in E; destruct p; simpl in *; [done|lia]].
    rewrite bool_decide_eq_false_2 by (by apply path_of_not_dot). rewrite !path_relative by done. simpl.
    rewrite !elements_path, GoPath.rests_app by done. done.
Qed.

Lemma path_inside p : Forall plain p -> p <> [] -> GoPath.outside (path_of p) = false.
Proof.
  intros Hp Hne. pose proof (normal_elems _ (plain_normal _ Hp)) as He. unfold GoPath.outside.
  rewrite bool_decide_eq_false_2 by (by apply path_of_not_dot).
  destruct p as [|x p]; [done|]. inversion Hp as [|? ? [Hx Hdd] _]; subst.
  rewrite bool_decide_eq_false_2; [|intros E; assert (x :: p = [".."]) as H by (rewrite <-(Split_path (x :: p)), E by done; done); by injection H as ->].
  cbn [orb]. apply not_true_is_false. intros [t E]%Str.HasPrefix_spec. assert (Str.Split (path_of (x :: p)) "/" = x :: p) as H by by apply Split_path.
  rewrite E in H. unfold Str.Split in H. change ("../" +:+ t) with (".." +:+ String "/" t) in H.
  rewrite Str.len_app in H. cbn [Str.len String.length plus] in H. rewrite Str.SplitN_char in H by done. by injection H as <- _.
Qed.

(** * The walk *)

Lemma res_each_Ok {A B} (f : A -> res B) l k : res_each f l = Ok k -> Forall2 (fun a b => f a = Ok b) l k.
Proof.
  revert k. induction l as [|a l IH]; intros k; simpl; [by intros [= <-]|].
  destruct (f a) as [b| |] eqn:E; simpl; [|done..]. destruct (res_each f l) as [bs| |]; simpl; [|done..].
  intros [= <-]. constructor; auto.
Qed.

Lemma res_each_total {A B} (f : A -> res B) l : (forall a, a ∈ l -> exists b, f a = Ok b) -> exists k, res_each f l = Ok k.
Proof.
  induction l as [|a l IH]; intros H; [by exists []|]. destruct (H a ltac:(by left)) as [b E], IH as [k Ek]; [intros x Hx; apply H; by right|].
  exists (b :: k). simpl. by rewrite E, Ek.
Qed.

Section walk.
Context (tlaws : TreeLaws) (opts : LsTreeOptions) (m : PathMatcher).
Hypothesis (Em : formattedPathMatcher opts = Ok m) (Hm : Lawful m).

Lemma entry_plain t e : e ∈ treeHandle_Entries t -> plain (Name e).
Proof using tlaws. intros (x & -> & Hx)%list_elem_of_fmap. by apply (names_plain tlaws) in Hx. Qed.

Lemma entry_unique t e e' : e ∈ treeHandle_Entries t -> e' ∈ treeHandle_Entries t -> Name e = Name e' -> e = e'.
Proof using tlaws.
  intros (x & -> & [i Hx]%list_elem_of_lookup)%list_elem_of_fmap (y & -> & [j Hy]%list_elem_of_lookup)%list_elem_of_fmap E.
  pose proof (names_unique tlaws t) as Hn. assert (i = j) as <-; [|congruence].
  eapply NoDup_lookup; [exact Hn| |]; rewrite list_lookup_fmap; [by rewrite Hx|rewrite Hy]. simpl. by f_equal.
Qed.

(** What happens with a directory or a submodule. *)
Lemma base_cases {A} d (add check skip : res A) : normal d ->
  (goes_through m d /\ lsTreeDirOrSubmoduleEntryMatchBase (path_of d) opts add check skip = check) \/
  (~ goes_through m d /\ matches m d /\ lsTreeDirOrSubmoduleEntryMatchBase (path_of d) opts add check skip = if AllFiles opts then check else add) \/
  (~ goes_through m d /\ ~ matches m d /\ lsTreeDirOrSubmoduleEntryMatchBase (path_of d) opts add check skip = skip).
Proof using Em Hm.
  intros Hd. unfold lsTreeDirOrSubmoduleEntryMatchBase, goes_through, matches. rewrite Em. cbn [mbind res_bind].
  destruct (through_dec m d Hd) as [-> | ->]; [by left|right]. destruct (matched_dec m d Hd) as [-> | ->]; [left|right]; done.
Qed.

(** The walk of the entry of a directory: the same on every path. *)
Lemma treeTree_spec t tp n : Forall plain tp -> plain n -> treeTree t (path_of tp) (path_of (tp ++ [n])) = treeHandle_Tree t n.
Proof using Type.
  intros Ht Hn. unfold treeTree. rewrite Rel_below by (done || by constructor).
  rewrite path_inside by (done || by constructor). done.
Qed.

Lemma treeHandle_Tree_Ok t n t' : treeHandle_Tree t n = Ok t' <-> Tree_Tree t n = inl t'.
Proof using Type. unfold treeHandle_Tree, okf. destruct (Tree_Tree t n); naive_solver. Qed.

(** What an entry stands for: a path, and all below it where it is no file. *)
Definition covers (x : LsTreeEntry) (p : list string) : Prop :=
  exists d s, FullFilepath x = path_of d /\ normal d /\ p = d ++ s /\ (s = [] \/ ~ is_file (treeEntry x)).

(** What may be listed for an entry of the tree. *)
Definition listable (h : Handle) (t : Tree) (q tp : list string) (x : LsTreeEntry) : Prop :=
  exists p e, x = mkLsTreeEntry (path_of (tp ++ p)) e /\ EntryAt h t q p e /\ Forall plain p /\ matches m (tp ++ p) /\
    (is_file e \/ (AllFiles opts = false /\ ~ goes_through m (tp ++ p))).

(** The entries at and below one entry of a tree. *)
Definition EntryFrom (h : Handle) (t : Tree) (q : list string) (e : TreeEntry) (p : list string) (e' : TreeEntry) : Prop :=
  (p = [Name e] /\ e' = e) \/
  (Mode e = Dir /\ exists t' p', p = Name e :: p' /\ Tree_Tree t (Name e) = inl t' /\ EntryAt h t' (q ++ [Name e]) p' e') \/
  (Mode e = Submodule /\ exists s t' p', p = Name e :: p' /\ Handle_Submodule h (path_of (q ++ [Name e])) = Ok s /\
     getSubmoduleTree s = Ok t' /\ EntryAt (handle s) t' [] p' e').

Lemma EntryAt_from h t q p e' : EntryAt h t q p e' <-> exists e, e ∈ treeHandle_Entries t /\ EntryFrom h t q e p e'.
Proof using Type.
  split.
  - destruct 1 as [h t q e He|h t q e t' p e' He Hd Ht H|h t q e s t' p e' He Hd Hs Ht H]; exists e; (split; [done|]); unfold EntryFrom; naive_solver.
  - intros (e & He & [[-> ->]|[(Hd & t' & p' & -> & Ht & H)|(Hd & s & t' & p' & -> & Hs & Ht & H)]]);
      [by apply at_here|by eapply at_dir|by eapply at_submodule].
Qed.

Lemma EntryAt_plain h t q p e : EntryAt h t q p e -> Forall plain p /\ p <> [].
Proof using tlaws.
  induction 1 as [h t q e He|h t q e t' p e' He _ _ _ [IH _]|h t q e s t' p e' He _ _ _ _ [IH _]];
    apply entry_plain in He; (split; [|done]); by constructor.
Qed.

Lemma EntryAt_unique h t q p e e' : EntryAt h t q p e -> EntryAt h t q p e' -> e = e'.
Proof using tlaws.
  intros H. revert e'. induction H as [h t q e He|h t q e t' p e1 He Hd Ht H IH|h t q e s t' p e1 He Hd Hs Ht H IH];
    intros e' (d & Hin & [[E Ed]|[(Hd' & t2 & p2 & E & Ht' & H')|(Hd' & s2 & t2 & p2 & E & Hs' & Ht' & H')]])%EntryAt_from; injection E as E; subst.
  - by apply (entry_unique t).
  - by apply EntryAt_plain in H' as [_ []].
  - by apply EntryAt_plain in H' as [_ []].
  - by apply EntryAt_plain in H as [_ []].
  - apply (entry_unique t e d He Hin) in E as <-. apply IH. congruence.
  - apply (entry_unique t e d He Hin) in E as <-. congruence.
  - by apply EntryAt_plain in H as [_ []].
  - apply (entry_unique t e d He Hin) in E as <-. congruence.
  - apply (entry_unique t e d He Hin) in E as <-. rewrite Hs in Hs'. injection Hs' as <-. rewrite Ht in Ht'. injection Ht' as <-. by apply IH.
Qed.

(** What has to be found for one entry, and for a tree. *)
Definition entry_ok (h : Handle) (t : Tree) (q tp : list string) (e : TreeEntry) (f : found) : Prop :=
  (Handle_Submodules h = [] -> f.2 = []) /\
  (forall x, x ∈ listedFound f -> listable h t q tp x) /\
  (flat h -> forall p e', EntryFrom h t q e p e' -> is_file e' -> matches m (tp ++ p) ->
     exists x, x ∈ listedFound f /\ covers x (tp ++ p)).

Definition tree_ok (h : Handle) (t : Tree) (q tp : list string) (f : found) : Prop :=
  (Handle_Submodules h = [] -> f.2 = []) /\
  (forall x, x ∈ listedFound f -> listable h t q tp x) /\
  (flat h -> forall p e', EntryAt h t q p e' -> is_file e' -> matches m (tp ++ p) ->
     exists x, x ∈ listedFound f /\ covers x (tp ++ p)).

(** A directory or a submodule is as good as what is found where it is gone through. *)
Lemma base_entry h t q tp e check f : Forall plain tp -> e ∈ treeHandle_Entries t -> ~ is_file e ->
  lsTreeDirOrSubmoduleEntryMatchBase (path_of (tp ++ [Name e])) opts
    (Ok ([mkLsTreeEntry (path_of (tp ++ [Name e])) e], [])) check (Ok ([], [])) = Ok f ->
  (check = Ok f -> entry_ok h t q tp e f) -> entry_ok h t q tp e f.
Proof using tlaws Em Hm.
  intros Htp He Hf H Hc. pose proof (entry_plain t e He) as Hn. assert (normal (tp ++ [Name e])) as Hd by (apply plain_app; [done|by constructor]).
  destruct (base_cases (tp ++ [Name e]) (Ok ([mkLsTreeEntry (path_of (tp ++ [Name e])) e], [])) check (Ok ([], [])) Hd) as [[Hg E]|[(Hg & Hma & E)|(Hg & Hma & E)]];
    rewrite E in H; [auto| |].
  - destruct (AllFiles opts) eqn:Ea; [auto|]. injection H as <-. split; [done|]. split.
    + intros x Hx. cbn in Hx. apply list_elem_of_singleton in Hx as ->. exists [Name e], e. split; [done|].
      split; [by apply at_here|]. split; [by constructor|]. split; [done|]. by right.
    + intros _ p e' Hp Hfe _. exists (mkLsTreeEntry (path_of (tp ++ [Name e])) e). split; [by left|].
      assert (exists p', p = Name e :: p') as [p' ->] by (destruct Hp as [[-> _]|[(_ & t' & p' & -> & _)|(_ & s & t' & p' & -> & _)]]; eauto).
      exists (tp ++ [Name e]), p'. split; [done|]. split; [done|]. split; [by rewrite <-app_assoc|by right].
  - injection H as <-. split; [done|]. split; [intros x Hx; cbn in Hx; by apply not_elem_of_nil in Hx|].
    intros _ p e' Hp Hfe Hmp. exfalso.
    assert (exists y p', p = Name e :: y :: p' /\ Forall plain (y :: p')) as (y & p' & -> & Hy).
    { destruct Hp as [[-> ->]|[(_ & t' & p' & -> & _ & H)|(_ & s & t' & p' & -> & _ & _ & H)]]; [done|..];
        apply EntryAt_plain in H as [H1 H2]; (destruct p' as [|y p']; [done|eauto]). }
    change (tp ++ Name e :: y :: p') with (tp ++ [Name e] ++ y :: p') in Hmp. rewrite app_assoc in Hmp.
    destruct (lawful_prune (tp ++ [Name e]) y p') as [H1|H1]; [|done..].
    apply plain_app; [|done]. apply Forall_app. split; [done|by constructor].
Qed.

(** What the walk of a directory or of a submodule has to do. *)
Definition walk_ok (walk : walkFunc) : Prop := forall h t rp q f, Forall plain rp -> Forall plain q ->
  walk h t (path_of rp) (path_of (rp ++ q)) opts = Ok f -> tree_ok h t q (rp ++ q) f.

Lemma file_entry h t q tp e f : Forall plain tp -> e ∈ treeHandle_Entries t -> is_file e ->
  lsTreeFileEntryMatch (mkLsTreeEntry (path_of (tp ++ [Name e])) e) opts = Ok f -> entry_ok h t q tp e f.
Proof using tlaws Em Hm.
  intros Htp He Hf H. pose proof (entry_plain t e He) as Hn. assert (normal (tp ++ [Name e])) as Hd by (apply plain_app; [done|by constructor]).
  unfold lsTreeFileEntryMatch in H. rewrite Em in H. cbn [mbind res_bind FullFilepath] in H.
  destruct (matched_dec m _ Hd) as [E|E]; rewrite E in H; injection H as <-; (split; [done|]).
  - split; [intros x Hx; cbn in Hx; apply list_elem_of_singleton in Hx as ->; exists [Name e], e|].
    + split; [done|]. split; [by apply at_here|]. split; [by constructor|]. split; [done|by left].
    + intros _ p e' [[-> ->]|[(Hd' & _)|(Hd' & _)]] _ _; [|by destruct Hf..]. exists (mkLsTreeEntry (path_of (tp ++ [Name e])) e).
      split; [by left|]. exists (tp ++ [Name e]), []. split; [done|]. split; [done|]. split; [by rewrite app_nil_r|by left].
  - split; [intros x Hx; cbn in Hx; by apply not_elem_of_nil in Hx|].
    intros _ p e' [[-> ->]|[(Hd' & _)|(Hd' & _)]] _ Hma; [|by destruct Hf..]. unfold matches in Hma. congruence.
Qed.

Lemma listable_below h t q tp n q' h' t' x :
  (forall p e, EntryAt h' t' q' p e -> EntryAt h t q (n :: p) e) -> plain n ->
  listable h' t' q' (tp ++ [n]) x -> listable h t q tp x.
Proof using Type.
  intros H Hn (p & e & -> & Hat & Hp & Hma & Hk). rewrite <-!app_assoc in *. exists (n :: p), e. split; [done|].
  split; [auto|]. split; [by constructor|]. by split.
Qed.

Lemma dir_entry walk h t rp q e f : walk_ok walk -> Forall plain rp -> Forall plain q -> e ∈ treeHandle_Entries t -> Mode e = Dir ->
  lsTreeDirEntryMatch walk h t (path_of rp) (path_of (rp ++ q)) (mkLsTreeEntry (path_of ((rp ++ q) ++ [Name e])) e) opts = Ok f ->
  entry_ok h t q (rp ++ q) e f.
Proof using tlaws Em Hm.
  intros Hw Hrp Hq He Hd H. pose proof (entry_plain t e He) as Hn. assert (Forall plain (rp ++ q)) as Htp by by apply Forall_app.
  assert (~ is_file e) as Hnf by (by intros [? _]). eapply base_entry; [done|done|done|exact H|]. clear H. cbn [FullFilepath].
  rewrite treeTree_spec by done. intros H. destruct (treeHandle_Tree t (Name e)) as [t'| |] eqn:Et; [|done..]. cbn [mbind res_bind] in H.
  apply treeHandle_Tree_Ok in Et. rewrite <-app_assoc in H.
  destruct (Hw h t' rp (q ++ [Name e]) f Hrp) as (H1 & H2 & H3); [by apply Forall_app; split; [|constructor]|done|].
  rewrite app_assoc in H2, H3. split; [done|]. split.
  - intros x Hx. eapply listable_below; [|done|by apply H2]. intros p e' Hp. by eapply at_dir.
  - intros Hfl p e' [[-> ->]|[(_ & t'' & p' & -> & Ht & Hat)|(Hs & _)]] Hf Hma; [done| |congruence].
    rewrite Et in Ht. injection Ht as <-. destruct (H3 Hfl p' e' Hat Hf) as (x & Hx & Hc); [by rewrite <-app_assoc|].
    exists x. split; [done|]. by rewrite <-app_assoc in Hc.
Qed.

Lemma listed_submodule f c p n sp : f.1 <> [] -> listedFound ([], [mkSubmoduleResult n sp (mkResult c p f.1 f.2)]) = listedFound f.
Proof using Type. intros _. unfold listedFound. cbn [fst snd]. rewrite fmap_cons. cbn [result concat app fmap list_fmap]. by rewrite listed_eq, app_nil_r. Qed.

Lemma submodule_entry walk h t rp q e f : walk_ok walk -> Forall plain rp -> Forall plain q -> e ∈ treeHandle_Entries t -> Mode e = Submodule ->
  lsTreeSubmoduleEntryMatch walk h (path_of rp) (mkLsTreeEntry (path_of ((rp ++ q) ++ [Name e])) e) opts = Ok f ->
  entry_ok h t q (rp ++ q) e f.
Proof using tlaws Em Hm.
  intros Hw Hrp Hq He Hd H. pose proof (entry_plain t e He) as Hn. assert (Forall plain (rp ++ q)) as Htp by by apply Forall_app.
  assert (~ is_file e) as Hnf by (by intros [_ ?]). assert (Forall plain (q ++ [Name e])) as Hqe by (by apply Forall_app; split; [|constructor]).
  eapply base_entry; [done|done|done|exact H|]. clear H. cbn [FullFilepath].
  rewrite <-app_assoc, Rel_below, path_inside by (done || by destruct q). unfold Filepath.ToSlash. intros H.
  destruct (Handle_Submodule h (path_of (q ++ [Name e]))) as [s| |] eqn:Es; [|done..]. cbn [mbind res_bind] in H.
  destruct (getSubmoduleTree s) as [t'| |] eqn:Et; [|done..]. cbn [mbind res_bind] in H.
  destruct (walk _ _ _ _ _) as [g| |] eqn:Eg; [|done..]. cbn [mbind res_bind] in H.
  destruct (Hw (handle s) t' (rp ++ q ++ [Name e]) [] g) as (H1 & H2 & H3); [by apply Forall_app|constructor|by rewrite app_nil_r|].
  rewrite app_nil_r in H2, H3.
  assert (s ∈ Handle_Submodules h) as Hin.
  { unfold Handle_Submodule in Es. destruct (List.find _ _) eqn:Ef; [|done]. injection Es as ->. apply find_some in Ef as [Ef _]. by apply list_elem_of_In. }
  split; [intros Hh; rewrite Hh in Hin; by apply not_elem_of_nil in Hin|].
  assert (flat h -> listedFound f = listedFound g) as Hsame.
  { intros Hfl. destruct (g.1) as [|y ys] eqn:Eg1; injection H as <-.
    - unfold listedFound. rewrite Eg1, (H1 (Hfl s Hin)). done.
    - rewrite <-Eg1. apply listed_submodule. by rewrite Eg1. }
  assert (forall x, x ∈ listedFound f -> x ∈ listedFound g) as Hsub.
  { intros x. destruct (g.1) as [|y ys] eqn:Eg1; injection H as <-; [intros Hx; by apply not_elem_of_nil in Hx|].
    rewrite <-Eg1, listed_submodule; [done|]. by rewrite Eg1. }
  split.
  - intros x Hx. apply (listable_below h t q (rp ++ q) (Name e) [] (handle s) t'); [|done|].
    + intros p e' Hp. by eapply at_submodule.
    + rewrite <-app_assoc. by apply H2, Hsub.
  - intros Hfl p e' [[-> ->]|[(Hs & _)|(_ & s' & t'' & p' & -> & Hs & Ht & Hat)]] Hf Hma; [done|congruence|].
    rewrite Es in Hs. injection Hs as <-. rewrite Et in Ht. injection Ht as <-.
    destruct (H3 ltac:(intros s' Hs'; rewrite (Hfl s Hin) in Hs'; by apply not_elem_of_nil in Hs') p' e' Hat Hf) as (x & Hx & Hc); [by rewrite <-!app_assoc in *|].
    exists x. rewrite (Hsame Hfl). split; [done|]. by rewrite <-!app_assoc in *.
Qed.

Lemma walk_entry walk h t rp q e f : walk_ok walk -> Forall plain rp -> Forall plain q -> e ∈ treeHandle_Entries t ->
  lsTreeEntryMatch walk h t (path_of rp) (path_of (rp ++ q)) (mkLsTreeEntry (path_of ((rp ++ q) ++ [Name e])) e) opts = Ok f ->
  entry_ok h t q (rp ++ q) e f.
Proof using tlaws Em Hm.
  intros Hw Hrp Hq He. assert (Forall plain (rp ++ q)) as Htp by by apply Forall_app.
  assert (is_file e -> lsTreeFileEntryMatch (mkLsTreeEntry (path_of ((rp ++ q) ++ [Name e])) e) opts = Ok f -> entry_ok h t q (rp ++ q) e f) as Hfile by (by apply file_entry).
  unfold lsTreeEntryMatch. cbn [treeEntry]. unfold is_file in Hfile. destruct (Mode e) eqn:Ee; auto; [by apply dir_entry|by apply submodule_entry].
Qed.

Lemma lsTreeWalk_ok n : walk_ok (lsTreeWalk n).
Proof using tlaws Em Hm.
  induction n as [|n IH]; intros h t rp q f Hrp Hq; [done|]. cbn [lsTreeWalk].
  assert (Forall plain (rp ++ q)) as Htp by by apply Forall_app.
  destruct (res_each _ _) as [l| |] eqn:El; [|done..]. cbn [mbind res_bind]. intros [= <-].
  apply res_each_Ok in El.
  assert (Forall2 (entry_ok h t q (rp ++ q)) (treeHandle_Entries t) l) as Hl.
  { apply Forall2_same_length_lookup. pose proof El as [Hlen Hlk]%Forall2_same_length_lookup. split; [done|].
    intros i e g He Hg. specialize (Hlk i e g He Hg). apply list_elem_of_lookup_2 in He.
    rewrite Join_name in Hlk by (done || by eapply entry_plain). by eapply walk_entry. }
  split; [|split].
  - intros Hh. unfold joined. cbn [snd]. clear El. induction Hl as [|e g es l (Hg & _) _ IHl]; [done|]. rewrite fmap_cons. cbn [concat]. by rewrite Hg, IHl.
  - intros x (g & Hg & Hx)%listed_joined. apply list_elem_of_lookup in Hg as [i Hg].
    destruct (Forall2_lookup_r _ _ _ _ _ Hl Hg) as (e & _ & _ & Hs & _). by apply Hs.
  - intros Hfl p e' (e & He & Hfrom)%EntryAt_from Hf Hma. apply list_elem_of_lookup in He as [i He].
    destruct (Forall2_lookup_l _ _ _ _ _ Hl He) as (g & Hg & _ & _ & Hc). destruct (Hc Hfl p e' Hfrom Hf Hma) as (x & Hx & Hcov).
    exists x. split; [|done]. apply listed_joined. exists g. split; [by eapply list_elem_of_lookup_2|done].
Qed.

(** ** What is listed is taken *)

Definition whole (x : LsTreeEntry) : Prop := exists p, FullFilepath x = path_of p /\ normal p /\ matches m p /\
  (is_file (treeEntry x) \/ (AllFiles opts = false /\ ~ goes_through m p)).

Lemma listable_whole h t q tp x : Forall plain tp -> listable h t q tp x -> whole x.
Proof using Type. intros Htp (p & e & -> & _ & Hp & Hma & Hk). exists (tp ++ p). split; [done|]. split; [by apply plain_app|]. by split. Qed.

Lemma covers_matches x p : whole x -> covers x p -> normal p -> matches m p.
Proof using Hm.
  intros (p' & E & Hp' & Hma & Hk) (d & s & Ed & Hd & -> & Hs) Hn. rewrite E in Ed. apply path_of_inj in Ed; [|by apply normal_elems..]. subst d.
  destruct Hs as [->|Hs]; [by rewrite app_nil_r|]. destruct Hk as [?|[_ Hg]]; [done|]. by apply lawful_whole.
Qed.

Lemma covers_file x p : whole x -> AllFiles opts = true -> covers x p -> FullFilepath x = path_of p.
Proof using Type. intros (p' & _ & _ & _ & [Hf|[Ha _]]) HA (d & s & E & _ & -> & [->|Hs]); [by rewrite app_nil_r|done|congruence..]. Qed.

(** ** Enough fuel *)

Lemma total_base {A} d (add check skip : res A) : normal d ->
  (exists f, add = Ok f) -> (exists f, check = Ok f) -> (exists f, skip = Ok f) ->
  exists f, lsTreeDirOrSubmoduleEntryMatchBase (path_of d) opts add check skip = Ok f.
Proof using Em Hm.
  intros Hd Ha Hc Hs. destruct (base_cases d add check skip Hd) as [[_ ->]|[(_ & _ & ->)|(_ & _ & ->)]]; [done| |done]. by destruct (AllFiles opts).
Qed.

Lemma lsTreeWalk_total n : forall k h t rp q, n <= k -> readable n h t q -> Forall plain rp -> Forall plain q ->
  exists f, lsTreeWalk k h t (path_of rp) (path_of (rp ++ q)) opts = Ok f.
Proof using tlaws Em Hm.
  induction n as [|n IH]; intros k h t rp q Hk Hr Hrp Hq; [done|]. destruct k as [|k]; [lia|]. cbn [lsTreeWalk].
  assert (Forall plain (rp ++ q)) as Htp by by apply Forall_app.
  edestruct (res_each_total (fun treeEntry => lsTreeEntryMatch (lsTreeWalk k) h t (path_of rp) (path_of (rp ++ q))
    (mkLsTreeEntry (Filepath.Join [path_of (rp ++ q); Name treeEntry]) treeEntry) opts) (treeHandle_Entries t)) as [l El]; [|rewrite El; by eexists].
  intros e He. pose proof (entry_plain t e He) as Hn. rewrite Join_name by done.
  assert (normal ((rp ++ q) ++ [Name e])) as Hd by (apply plain_app; [done|by constructor]).
  assert (Forall plain (q ++ [Name e])) as Hqe by (by apply Forall_app; split; [|constructor]).
  assert (exists f, lsTreeFileEntryMatch (mkLsTreeEntry (path_of ((rp ++ q) ++ [Name e])) e) opts = Ok f) as Hfile.
  { unfold lsTreeFileEntryMatch. rewrite Em. cbn [mbind res_bind FullFilepath]. destruct (matched_dec m _ Hd) as [-> | ->]; by eexists. }
  specialize (Hr e He). unfold lsTreeEntryMatch. cbn [treeEntry]. destruct (Mode e); try done.
  - unfold lsTreeDirEntryMatch. cbn [FullFilepath]. apply total_base; [done|by eexists| |by eexists].
    destruct Hr as (t' & Et & Hr). rewrite treeTree_spec by done. apply treeHandle_Tree_Ok in Et as ->. cbn [mbind res_bind].
    rewrite <-app_assoc. apply IH; [lia|done..].
  - unfold lsTreeSubmoduleEntryMatch. cbn [FullFilepath]. apply total_base; [done|by eexists| |by eexists].
    destruct Hr as (s & t' & Es & Et & Hr). rewrite <-app_assoc, Rel_below, path_inside by (done || by destruct q).
    unfold Filepath.ToSlash. rewrite Es. cbn [mbind res_bind]. rewrite Et. cbn [mbind res_bind].
    destruct (IH k (handle s) t' (rp ++ q ++ [Name e]) [] ltac:(lia) Hr) as [f E]; [by apply Forall_app|constructor|].
    rewrite app_nil_r in E. rewrite E. by eexists.
Qed.

End walk.

(** * The order of a walk *)

Lemma Result_induct (P : Result -> Prop) :
  (forall c p es subs, Forall (fun s => P (result s)) subs -> P (mkResult c p es subs)) -> forall r, P r.
Proof.
  intros H. fix IH 1. intros [c p es subs]. apply H. induction subs as [|[n q r] subs IHs]; constructor; [apply IH|done].
Qed.

Lemma byRepository_perm {A} (l : list (string * A)) : byRepository l ≡ₚ snd <$> l.
Proof. unfold byRepository. by rewrite sort_perm. Qed.

Lemma concat_perm {A} (l k : list (list A)) : l ≡ₚ k -> concat l ≡ₚ concat k.
Proof.
  induction 1 as [|x l k _ IH|x y l|l k j _ IH1 _ IH2]; simpl; [done|by rewrite IH| |by rewrite IH1].
  rewrite !app_assoc. f_equiv. apply Permutation_app_comm.
Qed.

(** The walk lists what the result has. *)
Lemma Walk_listed r parents : snd <$> walkWithResult parents r ≡ₚ listed r.
Proof.
  revert parents. induction r as [c p es subs IH] using Result_induct. intros parents. rewrite listed_eq. cbn [walkWithResult].
  rewrite fmap_app. f_equiv; [rewrite <-list_fmap_compose; unfold byFullFilepath; rewrite sort_perm; apply reflexive_eq; apply list_fmap_id|].
  rewrite (concat_perm _ _ (byRepository_perm _)).
  induction IH as [|[n q r] subs H _ IHs]; [done|]. rewrite !fmap_cons. cbn [concat snd result]. rewrite fmap_app. f_equiv; [|done].
  rewrite <-list_fmap_compose. apply H.
Qed.

(** * [LsTree] *)

(** Whether the matcher of the options takes a path. *)
Definition taken (opts : LsTreeOptions) (p : list string) : Prop :=
  match LsPathMatcher opts with Some m => matches m p | None => True end.

Definition lawful_options (opts : LsTreeOptions) : Prop := forall m, LsPathMatcher opts = Some m -> Lawful m.

Lemma multi_matches l p : (forall m, m ∈ l -> Lawful m) -> normal p -> matches (MultiPathMatcher l) p <-> forall m, m ∈ l -> matches m p.
Proof.
  intros Hl Hp. destruct (multi_matched l Hl p _ Hp (formatPath_path p Hp)) as (b & E & Hb). unfold matches at 1. rewrite E, <-Hb. by destruct b.
Qed.

Lemma root_matcher opts : formattedPathScope opts = "" -> lawful_options opts ->
  exists m, formattedPathMatcher opts = Ok m /\ Lawful m /\ forall p, normal p -> matches m p <-> taken opts p.
Proof.
  intros Es Hl. unfold formattedPathMatcher. rewrite Es. eexists. split; [done|]. unfold NewMultiPathMatcher. simpl app.
  set (m0 := MultiPathMatcher [TruePathMatcher]).
  assert (Lawful m0) as H0 by (apply (multi_lawful [TruePathMatcher]), TCForall_Forall; repeat constructor; apply true_lawful).
  assert (forall m, m ∈ m0 :: match LsPathMatcher opts with Some m' => [m'] | None => [] end -> Lawful m) as Hall.
  { intros m [->|Hm]%elem_of_cons; [done|]. destruct (LsPathMatcher opts) eqn:E; [|by apply not_elem_of_nil in Hm].
    apply list_elem_of_singleton in Hm as ->. by apply Hl. }
  split; [by apply multi_lawful_list|]. intros p Hp. rewrite multi_matches by done. unfold taken. split.
  - intros H. destruct (LsPathMatcher opts) as [m|]; [|done]. apply H. right. by left.
  - intros H m [->|Hm]%elem_of_cons; [by vm_compute|]. destruct (LsPathMatcher opts); [|by apply not_elem_of_nil in Hm].
    by apply list_elem_of_singleton in Hm as ->.
Qed.

(** What is found from the root on. *)
Lemma root_found n h t opts m f : TreeLaws -> formattedPathMatcher opts = Ok m -> Lawful m -> flat h ->
  lsTreeWalk n h t "" "" opts = Ok f -> exists g,
  lsTreeDirOrSubmoduleEntryMatchBase "" opts (Ok ([rootTreeEntry t], [])) (Ok f) (Ok ([], [])) = Ok g /\
  (forall x, x ∈ listedFound g -> whole opts m x /\ (AllFiles opts = true -> listable opts m h t [] [] x)) /\
  (forall p e, EntryAt h t [] p e -> is_file e -> matches m p -> exists x, x ∈ listedFound g /\ covers x p).
Proof.
  intros tlaws Em Hm Hfl Ef. destruct (lsTreeWalk_ok tlaws opts m Em Hm n h t [] [] f) as (_ & H2 & H3); [constructor..|done|].
  assert (forall x, x ∈ listedFound f -> whole opts m x /\ (AllFiles opts = true -> listable opts m h t [] [] x)) as H2'.
  { intros x Hx. split; [|intros _; by apply H2]. eapply listable_whole; [|by apply H2]. constructor. }
  destruct (base_cases opts m Em Hm [] (Ok ([rootTreeEntry t], [])) (Ok f) (Ok ([], []))) as [[Hg E]|[(Hg & Hma & E)|(Hg & Hma & E)]]; [done| | |];
    change "" with (path_of []); rewrite E.
  - exists f. split; [done|]. split; [done|]. intros p e Hat Hf Hp. by apply (H3 Hfl p e).
  - destruct (AllFiles opts) eqn:Ea; [exists f; split; [done|]; split; [done|]; intros p e Hat Hf Hp; by apply (H3 Hfl p e)|].
    eexists. split; [done|]. split.
    + intros x Hx. cbn in Hx. apply list_elem_of_singleton in Hx as ->. split; [|done].
      exists []. split; [done|]. split; [done|]. split; [done|by right].
    + intros p e _ _ _. exists (rootTreeEntry t). split; [by left|]. exists [], p. split; [done|]. split; [done|]. split; [done|].
      right. by intros [? _].
  - eexists. split; [done|]. split; [intros x Hx; cbn in Hx; by apply not_elem_of_nil in Hx|].
    intros p e Hat _ Hp. exfalso. apply (EntryAt_plain tlaws) in Hat as [Hpl Hne]. destruct p as [|y p]; [done|].
    destruct (lawful_prune [] y p) as [H1|H1]; [by apply plain_normal|done..].
Qed.

(** C29: With a matcher that is lawful and no path scope, in a repository whose trees can be read, [LsTree]
    returns, whatever the fuel above their depth: a file is listed, or below a directory or a submodule that is
    listed, if the matcher takes its path, and only then; with [AllFiles] the list is that of these
    files. Submodules of submodules are excepted. *)
Theorem LsTree_lists n k h commit opts t : TreeLaws -> formattedPathScope opts = "" -> lawful_options opts ->
  GetCommitTree h (NewHash commit) = Ok t -> readable n h t [] -> n <= k -> flat h ->
  exists r, LsTree k h commit opts = Ok r /\
    (forall p e, EntryAt h t [] p e -> is_file e -> (exists x, x ∈ Walk r /\ covers x p) <-> taken opts p) /\
    (AllFiles opts = true -> forall x, x ∈ Walk r <->
       exists p e, x = mkLsTreeEntry (path_of p) e /\ EntryAt h t [] p e /\ is_file e /\ taken opts p).
Proof.
  intros tlaws Es Hl Et Hr Hk Hfl. destruct (root_matcher opts Es Hl) as (m & Em & Hm & Hta).
  destruct (lsTreeWalk_total tlaws opts m Em Hm n k h t [] [] Hk Hr) as [f Ef]; [constructor..|].
  destruct (root_found k h t opts m f tlaws Em Hm Hfl Ef) as (g & Eg & Hs & Hc).
  exists (mkResult commit "" g.1 g.2). assert (forall x, x ∈ Walk (mkResult commit "" g.1 g.2) <-> x ∈ listedFound g) as Hw.
  { intros x. unfold Walk. by rewrite Walk_listed, listed_eq. }
  assert (forall p e, EntryAt h t [] p e -> normal p) as Hn by (intros p e Hat; by apply (EntryAt_plain tlaws) in Hat as [? _]; apply plain_normal).
  split; [|split].
  - unfold LsTree. rewrite Et, Es. cbn [mbind res_bind]. rewrite bool_decide_eq_false_2 by (by intros []).
    change (lsTreeWalk k h t "" "" opts) with (lsTreeWalk k h t (path_of []) (path_of ([] ++ [])) opts). by rewrite Ef, Eg.
  - intros p e Hat Hf. rewrite <-Hta by eauto. setoid_rewrite Hw. split; [|by eauto].
    intros (x & Hx & Hcov). apply Hs in Hx as [Hx _]. by eapply covers_matches; eauto.
  - intros Ha x. rewrite Hw. split.
    + intros Hx. destruct (Hs x Hx) as [_ Hx']. destruct (Hx' Ha) as (p & e & -> & Hat & Hp & Hma & [Hf|[? _]]); [|congruence].
      exists p, e. split; [done|]. split; [done|]. split; [done|]. apply Hta; eauto.
    + intros (p & e & -> & Hat & Hf & Hma). apply Hta in Hma; [|by eauto]. destruct (Hc p e Hat Hf Hma) as (x & Hx & Hcov).
      destruct (Hs x Hx) as [Hwh Hlst]. pose proof (covers_file _ _ x p Hwh Ha Hcov) as E.
      destruct (Hlst Ha) as (p' & e' & -> & Hat' & _). simpl in E. apply path_of_inj in E; [|by apply normal_elems; eauto..]. subst p'.
      by rewrite (EntryAt_unique tlaws _ _ _ _ _ _ Hat Hat').
Qed.

End props.
End LsTreeProps.
