(* ===== verification/GitStatus.v ===== *)
(** pkg/true_git/status, and what pkg/git_repo/local.go makes of it: the paths that changed in the index
    and in the work tree, and those that git does not track, as [git status --porcelain=v2] prints them;
    and whether any of them is one that a matcher takes. *)
From S2P Require Import Prelude Go GoStd GitScan PathMatcher.
Import PathMatcher.

Module GitStatus.

(** * Lines and fields *)

(** [bufio.Scanner] with [ScanLines]; lines are shorter than its buffer. *)
Definition scanLines (out : string) : list string :=
  (fun l => Str.TrimSuffix l (String "013" "")) <$>
    match List.rev (Str.Split out (String "010" "")) with
    | "" :: l => List.rev l
    | l => List.rev l
    end.

(** The number of bytes of the white space that a string begins with: that of [unicode.IsSpace]. *)
Definition spaceLen (s : string) : nat :=
  match s with
  | String c s' =>
      if (bool_decide (c = " "%char) || ((9 <=? Ascii.nat_of_ascii c) && (Ascii.nat_of_ascii c <=? 13))) then 1
      else
        let after p := Str.HasPrefix s p in
        let utf8 := List.map Ascii.ascii_of_nat in
        if after (String.string_of_list_ascii (utf8 [194; 133])) || after (String.string_of_list_ascii (utf8 [194; 160])) then 2
        else if after (String.string_of_list_ascii (utf8 [225; 154; 128])) || after (String.string_of_list_ascii (utf8 [226; 129; 159])) ||
                after (String.string_of_list_ascii (utf8 [227; 128; 128])) ||
                existsb (fun n => after (String.string_of_list_ascii (utf8 [226; 128; n])))
                  [128; 129; 130; 131; 132; 133; 134; 135; 136; 137; 138; 168; 169; 175] then 3
        else 0
  | "" => 0
  end.

(** [strings.Fields]: [skip] bytes are left of a white space, [field] is the field so far. *)
Fixpoint fieldsFrom (skip : nat) (field : string) (s : string) : list string :=
  match s with
  | "" => if bool_decide (field = "") then [] else [field]
  | String c s' =>
      match skip with
      | S skip => fieldsFrom skip field s'
      | 0 =>
          match spaceLen s with
          | 0 => fieldsFrom 0 (field +:+ String c "") s'
          | S skip => (if bool_decide (field = "") then [] else [field]) ++ fieldsFrom skip "" s'
          end
      end
  end.

Definition Fields (s : string) : list string := fieldsFrom 0 "" s.

(** Indexing that panics out of range. *)
Definition at_ (l : list string) (n : nat) : res string :=
  match l !! n with Some s => Ok s | None => Panic "index out of range" end.
Definition byte_at (s : string) (n : nat) : res Ascii.ascii :=
  match String.get n s with Some c => Ok c | None => Panic "index out of range" end.
Definition from (l : list string) (n : nat) : res (list string) :=
  if bool_decide (n <= length l) then Ok (drop n l) else Panic "slice bounds out of range".

(** * The result *)

Record submodule := mkSubmodule {
  Path : string; IsAdded : bool; IsDeleted : bool; IsModified : bool;
  HasUntrackedChanges : bool; HasTrackedChanges : bool; IsCommitChanged : bool;
}.

Record Scope := mkScope { PathList : list string; Submodules : list submodule }.

Record Result := mkResult { Index : Scope; checksum : string; Worktree : Scope; UntrackedPathList : list string }.

Definition empty : Result := mkResult (mkScope [] []) "" (mkScope [] []) [].

Section status.
Context `{!GoQuote, !Doublestar, !PatternMatchers, !UtilFilepaths, !UtilPaths, !Hashes, !StringArrays}.
(** [util.LegacyMurmurHash]. *)
Variable LegacyMurmurHash : list string -> string.

Definition IndexWithWorktree (r : Result) : Scope :=
  mkScope (AddNewStringsToStringArray (AddNewStringsToStringArray [] (PathList (Index r))) (PathList (Worktree r)))
          (Submodules (Index r) ++ Submodules (Worktree r)).

(** The loop over the paths, with the ones that came before. *)
Fixpoint unseen (seen l : list string) : list string :=
  match l with
  | [] => []
  | path :: l' => if bool_decide (path ∈ seen) then unseen seen l' else path :: unseen (path :: seen) l'
  end.

Definition PathListWithSubmodules (r : Result) : list string :=
  unseen [] (PathList (IndexWithWorktree r) ++ (Path <$> Submodules (IndexWithWorktree r)) ++ UntrackedPathList r).

Definition addToChecksum (checksum : string) (a : list string) : string := LegacyMurmurHash (checksum :: a).

Definition add_index_path (path : string) (a : list string) (r : Result) : Result :=
  mkResult (mkScope (PathList (Index r) ++ [path]) (Submodules (Index r))) (addToChecksum (checksum r) a) (Worktree r) (UntrackedPathList r).
Definition add_index_submodule (s : submodule) (a : list string) (r : Result) : Result :=
  mkResult (mkScope (PathList (Index r)) (Submodules (Index r) ++ [s])) (addToChecksum (checksum r) a) (Worktree r) (UntrackedPathList r).
Definition add_worktree_path (path : string) (r : Result) : Result :=
  mkResult (Index r) (checksum r) (mkScope (PathList (Worktree r) ++ [path]) (Submodules (Worktree r))) (UntrackedPathList r).
Definition add_worktree_submodule (s : submodule) (r : Result) : Result :=
  mkResult (Index r) (checksum r) (mkScope (PathList (Worktree r)) (Submodules (Worktree r) ++ [s])) (UntrackedPathList r).
Definition add_untracked (path : string) (r : Result) : Result :=
  mkResult (Index r) (checksum r) (Worktree r) (UntrackedPathList r ++ [path]).

Abbreviation unmodified := "."%char.

(** * Entries *)

Record ordinaryEntry := mkOrdinaryEntry { xy : string; sub : string; mi : string; hI : string; path : string; raw : string }.

Definition parseOrdinaryRegularFileEntry (r : Result) (entry : ordinaryEntry) : res Result :=
  if negb (Str.len (xy entry) =? 2) then Err (Errorf "invalid git status ordinary <XY> field: %q (%q)" [FQ (raw entry); FQ (xy entry)])
  else
    stageCode ← byte_at (xy entry) 0;
    worktreeCode ← byte_at (xy entry) 1;
    let r := if bool_decide (stageCode <> unmodified) then add_index_path (path entry) [path entry; mi entry; hI entry] r else r in
    Ok (if bool_decide (worktreeCode <> unmodified) then add_worktree_path (path entry) r else r).

Definition parseOrdinarySubmoduleEntry (r : Result) (entry : ordinaryEntry) : res Result :=
  if negb (Str.len (sub entry) =? 4) then Err (Errorf "invalid git status ordinary <sub> field: %q (%q)" [FQ (raw entry); FQ (sub entry)])
  else
    stageCode ← byte_at (xy entry) 0;
    worktreeCode ← byte_at (xy entry) 1;
    commitChangedCode ← byte_at (sub entry) 1;
    trackedChangesCode ← byte_at (sub entry) 2;
    untrackedChangesCode ← byte_at (sub entry) 3;
    let newSubmodule (scopeCode : Ascii.ascii) :=
      mkSubmodule (path entry) (bool_decide (scopeCode = "A"%char)) (bool_decide (scopeCode = "D"%char)) (bool_decide (scopeCode = "M"%char))
        (bool_decide (untrackedChangesCode <> unmodified)) (bool_decide (trackedChangesCode <> unmodified))
        (bool_decide (commitChangedCode <> unmodified)) in
    let r := if bool_decide (stageCode <> unmodified) then add_index_submodule (newSubmodule stageCode) [path entry; mi entry; hI entry] r else r in
    Ok (if bool_decide (worktreeCode <> unmodified) then add_worktree_submodule (newSubmodule worktreeCode) r else r).

Definition parseOrdinaryEntry (r : Result) (entryLine : string) : res Result :=
  let fields := Str.Split entryLine " " in
  xy ← at_ fields 1; sub ← at_ fields 2; mh ← at_ fields 3; mi ← at_ fields 4; mw ← at_ fields 5; hH ← at_ fields 6; hI ← at_ fields 7;
  rest ← from fields 8;
  let entry := mkOrdinaryEntry xy sub mi hI (Str.Join rest " ") entryLine in
  if bool_decide (sub = "N...") then parseOrdinaryRegularFileEntry r entry
  else
    c ← byte_at sub 0;
    if bool_decide (c = "S"%char) then parseOrdinarySubmoduleEntry r entry
    else Err (Errorf "invalid git status ordinary <sub> field: %q (%q)" [FQ entryLine; FQ sub]).

Definition parseUnmergedEntry (r : Result) (entryLine : string) : res Result :=
  let fields := Fields entryLine in
  xy ← at_ fields 1; sub ← at_ fields 2; m1 ← at_ fields 3; m2 ← at_ fields 4; m3 ← at_ fields 5; mW ← at_ fields 6;
  h1 ← at_ fields 7; h2 ← at_ fields 8; h3 ← at_ fields 9;
  rest ← from fields 10;
  let path := Str.Join rest " " in
  if negb (Str.len xy =? 2) then Err (Errorf "invalid git status ordinary <XY> field: %q (%q)" [FQ entryLine; FQ xy])
  else
    stageCode ← byte_at xy 0;
    worktreeCode ← byte_at xy 1;
    let r := if bool_decide (stageCode <> unmodified) then add_index_path path [path] r else r in
    Ok (if bool_decide (worktreeCode <> unmodified) then add_worktree_path path r else r).

Definition parseUntrackedEntry (r : Result) (entryLine : string) : res Result :=
  rest ← from (Fields entryLine) 1;
  Ok (add_untracked (Str.Join rest " ") r).

(** * The output of the command *)

Definition parseLine (r : Result) (entryLine : string) : res Result :=
  match entryLine with
  | "" => Err (Errorf "invalid git status line format: %s" [FS (String "034" (String "034" ""))])
  | String formatTypeCode _ =>
      if bool_decide (formatTypeCode = "1"%char) then parseOrdinaryEntry r entryLine
      else if bool_decide (formatTypeCode = "u"%char) then parseUnmergedEntry r entryLine
      else if bool_decide (formatTypeCode = "?"%char) then parseUntrackedEntry r entryLine
      else if bool_decide (formatTypeCode = "2"%char) || bool_decide (formatTypeCode = "!"%char) then Panic "unexpected git status line format"
      else Err (Errorf "invalid git status line format: %q" [FQ entryLine])
  end.

Fixpoint parseLines (r : Result) (lines : list string) : res Result :=
  match lines with [] => Ok r | l :: lines' => r' ← parseLine r l; parseLines r' lines' end.

(** The command itself is a parameter: its output and its text in messages. *)
Definition status (output : string + error) (command outErr : string) : res Result :=
  match output with
  | inr e => Err (Wrapf "git status command failed: %w" [] e)
  | inl out =>
      match parseLines empty (scanLines out) with
      | Err e => Err (Wrapf "%w

command: %q
output:
%s" [FQ command; FS outErr] e)
      | r => r
      end
  end.

(** * pkg/git_repo/local.go *)

(** The world that the local repository is in: the result of the first call is kept. *)
Class LocalRepo (W : Type) := {
  statusResult : W -> option Result;
  set_statusResult : Result -> W -> W;
  (** The output of [git status] in the work tree, and what it is reported with. *)
  git_status : prog W (string + error);
  git_status_text : string * string;
}.

Context {W : Type} `{!LocalRepo W}.

Definition keepStatus (r : Result) : prog W Result := fun w => (Ok r, set_statusResult r w).

Definition firstStatus : prog W Result :=
  output ← git_status;
  r ← lift (status output git_status_text.1 git_status_text.2);
  keepStatus r.

Definition local_status : prog W Result := fun w =>
  match statusResult w with Some r => (Ok r, w) | None => firstStatus w end.

Fixpoint matchedPaths (matched : string -> res bool) (l : list string) : res (list string) :=
  match l with
  | [] => Ok []
  | path :: l' => b ← matched path; l'' ← matchedPaths matched l'; Ok (if (b : bool) then path :: l'' else l'')
  end.

(** What is wrong with a submodule. *)
Definition submoduleError (s : submodule) : option error :=
  if IsAdded s then Some (GoErrors.typed "SubmoduleAddedAndNotCommittedError" [Path s] (Errorf "submodule is added but not committed" []))
  else if IsDeleted s then Some (GoErrors.typed "SubmoduleDeletedError" [Path s] (Errorf "submodule is deleted" []))
  else if IsModified s then
    if HasUntrackedChanges s then Some (GoErrors.typed "SubmoduleHasUntrackedChangesError" [Path s] (Errorf "submodule has untracked changes" []))
    else if HasTrackedChanges s then Some (GoErrors.typed "SubmoduleHasUncommittedChangesError" [Path s] (Errorf "submodule has uncommitted changes" []))
    else if IsCommitChanged s then Some (GoErrors.typed "SubmoduleCommitChangedError" [Path s] (Errorf "submodule commit is changed" []))
    else None
  else None.

Fixpoint validateStatusResultSubmodules (pathMatcher : PathMatcher) (l : list submodule) : res unit :=
  match l with
  | [] => Ok tt
  | s :: l' =>
      b ← IsDirOrSubmodulePathMatched pathMatcher (Path s);
      if negb b then validateStatusResultSubmodules pathMatcher l'
      else match submoduleError s with
           | Some e => Err e
           | None => validateStatusResultSubmodules pathMatcher l'
           end
  end.

Definition validateResult (pathMatcher : PathMatcher) (r : Result) : res unit :=
  untrackedPathList ← matchedPaths (IsPathMatched pathMatcher) (UntrackedPathList r);
  if bool_decide (untrackedPathList <> []) then Err (GoErrors.typed "UntrackedFilesFoundError" untrackedPathList (Errorf "untracked files found" []))
  else
    uncommittedPathList ← matchedPaths (IsPathMatched pathMatcher) (PathList (IndexWithWorktree r));
    if bool_decide (uncommittedPathList <> []) then Err (GoErrors.typed "UncommittedFilesFoundError" uncommittedPathList (Errorf "uncommitted files found" []))
    else validateStatusResultSubmodules pathMatcher (Submodules (IndexWithWorktree r)).

Definition ValidateStatusResult (pathMatcher : PathMatcher) : prog W unit :=
  r ← local_status; lift (validateResult pathMatcher r).

Fixpoint matchedSubmodules (pathMatcher : PathMatcher) (l : list submodule) (result : list string) : res (list string) :=
  match l with
  | [] => Ok result
  | s :: l' =>
      b ← IsDirOrSubmodulePathMatched pathMatcher (Path s);
      matchedSubmodules pathMatcher l' (if (b : bool) then AddNewStringsToStringArray result [Path s] else result)
  end.

Definition handlePathList (pathMatcher : PathMatcher) (pathList result : list string) : res (list string) :=
  l ← matchedPaths (IsPathMatched pathMatcher) pathList;
  Ok (foldl (fun result path => AddNewStringsToStringArray result [path]) result l).

Definition statusPathList (pathMatcher : PathMatcher) : prog W (list string) :=
  r ← local_status;
  lift (result ← handlePathList pathMatcher (UntrackedPathList r) [];
        result ← handlePathList pathMatcher (PathList (IndexWithWorktree r)) result;
        matchedSubmodules pathMatcher (Submodules (IndexWithWorktree r)) result).

Definition StatusIndexChecksum : prog W string := r ← local_status; mret (checksum r).

End status.
End GitStatus.
