(* ===== verification/GitStatusProps.v ===== *)
(** What [git status] prints is read back, up to the white space of paths that git does not track; and a
    work tree is valid for a matcher exactly if nothing that the matcher takes has changed. *)
From S2P Require Import Prelude Go GoStd GitScan PathMatcher PathMatcherProps GitStatus.
Import PathMatcher GitStatus.

Module GitStatusProps.

(** * Fields *)

Definition no_byte (c : Ascii.ascii) (s : string) : Prop := Str.mem c s = false.

(** A word: no position in it begins a white space, whatever comes after it. *)
Fixpoint word (s : string) : Prop :=
  match s with "" => True | String c s' => (forall t, spaceLen (s +:+ t) = 0) /\ word s' end.

Lemma fieldsFrom_word w field t : word w -> fieldsFrom 0 field (w +:+ t) = fieldsFrom 0 (field +:+ w) t.
Proof.
  revert field. induction w as [|c w IH]; intros field; simpl; [by rewrite Str.app_nil_r|].
  intros [Hc Hw]. specialize (Hc t). simpl in Hc. rewrite Hc, IH by done. f_equal. by rewrite <-Str.app_assoc.
Qed.

Lemma fieldsFrom_space field t : field <> "" -> fieldsFrom 0 field (String " " t) = field :: fieldsFrom 0 "" t.
Proof. intros H. simpl. by rewrite bool_decide_eq_false_2. Qed.

Lemma fieldsFrom_spaces t : fieldsFrom 0 "" (String " " t) = fieldsFrom 0 "" t.
Proof. done. Qed.

Lemma Fields_words l : Forall (fun w => w <> "" /\ word w) l -> Fields (Str.Join l " ") = l.
Proof.
  intros H. unfold Fields. induction H as [|w l [Hne Hw] H IH]; [done|]. destruct l as [|v l].
  - simpl. rewrite <-(Str.app_nil_r w) at 1. rewrite fieldsFrom_word by done. simpl. by rewrite bool_decide_eq_false_2.
  - change (Str.Join (w :: v :: l) " ") with (w +:+ String " " (Str.Join (v :: l) " ")).
    rewrite fieldsFrom_word, fieldsFrom_space by done. simpl app. by rewrite IH.
Qed.

(** ** Splitting at one byte *)

Lemma Join_SplitN sep n : forall s, Str.Join (Str.SplitN s sep (S n)) sep = s.
Proof.
  induction n as [|n IH]; intros s; [done|]. change (Str.SplitN s sep (S (S n))) with
    (match Str.cut sep s with None => [s] | Some (a, b) => a :: Str.SplitN b sep (S n) end).
  destruct (Str.cut sep s) as [[a b]|] eqn:E; [|done]. apply Str.cut_Some in E as ->.
  specialize (IH b). destruct (Str.SplitN b sep (S n)) as [|x l] eqn:El; [exfalso; clear -El; destruct n; [done|]; simpl in El; by destruct (Str.cut sep b) as [[]|]|].
  change (Str.Join (a :: x :: l) sep) with (a +:+ sep +:+ Str.Join (x :: l) sep). by rewrite IH.
Qed.

Lemma Join_last l x c : l <> [] -> Str.Join (l ++ [x]) (String c "") = Str.Join l (String c "") +:+ String c x.
Proof.
  induction l as [|a l IH]; intros Hne; [done|]. destruct l as [|b l]; [done|].
  change (Str.Join ((a :: b :: l) ++ [x]) (String c "")) with (a +:+ String c "" +:+ Str.Join ((b :: l) ++ [x]) (String c "")).
  rewrite IH by done. simpl. by rewrite <-!Str.app_assoc.
Qed.

Lemma SplitN_fields c l rest n : Forall (no_byte c) l ->
  Str.SplitN (Str.Join (l ++ [rest]) (String c "")) (String c "") (length l + S n) = l ++ Str.SplitN rest (String c "") (S n).
Proof.
  induction 1 as [|f l Hf Hl IH]; [done|]. cbn [app]. assert (exists g k, l ++ [rest] = g :: k) as (g & k & E) by (destruct l; simpl; eauto).
  rewrite E in *. change (Str.Join (f :: g :: k) (String c "")) with (f +:+ String c (Str.Join (g :: k) (String c ""))).
  cbn [length plus]. destruct (length l + S n) as [|m] eqn:Em; [lia|]. rewrite Str.SplitN_char by done. by rewrite IH.
Qed.

Lemma len_Join c l x : length l <= Str.len (Str.Join (l ++ [x]) (String c "")).
Proof.
  induction l as [|f l IH]; [simpl; lia|]. cbn [app]. assert (exists g k, l ++ [x] = g :: k) as (g & k & E) by (destruct l; simpl; eauto).
  rewrite E in *. change (Str.Join (f :: g :: k) (String c "")) with (f +:+ String c (Str.Join (g :: k) (String c ""))).
  rewrite Str.len_app. change (Str.len (String c (Str.Join (g :: k) (String c "")))) with (S (Str.len (Str.Join (g :: k) (String c "")))). cbn [length]. lia.
Qed.

(** Fields, and what comes after them, whatever it has. *)
Lemma Split_fields c l rest : Forall (no_byte c) l -> exists n,
  Str.Split (Str.Join (l ++ [rest]) (String c "")) (String c "") = l ++ Str.SplitN rest (String c "") (S n).
Proof.
  intros Hl. pose proof (len_Join c l rest) as Hlen. exists (Str.len (Str.Join (l ++ [rest]) (String c "")) - length l).
  rewrite <-SplitN_fields by done. unfold Str.Split. f_equal. lia.
Qed.

(** Lines that end with a new line. *)
Lemma scanLines_lines l : Forall (no_byte "010"%char) l -> Forall (fun s => Str.HasSuffix s (String "013" "") = false) l ->
  scanLines (Str.Join (l ++ [""]) (String "010" "")) = l.
Proof.
  intros Hl Hr. unfold scanLines. destruct (Split_fields "010" l "" Hl) as (n & ->). rewrite Str.SplitN_none by done.
  rewrite rev_app_distr. cbn [List.rev app]. rewrite rev_involutive. clear Hl n.
  induction Hr as [|s l Hs Hr IH]; [done|]. rewrite fmap_cons, IH. unfold Str.TrimSuffix. by rewrite Hs.
Qed.

(** * What is printed *)

(** A change, with the parts that git prints of it. *)
Inductive change :=
| Ordinary (x y : Ascii.ascii) (mh mi mw hh hi path : string)
| SubmoduleChange (x y c m u : Ascii.ascii) (mh mi mw hh hi path : string)
| Unmerged (x y : Ascii.ascii) (sub m1 m2 m3 mw h1 h2 h3 path : string)
| NotTracked (path : string).

Definition codes (x y : Ascii.ascii) : string := String x (String y "").
Definition sub_of (c m u : Ascii.ascii) : string := String "S" (String c (String m (String u ""))).

Definition fields_of (e : change) : list string :=
  match e with
  | Ordinary x y mh mi mw hh hi path => ["1"; codes x y; "N..."; mh; mi; mw; hh; hi; path]
  | SubmoduleChange x y c m u mh mi mw hh hi path => ["1"; codes x y; sub_of c m u; mh; mi; mw; hh; hi; path]
  | Unmerged x y sub m1 m2 m3 mw h1 h2 h3 path => ["u"; codes x y; sub; m1; m2; m3; mw; h1; h2; h3; path]
  | NotTracked path => ["?"; path]
  end.

Definition line_of (e : change) : string := Str.Join (fields_of e) " ".

Definition path_of_change (e : change) : string :=
  match e with Ordinary _ _ _ _ _ _ _ p | SubmoduleChange _ _ _ _ _ _ _ _ _ _ p | Unmerged _ _ _ _ _ _ _ _ _ _ p | NotTracked p => p end.

(** Words with one space between them: what is left of the white space of a path. *)
Definition spaced (p : string) : Prop := exists l, l <> [] /\ Forall (fun w => w <> "" /\ word w) l /\ p = Str.Join l " ".

(** The fields before the path have no spaces; paths that are read as words are of such. *)
Definition printable (e : change) : Prop :=
  match e with
  | Ordinary _ _ _ _ _ _ _ _ | SubmoduleChange _ _ _ _ _ _ _ _ _ _ _ => Forall (no_byte " ") (removelast (fields_of e))
  | Unmerged _ _ _ _ _ _ _ _ _ _ p => Forall (fun w => w <> "" /\ word w) (removelast (fields_of e)) /\ spaced p
  | NotTracked p => spaced p
  end.

(** The paths of a scope: one of the two codes. *)
Definition code (index : bool) (e : change) : option Ascii.ascii :=
  match e with
  | Ordinary x y _ _ _ _ _ _ | SubmoduleChange x y _ _ _ _ _ _ _ _ _ | Unmerged x y _ _ _ _ _ _ _ _ _ => Some (if index then x else y)
  | NotTracked _ => None
  end.

Definition changed (index : bool) (e : change) : bool :=
  match code index e with Some c => bool_decide (c <> "."%char) | None => false end.

Definition path_in (index : bool) (e : change) : option string :=
  match e with
  | Ordinary _ _ _ _ _ _ _ p | Unmerged _ _ _ _ _ _ _ _ _ _ p => if changed index e then Some p else None
  | _ => None
  end.

Definition submodule_in (index : bool) (e : change) : option submodule :=
  match e with
  | SubmoduleChange x y c m u _ _ _ _ _ p =>
      let code := if index then x else y in
      if changed index e then Some (mkSubmodule p (bool_decide (code = "A"%char)) (bool_decide (code = "D"%char)) (bool_decide (code = "M"%char))
        (bool_decide (u <> "."%char)) (bool_decide (m <> "."%char)) (bool_decide (c <> "."%char))) else None
  | _ => None
  end.

Definition not_tracked (e : change) : option string := match e with NotTracked p => Some p | _ => None end.

Section parse.
Context {gq : GoQuote} (LegacyMurmurHash : list string -> string).

(** What a result has more than another, checksums apart. *)
Definition extends (r r' : Result) (es : list change) : Prop :=
  PathList (Index r') = PathList (Index r) ++ omap (path_in true) es /\
  PathList (Worktree r') = PathList (Worktree r) ++ omap (path_in false) es /\
  Submodules (Index r') = Submodules (Index r) ++ omap (submodule_in true) es /\
  Submodules (Worktree r') = Submodules (Worktree r) ++ omap (submodule_in false) es /\
  UntrackedPathList r' = UntrackedPathList r ++ omap not_tracked es.

Lemma extends_nil r : extends r r [].
Proof using Type. unfold extends. simpl. by rewrite !app_nil_r. Qed.

Lemma extends_cons r1 r2 r3 e es : extends r1 r2 [e] -> extends r2 r3 es -> extends r1 r3 (e :: es).
Proof using Type.
  intros (H1 & H2 & H3 & H4 & H5) (G1 & G2 & G3 & G4 & G5).
  assert (forall {B} (f : change -> option B), omap f (e :: es) = omap f [e] ++ omap f es) as Happ by (intros B f; csimpl; by destruct (f e)).
  unfold extends. rewrite !Happ, !app_assoc. rewrite <-H1, <-H2, <-H3, <-H4, <-H5. done.
Qed.

Lemma extends_ordinary r x y mh mi mw hh hi p :
  forall a, extends r (let r' := if bool_decide (x <> "."%char) then add_index_path LegacyMurmurHash p a r else r in
    if bool_decide (y <> "."%char) then add_worktree_path p r' else r') [Ordinary x y mh mi mw hh hi p].
Proof using Type.
  intros a. unfold extends. csimpl. unfold changed. csimpl. do 2 case_bool_decide; simpl; by rewrite !app_nil_r.
Qed.

Lemma extends_unmerged r x y sub m1 m2 m3 mw h1 h2 h3 p :
  forall a, extends r (let r' := if bool_decide (x <> "."%char) then add_index_path LegacyMurmurHash p a r else r in
    if bool_decide (y <> "."%char) then add_worktree_path p r' else r') [Unmerged x y sub m1 m2 m3 mw h1 h2 h3 p].
Proof using Type.
  intros a. unfold extends. csimpl. unfold changed. csimpl. do 2 case_bool_decide; simpl; by rewrite !app_nil_r.
Qed.

Lemma split_ordinary xs sub mh mi mw hh hi p : Forall (no_byte " ") ["1"; xs; sub; mh; mi; mw; hh; hi] -> exists n,
  Str.Split (Str.Join ["1"; xs; sub; mh; mi; mw; hh; hi; p] " ") " " = ["1"; xs; sub; mh; mi; mw; hh; hi] ++ Str.SplitN p " " (S n).
Proof using Type. intros H. exact (Split_fields " " ["1"; xs; sub; mh; mi; mw; hh; hi] p H). Qed.

Lemma parse_ordinary r x y mh mi mw hh hi p : printable (Ordinary x y mh mi mw hh hi p) ->
  exists r', parseOrdinaryEntry LegacyMurmurHash r (line_of (Ordinary x y mh mi mw hh hi p)) = Ok r' /\ extends r r' [Ordinary x y mh mi mw hh hi p].
Proof using Type.
  intros H. destruct (split_ordinary (codes x y) "N..." mh mi mw hh hi p H) as [n E].
  unfold parseOrdinaryEntry, line_of, fields_of. rewrite E. cbn [app at_ lookup list_lookup mbind res_bind from length Nat.leb].
  unfold from. rewrite (bool_decide_eq_true_2 (8 <= _)) by (cbn [length app]; lia).
  cbn [drop skipn app mbind res_bind]. rewrite drop_0, Join_SplitN. rewrite bool_decide_eq_true_2 by done.
  eexists. split; [reflexivity|]. apply (extends_ordinary r x y mh mi mw hh hi p).
Qed.

Lemma parse_submodule r x y c m u mh mi mw hh hi p : printable (SubmoduleChange x y c m u mh mi mw hh hi p) ->
  exists r', parseOrdinaryEntry LegacyMurmurHash r (line_of (SubmoduleChange x y c m u mh mi mw hh hi p)) = Ok r' /\
    extends r r' [SubmoduleChange x y c m u mh mi mw hh hi p].
Proof using Type.
  intros H. destruct (split_ordinary (codes x y) (sub_of c m u) mh mi mw hh hi p H) as [n E].
  unfold parseOrdinaryEntry, line_of, fields_of. rewrite E. cbn [app at_ lookup list_lookup mbind res_bind].
  unfold from. rewrite (bool_decide_eq_true_2 (8 <= _)) by (cbn [length app]; lia).
  cbn [drop skipn app mbind res_bind]. rewrite ?drop_0, Join_SplitN. rewrite bool_decide_eq_false_2 by done. cbn [byte_at sub_of String.get mbind res_bind].
  rewrite bool_decide_eq_true_2 by done. eexists. split; [reflexivity|].
  unfold extends. csimpl. unfold changed. csimpl.
  destruct (bool_decide (x <> "."%char)), (bool_decide (y <> "."%char)); simpl; by rewrite !app_nil_r.
Qed.

Lemma removelast_path {A} (l : list A) p : removelast (l ++ [p]) = l.
Proof using Type. by rewrite removelast_app, app_nil_r. Qed.

Lemma Fields_line l p : Forall (fun w => w <> "" /\ word w) l -> l <> [] -> spaced p ->
  exists k, Fields (Str.Join (l ++ [p]) " ") = l ++ k /\ Str.Join k " " = p.
Proof using Type.
  intros Hl Hne (k & Hk0 & Hk & ->). exists k. split; [|done].
  assert (Str.Join (l ++ [Str.Join k " "]) " " = Str.Join (l ++ k) " ") as ->.
  { clear -Hk0 Hne. induction l as [|f l IH]; [done|]. destruct l as [|g l].
    - simpl. destruct k as [|x k]; [done|]. done.
    - change (Str.Join ((f :: g :: l) ++ ?z) " ") with (f +:+ " " +:+ Str.Join ((g :: l) ++ z) " "). by rewrite IH. }
  apply Fields_words. by apply Forall_app.
Qed.

Lemma parse_unmerged r x y sub m1 m2 m3 mw h1 h2 h3 p : printable (Unmerged x y sub m1 m2 m3 mw h1 h2 h3 p) ->
  exists r', parseUnmergedEntry LegacyMurmurHash r (line_of (Unmerged x y sub m1 m2 m3 mw h1 h2 h3 p)) = Ok r' /\
    extends r r' [Unmerged x y sub m1 m2 m3 mw h1 h2 h3 p].
Proof using Type.
  intros [H Hp]. destruct (Fields_line ["u"; codes x y; sub; m1; m2; m3; mw; h1; h2; h3] p H ltac:(done) Hp) as (k & E & Ek).
  unfold parseUnmergedEntry, line_of, fields_of. cbn [app] in E. rewrite E. cbn [app at_ lookup list_lookup mbind res_bind].
  unfold from. rewrite bool_decide_eq_true_2 by (simpl; lia). cbn [drop skipn app mbind res_bind]. rewrite ?drop_0, Ek.
  eexists. split; [reflexivity|]. apply (extends_unmerged r x y sub m1 m2 m3 mw h1 h2 h3 p).
Qed.

Lemma parse_untracked r p : spaced p -> exists r', parseUntrackedEntry r (line_of (NotTracked p)) = Ok r' /\ extends r r' [NotTracked p].
Proof using Type.
  intros Hp. destruct (Fields_line ["?"] p) as (k & E & Ek); [repeat constructor; done|done|done|].
  unfold parseUntrackedEntry, line_of, fields_of. cbn [app] in E. rewrite E.
  unfold from. rewrite bool_decide_eq_true_2 by (simpl; lia). cbn [drop skipn app mbind res_bind]. rewrite ?drop_0, Ek.
  eexists. split; [reflexivity|]. unfold extends. csimpl. by rewrite !app_nil_r.
Qed.

Lemma parse_line r e : printable e -> exists r', parseLine LegacyMurmurHash r (line_of e) = Ok r' /\ extends r r' [e].
Proof using Type.
  intros H. assert (exists t, line_of e = (match e with Ordinary _ _ _ _ _ _ _ _ | SubmoduleChange _ _ _ _ _ _ _ _ _ _ _ => String "1" t
    | Unmerged _ _ _ _ _ _ _ _ _ _ _ => String "u" t | NotTracked _ => String "?" t end)) as [t E] by (destruct e; eexists; reflexivity).
  unfold parseLine. destruct e; [pose proof (parse_ordinary r _ _ _ _ _ _ _ _ H) as G|pose proof (parse_submodule r _ _ _ _ _ _ _ _ _ _ _ H) as G|
    pose proof (parse_unmerged r _ _ _ _ _ _ _ _ _ _ _ H) as G|pose proof (parse_untracked r _ H) as G]; rewrite E in G |- *; exact G.
Qed.

Lemma parse_lines es : forall r, Forall printable es -> exists r', parseLines LegacyMurmurHash r (line_of <$> es) = Ok r' /\ extends r r' es.
Proof using Type.
  induction es as [|e es IH]; intros r Hes; [exists r; split; [done|apply extends_nil]|]. inversion_clear Hes as [|? ? He Hes'].
  destruct (parse_line r e He) as (r1 & E1 & H1), (IH r1 Hes') as (r2 & E2 & H2).
  exists r2. split; [rewrite fmap_cons; cbn [parseLines]; by rewrite E1|by eapply extends_cons].
Qed.

(** C30: The output of [git status --porcelain=v2] is read back: for any changes, with their lines ended, the
    result has the paths of the index, those of the work tree, the submodules of both with what is wrong
    with them, and the paths that are not tracked, in their order. Spaces in the paths of changed files are
    kept; the other paths are as printed where one space is between their words. *)
Theorem status_roundtrip command outErr es : Forall printable es ->
  Forall (fun e => no_byte "010" (line_of e) /\ Str.HasSuffix (line_of e) (String "013" "") = false) es ->
  exists r, status LegacyMurmurHash (inl (Str.Join ((line_of <$> es) ++ [""]) (String "010" ""))) command outErr = Ok r /\
    PathList (Index r) = omap (path_in true) es /\ PathList (Worktree r) = omap (path_in false) es /\
    Submodules (Index r) = omap (submodule_in true) es /\ Submodules (Worktree r) = omap (submodule_in false) es /\
    UntrackedPathList r = omap not_tracked es.
Proof using Type.
  intros Hp Hl. destruct (parse_lines es empty Hp) as (r & E & Hr). exists r. unfold status. rewrite scanLines_lines.
  - rewrite E. split; [done|exact Hr].
  - apply Forall_fmap. eapply Forall_impl; [exact Hl|]. by intros e [? _].
  - apply Forall_fmap. eapply Forall_impl; [exact Hl|]. by intros e [_ ?].
Qed.

(** Two spaces in the path of a file that is not tracked become one. *)
Lemma untracked_spaces_lost r a b : a <> "" -> word a -> b <> "" -> word b ->
  parseUntrackedEntry r ("? " +:+ a +:+ "  " +:+ b) = Ok (add_untracked (a +:+ " " +:+ b) r).
Proof using Type.
  intros Ha Hwa Hb Hwb. unfold parseUntrackedEntry, Fields. change ("? " +:+ a +:+ "  " +:+ b) with ("?" +:+ String " " (a +:+ String " " (String " " b))).
  rewrite (fieldsFrom_word "?") by (by split). rewrite fieldsFrom_space by done.
  rewrite fieldsFrom_word, fieldsFrom_space, fieldsFrom_spaces by done. rewrite <-(Str.app_nil_r b) at 1. rewrite fieldsFrom_word by done.
  cbn [app fieldsFrom]. rewrite bool_decide_eq_false_2 by done. unfold from. rewrite bool_decide_eq_true_2 by (simpl; lia). done.
Qed.
End parse.

(** * Validation *)

Section validate.
Context {gq : GoQuote} {ds : Doublestar} {pms : PatternMatchers} {uf : UtilFilepaths} {up : UtilPaths} {hs : Hashes} {sa : StringArrays}.

Lemma matchedPaths_spec f l : (forall p, p ∈ l -> exists b, f p = Ok b) ->
  exists k, matchedPaths f l = Ok k /\ forall p, p ∈ k <-> p ∈ l /\ f p = Ok true.
Proof using Type.
  induction l as [|p l IH]; intros Hf; [exists []; split; [done|]; intros p; split; [intros H; by apply not_elem_of_nil in H|intros [H _]; done]|].
  destruct (Hf p ltac:(by left)) as [b E], IH as (k & Ek & Hk); [intros q Hq; apply Hf; by right|].
  exists (if b then p :: k else k). simpl. rewrite E. cbn [mbind res_bind]. rewrite Ek. split; [done|]. intros q. destruct b.
  - rewrite !elem_of_cons, Hk. split; [intros [->|[? ?]]; auto|intros [[->|?] ?]; auto].
  - rewrite Hk, elem_of_cons. split; [intros [? ?]; auto|intros [[->|?] ?]; [congruence|done]].
Qed.

(** A submodule is as it was committed. *)
Definition clean (s : submodule) : Prop :=
  IsAdded s = false /\ IsDeleted s = false /\
  (IsModified s = true -> HasUntrackedChanges s = false /\ HasTrackedChanges s = false /\ IsCommitChanged s = false).

Lemma submoduleError_None s : submoduleError s = None <-> clean s.
Proof using Type.
  unfold submoduleError, clean. destruct (IsAdded s), (IsDeleted s), (IsModified s), (HasUntrackedChanges s), (HasTrackedChanges s), (IsCommitChanged s); naive_solver.
Qed.

Lemma submodules_valid m l : (forall s, s ∈ l -> exists b, IsDirOrSubmodulePathMatched m (Path s) = Ok b) ->
  validateStatusResultSubmodules m l = Ok tt <-> forall s, s ∈ l -> IsDirOrSubmodulePathMatched m (Path s) = Ok true -> clean s.
Proof using Type.
  induction l as [|s l IH]; intros Hm; simpl; [split; [intros _ s Hs; by apply not_elem_of_nil in Hs|done]|].
  destruct (Hm s ltac:(by left)) as [b E]. rewrite E. cbn [mbind res_bind]. assert (forall s', s' ∈ l -> exists b, IsDirOrSubmodulePathMatched m (Path s') = Ok b) as Hm' by (intros s' Hs'; apply Hm; by right).
  specialize (IH Hm'). destruct b; simpl.
  - destruct (submoduleError s) as [e|] eqn:Es.
    + split; [done|]. intros H. exfalso. assert (submoduleError s = None); [|congruence]. apply submoduleError_None, H; [by left|done].
    + rewrite IH. split; [intros H s' [->|Hs']%elem_of_cons Hs; [by apply submoduleError_None|by apply H]|intros H s' Hs'; apply H; by right].
  - rewrite IH. split; [intros H s' [->|Hs']%elem_of_cons Hs; [congruence|by apply H]|intros H s' Hs'; apply H; by right].
Qed.

Lemma IndexWithWorktree_paths r p : p ∈ PathList (IndexWithWorktree r) <-> p ∈ PathList (Index r) \/ p ∈ PathList (Worktree r).
Proof using Type. simpl. rewrite !AddNewStrings_elem. split; [intros [[H|H]|H]; [by apply not_elem_of_nil in H|auto|auto]|intros [H|H]; auto]. Qed.

(** The work tree is valid for a matcher exactly if the matcher takes no path that is not tracked, none
    that changed in the index or in the work tree, and goes into no submodule that is added, deleted, or
    modified in any way that is told. *)
Theorem validateResult_spec m r :
  (forall p, p ∈ UntrackedPathList r \/ p ∈ PathList (Index r) \/ p ∈ PathList (Worktree r) -> exists b, IsPathMatched m p = Ok b) ->
  (forall s, s ∈ Submodules (Index r) \/ s ∈ Submodules (Worktree r) -> exists b, IsDirOrSubmodulePathMatched m (Path s) = Ok b) ->
  validateResult m r = Ok tt <->
    (forall p, p ∈ UntrackedPathList r \/ p ∈ PathList (Index r) \/ p ∈ PathList (Worktree r) -> IsPathMatched m p <> Ok true) /\
    (forall s, s ∈ Submodules (Index r) \/ s ∈ Submodules (Worktree r) -> IsDirOrSubmodulePathMatched m (Path s) = Ok true -> clean s).
Proof using Type.
  intros Hp Hs. unfold validateResult.
  destruct (matchedPaths_spec (IsPathMatched m) (UntrackedPathList r)) as (u & -> & Hu); [intros p Hin; apply Hp; auto|].
  destruct (matchedPaths_spec (IsPathMatched m) (PathList (IndexWithWorktree r))) as (c & Ec & Hc); [intros p Hin%IndexWithWorktree_paths; apply Hp; tauto|].
  cbn [mbind res_bind]. rewrite Ec. setoid_rewrite IndexWithWorktree_paths in Hc. cbn [mbind res_bind].
  assert (validateStatusResultSubmodules m (Submodules (IndexWithWorktree r)) = Ok tt <->
    forall s, s ∈ Submodules (Index r) \/ s ∈ Submodules (Worktree r) -> IsDirOrSubmodulePathMatched m (Path s) = Ok true -> clean s) as Hsub.
  { rewrite submodules_valid; simpl; setoid_rewrite elem_of_app; done. }
  destruct u as [|x u].
  - rewrite bool_decide_eq_false_2 by (by intros []). destruct c as [|y c].
    + rewrite bool_decide_eq_false_2 by (by intros []). rewrite Hsub. split; [|tauto]. intros H. split; [|done].
      intros p [Hin|Hin] E; [assert (p ∈ []) as H' by (by apply Hu)|assert (p ∈ []) as H' by (by apply Hc)]; by apply not_elem_of_nil in H'.
    + rewrite bool_decide_eq_true_2 by done. split; [done|]. intros [H _]. destruct (Hc y) as [Hy _]. destruct Hy as [Hy E]; [by left|]. by destruct (H y (or_intror Hy)).
  - rewrite bool_decide_eq_true_2 by done. split; [done|]. intros [H _]. destruct (Hu x) as [Hx _]. destruct Hx as [Hx E]; [by left|]. by destruct (H x (or_introl Hx)).
Qed.
End validate.

End GitStatusProps.
