(* ===== verification/GitFiles.v ===== *)
(** pkg/git_repo/base.go: the files of a commit, with the symbolic links on the way to them, and the
    checksums of parts of a commit. The handle of a commit is made once; it is made anew where an object is
    not found. *)
From S2P Require Import Prelude Go GoStd PathMatcher LsTree.
Import PathMatcher RepoHandle LsTree.

(** [util.GlobPrefixWithoutPatterns] of common-go: the directories that a glob begins with, and the rest. *)
Class GlobPrefixes := GlobPrefixWithoutPatterns : string -> string * string.

Module GitFiles.

(** [strings.Replace] of the first occurrence; the empty string occurs at the beginning. *)
Definition replaceFirst (s old new : string) : string := if bool_decide (old = "") then new +:+ s else Str.Replace s old new 1.

(** [Base], in the world that its repository is in. *)
Class RepoBase (W : Type) `{!GoGit} := {
  commitRepoHandle : W -> gmap string Handle;
  set_commitRepoHandle : gmap string Handle -> W -> W;
  Checksums : W -> gmap string string;
  set_Checksums : gmap string string -> W -> W;
  (** The handle of a commit, with a work tree for its submodules. *)
  initRepoHandleBackedByWorkTree : string -> prog W Handle;
}.

Section files.
Context `{!GoGit, !GoQuote, !Doublestar, !PatternMatchers, !UtilFilepaths, !UtilPaths, !Hashes, !SortSlice, !GlobPrefixes}.
Context {W : Type} `{!RepoBase W}.
(** The fuel for going through trees. *)
Variable treeFuel : nat.

(** * Handles *)

Definition readHandle (commit : string) : prog W (option Handle) := fun w => (Ok (commitRepoHandle w !! commit), w).
Definition storeHandle (commit : string) (h : Handle) : prog W unit := fun w => (Ok tt, set_commitRepoHandle (<[commit := h]> (commitRepoHandle w)) w).
Definition deleteHandle (commit : string) : prog W unit := fun w => (Ok tt, set_commitRepoHandle (delete commit (commitRepoHandle w)) w).

Definition loadHandle (commit : string) : prog W Handle :=
  o ← readHandle commit;
  match o with
  | Some h => mret h
  | None => h ← initRepoHandleBackedByWorkTree commit; storeHandle commit h;; mret h
  end.

Definition isHandledError (e : error) : bool :=
  Str.HasSuffix (err_text e) "object not found" || Str.HasSuffix (err_text e) "packfile not found".

(** One more attempt, with a new handle, where an object is not found. *)
Definition withRepoHandle {A} (commit : string) (f : Handle -> prog W A) : prog W A :=
  h ← loadHandle commit;
  r ← try (f h);
  match r with
  | inl a => mret a
  | inr e =>
      if isHandledError e then
        deleteHandle commit;;
        h ← loadHandle commit;
        f h
      else fail e
  end.

(** * Entries of the tree of a commit *)

Definition lsTreeResult (commit : string) (opts : LsTreeOptions) : prog W Result :=
  withRepoHandle commit (fun h => lift (LsTree treeFuel h commit opts)).

Definition GetCommitTreeEntry (commit path : string) : prog W LsTreeEntry :=
  lsTreeResult ← lsTreeResult commit (mkLsTreeOptions path None false);
  mret (Result_LsTreeEntry lsTreeResult path).

Definition ModeOf (e : LsTreeEntry) : FileMode := Mode (treeEntry e).

Definition isTreeEntryExist (commit relPath : string) : prog W bool :=
  entry ← GetCommitTreeEntry commit relPath; mret (negb (IsMalformed (ModeOf entry))).

Definition isCommitTreeEntryDirectory (commit relPath : string) : prog W bool :=
  entry ← GetCommitTreeEntry commit relPath;
  mret (bool_decide (ModeOf entry = Dir) || bool_decide (ModeOf entry = Submodule)).

Definition ReadCommitTreeEntryContent (commit relPath : string) : prog W string :=
  lsTreeResult ← lsTreeResult commit (mkLsTreeOptions relPath None false);
  withRepoHandle commit (fun h => lift (LsTreeEntryContent lsTreeResult h relPath)).

(** * Symbolic links *)

Definition treeEntryNotFound (path : string) : error :=
  GoErrors.typed "treeEntryNotFoundInRepoErr" [] (Errorf "commit tree entry %q not found in the repository" [FQ path]).

Definition IsTreeEntryNotFoundInRepoErr (e : error) : bool := GoErrors.is_type "treeEntryNotFoundInRepoErr" e.

(** A check of the target of each link, where there is one. *)
Definition checkTarget (checkSymlinkTarget : option (string -> prog W unit)) (resolvedLink : string) : prog W unit :=
  match checkSymlinkTarget with Some f => f resolvedLink | None => mret tt end.

(** The parts of a path after those that are resolved. *)
Fixpoint resolveParts (resolve : string -> prog W string) (commit : string) (check : option (string -> prog W unit))
    (pathParts : list string) (resolvedPath : string) : prog W string :=
  match pathParts with
  | [] => mret resolvedPath
  | part :: pathParts' =>
      let pathToResolve := Filepath.Join [resolvedPath; part] in
      lsTreeEntry ← wrap "unable to get commit tree entry %q: %w" [FQ pathToResolve] (GetCommitTreeEntry commit pathToResolve);
      if IsMalformed (ModeOf lsTreeEntry) then fail (treeEntryNotFound pathToResolve)
      else if bool_decide (ModeOf lsTreeEntry = Symlink) then
        link ← wrap "unable to get commit tree entry content %q: %w" [FQ pathToResolve] (ReadCommitTreeEntryContent commit pathToResolve);
        if GoPath.IsAbs link then fail (treeEntryNotFound link)
        else
          let resolvedLink := Filepath.Join [Filepath.Dir pathToResolve; link] in
          if bool_decide (resolvedLink = "..") || Str.HasPrefix resolvedLink "../" then fail (treeEntryNotFound link)
          else
            checkTarget check resolvedLink;;
            resolvedTarget ← resolve resolvedLink;
            resolveParts resolve commit check pathParts' resolvedTarget
      else resolveParts resolve commit check pathParts' pathToResolve
  end.

(** [levels] is how many levels of links are left: there are none after a depth of 1000. *)
Fixpoint resolveCommitFilePath (levels : nat) (commit path : string) (check : option (string -> prog W unit)) : prog W string :=
  match levels with
  | 0 => fail (Errorf "too many levels of symbolic links" [])
  | S levels =>
      lsTreeEntry ← wrap "unable to get commit tree entry %q: %w" [FQ path] (GetCommitTreeEntry commit path);
      if negb (bool_decide (ModeOf lsTreeEntry = Symlink)) && negb (IsMalformed (ModeOf lsTreeEntry)) then mret path
      else resolveParts (fun p => resolveCommitFilePath levels commit p check) commit check (SplitFilepath path) ""
  end.

Definition depth : nat := 1001.

Definition ResolveCommitFilePath (commit path : string) : prog W string := resolveCommitFilePath depth commit path None.

Definition ResolveAndCheckCommitFilePath (commit path : string) (checkSymlinkTargetFunc : string -> prog W unit) : prog W string :=
  resolveCommitFilePath depth commit path (Some checkSymlinkTargetFunc).

Definition checkCommitFileMode (commit path : string) (expectedFileModeList : list FileMode) : prog W bool :=
  r ← try (ResolveCommitFilePath commit path);
  match r with
  | inr e => if IsTreeEntryNotFoundInRepoErr e then mret false else fail (Wrapf "unable to resolve commit file %q: %w" [FQ path] e)
  | inl resolvedPath =>
      lsTreeEntry ← wrap "unable to get commit tree entry %q: %w" [FQ resolvedPath] (GetCommitTreeEntry commit resolvedPath);
      mret (bool_decide (ModeOf lsTreeEntry ∈ expectedFileModeList))
  end.

Definition IsCommitDirectoryExist (commit path : string) : prog W bool := checkCommitFileMode commit path [Dir; Submodule].

Definition IsCommitFileExist (commit path : string) : prog W bool := checkCommitFileMode commit path [Regular; Deprecated; Executable].

Definition ReadCommitFile (commit path : string) : prog W string :=
  resolvedPath ← wrap "unable to resolve commit file %q: %w" [FQ path] (ResolveCommitFilePath commit path);
  ReadCommitTreeEntryContent commit resolvedPath.

Definition IsAnyCommitTreeEntriesMatched (commit pathScope : string) (pathMatcher : option PathMatcher) (allFiles : bool) : prog W bool :=
  result ← lsTreeResult commit (mkLsTreeOptions pathScope pathMatcher allFiles);
  mret (negb (IsEmpty result)).

(** * Going through directories *)

(** [a] is what the caller's function changes. Links to directories are gone into, and [fuel] is how many
    on one way. *)
Fixpoint WalkCommitFiles {A} (fuel : nat) (commit dir : string) (pathMatcher : PathMatcher) (fileFunc : A -> string -> prog W A) (a : A) : prog W A :=
  match fuel with
  | 0 => panic "out of fuel"
  | S fuel =>
      b ← lift (IsDirOrSubmodulePathMatched pathMatcher dir);
      if negb b then mret a
      else
        exist ← IsCommitDirectoryExist commit dir;
        if negb exist then mret a
        else
          resolvedDir ← wrap "unable to resolve commit file %q: %w" [FQ dir] (ResolveCommitFilePath commit dir);
          result ← lsTreeResult commit (mkLsTreeOptions resolvedDir None true);
          for_fold (Walk result) a (fun a lsTreeEntry =>
            let notResolvedPath := replaceFirst (Filepath.ToSlash (FullFilepath lsTreeEntry)) resolvedDir dir in
            if IsMalformed (ModeOf lsTreeEntry) then panic "unexpected condition"
            else
              b ← lift (IsDirOrSubmodulePathMatched pathMatcher notResolvedPath);
              if negb b then mret a
              else if bool_decide (ModeOf lsTreeEntry = Symlink) then
                isDir ← IsCommitDirectoryExist commit notResolvedPath;
                if (isDir : bool) then WalkCommitFiles fuel commit notResolvedPath pathMatcher fileFunc a
                else fileFunc a notResolvedPath
              else fileFunc a notResolvedPath)
  end.

Definition ListCommitFilesWithGlob (fuel : nat) (commit dir glob : string) : prog W (list string) :=
  let p := GlobPrefixWithoutPatterns glob in
  let dirOrFileWithGlobPrefix := Filepath.Join [dir; p.1] in
  pathMatcher ← lift (NewPathMatcher (mkPathMatcherOptions dirOrFileWithGlobPrefix [p.2] [] None []));
  let fileFunc (result : list string) notResolvedPath :=
    b ← lift (IsPathMatched pathMatcher notResolvedPath);
    mret (if (b : bool) then result ++ [notResolvedPath] else result) in
  isRegularFile ← IsCommitFileExist commit dirOrFileWithGlobPrefix;
  if (isRegularFile : bool) then fileFunc [] dirOrFileWithGlobPrefix
  else WalkCommitFiles fuel commit dirOrFileWithGlobPrefix pathMatcher fileFunc [].

(** * Checksums *)

Record ChecksumOptions := mkChecksumOptions { checksumLsTree : LsTreeOptions; checksumCommit : string }.

Definition ChecksumOptions_ID (opts : ChecksumOptions) : res string :=
  id ← LsTreeOptions_ID (checksumLsTree opts); Ok (Sha256Hash [checksumCommit opts; id]).

Definition createChecksum (h : Handle) (opts : ChecksumOptions) : prog W string :=
  lsTreeResult ← lift (LsTree treeFuel h (checksumCommit opts) (checksumLsTree opts));
  mret (Checksum lsTreeResult).

Definition readChecksum (id : string) : prog W (option string) := fun w => (Ok (Checksums w !! id), w).
Definition storeChecksum (id checksum : string) : prog W unit := fun w => (Ok tt, set_Checksums (<[id := checksum]> (Checksums w)) w).

Definition getOrCreateChecksum (h : Handle) (opts : ChecksumOptions) : prog W string :=
  checksumID ← lift (ChecksumOptions_ID opts);
  o ← readChecksum checksumID;
  match o with
  | Some checksum => mret checksum
  | None => checksum ← createChecksum h opts; storeChecksum checksumID checksum;; mret checksum
  end.

Definition GetOrCreateChecksum (opts : ChecksumOptions) : prog W string :=
  withRepoHandle (checksumCommit opts) (fun h => getOrCreateChecksum h opts).

End files.
End GitFiles.
