(* ===== verification/GitFilesProps.v ===== *)
(** How paths of a commit are resolved: what is returned is real, every link on the way was checked, links that
    lead to themselves are an error; and where going through directories never ends. *)
From S2P Require Import Prelude Go GoStd PathMatcher LsTree LsTreeProps GitFiles.
Import PathMatcher RepoHandle LsTree LsTreeProps GitFiles.

Module GitFilesProps.

Section files.
Context {gg : GoGit} {gq : GoQuote} {ds : Doublestar} {pms : PatternMatchers} {uf : UtilFilepaths} {up : UtilPaths} {hs : Hashes} {ss : SortSlice} {gp : GlobPrefixes}.
Context {W : Type} {rb : RepoBase W} (treeFuel : nat) (commit : string) (h0 : Handle) (I : W -> Prop).

(** * A repository that stays as it is *)

(** The handle of the commit is always [h0]; [I] holds of the worlds in which this is known. *)
Record Calm : Prop := {
  calm_handle : forall w h, I w -> commitRepoHandle w !! commit = Some h -> h = h0;
  calm_init : forall w, I w -> exists w', initRepoHandleBackedByWorkTree commit w = (Ok h0, w') /\ I w';
  calm_store : forall w, I w -> I (set_commitRepoHandle (<[commit := h0]> (commitRepoHandle w)) w);
  calm_delete : forall w, I w -> I (set_commitRepoHandle (delete commit (commitRepoHandle w)) w);
}.

Context (calm : Calm).

Lemma loadHandle_calm w : I w -> exists w', loadHandle commit w = (Ok h0, w') /\ I w'.
Proof using calm.
  intros Hw. unfold loadHandle, readHandle, mbind, prog_bind. destruct (commitRepoHandle w !! commit) as [h|] eqn:E.
  - apply (calm_handle calm) in E as ->; [|done]. exists w. done.
  - destruct (calm_init calm w Hw) as (w1 & -> & Hw1). eexists. split; [reflexivity|]. by apply (calm_store calm).
Qed.

(** What is read with the handle is read with [h0], and read again with it. *)
Lemma withRepoHandle_calm {A} (g : Handle -> res A) w : I w ->
  exists w', withRepoHandle commit (fun h => lift (g h)) w = (g h0, w') /\ I w'.
Proof using calm.
  intros Hw. unfold withRepoHandle. destruct (loadHandle_calm w Hw) as (w1 & E1 & Hw1).
  unfold mbind, prog_bind. rewrite E1. unfold try, lift. destruct (g h0) as [a|e|p] eqn:Eg; [by exists w1| |by exists w1].
  destruct (isHandledError e); [|by exists w1]. unfold deleteHandle.
  destruct (loadHandle_calm _ (calm_delete calm w1 Hw1)) as (w2 & E2 & Hw2). rewrite E2, Eg. by exists w2.
Qed.

(** The entry at a path, and the content of a file. *)
Definition entryAt (path : string) : res LsTreeEntry :=
  r ← LsTree treeFuel h0 commit (mkLsTreeOptions path None false); Ok (Result_LsTreeEntry r path).

Definition contentAt (path : string) : res string :=
  r ← LsTree treeFuel h0 commit (mkLsTreeOptions path None false); LsTreeEntryContent r h0 path.

Lemma GetCommitTreeEntry_calm path w : I w -> exists w', GetCommitTreeEntry treeFuel commit path w = (entryAt path, w') /\ I w'.
Proof using calm.
  intros Hw. unfold GetCommitTreeEntry, lsTreeResult, entryAt.
  destruct (withRepoHandle_calm (fun h => LsTree treeFuel h commit (mkLsTreeOptions path None false)) w Hw) as (w' & E & Hw').
  exists w'. unfold mbind, prog_bind, res_bind. rewrite E. by destruct (LsTree _ _ _ _).
Qed.

Lemma ReadContent_calm path w : I w -> exists w', ReadCommitTreeEntryContent treeFuel commit path w = (contentAt path, w') /\ I w'.
Proof using calm.
  intros Hw. unfold ReadCommitTreeEntryContent, lsTreeResult, contentAt.
  destruct (withRepoHandle_calm (fun h => LsTree treeFuel h commit (mkLsTreeOptions path None false)) w Hw) as (w1 & E1 & Hw1).
  unfold mbind, prog_bind, res_bind. rewrite E1. destruct (LsTree _ _ _ _) as [r|e|p]; [|by exists w1..].
  apply (withRepoHandle_calm (fun h => LsTreeEntryContent r h path) w1 Hw1).
Qed.

(** * Resolution *)

Definition mode_of (path : string) (m : FileMode) : Prop := exists e, entryAt path = Ok e /\ ModeOf e = m.

(** An entry that is there, and is no link. *)
Definition real (path : string) : Prop := exists m, mode_of path m /\ m <> Symlink /\ IsMalformed m = false.

(** The target of the link at a path, from the root of the repository. *)
Definition link_to (path target : string) : Prop :=
  mode_of path Symlink /\ exists link, contentAt path = Ok link /\ GoPath.IsAbs link = false /\
    target = Filepath.Join [Filepath.Dir path; link] /\ target <> ".." /\ Str.HasPrefix target "../" = false.

(** [Resolves n p r ts]: the path [p] leads to [r], through links to [ts], at most [n] levels deep; [Parts]
    is that of the rest of a path below a real directory. *)
Inductive Resolves : nat -> string -> string -> list string -> Prop :=
| resolves_real n p : real p -> Resolves (S n) p p []
| resolves_parts n p m r ts : mode_of p m -> m = Symlink \/ IsMalformed m = true -> Parts n (SplitFilepath p) "" r ts -> Resolves (S n) p r ts
with Parts : nat -> list string -> string -> string -> list string -> Prop :=
| parts_nil n d : Parts n [] d d []
| parts_real n x xs d r ts : real (Filepath.Join [d; x]) -> Parts n xs (Filepath.Join [d; x]) r ts -> Parts n (x :: xs) d r ts
| parts_link n x xs d t r' r ts1 ts2 : link_to (Filepath.Join [d; x]) t -> Resolves n t r' ts1 -> Parts n xs r' r ts2 ->
    Parts n (x :: xs) d r (t :: ts1 ++ ts2).

Scheme Resolves_mut := Induction for Resolves Sort Prop
with Parts_mut := Induction for Parts Sort Prop.

(** A check that was made, and passed. *)
Definition passed (check : option (string -> prog W unit)) (t : string) : Prop :=
  match check with Some f => exists w w', I w /\ f t w = (Ok tt, w') | None => True end.

(** The checks do not touch the repository. *)
Definition check_calm (check : option (string -> prog W unit)) : Prop :=
  match check with Some f => forall t w, I w -> I (f t w).2 | None => True end.

Lemma checkTarget_Ok check t w w' : check_calm check -> I w -> checkTarget check t w = (Ok tt, w') -> passed check t /\ I w'.
Proof using Type.
  destruct check as [f|]; simpl; [|by intros _ Hw [= <-]]. intros Hc Hw E. split; [by exists w, w'|]. specialize (Hc t w Hw). by rewrite E in Hc.
Qed.

Lemma parts_sound n check resolve xs : check_calm check ->
  (forall p w r w', I w -> resolve p w = (Ok r, w') -> exists ts, Resolves n p r ts /\ Forall (passed check) ts /\ I w') ->
  forall d w r w', I w -> resolveParts treeFuel resolve commit check xs d w = (Ok r, w') ->
  exists ts, Parts n xs d r ts /\ Forall (passed check) ts /\ I w'.
Proof using calm.
  intros Hc Hr. induction xs as [|x xs IH]; intros d w r w' Hw; cbn [resolveParts].
  { intros [= <- <-]. exists []. repeat constructor. done. }
  intros H. apply bind_Ok in H as (e & ? & H1 & H0). step_ok. destruct (GetCommitTreeEntry_calm (Filepath.Join [d; x]) w Hw) as (w1 & E1 & Hw1).
  match goal with Ha : GetCommitTreeEntry _ _ _ w = _ |- _ => rewrite E1 in Ha; injection Ha as Ea <- end.
  destruct (IsMalformed (ModeOf e)) eqn:Em; [done|]. case_bool_decide as Es; cycle 1.
  { destruct (IH _ _ _ _ Hw1 H0) as (ts & Hp & Hts & Hw'). exists ts. split; [|done]. apply parts_real; [|done]. exists (ModeOf e). split; [by exists e|done]. }
  step_ok. destruct (ReadContent_calm (Filepath.Join [d; x]) w1 Hw1) as (w2 & E2 & Hw2).
  match goal with Ha : ReadCommitTreeEntryContent _ _ _ w1 = _ |- _ => rewrite E2 in Ha; injection Ha as Eb <- end.
  match type of Eb with _ = Ok ?l => rename l into link end. destruct (GoPath.IsAbs link) eqn:Eabs; [done|].
  destruct (bool_decide _ || _) eqn:Eout; [done|]. apply orb_false_iff in Eout as [Eout1%bool_decide_eq_false Eout2].
  step_ok. match goal with Hck : checkTarget _ _ _ = (Ok ?u, _) |- _ => destruct u; destruct (checkTarget_Ok _ _ _ _ Hc Hw2 Hck) as [Hpass Hw3] end.
  match goal with Hre : resolve _ _ = (Ok _, _) |- _ => destruct (Hr _ _ _ _ Hw3 Hre) as (ts1 & Hres & Hts1 & Hw4) end.
  match goal with Hrest : resolveParts _ _ _ _ xs _ _ = _ |- _ => destruct (IH _ _ _ _ Hw4 Hrest) as (ts2 & Hparts & Hts2 & Hw5) end.
  eexists (_ :: ts1 ++ ts2). split; [|split; [constructor; [exact Hpass|by apply Forall_app]|done]].
  eapply parts_link; [|exact Hres|exact Hparts]. split; [by exists e|]. exists link. done.
Qed.

Lemma resolve_sound levels check : check_calm check -> forall p w r w', I w ->
  resolveCommitFilePath treeFuel levels commit p check w = (Ok r, w') -> exists ts, Resolves levels p r ts /\ Forall (passed check) ts /\ I w'.
Proof using calm.
  intros Hc. induction levels as [|levels IH]; intros p w r w' Hw; cbn [resolveCommitFilePath]; [done|].
  intros H. apply bind_Ok in H as (e & ? & H1 & H0). step_ok. destruct (GetCommitTreeEntry_calm p w Hw) as (w1 & E1 & Hw1).
  match goal with Ha : GetCommitTreeEntry _ _ _ w = _ |- _ => rewrite E1 in Ha; injection Ha as Ea <- end.
  destruct (negb _ && negb _) eqn:E.
  - apply andb_true_iff in E as [E2%negb_true_iff%bool_decide_eq_false E3%negb_true_iff]. step_ok. exists []. split; [|by split].
    apply resolves_real. exists (ModeOf e). split; [by exists e|done].
  - apply (parts_sound levels) in H0; [|done|exact IH|done]. destruct H0 as (ts & Hp & Hts & Hw'). exists ts. split; [|done].
    eapply resolves_parts; [by exists e| |exact Hp]. apply andb_false_iff in E as [E|E]; apply negb_false_iff in E; [left; by apply bool_decide_eq_true in E|by right].
Qed.

(** ** What resolves is returned *)

Lemma mode_of_unique p m m' : mode_of p m -> mode_of p m' -> m = m'.
Proof using Type. intros (e & E & <-) (e' & E' & <-). congruence. Qed.

Lemma bind_step {A B} (x : prog W A) (f : A -> prog W B) a w w' : x w = (Ok a, w') -> (x ≫= f) w = f a w'.
Proof using Type. intros E. unfold mbind, prog_bind. by rewrite E. Qed.

Lemma entry_step path m w : mode_of path m -> I w -> exists e w', ModeOf e = m /\ I w' /\
  forall fmt args, wrap fmt args (GetCommitTreeEntry treeFuel commit path) w = (Ok e, w').
Proof using calm.
  intros (e & E & Em) Hw. destruct (GetCommitTreeEntry_calm path w Hw) as (w' & Ew & Hw'). exists e, w'. split; [done|]. split; [done|].
  intros fmt args. unfold wrap. by rewrite Ew, E.
Qed.

Lemma content_step path link w : contentAt path = Ok link -> I w -> exists w', I w' /\
  forall fmt args, wrap fmt args (ReadCommitTreeEntryContent treeFuel commit path) w = (Ok link, w').
Proof using calm.
  intros E Hw. destruct (ReadContent_calm path w Hw) as (w' & Ew & Hw'). exists w'. split; [done|].
  intros fmt args. unfold wrap. by rewrite Ew, E.
Qed.

(** A check that lets a target pass. *)
Definition accepts (check : option (string -> prog W unit)) (t : string) : Prop :=
  match check with Some f => forall w, I w -> exists w', f t w = (Ok tt, w') /\ I w' | None => True end.

Lemma accepts_step check t w : accepts check t -> I w -> exists w', I w' /\ checkTarget check t w = (Ok tt, w').
Proof using Type. destruct check as [g|]; simpl; intros H Hw; [|by exists w]. destruct (H w Hw) as (w' & E & Hw'). by exists w'. Qed.

Lemma resolve_complete n p r ts : Resolves n p r ts -> forall check w, I w -> Forall (accepts check) ts ->
  exists w', resolveCommitFilePath treeFuel n commit p check w = (Ok r, w') /\ I w'.
Proof using calm.
  intros H. apply (Resolves_mut
    (fun n p r ts _ => forall check w, I w -> Forall (accepts check) ts ->
       exists w', resolveCommitFilePath treeFuel n commit p check w = (Ok r, w') /\ I w')
    (fun n xs d r ts _ => forall check w, I w -> Forall (accepts check) ts ->
       exists w', resolveParts treeFuel (fun q => resolveCommitFilePath treeFuel n commit q check) commit check xs d w = (Ok r, w') /\ I w')); [..|exact H]; clear n p r ts H.
  - intros n p (m & Hm & Hs & Hf) check w Hw _. cbn [resolveCommitFilePath].
    destruct (entry_step p m w Hm Hw) as (e & w' & Ee & Hw' & E). rewrite (bind_step _ _ _ _ _ (E _ _)).
    rewrite Ee, bool_decide_eq_false_2, Hf by done. by exists w'.
  - intros n p m r ts Hm Hs _ IH check w Hw Hts. cbn [resolveCommitFilePath].
    destruct (entry_step p m w Hm Hw) as (e & w' & Ee & Hw' & E). rewrite (bind_step _ _ _ _ _ (E _ _)).
    assert (negb (bool_decide (ModeOf e = Symlink)) && negb (IsMalformed (ModeOf e)) = false) as ->.
    { rewrite Ee. destruct Hs as [-> | ->]; [by rewrite bool_decide_eq_true_2|by destruct (bool_decide _)]. }
    by apply IH.
  - intros n d check w Hw _. by exists w.
  - intros n x xs d r ts (m & Hm & Hs & Hf) _ IH check w Hw Hts. cbn [resolveParts].
    destruct (entry_step (Filepath.Join [d; x]) m w Hm Hw) as (e & w' & Ee & Hw' & E). rewrite (bind_step _ _ _ _ _ (E _ _)).
    rewrite Ee, Hf, bool_decide_eq_false_2 by done. by apply IH.
  - intros n x xs d t r' r ts1 ts2 (Hm & link & Hl & Ha & -> & Ho1 & Ho2) _ IH1 _ IH2 check w Hw Hts. cbn [resolveParts].
    apply Forall_cons in Hts as [Ht [Hts1 Hts2]%Forall_app].
    destruct (entry_step (Filepath.Join [d; x]) Symlink w Hm Hw) as (e & w1 & Ee & Hw1 & E1). rewrite (bind_step _ _ _ _ _ (E1 _ _)).
    rewrite Ee. cbn [IsMalformed]. rewrite bool_decide_eq_true_2 by done.
    destruct (content_step (Filepath.Join [d; x]) link w1 Hl Hw1) as (w2 & Hw2 & E2). rewrite (bind_step _ _ _ _ _ (E2 _ _)), Ha.
    rewrite (bool_decide_eq_false_2 (_ = "..")), Ho2 by done. cbn [orb].
    edestruct (accepts_step check (Filepath.Join [Filepath.Dir (Filepath.Join [d; x]); link]) w2) as (w3 & Hw3 & E3); [done|done|]. rewrite (bind_step _ _ _ _ _ E3).
    destruct (IH1 check w3 Hw3 Hts1) as (w4 & E4 & Hw4). rewrite (bind_step _ _ _ _ _ E4). by apply IH2.
Qed.

(** ** What is returned is real *)

(** What is known of the function of common-go, and of a commit that has a tree. *)
Definition SplitLaw : Prop := forall p, SplitFilepath p = [] -> p = "".

Lemma root_mode m : mode_of "" m -> m = Dir.
Proof using Type.
  intros (e & E & <-). unfold entryAt, LsTree in E. destruct (GetCommitTree h0 (NewHash commit)) as [t| |]; [|done..].
  cbn in E. injection E as <-. unfold Result_LsTreeEntry, Walk. cbn. unfold byFullFilepath, byRepository.
  assert (forall {A} (less : A -> A -> bool) x, sort_Slice less [x] = [x]) as Hs1.
  { intros A less x. pose proof (sort_perm less [x]) as H. by apply Permutation_singleton_r in H. }
  assert (forall {A} (less : A -> A -> bool), sort_Slice less [] = []) as Hs0.
  { intros A less. pose proof (sort_perm less []) as H. by apply Permutation_nil_r in H. }
  rewrite Hs1, Hs0. done.
Qed.

Lemma resolves_to_real n p r ts : SplitLaw -> Resolves n p r ts -> real r.
Proof using Type.
  intros Hsplit H. apply (Resolves_mut
    (fun n p r ts _ => real r)
    (fun n xs d r ts _ => real r \/ (xs = [] /\ r = d))) with (n := n) (s := p) (l := ts); [..|exact H].
  - done.
  - intros n' p' m r' ts' Hm Hs _ [IH|[E ->]]; [done|]. apply Hsplit in E as ->. apply root_mode in Hm as ->. by destruct Hs.
  - intros _ d. by right.
  - intros _ x xs d r' _ Hr _ [IH|[-> ->]]; by left.
  - intros _ x xs d t r' r'' _ _ _ _ IH1 _ [IH|[-> ->]]; by left.
Qed.

(** C27: Resolving a path of a commit that stays as it is, with a check of the targets of links: what is
    returned is where the path leads through the links, at most 1001 levels of them deep; it is an entry that
    is there and is no link; every target on the way passed the check. And where a path leads there, and
    the check accepts the targets, it is returned. *)
Theorem resolve_refines p checkFunc w : SplitLaw -> check_calm (Some checkFunc) -> I w ->
  (forall r w', ResolveAndCheckCommitFilePath treeFuel commit p checkFunc w = (Ok r, w') ->
     real r /\ exists ts, Resolves depth p r ts /\ Forall (passed (Some checkFunc)) ts) /\
  (forall r ts, Resolves depth p r ts -> Forall (accepts (Some checkFunc)) ts ->
     exists w', ResolveAndCheckCommitFilePath treeFuel commit p checkFunc w = (Ok r, w')).
Proof using calm.
  intros Hsplit Hc Hw. unfold ResolveAndCheckCommitFilePath. split.
  - intros r w' E. apply resolve_sound in E as (ts & Hr & Hts & _); [|done..]. split; [by eapply resolves_to_real|by exists ts].
  - intros r ts Hr Hts. destruct (resolve_complete _ _ _ _ Hr (Some checkFunc) w Hw Hts) as (w' & E & _). by exists w'.
Qed.

(** ** Links that lead to themselves *)

(** Paths whose first part is a link to one of them. *)
Definition cyclic (C : string -> Prop) : Prop := forall p, C p ->
  (exists m, mode_of p m /\ (m = Symlink \/ IsMalformed m = true)) /\
  exists x xs t, SplitFilepath p = x :: xs /\ link_to (Filepath.Join [""; x]) t /\ C t.

(** A link that leads back to itself, in any number of steps, is an error, and no file that can be read
    hides behind it. *)
Theorem link_cycle_fails C p w : cyclic C -> C p -> I w ->
  exists w', ResolveCommitFilePath treeFuel commit p w = (Err (Errorf "too many levels of symbolic links" []), w').
Proof using calm.
  intros HC Hp Hw. assert (forall n p w, C p -> I w -> exists w', I w' /\
    resolveCommitFilePath treeFuel n commit p None w = (Err (Errorf "too many levels of symbolic links" []), w')) as H;
    [|destruct (H depth p w Hp Hw) as (w' & _ & E); by exists w'].
  clear p w Hp Hw. induction n as [|n IH]; intros p w Hp Hw; [by exists w|]. cbn [resolveCommitFilePath].
  destruct (HC p Hp) as [(m & Hm & Hs) (x & xs & t & -> & (Hx & link & Hl & Ha & -> & Ho1 & Ho2) & Ht)].
  destruct (entry_step p m w Hm Hw) as (e & w1 & Ee & Hw1 & E1). rewrite (bind_step _ _ _ _ _ (E1 _ _)).
  assert (negb (bool_decide (ModeOf e = Symlink)) && negb (IsMalformed (ModeOf e)) = false) as ->.
  { rewrite Ee. destruct Hs as [-> | ->]; [by rewrite bool_decide_eq_true_2|by destruct (bool_decide _)]. }
  cbn [resolveParts]. destruct (entry_step _ Symlink w1 Hx Hw1) as (e' & w2 & Ee' & Hw2 & E2). rewrite (bind_step _ _ _ _ _ (E2 _ _)).
  rewrite Ee'. cbn [IsMalformed]. rewrite bool_decide_eq_true_2 by done.
  destruct (content_step _ link w2 Hl Hw2) as (w3 & Hw3 & E3). rewrite (bind_step _ _ _ _ _ (E3 _ _)), Ha.
  rewrite (bool_decide_eq_false_2 (_ = "..")), Ho2 by done. cbn [orb checkTarget].
  destruct (IH _ w3 Ht Hw3) as (w4 & Hw4 & E4). exists w4. split; [done|]. unfold mbind, prog_bind, mret, prog_ret. by rewrite E4.
Qed.

(** * Directories that contain themselves *)

Lemma resolved p r ts w : Resolves depth p r ts -> I w -> exists w', ResolveCommitFilePath treeFuel commit p w = (Ok r, w') /\ I w'.
Proof using calm. intros H Hw. apply (resolve_complete _ _ _ _ H None w Hw). by apply Forall_true. Qed.

Lemma dir_exists p r ts w : Resolves depth p r ts -> mode_of r Dir -> I w -> exists w', IsCommitDirectoryExist treeFuel commit p w = (Ok true, w') /\ I w'.
Proof using calm.
  intros Hr Hm Hw. unfold IsCommitDirectoryExist, checkCommitFileMode. destruct (resolved p r ts w Hr Hw) as (w1 & E1 & Hw1).
  assert (try (ResolveCommitFilePath treeFuel commit p) w = (Ok (inl r), w1)) as Et by (unfold try; by rewrite E1).
  rewrite (bind_step _ _ _ _ _ Et). cbn beta iota.
  destruct (entry_step r Dir w1 Hm Hw1) as (e & w2 & Ee & Hw2 & E2). rewrite (bind_step _ _ _ _ _ (E2 _ _)), Ee. exists w2. split; [|done].
  unfold mret, prog_ret. rewrite bool_decide_eq_true_2; [done|]. by left.
Qed.

(** Files of the walk that the caller's function is called with, or that the matcher leaves out. *)
Definition handled {A} (m : PathMatcher) (fileFunc : A -> string -> prog W A) (r p : string) (x : LsTreeEntry) : Prop :=
  ModeOf x <> Symlink /\ IsMalformed (ModeOf x) = false /\
  (exists b, IsDirOrSubmodulePathMatched m (replaceFirst (Filepath.ToSlash (FullFilepath x)) r p) = Ok b) /\
  forall a q w, I w -> exists a' w', fileFunc a q w = (Ok a', w') /\ I w'.

(** Going through a directory never ends where a link in it leads to a directory that it is in, as its path
    is spelled in the walk: whatever the fuel, it runs out. *)
Theorem walk_of_cycle_hangs {A} m (fileFunc : A -> string -> prog W A) p r ts res pre x rest :
  IsDirOrSubmodulePathMatched m p = Ok true -> Resolves depth p r ts -> mode_of r Dir ->
  LsTree treeFuel h0 commit (mkLsTreeOptions r None true) = Ok res -> Walk res = pre ++ x :: rest ->
  Forall (handled m fileFunc r p) pre -> ModeOf x = Symlink -> replaceFirst (Filepath.ToSlash (FullFilepath x)) r p = p ->
  forall fuel a w, I w -> (WalkCommitFiles treeFuel fuel commit p m fileFunc a w).1 = Panic "out of fuel".
Proof using calm.
  intros Hmt Hr Hd Hls Hwalk Hpre Hx Hp. induction fuel as [|fuel IH]; intros a w Hw; [done|]. cbn [WalkCommitFiles].
  assert (lift (IsDirOrSubmodulePathMatched m p) w = (Ok true, w)) as E0 by (unfold lift; by rewrite Hmt).
  rewrite (bind_step _ _ _ _ _ E0). cbn [negb].
  destruct (dir_exists p r ts w Hr Hd Hw) as (w1 & E1 & Hw1). rewrite (bind_step _ _ _ _ _ E1). cbn [negb].
  destruct (resolved p r ts w1 Hr Hw1) as (w2 & E2 & Hw2).
  assert (forall f args, wrap f args (ResolveCommitFilePath treeFuel commit p) w1 = (Ok r, w2)) as E2' by (intros; unfold wrap; by rewrite E2).
  rewrite (bind_step _ _ _ _ _ (E2' _ _)).
  destruct (withRepoHandle_calm (fun h => LsTree treeFuel h commit (mkLsTreeOptions r None true)) w2 Hw2) as (w3 & E3 & Hw3).
  rewrite Hls in E3. rewrite (bind_step (lsTreeResult treeFuel commit (mkLsTreeOptions r None true)) _ _ _ _ E3), Hwalk. clear E3 Hwalk.
  revert a w3 Hw3. induction Hpre as [|y pre (Hy1 & Hy2 & (b & Hb) & Hy3) _ IHp]; intros a w3 Hw3; cbn [app for_fold].
  - rewrite Hx. cbn [IsMalformed]. rewrite Hp. unfold mbind, prog_bind. rewrite E0 || (unfold lift at 1; rewrite Hmt). cbn [negb].
    rewrite bool_decide_eq_true_2 by done. destruct (dir_exists p r ts w3 Hr Hd Hw3) as (w4 & E4 & Hw4). rewrite E4.
    specialize (IH a w4 Hw4). destruct (WalkCommitFiles _ _ _ _ _ _ _ _) as [[] ?]; simpl in *; congruence.
  - rewrite Hy2. assert (lift (IsDirOrSubmodulePathMatched m (replaceFirst (Filepath.ToSlash (FullFilepath y)) r p)) w3 = (Ok b, w3)) as Eb by (unfold lift; by rewrite Hb).
    destruct b; cbn [negb].
    + destruct (Hy3 a (replaceFirst (Filepath.ToSlash (FullFilepath y)) r p) w3 Hw3) as (a' & w4 & E4 & Hw4).
      erewrite bind_step; [by apply IHp|]. rewrite (bind_step _ _ _ _ _ Eb). cbn [negb].
      rewrite bool_decide_eq_false_2 by done. exact E4.
    + erewrite bind_step; [by apply IHp|]. by rewrite (bind_step _ _ _ _ _ Eb).
Qed.

End files.
End GitFilesProps.
