(* ===== verification/FileReader.v ===== *)
(** pkg/giterminism_manager/file_reader: the files of the configuration, read from the commit, or from the
    project directory where the giterminism configuration accepts that. What is read from the commit must not
    have changed in the work tree. Files of the system are read through a class. *)
From S2P Require Import Prelude Go GoStd GitScan PathMatcher LsTree GitStatus GitFiles.
Import PathMatcher GitFiles.

(** What [Lstat] says of a file. *)
Record FileInfo := mkFileInfo { IsDir : bool; IsSymlink : bool }.

(** The layer of the file system, and the errors of it that are told from others. *)
Class FileSystem (W : Type) := {
  fs_ReadFile : string -> prog W string;
  fs_Readlink : string -> prog W string;
  fs_Lstat : string -> prog W FileInfo;
  fs_IsNotExist : error -> bool;
  IsNotADirectoryError : error -> bool;
  fs_FileExists : string -> prog W bool;
  fs_DirExists : string -> prog W bool;
  fs_RegularFileExists : string -> prog W bool;
  (** The names in a directory, in their order. *)
  readDirNames : string -> prog W (list string);
}.

Module FileReader.

(** [sharedOptions], with the work tree of the local repository, and the giterminism configuration. *)
Record SharedOptions := mkSharedOptions {
  ProjectDir : string; RelativeToGitProjectDir : string; WorkTreeDir : string; HeadCommit : string;
  LooseGiterminism : bool; Dev : bool;
}.

Record GiterminismConfig `{!PatternMatchers} := mkGiterminismConfig {
  IsUncommittedConfigAccepted : bool;
  UncommittedConfigTemplateFilePathMatcher : PathMatcher;
  UncommittedConfigGoTemplateRenderingFilePathMatcher : PathMatcher;
  IsUncommittedDockerfileAccepted : string -> res bool;
  IsUncommittedDockerignoreAccepted : string -> res bool;
  UncommittedHelmFilePathMatcher : PathMatcher;
}.

Section reader.
Context `{!GoGit, !GoQuote, !Doublestar, !PatternMatchers, !UtilFilepaths, !UtilPaths, !Hashes, !SortSlice, !GlobPrefixes, !StringArrays}.
Context {W : Type} `{!RepoBase W, !GitStatus.LocalRepo W, !FileSystem W}.
Variable LegacyMurmurHash : list string -> string.
(** The fuel for trees and for directories. *)
Variable fuel : nat.
Variable opts : SharedOptions.

(** * Errors *)

Definition NewError (e : error) : error :=
  Wrapf "%w

To provide a strong guarantee of reproducibility, werf reads the configuration and build's context files from the project git repository, and eliminates external dependencies. We strongly recommend following this approach, but if necessary, you can allow the reading of specific files directly from the file system and enable the features that require careful use." [] e.

Definition NewFileNotFoundInProjectDirectoryError (relPath : string) : error :=
  GoErrors.typed "FileNotFoundInProjectDirectoryError" [] (NewError (Errorf "the file %q not found in the project directory" [FQ relPath])).

Definition NewFileNotFoundInProjectRepositoryError (relPath : string) : error :=
  GoErrors.typed "FileNotFoundInProjectRepositoryError" [] (NewError (Errorf "the file %q not found in the project git repository" [FQ relPath])).

Definition uncommittedErrorBase (errorMsg : error) (gitAddArg : string) : error :=
  GoErrors.typed "UncommittedFilesError" [] (NewError
    (if Dev opts then
       Wrapf "%w

To stage the changes use the following command: %sgit add %s%s." [FS (String "034" ""); FS gitAddArg; FS (String "034" "")] errorMsg
     else
       Wrapf "%w

You may be interested in the development mode (activated by the --dev option), which allows working with project files without doing redundant commits during debugging and development." [] errorMsg)).

Definition uncommittedUntrackedExpectedAction : string := if Dev opts then "must be staged" else "must be committed".

Definition NewSubmoduleAddedAndNotCommittedError (p : string) : error := uncommittedErrorBase (Errorf "the added submodule %q must be committed" [FQ p]) p.
Definition NewSubmoduleDeletedError (p : string) : error := uncommittedErrorBase (Errorf "the deleted submodule %q must be committed" [FQ p]) p.
Definition NewSubmoduleHasUntrackedChangesError (p : string) : error :=
  GoErrors.typed "UntrackedFilesError" [] (NewError (Errorf "the submodule %q has untracked changes that must be discarded or committed (do not forget to push new changes to the submodule remote)" [FQ p])).
Definition NewSubmoduleHasUncommittedChangesError (p : string) : error :=
  GoErrors.typed "UncommittedFilesError" [] (Errorf "the submodule %q has uncommitted changes that must be discarded or committed (do not forget to push new changes to the submodule remote)" [FQ p]).
Definition NewSubmoduleCommitChangedError (p : string) : error :=
  uncommittedErrorBase (Errorf "the submodule %q is not clean and %s. Do not forget to push the current commit to the submodule remote if this commit exists only locally" [FQ p; FS uncommittedUntrackedExpectedAction]) p.

Definition prepareListOfFilesString (paths : list string) : string := " - " +:+ Str.Join paths (String "010" " - ").

Definition NewUntrackedFilesError (relPaths : list string) : res error :=
  match relPaths with
  | [] => Panic "unexpected condition"
  | [p] => Ok (GoErrors.typed "UntrackedFilesError" [] (uncommittedErrorBase (Errorf "the untracked file %q %s" [FQ p; FS uncommittedUntrackedExpectedAction]) p))
  | _ => Ok (GoErrors.typed "UntrackedFilesError" [] (uncommittedErrorBase
           (Errorf "the following untracked files %s:

%s" [FS uncommittedUntrackedExpectedAction; FS (prepareListOfFilesString relPaths)]) (Str.Join relPaths " ")))
  end.

Definition NewUncommittedFilesError (relPaths : list string) : res error :=
  match relPaths with
  | [] => Panic "unexpected condition"
  | [p] => Ok (uncommittedErrorBase (Errorf "the file %q %s" [FQ p; FS uncommittedUntrackedExpectedAction]) p)
  | _ => Ok (uncommittedErrorBase
           (Errorf "the following files %s:

%s" [FS uncommittedUntrackedExpectedAction; FS (prepareListOfFilesString relPaths)]) (Str.Join relPaths " "))
  end.

(** [return err], for an error that is made where there are paths. *)
Definition fail_with {A} (e : res error) : prog W A := e ← lift e; fail e.

(** * The repository *)

Definition projectDirRelativePathToWorkTreeRelativePath (relPath : string) : string := Filepath.Join [RelativeToGitProjectDir opts; relPath].

Definition gitRelativePathToProjectDirRelativePath (relToGitPath : string) : string :=
  GetRelativeToBaseFilepath (RelativeToGitProjectDir opts) relToGitPath.

Definition isSubpathOfWorkTreeDir (absPath : string) : bool := IsSubpathOfBasePath (WorkTreeDir opts) absPath.

Definition HandleValidateStatusResultError (err : error) : res error :=
  let path l := gitRelativePathToProjectDirRelativePath (hd "" l) in
  match GoErrors.type_of err with
  | Some (kind, l) =>
      if bool_decide (kind = "UncommittedFilesFoundError") then NewUncommittedFilesError (gitRelativePathToProjectDirRelativePath <$> l)
      else if bool_decide (kind = "UntrackedFilesFoundError") then NewUntrackedFilesError (gitRelativePathToProjectDirRelativePath <$> l)
      else if bool_decide (kind = "SubmoduleAddedAndNotCommittedError") then Ok (NewSubmoduleAddedAndNotCommittedError (path l))
      else if bool_decide (kind = "SubmoduleDeletedError") then Ok (NewSubmoduleDeletedError (path l))
      else if bool_decide (kind = "SubmoduleHasUntrackedChangesError") then Ok (NewSubmoduleHasUntrackedChangesError (path l))
      else if bool_decide (kind = "SubmoduleHasUncommittedChangesError") then Ok (NewSubmoduleHasUncommittedChangesError (path l))
      else if bool_decide (kind = "SubmoduleCommitChangedError") then Ok (NewSubmoduleCommitChangedError (path l))
      else Ok err
  | None => Ok err
  end.

Definition validateStatusResult (pathMatcher : PathMatcher) : prog W unit :=
  if Dev opts then mret tt
  else
    r ← try (GitStatus.ValidateStatusResult LegacyMurmurHash pathMatcher);
    match r with
    | inl _ => mret tt
    | inr err => fail_with (HandleValidateStatusResultError err)
    end.

(** The matcher of one path and all below it. *)
Definition pathOnly (relPath : string) : res PathMatcher :=
  NewPathMatcher (mkPathMatcherOptions (projectDirRelativePathToWorkTreeRelativePath relPath) [] [] None []).

Definition ValidateFileByStatusResult (relPath : string) : prog W unit :=
  m ← lift (pathOnly relPath); validateStatusResult m.

Definition statusPathList (pathMatcher : PathMatcher) : prog W (list string) :=
  if Dev opts then mret []
  else
    list ← GitStatus.statusPathList LegacyMurmurHash pathMatcher;
    mret (gitRelativePathToProjectDirRelativePath <$> list).

Definition reader_IsCommitFileExist (relPath : string) : prog W bool :=
  IsCommitFileExist fuel (HeadCommit opts) (projectDirRelativePathToWorkTreeRelativePath relPath).

Definition reader_IsCommitTreeEntryExist (relPath : string) : prog W bool :=
  isTreeEntryExist fuel (HeadCommit opts) (projectDirRelativePathToWorkTreeRelativePath relPath).

Definition reader_IsCommitTreeEntryDirectory (relPath : string) : prog W bool :=
  isCommitTreeEntryDirectory fuel (HeadCommit opts) (projectDirRelativePathToWorkTreeRelativePath relPath).

Definition reader_ReadCommitTreeEntryContent (relPath : string) : prog W string :=
  ReadCommitTreeEntryContent fuel (HeadCommit opts) (projectDirRelativePathToWorkTreeRelativePath relPath).

Definition reader_ResolveAndCheckCommitFilePath (relPath : string) (check : string -> prog W unit) : prog W string :=
  ResolveAndCheckCommitFilePath fuel (HeadCommit opts) (projectDirRelativePathToWorkTreeRelativePath relPath) check.

Definition listCommitFilesWithGlob (dir pattern : string) : prog W (list string) :=
  list ← ListCommitFilesWithGlob fuel fuel (HeadCommit opts) (projectDirRelativePathToWorkTreeRelativePath dir) pattern;
  mret ((fun path => GetRelativeToBaseFilepath dir (gitRelativePathToProjectDirRelativePath path)) <$> list).

Definition reader_ReadCommitFile (relPath : string) : prog W string :=
  ReadCommitFile fuel (HeadCommit opts) (projectDirRelativePathToWorkTreeRelativePath relPath).

(** The check of the target of a link. *)
Definition validateTarget (resolvedRelPath : string) : prog W unit :=
  ValidateFileByStatusResult (gitRelativePathToProjectDirRelativePath resolvedRelPath).

Definition checkCommitFileExistenceAndLocalChanges (relPath : string) : prog W unit :=
  ValidateFileByStatusResult relPath;;
  commitTreeEntryExist ← reader_IsCommitTreeEntryExist relPath;
  (if (commitTreeEntryExist : bool) then mret tt
   else
     commitFileExist ← reader_IsCommitFileExist relPath;
     if (commitFileExist : bool) then mret tt else fail (NewFileNotFoundInProjectRepositoryError relPath));;
  wrap "symlink %q check failed: %w" [FQ relPath]
    (resolvedPath ← reader_ResolveAndCheckCommitFilePath relPath validateTarget;
     if bool_decide (resolvedPath <> relPath) then ValidateFileByStatusResult relPath else mret tt).

(** True if the list is not empty, whatever the name says. *)
Definition isStatusPathListEmpty (pathMatcher : PathMatcher) : prog W bool :=
  list ← statusPathList pathMatcher; mret (negb (bool_decide (list = []))).

Definition isFileModifiedLocally (relPath : string) : prog W bool :=
  m ← lift (pathOnly relPath); isStatusPathListEmpty m.

(** * The project directory *)

Definition projectRelativePathToAbsolutePath (relPath : string) : string := Filepath.Join [ProjectDir opts; relPath].

Definition absolutePathToProjectDirRelativePath (absPath : string) : string := GetRelativeToBaseFilepath (ProjectDir opts) absPath.

(** The target of a link, where it stays in the work tree. *)
Definition linkTarget (absPath link : string) : string :=
  if GoPath.IsAbs link then link else Filepath.Join [Filepath.Dir absPath; link].

Definition checkFileTarget (check : option (string -> prog W bool)) (p : string) : prog W unit :=
  match check with Some f => f p;; mret tt | None => mret tt end.

Fixpoint resolveFileParts (resolve : string -> prog W string) (check : option (string -> prog W bool)) (pathParts : list string) (resolvedPath : string) : prog W string :=
  match pathParts with
  | [] => mret resolvedPath
  | part :: pathParts' =>
      let pathToResolve := Filepath.Join [resolvedPath; part] in
      let absPathToResolve := projectRelativePathToAbsolutePath pathToResolve in
      r ← try (fs_Lstat absPathToResolve);
      match r with
      | inr err =>
          if fs_IsNotExist err || IsNotADirectoryError err then fail (NewFileNotFoundInProjectDirectoryError pathToResolve)
          else fail (Wrapf "unable to access file %q: %w" [FQ absPathToResolve] err)
      | inl lstat =>
          if IsSymlink lstat then
            link ← wrap "unable to read symlink %q: %w" [FQ ""] (fs_Readlink absPathToResolve);
            let resolvedLink := linkTarget absPathToResolve link in
            if negb (isSubpathOfWorkTreeDir resolvedLink) then fail (NewFileNotFoundInProjectDirectoryError resolvedLink)
            else
              let resolvedRelLink := absolutePathToProjectDirRelativePath resolvedLink in
              checkFileTarget check resolvedRelLink;;
              resolvedTarget ← resolve resolvedRelLink;
              resolveFileParts resolve check pathParts' resolvedTarget
          else resolveFileParts resolve check pathParts' pathToResolve
      end
  end.

(** [levels] is how many levels of links are left: there are none after a depth of 1000. *)
Fixpoint resolveFilePath (levels : nat) (relPath : string) (check : option (string -> prog W bool)) : prog W string :=
  match levels with
  | 0 => fail (Errorf "too many levels of symbolic links" [])
  | S levels => resolveFileParts (fun p => resolveFilePath levels p check) check (SplitFilepath relPath) ""
  end.

Definition ResolveFilePath (relPath : string) : prog W string := resolveFilePath depth relPath None.

Definition resolveAndCheckFilePath (relPath : string) (checkSymlinkTargetFunc : string -> prog W bool) : prog W string :=
  resolveFilePath depth relPath (Some checkSymlinkTargetFunc).

Definition isFileExist (relPath : string) (exists_ : string -> prog W bool) : prog W bool :=
  r ← try (ResolveFilePath relPath);
  match r with
  | inr err => if GoErrors.As "FileNotFoundInProjectDirectoryError" err then mret false
               else fail (Wrapf "unable to resolve file path %q: %w" [FQ relPath] err)
  | inl resolvedPath =>
      let absPath := projectRelativePathToAbsolutePath resolvedPath in
      wrap "unable to check existence of file %q: %w" [FQ absPath] (exists_ absPath)
  end.

Definition IsDirectoryExist (relPath : string) : prog W bool := isFileExist relPath fs_DirExists.
Definition IsRegularFileExist (relPath : string) : prog W bool := isFileExist relPath fs_RegularFileExists.
Definition IsFileExist (relPath : string) : prog W bool := isFileExist relPath fs_FileExists.

Definition readFile (relPath : string) : prog W string :=
  let absPath := projectRelativePathToAbsolutePath relPath in
  wrap "unable to read file %q: %w" [FQ absPath] (fs_ReadFile absPath).

(** ** Going through directories *)

(** What is done with a file: go on, or leave the directory out. *)
Inductive next (A : Type) := Go (a : A) | SkipDir (a : A).

(** [filepath.Walk]: [fn] gets a file, and what is wrong with it. A directory that is left out is not read further. *)
Fixpoint walkFrom {A} (fuel : nat) (path : string) (info : FileInfo) (fn : A -> string -> option FileInfo -> option error -> prog W (next A)) (a : A) : prog W (next A) :=
  match fuel with
  | 0 => panic "out of fuel"
  | S fuel =>
      if negb (IsDir info) then fn a path (Some info) None
      else
        names ← try (readDirNames path);
        r ← fn a path (Some info) (match names with inl _ => None | inr err => Some err end);
        match names, r with
        | inl names, Go _ a =>
            (fix each (names : list string) (a : A) : prog W (next A) :=
               match names with
               | [] => mret (Go _ a)
               | name :: names' =>
                   let filename := Filepath.Join [path; name] in
                   fileInfo ← try (fs_Lstat filename);
                   match fileInfo with
                   | inr err => r ← fn a filename None (Some err); match r with Go _ a | SkipDir _ a => each names' a end
                   | inl fileInfo =>
                       r ← walkFrom fuel filename fileInfo fn a;
                       match r with
                       | Go _ a => each names' a
                       | SkipDir _ a => if IsDir fileInfo then each names' a else mret (SkipDir _ a)
                       end
                   end
               end) names a
        | _, r => mret r
        end
  end.

Definition Walk {A} (root : string) (fn : A -> string -> option FileInfo -> option error -> prog W (next A)) (a : A) : prog W A :=
  info ← try (fs_Lstat root);
  r ← match info with
      | inr err => fn a root None (Some err)
      | inl info => walkFrom fuel root info fn a
      end;
  match r with Go _ a | SkipDir _ a => mret a end.

(** Directories and files that are skipped. *)
Definition skipFunc : Type := string -> prog W bool.

Definition skipPaths (acceptedFilePathMatcher : PathMatcher) : list string -> prog W bool :=
  fix each pathsToCheck :=
    match pathsToCheck with
    | [] => mret true
    | relPath :: pathsToCheck' =>
        b ← lift (IsDirOrSubmodulePathMatched acceptedFilePathMatcher relPath);
        if (b : bool) then mret false
        else
          modified ← isFileModifiedLocally relPath;
          if (modified : bool) then mret false else each pathsToCheck'
    end.

Definition skipFileFunc (acceptedFilePathMatcher : PathMatcher) : skipFunc := fun existingRelPath =>
  if bool_decide (Filepath.Base existingRelPath = ".git") then mret true
  else if LooseGiterminism opts then mret false
  else
    resolvedFilePath ← ResolveFilePath existingRelPath;
    skipPaths acceptedFilePathMatcher
      (existingRelPath :: if bool_decide (existingRelPath <> resolvedFilePath) then [resolvedFilePath] else []).

(** A file of the walk below [resolvedDir], which is [relDir] for the caller; [walk] goes into a directory. *)
Definition walkFile {A} (walk : string -> A -> prog W A) (relDir resolvedDir : string) (pathMatcher : PathMatcher) (skip : skipFunc)
    (fileFunc : A -> string -> prog W A) (a : A) (path : string) (info : option FileInfo) (err : option error) : prog W (next A) :=
  match err, info with
  | Some err, _ => fail err
  | None, None => panic "nil pointer dereference"
  | None, Some f =>
      let resolvedRelPath := absolutePathToProjectDirRelativePath path in
      let notResolvedRelPath := replaceFirst resolvedRelPath resolvedDir relDir in
      let skipped := mret (if IsDir f then SkipDir _ a else Go _ a) in
      b ← lift (IsDirOrSubmodulePathMatched pathMatcher notResolvedRelPath);
      if negb b then skipped
      else
        s ← skip resolvedRelPath;
        if (s : bool) then skipped
        else if IsDir f then mret (Go _ a)
        else if IsSymlink f then
          link ← wrap "unable to read symlink %q: %w" [FQ path] (fs_Readlink path);
          let resolvedLink := linkTarget path link in
          if negb (isSubpathOfWorkTreeDir resolvedLink) then fail (NewFileNotFoundInProjectDirectoryError resolvedLink)
          else
            lstat ← fs_Lstat resolvedLink;
            if IsDir lstat then
              a ← wrap "symlink %q resolve failed: %w" [FQ resolvedRelPath] (walk notResolvedRelPath a);
              mret (Go _ a)
            else a ← fileFunc a notResolvedRelPath; mret (Go _ a)
        else a ← fileFunc a notResolvedRelPath; mret (Go _ a)
  end.

(** [links] is how many links to directories are gone into on one way. *)
Fixpoint walkFilesWithPathMatcher {A} (links : nat) (relDir : string) (pathMatcher : PathMatcher) (skip : skipFunc)
    (fileFunc : A -> string -> prog W A) (a : A) : prog W A :=
  match links with
  | 0 => panic "out of fuel"
  | S links =>
      b ← lift (IsDirOrSubmodulePathMatched pathMatcher relDir);
      if negb b then mret a
      else
        exist ← IsDirectoryExist relDir;
        if negb exist then mret a
        else
          skipDir ← skip relDir;
          if (skipDir : bool) then mret a
          else
            resolvedDir ← wrap "unable to resolve file path %q: %w" [FQ relDir] (ResolveFilePath relDir);
            Walk (projectRelativePathToAbsolutePath resolvedDir)
              (walkFile (fun dir a => walkFilesWithPathMatcher links dir pathMatcher skip fileFunc a) relDir resolvedDir pathMatcher skip fileFunc) a
  end.

Definition listFilesWithGlob (relDir glob : string) (skip : skipFunc) : prog W (list string) :=
  let p := GlobPrefixWithoutPatterns glob in
  let relDirOrFileWithGlobPart := Filepath.Join [relDir; p.1] in
  pathMatcher ← lift (NewPathMatcher (mkPathMatcherOptions relDirOrFileWithGlobPart [p.2] [] None []));
  let fileFunc (result : list string) notResolvedPath :=
    b ← lift (IsPathMatched pathMatcher notResolvedPath);
    mret (if (b : bool) then result ++ [GetRelativeToBaseFilepath relDir notResolvedPath] else result) in
  isRegularFile ← isFileExist relDirOrFileWithGlobPart fs_RegularFileExists;
  if (isRegularFile : bool) then
    s ← skip relDirOrFileWithGlobPart;
    if (s : bool) then mret [] else fileFunc [] relDirOrFileWithGlobPart
  else walkFilesWithPathMatcher fuel relDirOrFileWithGlobPart pathMatcher skip fileFunc [].

(** ** Acceptance *)

Definition matchPathFunc : Type := string -> res bool.
Definition testFileFunc : Type := string -> prog W bool.

Definition notAcceptedError (resolvedPath : string) : error :=
  NewError (Errorf "the link target %q should be also accepted by giterminism config" [FQ resolvedPath]).

Definition acceptTarget (isPathMatched : matchPathFunc) (resolvedRelPath : string) : prog W bool :=
  b ← lift (isPathMatched resolvedRelPath);
  if negb b then fail (notAcceptedError resolvedRelPath) else mret true.

Definition checkFileExistenceAndAcceptance (relPath : string) (isPathMatched : matchPathFunc) (exists_ : testFileFunc) : prog W unit :=
  if LooseGiterminism opts then
    exist ← exists_ relPath;
    if negb exist then fail (NewFileNotFoundInProjectDirectoryError relPath) else mret tt
  else
    b ← lift (isPathMatched relPath);
    if negb b then fail (GoErrors.typed "FileNotAcceptedError" [] (Errorf "the file %q not accepted by giterminism config" [FQ relPath]))
    else
      wrap "accepted file %q check failed: %w" [FQ relPath]
        (resolvedPath ← resolveAndCheckFilePath relPath (acceptTarget isPathMatched);
         if bool_decide (resolvedPath <> relPath) then
           b ← lift (isPathMatched relPath);
           if negb b then fail (notAcceptedError resolvedPath) else mret tt
         else mret tt).

Definition shouldFileBeRead (relPath : string) (isPathMatched : matchPathFunc) : prog W bool :=
  if LooseGiterminism opts then mret true else lift (isPathMatched relPath).

(** * Files of the configuration *)

Definition readConfigurationFile (relPath : string) (isPathMatched : matchPathFunc) : prog W string :=
  shouldFileBeReadFromFS ← shouldFileBeRead relPath isPathMatched;
  if (shouldFileBeReadFromFS : bool) then readFile relPath else reader_ReadCommitFile relPath.

Definition checkConfigurationFileExistenceAndAcceptance (relPath : string) (isPathMatched : matchPathFunc) (exists_ : testFileFunc) : prog W bool :=
  shouldFileBeReadFromFS ← shouldFileBeRead relPath isPathMatched;
  if (shouldFileBeReadFromFS : bool) then
    checkFileExistenceAndAcceptance relPath isPathMatched exists_;; exists_ relPath
  else
    checkCommitFileExistenceAndLocalChanges relPath;; exists_ relPath.

Definition readAndCheckConfigurationFile (relPath : string) (isPathMatched : matchPathFunc) (exists_ : testFileFunc) : prog W string :=
  checkConfigurationFileExistenceAndAcceptance relPath isPathMatched exists_;;
  readConfigurationFile relPath isPathMatched.

Definition isConfigurationFileExistAnywhere (relPath : string) : prog W bool :=
  exist ← IsRegularFileExist relPath;
  if (exist : bool) then mret true
  else if LooseGiterminism opts then mret false
  else reader_IsCommitFileExist relPath.

(** The files are handed to [handleFile], with what went wrong; files that are not committed are told of
    together at the end. *)
Definition handleEach {A} (dir : string) (accepted : PathMatcher) (handleFile : A -> string -> string + error -> prog W A)
    (st : A * (list string * list string)) (relToDirPath : string) : prog W (A * (list string * list string)) :=
  let relPath := Filepath.Join [dir; relToDirPath] in
  data ← try (readAndCheckConfigurationFile relPath (IsPathMatched accepted) IsRegularFileExist);
  r ← try (handleFile st.1 relToDirPath data);
  match r with
  | inl a => mret (a, st.2)
  | inr err =>
      if GoErrors.As "UntrackedFilesError" err then mret (st.1, (st.2.1 ++ [relPath], st.2.2))
      else if GoErrors.As "UncommittedFilesError" err then mret (st.1, (st.2.1, st.2.2 ++ [relPath]))
      else fail err
  end.

Definition walkConfigurationFilesWithGlob {A} (dir glob : string) (accepted : PathMatcher)
    (handleFile : A -> string -> string + error -> prog W A) (a : A) : prog W A :=
  relToDirFilePathListFromFS ← listFilesWithGlob dir glob (skipFileFunc accepted);
  if LooseGiterminism opts then
    for_fold relToDirFilePathListFromFS a (fun a relToDirPath =>
      data ← try (readAndCheckConfigurationFile (Filepath.Join [dir; relToDirPath]) (IsPathMatched accepted) IsRegularFileExist);
      handleFile a relToDirPath data)
  else
    relToDirFilePathListFromCommit ← listCommitFilesWithGlob dir glob;
    let relToDirPathList := AddNewStringsToStringArray relToDirFilePathListFromFS relToDirFilePathListFromCommit in
    st ← for_fold relToDirPathList (a, ([], [])) (handleEach dir accepted handleFile);
    if bool_decide (st.2.1 <> []) then fail_with (NewUntrackedFilesError st.2.1)
    else if bool_decide (st.2.2 <> []) then fail_with (NewUncommittedFilesError st.2.2)
    else mret st.1.

(** ** The files of werf *)

Variable config : GiterminismConfig.

Definition DefaultWerfConfigNames : list string := ["werf.yaml"; "werf.yml"].

Definition ConfigPathList (customRelPath : string) : list string :=
  if bool_decide (customRelPath <> "") then [customRelPath] else DefaultWerfConfigNames.

Fixpoint anyExists (l : list string) : prog W bool :=
  match l with
  | [] => mret false
  | configRelPath :: l' => exist ← isConfigurationFileExistAnywhere configRelPath; if (exist : bool) then mret true else anyExists l'
  end.

Definition isConfigExistAnywhere (customRelPath : string) : prog W bool := anyExists (ConfigPathList customRelPath).

Definition prepareConfigNotFoundError (configPathsToCheck : list string) : error :=
  let configPath := match configPathsToCheck with [p] => p | _ => "werf.yaml" end in
  if LooseGiterminism opts then NewFileNotFoundInProjectDirectoryError configPath else NewFileNotFoundInProjectRepositoryError configPath.

Definition is_not_found (err : error) : bool :=
  GoErrors.As "FileNotFoundInProjectDirectoryError" err || GoErrors.As "FileNotFoundInProjectRepositoryError" err.

(** The first of the paths that is found. *)
Fixpoint readFirst (all l : list string) : prog W (string * string) :=
  match l with
  | [] => fail (prepareConfigNotFoundError all)
  | configPath :: l' =>
      r ← try (readAndCheckConfigurationFile configPath (fun _ => Ok (IsUncommittedConfigAccepted config)) IsRegularFileExist);
      match r with
      | inl data => mret (configPath, data)
      | inr err => if is_not_found err then readFirst all l' else fail err
      end
  end.

Definition ReadConfig (customRelPath : string) : prog W (string * string) :=
  wrap "unable to read werf config: %w" [] (readFirst (ConfigPathList customRelPath) (ConfigPathList customRelPath)).

Definition ConfigTemplatesPathList (templatesDirRelPath : string) : string :=
  if bool_decide (templatesDirRelPath <> "") then templatesDirRelPath else ".werf".

Definition ReadConfigTemplateFiles {A} (customDirRelPath : string) (tmplFunc : A -> string -> string + error -> prog W A) (a : A) : prog W A :=
  wrap "unable to read werf config templates: %w" []
    (walkConfigurationFilesWithGlob (ConfigTemplatesPathList customDirRelPath) "**/*.tmpl" (UncommittedConfigTemplateFilePathMatcher config)
       (fun a p data => tmplFunc a (Filepath.ToSlash p) data) a).

Definition ConfigGoTemplateFilesGlob (glob : string) : prog W (gmap string string) :=
  walkConfigurationFilesWithGlob "" glob (UncommittedConfigGoTemplateRenderingFilePathMatcher config)
    (fun result p data => match data with inr err => fail err | inl data => mret (<[Filepath.ToSlash p := data]> result) end) ∅.

Definition templateMatched : matchPathFunc := IsPathMatched (UncommittedConfigGoTemplateRenderingFilePathMatcher config).

Definition ConfigGoTemplateFilesGet (relPath : string) : prog W string :=
  readAndCheckConfigurationFile relPath templateMatched IsRegularFileExist.

Definition ListFilesByGlob (dir glob : string) : prog W (list string) :=
  relToDirFilePathListFromFS ← listFilesWithGlob dir glob (skipFileFunc (UncommittedConfigGoTemplateRenderingFilePathMatcher config));
  relToDirFilePathListFromCommit ← listCommitFilesWithGlob dir glob;
  mret (AddNewStringsToStringArray relToDirFilePathListFromFS relToDirFilePathListFromCommit).

(** Errors that mean that a template does not get to see a file. *)
Definition not_visible (err : error) : bool :=
  existsb (fun kind => GoErrors.As kind err)
    ["UntrackedFilesError"; "UncommittedFilesError"; "FileNotAcceptedError"; "FileNotFoundInProjectDirectoryError"; "FileNotFoundInProjectRepositoryError"].

Definition templateTest (format relPath : string) (exists_ : testFileFunc) : prog W bool :=
  r ← try (checkConfigurationFileExistenceAndAcceptance relPath templateMatched exists_);
  match r with
  | inl ok => mret ok
  | inr err => if not_visible err then mret false else fail (Wrapf format [FQ relPath] err)
  end.

Definition ConfigGoTemplateFilesExists (relPath : string) : prog W bool := templateTest "{{ .Files.Exists %q }}: %w" relPath IsFileExist.
Definition ConfigGoTemplateFilesIsDir (relPath : string) : prog W bool := templateTest "{{ .Files.IsDir %q }}: %w" relPath IsDirectoryExist.

Definition ReadDockerfile (relPath : string) : prog W string :=
  wrap "unable to read dockerfile %q: %w" [FQ (Filepath.ToSlash relPath)]
    (readAndCheckConfigurationFile relPath (IsUncommittedDockerfileAccepted config) IsRegularFileExist).

Definition ReadDockerignore (relPath : string) : prog W string :=
  wrap "unable to read dockerignore file %q: %w" [FQ (Filepath.ToSlash relPath)]
    (readAndCheckConfigurationFile relPath (IsUncommittedDockerignoreAccepted config) IsRegularFileExist).

Definition IsDockerignoreExistAnywhere (relPath : string) : prog W bool := isConfigurationFileExistAnywhere relPath.
Definition IsGiterminismConfigExistAnywhere (relPath : string) : prog W bool := isConfigurationFileExistAnywhere relPath.
Definition IsIncludesConfigExistAnywhere (relPath : string) : prog W bool := isConfigurationFileExistAnywhere relPath.

(** Files that are only read from the commit. *)
Definition readCommitted (relPath : string) : prog W string :=
  readAndCheckConfigurationFile relPath (fun _ => Ok false) IsRegularFileExist.

Definition ReadGiterminismConfig (relPath : string) : prog W string :=
  wrap "unable to read werf giterminism config: %w" [] (readCommitted relPath).

Definition ReadIncludesConfig (relPath : string) : prog W string :=
  wrap "unable to read werf giterminism config: %w" [] (readCommitted relPath).

Definition ReadIncludesLockFile (relPath : string) : prog W string :=
  r ← try (readCommitted relPath);
  match r with
  | inl data => mret data
  | inr err =>
      let err := if Str.Contains (err_text err) "not found" then
        Wrapf "%w

Consider generate lock file using `werf includes update` command" [] err else err in
      fail (Wrapf "unable to read werf includes lock file: %w" [] err)
  end.

(** Files of a chart, by their name and their content. *)
Definition loadChartDir (relDir : string) : prog W (list (string * string)) :=
  walkConfigurationFilesWithGlob relDir "**/*" (UncommittedHelmFilePathMatcher config)
    (fun res p data => match data with inr err => fail err | inl data => mret (res ++ [(Filepath.ToSlash p, data)]) end) [].

Definition LocateChart (chartDir : string) : prog W string :=
  wrap "unable to locate chart directory: %w" []
    (let relDir := absolutePathToProjectDirRelativePath chartDir in
     files ← loadChartDir relDir;
     match files with
     | [] => fail (Errorf "the directory %q not found in the project git repository" [FQ relDir])
     | _ => mret chartDir
     end).

Definition ReadChartFile (path : string) : prog W string :=
  let relPath := absolutePathToProjectDirRelativePath path in
  wrap "unable to read chart file %q: %w" [FQ (Filepath.ToSlash relPath)]
    (readAndCheckConfigurationFile relPath (IsPathMatched (UncommittedHelmFilePathMatcher config)) IsRegularFileExist).

Definition LoadChartDir (chartDir : string) : prog W (list (string * string)) :=
  wrap "unable to load chart directory: %w" [] (loadChartDir (absolutePathToProjectDirRelativePath chartDir)).

End reader.
End FileReader.
