(* ===== verification/FileReaderProps.v ===== *)
(** What the reader of files promises: a file that the giterminism configuration does not accept is what the
    commit has, at the end of links of which none has changed in the work tree; a file that it accepts is at
    the end of links that are all accepted. *)
From S2P Require Import Prelude Go GoStd GitScan PathMatcher LsTree GitStatus GitFiles GitFilesProps FileReader.
Import PathMatcher RepoHandle LsTree GitFiles GitFilesProps FileReader.

Module FileReaderProps.

Section reader.
Context {gg : GoGit} {gq : GoQuote} {ds : Doublestar} {pms : PatternMatchers} {uf : UtilFilepaths} {up : UtilPaths} {hs : Hashes} {ss : SortSlice} {gp : GlobPrefixes} {sa : StringArrays}.
Context {W : Type} {rb : RepoBase W} {lr : GitStatus.LocalRepo W} {fs : FileSystem W}.
Context (LegacyMurmurHash : list string -> string) (fuel : nat) (opts : SharedOptions).
Context (h0 : Handle) (status0 : GitStatus.Result) (I : W -> Prop).

Abbreviation commit := (HeadCommit opts).
Abbreviation toGit := (projectDirRelativePathToWorkTreeRelativePath opts).
Abbreviation fromGit := (gitRelativePathToProjectDirRelativePath opts).

(** The commit stays, and so does what [git status] says. *)
Record Steady : Prop := {
  steady_repo : Calm commit h0 I;
  steady_status : forall w, I w -> exists w', GitStatus.local_status LegacyMurmurHash w = (Ok status0, w') /\ I w';
}.

Context (steady : Steady).

(** Nothing at or below a path of the project has changed, in the development mode whatever has. *)
Definition unchanged (relPath : string) : Prop :=
  Dev opts = true \/ exists m, pathOnly opts relPath = Ok m /\ GitStatus.validateResult m status0 = Ok tt.

Lemma validate_unchanged relPath w w' : I w -> ValidateFileByStatusResult LegacyMurmurHash opts relPath w = (Ok tt, w') -> unchanged relPath /\ I w'.
Proof using steady.
  intros Hw H. unfold ValidateFileByStatusResult in H. apply bind_Ok in H as (m & w1 & Em & H).
  assert (pathOnly opts relPath = Ok m /\ w1 = w) as [Ep ->] by (unfold lift in Em; split; congruence). clear Em.
  unfold validateStatusResult in H. destruct (Dev opts) eqn:Ed; [unfold mret, prog_ret in H; split; [by left|congruence]|].
  apply bind_Ok in H as (r & w2 & Er & H). apply try_Ok in Er. destruct r as [u|e]; [|unfold fail_with in H; apply bind_Ok in H as (? & ? & _ & H); done].
  assert (w' = w2) as -> by (unfold mret, prog_ret in H; congruence). unfold GitStatus.ValidateStatusResult in Er. apply bind_Ok in Er as (r & w3 & Er & Ev).
  destruct (steady_status steady w Hw) as (w4 & E4 & Hw4). rewrite E4 in Er. injection Er as <- <-. unfold lift in Ev.
  split; [right; exists m; destruct u; split; [done|congruence]|congruence].
Qed.

Lemma validate_keeps relPath w : I w -> I (ValidateFileByStatusResult LegacyMurmurHash opts relPath w).2.
Proof using steady.
  intros Hw. unfold ValidateFileByStatusResult, mbind, prog_bind, lift. destruct (pathOnly opts relPath) as [m| |]; [|done..].
  unfold validateStatusResult. destruct (Dev opts); [done|]. unfold mbind, prog_bind, try, GitStatus.ValidateStatusResult, mbind, prog_bind.
  destruct (steady_status steady w Hw) as (w' & -> & Hw'). unfold lift. destruct (GitStatus.validateResult m status0) as [[]|e|]; [done| |done].
  unfold fail_with, mbind, prog_bind, lift. by destruct (HandleValidateStatusResultError opts e).
Qed.

Lemma targets_calm : check_calm I (Some (validateTarget LegacyMurmurHash opts)).
Proof using steady. intros t w Hw. by apply validate_keeps. Qed.

(** ** Tests that change nothing *)

Lemma IsCommitTreeEntryExist_keeps p w b w' : I w -> reader_IsCommitTreeEntryExist fuel opts p w = (Ok b, w') -> I w'.
Proof using steady.
  intros Hw H. unfold reader_IsCommitTreeEntryExist, isTreeEntryExist in H. apply bind_Ok in H as (e & w1 & E & H).
  destruct (GetCommitTreeEntry_calm fuel commit h0 I (steady_repo steady) (toGit p) w Hw) as (w2 & E2 & Hw2).
  rewrite E2 in E. injection E as _ <-. unfold mret, prog_ret in H. by injection H as _ <-.
Qed.

Lemma IsCommitFileExist_keeps p w b w' : I w -> reader_IsCommitFileExist fuel opts p w = (Ok b, w') -> b = true -> I w'.
Proof using steady.
  intros Hw H Hb. unfold reader_IsCommitFileExist, IsCommitFileExist, checkCommitFileMode in H. apply bind_Ok in H as (r & w1 & E & H). apply try_Ok in E.
  destruct r as [r|e]; [|by destruct (IsTreeEntryNotFoundInRepoErr e); [injection H as <- _|]].
  apply (resolve_sound fuel commit h0 I (steady_repo steady) depth None) in E as (ts & _ & _ & Hw1); [|done|done].
  apply bind_Ok in H as (e & w2 & E & H). apply wrap_Ok in E.
  destruct (GetCommitTreeEntry_calm fuel commit h0 I (steady_repo steady) r w1 Hw1) as (w3 & E3 & Hw3).
  rewrite E3 in E. injection E as _ <-. unfold mret, prog_ret in H. by injection H as _ <-.
Qed.

(** What the check of a file of the commit says: neither it nor the target of a link on the way has changed. *)
Lemma check_commit_file p w w' : I w -> checkCommitFileExistenceAndLocalChanges LegacyMurmurHash fuel opts p w = (Ok tt, w') ->
  unchanged p /\ I w' /\ exists r ts, Resolves fuel commit h0 depth (toGit p) r ts /\ Forall (fun t => unchanged (fromGit t)) ts.
Proof using steady.
  intros Hw H. unfold checkCommitFileExistenceAndLocalChanges in H.
  apply bind_Ok in H as ([] & w1 & E1 & H). apply validate_unchanged in E1 as [Hp Hw1]; [|done].
  apply bind_Ok in H as (ex & w2 & E2 & H). apply IsCommitTreeEntryExist_keeps in E2; [|done].
  apply bind_Ok in H as ([] & w3 & E3 & H). assert (I w3) as Hw3.
  { destruct ex; [unfold mret, prog_ret in E3; by injection E3 as <-|]. apply bind_Ok in E3 as (b & w4 & E4 & E3).
    destruct b; [|done]. unfold mret, prog_ret in E3. injection E3 as <-. by eapply IsCommitFileExist_keeps. }
  apply wrap_Ok, bind_Ok in H as (r & w4 & E4 & H). unfold reader_ResolveAndCheckCommitFilePath, ResolveAndCheckCommitFilePath in E4.
  apply (resolve_sound fuel commit h0 I (steady_repo steady) depth _ targets_calm) in E4 as (ts & Hr & Hts & Hw4); [|done].
  split; [done|]. split.
  - destruct (bool_decide _); [by apply validate_unchanged in H as [_ H]|]. unfold mret, prog_ret in H. by injection H as <-.
  - exists r, ts. split; [done|]. eapply Forall_impl; [exact Hts|]. intros t (v & v' & Hv & E). by apply validate_unchanged in E as [E _].
Qed.

(** The content is the one that the path has in the commit. *)
Definition from_commit (relPath data : string) : Prop :=
  unchanged relPath /\ exists r ts, Resolves fuel commit h0 depth (toGit relPath) r ts /\ contentAt fuel commit h0 r = Ok data /\
    Forall (fun t => unchanged (fromGit t)) ts.

Lemma read_not_accepted relPath isPathMatched exists_ data w w' : LooseGiterminism opts = false -> isPathMatched relPath = Ok false ->
  (forall v, I v -> I (exists_ relPath v).2) -> I w ->
  readAndCheckConfigurationFile LegacyMurmurHash fuel opts relPath isPathMatched exists_ w = (Ok data, w') -> from_commit relPath data /\ I w'.
Proof using steady.
  intros Hl Hm Hex Hw H. unfold readAndCheckConfigurationFile in H. apply bind_Ok in H as (b & w1 & E1 & H).
  unfold checkConfigurationFileExistenceAndAcceptance, shouldFileBeRead in E1. rewrite Hl, Hm in E1. apply bind_Ok in E1 as (b' & w2 & E2 & E1).
  unfold lift in E2. injection E2 as <- <-. apply bind_Ok in E1 as ([] & w2 & E2 & E1).
  apply check_commit_file in E2 as (Hu & Hw2 & r & ts & Hr & Hts); [|done].
  assert (I w1) as Hw1 by (specialize (Hex w2 Hw2); by rewrite E1 in Hex).
  unfold readConfigurationFile, shouldFileBeRead in H. rewrite Hl, Hm in H. apply bind_Ok in H as (b2 & w3 & E3 & H). unfold lift in E3. injection E3 as <- <-.
  unfold reader_ReadCommitFile, ReadCommitFile in H. apply bind_Ok in H as (r' & w3 & E3 & H). apply wrap_Ok in E3.
  destruct (resolved fuel commit h0 I (steady_repo steady) _ _ _ w1 Hr Hw1) as (w4 & E4 & Hw4). rewrite E4 in E3. injection E3 as <- <-.
  destruct (ReadContent_calm fuel commit h0 I (steady_repo steady) r w4 Hw4) as (w5 & E5 & Hw5). rewrite E5 in H. injection H as H <-.
  split; [|done]. split; [done|]. by exists r, ts.
Qed.

(** Outside of the loose mode, a file that the giterminism configuration does not accept is read as the
    commit has it: its content is that of the entry that its path leads to in the commit; and, but for the
    development mode, neither the path nor the target of a link on the way has anything at or below it that
    changed in the work tree or the index. *)
Theorem not_accepted_reads_commit relPath isPathMatched exists_ data w w' : LooseGiterminism opts = false -> isPathMatched relPath = Ok false ->
  (forall p v, I v -> I (exists_ p v).2) -> I w ->
  readAndCheckConfigurationFile LegacyMurmurHash fuel opts relPath isPathMatched exists_ w = (Ok data, w') ->
  unchanged relPath /\ exists r ts, Resolves fuel commit h0 depth (toGit relPath) r ts /\ contentAt fuel commit h0 r = Ok data /\
    Forall (fun t => unchanged (fromGit t)) ts.
Proof using steady. intros Hl Hm Hex Hw H. by eapply read_not_accepted in H as [H _]; [exact H|..]; auto. Qed.
End reader.

(** * Files that are accepted *)

Section directory.
Context {gg : GoGit} {gq : GoQuote} {ds : Doublestar} {pms : PatternMatchers} {uf : UtilFilepaths} {up : UtilPaths} {hs : Hashes} {ss : SortSlice} {gp : GlobPrefixes} {sa : StringArrays}.
Context {W : Type} {rb : RepoBase W} {lr : GitStatus.LocalRepo W} {fs : FileSystem W}.
Context (LegacyMurmurHash : list string -> string) (fuel : nat) (opts : SharedOptions) (I : W -> Prop).
Context (stat : string -> res FileInfo) (link content : string -> res string).

Abbreviation abs := (projectRelativePathToAbsolutePath opts).

(** The files stay as they are. *)
Record Still : Prop := {
  still_stat : forall p w, I w -> exists w', fs_Lstat p w = (stat p, w') /\ I w';
  still_link : forall p w, I w -> exists w', fs_Readlink p w = (link p, w') /\ I w';
  still_content : forall p w, I w -> exists w', fs_ReadFile p w = (content p, w') /\ I w';
}.

Context (still : Still).

(** [Leads n xs d r ts]: the elements [xs] below the directory [d] lead to [r], through links to [ts], none of
    which is out of the work tree; [n] is how deep the links go. *)
Inductive Leads : nat -> list string -> string -> string -> list string -> Prop :=
| leads_nil n d : Leads n [] d d []
| leads_real n x xs d r ts i : stat (abs (Filepath.Join [d; x])) = Ok i -> IsSymlink i = false ->
    Leads n xs (Filepath.Join [d; x]) r ts -> Leads n (x :: xs) d r ts
| leads_link n x xs d i l t r' r ts1 ts2 : let p := abs (Filepath.Join [d; x]) in
    stat p = Ok i -> IsSymlink i = true -> link p = Ok l -> isSubpathOfWorkTreeDir opts (linkTarget p l) = true ->
    t = absolutePathToProjectDirRelativePath opts (linkTarget p l) ->
    Leads n (SplitFilepath t) "" r' ts1 -> Leads (S n) xs r' r ts2 -> Leads (S n) (x :: xs) d r (t :: ts1 ++ ts2).

Definition accepted_all (isPathMatched : matchPathFunc) (ts : list string) : Prop := Forall (fun t => isPathMatched t = Ok true) ts.

Lemma acceptTarget_Ok isPathMatched t (w : W) b w' : acceptTarget isPathMatched t w = (Ok b, w') -> isPathMatched t = Ok true /\ w' = w.
Proof using Type.
  unfold acceptTarget. intros H. apply bind_Ok in H as (m & w1 & E & H). assert (isPathMatched t = Ok m /\ w1 = w) as [Em ->] by (unfold lift in E; split; congruence).
  destruct m; simpl in H; [|done]. unfold mret, prog_ret in H. by injection H as _ <-.
Qed.

Lemma file_parts_sound n isPathMatched resolve :
  (forall p w r w', I w -> resolve p w = (Ok r, w') -> exists m ts, n = S m /\ Leads m (SplitFilepath p) "" r ts /\ accepted_all isPathMatched ts /\ I w') ->
  forall xs d w r w', I w -> resolveFileParts opts resolve (Some (acceptTarget isPathMatched)) xs d w = (Ok r, w') ->
  exists ts, Leads n xs d r ts /\ accepted_all isPathMatched ts /\ I w'.
Proof using still.
  intros Hr. induction xs as [|x xs IH]; intros d w r w' Hw; cbn [resolveFileParts].
  { intros H. unfold mret, prog_ret in H. injection H as <- <-. exists []. split; [constructor|]. by split; [constructor|]. }
  intros H. apply bind_Ok in H as (o & w1 & E1 & H). apply try_Ok in E1. destruct o as [i|e]; [|by destruct (_ || _) in H].
  destruct (still_stat still (abs (Filepath.Join [d; x])) w Hw) as (v & Es & Hv). rewrite Es in E1. injection E1 as E1 <-.
  destruct (IsSymlink i) eqn:El; cycle 1.
  { destruct (IH _ _ _ _ Hv H) as (ts & Hl & Hts). exists ts. split; [by eapply leads_real|done]. }
  apply bind_Ok in H as (l & w2 & E2 & H). apply wrap_Ok in E2.
  destruct (still_link still (abs (Filepath.Join [d; x])) v Hv) as (v2 & Es2 & Hv2). rewrite Es2 in E2. injection E2 as E2 <-.
  destruct (isSubpathOfWorkTreeDir opts _) eqn:Ein; [|done]. cbn [negb] in H.
  apply bind_Ok in H as ([] & w3 & E3 & H). simpl in E3. apply bind_Ok in E3 as (b & w4 & E4 & E3). apply acceptTarget_Ok in E4 as [Ha ->].
  unfold mret, prog_ret in E3. injection E3 as <-.
  apply bind_Ok in H as (r' & w5 & E5 & H). destruct (Hr _ _ _ _ Hv2 E5) as (m & ts1 & -> & Hl1 & Hts1 & Hw5).
  destruct (IH _ _ _ _ Hw5 H) as (ts2 & Hl2 & Hts2 & Hw'). eexists (_ :: ts1 ++ ts2).
  split; [eapply leads_link; eauto|]. split; [|done]. constructor; [done|]. by apply Forall_app.
Qed.

Lemma resolve_file_sound isPathMatched n : forall p w r w', I w ->
  resolveFilePath opts n p (Some (acceptTarget isPathMatched)) w = (Ok r, w') ->
  exists m ts, n = S m /\ Leads m (SplitFilepath p) "" r ts /\ accepted_all isPathMatched ts /\ I w'.
Proof using still.
  induction n as [|n IH]; intros p w r w' Hw; cbn [resolveFilePath]; [done|]. intros H.
  apply (file_parts_sound n isPathMatched) in H; [|exact IH|done]. destruct H as (ts & Hl & H). exists n, ts. done.
Qed.

(** C26: Outside of the loose mode, a file that the giterminism configuration accepts is read from the project
    directory, whatever the commit has; and each link on the way to it leads to a path of the work tree that
    the configuration accepts too. *)
Theorem accepted_reads_directory relPath isPathMatched exists_ data w w' : LooseGiterminism opts = false -> isPathMatched relPath = Ok true ->
  (forall p v, I v -> I (exists_ p v).2) -> I w ->
  readAndCheckConfigurationFile LegacyMurmurHash fuel opts relPath isPathMatched exists_ w = (Ok data, w') ->
  content (abs relPath) = Ok data /\
  exists r ts, Leads (pred depth) (SplitFilepath relPath) "" r ts /\ accepted_all isPathMatched ts.
Proof using still.
  intros Hl Hm Hex Hw H. unfold readAndCheckConfigurationFile in H. apply bind_Ok in H as (b & w1 & E1 & H).
  unfold checkConfigurationFileExistenceAndAcceptance, shouldFileBeRead in E1. rewrite Hl, Hm in E1.
  apply bind_Ok in E1 as (b' & w2 & E2 & E1). unfold lift in E2. injection E2 as <- <-.
  apply bind_Ok in E1 as ([] & w2 & E2 & E1). unfold checkFileExistenceAndAcceptance in E2. rewrite Hl, Hm in E2.
  apply bind_Ok in E2 as (b' & w3 & E3 & E2). unfold lift in E3. injection E3 as <- <-. cbn [negb] in E2. apply wrap_Ok in E2.
  apply bind_Ok in E2 as (r & w3 & E3 & E2). apply resolve_file_sound in E3 as (m & ts & Em & Hlead & Hts & Hw3); [|done].
  assert (w2 = w3) as ->.
  { destruct (bool_decide _); [|unfold mret, prog_ret in E2; congruence]. apply bind_Ok in E2 as (c & v & Ec & E2). unfold lift in Ec.
    injection Ec as <- <-. cbn [negb] in E2. unfold mret, prog_ret in E2. congruence. }
  assert (I w1) as Hw1 by (specialize (Hex relPath w3 Hw3); by rewrite E1 in Hex).
  unfold readConfigurationFile, shouldFileBeRead in H. rewrite Hl, Hm in H. apply bind_Ok in H as (b2 & w4 & E4 & H). unfold lift in E4. injection E4 as <- <-.
  unfold readFile in H. apply wrap_Ok in H. destruct (still_content still (abs relPath) w1 Hw1) as (w5 & E5 & _). rewrite E5 in H.
  split; [congruence|]. exists r, ts. split; [|done]. by replace (pred depth) with m by (rewrite Em; done).
Qed.
End directory.
End FileReaderProps.
