(* ===== verification/GiterminismExamples.v ===== *)
(** A repository with submodules and links, what git status says of it, and the files of a project that are
    read from it: the theorems at concrete inputs, and runs of the definitions. *)
From S2P Require Import Prelude Go GitRefsExamples GitScan GitScanExamples GoStd PathMatcher PathMatcherFacts PathMatcherProps LsTree LsTreeProps GitStatus GitStatusProps GitFiles GitFilesProps FileReader FileReaderProps.
Import PathMatcher PathMatcherFacts PathMatcherProps PathMatcherExamples RepoHandle LsTree LsTreeProps.

(** A repository with a directory, a submodule in it, and a submodule of that submodule. *)
Module LsTreeExamples.

#[local] Existing Instance GitRefsExamples.stable_sort.

(** * Trees in memory *)

(** A tree has its hash and its entries; those of directories have their trees. *)
Inductive T := N (hash : string) (entries : list (string * FileMode * string * option T)).

Definition entries (t : T) : list (string * FileMode * string * option T) := let (_, l) := t in l.

#[export] Instance plain_dec e : Decision (plain e).
Proof. unfold plain, elem_ok. apply _. Defined.

(** The entries of a tree that git admits. *)
Definition named (t : T) : list (string * FileMode * string * option T) :=
  if decide (Forall (fun e => plain e.1.1.1) (entries t) /\ NoDup ((fun e => e.1.1.1) <$> entries t)) then entries t else [].

Definition entry (t : T) (name : string) : option (string * FileMode * string * option T) :=
  List.find (fun e => bool_decide (e.1.1.1 = name)) (named t).

Definition notFound : error := Errorf "entry not found" [].

Fixpoint findEntry (t : T) (path : list string) : string * FileMode * string * option T + error :=
  match path with
  | [] => inr notFound
  | name :: path' =>
      match entry t name, path' with
      | Some e, [] => inl e
      | Some (_, _, _, Some t'), _ => findEntry t' path'
      | _, _ => inr notFound
      end
  end.

(** A repository is its commits, and the contents of its files. *)
#[export] Instance memory : GoGit := {
  Hash := string; NewHash := fun s => s; Hash_String := fun s => s; ZeroHash := "";
  Repository := list (string * T) * list (string * string);
  Commit := T; Tree := T; Blob := string; Reader := string; Worktree := unit; Sub := Empty_set;
  CommitObject r h := match List.find (fun c => bool_decide (c.1 = h)) r.1 with Some c => inl c.2 | None => inr (Errorf "object not found" []) end;
  Commit_Tree c := inl c;
  Tree_Hash t := let (h, _) := t in h;
  Tree_Entries t := fst <$> named t;
  Tree_Tree t path := match findEntry t (elems path) with inl (_, _, _, Some t') => inl t' | _ => inr notFound end;
  Tree_FindEntry t path := match findEntry t (elems path) with inl e => inl e.1 | inr e => inr e end;
  BlobObject r h := match List.find (fun c => bool_decide (c.1 = h)) r.2 with Some c => inl c.2 | None => inr (Errorf "object not found" []) end;
  Blob_Reader b := inl b;
  ReadAll r := inl r;
  Repository_Worktree _ := inl tt; Submodules _ := inl []; Sub_Config s := match s with end;
  Sub_Repository s := match s with end; Sub_Expected s := match s with end;
  ErrDirectoryNotFound := notFound; ErrFileNotFound := notFound; ErrEntryNotFound := notFound; ErrObjectNotFound := notFound;
}.

Lemma tree_laws : TreeLaws.
Proof.
  split; intros t; simpl; unfold named.
  - intros e (x & -> & Hx)%list_elem_of_fmap. case_decide as H; [|by apply not_elem_of_nil in Hx].
    destruct H as [H _]. rewrite Forall_forall in H. by apply H.
  - case_decide as H; [|constructor]. destruct H as [_ H]. by rewrite <-list_fmap_compose.
Qed.

(** * The repository *)

Definition file (name hash : string) : string * FileMode * string * option T := (name, Regular, hash, None).

Definition deep : T := N "t3" [file "zlib.c" "h6"].
Definition flatLib : T := N "t2" [file "lib.c" "h5"].
Definition lib : T := N "t2" [("third_party", Submodule, "c3", None); file "lib.c" "h5"].
Definition src : T := N "t1" [file "main.go" "h2"; ("lib", Submodule, "c2", None); ("run.sh", Executable, "h3", None)].
Definition main : T := N "t0" [file "README" "h1"; ("src", Dir, "t1", Some src); file "src.txt" "h4"].

Definition config (name path : string) : SubmoduleConfig := mkSubmoduleConfig name path.

Definition deepHandle : SubmoduleHandle := mkSubmoduleHandle (mkHandle ([("c3", deep)], [("h6", "zlib")]) []) (config "zlib" "third_party") "c3".
Definition libHandle (tree : T) (subs : list SubmoduleHandle) : SubmoduleHandle :=
  mkSubmoduleHandle (mkHandle ([("c2", tree)], [("h5", "lib")]) subs) (config "lib" "src/lib") "c2".
Definition mainHandle (lib : SubmoduleHandle) : Handle :=
  mkHandle ([("c1", main)], [("h1", "readme"); ("h2", "main"); ("h3", "run")]) [lib].
Definition flatHandle : Handle := mainHandle (libHandle flatLib []).
Definition nestedHandle : Handle := mainHandle (libHandle lib [deepHandle]).

Definition options (globs : list string) (allFiles : bool) : LsTreeOptions :=
  mkLsTreeOptions "" (Some (newIncludePathMatcher globs)) allFiles.

Definition names (r : res Result) : res (list (string * string)) :=
  l ← r; Ok ((fun e => (FullFilepath e, entryHash (treeEntry e))) <$> Walk l).

(** Directories are listed as a whole where not all files are asked for. *)
Example whole_directory : names (LsTree 9 nestedHandle "c1" (options ["src"; "README"] false)) = Ok [("README", "h1"); ("src", "t1")].
Proof. vm_compute. done. Qed.

Example all_files : names (LsTree 9 nestedHandle "c1" (options ["src"] true)) =
  Ok [("src/main.go", "h2"); ("src/run.sh", "h3"); ("src/lib/lib.c", "h5"); ("src/lib/third_party/zlib.c", "h6")].
Proof. vm_compute. done. Qed.

(** A file of a submodule of a submodule is lost where nothing of the submodule itself is taken. *)
Example nested_submodule_lost :
  names (LsTree 9 nestedHandle "c1" (options ["src/lib/third_party/zlib.c"] true)) = Ok [].
Proof. vm_compute. done. Qed.

Example not_lost :
  names (LsTree 9 nestedHandle "c1" (options ["src/lib/third_party/zlib.c"; "src/lib/lib.c"] true)) =
    Ok [("src/lib/lib.c", "h5"); ("src/lib/third_party/zlib.c", "h6")].
Proof. vm_compute. done. Qed.

(** The content of such a file is looked for in the outermost submodule. *)
Example nested_content :
  (r ← LsTree 9 nestedHandle "c1" (options ["src"] true); LsTreeEntryContent r nestedHandle "src/lib/third_party/zlib.c") =
    Err (Wrapf "unable to get blob %q object: %w" [FQ "h6"] (Errorf "object not found" [])) /\
  (r ← LsTree 9 nestedHandle "c1" (options ["src"] true); LsTreeEntryContent r nestedHandle "src/lib/lib.c") = Ok "lib".
Proof. vm_compute. done. Qed.

(** * The theorem, on a matcher of globs *)

Lemma src_simple g : g ∈ ["src"; "README"] -> simple glob_elem g.
Proof.
  intros [->|[->|H%not_elem_of_nil]%elem_of_cons]%elem_of_cons; [plain_path ["src"]|plain_path ["README"]|done].
Qed.

Lemma options_lawful : lawful_options (options ["src"; "README"] false).
Proof.
  intros m [= <-]. apply (include_lawful glob_elem laws), TCForall_Forall, Forall_forall. apply src_simple.
Qed.

Lemma main_entries : treeHandle_Entries main = [mkTreeEntry _ "README" Regular "h1"; mkTreeEntry _ "src" Dir "t1"; mkTreeEntry _ "src.txt" Regular "h4"].
Proof. reflexivity. Qed.

Lemma src_entries : treeHandle_Entries src = [mkTreeEntry _ "main.go" Regular "h2"; mkTreeEntry _ "lib" Submodule "c2"; mkTreeEntry _ "run.sh" Executable "h3"].
Proof. reflexivity. Qed.

Lemma lib_entries : treeHandle_Entries flatLib = [mkTreeEntry _ "lib.c" Regular "h5"].
Proof. reflexivity. Qed.

Lemma flat_readable : readable 3 flatHandle main [].
Proof.
  intros e. rewrite main_entries. intros [->|[->|[->|H%not_elem_of_nil]%elem_of_cons]%elem_of_cons]%elem_of_cons; [exact I| |exact I|done].
  exists src. split; [reflexivity|]. intros e. rewrite src_entries.
  intros [->|[->|[->|H%not_elem_of_nil]%elem_of_cons]%elem_of_cons]%elem_of_cons; [exact I| |exact I|done].
  exists (libHandle flatLib []), flatLib. split; [reflexivity|]. split; [reflexivity|]. intros e. rewrite lib_entries.
  intros [->|H%not_elem_of_nil]%elem_of_cons; [exact I|done].
Qed.

Lemma LsTree_lists_witness :
  readable 3 flatHandle main [] /\
  exists r, LsTree 5 flatHandle "c1" (options ["src"; "README"] false) = Ok r /\
    (forall p e, EntryAt flatHandle main [] p e -> is_file e -> (exists x, x ∈ Walk r /\ covers x p) <-> taken (options ["src"; "README"] false) p).
Proof.
  split; [apply flat_readable|].
  destruct (LsTree_lists 3 5 flatHandle "c1" (options ["src"; "README"] false) main) as (r & E & H & _).
  - apply tree_laws.
  - vm_compute. reflexivity.
  - apply options_lawful.
  - vm_compute. reflexivity.
  - apply flat_readable.
  - lia.
  - intros s [->|Hs]%elem_of_cons; [done|by apply not_elem_of_nil in Hs].
  - exists r. split; [exact E|exact H].
Defined.

End LsTreeExamples.

Import PathMatcher PathMatcherExamples GitStatus GitStatusProps.

(** What [git status] prints of a small work tree, and what of it is valid for matchers. *)
Module GitStatusExamples.

#[local] Existing Instance GitScanExamples.string_arrays.

(** A modified file with spaces in its path, a submodule with another commit, and a file that is not tracked. *)
Definition changes : list change :=
  [Ordinary "." "M" "100644" "100644" "100644" "h1" "h1" "docs/a  b.md";
   SubmoduleChange "." "M" "C" "." "." "160000" "160000" "160000" "h2" "h2" "src/lib";
   Unmerged "U" "U" "N..." "100644" "100644" "100644" "100644" "h3" "h4" "h5" "src/main.go";
   NotTracked "notes to self.txt"].

Definition hash (l : list string) : string := Str.Join l "/".

(** A word of letters, by its bytes. *)
Ltac solve_word := repeat split; intros; reflexivity.

Lemma changes_printable : Forall printable changes.
Proof.
  constructor; [|constructor; [|constructor; [|constructor; [|constructor]]]].
  - simpl. by repeat constructor.
  - simpl. by repeat constructor.
  - split; [|exists ["src/main.go"]; split; [done|]; split; [|done]]; simpl; repeat (constructor; [split; [done|solve_word]|]); constructor.
  - exists ["notes"; "to"; "self.txt"]. split; [done|]. split; [|done]. repeat (constructor; [split; [done|solve_word]|]). constructor.
Qed.

Lemma status_roundtrip_witness :
  exists r, status hash (inl (Str.Join ((line_of <$> changes) ++ [""]) (String "010" ""))) "git status" "" = Ok r /\
    PathList (Index r) = ["src/main.go"] /\ PathList (Worktree r) = ["docs/a  b.md"; "src/main.go"] /\
    UntrackedPathList r = ["notes to self.txt"].
Proof.
  destruct (status_roundtrip hash "git status" "" changes changes_printable) as (r & E & H1 & H2 & _ & _ & H5).
  - repeat constructor.
  - exists r. split; [exact E|]. split; [exact H1|]. by split.
Defined.

(** ** Validity *)

Definition read : Result :=
  mkResult (mkScope [] []) "" (mkScope ["docs/a.md"] [mkSubmodule "src/lib" false false true false false true]) ["notes.txt"].

(** What is in the submodule is not valid, and nothing else of [src] is told of. *)
Definition lib : PathMatcher := newIncludePathMatcher ["src/lib/*.c"].
Definition code : PathMatcher := newIncludePathMatcher ["src/app"].

(** Each of the elements that there are. *)
Ltac each_of H := cbn in H; repeat (apply elem_of_cons in H as [->|H]); try (by apply not_elem_of_nil in H).

Lemma validateResult_spec_witness :
  validateResult code read = Ok tt /\ validateResult lib read <> Ok tt.
Proof.
  split.
  - apply (validateResult_spec code read).
    + intros p [H|[H|H]]; each_of H; eexists; by vm_compute.
    + intros s [H|H]; each_of H; eexists; by vm_compute.
    + split.
      * intros p [H|[H|H]]; each_of H; by vm_compute.
      * intros s [H|H]; each_of H; by vm_compute.
  - intros H. apply (validateResult_spec lib read) in H as [_ H].
    + destruct (H (mkSubmodule "src/lib" false false true false false true)) as (_ & _ & Hc); [right; by left|by vm_compute|]. by destruct (Hc eq_refl) as (_ & _ & ?).
    + intros p [G|[G|G]]; each_of G; eexists; by vm_compute.
    + intros s [G|G]; each_of G; eexists; by vm_compute.
Defined.

End GitStatusExamples.

Import PathMatcher PathMatcherExamples RepoHandle LsTree LsTreeProps LsTreeExamples GitFiles GitFilesProps.

(** By evaluation of the one side, which is compared with the other. *)
Ltac by_vm := match goal with |- _ = ?x => vm_cast_no_check (eq_refl x) end.

(** A commit with symbolic links: to a file, to themselves, and to the directory that they are in. *)
Module GitFilesExamples.

#[local] Existing Instance GitRefsExamples.stable_sort.

Definition link (name hash : string) : string * FileMode * string * option T := (name, Symlink, hash, None).

Definition cfg : T := N "t1" [file "app.yaml" "h2"].
Definition linked : T := N "t0" [file "README" "h1"; ("cfg", Dir, "t1", Some cfg); link "conf.yaml" "l1"; link "self" "l2"].
Definition looped : T := N "t2" [file "README" "h1"; link "loop" "l3"].

Definition handleOf (t : T) : Handle :=
  mkHandle ([("c1", t)], [("h1", "readme"); ("h2", "app"); ("l1", "cfg/app.yaml"); ("l2", "./self"); ("l3", ".")]) [].

(** The world has the handles that were made, and the checksums. *)
Record World := mkWorld { handles : gmap string Handle; sums : gmap string string }.

Section tree.
Variable tree : T.

#[local] Instance base : RepoBase World := {
  commitRepoHandle := handles; set_commitRepoHandle h w := mkWorld h (sums w);
  Checksums := sums; set_Checksums s w := mkWorld (handles w) s;
  initRepoHandleBackedByWorkTree c := mret (handleOf tree);
}.

Definition known (w : World) : Prop := forall h, handles w !! "c1" = Some h -> h = handleOf tree.

Lemma base_calm : Calm (rb := base) "c1" (handleOf tree) known.
Proof.
  split.
  - intros w h Hw. apply Hw.
  - intros w Hw. by exists w.
  - intros w Hw h. simpl. rewrite lookup_insert_eq. by intros [= <-].
  - intros w Hw h. simpl. by rewrite lookup_delete_eq.
Qed.
End tree.

#[export] Instance prefixes : GlobPrefixes := fun g => ("", g).

Definition start : World := mkWorld ∅ ∅.

Lemma start_known t : known t start.
Proof. intros h. unfold start. simpl. by rewrite lookup_empty. Qed.

Lemma mode_of_vm f c h p m : (e ← entryAt f c h p; Ok (ModeOf e)) = Ok m -> mode_of f c h p m.
Proof. destruct (entryAt f c h p) as [e| |] eqn:E; intros H; [|discriminate H..]. injection H as H. by exists e. Qed.

(** ** Resolution *)

#[local] Instance linked_base : RepoBase World := base linked.

Example resolved_link : (ResolveCommitFilePath 9 "c1" "conf.yaml" start).1 = Ok "cfg/app.yaml".
Proof. by_vm. Qed.

Example link_content : (ReadCommitFile 9 "c1" "conf.yaml" start).1 = Ok "app".
Proof. by_vm. Qed.

Lemma split_law : SplitLaw.
Proof.
  intros p. unfold SplitFilepath, filepaths, elems. case_bool_decide as E; [done|]. unfold Str.Split.
  generalize (Str.len p). intros [|n]; [done|]. cbn [Str.SplitN]. by destruct (Str.cut "/" p) as [[]|].
Qed.

(** Only links to the directory of configurations pass. *)
Definition only_cfg (t : string) : prog World unit :=
  if Str.HasPrefix t "cfg/" then mret tt else fail (Errorf "the link target %q should be also accepted by giterminism config" [FQ t]).

Lemma only_cfg_calm : check_calm (known linked) (Some only_cfg).
Proof. intros t w Hw. unfold only_cfg. by destruct (Str.HasPrefix t "cfg/"). Qed.

Lemma resolve_refines_witness :
  (exists w', ResolveAndCheckCommitFilePath 9 "c1" "conf.yaml" only_cfg start = (Ok "cfg/app.yaml", w')) /\
  real 9 "c1" (handleOf linked) "cfg/app.yaml".
Proof.
  destruct (resolve_refines 9 "c1" (handleOf linked) (known linked) (base_calm linked) "conf.yaml" only_cfg start split_law only_cfg_calm (start_known linked)) as [H _].
  assert ((ResolveAndCheckCommitFilePath 9 "c1" "conf.yaml" only_cfg start).1 = Ok "cfg/app.yaml") as E by (by_vm).
  destruct (ResolveAndCheckCommitFilePath 9 "c1" "conf.yaml" only_cfg start) as [r w'] eqn:Er. simpl in E. subst r.
  split; [by exists w'|]. by destruct (H _ _ eq_refl).
Defined.

Lemma self_cyclic : cyclic 9 "c1" (handleOf linked) (fun p => p = "self").
Proof.
  assert (mode_of 9 "c1" (handleOf linked) "self" Symlink) as Hm by (apply mode_of_vm; by_vm).
  intros p ->. split; [exists Symlink; by split; [|left]|]. exists "self", [], "self". split; [by_vm|]. split; [|done].
  split; [exact Hm|]. exists "./self". split; [by_vm|]. split; [done|]. split; [by_vm|]. done.
Qed.

Lemma link_cycle_fails_witness :
  exists w', ResolveCommitFilePath 9 "c1" "self" start = (Err (Errorf "too many levels of symbolic links" []), w').
Proof.
  exact (link_cycle_fails 9 "c1" (handleOf linked) (known linked) (base_calm linked) (fun p => p = "self") "self" start self_cyclic eq_refl (start_known linked)).
Defined.

End GitFilesExamples.

Module GitWalkExamples.
Import GitFilesExamples.
#[local] Existing Instance GitRefsExamples.stable_sort.
#[local] Instance looped_base : RepoBase World := base looped.

(** The link to the directory that it is in. *)
Lemma loop_resolves : exists ts, Resolves 9 "c1" (handleOf looped) depth "loop" "." ts.
Proof.
  assert (mode_of 9 "c1" (handleOf looped) "loop" Symlink) as Hm by (apply mode_of_vm; by_vm).
  eexists. eapply resolves_parts; [exact Hm|by left|].
  assert (SplitFilepath "loop" = ["loop"]) as -> by (by_vm). eapply parts_link with (t := ".").
  - split; [exact Hm|]. exists ".". split; [by_vm|]. split; [done|]. split; [by_vm|]. by split.
  - apply resolves_real. exists Dir. split; [apply mode_of_vm; by_vm|done].
  - apply parts_nil.
Qed.

Definition readme_entry : LsTreeEntry := mkLsTreeEntry "README" (mkTreeEntry _ "README" Regular "h1").
Definition loop_entry : LsTreeEntry := mkLsTreeEntry "loop" (mkTreeEntry _ "loop" Symlink "l3").

Definition collect (a : list string) (q : string) : prog World (list string) := mret (a ++ [q]).

Lemma walk_of_cycle_hangs_witness :
  (exists ts, Resolves 9 "c1" (handleOf looped) depth "loop" "." ts) /\
  forall fuel, (WalkCommitFiles 9 fuel "c1" "loop" TruePathMatcher collect [] start).1 = Panic "out of fuel".
Proof.
  split; [exact loop_resolves|]. destruct loop_resolves as [ts Hr].
  intros fuel. eapply (walk_of_cycle_hangs 9 "c1" (handleOf looped) (known looped) (base_calm looped) TruePathMatcher collect "loop" "." ts
    (LsTree.mkResult "c1" "" [readme_entry; loop_entry] []) [readme_entry] loop_entry []).
  - reflexivity.
  - exact Hr.
  - apply mode_of_vm. by_vm.
  - by_vm.
  - by_vm.
  - constructor; [|constructor]. split; [done|]. split; [done|]. split; [by exists true|]. intros a q w Hw. by exists (a ++ [q]), w.
  - reflexivity.
  - by_vm.
  - apply start_known.
Defined.

End GitWalkExamples.

Import PathMatcher PathMatcherExamples RepoHandle LsTree LsTreeExamples GitFiles GitFilesProps GitFilesExamples FileReader FileReaderProps.

(** A project at the root of its repository: a link of the commit is read to its end, as long as neither the
    link nor what it leads to has changed in the work tree. *)
Module FileReaderExamples.

#[local] Existing Instance GitRefsExamples.stable_sort.
#[local] Existing Instance GitScanExamples.string_arrays.

(** ** The project directory *)

(** Files with their content, and links with what they say. *)
Definition files : list (string * string) := [("/w/README", "readme"); ("/w/cfg/app.yaml", "app, changed"); ("/w/notes.txt", "notes")].
Definition links : list (string * string) := [("/w/conf.yaml", "cfg/app.yaml"); ("/w/n.txt", "notes.txt")].

Definition at_path (l : list (string * string)) (p : string) : option string := snd <$> List.find (fun f => bool_decide (f.1 = p)) l.

Definition noFile : error := Errorf "no such file or directory" [].

Definition is_file (p : string) : bool := match at_path files p with Some _ => true | None => false end.

Definition lstat (p : string) : prog World FileInfo :=
  match at_path links p with
  | Some _ => mret (mkFileInfo false true)
  | None => if is_file p then mret (mkFileInfo false false)
            else if bool_decide (p = "/w/cfg") || bool_decide (p = "/w") then mret (mkFileInfo true false) else fail noFile
  end.

(** The system follows the links itself. *)
Definition follow (p : string) : string :=
  match at_path links p with Some link => Filepath.Join [Filepath.Dir p; link] | None => p end.

#[local] Instance disk : FileSystem World := {
  fs_ReadFile p := match at_path files (follow p) with Some s => mret s | None => fail noFile end;
  fs_Readlink p := match at_path links p with Some s => mret s | None => fail noFile end;
  fs_Lstat := lstat;
  fs_IsNotExist e := bool_decide (err_text e = err_text noFile);
  IsNotADirectoryError _ := false;
  fs_FileExists p := mret (is_file p);
  fs_DirExists p := mret false;
  fs_RegularFileExists p := mret (is_file p);
  readDirNames _ := mret [];
}.

Definition hash (l : list string) : string := Str.Join l "/".

(** ** The repository, and what changed *)

#[local] Instance linked_base : RepoBase World := base linked.

Definition unclean (paths untracked : list string) : GitStatus.Result :=
  GitStatus.mkResult (GitStatus.mkScope [] []) "" (GitStatus.mkScope paths []) untracked.

Section changed.
Variable r : GitStatus.Result.

#[local] Instance repo : GitStatus.LocalRepo World := {|
  GitStatus.statusResult _ := Some r;
  GitStatus.set_statusResult _ w := w;
  GitStatus.git_status := mret (inl "");
  GitStatus.git_status_text := ("git status", "");
|}.

Definition opts : SharedOptions := mkSharedOptions "/w" "" "/w" "c1" false false.

(** Only the notes are accepted. *)
Definition notes (p : string) : res bool := Ok (bool_decide (p = "notes.txt") || bool_decide (p = "n.txt")).

Definition there (_ : string) : prog World bool := fun w => (Ok true, w).

Definition read (p : string) : prog World string :=
  readAndCheckConfigurationFile hash 9 opts p notes there.

Lemma steady : Steady hash opts (handleOf linked) r (known linked).
Proof. split; [apply base_calm|]. intros w Hw. by exists w. Qed.
End changed.

Definition error_kind (x : res string) : option string :=
  match x with Err e => if GoErrors.As "UncommittedFilesError" e then Some "uncommitted" else None | _ => None end.

(** The directory has another content than the commit, which matters where git tells of it. *)
Example committed_content : (read (unclean ["README"] []) "conf.yaml" start).1 = Ok "app".
Proof. by_vm. Qed.
Example changed_target : error_kind (read (unclean ["cfg/app.yaml"] []) "conf.yaml" start).1 = Some "uncommitted".
Proof. by_vm. Qed.
Example accepted_content : (read (unclean [] ["notes.txt"]) "n.txt" start).1 = Ok "notes".
Proof. by_vm. Qed.
Example accepted_changed : (read (unclean [] ["notes.txt"]) "notes.txt" start).1 = Ok "notes".
Proof. by_vm. Qed.

Lemma not_accepted_reads_commit_witness :
  exists w', read (unclean ["README"] []) "conf.yaml" start = (Ok "app", w') /\
    exists r ts, Resolves 9 "c1" (handleOf linked) depth "conf.yaml" r ts /\ contentAt 9 "c1" (handleOf linked) r = Ok "app".
Proof.
  assert ((read (unclean ["README"] []) "conf.yaml" start).1 = Ok "app") as E by (by_vm).
  destruct (read (unclean ["README"] []) "conf.yaml" start) as [x w'] eqn:Ex. simpl in E. subst x. exists w'. split; [done|].
  assert (projectDirRelativePathToWorkTreeRelativePath opts "conf.yaml" = "conf.yaml") as Eg by (by_vm).
  destruct (not_accepted_reads_commit hash 9 opts (handleOf linked) (unclean ["README"] []) (known linked) (steady _) "conf.yaml" notes there "app" start w'
    eq_refl eq_refl (fun _ _ Hv => Hv) (start_known linked) Ex) as (_ & r & ts & Hr & Hc & _).
  rewrite Eg in Hr. exists r, ts. split; [exact Hr|exact Hc].
Defined.

(** ** The project directory as it is *)

Definition stat (p : string) : res FileInfo := (lstat p start).1.
Definition link_at (p : string) : res string := match at_path links p with Some s => Ok s | None => Err noFile end.
Definition content (p : string) : res string := match at_path files (follow p) with Some s => Ok s | None => Err noFile end.

Lemma still : Still (known linked) stat link_at content.
Proof.
  split; intros p w Hw; exists w; (split; [|exact Hw]).
  - change (fs_Lstat p w) with (lstat p w). unfold stat, lstat. destruct (at_path links p); [reflexivity|].
    destruct (is_file p); [reflexivity|]. destruct (_ || _); reflexivity.
  - simpl. unfold link_at. destruct (at_path links p); reflexivity.
  - simpl. unfold content. destruct (at_path files (follow p)); reflexivity.
Qed.

Lemma accepted_reads_directory_witness :
  exists w', read (unclean [] ["notes.txt"]) "n.txt" start = (Ok "notes", w') /\ content "/w/n.txt" = Ok "notes" /\
    exists r ts, Leads opts stat link_at (pred depth) ["n.txt"] "" r ts /\ accepted_all notes ts.
Proof.
  assert ((read (unclean [] ["notes.txt"]) "n.txt" start).1 = Ok "notes") as E by (by_vm).
  destruct (read (unclean [] ["notes.txt"]) "n.txt" start) as [x w'] eqn:Ex. simpl in E. subst x. exists w'. split; [reflexivity|].
  assert (projectRelativePathToAbsolutePath opts "n.txt" = "/w/n.txt") as Ea by (by_vm).
  assert (SplitFilepath "n.txt" = ["n.txt"]) as Es by (by_vm).
  destruct (accepted_reads_directory (lr := repo (unclean [] ["notes.txt"])) hash 9 opts (known linked) stat link_at content still "n.txt" notes there "notes" start w'
    eq_refl eq_refl (fun _ _ Hv => Hv) (start_known linked) Ex) as (Hc & r & ts & Hl & Hts).
  rewrite Ea in Hc. rewrite Es in Hl. split; [exact Hc|]. exists r, ts. split; [exact Hl|exact Hts].
Defined.

End FileReaderExamples.
