(* ===== verification/GiterminismConfig.v ===== *)
(** pkg/giterminism_manager/config and pkg/giterminism_manager/inspector: what a werf-giterminism.yaml accepts of
    files, environment variables and directives of a werf.yaml. The validation by a schema is third-party code. *)
From S2P Require Import Prelude Go GoStd GitScan PathMatcher LsTree GitStatus GitFiles FileReader.
Import PathMatcher GitFiles FileReader.

(** [util.ExpandPath] of common-go. *)
Class UtilExpand := ExpandPath : string -> string + error.

Module GiterminismConfig.

(** * The configuration *)

Record cli := mkcli { AllowCustomTags : bool }.
Record goTemplateRendering := mkgoTemplateRendering { gtr_AllowEnvVariables : list string; gtr_AllowUncommittedFiles : list string }.
Record secrets := mksecrets { sec_AllowEnvVariables : list string; AllowFiles : list string; AllowValueIds : list string }.
Record git := mkgit { AllowBranch : bool }.
Record mount := mkmount { AllowBuildDir : bool; AllowFromPaths : list string }.
Record stapel := mkstapel { AllowFromLatest : bool; Git : git; Mount : mount }.
Record dockerfile := mkdockerfile {
  dock_AllowUncommitted : list string; AllowUncommittedDockerignoreFiles : list string; AllowContextAddFiles : list string;
}.
Record config := mkconfig {
  AllowUncommitted : bool; AllowUncommittedTemplates : list string; GoTemplateRendering : goTemplateRendering;
  Secrets : secrets; Stapel : stapel; Dockerfile : dockerfile;
}.
Record helm := mkhelm { helm_AllowUncommittedFiles : list string }.
Record includes := mkincludes { AllowIncludesUpdate : bool }.
Record Config := mkConfig { Cli : cli; Config_ : config; Helm : helm; Includes : includes }.

(** [Config{}]. *)
Definition emptyConfig : Config :=
  mkConfig (mkcli false)
    (mkconfig false [] (mkgoTemplateRendering [] []) (mksecrets [] [] []) (mkstapel false (mkgit false) (mkmount false []))
       (mkdockerfile [] [] []))
    (mkhelm []) (mkincludes false).

(** YAML, the validator of the schema, which applies the defaults, and JSON. *)
Class Schema := {
  Value : Type;
  yaml_Unmarshal : string -> Value + error;
  Validate : Value -> Value + list error;
  json_Marshal : Value -> string + error;
  json_Unmarshal : string -> Config + error;
}.

Section config.
Context `{!GoGit, !GoQuote, !Doublestar, !PatternMatchers, !UtilFilepaths, !UtilPaths, !Hashes, !SortSlice, !GlobPrefixes, !StringArrays}.
Context `{!Regexps, !UtilExpand, !Schema}.
Context {W : Type} `{!RepoBase W, !GitStatus.LocalRepo W, !FileSystem W}.
Variable LegacyMurmurHash : list string -> string.
Variable fuel : nat.
Variable opts : SharedOptions.

Definition processWithOpenAPISchema (dataObj : string) : res string :=
  match yaml_Unmarshal dataObj with
  | inr err => Err err
  | inl blank =>
      match Validate blank with
      | inl result =>
          match json_Marshal result with
          | inl data => Ok data
          | inr err => Panic ("unexpected error: " +:+ err_text err)
          end
      | inr errs => Err (Errorf "%s" [FS (Str.Join (err_text <$> errs) (String "010" ""))])
      end
  end.

Definition NewConfig (configRelPath : string) : prog W Config :=
  exist ← FileReader.IsGiterminismConfigExistAnywhere fuel opts configRelPath;
  if negb exist then mret emptyConfig
  else
    data ← FileReader.ReadGiterminismConfig LegacyMurmurHash fuel opts configRelPath;
    data ← wrap "the giterminism config validation failed: %w" [] (lift (processWithOpenAPISchema data));
    match json_Unmarshal data with
    | inl c => mret c
    | inr err => panic ("unexpected error: " +:+ err_text err)
    end.

(** ** Paths *)

Definition pathMatcher (patterns : list string) : res PathMatcher :=
  match patterns with
  | [] => Ok FalsePathMatcher
  | _ => NewPathMatcher (mkPathMatcherOptions "" patterns [] None [])
  end.

Definition isPathMatched (patterns : list string) (p : string) : res bool := m ← pathMatcher patterns; IsPathMatched m p.

Fixpoint expandAll (patterns : list string) : option (list string) :=
  match patterns with
  | [] => Some []
  | p :: patterns' => match ExpandPath p with inl path => (path ::.) <$> expandAll patterns' | inr _ => None end
  end.

Definition isAbsPathMatched (patterns : list string) (p : string) : res bool :=
  match expandAll patterns with None => Ok false | Some absPath => isPathMatched absPath p end.

Definition UncommittedConfigTemplateFilePathMatcher (c : Config) : res PathMatcher := pathMatcher (AllowUncommittedTemplates (Config_ c)).
Definition UncommittedConfigGoTemplateRenderingFilePathMatcher (c : Config) : res PathMatcher :=
  pathMatcher (gtr_AllowUncommittedFiles (GoTemplateRendering (Config_ c))).
Definition UncommittedHelmFilePathMatcher (c : Config) : res PathMatcher := pathMatcher (helm_AllowUncommittedFiles (Helm c)).

Definition IsUncommittedConfigAccepted (c : Config) : bool := AllowUncommitted (Config_ c).
Definition IsUncommittedDockerfileAccepted (c : Config) (relPath : string) : res bool :=
  isPathMatched (dock_AllowUncommitted (Dockerfile (Config_ c))) relPath.
Definition IsUncommittedDockerignoreAccepted (c : Config) (relPath : string) : res bool :=
  isPathMatched (AllowUncommittedDockerignoreFiles (Dockerfile (Config_ c))) relPath.
Definition IsConfigDockerfileContextAddFileAccepted (c : Config) (relPath : string) : res bool :=
  isPathMatched (AllowContextAddFiles (Dockerfile (Config_ c))) relPath.
Definition IsConfigStapelMountFromPathAccepted (c : Config) (fromPath : string) : res bool :=
  isPathMatched (AllowFromPaths (Mount (Stapel (Config_ c)))) fromPath.

(** [SetGiterminismConfig]: what the reader of files asks of the configuration. *)
Definition SetGiterminismConfig (c : Config) : res FileReader.GiterminismConfig :=
  templates ← UncommittedConfigTemplateFilePathMatcher c;
  rendering ← UncommittedConfigGoTemplateRenderingFilePathMatcher c;
  helmFiles ← UncommittedHelmFilePathMatcher c;
  Ok (FileReader.mkGiterminismConfig _ (IsUncommittedConfigAccepted c) templates rendering
        (IsUncommittedDockerfileAccepted c) (IsUncommittedDockerignoreAccepted c) helmFiles).

(** ** Names and switches *)

(** A pattern of an environment variable: a regular expression between slashes, or the name itself. *)
Definition envNameMatched (pattern name : string) : res bool :=
  if Str.HasPrefix pattern "/" && Str.HasSuffix pattern "/" then
    if Str.len pattern <=? 1 then Panic "slice bounds out of range [1:0]"
    else match Regexp_Compile ("^" +:+ Str.take (Str.len pattern - 2) (Str.drop 1 pattern) +:+ "$") with
         | inl r => Ok (MatchString r name)
         | inr err => Err err
         end
  else Ok (bool_decide (pattern = name)).

Fixpoint anyNameMatched (patterns : list string) (name : string) : res bool :=
  match patterns with
  | [] => Ok false
  | pattern :: patterns' => b ← envNameMatched pattern name; if (b : bool) then Ok true else anyNameMatched patterns' name
  end.

Definition IsConfigGoTemplateRenderingEnvNameAccepted (c : Config) (envName : string) : res bool :=
  anyNameMatched (gtr_AllowEnvVariables (GoTemplateRendering (Config_ c))) envName.

Definition IsCustomTagsAccepted (c : Config) : bool := AllowCustomTags (Cli c).
Definition IsConfigStapelFromLatestAccepted (c : Config) : bool := AllowFromLatest (Stapel (Config_ c)).
Definition IsConfigStapelGitBranchAccepted (c : Config) : bool := AllowBranch (Git (Stapel (Config_ c))).
Definition IsConfigStapelMountBuildDirAccepted (c : Config) : bool := AllowBuildDir (Mount (Stapel (Config_ c))).
Definition IsConfigSecretEnvAccepted (c : Config) (name : string) : bool := bool_decide (name ∈ sec_AllowEnvVariables (Secrets (Config_ c))).
Definition IsConfigSecretSrcAccepted (c : Config) (path : string) : res bool :=
  match ExpandPath path with
  | inr _ => Ok false
  | inl absPath => isAbsPathMatched (AllowFiles (Secrets (Config_ c))) absPath
  end.
Definition IsConfigSecretValueAccepted (c : Config) (name : string) : bool := bool_decide (name ∈ AllowValueIds (Secrets (Config_ c))).
Definition IsUpdateIncludesAccepted (c : Config) : bool := AllowIncludesUpdate (Includes c).

(** * The inspector *)

Variable giterminismConfig : Config.

Definition Sprintf (f : string) (args : list farg) : string := render f args "".

Definition NewExternalDependencyFoundError (msg : string) : error :=
  FileReader.NewError (Errorf "the configuration with potential external dependency found in the werf config: %s" [FS msg]).

(** Nothing is inspected in the loose mode; otherwise what is not accepted is an error. *)
Definition inspect (isAccepted : res bool) (err : error) : res unit :=
  if LooseGiterminism opts then Ok tt
  else b ← isAccepted; if (b : bool) then Ok tt else Err err.

Definition InspectCustomTags : res unit :=
  inspect (Ok (IsCustomTagsAccepted giterminismConfig)) (FileReader.NewError (Errorf "custom tags not allowed by giterminism

The use of --use-custom-tag option might make previous deployments unreproducible and require extra configuration in the helm chart." [])).

Definition InspectConfigGoTemplateRenderingEnv (envName : string) : res unit :=
  inspect (IsConfigGoTemplateRenderingEnvNameAccepted giterminismConfig envName) (NewExternalDependencyFoundError (Sprintf
"env name %q not allowed by giterminism

The use of the function env complicates the sharing and reproducibility of the configuration in CI jobs and among developers, because the value of the environment variable affects the final digest of built images." [FQ envName])).

Definition secretsErrMsg : string :=
"secret %q is not allowed by giterminism

	Using env and file secrets complicates the sharing and reproducibility of the configuration in CI jobs and among developers.".

Definition InspectConfigSecretEnvAccepted (secret : string) : res unit :=
  inspect (Ok (IsConfigSecretEnvAccepted giterminismConfig secret)) (NewExternalDependencyFoundError (Sprintf secretsErrMsg [FQ secret])).
Definition InspectConfigSecretSrcAccepted (secret : string) : res unit :=
  inspect (IsConfigSecretSrcAccepted giterminismConfig secret) (NewExternalDependencyFoundError (Sprintf secretsErrMsg [FQ secret])).
Definition InspectConfigSecretValueAccepted (secret : string) : res unit :=
  inspect (Ok (IsConfigSecretValueAccepted giterminismConfig secret)) (NewExternalDependencyFoundError (Sprintf secretsErrMsg [FQ secret])).

Definition InspectConfigDockerfileContextAddFile (relPath : string) : res unit :=
  inspect (IsConfigDockerfileContextAddFileAccepted giterminismConfig relPath) (NewExternalDependencyFoundError (Sprintf
"contextAddFile %q not allowed by giterminism

The use of the directive contextAddFiles complicates the sharing and reproducibility of the configuration in CI jobs and among developers because the file data affects the final digest of built images and must be identical at all steps of the pipeline and during local development." [FQ (Filepath.ToSlash relPath)])).

Definition InspectConfigStapelFromLatest : res unit :=
  inspect (Ok (IsConfigStapelFromLatestAccepted giterminismConfig)) (NewExternalDependencyFoundError
"fromLatest directive not allowed by giterminism

If fromLatest is true, then werf starts using the actual base image digest in the stage digest. Thus, using this directive may break the reproducibility of previous builds. The changing of the base image in the registry makes all previously built images unusable.

 * Previous pipeline jobs (e.g., converge) cannot be retried without the image rebuilding after changing a registry base image.
 * If the base image is modified unexpectedly, it may lead to an inexplicably failed pipeline. For instance, the modification occurs after a successful build, and the following jobs will be failed due to changing stages digests alongside base image digest.

As an alternative, we recommend using unchangeable tag or periodically change 'fromCacheVersion' value to guarantee the application's controllable and predictable life cycle.").

Definition InspectConfigStapelGitBranch : res unit :=
  inspect (Ok (IsConfigStapelGitBranchAccepted giterminismConfig)) (NewExternalDependencyFoundError
"git branch directive not allowed by giterminism

Remote git mapping with a branch (master branch by default) may break the previous builds' reproducibility. werf uses the history of a git repository to calculate the stage digest. Thus, the new commit in the branch makes all previously built images unusable.

 * The existing pipeline jobs (e.g., converge) would not run and would require rebuilding an image if a remote git branch has been changed.
 * Unplanned commits to a remote git branch might lead to the pipeline failing seemingly for no apparent reasons. For instance, changes may occur after the build process is completed successfully. In this case, the related pipeline jobs will fail due to changes in stage digests along with the branch HEAD.

As an alternative, we recommend using unchangeable reference, tag, or commit to guarantee the application's controllable and predictable life cycle.").

Definition InspectConfigStapelMountBuildDir : res unit :=
  inspect (Ok (IsConfigStapelMountBuildDirAccepted giterminismConfig)) (NewExternalDependencyFoundError
(Sprintf "%smount { from: build_dir, ... }%s not allowed by giterminism

The use of the build_dir mount may lead to unpredictable behavior when used in parallel and potentially affect reproducibility and reliability." [FS (String "034" ""); FS (String "034" "")])).

Definition InspectConfigStapelMountFromPath (fromPath : string) : res unit :=
  inspect (IsConfigStapelMountFromPathAccepted giterminismConfig fromPath) (NewExternalDependencyFoundError (Sprintf
"%smount { fromPath: %s, ... }%s not allowed by giterminism

The use of the fromPath mount may lead to unpredictable behavior when used in parallel and potentially affect reproducibility and reliability. The data in the mounted directory has no effect on the final image digest, which can lead to invalid images and hard-to-trace issues."
  [FS (String "034" ""); FS fromPath; FS (String "034" "")])).

(** Not a matter of the loose mode. *)
Definition InspectIncludesAllowUpdate : res unit :=
  if IsUpdateIncludesAccepted giterminismConfig then Ok tt
  else Err (NewExternalDependencyFoundError "using --allow-includes-update option is not allowed by giterminism.

The use of --allow-includes-update option might make builds and deployments unreproducible.
	").

Definition InspectBuildContextFiles (matcher : PathMatcher) : prog W unit :=
  if LooseGiterminism opts then mret tt else FileReader.validateStatusResult LegacyMurmurHash opts matcher.

End config.
End GiterminismConfig.
