(* ===== verification/GiterminismConfigProps.v ===== *)
(** What a werf-giterminism.yaml lets through: files that none of its patterns takes are read from the commit, and
    so is the file itself; the inspector lets through what is listed and nothing else. *)
From S2P Require Import Prelude Go GoStd GitRefsExamples GitScan GitScanExamples PathMatcher PathMatcherProps LsTree GitStatus GitFiles GitFilesProps FileReader FileReaderProps GiterminismExamples GiterminismConfig.
Import PathMatcher RepoHandle LsTree GitFiles GitFilesProps FileReader FileReaderProps GiterminismConfig.

Module GiterminismConfigProps.

Section reads.
Context {gg : GoGit} {gq : GoQuote} {ds : Doublestar} {pms : PatternMatchers} {uf : UtilFilepaths} {up : UtilPaths} {hs : Hashes} {ss : SortSlice} {gp : GlobPrefixes} {sa : StringArrays}.
Context {re : Regexps} {ue : UtilExpand} {sc : Schema}.
Context {W : Type} {rb : RepoBase W} {lr : GitStatus.LocalRepo W} {fs : FileSystem W}.
Context (LegacyMurmurHash : list string -> string) (fuel : nat) (opts : SharedOptions).
Context (h0 : Handle) (status0 : GitStatus.Result) (I : W -> Prop).

Abbreviation commit := (HeadCommit opts).
Definition R (w w' : W) : Prop := I w -> I w'.

#[local] Instance R_PreOrder : PreOrder R.
Proof using Type. split; [exact (fun w H => H)|exact (fun a b c H1 H2 H => H2 (H1 H))]. Qed.

Local Hint Resolve R_PreOrder : werf.

(** Reading files changes nothing of what is known. *)
Record Kept : Prop := {
  kept_lstat : forall p, keeps R (fs_Lstat p);
  kept_link : forall p, keeps R (fs_Readlink p);
  kept_read : forall p, keeps R (fs_ReadFile p);
  kept_regular : forall p, keeps R (fs_RegularFileExists p);
}.

Context (steady : Steady LegacyMurmurHash opts h0 status0 I) (kept : Kept).

Lemma keeps_calm {A} (m : prog W A) r : (forall w, I w -> exists w', m w = (r, w') /\ I w') -> keeps R m.
Proof using Type. intros H w Hw. destruct (H w Hw) as (w' & E & Hw'). by rewrite E. Qed.

Lemma keeps_entry p : keeps R (GetCommitTreeEntry fuel commit p).
Proof using steady. eapply keeps_calm. intros w. apply (GetCommitTreeEntry_calm fuel commit h0 I (steady_repo _ _ _ _ _ steady)). Qed.

Lemma keeps_content p : keeps R (ReadCommitTreeEntryContent fuel commit p).
Proof using steady. eapply keeps_calm. intros w. apply (ReadContent_calm fuel commit h0 I (steady_repo _ _ _ _ _ steady)). Qed.

Lemma keeps_validate p : keeps R (ValidateFileByStatusResult LegacyMurmurHash opts p).
Proof using steady. intros w Hw. by eapply validate_keeps. Qed.

Local Hint Resolve keeps_entry keeps_content keeps_validate kept_lstat kept_link kept_read kept_regular : werf.

Definition check_keeps (check : option (string -> prog W unit)) : Prop :=
  match check with Some f => forall p, keeps R (f p) | None => True end.

Lemma keeps_checkTarget check t : check_keeps check -> keeps R (checkTarget check t).
Proof using Type. destruct check as [f|]; simpl; [auto|intros _; keeps_go]. Qed.

Lemma keeps_resolveParts resolve check xs : (forall p, keeps R (resolve p)) -> check_keeps check ->
  forall d, keeps R (resolveParts fuel resolve commit check xs d).
Proof using steady. intros Hr Hc. pose proof (keeps_checkTarget check) as Ht. induction xs as [|x xs IH]; intros d; cbn [resolveParts]; keeps_go. Qed.

Lemma keeps_resolve levels check : check_keeps check -> forall p, keeps R (resolveCommitFilePath fuel levels commit p check).
Proof using steady.
  intros Hc. induction levels as [|levels IH]; intros p; cbn [resolveCommitFilePath]; [keeps_go|].
  pose proof (fun xs => keeps_resolveParts _ check xs IH Hc). keeps_go.
Qed.

Lemma keeps_resolveFileParts resolve xs : (forall p, keeps R (resolve p)) -> forall d, keeps R (resolveFileParts opts resolve None xs d).
Proof using kept. intros Hr. induction xs as [|x xs IH]; intros d; cbn [resolveFileParts checkFileTarget]; keeps_go. Qed.

Lemma keeps_resolveFilePath levels : forall p, keeps R (resolveFilePath opts levels p None).
Proof using kept.
  induction levels as [|levels IH]; intros p; cbn [resolveFilePath]; [keeps_go|]. by apply keeps_resolveFileParts.
Qed.

Lemma keeps_IsRegularFileExist p : keeps R (IsRegularFileExist opts p).
Proof using kept. unfold IsRegularFileExist, isFileExist, ResolveFilePath. pose proof (keeps_resolveFilePath depth). keeps_go. Qed.

Lemma keeps_IsCommitFileExist p : keeps R (reader_IsCommitFileExist fuel opts p).
Proof using steady.
  unfold reader_IsCommitFileExist, IsCommitFileExist, checkCommitFileMode, ResolveCommitFilePath.
  pose proof (keeps_resolve depth None Logic.I). keeps_go.
Qed.

Local Hint Resolve keeps_IsRegularFileExist keeps_IsCommitFileExist : werf.

Lemma keeps_checkCommitFile p : keeps R (checkCommitFileExistenceAndLocalChanges LegacyMurmurHash fuel opts p).
Proof using steady.
  unfold checkCommitFileExistenceAndLocalChanges, reader_IsCommitTreeEntryExist, isTreeEntryExist, reader_ResolveAndCheckCommitFilePath, ResolveAndCheckCommitFilePath.
  pose proof (keeps_resolve depth (Some (validateTarget LegacyMurmurHash opts)) (fun t => keeps_validate _)). keeps_go.
Qed.

Lemma keeps_ReadCommitFile p : keeps R (reader_ReadCommitFile fuel opts p).
Proof using steady. unfold reader_ReadCommitFile, ReadCommitFile, ResolveCommitFilePath. pose proof (keeps_resolve depth None Logic.I). keeps_go. Qed.

Local Hint Resolve keeps_checkCommitFile keeps_ReadCommitFile : werf.

Lemma keeps_unlisted relPath isPathMatched : LooseGiterminism opts = false -> isPathMatched relPath = Ok false ->
  keeps R (readAndCheckConfigurationFile LegacyMurmurHash fuel opts relPath isPathMatched (IsRegularFileExist opts)).
Proof using steady kept.
  intros El Em. unfold readAndCheckConfigurationFile, checkConfigurationFileExistenceAndAcceptance, readConfigurationFile, shouldFileBeRead. rewrite El, Em.
  apply keeps_bind; [typeclasses eauto| |intros _]; (apply keeps_bind_Ok; [typeclasses eauto|keeps_go|]); intros b w w' E;
    unfold lift in E; injection E as <- _; keeps_go.
Qed.

(** A file that is read although the patterns do not take it is the one of the commit. *)
Lemma read_unlisted relPath isPathMatched data w w' : LooseGiterminism opts = false -> isPathMatched relPath = Ok false -> I w ->
  readAndCheckConfigurationFile LegacyMurmurHash fuel opts relPath isPathMatched (IsRegularFileExist opts) w = (Ok data, w') ->
  from_commit fuel opts h0 status0 relPath data.
Proof using steady kept.
  intros Hl Hm Hw H. eapply read_not_accepted in H as [H _]; [exact H|exact steady|done|done| |done].
  intros v Hv. by apply keeps_IsRegularFileExist.
Qed.

Abbreviation from_commit := (from_commit fuel opts h0 status0).
Abbreviation readConfig rc := (ReadConfig LegacyMurmurHash fuel opts rc).

Lemma readFirst_unlisted rc all l p data w w' : LooseGiterminism opts = false -> FileReader.IsUncommittedConfigAccepted rc = false -> I w ->
  readFirst LegacyMurmurHash fuel opts rc all l w = (Ok (p, data), w') -> p ∈ l /\ from_commit p data.
Proof using steady kept.
  intros Hl Ha. revert w. induction l as [|q l IH]; intros w Hw H; cbn [readFirst] in H; [done|]. rewrite Ha in H.
  pose proof (keeps_unlisted q (fun _ => Ok false) Hl eq_refl w Hw) as Hk.
  apply bind_Ok in H as (r & w1 & E & H). apply try_Ok in E. destruct r as [d|e]; rewrite E in Hk; simpl in Hk.
  - unfold mret, prog_ret in H. injection H as -> -> ->. split; [by left|]. by eapply read_unlisted in E.
  - destruct (is_not_found e); [|done]. apply IH in H as [Hp H]; [|done]. split; [by right|done].
Qed.

(** ** What the reader asks of the configuration *)

Lemma pathMatcher_Ok l : exists m, pathMatcher l = Ok m /\ forall p, isPathMatched l p = IsPathMatched m p.
Proof using Type.
  unfold isPathMatched. destruct l as [|g l]; [by exists FalsePathMatcher|]. unfold pathMatcher, NewPathMatcher. simpl.
  eexists. split; [reflexivity|]. done.
Qed.

Lemma isPathMatched_nil p : isPathMatched [] p = Ok false.
Proof using Type. reflexivity. Qed.

Lemma SetGiterminismConfig_spec c : exists rc, SetGiterminismConfig c = Ok rc /\
  FileReader.IsUncommittedConfigAccepted rc = AllowUncommitted (Config_ c) /\
  (forall p, templateMatched rc p = isPathMatched (gtr_AllowUncommittedFiles (GoTemplateRendering (Config_ c))) p) /\
  (forall p, FileReader.IsUncommittedDockerfileAccepted rc p = isPathMatched (dock_AllowUncommitted (Dockerfile (Config_ c))) p) /\
  (forall p, FileReader.IsUncommittedDockerignoreAccepted rc p = isPathMatched (AllowUncommittedDockerignoreFiles (Dockerfile (Config_ c))) p) /\
  (forall p, IsPathMatched (FileReader.UncommittedHelmFilePathMatcher rc) p = isPathMatched (helm_AllowUncommittedFiles (Helm c)) p).
Proof using Type.
  unfold SetGiterminismConfig, UncommittedConfigTemplateFilePathMatcher, UncommittedConfigGoTemplateRenderingFilePathMatcher, UncommittedHelmFilePathMatcher.
  destruct (pathMatcher_Ok (AllowUncommittedTemplates (Config_ c))) as (m1 & -> & _).
  destruct (pathMatcher_Ok (gtr_AllowUncommittedFiles (GoTemplateRendering (Config_ c)))) as (m2 & -> & H2).
  destruct (pathMatcher_Ok (helm_AllowUncommittedFiles (Helm c))) as (m3 & -> & H3). simpl. eexists. split; [reflexivity|].
  split; [done|]. split; [by intros p; rewrite H2|]. split; [done|]. split; [done|]. intros p. by rewrite H3.
Qed.

(** ** The configuration of giterminism *)

Lemma NewConfig_commit configRelPath c w w' : LooseGiterminism opts = false -> I w -> NewConfig LegacyMurmurHash fuel opts configRelPath w = (Ok c, w') ->
  I w' /\ (c = emptyConfig \/ exists data json, from_commit configRelPath data /\ processWithOpenAPISchema data = Ok json /\ json_Unmarshal json = inl c).
Proof using steady kept.
  intros Hl Hw H. unfold NewConfig in H. apply bind_Ok in H as (b & w1 & E & H).
  assert (I w1) as Hw1.
  { assert (keeps R (IsGiterminismConfigExistAnywhere fuel opts configRelPath)) as Hk; [|specialize (Hk w Hw); by rewrite E in Hk].
    unfold IsGiterminismConfigExistAnywhere, isConfigurationFileExistAnywhere. keeps_go. }
  destruct b; cbn [negb] in H; [|unfold mret, prog_ret in H; injection H as <- <-; split; [done|by left]].
  apply bind_Ok in H as (data & w2 & E2 & H). unfold ReadGiterminismConfig in E2. apply wrap_Ok in E2. unfold readCommitted in E2.
  pose proof (keeps_unlisted configRelPath (fun _ => Ok false) Hl eq_refl w1 Hw1) as Hw2. rewrite E2 in Hw2. simpl in Hw2.
  apply read_unlisted in E2; [|done..]. apply bind_Ok in H as (json & w3 & E3 & H). apply wrap_Ok in E3. unfold lift in E3. injection E3 as E3 <-.
  destruct (json_Unmarshal json) as [c'|e] eqn:Ej; [|done]. unfold mret, prog_ret in H. injection H as -> <-.
  split; [done|]. right. by exists data, json.
Qed.

(** C25: The manager of giterminism, outside of the loose mode: its configuration is the one of the commit, or the
    empty one, which takes nothing; and a werf.yaml, a Dockerfile, a .dockerignore, a file that a template gets
    and a file of a chart are read as the commit has them, where no pattern of the configuration for this kind of
    file takes their path. Outside of the development mode such a file is moreover one that the status of git
    reports no change of; in the development mode the status is not looked at, and nothing is said of changes.
    All this while the commit and the status of git stay the same. *)
Theorem manager_reads_commit configRelPath c w0 w : LooseGiterminism opts = false -> I w0 ->
  NewConfig LegacyMurmurHash fuel opts configRelPath w0 = (Ok c, w) ->
  (c = emptyConfig \/ exists data json, from_commit configRelPath data /\ processWithOpenAPISchema data = Ok json /\ json_Unmarshal json = inl c) /\
  exists rc, SetGiterminismConfig c = Ok rc /\ forall path data w',
    (AllowUncommitted (Config_ c) = false -> forall custom, readConfig rc custom w = (Ok (path, data), w') ->
       path ∈ ConfigPathList custom /\ from_commit path data) /\
    (isPathMatched (dock_AllowUncommitted (Dockerfile (Config_ c))) path = Ok false ->
       ReadDockerfile LegacyMurmurHash fuel opts rc path w = (Ok data, w') -> from_commit path data) /\
    (isPathMatched (AllowUncommittedDockerignoreFiles (Dockerfile (Config_ c))) path = Ok false ->
       ReadDockerignore LegacyMurmurHash fuel opts rc path w = (Ok data, w') -> from_commit path data) /\
    (isPathMatched (gtr_AllowUncommittedFiles (GoTemplateRendering (Config_ c))) path = Ok false ->
       ConfigGoTemplateFilesGet LegacyMurmurHash fuel opts rc path w = (Ok data, w') -> from_commit path data) /\
    (let relPath := absolutePathToProjectDirRelativePath opts path in
     isPathMatched (helm_AllowUncommittedFiles (Helm c)) relPath = Ok false ->
       ReadChartFile LegacyMurmurHash fuel opts rc path w = (Ok data, w') -> from_commit relPath data).
Proof using steady kept.
  intros Hl Hw0 H. apply NewConfig_commit in H as [Hw Hc]; [|done..]. split; [done|].
  destruct (SetGiterminismConfig_spec c) as (rc & E & H1 & H2 & H3 & H4 & H5). exists rc. split; [done|]. intros path data w'.
  split; [|split; [|split; [|split]]].
  - intros Ha custom H. unfold ReadConfig in H. apply wrap_Ok in H. eapply readFirst_unlisted in H; [exact H|done|congruence|done].
  - intros Hm H. unfold ReadDockerfile in H. apply wrap_Ok in H. by eapply read_unlisted in H; [|done|rewrite H3|].
  - intros Hm H. unfold ReadDockerignore in H. apply wrap_Ok in H. by eapply read_unlisted in H; [|done|rewrite H4|].
  - intros Hm H. unfold ConfigGoTemplateFilesGet in H. by eapply read_unlisted in H; [|done|rewrite H2|].
  - intros relPath Hm H. unfold ReadChartFile in H. apply wrap_Ok in H. by eapply read_unlisted in H; [|done|rewrite H5|].
Qed.

End reads.
(** * The inspector *)

Section inspector.
Context {gg : GoGit} {gq : GoQuote} {ds : Doublestar} {pms : PatternMatchers} {uf : UtilFilepaths} {up : UtilPaths} {hs : Hashes} {ss : SortSlice} {gp : GlobPrefixes} {sa : StringArrays}.
Context {re : Regexps} {ue : UtilExpand} {sc : Schema}.
Context (opts : SharedOptions) (c : Config).

Lemma inspect_Ok r e : inspect opts r e = Ok tt <-> LooseGiterminism opts = true \/ r = Ok true.
Proof using Type. unfold inspect. destruct (LooseGiterminism opts); [naive_solver|]. destruct r as [[]| |]; simpl; naive_solver. Qed.

Lemma inspect_bool b e : inspect opts (Ok b) e = Ok tt <-> LooseGiterminism opts = true \/ b = true.
Proof using Type. rewrite inspect_Ok. naive_solver. Qed.

(** Patterns are tried in their order, and none after the first one that matches or fails. *)
Lemma anyNameMatched_spec l name : anyNameMatched l name = Ok true <->
  exists l1 p l2, l = l1 ++ p :: l2 /\ envNameMatched p name = Ok true /\ Forall (fun q => envNameMatched q name = Ok false) l1.
Proof using Type.
  induction l as [|q l IH]; cbn [anyNameMatched].
  { split; [done|]. intros ([|] & p & l2 & H & _); done. }
  split.
  - destruct (envNameMatched q name) as [[]| |] eqn:E; cbn [mbind res_bind]; [by exists [], q, l| |done..].
    intros (l1 & p & l2 & -> & Hp & Hl1)%IH. exists (q :: l1), p, l2. split; [done|]. split; [done|]. by constructor.
  - intros ([|q' l1] & p & l2 & [= -> ->] & Hp & Hl1); [by rewrite Hp|]. inversion_clear Hl1 as [|? ? Hq Hl1']. rewrite Hq. cbn [mbind res_bind].
    apply IH. by exists l1, p, l2.
Qed.

(** Some glob of a list takes a path. *)
Definition listed (globs : list string) (path : string) : Prop :=
  globs <> [] /\ include_IsPathMatched (formatPaths globs) path = Ok true.

Lemma isPathMatched_listed globs path : isPathMatched globs path = Ok true <-> listed globs path.
Proof using Type.
  unfold listed, isPathMatched. destruct globs as [|g globs]; [simpl; naive_solver|].
  change (pathMatcher (g :: globs)) with (Ok (NewMultiPathMatcher [newIncludePathMatcher (g :: globs)])).
  cbn [mbind res_bind NewMultiPathMatcher IsPathMatched newIncludePathMatcher allMatched]. destruct (include_IsPathMatched _ path) as [[]| |]; cbn; naive_solver.
Qed.

Lemma expandAll_spec l l' : expandAll l = Some l' <-> Forall2 (fun p p' => ExpandPath p = inl p') l l'.
Proof using Type.
  revert l'. induction l as [|p l IH]; intros l'; cbn [expandAll]; [split; [by intros [= <-]|by inversion 1]|].
  destruct (ExpandPath p) as [p'|e] eqn:E.
  - rewrite fmap_Some. setoid_rewrite IH. split; [intros (x & H & ->); by constructor|].
    intros (x & l2 & Hx & Hl & ->)%Forall2_cons_inv_l. exists l2. split; [done|]. congruence.
  - split; [done|]. intros (x & l2 & Hx & _)%Forall2_cons_inv_l. congruence.
Qed.

(** The inspector lets a directive through exactly if the mode is loose or the configuration lists it: a switch
    that is on; a name of a secret; the first pattern of an environment variable that matches or cannot be
    compiled matches; a glob takes a path, where no globs take none; and for the file of a secret the globs and
    the path are expanded first, and each of them can be. The update of includes is not a matter of the mode. *)
Theorem inspector_exact name path :
  let loose := LooseGiterminism opts = true in
  (InspectCustomTags opts c = Ok tt <-> loose \/ AllowCustomTags (Cli c) = true) /\
  (InspectConfigStapelFromLatest opts c = Ok tt <-> loose \/ AllowFromLatest (Stapel (Config_ c)) = true) /\
  (InspectConfigStapelGitBranch opts c = Ok tt <-> loose \/ AllowBranch (Git (Stapel (Config_ c))) = true) /\
  (InspectConfigStapelMountBuildDir opts c = Ok tt <-> loose \/ AllowBuildDir (Mount (Stapel (Config_ c))) = true) /\
  (InspectConfigGoTemplateRenderingEnv opts c name = Ok tt <-> loose \/
     exists l1 p l2, gtr_AllowEnvVariables (GoTemplateRendering (Config_ c)) = l1 ++ p :: l2 /\ envNameMatched p name = Ok true /\
       Forall (fun q => envNameMatched q name = Ok false) l1) /\
  (InspectConfigSecretEnvAccepted opts c name = Ok tt <-> loose \/ name ∈ sec_AllowEnvVariables (Secrets (Config_ c))) /\
  (InspectConfigSecretValueAccepted opts c name = Ok tt <-> loose \/ name ∈ AllowValueIds (Secrets (Config_ c))) /\
  (InspectConfigSecretSrcAccepted opts c path = Ok tt <-> loose \/
     exists absPath globs, ExpandPath path = inl absPath /\
       Forall2 (fun p p' => ExpandPath p = inl p') (AllowFiles (Secrets (Config_ c))) globs /\ listed globs absPath) /\
  (InspectConfigDockerfileContextAddFile opts c path = Ok tt <-> loose \/ listed (AllowContextAddFiles (Dockerfile (Config_ c))) path) /\
  (InspectConfigStapelMountFromPath opts c path = Ok tt <-> loose \/ listed (AllowFromPaths (Mount (Stapel (Config_ c)))) path) /\
  (InspectIncludesAllowUpdate c = Ok tt <-> AllowIncludesUpdate (Includes c) = true).
Proof using Type.
  intros loose. do 4 (split; [apply inspect_bool|]). split; [|split; [|split; [|split; [|split; [|split]]]]].
  - etrans; [apply inspect_Ok|]. unfold IsConfigGoTemplateRenderingEnvNameAccepted. by rewrite anyNameMatched_spec.
  - etrans; [apply inspect_bool|]. unfold IsConfigSecretEnvAccepted. by rewrite bool_decide_eq_true.
  - etrans; [apply inspect_bool|]. unfold IsConfigSecretValueAccepted. by rewrite bool_decide_eq_true.
  - etrans; [apply inspect_Ok|]. apply or_iff_compat_l. unfold IsConfigSecretSrcAccepted, isAbsPathMatched.
    destruct (ExpandPath path) as [a|e]; [|naive_solver]. setoid_rewrite <- expandAll_spec. destruct (expandAll _) as [globs|]; [|naive_solver].
    rewrite isPathMatched_listed. naive_solver.
  - etrans; [apply inspect_Ok|]. unfold IsConfigDockerfileContextAddFileAccepted. by rewrite isPathMatched_listed.
  - etrans; [apply inspect_Ok|]. unfold IsConfigStapelMountFromPathAccepted. by rewrite isPathMatched_listed.
  - unfold InspectIncludesAllowUpdate, IsUpdateIncludesAccepted. destruct (AllowIncludesUpdate _); naive_solver.
Qed.
End inspector.

End GiterminismConfigProps.

(** A project without a werf-giterminism.yaml. *)
Module GiterminismConfigExamples.
Import PathMatcherExamples LsTreeExamples GitFilesExamples FileReaderExamples GiterminismConfigProps.

#[local] Existing Instance GitRefsExamples.stable_sort.
#[local] Existing Instance GitScanExamples.string_arrays.
#[local] Existing Instance FileReaderExamples.disk.
#[local] Existing Instance FileReaderExamples.linked_base.

(** Regular expressions that are a text between ^ and $; no schema accepts anything. *)
#[local] Instance literal : Regexps := {| Regexp := string; Regexp_Compile := inl; MatchString re key := bool_decide (re = "^" +:+ key +:+ "$") |}.
#[local] Instance same_path : UtilExpand := inl.
#[local] Instance no_schema : Schema := {|
  Value := unit; yaml_Unmarshal _ := inl tt; Validate _ := inr [Errorf "unknown version" []];
  json_Marshal _ := inl ""; json_Unmarshal _ := inl emptyConfig |}.

#[local] Instance repo : GitStatus.LocalRepo World := FileReaderExamples.repo (unclean ["README"] []).

Lemma kept : Kept (known linked).
Proof.
  split; intros p w Hw; [..|exact Hw].
  - change (fs_Lstat p w) with (lstat p w). unfold lstat. destruct (at_path links p); [exact Hw|]. destruct (is_file p); [exact Hw|].
    destruct (_ || _); exact Hw.
  - simpl. destruct (at_path links p); exact Hw.
  - simpl. destruct (at_path files (follow p)); exact Hw.
Qed.

Definition new_config : prog World Config := NewConfig hash 9 opts "werf-giterminism.yaml".

Lemma manager_reads_commit_witness : exists w rc w', new_config start = (Ok emptyConfig, w) /\
  ReadDockerfile hash 9 opts rc "conf.yaml" w = (Ok "app", w') /\
  FileReaderProps.from_commit 9 opts (handleOf linked) (unclean ["README"] []) "conf.yaml" "app".
Proof.
  assert ((new_config start).1 = Ok emptyConfig) as E by (vm_cast_no_check (@eq_refl (res Config) (Ok emptyConfig))).
  destruct (new_config start) as [x w] eqn:Ex. simpl in E. subst x.
  assert (w = (new_config start).2) as Ew by (rewrite Ex; reflexivity). pose proof Ex as Ex'. unfold new_config in Ex'.
  destruct (manager_reads_commit hash 9 opts (handleOf linked) (unclean ["README"] []) (known linked) (steady _) kept
    "werf-giterminism.yaml" emptyConfig start w eq_refl (start_known linked) Ex') as (_ & rc & Hrc & H).
  unfold SetGiterminismConfig in Hrc. injection Hrc as Hrc.
  assert ((ReadDockerfile hash 9 opts rc "conf.yaml" w).1 = Ok "app") as E by (rewrite Ew, <- Hrc; vm_cast_no_check (@eq_refl (res string) (Ok "app"))).
  destruct (ReadDockerfile hash 9 opts rc "conf.yaml" w) as [y w'] eqn:Ey. simpl in E. subst y.
  exists w, rc, w'. split; [reflexivity|]. split; [exact Ey|]. destruct (H "conf.yaml" "app" w') as (_ & H2 & _). apply H2; [reflexivity|exact Ey].
Defined.

Definition secret_config : Config :=
  mkConfig (mkcli false)
    (mkconfig false [] (mkgoTemplateRendering ["CI"; "/APP.*/"; "/"] []) (mksecrets ["TOKEN"] [] []) (mkstapel false (mkgit false) (mkmount false []))
       (mkdockerfile [] [] []))
    (mkhelm []) (mkincludes false).

Example secret_listed : InspectConfigSecretEnvAccepted opts secret_config "TOKEN" = Ok tt.
Proof. reflexivity. Qed.

Example secret_not_listed : exists e, InspectConfigSecretEnvAccepted opts secret_config "KEY" = Err e.
Proof. eexists. reflexivity. Qed.

(** A pattern of one slash, as in [slash_panics] of the imageSpec. *)
Example env_slash_panics : InspectConfigGoTemplateRenderingEnv opts secret_config "HOME" = Panic "slice bounds out of range [1:0]".
Proof. vm_compute. reflexivity. Qed.
End GiterminismConfigExamples.
