(* ===== verification/Imports.v ===== *)
(** Imports and dependencies of a stapel image: the stage that copies files of other images and hands on their
    names (pkg/build/stage/dependencies.go, dependencies_utils.go), and the filters of rsync for the copied files
    (pkg/build/import_server). The images that are built, the backend and the host are classes of operations. *)
From S2P Require Import Prelude Go GoStd Image Registry StagesStorage PathMatcher PathMatcherFacts GitStatus GitStatusProps.

(** [util.Reverse] of common-go. *)
Class UtilReverse := Reverse : string -> string.

Module Imports.

(** * Configuration *)

Record ExportBase := mkExportBase {
  Add : string; To : string; IncludePaths : list string; ExcludePaths : list string; Owner : string; Group : string;
}.

Record Import := mkImport {
  Export : ExportBase; ImageName : string; ArtifactName : string; Before : string; After : string; Stage : string;
  ExternalImage : bool;
}.

Definition ImageNameImport : string := "ImageName".
Definition ImageTagImport : string := "ImageTag".
Definition ImageRepoImport : string := "ImageRepo".
Definition ImageIDImport : string := "ImageID".
Definition ImageDigestImport : string := "ImageDigest".

Record DependencyImport := mkDependencyImport { Type_ : string; TargetBuildArg : string; TargetEnv : string }.

Record Dependency := mkDependency { dep_ImageName : string; dep_Before : string; dep_After : string; dep_Imports : list DependencyImport }.

Definition getImports (imports : list Import) (before after : string) : list Import :=
  filter (fun e => (bool_decide (before <> "") && bool_decide (Before e <> "") && bool_decide (Before e = before)) ||
                   (bool_decide (after <> "") && bool_decide (After e <> "") && bool_decide (After e = after)) = true) imports.

Definition getDependencies (dependencies : list Dependency) (before after : string) : list Dependency :=
  filter (fun e => (bool_decide (dep_Before e <> "") && bool_decide (before = dep_Before e)) ||
                   (bool_decide (dep_After e <> "") && bool_decide (after = dep_After e)) = true) dependencies.

(** * Filters of rsync *)

Fixpoint trimLeftSlashes (s : string) : string :=
  match s with String c s' => if bool_decide (c = "/"%char) then trimLeftSlashes s' else s | "" => "" end.

(** [strings.Trim(s, "/")]. *)
Definition trimSlashes (s : string) : string := Filepath.trimSlashes (trimLeftSlashes s).

Definition join (prefix seg : string) : string := if bool_decide (prefix = "") then seg else prefix +:+ "/" +:+ seg.

(** What [set] keeps. *)
Definition nonempty (m : gset string) : gset string := filter (fun v => v <> "") m.

(** One segment: the prefixes after it, and the results. *)
Definition nextSegment (isLast finalSegmentOnly : bool) (seg : string) (current results : gset string) : gset string * gset string :=
  let joined := set_map (D := gset string) (fun prefix => join prefix seg) current in
  let directories := set_map (D := gset string) (fun v => v +:+ "/") joined in
  if bool_decide (seg = "**") then
    (nonempty joined ∪ nonempty current,
     if negb isLast && negb finalSegmentOnly then results ∪ directories else results)
  else
    (nonempty joined,
     if isLast then results ∪ nonempty joined else if negb finalSegmentOnly then results ∪ directories else results).

Fixpoint segmentsLoop (finalSegmentOnly : bool) (segments : list string) (current results : gset string) : gset string :=
  match segments with
  | [] => results
  | seg :: segments' =>
      let r := nextSegment (bool_decide (segments' = [])) finalSegmentOnly seg current results in
      segmentsLoop finalSegmentOnly segments' r.1 r.2
  end.

Definition globToRsyncFilterPaths (glob : string) (finalSegmentOnly : bool) : list string :=
  let glob := trimSlashes glob in
  if bool_decide (glob = "") then []
  else Sort.Strings (elements (segmentsLoop finalSegmentOnly (Str.Split glob "/") {[""]} ∅)).

Definition filterRule (sign p : string) : string := " --filter='" +:+ sign +:+ "/ " +:+ p +:+ "'".

Definition concatRules (sign : string) (keys : list string) : string := Str.Join (filterRule sign <$> keys) "".

Definition PrepareRsyncExcludeFiltersForGlobs (add : string) (excludeGlobs : list string) : string :=
  let paths : gset string := list_to_set (p ← excludeGlobs; globToRsyncFilterPaths (Filepath.Join [add; p]) true) in
  concatRules "-" (Sort.Strings (elements paths)).

Definition includePathsOf (targetPath : string) : list string :=
  globToRsyncFilterPaths targetPath false ++ [targetPath; Filepath.Join [targetPath; "**"]].

Definition PrepareRsyncIncludeFiltersForGlobs (add : string) (includeGlobs : list string) : string :=
  match includeGlobs with
  | [] => ""
  | _ =>
      let paths : gset string := list_to_set (p ← includeGlobs; includePathsOf (Filepath.Join [add; p])) in
      concatRules "+" (Sort.Strings (elements paths)) +:+ filterRule "-" (Filepath.Join [add; "**"])
  end.

Definition PrepareRsyncFilters (add : string) (includePaths excludePaths : list string) : string :=
  match includePaths with
  | _ :: _ => PrepareRsyncExcludeFiltersForGlobs add excludePaths +:+ PrepareRsyncIncludeFiltersForGlobs add includePaths
  | [] => match excludePaths with [] => "" | _ => PrepareRsyncExcludeFiltersForGlobs add excludePaths end
  end.

(** ** The command that copies *)

Definition CONTAINER_MOUNT_ROOT : string := "/.werf".
Definition embeddedBinPath (bin : string) : string := Filepath.Join [CONTAINER_MOUNT_ROOT; "stapel/embedded/bin"; bin].
Definition RsyncBinPath : string := embeddedBinPath "rsync".
Definition HeadBinPath : string := embeddedBinPath "head".
Definition MkdirBinPath : string := embeddedBinPath "mkdir".
Definition BashBinPath : string := embeddedBinPath "bash".
Definition CutBinPath : string := embeddedBinPath "cut".
Definition SortBinPath : string := embeddedBinPath "sort".
Definition StatBinPath : string := embeddedBinPath "stat".
Definition Md5sumBinPath : string := embeddedBinPath "md5sum".

Record RsyncServer := mkRsyncServer { IPAddress : string; Port : string; AuthUser : string; AuthPassword : string }.

Definition GetCopyCommand (srv : RsyncServer) (importConfig : Import) : string :=
  let e := Export importConfig in
  let rsyncImportPathSpec := "rsync://" +:+ AuthUser srv +:+ "@" +:+ IPAddress srv +:+ ":" +:+ Port srv +:+ "/import/" +:+ Add e in
  let password := "RSYNC_PASSWORD='" +:+ AuthPassword srv +:+ "' " +:+ RsyncBinPath in
  let rsyncStatImportPathCommand := password +:+ " -L " +:+ rsyncImportPathSpec in
  let rsyncChownOption := if bool_decide (Owner e <> "") || bool_decide (Group e <> "")
                          then "--chown=" +:+ Owner e +:+ ":" +:+ Group e else "" in
  let rsyncCommand := password +:+ " --archive --links --inplace --xattrs " +:+ rsyncChownOption +:+
    PrepareRsyncFilters (Add e) (IncludePaths e) (ExcludePaths e) +:+
    " " +:+ rsyncImportPathSpec +:+ "$IMPORT_PATH_TRAILING_SLASH_OPTIONAL " +:+ To e in
  Str.Join
    ["statOutput=$(" +:+ rsyncStatImportPathCommand +:+ ")";
     "[ $? -eq 0 ]";
     "unset IMPORT_PATH_TRAILING_SLASH_OPTIONAL";
     "fileTypeField=$(echo $statOutput | " +:+ HeadBinPath +:+ " -c1)";
     "[ $? -eq 0 ]";
     "if [ $fileTypeField = d ] ; then IMPORT_PATH_TRAILING_SLASH_OPTIONAL=/ ; fi";
     MkdirBinPath +:+ " -p " +:+ Filepath.Dir (To e);
     rsyncCommand] " && ".

(** * The stage *)

Record DependencyImportSpec := mkDependencyImportSpec {
  spec_ImageName : string; FromPath : string; ToPath : string; spec_IncludePaths : list string; spec_ExcludePaths : list string;
  spec_Owner : string; spec_Group : string;
}.

(** The images of a build, by platform and name, and their stages. *)
Class BuiltImages (W : Type) := {
  GetImageContentDigest : string -> string -> W -> res string;
  GetImageStageContentDigest : string -> string -> string -> W -> res string;
  GetImageNameForLastImageStage : string -> string -> W -> res string;
  GetImageNameForImageStage : string -> string -> string -> W -> res string;
  GetStageIDForLastImageStage : string -> string -> W -> res string;
  GetStageIDForImageStage : string -> string -> string -> W -> res string;
  GetImageIDForLastImageStage : string -> string -> W -> res string;
  GetImageDigestForLastImageStage : string -> string -> W -> res string;
  FetchLastNonEmptyImageStage : string -> string -> prog W unit;
  FetchImageStage : string -> string -> string -> prog W unit;
  GetImportServer : string -> string -> string -> bool -> prog W RsyncServer;
}.

(** The container backend, Docker and files of the host; [ExperimentalPermissions] is the variable
    WERF_EXPERIMENTAL_STAPEL_IMPORT_PERMISSIONS. *)
Class ImportBackend (W : Type) := {
  HasStapelBuildSupport : bool;
  ExperimentalPermissions : bool;
  CalculateDependencyImportChecksum : DependencyImportSpec -> string -> prog W string;
  GetOrCreateContainer : prog W string;
  CreateScript : string -> list string -> prog W unit;
  CliRun_RecordedOutput : list string -> prog W unit;
  ReadFile : string -> prog W string;
  GlobalWarningLn : string -> prog W unit;
  TrimSpace : string -> string;
}.

(** What a stage tells the builder of its image. *)
Inductive BuilderCall :=
| AddLabels (labels : gmap string string)
| AddEnvs (envs : gmap string string)
| AddServiceRunCommands (command : string)
| AddDependencyImport (imageName fromPath toPath : string) (includePaths excludePaths : list string) (owner group : string).

Record DependenciesStage := mkDependenciesStage {
  imports : list Import; dependencies : list Dependency;
  name : string; projectName : string; targetPlatform : string; imageTmpDir : string; containerWerfDir : string;
}.

Definition nothingChecksum : string := "d41d8cd98f00b204e9800998ecf8427e".

Section stage.
Context `{!GoQuote, !Hashes, !UtilReverse}.
Context {W : Type} `{!BuiltImages W, !ImportBackend W}.
Variable st : StagesStorage.Storage W.
Variable s : DependenciesStage.

(** A read of the world. *)
Definition asks {A} (f : W -> res A) : prog W A := fun w => (f w, w).

Definition Sprint_strings (l : list string) : string := "[" +:+ Str.Join l " " +:+ "]".

Definition formatImportTitle (elm : Import) : string :=
  let e := Export elm in
  "import[image=" +:+ ImageName elm +:+ " add=" +:+ Add e +:+ " to=" +:+ To e +:+
  (if bool_decide (IncludePaths e <> []) then " includePaths=" +:+ Sprint_strings (IncludePaths e) else "") +:+
  (if bool_decide (ExcludePaths e <> []) then " excludePaths=" +:+ Sprint_strings (ExcludePaths e) else "") +:+ "]".

Definition dependencyLabelKey (depStageID : string) : string :=
  Image.WerfDependencySourceStageIDLabelPrefix +:+ Sha256Hash [depStageID].

Definition getDependencyImportID (dependencyImport : DependencyImport) : string :=
  Sha256Hash ["Type"; Type_ dependencyImport; "TargetEnv"; TargetEnv dependencyImport].

Definition getImportID (elm : Import) : string :=
  let e := Export elm in
  Sha256Hash ["ImageName"; ImageName elm; "ArtifactName"; ArtifactName elm; "Stage"; Stage elm; "After"; After elm;
    "Before"; Before elm; "Add"; Add e; "To"; To e; "Group"; Group e; "Owner"; Owner e;
    "IncludePaths"; Str.Join (IncludePaths e) "///"; "ExcludePaths"; Str.Join (ExcludePaths e) "///"].

Definition getSourceImageName (elm : Import) : string :=
  if bool_decide (ImageName elm <> "") then ImageName elm else ArtifactName elm.

Definition externalSource (elm : Import) : string := Image.WerfImportSourceExternalImagePrefix +:+ ":" +:+ ImageName elm.

Definition getSourceImageContentDigest (elm : Import) : W -> res string := fun w =>
  if ExternalImage elm then Ok (externalSource elm)
  else if bool_decide (Stage elm = "") then GetImageContentDigest (targetPlatform s) (getSourceImageName elm) w
  else GetImageStageContentDigest (targetPlatform s) (getSourceImageName elm) (Stage elm) w.

Definition getSourceStageID (elm : Import) : W -> res string := fun w =>
  if ExternalImage elm then Ok (externalSource elm)
  else if bool_decide (Stage elm = "") then GetStageIDForLastImageStage (targetPlatform s) (getSourceImageName elm) w
  else GetStageIDForImageStage (targetPlatform s) (getSourceImageName elm) (Stage elm) w.

Definition getSourceImageDockerImageName (elm : Import) : W -> res string := fun w =>
  if ExternalImage elm then Ok (ImageName elm)
  else if bool_decide (Stage elm = "") then GetImageNameForLastImageStage (targetPlatform s) (getSourceImageName elm) w
  else GetImageNameForImageStage (targetPlatform s) (getSourceImageName elm) (Stage elm) w.

Definition sourceIDOf (digest : string) (e : ExportBase) : string :=
  Sha256Hash (["SourceImageContentDigest"; digest; "Add"; Add e; "IncludePaths"; Str.Join (IncludePaths e) "///";
     "ExcludePaths"; Str.Join (ExcludePaths e) "///"] ++
    if ExperimentalPermissions then ["CacheVersion"; "true"] else []).

Definition getImportSourceID (elm : Import) : W -> res string := fun w =>
  digest ← getSourceImageContentDigest elm w; Ok (sourceIDOf digest (Export elm)).

Definition fetchSourceImageDockerImage (elm : Import) : prog W unit :=
  if ExternalImage elm then mret tt
  else if bool_decide (Stage elm = "") then FetchLastNonEmptyImageStage (targetPlatform s) (getSourceImageName elm)
  else FetchImageStage (targetPlatform s) (getSourceImageName elm) (Stage elm).

(** ** Checksums *)

Definition dq : string := String "034" "".

Definition generateChecksumBashFunction : list string :=
  let calculateChecksum :=
    if ExperimentalPermissions then
      "printf '%s\t%s\t%s\n' " +:+ dq +:+ "$(" +:+ Md5sumBinPath +:+ " " +:+ dq +:+ "${line}" +:+ dq +:+ " | " +:+ CutBinPath +:+ " -c 1-32)" +:+ dq +:+
      " " +:+ dq +:+ "$(" +:+ StatBinPath +:+ " --format=%A " +:+ dq +:+ "${line}" +:+ dq +:+ ")" +:+ dq +:+ " " +:+ dq +:+ "${line}" +:+ dq
    else Md5sumBinPath +:+ " " +:+ dq +:+ "${line}" +:+ dq in
  ["checksum() {"; "  while read -r line; do"; "    " +:+ calculateChecksum; "  done"; "}"; ""].

Definition generateChecksumScript (from : string) (includePaths excludePaths : list string) (resultChecksumPath : string) : list string :=
  let includePathsCopy := match includePaths with
                          | [] => [from]
                          | _ => (fun p => Filepath.Join [from; p]) <$> includePaths
                          end in
  let excludePathsCopy := ((fun p => Filepath.Join [from; p]) <$> excludePaths) ++
                          (if bool_decide (from = "/") then [CONTAINER_MOUNT_ROOT] else []) in
  let rsyncCommand := RsyncBinPath +:+ " -r -L --dry-run" +:+ PrepareRsyncFilters "" includePathsCopy excludePathsCopy +:+ " /" in
  let parseFilePathCommand := "while read -r mode rest; do [ " +:+ dq +:+ "${mode#-}" +:+ dq +:+ " != " +:+ dq +:+ "$mode" +:+ dq +:+
    " ] && echo " +:+ dq +:+ "/${rest##* }" +:+ dq +:+ "; done" in
  let commands := [rsyncCommand; parseFilePathCommand; SortBinPath +:+ " -n"; "checksum"; Md5sumBinPath; CutBinPath +:+ " -c 1-32"] in
  generateChecksumBashFunction ++ [Str.Join commands " | " +:+ " > " +:+ resultChecksumPath].

Definition checksumByScript (elm : Import) (sourceImageDockerImageName : string) : prog W string :=
  importSourceID ← asks (getImportSourceID elm);
  stapelContainerName ← GetOrCreateContainer;
  let importHostTmpDir := Filepath.Join [imageTmpDir s; name s; "imports"; importSourceID] in
  let importContainerDir := containerWerfDir s in
  let importScriptContainerPath := Filepath.Join [importContainerDir; "script.sh"] in
  let resultChecksumContainerPath := Filepath.Join [importContainerDir; "checksum"] in
  let e := Export elm in
  wrap "unable to create script: %w" []
    (CreateScript (Filepath.Join [importHostTmpDir; "script.sh"])
       (generateChecksumScript (Add e) (IncludePaths e) (ExcludePaths e) resultChecksumContainerPath));;
  CliRun_RecordedOutput
    ["--rm"; "--user=0:0"; "--workdir=/"; "--volumes-from=" +:+ stapelContainerName;
     "--volume=" +:+ importHostTmpDir +:+ ":" +:+ importContainerDir; "--entrypoint=" +:+ BashBinPath;
     sourceImageDockerImageName; importScriptContainerPath];;
  data ← wrap "unable to read file with import source checksum: %w" [] (ReadFile (Filepath.Join [importHostTmpDir; "checksum"]));
  mret (TrimSpace data).

Definition generateImportChecksum (elm : Import) : prog W string :=
  wrap "unable to fetch source image: %w" [] (fetchSourceImageDockerImage elm);;
  sourceImageDockerImageName ← asks (getSourceImageDockerImageName elm);
  if negb HasStapelBuildSupport then checksumByScript elm sourceImageDockerImageName
  else
    let e := Export elm in
    wrap "unable to calculate dependency import checksum in %s: %w" [FS sourceImageDockerImageName]
      (CalculateDependencyImportChecksum
         (mkDependencyImportSpec sourceImageDockerImageName (Add e) (To e) (IncludePaths e) (ExcludePaths e) (Owner e) (Group e))
         (targetPlatform s)).

Definition getImportSourceChecksum (elm : Import) : prog W string :=
  importSourceID ← asks (getImportSourceID elm);
  importMetadata ← wrap "unable to get import metadata: %w" [] (StagesStorage.GetImportMetadata W st (projectName s) importSourceID);
  match importMetadata with
  | Some m => mret (StagesStorage.Checksum m)
  | None =>
      checksum ← wrap "unable to generate import source checksum: %w" [] (generateImportChecksum elm);
      sourceStageID ← asks (getSourceStageID elm);
      wrap "unable to put import metadata: %w" []
        (StagesStorage.PutImportMetadata W st (projectName s) (StagesStorage.mkImportMetadata importSourceID sourceStageID checksum));;
      mret checksum
  end.

(** What an import adds to the digest. *)
Definition importArgs (elm : Import) (sourceChecksum : string) : list string :=
  [sourceChecksum; To (Export elm); Group (Export elm); Owner (Export elm)].

Fixpoint importsArgs (ind : nat) (l : list Import) : prog W (list string) :=
  match l with
  | [] => mret []
  | elm :: l' =>
      sourceChecksum ← wrap "unable to get import %d source checksum: %w" [FD (Z.of_nat ind)] (getImportSourceChecksum elm);
      (if bool_decide (sourceChecksum = nothingChecksum)
       then GlobalWarningLn ("This import config does nothing: " +:+ formatImportTitle elm) else mret tt);;
      args ← importsArgs (S ind) l';
      mret (importArgs elm sourceChecksum ++ args)
  end.

Definition dependencyArgs (dep : Dependency) (w : W) : res (list string) :=
  imageName ← GetImageNameForLastImageStage (targetPlatform s) (dep_ImageName dep) w;
  Ok (["Dependency"; imageName] ++ (imp ← dep_Imports dep; ["DependencyImport"; getDependencyImportID imp])).

Definition dependenciesArgs (l : list Dependency) : prog W (list string) :=
  for_fold l [] (fun args dep => a ← asks (dependencyArgs dep); mret (args ++ a)).

Definition stage_GetDependencies : prog W string :=
  args ← importsArgs 0 (imports s);
  depArgs ← dependenciesArgs (dependencies s);
  mret (Sha256Hash (args ++ depArgs)).

(** ** The image *)

Definition checksumLabels (elm : Import) (m : StagesStorage.ImportMetadata) : gmap string string :=
  {[ Image.WerfImportChecksumLabelPrefix +:+ getImportID elm := StagesStorage.Checksum m;
     Image.WerfImportSourceStageIDLabelPrefix +:+ getImportID elm := StagesStorage.SourceStageID m ]}.

Definition requireImportMetadata (elm : Import) : prog W StagesStorage.ImportMetadata :=
  importSourceID ← asks (getImportSourceID elm);
  importMetadata ← wrap "unable to get import source checksum: %w" [] (StagesStorage.GetImportMetadata W st (projectName s) importSourceID);
  match importMetadata with
  | Some m => mret m
  | None => panic ("import metadata " +:+ importSourceID +:+ " not found")
  end.

(** The environment that an image depended on gives. *)
Definition dependencyCalls (dep : Dependency) (w : W) : res (list BuilderCall) :=
  depImageName ← GetImageNameForLastImageStage (targetPlatform s) (dep_ImageName dep) w;
  depImageID ← GetImageIDForLastImageStage (targetPlatform s) (dep_ImageName dep) w;
  depImageDigest ← GetImageDigestForLastImageStage (targetPlatform s) (dep_ImageName dep) w;
  let r := Image.ParseRepositoryAndTag Reverse depImageName in
  depStageID ← GetStageIDForLastImageStage (targetPlatform s) (dep_ImageName dep) w;
  let env imp value := [AddEnvs {[ TargetEnv imp := value ]}] in
  let envs := imp ← dep_Imports dep;
    if bool_decide (Type_ imp = ImageRepoImport) then env imp r.1
    else if bool_decide (Type_ imp = ImageTagImport) then env imp r.2
    else if bool_decide (Type_ imp = ImageNameImport) then env imp depImageName
    else if bool_decide (Type_ imp = ImageIDImport) then env imp depImageID
    else if bool_decide (Type_ imp = ImageDigestImport) then env imp depImageDigest
    else [] in
  Ok (envs ++ [AddLabels {[ dependencyLabelKey depStageID := depStageID ]}]).

Definition allDependencyCalls (calls : list BuilderCall) : prog W (list BuilderCall) :=
  for_fold (dependencies s) calls (fun calls dep => c ← asks (dependencyCalls dep); mret (calls ++ c)).

Definition legacyImportCalls (elm : Import) : prog W (list BuilderCall) :=
  let sourceImageName := getSourceImageName elm in
  srv ← wrap "unable to get import server for image %q: %w" [FQ sourceImageName]
          (GetImportServer (targetPlatform s) sourceImageName (Stage elm) (ExternalImage elm));
  importMetadata ← requireImportMetadata elm;
  mret [AddServiceRunCommands (GetCopyCommand srv elm); AddLabels (checksumLabels elm importMetadata)].

Definition prepareImageWithLegacyStapelBuilder : prog W (list BuilderCall) :=
  calls ← for_fold (imports s) [] (fun calls elm => c ← legacyImportCalls elm; mret (calls ++ c));
  allDependencyCalls calls.

Definition importCalls (elm : Import) : prog W (list BuilderCall) :=
  sourceImageName ← asks (getSourceImageDockerImageName elm);
  importMetadata ← requireImportMetadata elm;
  let e := Export elm in
  mret [AddLabels (checksumLabels elm importMetadata);
        AddDependencyImport sourceImageName (Add e) (To e) (IncludePaths e) (ExcludePaths e) (Owner e) (Group e)].

Definition prepareImage : prog W (list BuilderCall) :=
  calls ← for_fold (imports s) [] (fun calls elm => c ← importCalls elm; mret (calls ++ c));
  allDependencyCalls calls.

(** The calls that were made, where there is no error. *)
Definition PrepareImage : prog W (list BuilderCall) :=
  if negb HasStapelBuildSupport then prepareImageWithLegacyStapelBuilder else prepareImage.

End stage.

(** ** Arguments of a Dockerfile *)

Definition GetDependenciesArgsKeys (dependencies : list Dependency) : list string :=
  dep ← dependencies; TargetBuildArg <$> dep_Imports dep.

Section args.
Context {W : Type} `{!BuiltImages W, !UtilReverse}.

Definition resolveImport (name id digest : string) (resolved : gmap string string) (imp : DependencyImport) : gmap string string :=
  let set v := <[TargetBuildArg imp := v]> resolved in
  let r := Image.ParseRepositoryAndTag Reverse name in
  if bool_decide (Type_ imp = ImageRepoImport) then set r.1
  else if bool_decide (Type_ imp = ImageTagImport) then set r.2
  else if bool_decide (Type_ imp = ImageNameImport) then set name
  else if bool_decide (Type_ imp = ImageIDImport) then set id
  else if bool_decide (Type_ imp = ImageDigestImport) then set digest
  else resolved.

Definition ResolveDependenciesArgs (targetPlatform : string) (dependencies : list Dependency) : prog W (gmap string string) :=
  for_fold dependencies ∅ (fun resolved dep =>
    depImageName ← asks (GetImageNameForLastImageStage targetPlatform (dep_ImageName dep));
    depImageID ← asks (GetImageIDForLastImageStage targetPlatform (dep_ImageName dep));
    depImageDigest ← asks (GetImageDigestForLastImageStage targetPlatform (dep_ImageName dep));
    mret (foldl (resolveImport depImageName depImageID depImageDigest) resolved (dep_Imports dep))).
End args.

End Imports.

(** * The filters, as relations *)

Module ImportsProps.
Import PathMatcherFacts GitStatusProps Imports.

(** [Expand l e]: [e] is a way to read the elements [l] of a glob, each ** for some directories or, but for the
    first element, for none. *)
Inductive Expand : list string -> list string -> Prop :=
| expand_nil : Expand [] []
| expand_keep l e s : Expand l e -> Expand (l ++ [s]) (e ++ [s])
| expand_skip l e : Expand l e -> e <> [] -> Expand (l ++ ["**"]) e.

Lemma Expand_snoc l s e' : Expand (l ++ [s]) e' <-> exists e, Expand l e /\ (e' = e ++ [s] \/ (s = "**" /\ e' = e /\ e <> [])).
Proof.
  split.
  - inversion 1 as [E|l' e s' He E|l' e He Hne E]; [by destruct l|..]; apply app_inj_tail in E as [-> ->]; eauto 6.
  - intros (e & He & [->|(-> & -> & Hne)]); by constructor.
Qed.

Lemma Expand_elems l e : Forall elem_ok l -> Expand l e -> Forall elem_ok e.
Proof.
  intros Hl He. induction He as [|l e s He IH|l e He IH Hne]; [constructor| |]; apply Forall_app in Hl as [Hl Hs]; [|by apply IH].
  apply Forall_app. split; [by apply IH|done].
Qed.

Lemma join_path e s : Forall elem_ok e -> join (path_of e) s = path_of (e ++ [s]).
Proof.
  intros He. unfold join. case_bool_decide as H; [by apply path_of_empty in H as ->|].
  rewrite Join_last; [done|]. by intros ->.
Qed.

Lemma path_snoc_ne e s : Forall elem_ok (e ++ [s]) -> path_of (e ++ [s]) <> "".
Proof. intros H E. apply path_of_empty in E; [by destruct e|done]. Qed.

(** The prefixes after the elements [l]. *)
Definition reads (l : list string) (current : gset string) : Prop := forall x, x ∈ current <-> exists e, Expand l e /\ x = path_of e.

Lemma reads_start : reads [] {[""]}.
Proof.
  intros x. rewrite elem_of_singleton. split; [intros ->; exists []; split; [constructor|done]|].
  intros (e & He & ->). inversion He as [|l e' s _ E|l e' _ _ E]; [done|by destruct l..].
Qed.

(** What a step adds to the results. *)
Definition adds (isLast finalOnly : bool) (s : string) (e : list string) (x : string) : Prop :=
  (isLast = true /\ s <> "**" /\ x = path_of (e ++ [s])) \/ (isLast = false /\ finalOnly = false /\ x = path_of (e ++ [s]) +:+ "/").

Lemma joined_spec l s current x : Forall elem_ok l -> reads l current ->
  x ∈ set_map (D := gset string) (fun prefix => join prefix s) current <-> exists e, Expand l e /\ x = path_of (e ++ [s]).
Proof.
  intros Hl Hc. rewrite elem_of_map. split.
  - intros (p & -> & (e & He & ->)%Hc). exists e. split; [done|]. apply join_path. exact (Expand_elems _ _ Hl He).
  - intros (e & He & ->). exists (path_of e). split; [symmetry; apply join_path; exact (Expand_elems _ _ Hl He)|]. apply Hc. by exists e.
Qed.

Lemma nextSegment_spec l s isLast finalOnly current results : Forall elem_ok (l ++ [s]) -> reads l current ->
  let r := nextSegment isLast finalOnly s current results in
  reads (l ++ [s]) r.1 /\ forall x, x ∈ r.2 <-> x ∈ results \/ exists e, Expand l e /\ adds isLast finalOnly s e x.
Proof.
  intros Hls Hc. apply Forall_app in Hls as [Hl Hs]. pose proof (fun x => joined_spec l s current x Hl Hc) as Hj.
  assert (forall e, Expand l e -> path_of (e ++ [s]) <> "") as Hne.
  { intros e He. apply path_snoc_ne, Forall_app. split; [exact (Expand_elems _ _ Hl He)|done]. }
  unfold nextSegment, adds. set (joined := set_map (fun prefix => join prefix s) current) in *.
  assert (forall x, x ∈ nonempty joined <-> exists e, Expand l e /\ x = path_of (e ++ [s])) as Hjn.
  { intros x. unfold nonempty. rewrite elem_of_filter, Hj. naive_solver. }
  assert (forall x, x ∈ set_map (D := gset string) (fun v => v +:+ "/") joined <-> exists e, Expand l e /\ x = path_of (e ++ [s]) +:+ "/") as Hd.
  { intros x. rewrite elem_of_map. setoid_rewrite Hj. naive_solver. }
  case_bool_decide as Es; simpl; split.
  - intros x. rewrite elem_of_union, Hjn. setoid_rewrite Expand_snoc. unfold nonempty. rewrite elem_of_filter, (Hc x). split.
    + intros [(e & He & ->)|(Hx & e & He & ->)]; [by exists (e ++ [s]); split; [exists e; auto|]|].
      exists e. split; [|done]. exists e. split; [done|]. right. split; [done|]. split; [done|]. by intros ->.
    + intros (e' & (e & He & [->|(_ & -> & Hn)]) & ->); [left; by exists e|]. right. split; [|by exists e].
      intros Hx. apply Hn. apply path_of_empty; [exact (Expand_elems _ _ Hl He)|done].
  - intros x. destruct isLast, finalOnly; simpl; rewrite ?elem_of_union, ?Hd; naive_solver.
  - intros x. rewrite Hjn. setoid_rewrite Expand_snoc. naive_solver.
  - intros x. destruct isLast, finalOnly; simpl; rewrite ?elem_of_union, ?Hd, ?Hjn; naive_solver.
Qed.

(** The last element of a way to read a beginning of the glob. *)
Definition filtered (finalOnly : bool) (l segs : list string) (x : string) : Prop :=
  exists mid s post, segs = mid ++ s :: post /\ exists e, Expand (l ++ mid) e /\ adds (bool_decide (post = [])) finalOnly s e x.

Lemma filtered_step finalOnly l s segs x :
  filtered finalOnly l (s :: segs) x <-> (exists e, Expand l e /\ adds (bool_decide (segs = [])) finalOnly s e x) \/ filtered finalOnly (l ++ [s]) segs x.
Proof.
  split.
  - intros ([|m mid] & t & post & E & e & He & Ha); injection E as -> ->; [rewrite app_nil_r in He; left; by exists e|].
    right. exists mid, t, post. split; [done|]. exists e. by rewrite <-app_assoc.
  - intros [(e & He & Ha)|(mid & t & post & -> & e & He & Ha)]; [exists [], s, segs|exists (s :: mid), t, post]; (split; [done|]); exists e.
    + by rewrite app_nil_r.
    + by rewrite <-app_assoc in He.
Qed.

Lemma segmentsLoop_spec finalOnly segs : forall l current results, Forall elem_ok (l ++ segs) -> reads l current ->
  forall x, x ∈ segmentsLoop finalOnly segs current results <-> x ∈ results \/ filtered finalOnly l segs x.
Proof.
  induction segs as [|s segs IH]; intros l current results Hl Hc x; cbn [segmentsLoop].
  { split; [by left|]. intros [H|([|] & t & post & E & _)]; done. }
  rewrite cons_middle, app_assoc in Hl. pose proof Hl as [Hls _]%Forall_app.
  destruct (nextSegment_spec l s (bool_decide (segs = [])) finalOnly current results Hls Hc) as [Hr Ha].
  rewrite (IH (l ++ [s])) by done. rewrite Ha, filtered_step. tauto.
Qed.

Lemma trim_app a b : Filepath.trimSlashes b = b -> b <> "" -> Filepath.trimSlashes (a +:+ b) = a +:+ b.
Proof.
  intros Hb Hne. induction a as [|c a IH]; [done|]. change (String c a +:+ b) with (String c (a +:+ b)). cbn [Filepath.trimSlashes]. rewrite IH.
  destruct (a +:+ b) eqn:E; [|reflexivity]. destruct a; [by destruct Hne|discriminate E].
Qed.

Lemma trim_elem e : elem_ok e -> Filepath.trimSlashes e = e.
Proof.
  intros (Hne & _ & Hm). clear Hne. induction e as [|c e IH]; [done|]. simpl in Hm. rewrite orb_false_iff in Hm. destruct Hm as [Hc Hm].
  cbn [Filepath.trimSlashes]. rewrite IH by done. destruct e; [|done]. rewrite bool_decide_eq_false_2; [done|]. intros ->. discriminate Hc.
Qed.

Lemma trim_path l : Forall elem_ok l -> Filepath.trimSlashes (path_of l) = path_of l.
Proof.
  induction l as [|x l _] using rev_ind; intros Hl; [done|]. apply Forall_app in Hl as [Hl Hx]. rewrite Forall_singleton in Hx.
  assert (x <> "") as Hne by apply Hx. destruct l as [|y l]; [by apply trim_elem|].
  rewrite Join_last by done. change (String "/" x) with ("/" +:+ x). rewrite Str.app_assoc. apply trim_app; [by apply trim_elem|done].
Qed.

Lemma trimLeft_path l : Forall elem_ok l -> trimLeftSlashes (path_of l) = path_of l.
Proof.
  intros Hl. destruct l as [|x l]; [done|]. inversion_clear Hl as [|? ? (Hne & _ & Hm) _]. destruct x as [|c x]; [done|].
  simpl in Hm. rewrite orb_false_iff in Hm. destruct Hm as [Hc _].
  assert (exists t, path_of (String c x :: l) = String c t) as [t ->] by (destruct l; simpl; eauto).
  simpl. rewrite bool_decide_eq_false_2; [done|]. intros ->. discriminate Hc.
Qed.

Lemma trimSlashes_path l glob : Forall elem_ok l -> glob = path_of l \/ glob = "/" +:+ path_of l -> trimSlashes glob = path_of l.
Proof. intros Hl [-> | ->]; unfold trimSlashes; simpl; by rewrite trimLeft_path, trim_path. Qed.

Lemma filter_elem glob segs finalSegmentOnly x : Forall elem_ok segs -> segs <> [] -> glob = path_of segs \/ glob = "/" +:+ path_of segs ->
  x ∈ globToRsyncFilterPaths glob finalSegmentOnly <-> filtered finalSegmentOnly [] segs x.
Proof.
  intros Hs Hne Hg. unfold globToRsyncFilterPaths. rewrite (trimSlashes_path segs) by done.
  rewrite bool_decide_eq_false_2 by (intros E; by apply path_of_empty in E). rewrite Split_path by done.
  rewrite Sort.Strings_perm, elem_of_elements, (segmentsLoop_spec _ segs []) by (done || apply reads_start).
  rewrite elem_of_empty. tauto.
Qed.

(** C18: The filters of rsync for a glob whose elements are [segs]: the ways to read it, with every ** for some
    directories or for none, where the last element is not **; and, unless only the last elements are asked for, the
    directories on the way, with a slash. A ** at the end of the glob gives nothing, and one at its beginning is
    never read as no directories. *)
Theorem globToRsyncFilterPaths_spec glob segs finalSegmentOnly x : Forall elem_ok segs -> segs <> [] ->
  glob = path_of segs \/ glob = "/" +:+ path_of segs ->
  x ∈ globToRsyncFilterPaths glob finalSegmentOnly <->
    (exists l s e, segs = l ++ [s] /\ s <> "**" /\ Expand l e /\ x = path_of (e ++ [s])) \/
    (finalSegmentOnly = false /\ exists l s post e, segs = l ++ s :: post /\ post <> [] /\ Expand l e /\ x = path_of (e ++ [s]) +:+ "/").
Proof.
  intros Hs Hne Hg. rewrite (filter_elem glob segs) by done. unfold filtered, adds. cbn [app]. split.
  - intros (l & s & post & -> & e & He & [(Hp%bool_decide_eq_true & Hs' & ->)|(Hp%bool_decide_eq_false & -> & ->)]);
      [subst post; left; by exists l, s, e|right; split; [done|]; by exists l, s, post, e].
  - intros [(l & s & e & -> & Hs' & He & ->)|(-> & l & s & post & e & -> & Hp & He & ->)]; [exists l, s, []|exists l, s, post];
      (split; [done|]); exists e; (split; [done|]); [left|right]; by repeat split; try apply bool_decide_eq_false_2.
Qed.

(** What is excluded by a glob that ends with ** is nothing. *)
Lemma trailing_stars_exclude_nothing add p segs : Forall elem_ok (segs ++ ["**"]) ->
  Filepath.Join [add; p] = "/" +:+ path_of (segs ++ ["**"]) -> PrepareRsyncExcludeFiltersForGlobs add [p] = "".
Proof.
  intros Hs E. unfold PrepareRsyncExcludeFiltersForGlobs.
  assert (globToRsyncFilterPaths (Filepath.Join [add; p]) true = []) as H.
  { apply elem_of_nil_inv. intros x. rewrite (filter_elem _ (segs ++ ["**"])); [|done|by destruct segs|by right].
    intros (l & s & post & Es & e & _ & [(Hp%bool_decide_eq_true & Hs' & _)|(_ & ? & _)]); [|done]. subst post. by apply app_inj_tail in Es as [_ <-]. }
  cbn [mbind list_bind]. rewrite H. reflexivity.
Qed.

(** * The checksums of the digest and of the labels *)

Section metadata.
Context {gq : GoQuote} {hs : Hashes} {ur : UtilReverse} {W : Type} {bi : BuiltImages W} {ib : ImportBackend W}.
Context (st : StagesStorage.Storage W) (s : DependenciesStage).
Context (I : W -> Prop) (M : W -> gmap string StagesStorage.ImportMetadata).
Context (contentDigest : string -> string -> string) (stageDigest : string -> string -> string -> string).

(** Nothing changes of the records of imports. *)
Definition R (w w' : W) : Prop := I w -> I w' /\ M w' = M w.

#[local] Instance R_PreOrder : PreOrder R.
Proof using Type.
  split; [by intros w H|]. intros a b c H1 H2 Ha. destruct (H1 Ha) as [Hb E1]. destruct (H2 Hb) as [Hc E2]. split; [done|]. by rewrite E2.
Qed.

Local Hint Resolve R_PreOrder : werf.

(** The storage keeps the records, [M]; the images of the build that are asked for are there, and their content
    digests stay. *)
Record Calm : Prop := {
  calm_get : forall id w, I w ->
    exists w', StagesStorage.GetImportMetadata W st (projectName s) id w = (Ok (M w !! id), w') /\ I w' /\ M w' = M w;
  calm_put : forall m w w', I w -> StagesStorage.PutImportMetadata W st (projectName s) m w = (Ok tt, w') ->
    I w' /\ M w' = <[StagesStorage.ImportSourceID m := m]> (M w);
  calm_digest : forall p n w, I w -> GetImageContentDigest p n w = Ok (contentDigest p n);
  calm_stage_digest : forall p n t w, I w -> GetImageStageContentDigest p n t w = Ok (stageDigest p n t);
  calm_last : forall p n w, I w -> exists a b c d, GetImageNameForLastImageStage p n w = Ok a /\ GetStageIDForLastImageStage p n w = Ok b /\
    GetImageIDForLastImageStage p n w = Ok c /\ GetImageDigestForLastImageStage p n w = Ok d;
  calm_stage : forall p n t w, I w -> exists a b, GetImageNameForImageStage p n t w = Ok a /\ GetStageIDForImageStage p n t w = Ok b;
  calm_server : forall p n t b w, I w -> exists srv w', GetImportServer p n t b w = (Ok srv, w') /\ I w' /\ M w' = M w;
  calm_fetch : forall p n, keeps R (FetchLastNonEmptyImageStage p n);
  calm_fetch_stage : forall p n t, keeps R (FetchImageStage p n t);
  calm_calculate : forall x p, keeps R (CalculateDependencyImportChecksum x p);
  calm_container : keeps R GetOrCreateContainer;
  calm_script : forall p l, keeps R (CreateScript p l);
  calm_run : forall l, keeps R (CliRun_RecordedOutput l);
  calm_read : forall p, keeps R (ReadFile p);
  calm_warn : forall m, keeps R (GlobalWarningLn m);
}.

Context (calm : Calm).

(** The id of the record of an import. *)
Definition idOf (elm : Import) : string :=
  sourceIDOf (if ExternalImage elm then externalSource elm
              else if bool_decide (Stage elm = "") then contentDigest (targetPlatform s) (getSourceImageName elm)
              else stageDigest (targetPlatform s) (getSourceImageName elm) (Stage elm)) (Export elm).

Lemma source_id elm w : I w -> getImportSourceID s elm w = Ok (idOf elm).
Proof using calm.
  intros Hw. unfold getImportSourceID, getSourceImageContentDigest, idOf. destruct (ExternalImage elm); [done|].
  case_bool_decide; [by rewrite (calm_digest calm)|by rewrite (calm_stage_digest calm)].
Qed.

Lemma keeps_asks {A} (f : W -> res A) : keeps R (asks f).
Proof using Type. intros w Hw. done. Qed.

Local Hint Resolve keeps_asks calm_fetch calm_fetch_stage calm_calculate calm_container calm_script calm_run calm_read calm_warn : werf.

Lemma keeps_generate elm : keeps R (generateImportChecksum s elm).
Proof using calm. unfold generateImportChecksum, fetchSourceImageDockerImage, checksumByScript. keeps_go. Qed.

Lemma checksum_recorded elm w c w' : I w -> getImportSourceChecksum st s elm w = (Ok c, w') ->
  I w' /\ M w ⊆ M w' /\ exists m, M w' !! idOf elm = Some m /\ StagesStorage.Checksum m = c.
Proof using calm.
  intros Hw H. unfold getImportSourceChecksum in H. apply bind_Ok in H as (i & w1 & E & H). unfold asks in E. rewrite source_id in E by done.
  injection E as <- <-. apply bind_Ok in H as (o & w1 & E & H). apply wrap_Ok in E.
  destruct (calm_get calm (idOf elm) w Hw) as (v & Ev & Hv & EM). rewrite Ev in E. injection E as <- <-.
  destruct (M w !! idOf elm) as [m|] eqn:Em.
  - unfold mret, prog_ret in H. injection H as <- <-. rewrite EM. split; [done|]. split; [done|]. by exists m.
  - apply bind_Ok in H as (c' & w2 & E & H). apply wrap_Ok in E. destruct (keeps_generate elm v Hv) as [Hw2 EM2]. rewrite E in Hw2, EM2. simpl in Hw2, EM2.
    apply bind_Ok in H as (sid & w3 & E3 & H). assert (w3 = w2) as -> by (unfold asks in E3; congruence).
    apply bind_Ok in H as ([] & w4 & E4 & H). apply wrap_Ok in E4. unfold mret, prog_ret in H. injection H as <- <-.
    apply (calm_put calm) in E4 as [Hw4 EM4]; [|done]. simpl in EM4. split; [done|]. rewrite EM4, EM2, EM. split; [by apply insert_subseteq|].
    eexists. by rewrite lookup_insert_eq.
Qed.

(** The imports with their records. *)
Definition recorded (w : W) : list Import -> list StagesStorage.ImportMetadata -> Prop := Forall2 (fun elm m => M w !! idOf elm = Some m).

Lemma recorded_mono w w' l ms : M w ⊆ M w' -> recorded w l ms -> recorded w' l ms.
Proof using Type. intros H Hl. eapply Forall2_impl; [exact Hl|]. intros elm m Hm. exact (lookup_weaken _ _ _ _ Hm H). Qed.

Definition digestArgs (l : list Import) (ms : list StagesStorage.ImportMetadata) : list string :=
  concat (zip_with (fun elm m => importArgs elm (StagesStorage.Checksum m)) l ms).

Lemma importsArgs_recorded l : forall ind w args w', I w -> importsArgs st s ind l w = (Ok args, w') ->
  I w' /\ M w ⊆ M w' /\ exists ms, recorded w' l ms /\ args = digestArgs l ms.
Proof using calm.
  induction l as [|elm l IH]; intros ind w args w' Hw H; cbn [importsArgs] in H.
  { unfold mret, prog_ret in H. injection H as <- <-. split; [done|]. split; [done|]. exists []. split; [constructor|done]. }
  apply bind_Ok in H as (c & w1 & E1 & H). apply wrap_Ok in E1. destruct (checksum_recorded elm w c w1 Hw E1) as (Hw1 & H1 & m & Hm & Ec).
  apply bind_Ok in H as (u & w2 & E2 & H).
  assert (I w2 /\ M w2 = M w1) as [Hw2 EM2].
  { destruct (bool_decide _); [|unfold mret, prog_ret in E2; by injection E2 as _ <-].
    destruct (calm_warn calm ("This import config does nothing: " +:+ formatImportTitle elm) w1 Hw1) as [Hv Ev]. by rewrite E2 in Hv, Ev. }
  apply bind_Ok in H as (args' & w3 & E3 & H). unfold mret, prog_ret in H. injection H as <- <-.
  destruct (IH _ _ _ _ Hw2 E3) as (Hw3 & H3 & ms & Hms & ->). rewrite EM2 in H3. split; [done|]. split; [by etrans|].
  exists (m :: ms). split; [constructor; [exact (lookup_weaken _ _ _ _ Hm H3)|done]|]. unfold digestArgs. simpl. by rewrite Ec.
Qed.

Lemma require_recorded elm m w : I w -> M w !! idOf elm = Some m ->
  exists w', requireImportMetadata st s elm w = (Ok m, w') /\ I w' /\ M w' = M w.
Proof using calm.
  intros Hw Hm. destruct (calm_get calm (idOf elm) w Hw) as (w' & E & Hw' & EM). exists w'. split; [|done].
  unfold requireImportMetadata, mbind, prog_bind, asks. rewrite source_id by done. unfold wrap. by rewrite E, Hm.
Qed.

Lemma run_bind {A B} (x : prog W A) (f : A -> prog W B) a w w' : x w = (Ok a, w') -> (x ≫= f) w = f a w'.
Proof using Type. intros E. unfold mbind, prog_bind. by rewrite E. Qed.
(** ** The calls of the builder *)

Definition labelled (calls : list BuilderCall) (elm : Import) (m : StagesStorage.ImportMetadata) : Prop := AddLabels (checksumLabels elm m) ∈ calls.

(** What is called for one import. *)
Definition good_calls (f : Import -> prog W (list BuilderCall)) : Prop := forall elm m w, I w -> M w !! idOf elm = Some m ->
  exists c w', f elm w = (Ok c, w') /\ I w' /\ M w' = M w /\ labelled c elm m.

Lemma legacy_good : good_calls (legacyImportCalls st s).
Proof using calm.
  intros elm m w Hw Hm. unfold legacyImportCalls.
  destruct (calm_server calm (targetPlatform s) (getSourceImageName elm) (Stage elm) (ExternalImage elm) w Hw) as (srv & w1 & E1 & Hw1 & EM1).
  rewrite (run_bind _ _ srv w w1) by (unfold wrap; by rewrite E1).
  destruct (require_recorded elm m w1 Hw1) as (w2 & E2 & Hw2 & EM2); [by rewrite EM1|]. rewrite (run_bind _ _ _ _ _ E2).
  eexists _, w2. split; [reflexivity|]. split; [done|]. split; [by rewrite EM2|]. unfold labelled. right. left.
Qed.

Lemma import_good : good_calls (importCalls st s).
Proof using calm.
  intros elm m w Hw Hm. unfold importCalls.
  assert (exists n, getSourceImageDockerImageName s elm w = Ok n) as [n En].
  { unfold getSourceImageDockerImageName. destruct (ExternalImage elm); [by eexists|]. case_bool_decide.
    - destruct (calm_last calm (targetPlatform s) (getSourceImageName elm) w Hw) as (a & ? & ? & ? & E & _). by exists a.
    - destruct (calm_stage calm (targetPlatform s) (getSourceImageName elm) (Stage elm) w Hw) as (a & ? & E & _). by exists a. }
  rewrite (run_bind _ _ n w w) by (unfold asks; by rewrite En).
  destruct (require_recorded elm m w Hw Hm) as (w2 & E2 & Hw2 & EM2). rewrite (run_bind _ _ _ _ _ E2).
  eexists _, w2. split; [reflexivity|]. split; [done|]. split; [done|]. unfold labelled. left.
Qed.

Lemma fold_good f l : good_calls f -> forall ms calls w, I w -> recorded w l ms ->
  exists calls' w', for_fold l calls (fun calls elm => c ← f elm; mret (calls ++ c)) w = (Ok (calls ++ calls'), w') /\ I w' /\
    Forall2 (labelled calls') l ms.
Proof using Type.
  intros Hf. induction l as [|elm l IH]; intros ms calls w Hw Hms; inversion Hms as [|? m ? ms' Hm Hms' E1 E2]; subst; cbn [for_fold].
  { exists [], w. rewrite app_nil_r. split; [done|]. by split; [|constructor]. }
  destruct (Hf elm m w Hw Hm) as (c & w1 & E & Hw1 & EM & Hc). rewrite (run_bind _ _ (calls ++ c) w w1) by (rewrite (run_bind _ _ _ _ _ E); reflexivity).
  destruct (IH ms' (calls ++ c) w1 Hw1) as (calls' & w' & E' & Hw' & Hl); [eapply recorded_mono; [|done]; by rewrite EM|].
  exists (c ++ calls'), w'. rewrite app_assoc. split; [done|]. split; [done|]. constructor; [by apply elem_of_app; left|].
  eapply Forall2_impl; [exact Hl|]. intros elm' m' H'. by apply elem_of_app; right.
Qed.

Lemma dependencies_called l : forall calls w, I w -> exists calls',
  for_fold l calls (fun calls dep => c ← asks (dependencyCalls s dep); mret (calls ++ c)) w = (Ok (calls ++ calls'), w).
Proof using calm.
  induction l as [|dep l IH]; intros calls w Hw; cbn [for_fold]; [exists []; by rewrite app_nil_r|].
  assert (exists c, dependencyCalls s dep w = Ok c) as [c Ec].
  { unfold dependencyCalls. destruct (calm_last calm (targetPlatform s) (dep_ImageName dep) w Hw) as (a & b & i & g & -> & -> & -> & ->).
    eexists. reflexivity. }
  rewrite (run_bind _ _ (calls ++ c) w w) by (unfold mbind, prog_bind, asks; by rewrite Ec).
  destruct (IH (calls ++ c) w Hw) as (calls' & E). exists (c ++ calls'). by rewrite app_assoc.
Qed.

(** C17: The digest of a stage with imports is made of the checksums that the storage has on record after it was
    made, one for each import; and as long as these records stay, the image of the stage is prepared without an
    error, and gets the very checksums and sources as labels, with Docker and with the other builder. *)
Theorem labels_have_digested_checksums w d w1 : I w -> stage_GetDependencies st s w = (Ok d, w1) ->
  I w1 /\ M w ⊆ M w1 /\
  exists ms depArgs, recorded w1 (imports s) ms /\ d = Sha256Hash (digestArgs (imports s) ms ++ depArgs) /\
    forall w2, I w2 -> M w1 ⊆ M w2 ->
      exists calls w3, PrepareImage st s w2 = (Ok calls, w3) /\ Forall2 (labelled calls) (imports s) ms.
Proof using calm.
  intros Hw H. unfold stage_GetDependencies in H. apply bind_Ok in H as (args & v & E & H).
  destruct (importsArgs_recorded _ _ _ _ _ Hw E) as (Hv & HM & ms & Hms & ->).
  apply bind_Ok in H as (depArgs & v' & E' & H). unfold mret, prog_ret in H. injection H as <- <-.
  assert (v' = v) as ->.
  { clear -E'. unfold dependenciesArgs in E'. revert E'. generalize (@nil string). induction (dependencies s) as [|dep l IH]; intros acc H; cbn [for_fold] in H.
    - unfold mret, prog_ret in H. by injection H as _ <-.
    - apply bind_Ok in H as (a & v1 & Ha & H). apply bind_Ok in Ha as (b & v2 & Hb & Ha). unfold asks in Hb. unfold mret, prog_ret in Ha.
      injection Hb as _ <-. injection Ha as _ <-. by apply IH in H. }
  split; [done|]. split; [done|]. exists ms, depArgs. split; [done|]. split; [done|]. intros w2 Hw2 H2.
  assert (recorded w2 (imports s) ms) as Hms2 by by eapply recorded_mono.
  assert (exists calls w3, PrepareImage st s w2 = (Ok calls, w3) /\ Forall2 (labelled calls) (imports s) ms) as H; [|exact H].
  unfold PrepareImage, prepareImageWithLegacyStapelBuilder, prepareImage, allDependencyCalls.
  destruct (negb HasStapelBuildSupport).
  - destruct (fold_good _ (imports s) legacy_good ms [] w2 Hw2 Hms2) as (calls & w3 & E3 & Hw3 & Hl). rewrite (run_bind _ _ _ _ _ E3).
    destruct (dependencies_called (dependencies s) ([] ++ calls) w3 Hw3) as (calls' & ->). eexists _, w3. split; [done|].
    eapply Forall2_impl; [exact Hl|]. intros elm m H. by apply elem_of_app; left.
  - destruct (fold_good _ (imports s) import_good ms [] w2 Hw2 Hms2) as (calls & w3 & E3 & Hw3 & Hl). rewrite (run_bind _ _ _ _ _ E3).
    destruct (dependencies_called (dependencies s) ([] ++ calls) w3 Hw3) as (calls' & ->). eexists _, w3. split; [done|].
    eapply Forall2_impl; [exact Hl|]. intros elm m H. by apply elem_of_app; left.
Qed.
End metadata.

End ImportsProps.

Module ImportsExamples.
Import PathMatcherFacts Imports ImportsProps.

Example filter_paths : globToRsyncFilterPaths "/a/b/**/c" false = ["a/"; "a/b/"; "a/b/**/"; "a/b/**/c"; "a/b/c"] /\
  globToRsyncFilterPaths "a/b/**/c" true = ["a/b/**/c"; "a/b/c"] /\ globToRsyncFilterPaths "**/c" true = ["**/c"] /\
  globToRsyncFilterPaths "a/**" true = [].
Proof. vm_compute. repeat split. Qed.

(** All but the files of tests are wanted. *)
Example excluded_tests : PrepareRsyncFilters "/app" [] ["tests/**"] = "" /\
  PrepareRsyncFilters "/app" [] ["tests"] = " --filter='-/ app/tests'" /\
  PrepareRsyncFilters "/app" ["bin"] [] =
    " --filter='+/ /app/bin' --filter='+/ /app/bin/**' --filter='+/ app/' --filter='+/ app/bin' --filter='-/ /app/**'".
Proof. vm_compute. repeat split. Qed.

(** ** A stage with two imports, over a storage in memory *)

Abbreviation World := (gmap string StagesStorage.ImportMetadata).

#[local] Instance quote : GoQuote := fun s => s.
#[local] Instance hashes : Hashes := {| sha256_hex s := s; Sha256Hash l := Str.Join l ","; Sha3_224Hash l := Str.Join l "," |}.
#[local] Instance reverse : UtilReverse := fun s => s.

#[local] Instance built : BuiltImages World := {|
  GetImageContentDigest _ n _ := Ok ("digest-of-" +:+ n);
  GetImageStageContentDigest _ n t _ := Ok ("digest-of-" +:+ n +:+ "-" +:+ t);
  GetImageNameForLastImageStage _ n _ := Ok ("repo:" +:+ n);
  GetImageNameForImageStage _ n t _ := Ok ("repo:" +:+ n +:+ "-" +:+ t);
  GetStageIDForLastImageStage _ n _ := Ok ("stage-of-" +:+ n);
  GetStageIDForImageStage _ n t _ := Ok ("stage-of-" +:+ n +:+ "-" +:+ t);
  GetImageIDForLastImageStage _ n _ := Ok ("id-of-" +:+ n);
  GetImageDigestForLastImageStage _ n _ := Ok ("sha-of-" +:+ n);
  FetchLastNonEmptyImageStage _ _ := mret tt; FetchImageStage _ _ _ := mret tt;
  GetImportServer _ _ _ _ := mret (mkRsyncServer "10.0.0.1" "873" "werf" "secret") |}.

#[local] Instance backend : ImportBackend World := {|
  HasStapelBuildSupport := true; ExperimentalPermissions := false;
  CalculateDependencyImportChecksum x _ := mret ("sum-of-" +:+ FromPath x);
  GetOrCreateContainer := mret "stapel"; CreateScript _ _ := mret tt; CliRun_RecordedOutput _ := mret tt;
  ReadFile _ := mret ""; GlobalWarningLn _ := mret tt; TrimSpace s := s |}.

Definition storage : StagesStorage.Storage World :=
  StagesStorage.mkStorage World "" (fun _ _ _ => "") (fun _ _ => mret []) (fun _ _ _ _ => mret []) (fun _ _ => mret None) (fun _ _ => mret tt)
    (fun _ _ => mret tt) (fun _ _ => mret tt) (fun _ => mret tt) (fun _ => fail (Errorf "none" [])) (fun _ => mret []) (fun _ _ _ => mret tt)
    (fun _ => mret tt) (fun _ _ _ => mret tt) (fun _ _ _ => mret None) (fun _ _ => mret tt) (fun _ _ => mret tt) (fun _ _ _ => mret false)
    (fun _ _ => mret []) (fun _ _ _ _ => mret tt) (fun _ _ _ _ => mret tt) (fun _ _ _ _ _ => mret false) (fun _ _ _ => mret (∅, ∅))
    (fun _ id w => (Ok (w !! id), w)) (fun _ m w => (Ok tt, <[StagesStorage.ImportSourceID m := m]> w)) (fun _ id w => (Ok tt, delete id w))
    (fun _ _ => mret []) (fun _ _ => mret []) (fun _ _ => mret tt) (fun _ _ => mret []) (fun _ _ => mret tt) (fun _ _ => mret None) (fun _ => mret tt).

Definition bin : Import := mkImport (mkExportBase "/app" "/usr/bin" ["bin"] [] "" "") "backend" "" "" "install" "" false.
Definition assets : Import := mkImport (mkExportBase "/assets" "/www" [] ["tests/**"] "www" "www") "frontend" "" "" "install" "setup" false.

Definition stage : DependenciesStage :=
  mkDependenciesStage [bin; assets] [mkDependency "db" "" "install" [mkDependencyImport ImageRepoImport "" "DB_REPO"]]
    "dependenciesAfterInstall" "shop" "linux/amd64" "/tmp/x" "/.werf".

Lemma calm : Calm storage stage (fun _ => True) id (fun _ n => "digest-of-" +:+ n) (fun _ n t => "digest-of-" +:+ n +:+ "-" +:+ t).
Proof.
  split; try done.
  - intros i w _. exists w. done.
  - intros m w w' _ H. injection H as <-. done.
  - intros p n w _. eexists _, _, _, _. done.
  - intros p n t w _. eexists _, _. done.
  - intros p n t b w _. eexists _, w. done.
Qed.

Lemma labels_have_digested_checksums_witness : exists d w1, stage_GetDependencies storage stage ∅ = (Ok d, w1) /\
  exists ms calls w3, PrepareImage storage stage w1 = (Ok calls, w3) /\ Forall2 (labelled calls) [bin; assets] ms.
Proof.
  assert (match (stage_GetDependencies storage stage ∅).1 with Ok _ => true | _ => false end = true) as H by (vm_cast_no_check (@eq_refl bool true)).
  destruct (stage_GetDependencies storage stage ∅) as [[d| |] w1] eqn:E; [clear H|discriminate H..].
  destruct (labels_have_digested_checksums storage stage (fun _ => True) id _ _ calm ∅ d w1 Logic.I E) as (_ & _ & ms & depArgs & _ & _ & H).
  destruct (H w1 Logic.I) as (calls & w3 & H1 & H2); [reflexivity|].
  exists d, w1. split; [reflexivity|]. exists ms, calls, w3. split; [exact H1|exact H2].
Defined.

Lemma globToRsyncFilterPaths_spec_witness : Forall elem_ok ["a"; "**"; "c"] /\
  ("a/c" ∈ globToRsyncFilterPaths "/a/**/c" true <->
    (exists l s e, ["a"; "**"; "c"] = l ++ [s] /\ s <> "**" /\ Expand l e /\ "a/c" = Str.Join (e ++ [s]) "/") \/
    (true = false /\ exists l s post e, ["a"; "**"; "c"] = l ++ s :: post /\ post <> [] /\ Expand l e /\ "a/c" = Str.Join (e ++ [s]) "/" +:+ "/")).
Proof.
  assert (Forall elem_ok ["a"; "**"; "c"]) as H by (repeat constructor; done).
  split; [exact H|]. apply (globToRsyncFilterPaths_spec "/a/**/c" ["a"; "**"; "c"] true "a/c" H); [discriminate|right; reflexivity].
Defined.

(** The record of an import that was removed before the image is prepared. *)
Example removed_record_panics : exists msg w, PrepareImage storage stage ∅ = (Panic msg, w).
Proof. eexists _, _. vm_compute. reflexivity. Qed.

End ImportsExamples.
