(* ===== verification/DiffParser.v ===== *)
(** pkg/true_git/diff_parser.go: the filter that werf puts after "git diff". It drops the files
    that the path matcher does not match, rewrites the paths of the others relative to the
    scope, and collects the paths, the binary ones, and the removed ones. The writer of the
    result, the path matcher and the function of common-go that makes a path relative are
    parameters. What the debug mode prints is not modelled. *)
From S2P Require Import Prelude Go GoStd.

(** [strconv.Unquote]. *)
Class GoUnquote := Unquote : string -> string + error.

Module DiffParser.

Definition ErrCommitsNotPresent : error := Errorf "commits not present" [].

Definition IsCommitsNotPresentError `{!GoQuote} (err : option error) : bool :=
  match err with
  | None => false
  | Some e => Str.HasSuffix (err_text e) (err_text ErrCommitsNotPresent)
  end.

Inductive parserState :=
| unrecognized
| diffBegin
| diffBody
| newFileDiff
| deleteFileDiff
| modifyFileDiff
| ignoreDiff.

#[export] Instance parserState_eq_dec : EqDecision parserState.
Proof. solve_decision. Defined.

(** What changes while it parses; [O] is the state of the writer. *)
Record diffParser (O : Type) := mkDiffParser {
  Out : O;
  OutLines : Z;
  UnrecognizedCapture : string;
  Paths : list string;
  BinaryPaths : list string;
  PathsToRemove : list string;
  LastSeenPaths : list string;
  state : parserState;
  lineBuf : string;
}.
Arguments mkDiffParser {O}.
Arguments Out {O} _.
Arguments OutLines {O} _.
Arguments UnrecognizedCapture {O} _.
Arguments Paths {O} _.
Arguments BinaryPaths {O} _.
Arguments PathsToRemove {O} _.
Arguments LastSeenPaths {O} _.
Arguments state {O} _.
Arguments lineBuf {O} _.

Definition makeDiffParser {O} (out : O) : diffParser O :=
  mkDiffParser out 0 "" [] [] [] [] unrecognized "".

Definition appendUnique (l : list string) (value : string) : list string :=
  if existsb (String.eqb value) l then l else l ++ [value].

(** [strings.TrimRight path "\t"]. *)
Fixpoint trimLeftTabs (s : string) : string :=
  match s with
  | String "009"%char s' => trimLeftTabs s'
  | _ => s
  end.
Definition trimRightTabs (s : string) : string := Str.rev (trimLeftTabs (Str.rev s)).

(** ** The fields that are assigned *)

Section fields.
Context {O : Type}.
Abbreviation parser := (diffParser O).

Definition set_out (out : O) (n : Z) (p : parser) : parser :=
  mkDiffParser out n (UnrecognizedCapture p) (Paths p) (BinaryPaths p) (PathsToRemove p)
    (LastSeenPaths p) (state p) (lineBuf p).
Definition capture (s : string) (p : parser) : parser :=
  mkDiffParser (Out p) (OutLines p) (UnrecognizedCapture p +:+ s) (Paths p) (BinaryPaths p)
    (PathsToRemove p) (LastSeenPaths p) (state p) (lineBuf p).
Definition see_path (path : string) (p : parser) : parser :=
  mkDiffParser (Out p) (OutLines p) (UnrecognizedCapture p) (appendUnique (Paths p) path)
    (BinaryPaths p) (PathsToRemove p) (appendUnique (LastSeenPaths p) path) (state p) (lineBuf p).
Definition forget_seen (p : parser) : parser :=
  mkDiffParser (Out p) (OutLines p) (UnrecognizedCapture p) (Paths p) (BinaryPaths p)
    (PathsToRemove p) [] (state p) (lineBuf p).
Definition add_binary (p : parser) : parser :=
  mkDiffParser (Out p) (OutLines p) (UnrecognizedCapture p) (Paths p)
    (foldl appendUnique (BinaryPaths p) (LastSeenPaths p)) (PathsToRemove p) (LastSeenPaths p)
    (state p) (lineBuf p).
Definition add_removed (path : string) (p : parser) : parser :=
  mkDiffParser (Out p) (OutLines p) (UnrecognizedCapture p) (Paths p) (BinaryPaths p)
    (appendUnique (PathsToRemove p) path) (LastSeenPaths p) (state p) (lineBuf p).
Definition set_state (s : parserState) (p : parser) : parser :=
  mkDiffParser (Out p) (OutLines p) (UnrecognizedCapture p) (Paths p) (BinaryPaths p)
    (PathsToRemove p) (LastSeenPaths p) s (lineBuf p).
Definition set_lineBuf (s : string) (p : parser) : parser :=
  mkDiffParser (Out p) (OutLines p) (UnrecognizedCapture p) (Paths p) (BinaryPaths p)
    (PathsToRemove p) (LastSeenPaths p) (state p) s.

Definition modify (f : parser -> parser) : prog parser unit := fun p => (Ok tt, f p).
End fields.

(** * The index line *)

Definition stripHash (h : string) : string := if Str.len h <? 8 then h else Str.take 8 h.

Definition stripHashes (hashes : string) : string :=
  Str.Join (stripHash <$> Str.Split hashes ",") ",".

(** The line that is written for an index line. *)
Definition indexLine (line : string) : string :=
  let rewrite (prefix hashes suffix : string) :=
    match Str.SplitN hashes ".." 2 with
    | [lefts; rights] =>
        prefix +:+ " " +:+ stripHashes lefts +:+ ".." +:+ stripHashes rights +:+
        (if bool_decide (suffix = "") then "" else " " +:+ suffix)
    | _ => line
    end in
  match Str.SplitN line " " 3 with
  | [prefix; hashes; suffix] => rewrite prefix hashes suffix
  | [prefix; hashes] => rewrite prefix hashes ""
  | _ => line
  end.

(** * The parser *)

Section parser.
Context {O : Type} `{!GoQuote, !GoUnquote, !UtilPaths}.
(** [p.Out.Write] *)
Variable Write : string -> prog O unit.
Variable PathScope : string.
Variable IsPathMatched : string -> bool.
Variable FileRenames : gmap string string.

Abbreviation parser := (diffParser O).
Abbreviation prog := (prog parser).

Definition newline : string := String "010" "".

(** [OutLines] is a uint. *)
Definition writeOutLine (line : string) : prog unit := fun p =>
  let '(r, out) := Write (line +:+ newline) (Out p) in
  (r, set_out out ((OutLines p + 1) mod 2 ^ 64)%Z p).

Definition writeUnrecognizedLine (line : string) : prog unit := modify (capture (line +:+ newline)).

Definition HandleStderr (data : string) : prog unit := modify (capture data).

Definition applyFileRenames (path : string) : string :=
  match FileRenames !! path with
  | Some renamedFileName => Filepath.ToSlash (Filepath.Join [PathScope; renamedFileName])
  | None => path
  end.

(** Git may emit tabs at the end of a line with a path. *)
Definition trimFileBaseFilepath (path : string) : string :=
  trimRightTabs (Filepath.ToSlash
    (GetRelativeToBaseFilepath (Filepath.FromSlash PathScope) (Filepath.FromSlash path))).

(** ** The header of a file's diff *)

(** A double quote. *)
Definition quote : string := String "034" "".

(** The two paths with their prefixes. *)
Definition splitDiffBegin (line : string) : res (string * string) :=
  match Str.SplitN line (" " +:+ quote +:+ "a/") 2 with
  | [_; rest] =>
      match Str.SplitN rest (" " +:+ quote +:+ "b/") 2 with
      | [a; b] => Ok (quote +:+ "a/" +:+ a, quote +:+ "b/" +:+ b)
      | _ => Panic "index out of range"
      end
  | _ =>
      match Str.SplitN line " a/" 2 with
      | [_; rest] =>
          match Str.SplitN rest " b/" 2 with
          | [a; b] => Ok ("a/" +:+ a, "b/" +:+ b)
          | _ => Panic "index out of range"
          end
      | _ => Err (Errorf "unexpected diff begin line: %#v" [FQ line])
      end
  end.

Definition isQuoted (s : string) : bool := Str.HasPrefix s quote && Str.HasSuffix s quote.

(** One of the two paths: what is written for it, nothing if the file is not matched. *)
Definition handleDiffPath (PathWithPrefix Prefix : string) : prog (option string) :=
  pathWithPrefix ←
    (if isQuoted PathWithPrefix
     then lift (match Unquote PathWithPrefix with
                | inl path => Ok path
                | inr err => Err (Wrapf "unable to unquote diff path %#v: %w" [FQ PathWithPrefix] err)
                end)
     else mret PathWithPrefix);
  let path := Str.TrimPrefix pathWithPrefix Prefix in
  if negb (IsPathMatched path) then modify (set_state ignoreDiff) ;; mret None
  else
    let newPath := trimFileBaseFilepath (applyFileRenames path) in
    modify (see_path newPath) ;;
    mret (Some (if isQuoted PathWithPrefix then Quote (Prefix +:+ newPath) else Prefix +:+ newPath)).

Definition handleDiffBegin (line : string) : prog unit :=
  ab ← lift (splitDiffBegin line);
  modify forget_seen ;;
  a ← handleDiffPath ab.1 "a/";
  match a with
  | None => mret tt
  | Some a =>
      b ← handleDiffPath ab.2 "b/";
      match b with
      | None => mret tt
      | Some b =>
          modify (set_state diffBegin) ;;
          writeOutLine ("diff --git " +:+ a +:+ " " +:+ b)
      end
  end.

(** ** The other lines *)

Definition handleDeleteFileDiff (line : string) : prog unit :=
  modify (set_state deleteFileDiff) ;; writeOutLine line.
Definition handleNewFileDiff (line : string) : prog unit :=
  modify (set_state newFileDiff) ;; writeOutLine line.
Definition handleModifyFileDiff (line : string) : prog unit :=
  modify (set_state modifyFileDiff) ;; writeOutLine line.

Definition handleIndexDiffLine (line : string) : prog unit := writeOutLine (indexLine line).

Definition rewrittenPath (line prefix : string) : string :=
  trimFileBaseFilepath (applyFileRenames (Str.TrimPrefix line prefix)).

Definition handleModifyFilePathA (line : string) : prog unit :=
  writeOutLine ("--- a/" +:+ rewrittenPath line "--- a/").

Definition handleModifyFilePathB (line : string) : prog unit :=
  modify (set_state diffBody) ;; writeOutLine ("+++ b/" +:+ rewrittenPath line "+++ b/").

Definition handleNewFilePath (line : string) : prog unit :=
  modify (set_state diffBody) ;; writeOutLine ("+++ b/" +:+ rewrittenPath line "+++ b/").

Definition handleDeleteFilePath (line : string) : prog unit :=
  let newPath := rewrittenPath line "--- a/" in
  modify (set_state diffBody) ;;
  modify (add_removed newPath) ;;
  writeOutLine ("--- a/" +:+ newPath).

Definition handleSubmoduleLine (line : string) : prog unit :=
  modify (set_state unrecognized) ;;
  if Str.HasSuffix line " (commits not present)"
  then fail (Wrapf "cannot handle git diff line %q, check specified commits are correct: %w"
               [FQ line] ErrCommitsNotPresent)
  else mret tt.

Definition handleBinaryBeginHeader (line : string) : prog unit :=
  modify add_binary ;; modify (set_state diffBody) ;; writeOutLine line.

Definition handleShortBinaryHeader (line : string) : prog unit :=
  modify add_binary ;; modify (set_state unrecognized) ;; writeOutLine line.

(** The first of the handlers whose prefix the line has. *)
Fixpoint dispatch (line : string) (cases : list (string * (string -> prog unit)))
  (otherwise : prog unit) : prog unit :=
  match cases with
  | [] => otherwise
  | (prefix, handler) :: cases' =>
      if Str.HasPrefix line prefix then handler line else dispatch line cases' otherwise
  end.

(** What every state of a file's diff accepts. *)
Definition fileCases : list (string * (string -> prog unit)) :=
  [("GIT binary patch", handleBinaryBeginHeader);
   ("Binary files", handleShortBinaryHeader);
   ("diff --git ", handleDiffBegin);
   ("index ", handleIndexDiffLine);
   ("Submodule ", handleSubmoduleLine)].

Definition headerCases : list (string * (string -> prog unit)) :=
  [("diff --git ", handleDiffBegin); ("Submodule ", handleSubmoduleLine)].

Definition handleDiffLine (line : string) : prog unit := fun p =>
  (match state p with
   | unrecognized => dispatch line headerCases (writeUnrecognizedLine line)
   | ignoreDiff => dispatch line headerCases (mret tt)
   | diffBegin =>
       dispatch line
         [("deleted file mode ", handleDeleteFileDiff);
          ("new file mode ", handleNewFileDiff);
          ("old mode ", handleModifyFileDiff);
          ("index ", fun line => modify (set_state modifyFileDiff) ;; handleIndexDiffLine line)]
         (fail (Errorf "unexpected diff line in state `%s`: %#v" [FS "diffBegin"; FQ line]))
   | modifyFileDiff =>
       dispatch line
         (("new mode ", writeOutLine) :: ("--- ", handleModifyFilePathA) ::
          ("+++ ", handleModifyFilePathB) :: fileCases) (writeOutLine line)
   | newFileDiff => dispatch line (("+++ ", handleNewFilePath) :: fileCases) (writeOutLine line)
   | deleteFileDiff => dispatch line (("--- ", handleDeleteFilePath) :: fileCases) (writeOutLine line)
   | diffBody => dispatch line headerCases (writeOutLine line)
   end) p.

(** ** The stream *)

Fixpoint HandleStdout (data : string) : prog unit :=
  match data with
  | "" => mret tt
  | String b data' =>
      (if bool_decide (b = "010"%char) then
         fun p => (modify (set_lineBuf "") ;;
                   wrap "error parsing diff line: %w" [] (handleDiffLine (lineBuf p))) p
       else fun p => (Ok tt, set_lineBuf (lineBuf p +:+ String b "") p)) ;;
      HandleStdout data'
  end.

End parser.
End DiffParser.
