(* ===== verification/DiffParserFacts.v ===== *)
(** The filter of diffs: how the stream is cut into lines, what it always keeps, and what it
    does with the diff of one file. *)
From S2P Require Import Prelude Go GoStd DiffParser.

(** ** Cutting strings *)

Lemma cut_mem_None (c : Ascii.ascii) sep s :
  Str.mem c sep = true -> Str.mem c s = false -> Str.cut sep s = None.
Proof.
  intros Hsep. induction s as [|d s IH]; intros Hs; cbn [Str.cut].
  - by destruct sep.
  - destruct (String.prefix sep (String d s)) eqn:E.
    + apply Str.prefix_spec in E as [t Et]. rewrite Et, Str.mem_app, Hsep in Hs. done.
    + apply orb_false_iff in Hs as [_ Hs]. by rewrite IH.
Qed.

Lemma cut_first (c : Ascii.ascii) sep a b :
  Str.mem c a = false -> Str.cut (String c sep) (a +:+ String c (sep +:+ b)) = Some (a, b).
Proof.
  induction a as [|d a IH]; intros Ha.
  - change ("" +:+ String c (sep +:+ b)) with (String c sep +:+ b).
    assert (forall s, s = String c sep +:+ b -> Str.cut (String c sep) s = Some ("", b)) as H; [|by apply H].
    intros [|x s] E; [done|]. cbn [Str.cut]. rewrite E, Str.prefix_app, Str.drop_app. done.
  - simpl in Ha. apply orb_false_iff in Ha as [Hd Ha]. apply bool_decide_eq_false in Hd.
    change (String d a +:+ String c (sep +:+ b)) with (String d (a +:+ String c (sep +:+ b))).
    cbn [Str.cut]. rewrite IH by done. cbn [String.prefix]. by destruct (Ascii.ascii_dec c d).
Qed.

Module DiffParserFacts.
Import DiffParser.

Lemma elem_appendUnique l x y : y ∈ appendUnique l x <-> y ∈ l \/ y = x.
Proof.
  unfold appendUnique. destruct (existsb (String.eqb x) l) eqn:E.
  - apply existsb_exists in E as (z & Hz%list_elem_of_In & ->%String.eqb_eq). naive_solver.
  - rewrite elem_of_app, list_elem_of_singleton. done.
Qed.

Lemma NoDup_appendUnique l x : NoDup l -> NoDup (appendUnique l x).
Proof.
  intros Hn. unfold appendUnique. destruct (existsb (String.eqb x) l) eqn:E; [done|].
  apply NoDup_app. split; [done|]. split; [|apply NoDup_singleton].
  intros y Hy ->%list_elem_of_singleton. apply not_true_iff_false in E. apply E, existsb_exists.
  exists x. split; [by apply list_elem_of_In|by apply String.eqb_eq].
Qed.

Lemma appendUnique_in l x : x ∈ l -> appendUnique l x = l.
Proof.
  intros Hx. unfold appendUnique. assert (existsb (String.eqb x) l = true) as ->; [|done].
  apply existsb_exists. exists x. split; [by apply list_elem_of_In|by apply String.eqb_eq].
Qed.

Lemma elem_fold_appendUnique l l' y : y ∈ foldl appendUnique l l' <-> y ∈ l \/ y ∈ l'.
Proof.
  revert l. induction l' as [|x l' IH]; intros l; simpl.
  - split; [by left|intros [?|?%elem_of_nil]; done].
  - rewrite IH, elem_appendUnique, elem_of_cons. tauto.
Qed.

Lemma NoDup_fold_appendUnique l l' : NoDup l -> NoDup (foldl appendUnique l l').
Proof. revert l. induction l' as [|x l' IH]; intros l Hn; simpl; [done|]. by apply IH, NoDup_appendUnique. Qed.

Section parser.
Context {O : Type} `{!GoQuote, !GoUnquote, !UtilPaths}.
Variable Write : string -> prog O unit.
Variable PathScope : string.
Variable IsPathMatched : string -> bool.
Variable FileRenames : gmap string string.

Abbreviation parser := (diffParser O).
Abbreviation prog := (prog parser).
Abbreviation handleDiffLine := (handleDiffLine Write PathScope IsPathMatched FileRenames).
Abbreviation HandleStdout := (HandleStdout Write PathScope IsPathMatched FileRenames).
Abbreviation handleDiffBegin := (handleDiffBegin Write PathScope IsPathMatched FileRenames).

(** ** Chunks and lines *)

Lemma HandleStdout_app d1 d2 p : HandleStdout (d1 +:+ d2) p = (HandleStdout d1 ;; HandleStdout d2) p.
Proof using Type.
  revert p. induction d1 as [|b d1 IH]; intros p; [done|]. cbn [String.append DiffParser.HandleStdout].
  unfold mbind, prog_bind in *. case_bool_decide; [|apply IH]. simpl.
  destruct (wrap _ _ _ _) as [[[]| |] p']; [apply IH|done..].
Qed.

(** ** What the handlers keep *)

(** A relation that every assignment of the parser's fields keeps, the collected bytes apart. *)
Record FieldsKeep (R : parser -> parser -> Prop) : Prop := {
  fk_out out n p : R p (set_out out n p);
  fk_capture s p : R p (capture s p);
  fk_state s p : R p (set_state s p);
  fk_forget p : R p (forget_seen p);
  fk_see q p : IsPathMatched q = true ->
    R p (see_path (trimFileBaseFilepath PathScope (applyFileRenames PathScope FileRenames q)) p);
  fk_binary p : R p (add_binary p);
  fk_removed s p : R p (add_removed s p);
}.

Section keep.
Context (R : parser -> parser -> Prop) `{!PreOrder R}.

Lemma keeps_modify (f : parser -> parser) : (forall p, R p (f p)) -> keeps R (modify f).
Proof using Type. intros Hf p. apply Hf. Qed.

Lemma keeps_writeOutLine line : (forall out n p, R p (set_out out n p)) -> keeps R (writeOutLine Write line).
Proof using Type. intros Ho p. unfold writeOutLine. destruct (Write _ _) as [r out]. apply Ho. Qed.

Lemma keeps_dispatch line cases otherwise :
  (forall c, c ∈ cases -> keeps R (c.2 line)) -> keeps R otherwise -> keeps R (dispatch line cases otherwise).
Proof using Type.
  intros Hc Ho. induction cases as [|[pre h] cases IH]; simpl; [done|].
  destruct (Str.HasPrefix line pre); [apply (Hc (pre, h)); by left|apply IH]. intros c ?. apply Hc. by right.
Qed.

Hypothesis HR : FieldsKeep R.
Hint Extern 4 (keeps _ (modify _)) => (apply keeps_modify; intros ?; apply HR) : diff.
Hint Extern 4 (keeps _ (writeOutLine _ _)) => (apply keeps_writeOutLine; apply HR) : diff.
Hint Resolve keeps_ret keeps_fail keeps_panic keeps_lift : diff.

Lemma keeps_handleDiffPath a b : keeps R (handleDiffPath PathScope IsPathMatched FileRenames a b).
Proof using All.
  unfold handleDiffPath. apply keeps_bind; [done| |intros q].
  - destruct (isQuoted a); [|auto with diff]. destruct (Unquote a); auto with diff.
  - destruct (IsPathMatched (Str.TrimPrefix q b)) eqn:E; simpl;
      (apply keeps_bind; [done| |intros ?; auto with diff]); [|auto with diff].
    apply keeps_modify. intros p. by apply HR.
Qed.
Hint Resolve keeps_handleDiffPath : diff.

Ltac diff_go :=
  repeat first [solve [auto with diff] | apply keeps_bind; [done| |intros ?]
               | apply keeps_dispatch; [let c := fresh "c" in intros c Hc;
                   repeat (apply elem_of_cons in Hc as [->|Hc]; [simpl|]); [..|by apply elem_of_nil in Hc]|]
               | match goal with
                 | |- keeps _ (if ?b then _ else _) => destruct b
                 | |- keeps _ (match ?x with _ => _ end) => destruct x
                 end].

Lemma keeps_handleDiffBegin line : keeps R (handleDiffBegin line).
Proof using All. unfold DiffParser.handleDiffBegin. diff_go. Qed.

Lemma keeps_handleDiffLine line : keeps R (handleDiffLine line).
Proof using All.
  pose proof keeps_handleDiffBegin as Hb. intros p. unfold DiffParser.handleDiffLine.
  assert (forall m : prog unit, keeps R m -> R p (m p).2) as Hm by (intros m Hm; apply Hm).
  destruct (state p); apply Hm; clear Hm;
    unfold headerCases, fileCases, writeUnrecognizedLine, handleSubmoduleLine, handleDeleteFileDiff,
      handleNewFileDiff, handleModifyFileDiff, handleIndexDiffLine, handleModifyFilePathA,
      handleModifyFilePathB, handleNewFilePath, handleDeleteFilePath, handleBinaryBeginHeader,
      handleShortBinaryHeader; diff_go.
Qed.

Lemma keeps_HandleStdout data : (forall s p, R p (set_lineBuf s p)) -> keeps R (HandleStdout data).
Proof using All.
  intros Hb. induction data as [|b data IH]; simpl; [apply keeps_ret; done|].
  apply keeps_bind; [done| |intros _; exact IH]. case_bool_decide.
  - intros p. assert (forall m : prog unit, keeps R m -> R p (m p).2) as Hm by (intros m Hm; apply Hm).
    apply Hm. apply keeps_bind; [done|by apply keeps_modify|intros _]. apply keeps_wrap, keeps_handleDiffLine.
  - intros p. apply Hb.
Qed.

Lemma keeps_chunks chunks :
  (forall s p, R p (set_lineBuf s p)) -> keeps R (for_each chunks HandleStdout).
Proof using All. intros Hb. apply keeps_for_each; [done|]. intros d _. by apply keeps_HandleStdout. Qed.
End keep.
End parser.
End DiffParserFacts.
