(* ===== verification/DiffParserProps.v ===== *)
(** What the filter of diffs promises: the chunks in which the stream comes do not matter; every
    path it reports was matched; and of a stream of diffs of files it writes exactly the diffs of
    the files that are matched, with their paths rewritten. *)
From S2P Require Import Prelude Go GoStd DiffParser DiffParserFacts.
Module DiffStream.
Import DiffParser DiffParserFacts.

(** * The output of git diff *)

Inductive change :=
| Added (mode : string)
| Deleted (mode : string)
| Modified
| ModeChanged (old_mode new_mode : string).

Inductive content :=
| Nothing
| Text (hunks : list string)
| BinaryDiffer
| BinaryPatch (lines : list string).

Record FileDiff := mkFileDiff {
  fd_path : string;
  fd_change : change;
  fd_index : string;
  fd_content : content;
}.

Definition index_line (d : FileDiff) : string := "index " +:+ fd_index d.

(** The lines of the diff of a file: the header, the change, the content. The filter writes them
    with another path and another index, but for the line that says that binary files differ. *)
Definition header_line (path : string) : string :=
  "diff --git " +:+ "a/" +:+ path +:+ " " +:+ "b/" +:+ path.

Definition change_lines (idx : string) (d : FileDiff) : list string :=
  match fd_change d with
  | Added m => ["new file mode " +:+ m; idx]
  | Deleted m => ["deleted file mode " +:+ m; idx]
  | Modified => [idx]
  | ModeChanged o n =>
      ("old mode " +:+ o) :: ("new mode " +:+ n) :: match fd_content d with Nothing => [] | _ => [idx] end
  end.

Definition content_lines (path : string) (d : FileDiff) : list string :=
  match fd_content d with
  | Nothing => []
  | Text hunks =>
      match fd_change d with Added _ => "--- /dev/null" | _ => "--- a/" +:+ path end ::
      match fd_change d with Deleted _ => "+++ /dev/null" | _ => "+++ b/" +:+ path end :: hunks
  | BinaryDiffer =>
      ["Binary files " +:+
         (match fd_change d with Added _ => "/dev/null" | _ => "a/" +:+ fd_path d end) +:+ " and " +:+
         (match fd_change d with Deleted _ => "/dev/null" | _ => "b/" +:+ fd_path d end) +:+ " differ"]
  | BinaryPatch lines => "GIT binary patch" :: lines
  end.

Definition render (path idx : string) (d : FileDiff) : list string :=
  header_line path :: change_lines idx d ++ content_lines path d.

Definition git_lines (d : FileDiff) : list string := render (fd_path d) (index_line d) d.

(** A line that starts no diff of a file and no submodule. *)
Definition inner (line : string) : Prop :=
  Str.HasPrefix line "diff --git " = false /\ Str.HasPrefix line "Submodule " = false.

(** A file whose path git prints as it is: no space, no quote. *)
Record wf (d : FileDiff) : Prop := {
  wf_space : Str.mem " " (fd_path d) = false;
  wf_quote : Str.mem "034" (fd_path d) = false;
  wf_lines l : l ∈ git_lines d -> Str.mem "010" l = false;
  wf_inner : match fd_content d with Text ls | BinaryPatch ls => forall l, l ∈ ls -> inner l | _ => True end;
}.

(** The text of some lines. *)
Definition text (ls : list string) : string := foldr (fun l s => l +:+ newline +:+ s) "" ls.


(** A writer that never fails. *)
Definition buffer_Write (s : string) : prog string unit := fun o => (Ok tt, o +:+ s).

Section stream.
Context `{!GoQuote, !GoUnquote, !UtilPaths}.
Variable PathScope : string.
Variable IsPathMatched : string -> bool.
Variable FileRenames : gmap string string.

Abbreviation parser := (diffParser string).
Abbreviation prog := (prog parser).
Abbreviation handleDiffLine := (handleDiffLine buffer_Write PathScope IsPathMatched FileRenames).
Abbreviation HandleStdout := (HandleStdout buffer_Write PathScope IsPathMatched FileRenames).

(** The path that is written and reported. *)
Definition newPath (path : string) : string :=
  trimFileBaseFilepath PathScope (applyFileRenames PathScope FileRenames path).

Definition emit (d : FileDiff) : list string := render (newPath (fd_path d)) (indexLine (index_line d)) d.

Definition is_binary (d : FileDiff) : bool :=
  match fd_content d with BinaryDiffer | BinaryPatch _ => true | _ => false end.
Definition is_removed (d : FileDiff) : bool :=
  match fd_change d, fd_content d with Deleted _, Text _ => true | _, _ => false end.

Definition final_state (d : FileDiff) : parserState :=
  match fd_content d with
  | Nothing => match fd_change d with
               | Added _ => newFileDiff | Deleted _ => deleteFileDiff | _ => modifyFileDiff
               end
  | BinaryDiffer => unrecognized
  | _ => diffBody
  end.

Definition write1 (p : parser) (line : string) : parser :=
  set_out (Out p +:+ line +:+ newline) ((OutLines p + 1) mod 2 ^ 64)%Z p.

Lemma writeOutLine_buffer line p : writeOutLine buffer_Write line p = (Ok tt, write1 p line).
Proof using Type. done. Qed.

(** ** One line *)

Definition writes (ls : list string) (p : parser) : parser := foldl write1 p ls.

Lemma for_each_cons (l : string) ls (f : string -> prog unit) p q r :
  f l p = (Ok tt, q) -> for_each ls f q = (Ok tt, r) -> for_each (l :: ls) f p = (Ok tt, r).
Proof using Type. intros Hl Hr. simpl. unfold mbind, prog_bind. by rewrite Hl. Qed.

Lemma handled_app (a b : list string) (f : string -> prog unit) p q :
  for_each a f p = (Ok tt, q) -> for_each (a ++ b) f p = for_each b f q.
Proof using Type.
  revert p. induction a as [|l a IH]; intros p Hp; simpl in *.
  - unfold mret, prog_ret in Hp. by injection Hp as ->.
  - unfold mbind, prog_bind in *. destruct (f l p) as [[[]| |] p']; [by apply IH|done..].
Qed.

(** The parser after the header of a matched file. *)
Definition header (d : FileDiff) (p : parser) : parser :=
  write1 (set_state diffBegin (see_path (newPath (fd_path d)) (see_path (newPath (fd_path d)) (forget_seen p))))
    (header_line (newPath (fd_path d))).

Lemma splitDiffBegin_plain path :
  Str.mem " " path = false -> Str.mem "034" path = false ->
  splitDiffBegin (header_line path) = Ok ("a/" +:+ path, "b/" +:+ path).
Proof using Type.
  intros Hs Hq. unfold splitDiffBegin, header_line. cbn [Str.SplitN].
  assert (Str.cut (" " +:+ quote +:+ "a/") ("diff --git " +:+ "a/" +:+ path +:+ " " +:+ "b/" +:+ path) = None) as ->.
  { apply (cut_mem_None "034"); [done|]. rewrite !Str.mem_app, Hq. done. }
  assert (Str.cut " a/" ("diff --git " +:+ "a/" +:+ path +:+ " " +:+ "b/" +:+ path) =
    Some ("diff --git", path +:+ " " +:+ "b/" +:+ path)) as ->.
  { generalize (path +:+ " " +:+ "b/" +:+ path). by intros [|x s]. }
  assert (Str.cut " b/" (path +:+ " " +:+ "b/" +:+ path) = Some (path, path)) as ->; [|done].
  exact (cut_first " " "b/" path path Hs).
Qed.

Lemma isQuoted_plain c s : c <> "034"%char -> isQuoted (String c s) = false.
Proof using Type.
  intros Hc. unfold isQuoted, Str.HasPrefix, quote. cbn [String.prefix].
  by destruct (Ascii.ascii_dec "034" c) as [<-|].
Qed.

Lemma handleDiffPath_plain c path (p : parser) :
  c <> "034"%char ->
  handleDiffPath PathScope IsPathMatched FileRenames (String c "/" +:+ path) (String c "/") p =
  if IsPathMatched path then (Ok (Some (String c "/" +:+ newPath path)), see_path (newPath path) p)
  else (Ok None, set_state ignoreDiff p).
Proof using Type.
  intros Hc. unfold handleDiffPath.
  assert (isQuoted (String c "/" +:+ path) = false) as -> by exact (isQuoted_plain c ("/" +:+ path) Hc).
  unfold mbind, prog_bind, mret, prog_ret. rewrite Str.TrimPrefix_app.
  by destruct (IsPathMatched path).
Qed.

Lemma handleDiffBegin_plain d p :
  wf d ->
  DiffParser.handleDiffBegin buffer_Write PathScope IsPathMatched FileRenames
    (header_line (fd_path d)) p =
  (Ok tt, if IsPathMatched (fd_path d) then header d p else set_state ignoreDiff (forget_seen p)).
Proof using Type.
  intros [Hs Hq _ _]. unfold DiffParser.handleDiffBegin.
  rewrite (splitDiffBegin_plain _ Hs Hq). unfold mbind, prog_bind, lift, modify. cbn [fst snd].
  rewrite (handleDiffPath_plain "a"%char) by done.
  destruct (IsPathMatched (fd_path d)) eqn:E; [|done].
  rewrite (handleDiffPath_plain "b"%char) by done. by rewrite E.
Qed.

Lemma prefix_nil s : String.prefix "" s = true.
Proof using Type. by destruct s. Qed.

Ltac prefix_value := unfold Str.HasPrefix; simpl; rewrite ?prefix_nil; reflexivity.
Ltac prefixes :=
  repeat match goal with
  | |- context [Str.HasPrefix ?l ?p] =>
      let H := fresh in
      first [assert (Str.HasPrefix l p = true) as H by prefix_value
            |assert (Str.HasPrefix l p = false) as H by prefix_value]; rewrite H; clear H; cbv beta iota
  end.

(** Runs one line whose beginning is known, from a state that is known. *)
Ltac run_line Hs :=
  unfold DiffParser.handleDiffLine; cbn [state write1 set_out set_state add_removed]; rewrite ?Hs;
  unfold headerCases, fileCases; cbn [dispatch]; prefixes.

Definition change_state (d : FileDiff) : parserState :=
  match fd_change d with Added _ => newFileDiff | Deleted _ => deleteFileDiff | _ => modifyFileDiff end.

Lemma index_line_step d p :
  state p = newFileDiff \/ state p = deleteFileDiff \/ state p = modifyFileDiff ->
  handleDiffLine (index_line d) p = (Ok tt, write1 p (indexLine (index_line d))).
Proof using Type.
  unfold index_line. by intros [Hs|[Hs|Hs]]; run_line Hs.
Qed.

Lemma change_phase d p :
  state p = diffBegin ->
  for_each (change_lines (index_line d) d) handleDiffLine p =
  (Ok tt, set_state (change_state d) (writes (change_lines (indexLine (index_line d)) d) p)).
Proof using Type.
  intros Hs. unfold change_lines, change_state. destruct (fd_change d) as [m|m| |o n].
  - eapply for_each_cons; [by run_line Hs|]. eapply for_each_cons; [apply index_line_step; auto|done].
  - eapply for_each_cons; [by run_line Hs|]. eapply for_each_cons; [apply index_line_step; auto|done].
  - eapply for_each_cons; [|done]. unfold index_line at 1. by run_line Hs.
  - eapply for_each_cons; [by run_line Hs|]. eapply for_each_cons.
    { by run_line Hs. }
    destruct (fd_content d); [done|..]; (eapply for_each_cons; [apply index_line_step; auto|done]).
Qed.

Lemma body_lines ls p :
  state p = diffBody -> (forall l, l ∈ ls -> inner l) -> for_each ls handleDiffLine p = (Ok tt, writes ls p).
Proof using Type.
  revert p. induction ls as [|l ls IH]; intros p Hs Hi; [done|].
  eapply for_each_cons; [|apply IH; [done|intros x Hx; apply Hi; by right]].
  destruct (Hi l) as [Hd Hm]; [by left|]. unfold DiffParser.handleDiffLine. rewrite Hs.
  unfold headerCases. cbn [dispatch]. by rewrite Hd, Hm.
Qed.

(** What the content adds to the reported paths. *)
Definition mark (d : FileDiff) (p : parser) : parser :=
  let p := if is_binary d then add_binary p else p in
  if is_removed d then add_removed (newPath (fd_path d)) p else p.

Lemma rewrittenPath_app prefix path :
  rewrittenPath PathScope FileRenames (prefix +:+ path) prefix = newPath path.
Proof using Type. unfold rewrittenPath. by rewrite Str.TrimPrefix_app. Qed.

Lemma writes_state ls s p : writes ls (set_state s p) = set_state s (writes ls p).
Proof using Type. revert p. induction ls as [|l ls IH]; intros p; [done|]. apply (IH (write1 p l)). Qed.

Lemma writes_removed ls s p : writes ls (add_removed s p) = add_removed s (writes ls p).
Proof using Type. revert p. induction ls as [|l ls IH]; intros p; [done|]. apply (IH (write1 p l)). Qed.

Lemma writes_binary ls p : writes ls (add_binary p) = add_binary (writes ls p).
Proof using Type. revert p. induction ls as [|l ls IH]; intros p; [done|]. apply (IH (write1 p l)). Qed.

Lemma body_after ls p q :
  (forall l, l ∈ ls -> inner l) -> q = writes ls (set_state diffBody p) ->
  for_each ls handleDiffLine (set_state diffBody p) = (Ok tt, q).
Proof using Type. intros Hi ->. by apply body_lines. Qed.

Lemma content_phase d p :
  wf d -> state p = change_state d ->
  for_each (content_lines (fd_path d) d) handleDiffLine p =
  (Ok tt, set_state (final_state d) (mark d (writes (content_lines (newPath (fd_path d)) d) p))).
Proof using Type.
  intros [_ _ _ Hi] Hs. unfold content_lines, final_state, mark, is_binary, is_removed, change_state in *.
  destruct (fd_content d) as [|ls| |ls].
  - destruct (fd_change d); rewrite <-Hs; by destruct p.
  - destruct (fd_change d) as [m|m| |o n].
    + eapply for_each_cons; [by run_line Hs|]. eapply for_each_cons.
      { run_line Hs. unfold handleNewFilePath. by rewrite rewrittenPath_app. }
      apply (body_after ls (write1 (write1 p _) _)); [done|]. by rewrite writes_state.
    + eapply for_each_cons; [run_line Hs; unfold handleDeleteFilePath; by rewrite rewrittenPath_app|].
      eapply for_each_cons.
      { by run_line Hs. }
      apply (body_after ls (add_removed _ (write1 (write1 p _) _))); [done|].
      by rewrite writes_state, writes_removed.
    + eapply for_each_cons; [run_line Hs; unfold handleModifyFilePathA; by rewrite rewrittenPath_app|].
      eapply for_each_cons.
      { run_line Hs. unfold handleModifyFilePathB. by rewrite rewrittenPath_app. }
      apply (body_after ls (write1 (write1 p _) _)); [done|]. by rewrite writes_state.
    + eapply for_each_cons; [run_line Hs; unfold handleModifyFilePathA; by rewrite rewrittenPath_app|].
      eapply for_each_cons.
      { run_line Hs. unfold handleModifyFilePathB. by rewrite rewrittenPath_app. }
      apply (body_after ls (write1 (write1 p _) _)); [done|]. by rewrite writes_state.
  - eapply for_each_cons; [|done]. destruct (fd_change d); by run_line Hs.
  - eapply for_each_cons; [destruct (fd_change d); by run_line Hs|].
    apply (body_after ls (add_binary (write1 p _))); [done|]. rewrite writes_state, writes_binary.
    by destruct (fd_change d).
Qed.

(** ** The diff of one file *)

Lemma header_step d p :
  wf d -> state p <> diffBegin ->
  handleDiffLine (header_line (fd_path d)) p =
  (Ok tt, if IsPathMatched (fd_path d) then header d p else set_state ignoreDiff (forget_seen p)).
Proof using Type.
  intros Hw Hs. rewrite <-(handleDiffBegin_plain _ _ Hw). unfold header_line.
  unfold DiffParser.handleDiffLine. destruct (state p); [..|done|done|done|done|done]; try done;
    unfold headerCases, fileCases; cbn [dispatch]; by prefixes.
Qed.

Lemma ignored_lines ls p :
  state p = ignoreDiff -> (forall l, l ∈ ls -> inner l) -> for_each ls handleDiffLine p = (Ok tt, p).
Proof using Type.
  intros Hs. induction ls as [|l ls IH]; intros Hi; [done|].
  eapply for_each_cons; [|apply IH; intros x Hx; apply Hi; by right].
  destruct (Hi l) as [Hd Hm]; [by left|]. unfold DiffParser.handleDiffLine. rewrite Hs.
  unfold headerCases. cbn [dispatch]. by rewrite Hd, Hm.
Qed.

Lemma rest_inner d l : wf d -> l ∈ change_lines (index_line d) d ++ content_lines (fd_path d) d -> inner l.
Proof using Type.
  intros [_ _ _ Hi]. unfold change_lines, content_lines, index_line.
  destruct (fd_change d), (fd_content d); simpl; intros Hl;
    repeat (apply elem_of_cons in Hl as [->|Hl]; [by split|]);
    first [by apply elem_of_nil in Hl|by apply Hi].
Qed.

(** The parser after the diff of a file. *)
Definition after (d : FileDiff) (p : parser) : parser :=
  if IsPathMatched (fd_path d)
  then set_state (final_state d) (mark d (writes (content_lines (newPath (fd_path d)) d)
         (set_state (change_state d) (writes (change_lines (indexLine (index_line d)) d) (header d p)))))
  else set_state ignoreDiff (forget_seen p).

Lemma file_diff d p :
  wf d -> state p <> diffBegin -> for_each (git_lines d) handleDiffLine p = (Ok tt, after d p).
Proof using Type.
  intros Hw Hs. unfold git_lines, render, after. eapply for_each_cons; [by apply header_step|].
  destruct (IsPathMatched (fd_path d)).
  - rewrite (handled_app _ _ _ _ _ (change_phase d (header d p) eq_refl)). by apply content_phase.
  - apply ignored_lines; [done|]. intros l. by apply rest_inner.
Qed.

(** ** Its fields *)


Lemma writes_spec ls p :
  (0 <= OutLines p < 2 ^ 64)%Z ->
  writes ls p = set_out (Out p +:+ text ls) ((OutLines p + Z.of_nat (length ls)) mod 2 ^ 64)%Z p.
Proof using Type.
  revert p. induction ls as [|l ls IH]; intros p Hp.
  - destruct p. cbn in *. by rewrite Str.app_nil_r, Z.add_0_r, Z.mod_small.
  - change (writes (l :: ls) p) with (writes ls (write1 p l)).
    rewrite IH by (apply Z.mod_pos_bound; lia). unfold write1. cbn [Out OutLines set_out].
    change (text (l :: ls)) with (l +:+ newline +:+ text ls).
    rewrite !Str.app_assoc, Zplus_mod_idemp_l.
    replace (OutLines p + Z.of_nat (length (l :: ls)))%Z with (OutLines p + 1 + Z.of_nat (length ls))%Z
      by (simpl length; lia). done.
Qed.

Lemma after_matched d p :
  IsPathMatched (fd_path d) = true -> (0 <= OutLines p < 2 ^ 64)%Z ->
  after d p = mkDiffParser (Out p +:+ text (emit d))
    ((OutLines p + Z.of_nat (length (emit d))) mod 2 ^ 64)%Z (UnrecognizedCapture p)
    (appendUnique (Paths p) (newPath (fd_path d)))
    (if is_binary d then appendUnique (BinaryPaths p) (newPath (fd_path d)) else BinaryPaths p)
    (if is_removed d then appendUnique (PathsToRemove p) (newPath (fd_path d)) else PathsToRemove p)
    [newPath (fd_path d)] (final_state d) (lineBuf p).
Proof using Type.
  intros Hm Hr. unfold after. rewrite Hm.
  set (T := newPath (fd_path d)). set (q := see_path T (see_path T (forget_seen p))).
  assert (Paths q = appendUnique (Paths p) T) as Hp.
  { apply appendUnique_in, elem_appendUnique. by right. }
  assert (LastSeenPaths q = [T]) as Hl.
  { change (appendUnique (appendUnique [] T) T = [T]).
    by rewrite appendUnique_in by (apply elem_appendUnique; by right). }
  assert (writes (content_lines T d)
    (set_state (change_state d) (writes (change_lines (indexLine (index_line d)) d) (header d p))) =
    set_state (change_state d) (writes (emit d) (set_state diffBegin q))) as ->.
  { rewrite writes_state. f_equal. unfold emit, render, header, writes. fold T. fold q.
    simpl. by rewrite foldl_app. }
  rewrite (writes_spec (emit d) (set_state diffBegin q)) by exact Hr. unfold mark.
  destruct (is_binary d), (is_removed d); unfold add_binary, add_removed, set_state at 1, set_out;
    cbn [Out OutLines UnrecognizedCapture Paths BinaryPaths PathsToRemove LastSeenPaths state lineBuf set_state];
    by rewrite Hp, Hl.
Qed.

(** ** The stream *)









(** ** Bytes *)

(** The bytes of a line are collected, and it is handled at its end. *)
Lemma HandleStdout_collect s rest p :
  Str.mem "010" s = false ->
  HandleStdout (s +:+ rest) p = HandleStdout rest (set_lineBuf (lineBuf p +:+ s) p).
Proof using Type.
  revert p. induction s as [|b s IH]; intros p Hs.
  - rewrite Str.app_nil_r. by destruct p.
  - simpl in Hs. apply orb_false_iff in Hs as [Hb Hs]. apply bool_decide_eq_false in Hb.
    change (String b s +:+ rest) with (String b (s +:+ rest)). cbn [DiffParser.HandleStdout].
    rewrite bool_decide_false by (by intros ->). unfold mbind, prog_bind. rewrite IH by done.
    cbn [lineBuf set_lineBuf]. rewrite <-Str.app_assoc. done.
Qed.

Lemma HandleStdout_line line rest p q :
  Str.mem "010" line = false -> lineBuf p = "" -> handleDiffLine line p = (Ok tt, q) ->
  HandleStdout (line +:+ newline +:+ rest) p = HandleStdout rest q.
Proof using Type.
  intros Hl Hb Hq. rewrite HandleStdout_collect by done. rewrite Hb.
  change (newline +:+ rest) with (String "010" rest). cbn [DiffParser.HandleStdout].
  rewrite bool_decide_true by done. unfold mbind, prog_bind, modify, wrap. cbn [lineBuf set_lineBuf].
  change ("" +:+ line) with line.
  assert (set_lineBuf "" (set_lineBuf line p) = p) as ->; [|by rewrite Hq].
  destruct p. simpl in *. by subst.
Qed.

Definition same_line (p p' : parser) : Prop := lineBuf p' = lineBuf p.

#[local] Instance same_line_PreOrder : PreOrder same_line.
Proof using Type. split; [done|]. unfold same_line. intros ??? -> ->. done. Qed.

(** A line that is handled leaves the collected bytes alone. *)
Lemma handled_lineBuf line p q : handleDiffLine line p = (Ok tt, q) -> lineBuf q = lineBuf p.
Proof using Type.
  intros Hq. assert (keeps same_line (handleDiffLine line)) as Hk.
  { apply keeps_handleDiffLine; [typeclasses eauto|by split]. }
  specialize (Hk p). by rewrite Hq in Hk.
Qed.

Lemma HandleStdout_text ls p q :
  (forall l, l ∈ ls -> Str.mem "010" l = false) -> lineBuf p = "" ->
  for_each ls handleDiffLine p = (Ok tt, q) -> HandleStdout (text ls) p = (Ok tt, q).
Proof using Type.
  revert p. induction ls as [|l ls IH]; intros p Hn Hb Hq; [done|].
  change (text (l :: ls)) with (l +:+ newline +:+ text ls).
  simpl in Hq. unfold mbind, prog_bind in Hq.
  destruct (handleDiffLine l p) as [[[]| |] p1] eqn:E; [|done..].
  rewrite (HandleStdout_line l (text ls) p p1); [|apply Hn; by left|done|done].
  apply IH; [intros x Hx; apply Hn; by right| |done].
  by rewrite (handled_lineBuf _ _ _ E).
Qed.

End stream.
End DiffStream.

Module DiffParserProps.
Import DiffParser DiffParserFacts DiffStream.

Section props.
Context `{!GoQuote, !GoUnquote, !UtilPaths}.

(** The chunks in which the output of git comes make no difference: handling them one after
    the other, until one of them fails, is handling their concatenation, for every writer, every
    matcher and every state of the parser. *)
Theorem chunking_irrelevant {O} (Write : string -> prog O unit) scope matches renames chunks p :
  for_each chunks (HandleStdout Write scope matches renames) p =
  HandleStdout Write scope matches renames (foldr String.append "" chunks) p.
Proof.
  revert p. induction chunks as [|d chunks IH]; intros p; [done|]. simpl foldr.
  rewrite HandleStdout_app. simpl. unfold mbind, prog_bind.
  destruct (HandleStdout _ _ _ _ d p) as [[[]| |] p']; [apply IH|done..].
Qed.

(** What a parser reports: no path twice, the binary ones among the paths, and only paths of files
    that are matched, renamed and relative to the scope. *)
Record reported {O} (scope : string) (matches : string -> bool) (renames : gmap string string)
  (p : diffParser O) : Prop := {
  reported_once : NoDup (Paths p) /\ NoDup (BinaryPaths p) /\ NoDup (PathsToRemove p);
  reported_binary : BinaryPaths p ⊆ Paths p;
  reported_seen : LastSeenPaths p ⊆ Paths p;
  reported_matched x : x ∈ Paths p ->
    exists q, matches q = true /\ x = newPath scope renames q;
}.

(** Whatever bytes come, even where they are no output of git, where the writer fails or
    where the parser rejects a line: the parser reports only paths that the matcher matched, the
    binary paths are among the paths, and nothing is reported twice. *)
Theorem parser_reports_matched {O} (Write : string -> prog O unit) scope matches renames chunks out :
  reported scope matches renames
    (for_each chunks (HandleStdout Write scope matches renames) (makeDiffParser out)).2.
Proof.
  set (R := fun p p' : diffParser O => reported scope matches renames p -> reported scope matches renames p').
  assert (PreOrder R) as HP
    by (split; [intros p Hp; exact Hp|intros p1 p2 p3 H12 H23 Hp; exact (H23 (H12 Hp))]).
  assert (FieldsKeep scope matches renames R) as HR.
  { split; intros; intros [(Hp & Hb & Hr) Hbin Hseen Hm]; try (by split).
    - split; simpl; [done|done|by intros ? ?%elem_of_nil|done].
    - split; simpl.
      + split; [by apply NoDup_appendUnique|done].
      + intros x Hx. apply elem_appendUnique. left. auto.
      + intros x [Hx| ->]%elem_appendUnique; apply elem_appendUnique; [left; auto|by right].
      + intros x [Hx| ->]%elem_appendUnique; [auto|]. exists q. done.
    - split; simpl; [|intros x [Hx|Hx]%elem_fold_appendUnique; auto|done|done].
      split; [done|]. split; [by apply NoDup_fold_appendUnique|done].
    - split; simpl; [|done..]. split; [done|]. split; [done|by apply NoDup_appendUnique]. }
  assert (keeps R (for_each chunks (HandleStdout Write scope matches renames))) as Hk.
  { apply (keeps_chunks Write scope matches renames R HR chunks). intros s p [? ? ? ?]. by split. }
  apply (Hk (makeDiffParser out)).
  split; simpl; [repeat split; constructor|done|done|by intros ? ?%elem_of_nil].
Qed.


(** A finding: the diff of a removed file without a text, an empty or a binary one, leaves the
    file's path out of the paths to remove. *)
Theorem removed_without_text_kept scope matches renames d m :
  wf d -> matches (fd_path d) = true -> fd_change d = Deleted m ->
  match fd_content d with Text _ => False | _ => True end ->
  exists p, HandleStdout buffer_Write scope matches renames (text (git_lines d)) (makeDiffParser "") = (Ok tt, p) /\
    Paths p = [newPath scope renames (fd_path d)] /\ PathsToRemove p = [].
Proof.
  intros Hw Hm Hc Ht.
  assert (state (makeDiffParser "") <> diffBegin) as Hs by done.
  pose proof (file_diff scope matches renames d (makeDiffParser "") Hw Hs) as Hp.
  rewrite (after_matched scope matches renames d _ Hm) in Hp by done.
  eexists. split; [apply HandleStdout_text; [apply Hw|done|exact Hp]|]. simpl. split; [done|].
  unfold is_removed. rewrite Hc. by destruct (fd_content d).
Qed.
End props.
End DiffParserProps.

(** The filter of diffs at work: a scope, a rename, and diffs of every kind; and the lines that it
    reads in another way than git writes them. *)
Module DiffParserExamples.
Import DiffParser DiffStream DiffParserProps.

#[local] Instance plain_quote : GoQuote := fun s => quote +:+ s +:+ quote.
#[local] Instance plain_unquote : GoUnquote := fun s => inl (Str.TrimSuffix (Str.TrimPrefix s quote) quote).
#[local] Instance relative_paths : UtilPaths := {|
  GetRelativeToBaseFilepath base path :=
    if bool_decide (base = "") then path
    else if bool_decide (base = path) then "." else Str.TrimPrefix path (base +:+ "/");
|}.

Definition in_app (path : string) : bool := Str.HasPrefix path "app/".
Definition renames : gmap string string := {["app/old.conf" := "new.conf"]}.

Definition hash : string := "0123456789abcdef0123456789abcdef01234567".
Definition index : string := hash +:+ ".." +:+ hash +:+ " 100644".

Definition diffs : list FileDiff :=
  [mkFileDiff "app/main.go" Modified index (Text ["@@ -1 +1 @@"; "-old"; "+new"]);
   mkFileDiff "doc/x.md" (Added "100644") index (Text ["@@ -0,0 +1 @@"; "+x"]);
   mkFileDiff "app/old.conf" (ModeChanged "100644" "100755") index Nothing;
   mkFileDiff "app/gone.go" (Deleted "100644") index (Text ["@@ -1 +0,0 @@"; "-x"]);
   mkFileDiff "app/logo.png" Modified index BinaryDiffer;
   mkFileDiff "app/icon.png" (Added "100644") index (BinaryPatch ["literal 3"; "Kcmb"])].

Lemma prefix_inner l : Str.HasPrefix l "diff --git " || Str.HasPrefix l "Submodule " = false -> inner l.
Proof. by intros [? ?]%orb_false_iff. Qed.

(** [wf] by evaluation. *)
Definition wfb (d : FileDiff) : bool :=
  negb (Str.mem " " (fd_path d)) && negb (Str.mem "034" (fd_path d)) &&
  forallb (fun l => negb (Str.mem "010" l)) (git_lines d) &&
  match fd_content d with
  | Text ls | BinaryPatch ls =>
      forallb (fun l => negb (Str.HasPrefix l "diff --git " || Str.HasPrefix l "Submodule ")) ls
  | _ => true
  end.

Lemma wfb_wf d : wfb d = true -> wf d.
Proof.
  unfold wfb. rewrite !andb_true_iff, !negb_true_iff. intros [[[Hs Hq] Hl] Hi].
  rewrite forallb_forall in Hl.
  split; [done|done| |].
  - intros l Hin. apply negb_true_iff, Hl. by apply list_elem_of_In.
  - destruct (fd_content d) as [|ls| |ls]; try done; rewrite forallb_forall in Hi;
      intros l Hin; apply prefix_inner, negb_true_iff, Hi; by apply list_elem_of_In.
Qed.


Definition stream : string := text (concat (git_lines <$> diffs)).

(** The stream in chunks of seventeen bytes. *)
Fixpoint chop (fuel : nat) (s : string) : list string :=
  match fuel with
  | 0 => [s]
  | S fuel => Str.take 17 s :: chop fuel (Str.drop 17 s)
  end.

Definition chunks : list string := chop 60 stream.

Example filtered_stream :
  let p := (for_each chunks (HandleStdout buffer_Write "app" in_app renames) (makeDiffParser "")).2 in
  Paths p = ["main.go"; "new.conf"; "gone.go"; "logo.png"; "icon.png"] /\
  BinaryPaths p = ["logo.png"; "icon.png"] /\ PathsToRemove p = ["gone.go"] /\
  Str.HasPrefix (Out p) (text ["diff --git a/main.go b/main.go"; "index 01234567..01234567 100644";
    "--- a/main.go"; "+++ b/main.go"; "@@ -1 +1 @@"; "-old"; "+new"; "diff --git a/new.conf b/new.conf";
    "old mode 100644"; "new mode 100755"; "diff --git a/gone.go b/gone.go"]) = true.
Proof. vm_compute. done. Qed.


(** The diff of a removed empty file. *)
Definition removed_empty : FileDiff := mkFileDiff "app/.keep" (Deleted "100644") index Nothing.

Lemma removed_without_text_kept_witness :
  exists p, HandleStdout buffer_Write "app" in_app renames (text (git_lines removed_empty)) (makeDiffParser "") =
      (Ok tt, p) /\ Paths p = [".keep"] /\ PathsToRemove p = [].
Proof.
  assert (newPath "app" renames (fd_path removed_empty) = ".keep") as <- by (vm_compute; reflexivity).
  apply (removed_without_text_kept "app" in_app renames removed_empty "100644"); [|reflexivity..|exact I].
  apply wfb_wf. reflexivity.
Defined.

(** ** Lines that are read in another way *)

Abbreviation run line st := (handleDiffLine buffer_Write "" (fun _ => true) ∅ line
  (set_state st (makeDiffParser ""))).

(** A directory whose name ends with " b": the header is cut in the wrong place. *)
Example directory_b :
  Paths (run "diff --git a/x b/y b/x b/y" unrecognized).2 = ["x"; "y b/x b/y"].
Proof. vm_compute. reflexivity. Qed.

(** A quoted path is unquoted in the header of a diff, but not in the lines that follow. *)
Example quoted_path :
  Out (run ("--- " +:+ quote +:+ "a/x\ty" +:+ quote) modifyFileDiff).2 =
  "--- a/--- " +:+ quote +:+ "a/x\ty" +:+ quote +:+ newline.
Proof. vm_compute. reflexivity. Qed.

(** Git writes a tab after a path with a space, and the renames are not found with it. *)
Example renamed_with_space :
  let p := (for_each ["diff --git a/a b b/a b"; "index 1..2 100644"; "--- a/a b" +:+ String "009" ""]
    (handleDiffLine buffer_Write "" (fun _ => true) {["a b" := "c"]}) (makeDiffParser "")).2 in
  Out p = text ["diff --git a/c b/c"; "index 1..2 100644"; "--- a/a b"].
Proof. vm_compute. reflexivity. Qed.

End DiffParserExamples.
