(* ===== verification/GitMapping.v ===== *)
(** pkg/build/stage/git_mapping.go and pkg/git_repo/virtual_merge.go: the part of a repository
    that an image takes, the commits it was built from as the labels of the image record them,
    and what changed since. A repository is a record of operations; files of patches are read
    through [Files]; hashes are parameters. The archives themselves, and the commands that
    unpack them, are not modelled. *)
From S2P Require Import Prelude Go GoStd Image.

(** The part of an image of the container backend that the stages read. A description may have
    no stage id: that of a base image, or of an image that was just built. *)
Record ImageDesc := mkImageDesc { idStageID : option Image.StageID; idInfo : Image.Info }.

Definition of_StageDesc (d : Image.StageDesc) : ImageDesc :=
  mkImageDesc (Some (Image.SDStageID d)) (Image.SDInfo d).

(** LegacyImageInterface, as far as this library goes. *)
Record LegacyImage := mkLegacyImage {
  img_Name : string;
  TargetPlatform : string;
  info : option Image.Info;
  stageDesc : option ImageDesc;
  finalStageDesc : option ImageDesc;
  builtID : string;
  buildServiceLabels : gmap string string;
}.

(** What a nil pointer does. *)
Definition deref {W A} (o : option A) : prog W A :=
  match o with Some a => mret a | None => panic "nil pointer dereference" end.

(** [img.GetStageDesc().Info.Labels]. *)
Definition image_labels {W} (img : LegacyImage) : prog W (gmap string string) :=
  d ← deref (stageDesc img); mret (Image.Labels (idInfo d)).

Module GitMapping.

(** * The interface of a repository *)

Record PathMatcherOptions := mkPathMatcherOptions {
  BasePath : string; IncludeGlobs : list string; ExcludeGlobs : list string;
}.

(** The matchers that are made here: one, or several of which all have to match. *)
Definition PathMatcher : Type := list PathMatcherOptions.

Record PatchOptions := mkPatchOptions {
  PathScope : string; Matcher : PathMatcher; FromCommit : string; ToCommit : string;
  FileRenames : gmap string string; WithEntireFileContext : bool; WithBinary : bool;
}.

Record Patch := mkPatch {
  GetFilePath : string; IsEmpty : bool; HasBinary : bool;
  GetPaths : list string; GetPathsToRemove : list string;
}.

Inductive ArchiveType := FileArchive | DirectoryArchive.

Record GitRepo (W : Type) := mkGitRepo {
  GetName : string;
  IsLocal : bool;
  IsCommitExists : string -> prog W bool;
  IsAncestor : string -> string -> prog W bool;
  TagCommit : string -> prog W string;
  LatestBranchCommit : string -> prog W string;
  HeadCommitHash : prog W string;
  GetMergeCommitParents : string -> prog W (list string);
  CreateDetachedMergeCommit : string -> string -> prog W string;
  IsCommitTreeEntryDirectory : string -> string -> prog W bool;
  IsAnyCommitTreeEntriesMatched : string -> string -> PathMatcher -> bool -> prog W bool;
  GetOrCreatePatch : PatchOptions -> prog W Patch;
  (** the scope, the matcher, whether all files, the commit *)
  GetOrCreateChecksum : string -> PathMatcher -> bool -> string -> prog W string;
}.
Arguments GetName {W} _. Arguments IsLocal {W} _. Arguments IsCommitExists {W} _ _.
Arguments IsAncestor {W} _ _ _. Arguments TagCommit {W} _ _. Arguments LatestBranchCommit {W} _ _.
Arguments HeadCommitHash {W} _. Arguments GetMergeCommitParents {W} _ _.
Arguments CreateDetachedMergeCommit {W} _ _ _. Arguments IsCommitTreeEntryDirectory {W} _ _ _.
Arguments IsAnyCommitTreeEntriesMatched {W} _ _ _ _ _. Arguments GetOrCreatePatch {W} _ _.
Arguments GetOrCreateChecksum {W} _ _ _ _ _.

(** Reading of the files of patches. *)
Record Files (W : Type) := mkFiles {
  ReadFile : string -> prog W string;
  FileSize : string -> prog W Z;
}.
Arguments ReadFile {W} _ _. Arguments FileSize {W} _ _.

(** * A git mapping; [gm_ptr] is the object's identity *)

Record GitMapping (W : Type) := mkGitMapping {
  gm_ptr : positive;
  Name : string;
  Branch : string;
  Tag : string;
  Commit : string;
  Add : string;
  To : string;
  Owner : string;
  Group : string;
  IncludePaths : list string;
  ExcludePaths : list string;
  StagesDependencies : gmap string (list string);
  gitRepo : GitRepo W;
}.
Arguments gm_ptr {W} _. Arguments Name {W} _. Arguments Branch {W} _. Arguments Tag {W} _.
Arguments Commit {W} _. Arguments Add {W} _. Arguments To {W} _. Arguments Owner {W} _.
Arguments Group {W} _. Arguments IncludePaths {W} _. Arguments ExcludePaths {W} _.
Arguments StagesDependencies {W} _. Arguments gitRepo {W} _.

Record ImageCommitInfo := mkImageCommitInfo {
  ici_Commit : string;
  VirtualMerge : bool;
  VirtualMergeFromCommit : string;
  VirtualMergeIntoCommit : string;
}.

#[export] Instance ImageCommitInfo_eq_dec : EqDecision ImageCommitInfo.
Proof. solve_decision. Defined.

(** [BaseCommitByPrevBuiltImageName] of every mapping: the world of the programs has it beside
    the world of the repositories. *)
Abbreviation BaseCommits := (gmap (positive * string) string).

Section mapping.
Context {W : Type} `{!GoQuote, !Hashes}.
Abbreviation prog := (prog (W * BaseCommits)).
Abbreviation GM := (GitMapping W).

Definition repo {A} (m : Go.prog W A) : prog A := fun w =>
  let '(r, w') := m w.1 in (r, (w', w.2)).

Variable gm : GM.
Abbreviation R := (gitRepo gm).

(** ** Identity *)

Definition GetFullName : string :=
  if bool_decide (Name gm <> "") then GetName R +:+ "_" +:+ Name gm else GetName R.

Definition paramParts : list string :=
  [GetFullName; ":::"; To gm; ":::"; Add gm; ":::"] ++ IncludePaths gm ++ [":::"] ++
  ExcludePaths gm ++ [":::"; Owner gm; ":::"; Group gm; ":::"; Branch gm; ":::"; Tag gm; ":::"; Commit gm].

(** All parts are written to the hash one after the other. *)
Definition GetParamshash : string := sha256_hex (foldr String.append "" paramParts).

Definition ImageGitCommitLabel : string := "werf-git-" +:+ GetParamshash +:+ "-commit".
Definition VirtualMergeLabel : string := "werf-git-" +:+ GetParamshash +:+ "-virtual-merge".
Definition VirtualMergeFromCommitLabel : string :=
  "werf-git-" +:+ GetParamshash +:+ "-virtual-merge-from-commit".
Definition VirtualMergeIntoCommitLabel : string :=
  "werf-git-" +:+ GetParamshash +:+ "-virtual-merge-into-commit".
Definition getArchiveTypeLabelName : string := "werf-git-" +:+ GetParamshash +:+ "-type".

Definition getPathMatcher : PathMatcher :=
  [mkPathMatcherOptions (Add gm) (IncludePaths gm) (ExcludePaths gm)].

(** ** The commits *)

Definition getCommit : prog string :=
  if bool_decide (Commit gm <> "") then
    exist ← wrap "unable to check commit %q existence in repository %s: %w"
      [FQ (Commit gm); FS (GetName R)] (repo (IsCommitExists R (Commit gm)));
    if (exist : bool) then mret (Commit gm)
    else fail (Errorf "commit %q not found in repository %s. Ensure it has not been squashed or rebased"
                 [FQ (Commit gm); FS (GetName R)])
  else if bool_decide (Tag gm <> "") then repo (TagCommit R (Tag gm))
  else if bool_decide (Branch gm <> "") then repo (LatestBranchCommit R (Branch gm))
  else repo (HeadCommitHash R).

(** The commit that is merged, and the one it is merged into. *)
Definition GetVirtualMergeParents (gitRepo : GitRepo W) (virtualMergeCommit : string)
  : prog (string * string) :=
  parents ← repo (GetMergeCommitParents gitRepo virtualMergeCommit);
  match parents with
  | [p0; p1] => mret (p1, p0)
  | _ => fail (Errorf "got unexpected parents: %v" [FS (Str.Join parents " ")])
  end.

(** [virtualMerge] is the option of the conveyor. *)
Definition GetLatestCommitInfo (virtualMerge : bool) : prog ImageCommitInfo :=
  commit ← getCommit;
  if IsLocal R && virtualMerge then
    fromInto ← wrap "unable to get virtual merge commit %q parents: %w" [FQ commit]
      (GetVirtualMergeParents R commit);
    if bool_decide (fromInto.1 = "") then
      fail (Errorf "unable to detect virtual-merge-from-commit for virtual merge commit %q" [FQ commit])
    else if bool_decide (fromInto.2 = "") then
      fail (Errorf "unable to detect virtual-merge-into-commit for virtual merge commit %q" [FQ commit])
    else mret (mkImageCommitInfo commit true fromInto.1 fromInto.2)
  else mret (mkImageCommitInfo commit false "" "").

(** The labels that [AddGitCommitToImageLabels] adds to the image. *)
Definition AddGitCommitToImageLabels (commitInfo : ImageCommitInfo) : gmap string string :=
  let addLabels := {[ImageGitCommitLabel := ici_Commit commitInfo]} in
  if VirtualMerge commitInfo then
    <[VirtualMergeIntoCommitLabel := VirtualMergeIntoCommit commitInfo]>
    (<[VirtualMergeFromCommitLabel := VirtualMergeFromCommit commitInfo]>
    (<[VirtualMergeLabel := "true"]> addLabels))
  else <[VirtualMergeLabel := "false"]> addLabels.

Definition makeInvalidImageError (label : string) : error :=
  Errorf "invalid image: not found commit id by label %q" [FQ label].

Definition GetBuiltImageCommitInfo (labels : gmap string string) : res ImageCommitInfo :=
  let commit (label : string) : res string :=
    match labels !! label with
    | Some commit => Ok commit
    | None => Err (makeInvalidImageError label)
    end in
  if bool_decide (Image.label labels VirtualMergeLabel = "true") then
    from ← commit VirtualMergeFromCommitLabel;
    into ← commit VirtualMergeIntoCommitLabel;
    c ← commit ImageGitCommitLabel;
    mret (mkImageCommitInfo c true from into)
  else
    c ← commit ImageGitCommitLabel;
    mret (mkImageCommitInfo c false "" "").

(** The commit from which a patch for the next stage starts. *)
Definition findBaseCommit (virtualMerge : bool) (prev : LegacyImage) : prog string :=
  labels ← image_labels prev;
  info ← wrap "error getting prev built image %s commits info: %w" [FS (img_Name prev)]
    (lift (GetBuiltImageCommitInfo labels));
  if VirtualMerge info then
    latestCommit ← getCommit;
    if IsLocal R && virtualMerge && bool_decide (latestCommit = ici_Commit info)
    then mret (ici_Commit info)
    else wrap "unable to create detached merge commit of %s into %s: %w"
           [FS (VirtualMergeFromCommit info); FS (VirtualMergeIntoCommit info)]
           (repo (CreateDetachedMergeCommit R (VirtualMergeFromCommit info)
                                              (VirtualMergeIntoCommit info)))
  else mret (ici_Commit info).

Definition rememberBaseCommit (prev : LegacyImage) (commit : string) : prog string := fun w =>
  (Ok commit, (w.1, <[(gm_ptr gm, img_Name prev) := commit]> w.2)).

(** It is found once for an image. *)
Definition GetBaseCommitForPrevBuiltImage (virtualMerge : bool) (prev : LegacyImage) : prog string :=
  fun w =>
  match w.2 !! (gm_ptr gm, img_Name prev) with
  | Some commit => (Ok commit, w)
  | None => (commit ← findBaseCommit virtualMerge prev; rememberBaseCommit prev commit) w
  end.

(** ** Patches *)

Definition isDirectory (f : string) (args : list farg) (commit : string) : prog bool :=
  wrap f args (repo (IsCommitTreeEntryDirectory R commit (Add gm))).

Definition notDetermined : string :=
  "unable to determine whether ls tree entry for path %q on commit %q is directory or not: %w".

(** [filepath.Dir] and [filepath.Base] of common paths. *)
Definition getPathScope (commit : string) : prog string :=
  isDir ← isDirectory notDetermined [FQ (Add gm); FQ commit] commit;
  mret (if (isDir : bool) then Add gm else Filepath.ToSlash (Filepath.Dir (Add gm))).

Definition getFileRenames (commit : string) : prog (gmap string string) :=
  isDir ← isDirectory notDetermined [FQ (Add gm); FQ commit] commit;
  mret (if (isDir : bool) then ∅
        else if bool_decide (Filepath.Base (Add gm) <> Filepath.Base (To gm))
             then {[Add gm := Filepath.Base (To gm)]} else ∅).

Definition makePatchOptions (fromCommit toCommit : string) (withEntireFileContext withBinary : bool)
  : prog PatchOptions :=
  fileRenames ← wrap "unable to make git patch options: %w" [] (getFileRenames toCommit);
  pathScope ← wrap "unable to make git patch options: %w" [] (getPathScope toCommit);
  mret (mkPatchOptions pathScope getPathMatcher fromCommit toCommit fileRenames
          withEntireFileContext withBinary).

Definition getArchiveType (commit : string) : prog ArchiveType :=
  isDir ← isDirectory "unable to determine git mapping archive type for commit %q: %w" [FQ commit] commit;
  mret (if (isDir : bool) then DirectoryArchive else FileArchive).

Section files.
Variable files : Files W.

Definition latestCommit (virtualMerge : bool) : prog string :=
  info ← wrap "unable to get latest commit info: %w" [] (GetLatestCommitInfo virtualMerge);
  mret (ici_Commit info).

Definition PatchSize (virtualMerge : bool) (fromCommit : string) : prog Z :=
  toCommit ← latestCommit virtualMerge;
  if bool_decide (fromCommit = toCommit) then mret 0%Z
  else
    patchOpts ← makePatchOptions fromCommit toCommit true true;
    patch ← repo (GetOrCreatePatch R patchOpts);
    wrap "unable to stat temporary patch file `%s`: %w" [FS (GetFilePath patch)]
      (repo (FileSize files (GetFilePath patch))).

Definition baseCommit (virtualMerge : bool) (prev : LegacyImage) : prog string :=
  wrap "unable to get base commit from built image for git mapping %s: %w" [FS GetFullName]
    (GetBaseCommitForPrevBuiltImage virtualMerge prev).

Definition GetPatchContent (virtualMerge : bool) (prev : LegacyImage) : prog string :=
  fromCommit ← baseCommit virtualMerge prev;
  toCommit ← latestCommit virtualMerge;
  if bool_decide (fromCommit = toCommit) then mret ""
  else
    patchOpts ← makePatchOptions fromCommit toCommit false false;
    patch ← repo (GetOrCreatePatch R patchOpts);
    wrap "error reading patch file %s: %w" [FS (GetFilePath patch)]
      (repo (ReadFile files (GetFilePath patch))).

Definition baseIsPatchEmpty (fromCommit toCommit : string) : prog bool :=
  if bool_decide (fromCommit = toCommit) then mret true
  else
    patchOpts ← makePatchOptions fromCommit toCommit false false;
    patch ← repo (GetOrCreatePatch R patchOpts);
    mret (IsEmpty patch).

Definition IsPatchEmpty (virtualMerge : bool) (prev : LegacyImage) : prog bool :=
  fromCommit ← baseCommit virtualMerge prev;
  toCommit ← latestCommit virtualMerge;
  baseIsPatchEmpty fromCommit toCommit.
End files.

(** The paths of a patch that are taken from the archive, and those that are removed. *)
Definition patchIncludePaths (patch : Patch) : list string :=
  filter (fun p => p ∉ GetPathsToRemove patch) (GetPaths patch).
Definition patchPathsToRemove (patch : Patch) : list string :=
  (fun p => Filepath.Join [To gm; p]) <$> GetPathsToRemove patch.

(** ** Dependencies of the stages *)

(** The checksums of the paths that the mapping has, one after the other. *)
Definition StageDependenciesChecksum (virtualMerge : bool) (stageName : string) : prog string :=
  match default [] (StagesDependencies gm !! stageName) with
  | [] => mret ""
  | depsPaths =>
      commit ← latestCommit virtualMerge;
      sum ← for_fold depsPaths "" (fun sum p =>
        checksum ← repo (GetOrCreateChecksum R (Add gm)
                          (getPathMatcher ++ [mkPathMatcherOptions (Add gm) [p] []]) false commit);
        mret (sum +:+ checksum));
      mret (sha256_hex sum)
  end.

Definition isEmpty (virtualMerge : bool) : prog bool :=
  commit ← latestCommit virtualMerge;
  pathScope ← wrap "unable to get path scope: %w" [] (getPathScope commit);
  isAny ← repo (IsAnyCommitTreeEntriesMatched R commit pathScope getPathMatcher true);
  mret (negb isAny).

End mapping.
End GitMapping.
