(* ===== verification/Stages.v ===== *)
(** pkg/build/stage: what all stages share (base.go), the choice of a stage among those with the
    same digest, the stages that depend on git (git.go, git_patch.go, git_archive.go,
    git_cache.go, git_latest_patch.go, user.go, user_with_git_patch.go), the stage with Docker
    instructions, and the mounts, which images keep as labels. How a stage's instructions are
    handed to a container backend is not modelled. *)
From S2P Require Import Prelude Go GoStd Image GitMapping.

Abbreviation StageDescSet := (gmap positive Image.StageDesc).

Module Stages.
Import GitMapping.

(** * Names *)

Definition From : string := "from".
Definition BeforeInstall : string := "beforeInstall".
Definition DependenciesBeforeInstall : string := "dependenciesBeforeInstall".
Definition GitArchive : string := "gitArchive".
Definition Install : string := "install".
Definition DependenciesAfterInstall : string := "dependenciesAfterInstall".
Definition BeforeSetup : string := "beforeSetup".
Definition DependenciesBeforeSetup : string := "dependenciesBeforeSetup".
Definition Setup : string := "setup".
Definition DependenciesAfterSetup : string := "dependenciesAfterSetup".
Definition GitCache : string := "gitCache".
Definition GitLatestPatch : string := "gitLatestPatch".
Definition DockerInstructions : string := "dockerInstructions".
Definition Dockerfile : string := "dockerfile".
Definition ImageSpec : string := "imageSpec".

Definition GetLegacyCompatibleStageName (name : string) : string :=
  if bool_decide (name = DependenciesBeforeInstall) then "importsBeforeInstall"
  else if bool_decide (name = DependenciesAfterInstall) then "importsAfterInstall"
  else if bool_decide (name = DependenciesBeforeSetup) then "importsBeforeSetup"
  else if bool_decide (name = DependenciesAfterSetup) then "importsAfterSetup"
  else name.

Definition AllStages : list string :=
  [From; BeforeInstall; DependenciesBeforeInstall; GitArchive; Install; DependenciesAfterInstall;
   BeforeSetup; DependenciesBeforeSetup; Setup; DependenciesAfterSetup; GitCache; GitLatestPatch;
   DockerInstructions; Dockerfile; ImageSpec].

Definition LogName (logName name : string) : string :=
  if bool_decide (logName <> "") then logName else name.

Definition LogDetailedName (imageName logName name : string) : string :=
  (if bool_decide (imageName = "") then "~" else imageName) +:+ "/" +:+ LogName logName name.

(** * Selection of a stage *)

Section selection.
Context {W : Type} `{!GoQuote, !Hashes, nondet : Nondet, sorting : SortSlice}.
Abbreviation prog := (prog (W * BaseCommits)).
Abbreviation Desc := (positive * Image.StageDesc)%type.

(** [tick] stands for the iteration of the set. *)
Definition sortStageDescSetByOldestCreationTs (tick : nat) (stageDescSet : StageDescSet) : list Desc :=
  sort_Slice (fun i j : Desc => (Image.CreationTsToTime (Image.SDStageID i.2) <?
                                 Image.CreationTsToTime (Image.SDStageID j.2))%Z)
    (shuffle tick (map_to_list stageDescSet)).

Definition selectStageDescByOldestCreationTs (tick : nat) (stageDescSet : StageDescSet) : option Desc :=
  head (sortStageDescSetByOldestCreationTs tick stageDescSet).

Variable gitMappings : list (GitMapping W).
(** the option of the conveyor *)
Variable virtualMerge : bool.

(** The commit whose place in the history counts. *)
Definition ancestryCommit (info : ImageCommitInfo) : string :=
  if VirtualMerge info then VirtualMergeFromCommit info else ici_Commit info.

Definition currentCommits : prog (list (GitMapping W * string)) :=
  for_fold gitMappings [] (fun commits gm =>
    info ← wrap "error getting latest commit of git mapping %s: %w" [FS (Name gm)]
      (GetLatestCommitInfo gm virtualMerge);
    mret (commits ++ [(gm, ancestryCommit info)])).

(** Whether the stage was built from an ancestor of the current commit, for one mapping. *)
Definition isAncestorStage (stageDesc : Image.StageDesc) (x : GitMapping W * string) : prog bool :=
  let '(gm, currentCommit) := x in
  r ← try (lift (GetBuiltImageCommitInfo gm (Image.Labels (Image.SDInfo stageDesc))));
  match r with
  | inr _ => mret false
  | inl imageCommitInfo =>
      let commit := ancestryCommit imageCommitInfo in
      exist ← wrap "error checking if commit %s exists: %w" [FS commit]
        (repo (IsCommitExists (gitRepo gm) commit));
      if negb exist then mret false
      else wrap "error checking commits ancestry %s<-%s: %w" [FS commit; FS currentCommit]
             (repo (IsAncestor (gitRepo gm) commit currentCommit))
  end.

(** The first mapping for which it was not ends the check. *)
Fixpoint isAncestorForAll (stageDesc : Image.StageDesc) (l : list (GitMapping W * string)) : prog bool :=
  match l with
  | [] => mret true
  | x :: l' =>
      ok ← isAncestorStage stageDesc x;
      if (ok : bool) then isAncestorForAll stageDesc l' else mret false
  end.

Fixpoint ScanImages (commits : list (GitMapping W * string)) (l : list Desc) : prog (option Desc) :=
  match l with
  | [] => mret None
  | d :: l' =>
      ok ← isAncestorForAll d.2 commits;
      if (ok : bool) then mret (Some d) else ScanImages commits l'
  end.

Definition selectAncestorStageDescByGitMappings (tick : nat) (stageDescSet : StageDescSet)
  : prog (option Desc) :=
  commits ← currentCommits;
  ScanImages commits (sortStageDescSetByOldestCreationTs tick stageDescSet).

(** BaseStage, GitStage and UserWithGitPatchStage. *)
Definition base_SelectSuitableStageDesc (tick : nat) (set : StageDescSet) : prog (option Desc) :=
  mret (selectStageDescByOldestCreationTs tick set).

Definition isDefined : bool := negb (length gitMappings =? 0).

Definition git_SelectSuitableStageDesc : nat -> StageDescSet -> prog (option Desc) :=
  selectAncestorStageDescByGitMappings.

Definition user_SelectSuitableStageDesc (tick : nat) (set : StageDescSet) : prog (option Desc) :=
  if isDefined then git_SelectSuitableStageDesc tick set
  else base_SelectSuitableStageDesc tick set.

(** * Dependencies of the stages with git *)

(** Of the next stage: the commits of the built image, or the latest ones. *)
Definition getNextStageGitDependencies (stageImage : option LegacyImage) : prog string :=
  args ← for_fold gitMappings [] (fun args gm =>
    info ← (match stageImage with
            | Some img =>
                match stageDesc img with
                | Some d =>
                    wrap "unable to get built image commit info from image %s: %w" [FS (img_Name img)]
                      (lift (GetBuiltImageCommitInfo gm (Image.Labels (idInfo d))))
                | None =>
                    wrap "unable to get latest commit of git mapping %s: %w" [FS (Name gm)]
                      (GetLatestCommitInfo gm virtualMerge)
                end
            | None =>
                wrap "unable to get latest commit of git mapping %s: %w" [FS (Name gm)]
                  (GetLatestCommitInfo gm virtualMerge)
            end);
    mret (args ++ [ici_Commit info]));
  mret (Sha256Hash (Sort.Strings args)).

Definition getStageDependenciesChecksum (name : string) : prog string :=
  args ← for_fold gitMappings [] (fun args gm =>
    checksum ← StageDependenciesChecksum gm virtualMerge name;
    mret (args ++ [checksum]));
  mret (Sha256Hash args).

(** Install, beforeSetup and setup; [builderChecksum] is the builder's checksum of the stage. *)
Definition user_GetDependencies (builderChecksum : string) (name : string) : prog string :=
  stageDependenciesChecksum ← getStageDependenciesChecksum name;
  mret (Sha256Hash [builderChecksum; stageDependenciesChecksum]).

Section archive.
(** [InspectBuildContextFiles] of the giterminism inspector *)
Variable InspectBuildContextFiles : PathMatcher -> Go.prog W unit.

Definition gitArchive_GetDependencies : prog string :=
  args ← for_fold gitMappings [] (fun args gm =>
    (if IsLocal (gitRepo gm) then repo (InspectBuildContextFiles (getPathMatcher gm)) else mret tt) ;;
    mret (args ++ [GetParamshash gm]));
  mret (Sha256Hash (Sort.Strings args)).
End archive.

Definition gitArchive_IsEmpty : prog bool :=
  for_each gitMappings (fun gm =>
    empty ← wrap "error checking git mapping emptiness: %w" [] (GitMapping.isEmpty gm virtualMerge);
    if (empty : bool)
    then fail (Errorf ("%sgit.add: /%s%s in werf.yaml matches no files. git.add requires at least " +:+
                       "one file matched by it. Fix and retry")
                 [FS (String "034" ""); FS (Add gm); FS (String "034" "")])
    else mret tt) ;;
  mret (negb isDefined).

(** [prevBuiltImage.Image] of a stage that has a previous one. *)
Definition baseCommitOf (gm : GitMapping W) (prev : option LegacyImage) : prog string :=
  img ← deref prev;
  wrap "unable to get base commit for git mapping %s: %w" [FS (GetName (gitRepo gm))]
    (GetBaseCommitForPrevBuiltImage gm virtualMerge img).

Fixpoint hasActualGitMappings (l : list (GitMapping W)) (prev : option LegacyImage) : prog bool :=
  match l with
  | [] => mret true
  | gm :: l' =>
      commit ← baseCommitOf gm prev;
      info ← wrap "unable to get latest commit for git mapping %s: %w" [FS (GetName (gitRepo gm))]
        (GetLatestCommitInfo gm virtualMerge);
      if bool_decide (commit <> ici_Commit info) then mret false else hasActualGitMappings l' prev
  end.

Definition hasPrevBuiltStageHadActualGitMappings (prev : option LegacyImage) : prog bool :=
  hasActualGitMappings gitMappings prev.

Definition gitPatch_IsEmpty (prev : option LegacyImage) : prog bool :=
  if negb isDefined then mret true else hasPrevBuiltStageHadActualGitMappings prev.

Section files.
Variable files : Files W.

(** The first mapping with a patch ends the loop. *)
Fixpoint allPatchesEmpty (l : list (GitMapping W)) (prev : option LegacyImage) : prog bool :=
  match l with
  | [] => mret true
  | gm :: l' =>
      commit ← baseCommitOf gm prev;
      exist ← wrap "unable to check existence of commit %q in the repo %s: %w"
        [FQ commit; FS (GetName (gitRepo gm))] (repo (IsCommitExists (gitRepo gm) commit));
      if negb exist
      then fail (Errorf "commit %q is not exist in the repo %s" [FQ commit; FS (GetName (gitRepo gm))])
      else
        img ← deref prev;
        empty ← IsPatchEmpty gm virtualMerge img;
        if (empty : bool) then allPatchesEmpty l' prev else mret false
  end.

Definition gitLatestPatch_IsEmpty (prev : option LegacyImage) : prog bool :=
  empty ← gitPatch_IsEmpty prev;
  if (empty : bool) then mret true else allPatchesEmpty gitMappings prev.

Definition gitLatestPatch_GetDependencies (prev : option LegacyImage) : prog string :=
  args ← for_fold gitMappings [] (fun args gm =>
    img ← deref prev;
    patchContent ← wrap ("error getting patch between previous built image %s and current commit " +:+
                         "for git mapping %s: %w") [FS (img_Name img); FS (Name gm)]
      (GetPatchContent gm files virtualMerge img);
    mret (args ++ [patchContent]));
  mret (Sha256Hash args).

Definition patchSizeStep : Z := 1024 * 1024.

(** The sizes of the patches; nothing if a commit does not exist any more. *)
Fixpoint patchesSize (l : list (GitMapping W)) (prev : option LegacyImage) (size : Z) : prog Z :=
  match l with
  | [] => mret size
  | gm :: l' =>
      commit ← baseCommitOf gm prev;
      exist ← repo (IsCommitExists (gitRepo gm) commit);
      if (exist : bool) then
        patchSize ← PatchSize gm files virtualMerge commit;
        patchesSize l' prev (wrap64 (size + patchSize))
      else mret 0%Z
  end.

Definition gitMappingsPatchSize (prev : option LegacyImage) : prog Z := patchesSize gitMappings prev 0.

Definition gitCache_IsEmpty (prev : option LegacyImage) : prog bool :=
  empty ← gitPatch_IsEmpty prev;
  if (empty : bool) then mret true
  else
    patchSize ← gitMappingsPatchSize prev;
    mret (patchSize <? patchSizeStep)%Z.

Definition gitCache_GetDependencies (prev : option LegacyImage) : prog string :=
  patchSize ← gitMappingsPatchSize prev;
  mret (Sha256Hash [itoa (Z.quot patchSize patchSizeStep)]).
End files.
End selection.

(** * Docker instructions *)

Record Docker := mkDocker {
  ExactValues : bool;
  d_Volume : list string; d_Expose : list string;
  d_Env : gmap string string; d_Label : gmap string string;
  d_Cmd : string; d_Entrypoint : string; d_Workdir : string; d_User : string; d_HealthCheck : string;
}.

Section docker.
Context `{nondet : Nondet, !Hashes}.

(** Every key is followed by its value. *)
Definition mapToSortedArgs (h : gmap string string) : list string :=
  key ← Sort.Strings (map_to_list h).*1; [key; Image.label h key].

Definition dockerArgs (i : Docker) : list string :=
  (if ExactValues i then ["exact-values:::"] else []) ++ d_Volume i ++ d_Expose i ++
  mapToSortedArgs (d_Env i) ++ mapToSortedArgs (d_Label i) ++
  [d_Cmd i; d_Entrypoint i; d_Workdir i; d_User i; d_HealthCheck i].

Definition docker_GetDependencies (i : Docker) : string := Sha256Hash (dockerArgs i).
End docker.

(** * Mounts *)

Record Mount := mkMount { mt_From : string; mt_To : string; mt_Type : string }.

Definition WerfMountTmpDirLabel : string := "werf-mount-type-tmp-dir".
Definition WerfMountBuildDirLabel : string := "werf-mount-type-build-dir".
Definition WerfMountCustomDirLabelPrefix : string := "werf-mount-type-custom-dir-".

Abbreviation Mounts := (gmap string (list string)).

Section mounts.
Context `{!UtilStrings}.

Definition mountpointsOf (v : string) : list string :=
  RejectEmptyStrings (UniqStrings (Str.Split v ";")).

Definition mergeMounts (a b : Mounts) : Mounts :=
  merge (fun x y => match x, y with
                    | x, None => x
                    | x, Some mountpoints => Some (UniqStrings (default [] x ++ mountpoints))
                    end) a b.

Definition getServiceMountsFromLabels (labels : gmap string string) : Mounts :=
  foldl (fun m lt =>
    match labels !! lt.1 with
    | Some v => <[lt.2 := mountpointsOf v]> m
    | None => m
    end) ∅ [(WerfMountTmpDirLabel, "tmp_dir"); (WerfMountBuildDirLabel, "build_dir")].

Definition getServiceMountsFromConfig (configMounts : list Mount) : Mounts :=
  foldl (fun m mountCfg =>
    if bool_decide (mt_Type mountCfg ∈ ["tmp_dir"; "build_dir"])
    then <[mt_Type mountCfg := default [] (m !! mt_Type mountCfg) ++ [Filepath.Clean (mt_To mountCfg)]]> m
    else m) ∅ configMounts.

Definition getServiceMounts (labels : gmap string string) (configMounts : list Mount) : Mounts :=
  mergeMounts (getServiceMountsFromLabels labels) (getServiceMountsFromConfig configMounts).

(** The labels that are added for service mounts. *)
Definition serviceMountLabel (mountType : string) : res string :=
  if bool_decide (mountType = "tmp_dir") then Ok WerfMountTmpDirLabel
  else if bool_decide (mountType = "build_dir") then Ok WerfMountBuildDirLabel
  else Panic "unknown mount type".

(** The directory of a custom mount, from its label and back. *)
Definition customMountLabel (from : string) : string :=
  WerfMountCustomDirLabelPrefix +:+ Str.ReplaceAll (Filepath.ToSlash from) "/" "--".

Definition customMountOf (label : string) : option string :=
  if Str.HasPrefix label WerfMountCustomDirLabelPrefix then
    match Str.SplitN label WerfMountCustomDirLabelPrefix 2 with
    | [_; p] => Some (Filepath.FromSlash (Str.ReplaceAll p "--" "/"))
    | _ => None
    end
  else None.

(** Which label comes last, where two give the same directory, is not specified: [order] is the
    iteration of the labels. *)
Definition getCustomMountsFromLabels (order : list (string * string)) : Mounts :=
  foldl (fun m (kv : string * string) =>
    match customMountOf kv.1 with
    | Some from => <[from := mountpointsOf kv.2]> m
    | None => m
    end) ∅ order.

Definition getCustomMountsFromConfig (configMounts : list Mount) : Mounts :=
  foldl (fun m mountCfg =>
    if bool_decide (mt_Type mountCfg <> "custom_dir") then m
    else
      let from := Filepath.Clean (mt_From mountCfg) in
      <[from := UniqAppendString (default [] (m !! from)) (Filepath.Clean (mt_To mountCfg))]> m)
    ∅ configMounts.

Definition getCustomMounts (order : list (string * string)) (configMounts : list Mount) : Mounts :=
  mergeMounts (getCustomMountsFromLabels order) (getCustomMountsFromConfig configMounts).

Definition addCustomMountLabels (mountpointsByFrom : Mounts) : list (string * string) :=
  (fun x : string * list string => (customMountLabel x.1, Str.Join x.2 ";")) <$>
    map_to_list mountpointsByFrom.
End mounts.

End Stages.
