(* ===== verification/StagesProps.v ===== *)
(** What the stages promise: the commits that an image records are read back; the stage that is
    chosen is the oldest one built from an ancestor; the directory of a custom mount is read back
    from its label unless its name has some dashes; and which different settings have one digest. *)
From S2P Require Import Prelude Go Image GitRefsExamples GoStd GitMapping Stages.
Module StagesFacts.
Import GitMapping Stages.

(** ** Times *)

Lemma CreationTsToTime_lt a b :
  (Image.CreationTsToTime a < Image.CreationTsToTime b <-> Image.CreationTs a < Image.CreationTs b)%Z.
Proof.
  unfold Image.CreationTsToTime. generalize (Image.CreationTs a), (Image.CreationTs b). intros x y.
  Z.to_euclidean_division_equations. lia.
Qed.

(** ** Labels of commits *)

Section labels.
Context {W : Type} `{!GoQuote, !Hashes}.
Variable gm : GitMapping W.

Lemma label_ne s t : s <> t -> "werf-git-" +:+ GetParamshash gm +:+ s <> "werf-git-" +:+ GetParamshash gm +:+ t.
Proof using Type. intros Hn Heq. apply Hn. by apply Str.app_inv_l, Str.app_inv_l in Heq. Qed.

Lemma labels_distinct :
  ImageGitCommitLabel gm <> VirtualMergeLabel gm /\
  ImageGitCommitLabel gm <> VirtualMergeFromCommitLabel gm /\
  ImageGitCommitLabel gm <> VirtualMergeIntoCommitLabel gm /\
  VirtualMergeLabel gm <> VirtualMergeFromCommitLabel gm /\
  VirtualMergeLabel gm <> VirtualMergeIntoCommitLabel gm /\
  VirtualMergeFromCommitLabel gm <> VirtualMergeIntoCommitLabel gm.
Proof using Type. repeat split; apply label_ne; discriminate. Qed.

Lemma GetBuiltImageCommitInfo_total labels :
  (exists info, GetBuiltImageCommitInfo gm labels = Ok info) \/
  (exists e, GetBuiltImageCommitInfo gm labels = Err e).
Proof using Type.
  unfold GetBuiltImageCommitInfo, mbind, res_bind, mret, res_ret.
  destruct (bool_decide _); repeat (destruct (labels !! _)); eauto.
Qed.
End labels.

(** ** Replacing *)

Lemma cut_prefix sep b : Str.cut sep (sep +:+ b) = Some ("", b).
Proof.
  assert (forall s, Str.cut sep s = if String.prefix sep s then Some ("", Str.drop (Str.len sep) s)
    else match s with
         | "" => None
         | String c s' => match Str.cut sep s' with Some (x, y) => Some (String c x, y) | None => None end
         end) as Hc by by destruct s.
  by rewrite Hc, Str.prefix_app, Str.drop_app.
Qed.

Lemma Replace_prefix old new b n : Str.Replace (old +:+ b) old new (S n) = new +:+ Str.Replace b old new n.
Proof. cbn [Str.Replace]. by rewrite cut_prefix. Qed.

Lemma Replace_skip c s old new n :
  String.prefix old (String c s) = false ->
  Str.Replace (String c s) old new n = String c (Str.Replace s old new n).
Proof.
  intros Hp. destruct n as [|n]; [done|]. cbn [Str.Replace Str.cut]. rewrite Hp.
  by destruct (Str.cut old s) as [[a b]|].
Qed.

(** Slashes as two dashes, and back. *)
Fixpoint dashed (s : string) : string :=
  match s with
  | "" => ""
  | String "/"%char s' => "--" +:+ dashed s'
  | String c s' => String c (dashed s')
  end.

Fixpoint undashed (s : string) : string :=
  match s with
  | String "-"%char (String "-"%char s') => String "/" (undashed s')
  | String c s' => String c (undashed s')
  | "" => ""
  end.

Lemma Replace_dashed s n : Str.len s <= n -> Str.Replace s "/" "--" n = dashed s.
Proof.
  revert n. induction s as [|c s IH]; intros n Hn; [by destruct n|]. simpl in Hn.
  destruct n as [|n]; [lia|]. destruct (decide (c = "/"%char)) as [->|Hc].
  - change (String "/" s) with ("/" +:+ s). rewrite Replace_prefix, IH by lia. done.
  - rewrite Replace_skip.
    + rewrite IH by lia. destruct c as [[] [] [] [] [] [] [] []]; try reflexivity; by destruct Hc.
    + cbn [String.prefix]. destruct (Ascii.ascii_dec "/" c) as [E|]; [congruence|done].
Qed.

Lemma undashed_skip c s :
  String.prefix "--" (String c s) = false -> undashed (String c s) = String c (undashed s).
Proof.
  intros Hp. destruct (decide (c = "-"%char)) as [->|Hc].
  - destruct s as [|d s]; [done|]. destruct (decide (d = "-"%char)) as [->|Hd]; [by destruct s|].
    destruct d as [[] [] [] [] [] [] [] []]; try done; by destruct Hd.
  - destruct c as [[] [] [] [] [] [] [] []]; try done; by destruct Hc.
Qed.

Lemma Replace_undashed s n : Str.len s <= n -> Str.Replace s "--" "/" n = undashed s.
Proof.
  remember (Str.len s) as k eqn:Ek. revert s n Ek.
  induction k as [k IH] using (well_founded_induction lt_wf). intros s n -> Hn.
  destruct s as [|c s]; [by destruct n|]. simpl in Hn. destruct n as [|n]; [lia|].
  destruct (String.prefix "--" (String c s)) eqn:Ep.
  - apply Str.prefix_spec in Ep as [t Et]. rewrite Et, Replace_prefix.
    injection Et as -> ->. simpl in *. rewrite (IH (Str.len t)); [done|lia|done|unfold Str.len in *; simpl in *; lia].
  - rewrite Replace_skip, undashed_skip by done. f_equal.
    apply (IH (Str.len s)); [simpl; lia|done|unfold Str.len in *; lia].
Qed.

(** No dash is followed by a dash or a slash. *)
Fixpoint dash_ok (s : string) : bool :=
  match s with
  | "" => true
  | String c s' =>
      negb (bool_decide (c = "-"%char) &&
            match s' with String d _ => bool_decide (d = "-"%char) || bool_decide (d = "/"%char) | "" => false end)
      && dash_ok s'
  end.

Lemma undashed_dashed s : undashed (dashed s) = s <-> dash_ok s = true.
Proof.
  assert (forall c (x y : string), String c x = String c y <-> x = y) as Hinj
    by (intros; split; [by intros [= ->]|by intros ->]).
  induction s as [|c s IH]; [done|].
  cbn [dash_ok]. rewrite andb_true_iff, <-IH.
  destruct (decide (c = "/"%char)) as [->|Hslash]; [simpl; rewrite Hinj; tauto|].
  assert (dashed (String c s) = String c (dashed s)) as ->
    by (destruct c as [[] [] [] [] [] [] [] []]; try done; by destruct Hslash).
  destruct (decide (c = "-"%char)) as [->|Hdash].
  - destruct s as [|d s]; [simpl; tauto|].
    destruct (decide (d = "-"%char)) as [->|Hd]; [simpl; split; [discriminate|by intros []]|].
    destruct (decide (d = "/"%char)) as [->|Hd']; [simpl; split; [discriminate|by intros []]|].
    assert (dashed (String d s) = String d (dashed s)) as E
      by (destruct d as [[] [] [] [] [] [] [] []]; try done; by destruct Hd').
    rewrite undashed_skip, Hinj.
    + rewrite (bool_decide_eq_false_2 (d = _)), (bool_decide_eq_false_2 (d = _)) by done. simpl. tauto.
    + rewrite E. cbn [String.prefix]. destruct (Ascii.ascii_dec "-" "-"); [|done].
      destruct (Ascii.ascii_dec "-" d) as [Ed|]; [congruence|done].
  - rewrite undashed_skip, Hinj.
    + rewrite (bool_decide_eq_false_2 (c = _)) by done. simpl. tauto.
    + cbn [String.prefix]. destruct (Ascii.ascii_dec "-" c) as [Ec|]; [congruence|done].
Qed.

(** ** The oldest first *)

Section sorted.
Context `{nondet : Nondet, sorting : SortSlice}.
Abbreviation Desc := (positive * Image.StageDesc)%type.

Definition older (d d' : Desc) : Prop :=
  (Image.CreationTs (Image.SDStageID d.2) <= Image.CreationTs (Image.SDStageID d'.2))%Z.

Lemma sorted_elem tick set (d : Desc) :
  d ∈ sortStageDescSetByOldestCreationTs tick set <-> (set : StageDescSet) !! d.1 = Some d.2.
Proof.
  unfold sortStageDescSetByOldestCreationTs. rewrite sort_perm, shuffle_perm.
  destruct d. apply elem_of_map_to_list.
Qed.

Lemma sorted_oldest tick set : StronglySorted older (sortStageDescSetByOldestCreationTs tick set).
Proof.
  unfold sortStageDescSetByOldestCreationTs.
  set (less := fun i j : Desc => (Image.CreationTsToTime (Image.SDStageID i.2) <?
    Image.CreationTsToTime (Image.SDStageID j.2))%Z).
  rewrite <-(list_fmap_id (sort_Slice _ _)).
  apply (StronglySorted_fmap id (fun x y => less y x = false)).
  - intros x y Hl. unfold older, id. apply Z.ltb_ge in Hl. apply Z.nlt_ge. rewrite <-CreationTsToTime_lt. lia.
  - apply sort_sorted; unfold less; intros; rewrite ?Z.ltb_lt, ?Z.ltb_ge in *; lia.
Qed.
End sorted.

End StagesFacts.

Module StagesProps.
Import GitMapping Stages StagesFacts.

Section selection.
Context {W : Type} `{!GoQuote, !Hashes, nondet : Nondet, sorting : SortSlice}.
Variable gitMappings : list (GitMapping W).
Variable virtualMerge : bool.
Abbreviation Desc := (positive * Image.StageDesc)%type.
(** What the repositories answer. *)
Variable has : GitMapping W -> string -> bool.
Variable ancestor : GitMapping W -> string -> string -> bool.
Hypothesis has_spec : forall gm c w, gm ∈ gitMappings ->
  IsCommitExists (gitRepo gm) c w = (Ok (has gm c), w).
Hypothesis ancestor_spec : forall gm c c' w, gm ∈ gitMappings ->
  IsAncestor (gitRepo gm) c c' w = (Ok (ancestor gm c c'), w).

(** The stage was built, for every mapping, from a commit that exists and is an ancestor of the
    current one. *)
Definition built_from_ancestors (commits : list (GitMapping W * string)) (d : Image.StageDesc) : Prop :=
  forall gm current, (gm, current) ∈ commits -> exists info,
    GetBuiltImageCommitInfo gm (Image.Labels (Image.SDInfo d)) = Ok info /\
    has gm (ancestryCommit info) = true /\ ancestor gm (ancestryCommit info) current = true.

Lemma isAncestorForAll_spec (d : Image.StageDesc) (commits : list (GitMapping W * string)) (w : W * BaseCommits) :
  (forall x, x ∈ commits -> x.1 ∈ gitMappings) ->
  exists b, isAncestorForAll d commits w = (Ok b, w) /\ (b = true <-> built_from_ancestors commits d).
Proof using has_spec ancestor_spec.
  unfold built_from_ancestors. intros Hall. induction commits as [|[gm current] commits IH].
  { exists true. split; [done|]. split; [intros _ gm c Hin; by apply elem_of_nil in Hin|done]. }
  destruct IH as (b & Hb & IH); [intros; apply Hall; by right|].
  assert (gm ∈ gitMappings) as Hgm by (apply (Hall (gm, current)); left).
  assert (exists b1, isAncestorStage d (gm, current) w = (Ok b1, w) /\ (b1 = true <-> exists info,
    GetBuiltImageCommitInfo gm (Image.Labels (Image.SDInfo d)) = Ok info /\
    has gm (ancestryCommit info) = true /\ ancestor gm (ancestryCommit info) current = true))
    as (b1 & Hb1 & H1).
  { unfold isAncestorStage, mbind, prog_bind, try, lift, wrap, repo.
    destruct (GetBuiltImageCommitInfo_total gm (Image.Labels (Image.SDInfo d))) as [[info Hi]|[e Hi]];
      rewrite Hi; [|exists false; split; [done|split; [done|by intros (? & ? & _)]]].
    rewrite has_spec by done. destruct (has gm (ancestryCommit info)) eqn:Eh; simpl.
    - rewrite ancestor_spec by done. destruct w. eexists. split; [done|]. split; [eauto|].
      by intros (i & [= <-] & _ & ?).
    - exists false. destruct w. split; [done|]. split; [done|]. intros (i & [= <-] & Hh & _). congruence. }
  exists (b1 && b). split.
  { cbn [isAncestorForAll]. unfold mbind, prog_bind. rewrite Hb1. by destruct b1. }
  rewrite andb_true_iff, H1, IH. split.
  - intros [Hx Hl] gm' c [[= -> ->]|Hin]%elem_of_cons; [done|by apply Hl].
  - intros Hl. split; [apply Hl; by left|]. intros gm' c Hin. apply Hl. by right.
Qed.

Lemma ScanImages_spec (commits : list (GitMapping W * string)) (l : list Desc) (w : W * BaseCommits) :
  (forall x, x ∈ commits -> x.1 ∈ gitMappings) ->
  exists r, ScanImages commits l w = (Ok r, w) /\
    match r with
    | Some d => exists before after, l = before ++ d :: after /\ built_from_ancestors commits d.2 /\
        forall d', d' ∈ before -> ~ built_from_ancestors commits d'.2
    | None => forall d, d ∈ l -> ~ built_from_ancestors commits d.2
    end.
Proof using has_spec ancestor_spec.
  intros Hin. induction l as [|d l IH]; [exists None; split; [done|]; intros d Hd; by apply elem_of_nil in Hd|].
  destruct (isAncestorForAll_spec d.2 commits w Hin) as (b & Hb & Hs).
  cbn [ScanImages]. unfold mbind, prog_bind. rewrite Hb. destruct b.
  - exists (Some d). split; [done|]. exists [], l. split; [done|]. split; [by apply Hs|].
    intros d' Hd. by apply elem_of_nil in Hd.
  - assert (~ built_from_ancestors commits d.2) as Hn by (intros Hq; by apply Hs in Hq).
    destruct IH as (r & Hr & IH). exists r. split; [done|]. destruct r as [x|].
    + destruct IH as (before & after & -> & Hx & Hb'). exists (d :: before), after.
      split; [done|]. split; [done|]. intros d' [->|Hd]%elem_of_cons; auto.
    + intros d' [->|Hd]%elem_of_cons; auto.
Qed.

Lemma currentCommits_mappings w commits w' :
  currentCommits gitMappings virtualMerge w = (Ok commits, w') ->
  forall x, x ∈ commits -> x.1 ∈ gitMappings.
Proof using.
  unfold currentCommits. intros Hc.
  assert (wlp (for_fold gitMappings [] (fun commits gm =>
    info ← wrap "error getting latest commit of git mapping %s: %w" [FS (Name gm)]
      (GetLatestCommitInfo gm virtualMerge);
    mret (commits ++ [(gm, ancestryCommit info)]))) w
    (fun (l : list (GitMapping W * string)) _ => forall x, x ∈ l -> x.1 ∈ gitMappings)) as Hl.
  { apply (wlp_for_fold (fun _ (l : list (GitMapping W * string)) _ => forall x, x ∈ l -> x.1 ∈ gitMappings)).
    - intros dn gm l w1 Hgm Hl. apply wlp_bind, wlp_alt. intros info w2 _. apply wlp_ret.
      intros x [Hx|[->|Hx%elem_of_nil]%elem_of_cons]%elem_of_app; [by apply Hl|done|done].
    - intros x Hx%elem_of_nil. done. }
  rewrite wlp_alt in Hl. exact (Hl _ _ Hc).
Qed.

(** C12: a stage with git is chosen as it is promised: where the repositories answer, the choice
    never fails, it is a stage of the set built from ancestors of the current commits, no stage
    that was built from ancestors is older, and none is chosen only if there is none. *)
Theorem ancestor_selection (tick : nat) (set : StageDescSet) (commits : list (GitMapping W * string)) (w w' : W * BaseCommits) :
  currentCommits gitMappings virtualMerge w = (Ok commits, w') ->
  exists r, selectAncestorStageDescByGitMappings gitMappings virtualMerge tick set w = (Ok r, w') /\
    match r with
    | Some d => set !! d.1 = Some d.2 /\ built_from_ancestors commits d.2 /\
        forall p d', set !! p = Some d' -> built_from_ancestors commits d' ->
          (Image.CreationTs (Image.SDStageID d.2) <= Image.CreationTs (Image.SDStageID d'))%Z
    | None => forall p d, set !! p = Some d -> ~ built_from_ancestors commits d
    end.
Proof using has_spec ancestor_spec.
  intros Hc. unfold selectAncestorStageDescByGitMappings, mbind, prog_bind. rewrite Hc.
  destruct (ScanImages_spec commits (sortStageDescSetByOldestCreationTs tick set) w'
    (currentCommits_mappings _ _ _ Hc)) as (r & -> & Hr).
  exists r. split; [done|]. pose proof (sorted_oldest tick set) as Hs. destruct r as [d|].
  - destruct Hr as (before & after & El & Hq & Hb). rewrite El in Hs.
    split; [apply (sorted_elem tick); rewrite El; set_solver|]. split; [done|].
    intros p d' Hp Hq'. apply (sorted_elem tick set (p, d')) in Hp. rewrite El in Hp.
    apply elem_of_app in Hp as [Hp|[Hp|Hp]%elem_of_cons]; [by apply Hb in Hp|by subst d|].
    apply StronglySorted_app_1_r in Hs. apply StronglySorted_cons in Hs as [Hf _].
    rewrite Forall_forall in Hf. by apply (Hf _ Hp).
  - intros p d Hp. apply (sorted_elem tick set (p, d)) in Hp. by apply (Hr _ Hp).
Qed.
End selection.

Section commits.
Context {W : Type} `{!GoQuote, !Hashes}.
Variable gm : GitMapping W.

(** The commits with which an image is labelled are the ones that are read from it, whatever
    other labels it has and whatever the hash of the mapping is. *)
Theorem commit_labels_roundtrip (info : ImageCommitInfo) (labels : gmap string string) :
  (VirtualMerge info = false -> VirtualMergeFromCommit info = "" /\ VirtualMergeIntoCommit info = "") ->
  GetBuiltImageCommitInfo gm (AddGitCommitToImageLabels gm info ∪ labels) = Ok info.
Proof.
  intros Hv. destruct (labels_distinct gm) as (H1 & H2 & H3 & H4 & H5 & H6).
  unfold GetBuiltImageCommitInfo, AddGitCommitToImageLabels, Image.label.
  destruct info as [c [] from into]; cbn [VirtualMerge ici_Commit VirtualMergeFromCommit VirtualMergeIntoCommit] in *.
  - rewrite !lookup_union. rewrite (lookup_insert_ne _ (VirtualMergeIntoCommitLabel gm) (VirtualMergeLabel gm)) by done.
    rewrite (lookup_insert_ne _ (VirtualMergeFromCommitLabel gm) (VirtualMergeLabel gm)) by done.
    rewrite lookup_insert_eq, union_Some_l. cbn [default]. rewrite bool_decide_eq_true_2 by done.
    rewrite (lookup_insert_ne _ (VirtualMergeIntoCommitLabel gm) (VirtualMergeFromCommitLabel gm)) by done.
    rewrite !lookup_insert_eq, !union_Some_l.
    rewrite !lookup_insert_ne by done. by rewrite lookup_singleton_eq, union_Some_l.
  - destruct (Hv eq_refl) as [-> ->]. rewrite !lookup_union, lookup_insert_eq, union_Some_l.
    cbn [default]. rewrite bool_decide_eq_false_2 by done.
    rewrite lookup_insert_ne by done. by rewrite lookup_singleton_eq, union_Some_l.
Qed.

Definition with_includes (l : list string) : GitMapping W :=
  mkGitMapping W (gm_ptr gm) (Name gm) (Branch gm) (Tag gm) (Commit gm) (Add gm) (To gm) (Owner gm)
    (Group gm) l (ExcludePaths gm) (StagesDependencies gm) (gitRepo gm).

(** A finding: the include paths of a mapping are hashed one after the other without a mark
    between them, so two mappings that take different files may have one hash, and with it one
    digest of the stage that unpacks them: those that include [a, b] and [ab]. *)
Theorem paramshash_collides (a b : string) (w : W * BaseCommits) :
  getPathMatcher (with_includes [a; b]) <> getPathMatcher (with_includes [a +:+ b]) /\
  gitArchive_GetDependencies [with_includes [a; b]] (fun _ => mret tt) w =
  gitArchive_GetDependencies [with_includes [a +:+ b]] (fun _ => mret tt) w.
Proof.
  split; [done|].
  assert (GetParamshash (with_includes [a; b]) = GetParamshash (with_includes [a +:+ b])) as Hh.
  { unfold GetParamshash. f_equal. unfold paramParts, GetFullName. simpl. by rewrite !Str.app_assoc. }
  unfold gitArchive_GetDependencies. simpl. by rewrite Hh.
Qed.
End commits.

Section docker.
Context `{!Hashes}.

(** A finding: the arguments of the stage with Docker instructions have no marks between the
    lists: volumes that become ports, or environment variables that become labels, leave the
    digest as it is, and with it the image that is taken from the storage. *)
Theorem docker_digest_collides (exact : bool) (volumes moved ports : list string)
    (m : gmap string string) (cmd entrypoint workdir user check : string) :
  docker_GetDependencies (mkDocker exact (volumes ++ moved) ports m ∅ cmd entrypoint workdir user check) =
  docker_GetDependencies (mkDocker exact volumes (moved ++ ports) ∅ m cmd entrypoint workdir user check).
Proof.
  assert (mapToSortedArgs ∅ = []) as E by (by unfold mapToSortedArgs; rewrite map_to_list_empty).
  unfold docker_GetDependencies, dockerArgs. do 2 f_equal. simpl. by rewrite E, !app_assoc, !app_nil_r.
Qed.
End docker.

Section mounts.

(** The directory of a custom mount is read back from the label of the image exactly if no
    dash in its path is followed by a dash or a slash; the other ones, as /a-/b, are mounted from
    another directory by the images that are built from it. *)
Theorem custom_mount_roundtrip from :
  customMountOf (customMountLabel from) = Some from <-> dash_ok from = true.
Proof.
  rewrite <-undashed_dashed. unfold customMountOf, customMountLabel, Filepath.ToSlash, Filepath.FromSlash.
  rewrite Str.HasPrefix_app. cbn [Str.SplitN]. rewrite cut_prefix. unfold Str.ReplaceAll.
  rewrite (Replace_dashed from), Replace_undashed by done.
  split; [by intros [= ->]|by intros ->].
Qed.
End mounts.
End StagesProps.

(** A small repository, a git mapping of it and two built stages. *)
Module StagesExamples.
Import GitMapping Stages StagesFacts StagesProps.

#[local] Existing Instance in_order.
#[local] Existing Instance GitRefsExamples.stable_sort.

#[local] Instance quote : GoQuote := fun s => s.

(** Hashes under which nothing collides. *)
#[local] Instance hashes : Hashes := {
  sha256_hex s := s; Sha256Hash l := Str.Join l ","; Sha3_224Hash l := Str.Join l ",";
}.

(** [c1 <- c2 <- c3], and [gone], which is not there any more; [HEAD] is [c2]. *)
Definition ancestors (c : string) : list string :=
  if bool_decide (c = "c3") then ["c1"; "c2"; "c3"]
  else if bool_decide (c = "c2") then ["c1"; "c2"]
  else if bool_decide (c = "c1") then ["c1"] else [].

Definition exists_commit (c : string) : bool := bool_decide (c ∈ ["c1"; "c2"; "c3"]).
Definition is_ancestor (c c' : string) : bool := bool_decide (c ∈ ancestors c').

Definition repository : GitRepo unit :=
  mkGitRepo unit "own" true
    (fun c => mret (exists_commit c)) (fun c c' => mret (is_ancestor c c'))
    (fun _ => mret "c1") (fun _ => mret "c3") (mret "c2")
    (fun _ => mret []) (fun _ _ => mret "merge")
    (fun _ _ => mret true) (fun _ _ _ _ => mret true)
    (fun _ => mret (mkPatch "/tmp/patch" false false ["f"] []))
    (fun _ _ _ c => mret ("sum-" +:+ c)).

Definition mapping : GitMapping unit :=
  mkGitMapping unit 1 "" "" "" "" "src" "/app" "" "" [] [] ∅ repository.

(** A stage that was built from [commit] at [ts]. *)
Definition stage_of (commit : string) (ts : Z) : Image.StageDesc :=
  Image.mkStageDesc (Image.NewStageID "digest" ts)
    (Image.mkInfo "repo:digest" "repo" "digest" "" [] [] "" ""
       (AddGitCommitToImageLabels mapping (mkImageCommitInfo commit false "" ""))
       0 0 ∅ false []).

(** The oldest stage is of a commit that is gone, the next one of a commit to come. *)
Definition stages : StageDescSet :=
  {[ 1%positive := stage_of "c2" 4000; 2%positive := stage_of "gone" 1000;
     3%positive := stage_of "c1" 3000; 4%positive := stage_of "c3" 2000 ]}.

Definition start : unit * BaseCommits := (tt, ∅).

Example selects_c1 :
  selectAncestorStageDescByGitMappings [mapping] false 0 stages start
    = (Ok (Some (3%positive, stage_of "c1" 3000)), start).
Proof. vm_compute. reflexivity. Qed.

Lemma ancestor_selection_witness :
  exists r, selectAncestorStageDescByGitMappings [mapping] false 0 stages start = (Ok r, start) /\
    match r with
    | Some d => stages !! d.1 = Some d.2 /\
        built_from_ancestors (fun _ => exists_commit) (fun _ => is_ancestor) [(mapping, "c2")] d.2 /\
        forall p d', stages !! p = Some d' ->
          built_from_ancestors (fun _ => exists_commit) (fun _ => is_ancestor) [(mapping, "c2")] d' ->
          (Image.CreationTs (Image.SDStageID d.2) <= Image.CreationTs (Image.SDStageID d'))%Z
    | None => forall p d, stages !! p = Some d ->
        ~ built_from_ancestors (fun _ => exists_commit) (fun _ => is_ancestor) [(mapping, "c2")] d
    end.
Proof.
  apply (ancestor_selection [mapping] false (fun _ => exists_commit) (fun _ => is_ancestor)).
  - by intros gm c w ->%list_elem_of_singleton.
  - by intros gm c c' w ->%list_elem_of_singleton.
  - vm_compute. reflexivity.
Defined.

Lemma commit_labels_roundtrip_witness :
  GetBuiltImageCommitInfo mapping
    (AddGitCommitToImageLabels mapping (mkImageCommitInfo "c3" false "" "") ∪ {["werf" := "project"]})
    = Ok (mkImageCommitInfo "c3" false "" "") /\
  GetBuiltImageCommitInfo mapping
    (AddGitCommitToImageLabels mapping (mkImageCommitInfo "c3" true "c2" "c1") ∪ {["werf" := "project"]})
    = Ok (mkImageCommitInfo "c3" true "c2" "c1").
Proof. split; apply commit_labels_roundtrip; [done|discriminate]. Defined.

End StagesExamples.
