(* ===== verification/ImageSpecs.v ===== *)
(** The imageSpec of a werf.yaml (pkg/config/raw_image_spec.go, image_spec.go) and the stage that changes the
    configuration of an image by it (pkg/build/stage/image_spec.go). Templates and the expansion of shell
    words are classes. *)
From S2P Require Import Prelude Go GoStd Image GitMapping Stages.

(** [html/template] with the delimiter %, executed for a project and an image; and the words of a shell, which
    buildkit expands in an environment. *)
Class LabelTemplates := {
  Template : Type;
  Template_Parse : string -> Template + error;
  Template_Execute : Template -> string -> string -> string + error;
}.
Class ShellWords := ProcessWord : Ascii.ascii -> string -> list string -> string + error.

(** [util.MergeMaps] of common-go: the second map has precedence. *)
Class UtilMaps := {
  MergeMaps : gmap string string -> gmap string string -> gmap string string;
  MergeMaps_eq : forall a b, MergeMaps a b = b ∪ a;
}.

Module ImageSpecs.

(** * Configuration *)

Record healthConfig := mkhealthConfig { Test : list string; Interval : Z; Timeout : Z; StartPeriod : Z; Retries : Z }.

(** A slice or a map that is compared with nil is an option. *)
Record rawImageSpecConfig := mkRawConfig {
  raw_KeepEssentialWerfLabels : bool; raw_ClearWerfLabels : bool; raw_ClearCmd : bool; raw_ClearEntrypoint : bool;
  raw_ClearUser : bool; raw_ClearWorkingDir : bool;
  raw_RemoveLabels : list string; raw_RemoveVolumes : list string; raw_RemoveEnv : list string;
  raw_Volumes : list string; raw_Labels : option (gmap string string); raw_Env : gmap string string;
  raw_Expose : option (list string); raw_User : string; raw_Cmd : option (list string);
  raw_Entrypoint : option (list string); raw_WorkingDir : string; raw_StopSignal : string;
  raw_Healthcheck : option healthConfig;
}.

Record rawImageSpec := mkRawImageSpec { raw_Author : string; raw_ClearHistory : bool; raw_Config : option rawImageSpecConfig }.

Record rawImageSpecGlobalConfig := mkRawGlobalConfig {
  glob_KeepEssentialWerfLabels : bool; glob_ClearWerfLabels : bool;
  glob_RemoveLabels : list string; glob_Labels : option (gmap string string);
}.

Record rawImageSpecGlobal := mkRawGlobal { glob_Author : string; glob_ClearHistory : bool; glob_Config : option rawImageSpecGlobalConfig }.

Record ImageSpec := mkImageSpec {
  Author : string; ClearHistory : bool; KeepEssentialWerfLabels : bool; ClearWerfLabels : bool;
  RemoveLabels : list string; RemoveVolumes : list string; RemoveEnv : list string;
  ClearCmd : bool; ClearEntrypoint : bool; ClearUser : bool; ClearWorkingDir : bool;
  Volumes : list string; Labels : option (gmap string string); Env : gmap string string; User : string;
  Cmd : option (list string); Entrypoint : option (list string); WorkingDir : string; StopSignal : string;
  Expose : option (list string); Healthcheck : option healthConfig;
}.

Definition emptySpec : ImageSpec :=
  mkImageSpec "" false false false [] [] [] false false false false [] None ∅ "" None None "" "" None None.

Definition toDirective (s : rawImageSpec) : ImageSpec :=
  match raw_Config s with
  | None => mkImageSpec (raw_Author s) (raw_ClearHistory s) false false [] [] [] false false false false [] None ∅ "" None None "" "" None None
  | Some c =>
      mkImageSpec (raw_Author s) (raw_ClearHistory s) (raw_KeepEssentialWerfLabels c) (raw_ClearWerfLabels c)
        (raw_RemoveLabels c) (raw_RemoveVolumes c) (raw_RemoveEnv c)
        (raw_ClearCmd c) (raw_ClearEntrypoint c) (raw_ClearUser c) (raw_ClearWorkingDir c)
        (raw_Volumes c) (raw_Labels c) (raw_Env c) (raw_User c) (raw_Cmd c) (raw_Entrypoint c) (raw_WorkingDir c)
        (raw_StopSignal c) (raw_Expose c) (raw_Healthcheck c)
  end.

Definition global_toDirective (s : rawImageSpecGlobal) : ImageSpec :=
  match glob_Config s with
  | None => mkImageSpec (glob_Author s) (glob_ClearHistory s) false false [] [] [] false false false false [] None ∅ "" None None "" "" None None
  | Some c =>
      mkImageSpec (glob_Author s) (glob_ClearHistory s) (glob_KeepEssentialWerfLabels c) (glob_ClearWerfLabels c)
        (glob_RemoveLabels c) [] [] false false false false [] (glob_Labels c) ∅ "" None None "" "" None None
  end.

Definition mergeSlices (a b : list string) : list string :=
  foldl (fun merged item => if bool_decide (item ∈ merged) then merged else merged ++ [item]) a b.

(** The imageSpec of the meta section over that of an image. *)
Definition mergeImageSpec (meta : ImageSpec) (image : option ImageSpec) : ImageSpec :=
  let i := default emptySpec image in
  mkImageSpec
    (if bool_decide (Author meta <> "") then Author meta else Author i)
    (ClearHistory meta || ClearHistory i)
    (KeepEssentialWerfLabels meta || KeepEssentialWerfLabels i)
    (ClearWerfLabels i)
    (mergeSlices (RemoveLabels i) (RemoveLabels meta)) (RemoveVolumes i) (RemoveEnv i)
    (ClearCmd i) (ClearEntrypoint i) (ClearUser i) (ClearWorkingDir i) (Volumes i)
    (match Labels meta, Labels i with
     | Some m, None => Some m
     | Some m, Some l => Some (m ∪ l)
     | None, l => l
     end)
    (Env i) (User i) (Cmd i) (Entrypoint i) (WorkingDir i) (StopSignal i) (Expose i) (Healthcheck i).

(** * The stage *)

Definition IsBuildable : bool := false.
Definition IsMutable : bool := true.

Section stage.
Context `{!GoQuote, !Hashes, nondet : Nondet, !Regexps, !LabelTemplates, !ShellWords, !UtilMaps}.

(** [parser.DefaultEscapeToken] of buildkit is a backslash. *)
Definition shlexProcessWord (value : string) (argsArray : list string) : string + error := ProcessWord "\"%char value argsArray.

(** What is iterated of a map at a tick. *)
Definition iterated (tick : nat) (m : gmap string string) : list (string * string) := shuffle tick (map_to_list m).

Definition sortSliceWithNewSlice (original : list string) : list string := Sort.Strings original.

Definition Sprint_bool (b : bool) : string := if b then "true" else "false".

(** [fmt.Sprint] of the pointer. *)
Definition Sprint_health (h : option healthConfig) : string :=
  match h with
  | None => "<nil>"
  | Some h => "&{[" +:+ Str.Join (Test h) " " +:+ "] " +:+ itoa (Interval h) +:+ " " +:+ itoa (Timeout h) +:+ " " +:+
              itoa (StartPeriod h) +:+ " " +:+ itoa (Retries h) +:+ "}"
  end.

Definition dependenciesArgs (s : ImageSpec) : list string :=
  [Author s; Sprint_bool (ClearHistory s); Str.Join (default [] (Cmd s)) " "; Str.Join (default [] (Entrypoint s)) " "] ++
  Stages.mapToSortedArgs (Env s) ++ sortSliceWithNewSlice (default [] (Expose s)) ++ [Sprint_health (Healthcheck s)] ++
  Stages.mapToSortedArgs (default ∅ (Labels s)) ++ [StopSignal s; User s] ++ sortSliceWithNewSlice (Volumes s) ++ [WorkingDir s] ++
  sortSliceWithNewSlice (RemoveLabels s) ++ sortSliceWithNewSlice (RemoveVolumes s) ++ sortSliceWithNewSlice (RemoveEnv s) ++
  [Sprint_bool (KeepEssentialWerfLabels s); Sprint_bool (ClearCmd s); Sprint_bool (ClearEntrypoint s); Sprint_bool (ClearUser s);
   Sprint_bool (ClearWorkingDir s)].

Definition GetDependencies (s : ImageSpec) : string := Sha256Hash (dependenciesArgs s).

(** ** What is removed *)

(** Exact names, and regular expressions. *)
Definition patterns : Type := gset string * list Regexp.

Definition compileRemovePattern (acc : patterns) (pattern : string) : res patterns :=
  if Str.HasPrefix pattern "/" && Str.HasSuffix pattern "/" then
    if Str.len pattern <=? 1 then Panic "slice bounds out of range [1:0]"
    else match Regexp_Compile ("^" +:+ Str.take (Str.len pattern - 2) (Str.drop 1 pattern) +:+ "$") with
         | inl re => Ok (acc.1, acc.2 ++ [re])
         | inr err => Err err
         end
  else Ok ({[pattern]} ∪ acc.1, acc.2).

Fixpoint compileFrom (acc : patterns) (removePatterns : list string) : res patterns :=
  match removePatterns with
  | [] => Ok acc
  | pattern :: l => acc ← compileRemovePattern acc pattern; compileFrom acc l
  end.

Definition compileRemovePatterns (removePatterns : list string) : res patterns := compileFrom (∅, []) removePatterns.

Definition matchKey (key : string) (p : patterns) : bool :=
  bool_decide (key ∈ p.1) || existsb (fun re => MatchString re key) p.2.

(** ** Labels *)

Definition ok_res {A} (r : A + error) : res A := match r with inl a => Ok a | inr e => Err e end.

Definition replaceLabelTemplate (k v project image : string) : res (string * string) :=
  parsedKeyTmpl ← ok_res (Template_Parse k);
  parsedValueTmpl ← ok_res (Template_Parse v);
  key ← ok_res (Template_Execute parsedKeyTmpl project image);
  value ← ok_res (Template_Execute parsedValueTmpl project image);
  Ok (key, value).

Fixpoint processLabels (project image : string) (l : list (string * string)) (processed : gmap string string) : res (gmap string string) :=
  match l with
  | [] => Ok processed
  | (k, v) :: l' => x ← replaceLabelTemplate k v project image; processLabels project image l' (<[x.1 := x.2]> processed)
  end.

(** Labels that are never removed. *)
Definition essential (key : string) : bool :=
  bool_decide (key = Image.WerfLabel) || bool_decide (key = Image.WerfParentStageID) || bool_decide (key = Image.WerfStageContentDigestLabel).

(** The labels, and whether there is a warning. *)
Definition modifyLabels (tick : nat) (projectName imageName : string) (labels serviceLabels addLabels : gmap string string)
    (removeLabels : list string) (keepEssentialWerfLabels : bool) : res (gmap string string * bool) :=
  let labels := MergeMaps labels serviceLabels in
  p ← compileRemovePatterns removeLabels;
  let shouldPrintGlobalWarn :=
    existsb (fun kv => matchKey kv.1 p && essential kv.1 && negb keepEssentialWerfLabels) (map_to_list labels) in
  let labels := filter (fun kv => matchKey kv.1 p && negb (essential kv.1) = false) labels in
  processedAddLabels ← processLabels projectName imageName (iterated tick addLabels) ∅;
  Ok (MergeMaps labels processedAddLabels, shouldPrintGlobalWarn).

(** ** Environment *)

Definition envEntry (m : gmap string string) (entry : string) : gmap string string :=
  match Str.SplitN entry "=" 2 with
  | [k; v] => <[k := v]> m
  | _ => m
  end.

Definition werfCommitEnvs : list string := ["WERF_COMMIT_HASH"; "WERF_COMMIT_TIME_HUMAN"; "WERF_COMMIT_TIME_UNIX"].

Definition SSHAuthSockEnv : string := "SSH_AUTH_SOCK".
Definition SSHContainerAuthSockPath : string := "/.werf/tmp/ssh-auth-sock".

Fixpoint addEnvs (env : list string) (l : list (string * string)) (m : gmap string string) : res (gmap string string) :=
  match l with
  | [] => Ok m
  | (k, v) :: l' => newVal ← ok_res (shlexProcessWord v env); addEnvs env l' (<[k := newVal]> m)
  end.

Definition withoutSSHAuthSock (m : gmap string string) : gmap string string :=
  if bool_decide (m !! SSHAuthSockEnv = Some SSHContainerAuthSockPath) then delete SSHAuthSockEnv m else m.

Definition modifyEnv (tick : nat) (env removeKeys : list string) (addKeysMap : gmap string string) : res (list string) :=
  let baseEnvMap := foldl envEntry ∅ env in
  p ← compileRemovePatterns (removeKeys ++ werfCommitEnvs);
  let baseEnvMap := withoutSSHAuthSock (filter (fun kv => matchKey kv.1 p = false) baseEnvMap) in
  newEnv ← addEnvs env (iterated tick addKeysMap) baseEnvMap;
  Ok ((fun kv => kv.1 +:+ "=" +:+ kv.2) <$> iterated (S tick) newEnv).

(** ** The new configuration *)

(** The set of the previous image is changed in place, where it is not nil. *)
Definition modifyVolumes (volumes : gset string) (removeVolumes addVolumes : list string) : gset string :=
  (volumes ∖ list_to_set removeVolumes) ∪ list_to_set addVolumes.

Definition toDuration (seconds : Z) : Z := wrap64 (seconds * 1000000000).

Definition baseConfig (s : ImageSpec) : Image.SpecConfig :=
  let clearCmd := match Entrypoint s, Cmd s with Some _, None => true | _, _ => false end in
  Image.mkSpecConfig "" (Author s) (User s) None [] (default [] (Entrypoint s)) (default [] (Cmd s)) None (WorkingDir s) None
    (StopSignal s) None (ClearHistory s) (clearCmd || ClearCmd s) (ClearEntrypoint s) (ClearUser s) (ClearWorkingDir s).

Definition healthOf (h : healthConfig) : Image.HealthConfig :=
  Image.mkHealthConfig (Test h) (toDuration (Interval h)) (toDuration (Timeout h)) (toDuration (StartPeriod h)) (Retries h).

(** The configuration that the stage keeps, and whether there is a warning. *)
Definition PrepareImage (tick : nat) (projectName imageName : string) (imageSpec : option ImageSpec) (imageInfo : Image.Info)
    (serviceLabels : gmap string string) : res (option Image.SpecConfig * bool) :=
  match imageSpec with
  | None => Ok (None, false)
  | Some s =>
      let c := baseConfig s in
      labels ← match modifyLabels tick projectName imageName (Image.Labels imageInfo) serviceLabels (default ∅ (Labels s))
                       (RemoveLabels s) (KeepEssentialWerfLabels s) with
               | Err e => Err (Errorf "unable to modify labels: %s" [FS (err_text e)])
               | r => r
               end;
      envs ← match modifyEnv (S tick) (Image.Env imageInfo) (RemoveEnv s) (Env s) with
             | Err e => Err (Wrapf "unable to modify env: %w" [] e)
             | r => r
             end;
      Ok (Some (Image.mkSpecConfig (Image.scCreated c) (Image.scAuthor c) (Image.scUser c)
                  (list_to_set <$> Expose s) envs (Image.scEntrypoint c) (Image.scCmd c)
                  (Some (modifyVolumes (Image.Volumes imageInfo) (RemoveVolumes s) (Volumes s)))
                  (Image.scWorkingDir c) (Some labels.1) (Image.scStopSignal c) (healthOf <$> Healthcheck s)
                  (Image.ClearHistory c) (Image.ClearCmd c) (Image.ClearEntrypoint c) (Image.ClearUser c) (Image.ClearWorkingDir c)),
          labels.2)
  end.

End stage.
End ImageSpecs.
