(* ===== verification/ImageSpecsProps.v ===== *)
(** What the stage of an imageSpec leaves of the labels and the environment of an image, and which imageSpecs
    have the same digest. *)
From S2P Require Import Prelude Go GoStd Image GitMapping Stages ImageSpecs.
Import ImageSpecs.

Module ImageSpecsProps.

Section spec.
Context {gq : GoQuote} {hs : Hashes} {nd : Nondet} {re : Regexps} {lt : LabelTemplates} {sw : ShellWords} {um : UtilMaps}.

Lemma iterated_elem tick (m : gmap string string) k v : (k, v) ∈ iterated tick m <-> m !! k = Some v.
Proof using Type. unfold iterated. rewrite (shuffle_perm tick (map_to_list m)). apply elem_of_map_to_list. Qed.

Lemma iterated_NoDup tick (m : gmap string string) : NoDup (iterated tick m).*1.
Proof using Type. unfold iterated. rewrite (shuffle_perm tick (map_to_list m)). apply NoDup_fst_map_to_list. Qed.

(** ** Patterns *)

Lemma compileFrom_mono l : forall acc p, compileFrom acc l = Ok p -> acc.1 ⊆ p.1.
Proof using Type.
  induction l as [|pattern l IH]; intros acc p; cbn [compileFrom]; [by intros [= <-]|].
  unfold compileRemovePattern. destruct (_ && _); [destruct (_ <=? _); [done|]; destruct (Regexp_Compile _); [|done]|];
    cbn [mbind res_bind]; intros H; apply IH in H; simpl in H; set_solver.
Qed.

(** A name that is no pattern removes itself. *)
Lemma compileFrom_exact k l : forall acc p, compileFrom acc l = Ok p -> k ∈ l -> Str.HasPrefix k "/" = false -> matchKey k p = true.
Proof using Type.
  induction l as [|pattern l IH]; intros acc p H Hk Hne; [by apply not_elem_of_nil in Hk|].
  cbn [compileFrom] in H. destruct (compileRemovePattern acc pattern) as [acc'| |] eqn:E; [|done..]. cbn [mbind res_bind] in H.
  apply elem_of_cons in Hk as [->|Hk]; [|by eapply IH]. unfold compileRemovePattern in E. rewrite Hne in E. injection E as <-.
  apply compileFrom_mono in H. unfold matchKey. rewrite bool_decide_eq_true_2; [done|]. apply H. simpl. set_solver.
Qed.

(** ** Environment *)

Definition expands (env : list string) (v v' : string) : Prop := shlexProcessWord v env = inl v'.

Lemma addEnvs_spec env l : NoDup l.*1 -> (forall k v, (k, v) ∈ l -> exists v', expands env v v') -> forall m,
  exists m', addEnvs env l m = Ok m' /\
    forall k, (forall v, (k, v) ∈ l -> exists v', expands env v v' /\ m' !! k = Some v') /\ (k ∉ l.*1 -> m' !! k = m !! k).
Proof using Type.
  induction l as [|[k v] l IH]; intros Hnd Hex m.
  { exists m. split; [done|]. intros k. split; [intros v H; by apply not_elem_of_nil in H|done]. }
  inversion_clear Hnd as [|? ? Hk Hnd']. destruct (Hex k v) as [v' Ev]; [by left|]. cbn [addEnvs]. unfold expands in Ev. rewrite Ev.
  cbn [ok_res mbind res_bind]. destruct (IH Hnd' ltac:(intros k' w H; apply (Hex k' w); by right) (<[k := v']> m)) as (m' & E & Hm').
  exists m'. split; [done|]. intros k'. split.
  - intros w [[= -> ->]|Hw]%elem_of_cons; [|by apply Hm']. exists v'. split; [done|]. destruct (Hm' k) as [_ H]. rewrite H by done. by rewrite lookup_insert_eq.
  - intros H. simpl in H. rewrite not_elem_of_cons in H. destruct H as [H1 H2]. destruct (Hm' k') as [_ H]. rewrite H by done. by rewrite lookup_insert_ne.
Qed.

(** The variables of the image that stay. *)
Definition kept (p : patterns) (env : list string) : gmap string string :=
  withoutSSHAuthSock (filter (fun kv => matchKey kv.1 p = false) (foldl envEntry ∅ env)).

Lemma kept_lookup p env k : kept p env !! k =
  if matchKey k p || bool_decide (k = SSHAuthSockEnv /\ foldl envEntry ∅ env !! k = Some SSHContainerAuthSockPath) then None
  else foldl envEntry ∅ env !! k.
Proof using Type.
  unfold kept. set (m := foldl envEntry ∅ env).
  assert (forall k, filter (fun kv : string * string => matchKey kv.1 p = false) m !! k = if matchKey k p then None else m !! k) as Hf.
  { intros q. rewrite map_lookup_filter. destruct (m !! q) as [v|]; simpl; [|by destruct (matchKey q p)]. destruct (matchKey q p) eqn:E; by case_guard. }
  unfold withoutSSHAuthSock. rewrite Hf. destruct (matchKey k p) eqn:Ek; simpl.
  - case_bool_decide; [|by rewrite Hf, Ek]. destruct (decide (k = SSHAuthSockEnv)) as [->|]; [by rewrite lookup_delete_eq|by rewrite lookup_delete_ne, Hf, Ek].
  - destruct (decide (k = SSHAuthSockEnv)) as [->|Hne].
    + rewrite Ek. repeat case_bool_decide; [by rewrite lookup_delete_eq|naive_solver|naive_solver|by rewrite Hf, Ek].
    + rewrite (bool_decide_eq_false_2 (k = _ /\ _)) by naive_solver. case_bool_decide; [by rewrite lookup_delete_ne, Hf, Ek|by rewrite Hf, Ek].
Qed.

(** C21: The environment of the image is, in some order, one entry for each variable: those that the imageSpec
    sets, expanded in the environment that the image had; and of the others those that no pattern of removeEnv
    takes, without the variables of the commit, and without the socket of the ssh agent that werf mounts. *)
Theorem modifyEnv_spec tick env removeKeys addKeysMap p :
  compileRemovePatterns (removeKeys ++ werfCommitEnvs) = Ok p ->
  (forall k v, addKeysMap !! k = Some v -> exists v', expands env v v') ->
  exists l m, modifyEnv tick env removeKeys addKeysMap = Ok l /\ l ≡ₚ ((fun kv => kv.1 +:+ "=" +:+ kv.2) <$> map_to_list m) /\
    forall k, (forall v, addKeysMap !! k = Some v -> exists v', expands env v v' /\ m !! k = Some v') /\
      (addKeysMap !! k = None -> m !! k =
         if matchKey k p || bool_decide (k = SSHAuthSockEnv /\ foldl envEntry ∅ env !! k = Some SSHContainerAuthSockPath) then None
         else foldl envEntry ∅ env !! k) /\
      (k ∈ werfCommitEnvs -> addKeysMap !! k = None -> m !! k = None).
Proof using Type.
  intros Hp Hex. unfold modifyEnv. rewrite Hp. cbn [mbind res_bind].
  destruct (addEnvs_spec env (iterated tick addKeysMap) (iterated_NoDup _ _)) with (m := kept p env) as (m & E & Hm).
  { intros k v H%iterated_elem. by eapply Hex. }
  unfold kept in E. rewrite E. eexists _, m. split; [done|]. split; [apply fmap_Permutation, shuffle_perm|]. intros k.
  assert (addKeysMap !! k = None -> m !! k = kept p env !! k) as Hn.
  { intros H. destruct (Hm k) as [_ Hk]. apply Hk. intros ([k' v] & -> & Hin)%list_elem_of_fmap. apply iterated_elem in Hin. simpl in H. congruence. }
  split; [|split].
  - intros v Hv. destruct (Hm k) as [Hk _]. apply Hk. by apply iterated_elem.
  - intros H. rewrite (Hn H). apply kept_lookup.
  - intros Hk H. rewrite (Hn H), kept_lookup. assert (matchKey k p = true) as ->; [|done].
    apply (compileFrom_exact k _ _ _ Hp); [set_solver|]. unfold werfCommitEnvs in Hk. repeat (apply elem_of_cons in Hk as [->|Hk]; [done|]). by apply not_elem_of_nil in Hk.
Qed.

(** ** Labels *)

Lemma MergeMaps_lookup a b k : MergeMaps a b !! k = match b !! k with Some v => Some v | None => a !! k end.
Proof using Type. rewrite MergeMaps_eq, lookup_union. by destruct (b !! k), (a !! k). Qed.

Definition rendered (project image : string) (kv kv' : string * string) : Prop := replaceLabelTemplate kv.1 kv.2 project image = Ok kv'.

Lemma processLabels_spec project image l : (forall kv, kv ∈ l -> exists kv', rendered project image kv kv') -> forall m,
  exists m', processLabels project image l m = Ok m' /\
    forall k, (exists kv v, kv ∈ l /\ rendered project image kv (k, v) /\ m' !! k = Some v) \/
      ((forall kv v, kv ∈ l -> ~ rendered project image kv (k, v)) /\ m' !! k = m !! k).
Proof using Type.
  induction l as [|[q w] l IH]; intros Hex m.
  { exists m. split; [done|]. intros k. right. split; [intros kv v H; by apply not_elem_of_nil in H|done]. }
  destruct (Hex (q, w)) as [[q' w'] E]; [by left|]. cbn [processLabels]. pose proof E as E'. unfold rendered in E'. simpl in E'. rewrite E'. cbn [mbind res_bind fst snd].
  destruct (IH ltac:(intros kv H; apply Hex; by right) (<[q' := w']> m)) as (m' & Em & Hm'). exists m'. split; [done|]. intros k.
  destruct (Hm' k) as [(kv & v & H1 & H2 & H3)|[H1 H2]]; [left; exists kv, v; split; [by right|done]|].
  destruct (decide (q' = k)) as [->|Hne].
  - left. exists (q, w), w'. split; [by left|]. split; [done|]. by rewrite H2, lookup_insert_eq.
  - right. split; [|by rewrite H2, lookup_insert_ne]. intros kv v [->|H]%elem_of_cons; [|by apply H1]. unfold rendered in *. congruence.
Qed.

(** C20: The labels of the image are those that the imageSpec adds, their keys and values rendered for the project
    and the image, and of the labels of the previous image and of werf those that no pattern of removeLabels
    takes. The labels by which cleanup finds stages are taken by no pattern: a pattern that matches one is
    reported, unless they are kept on purpose. *)
Theorem modifyLabels_spec tick project image labels serviceLabels addLabels removeLabels keep p :
  compileRemovePatterns removeLabels = Ok p ->
  (forall k v, addLabels !! k = Some v -> exists kv', rendered project image (k, v) kv') ->
  let old := MergeMaps labels serviceLabels in
  exists m warned, modifyLabels tick project image labels serviceLabels addLabels removeLabels keep = Ok (m, warned) /\
    (warned = true <-> keep = false /\ exists k, is_Some (old !! k) /\ essential k = true /\ matchKey k p = true) /\
    forall k,
      ((exists kv v, addLabels !! kv.1 = Some kv.2 /\ rendered project image kv (k, v) /\ m !! k = Some v) \/
       (forall kv v, addLabels !! kv.1 = Some kv.2 -> ~ rendered project image kv (k, v)) /\
        m !! k = if matchKey k p && negb (essential k) then None else old !! k) /\
      (essential k = true -> is_Some (old !! k) -> is_Some (m !! k)).
Proof using Type.
  intros Hp Hex old. unfold modifyLabels. rewrite Hp. cbn [mbind res_bind].
  destruct (processLabels_spec project image (iterated tick addLabels)) with (m := ∅ : gmap string string) as (m & E & Hm).
  { intros [k v] H%iterated_elem. by apply Hex. }
  rewrite E. cbn [mbind res_bind]. eexists _, _. split; [reflexivity|]. fold old. split.
  { rewrite existsb_exists. split.
    - intros ([k v] & Hin & H). simpl in H. apply list_elem_of_In, elem_of_map_to_list in Hin.
      rewrite !andb_true_iff, negb_true_iff in H. destruct H as [[H1 H2] H3]. split; [done|]. exists k. rewrite Hin. by eauto.
    - intros (-> & k & [v Hv] & H1 & H2). exists (k, v). rewrite <- list_elem_of_In, elem_of_map_to_list. simpl. by rewrite H1, H2. }
  intros k. rewrite MergeMaps_lookup.
  assert (filter (fun kv : string * string => matchKey kv.1 p && negb (essential kv.1) = false) old !! k =
            if matchKey k p && negb (essential k) then None else old !! k) as Hold.
  { rewrite map_lookup_filter. destruct (old !! k) as [v|]; simpl; [|by destruct (_ && _)]. destruct (_ && _) eqn:Ek; by case_guard. }
  split.
  - destruct (Hm k) as [(kv & v & H1 & H2 & H3)|[H1 H2]].
    + left. exists kv, v. rewrite H3. destruct kv. by apply iterated_elem in H1.
    + right. rewrite H2, lookup_empty, Hold. split; [|done]. intros [q w] v H. apply H1. by apply iterated_elem.
  - intros Hess Ho. destruct (m !! k); [done|]. rewrite Hold, Hess, andb_false_r. done.
Qed.

(** ** The configuration that is written *)

(** The command of the previous image does not survive an entrypoint of the imageSpec, nor a clearCmd, unless
    the imageSpec has an empty list for a command. *)
Lemma written_cmd {H} s (target : Image.ConfigFile H) c :
  Image.scCmd c = Image.scCmd (baseConfig s) -> Image.ClearCmd c = Image.ClearCmd (baseConfig s) ->
  Image.cfCmd (Image.UpdateConfigFile c target) =
    match Cmd s, Entrypoint s with
    | Some (x :: l), _ => x :: l
    | None, Some _ => []
    | _, _ => if ClearCmd s then [] else Image.cfCmd target
    end.
Proof using Type. intros E1 E2. unfold baseConfig in *. simpl in *. rewrite E1, E2. destruct (Cmd s) as [[|]|], (Entrypoint s), (ClearCmd s); reflexivity. Qed.

Lemma elem_of_modifyVolumes vs remove add v : v ∈ modifyVolumes vs remove add <-> v ∈ add \/ (v ∈ vs /\ v ∉ remove).
Proof using Type. unfold modifyVolumes. set_solver. Qed.

(** What is written for a string of the imageSpec, where an empty one is none. *)
Definition given (new kept : string) : string := match new with "" => kept | _ => new end.

Lemma upd_string_given clear new target :
  Image.upd_string clear new target = given new (if clear then "" else target).
Proof using Type. unfold Image.upd_string, given. destruct (bool_decide_reflect (new = "")) as [->|]; [done|]. by destruct new. Qed.

(** C19: The whole configuration that the stage writes over the one of the previous image. The labels and
    the environment are what modifyLabels and modifyEnv compute. The command is the one of the imageSpec; where
    it gives none the one of the image is reset by an entrypoint of the imageSpec, and by clearCmd where it gives
    no entrypoint or an empty command, and stays otherwise. The entrypoint, the user, the working directory are
    those of the imageSpec, and where it gives none they are reset by their clear flag and stay otherwise; the
    author and the stop signal are those of the imageSpec, and stay where it gives none; the history is dropped by
    clearHistory. The volumes are those of the previous image without the removed ones and with the new ones; the
    ports and the healthcheck are those of the imageSpec, and stay where it gives none. The interval, the timeout
    and the start period of the healthcheck are in nanoseconds, as an int64, which wraps around. *)
Theorem PrepareImage_writes {H} tick project image s info serviceLabels c warned (target : Image.ConfigFile H) :
  PrepareImage tick project image (Some s) info serviceLabels = Ok (Some c, warned) ->
  let written := Image.UpdateConfigFile c target in
  (exists ls, modifyLabels tick project image (Image.Labels info) serviceLabels (default ∅ (Labels s)) (RemoveLabels s)
                (KeepEssentialWerfLabels s) = Ok (ls, warned) /\ Image.cfLabels written = Some ls) /\
  modifyEnv (S tick) (Image.Env info) (RemoveEnv s) (Env s) = Ok (Image.cfEnv written) /\
  Image.cfCmd written = match Cmd s, Entrypoint s with
                        | Some (x :: l), _ => x :: l
                        | None, Some _ => []
                        | _, _ => if ClearCmd s then [] else Image.cfCmd target
                        end /\
  Image.cfEntrypoint written = match Entrypoint s with
                               | Some (x :: l) => x :: l
                               | _ => if ClearEntrypoint s then [] else Image.cfEntrypoint target
                               end /\
  Image.cfAuthor written = given (Author s) (Image.cfAuthor target) /\
  Image.cfUser written = given (User s) (if ClearUser s then "" else Image.cfUser target) /\
  Image.cfWorkingDir written = given (WorkingDir s) (if ClearWorkingDir s then "" else Image.cfWorkingDir target) /\
  Image.cfStopSignal written = given (StopSignal s) (Image.cfStopSignal target) /\
  Image.cfHistory written = (if ClearHistory s then [] else Image.cfHistory target) /\
  (exists vs, Image.cfVolumes written = Some vs /\
     forall v, v ∈ vs <-> v ∈ Volumes s \/ (v ∈ Image.Volumes info /\ v ∉ RemoveVolumes s)) /\
  match Expose s with
  | Some ports => exists ps, Image.cfExposedPorts written = Some ps /\ forall x, x ∈ ps <-> x ∈ ports
  | None => Image.cfExposedPorts written = Image.cfExposedPorts target
  end /\
  Image.cfHealthcheck written =
    match Healthcheck s with
    | Some h => Some (Image.mkHealthConfig (Test h) (wrap64 (Interval h * 1000000000)) (wrap64 (Timeout h * 1000000000))
                        (wrap64 (StartPeriod h * 1000000000)) (Retries h))
    | None => Image.cfHealthcheck target
    end.
Proof using Type.
  intros Hp written. unfold PrepareImage in Hp.
  destruct (modifyLabels _ _ _ _ _ _ _ _) as [[ls w]| |] eqn:El; [|done..]. cbn [mbind res_bind] in Hp.
  destruct (modifyEnv _ _ _ _) as [envs| |] eqn:Ee; [|done..]. injection Hp as Hc <-. subst c written.
  split; [by exists ls|]. split; [done|]. split; [by apply written_cmd|]. split.
  { simpl. by destruct (Entrypoint s) as [[|]|]. }
  do 4 (split; [apply upd_string_given|]). split; [done|].
  split; [exists (modifyVolumes (Image.Volumes info) (RemoveVolumes s) (Volumes s)); split; [done|apply elem_of_modifyVolumes]|]. split.
  - destruct (Expose s) as [ports|] eqn:Ex; simpl; rewrite ?Ex; [|done]. exists (list_to_set ports). split; [done|]. intros x. apply elem_of_list_to_set.
  - simpl. by destruct (Healthcheck s).
Qed.

(** Two imageSpecs that do different things have one digest: the lists that are hashed are not delimited. *)
Definition removing_volume (x : string) : ImageSpec :=
  mkImageSpec "" false false false [] [x] [] false false false false [] None ∅ "" None None "" "" None None.
Definition removing_env (x : string) : ImageSpec :=
  mkImageSpec "" false false false [] [] [x] false false false false [] None ∅ "" None None "" "" None None.

Lemma removals_collide x : GetDependencies (removing_volume x) = GetDependencies (removing_env x).
Proof using Type. reflexivity. Qed.

End spec.
End ImageSpecsProps.

(** An image with an environment, and an imageSpec of it. *)
Module ImageSpecsExamples.
Import ImageSpecsProps.

#[local] Existing Instance in_order.
#[local] Instance quote : GoQuote := fun s => s.

(** Regular expressions that are a text between ^ and $, templates and words in which nothing is replaced. *)
#[local] Instance literal : Regexps := {| Regexp := string; Regexp_Compile := inl; MatchString re key := bool_decide (re = "^" +:+ key +:+ "$") |}.
#[local] Instance verbatim : LabelTemplates := {| Template := string; Template_Parse := inl; Template_Execute t _ _ := inl t |}.
#[local] Instance words : ShellWords := fun _ w _ => inl w.
#[local] Instance maps : UtilMaps := {| MergeMaps a b := b ∪ a; MergeMaps_eq _ _ := eq_refl |}.

Definition env : list string := ["PATH=/bin"; "DEBUG=1"; "WERF_COMMIT_HASH=c1"; "SSH_AUTH_SOCK=/.werf/tmp/ssh-auth-sock"].
Definition add : gmap string string := {[ "MODE" := "prod" ]}.

Example env_of_spec : modifyEnv 0 env ["/DEBUG/"] add = Ok ["PATH=/bin"; "MODE=prod"] \/ modifyEnv 0 env ["/DEBUG/"] add = Ok ["MODE=prod"; "PATH=/bin"].
Proof. vm_compute. auto. Qed.


Lemma modifyEnv_spec_witness : exists p l m, compileRemovePatterns (["/DEBUG/"] ++ werfCommitEnvs) = Ok p /\ modifyEnv 0 env ["/DEBUG/"] add = Ok l /\
  l ≡ₚ ((fun kv => kv.1 +:+ "=" +:+ kv.2) <$> map_to_list m) /\ m !! "WERF_COMMIT_HASH" = None.
Proof.
  destruct (compileRemovePatterns (["/DEBUG/"] ++ werfCommitEnvs)) as [p| |] eqn:E; [|discriminate E..].
  destruct (modifyEnv_spec 0 env ["/DEBUG/"] add p E) as (l & m & H1 & H2 & H3); [intros k v _; exists v; reflexivity|].
  exists p, l, m. split; [reflexivity|]. split; [exact H1|]. split; [exact H2|].
  destruct (H3 "WERF_COMMIT_HASH") as (_ & _ & H). apply H; [apply list_elem_of_In; vm_compute; auto|reflexivity].
Defined.

Definition labels : gmap string string := {[ "werf" := "app"; "maintainer" := "me" ]}.
Definition service : gmap string string := {[ Image.WerfStageContentDigestLabel := "d" ]}.

Lemma modifyLabels_spec_witness : exists p m warned, compileRemovePatterns ["maintainer"; "werf"] = Ok p /\
  modifyLabels 0 "p" "i" labels service {[ "team" := "a" ]} ["maintainer"; "werf"] false = Ok (m, warned) /\ is_Some (m !! "werf").
Proof.
  destruct (compileRemovePatterns ["maintainer"; "werf"]) as [p| |] eqn:E; [|discriminate E..].
  destruct (modifyLabels_spec 0 "p" "i" labels service {[ "team" := "a" ]} ["maintainer"; "werf"] false p E) as (m & w & H1 & _ & H3).
  { intros k v _. exists (k, v). reflexivity. }
  exists p, m, w. split; [reflexivity|]. split; [exact H1|]. destruct (H3 "werf") as [_ H]. apply H; [reflexivity|]. exists "app". reflexivity.
Defined.

Example labels_of_spec : modifyLabels 0 "p" "i" labels service {[ "team" := "a" ]} ["maintainer"; "werf"] false =
  Ok ({[ "werf" := "app"; Image.WerfStageContentDigestLabel := "d"; "team" := "a" ]}, true).
Proof. vm_compute. reflexivity. Qed.

(** The image has a command; the imageSpec an entrypoint and an empty list for a command: the command stays. *)
Definition previous : Image.Info := Image.mkInfo "" "" "" "" [] env "" "" labels 0 0 {[ "/data" ]} false [].
Definition config : Image.ConfigFile unit := Image.mkConfigFile "" [] None None env None "" ["serve"] [] "" "" None.
Definition spec (cmd : option (list string)) : ImageSpec :=
  mkImageSpec "" false false false [] ["/data"] [] false false false false ["/logs"] None ∅ "" cmd (Some ["/init"]) "" "" (Some ["80"])
    (Some (mkhealthConfig ["NONE"] 30 5 0 3)).

Definition written (cmd : option (list string)) : option (list string) :=
  match PrepareImage 0 "p" "i" (Some (spec cmd)) previous service with
  | Ok (Some c, _) => Some (Image.cfCmd (Image.UpdateConfigFile c config))
  | _ => None
  end.

Example command_is_reset : written None = Some [].
Proof. vm_compute. reflexivity. Qed.

Example empty_command_is_no_command : written (Some []) = Some ["serve"].
Proof. vm_compute. reflexivity. Qed.

Lemma PrepareImage_writes_witness : exists c w, PrepareImage 0 "p" "i" (Some (spec None)) previous service = Ok (Some c, w) /\
  Image.cfCmd (Image.UpdateConfigFile c config) = [] /\ Image.cfEntrypoint (Image.UpdateConfigFile c config) = ["/init"].
Proof.
  destruct (PrepareImage 0 "p" "i" (Some (spec None)) previous service) as [[[c|] w]| |] eqn:E; [|vm_compute in E; discriminate E..].
  destruct (PrepareImage_writes 0 "p" "i" (spec None) previous service c w config E) as (_ & _ & H1 & H2 & _).
  exists c, w. split; [reflexivity|]. split; [exact H1|exact H2].
Defined.

(** The author of the meta section is taken over the one of the image. *)
Example author_of_meta : Author (mergeImageSpec (mkImageSpec "meta" false false false [] [] [] false false false false [] None ∅ "" None None "" "" None None)
  (Some (mkImageSpec "image" false false false [] [] [] false false false false [] None ∅ "" None None "" "" None None))) = "meta".
Proof. reflexivity. Qed.

(** A pattern of one slash is a slice out of range. *)
Example slash_panics : compileRemovePatterns ["/"] = Panic "slice bounds out of range [1:0]".
Proof. reflexivity. Qed.

(** What has one digest does different things. *)
Example removals_differ :
  modifyEnv 0 env (RemoveEnv (removing_volume "DEBUG")) ∅ <> modifyEnv 0 env (RemoveEnv (removing_env "DEBUG")) ∅.
Proof. vm_compute. discriminate. Qed.

End ImageSpecsExamples.
