(* ===== verification/Conveyor.v ===== *)
(** pkg/build/conveyor.go: what the conveyor of a build keeps. Images of stages are objects that
    the stages share, so they live in a heap, and the map [stageImages] and the stages have
    pointers to them; so do the descriptions of the stages' own state. Also the interfaces
    through which the build acts: the stages, the container backend, the lock manager, and what
    a storage does with images. *)
From S2P Require Import Prelude Go Image Registry StagesStorage StorageManager GitMapping Stages.

Module Conveyor.
Import StagesStorage StorageManager GitMapping.

(** * The objects *)

(** A call of a stage builder: what is built is whatever the backend makes of them. *)
Inductive BuilderCall :=
| AddLabels (labels : gmap string string)
| AddEnvs (envs : gmap string string)
| AppendLabels (labels : list string)
| SetBuildContextArchive
| AppendPostLabel (key value : string)
| OtherCall (call : string).

(** [Image] and [Builder]; the builder was made with the name of the base image. *)
Record StageImage := mkStageImage {
  si_Image : LegacyImage;
  si_BaseImage : string;
  si_Builder : list BuilderCall;
}.

Record StageMeta := mkStageMeta {
  Rebuilt : bool; BaseImagePulled : bool; BaseImageSourceType : string; BuildTime : string;
}.

(** The fields of a stage that the phases set. *)
Record StageState := mkStageState {
  ss_digest : string;
  ss_contentDigest : string;
  ss_stageImage : option positive;
  ss_meta : StageMeta;
}.

Definition NewStageState : StageState := mkStageState "" "" None (mkStageMeta false false "" "").

(** A stage as the other parts refer to it. *)
Record StageRef := mkStageRef { ref_ptr : positive; ref_LogDetailedName : string }.

(** The fields of an image that change. *)
Record ImageState := mkImageState {
  lastNonEmptyStage : option StageRef;
  is_contentDigest : string;
  is_rebuilt : bool;
  baseImageReference : string;
  baseStageImage : option positive;
  stageAsBaseImage : option StageRef;
  baseImageRepoId : string;
  baseImageRepoDigest : string;
}.

(** An image for several platforms, with the pointers of its images. *)
Record MultiplatformImage := mkMultiplatformImage {
  mp_ptr : positive;
  mp_Name : string;
  mp_IsFinal : bool;
  mp_Images : list positive;
  mp_stageID : Image.StageID;
  mp_stageDesc : option Image.StageDesc;
  mp_finalStageDesc : option ImageDesc;
}.

(** The fields of the conveyor and of its images tree that change, and the commits that git
    mappings remember. *)
Record Conv := mkConv {
  heap : gmap positive StageImage;
  stageImages : gmap string positive;
  stageStates : gmap positive StageState;
  imageStates : gmap positive ImageState;
  heldDigests : gset string;
  shouldAddManagedImagesRecords : bool;
  onTerminateFuncs : list positive;
  baseImagesRepoIdsCache : gmap string string;
  baseImagesRepoErrCache : gmap string error;
  multiplatformImages : list MultiplatformImage;
  baseCommits : BaseCommits;
}.

Definition set_heap (c : Conv) (h : gmap positive StageImage) : Conv :=
  mkConv h (stageImages c) (stageStates c) (imageStates c) (heldDigests c)
    (shouldAddManagedImagesRecords c) (onTerminateFuncs c) (baseImagesRepoIdsCache c)
    (baseImagesRepoErrCache c) (multiplatformImages c) (baseCommits c).
Definition set_stageImages (c : Conv) (m : gmap string positive) : Conv :=
  mkConv (heap c) m (stageStates c) (imageStates c) (heldDigests c)
    (shouldAddManagedImagesRecords c) (onTerminateFuncs c) (baseImagesRepoIdsCache c)
    (baseImagesRepoErrCache c) (multiplatformImages c) (baseCommits c).
Definition set_stageStates (c : Conv) (m : gmap positive StageState) : Conv :=
  mkConv (heap c) (stageImages c) m (imageStates c) (heldDigests c)
    (shouldAddManagedImagesRecords c) (onTerminateFuncs c) (baseImagesRepoIdsCache c)
    (baseImagesRepoErrCache c) (multiplatformImages c) (baseCommits c).
Definition set_imageStates (c : Conv) (m : gmap positive ImageState) : Conv :=
  mkConv (heap c) (stageImages c) (stageStates c) m (heldDigests c)
    (shouldAddManagedImagesRecords c) (onTerminateFuncs c) (baseImagesRepoIdsCache c)
    (baseImagesRepoErrCache c) (multiplatformImages c) (baseCommits c).
Definition set_heldDigests (c : Conv) (s : gset string) : Conv :=
  mkConv (heap c) (stageImages c) (stageStates c) (imageStates c) s
    (shouldAddManagedImagesRecords c) (onTerminateFuncs c) (baseImagesRepoIdsCache c)
    (baseImagesRepoErrCache c) (multiplatformImages c) (baseCommits c).
Definition set_shouldAdd (c : Conv) (b : bool) : Conv :=
  mkConv (heap c) (stageImages c) (stageStates c) (imageStates c) (heldDigests c) b
    (onTerminateFuncs c) (baseImagesRepoIdsCache c) (baseImagesRepoErrCache c) (multiplatformImages c) (baseCommits c).
Definition set_onTerminateFuncs (c : Conv) (l : list positive) : Conv :=
  mkConv (heap c) (stageImages c) (stageStates c) (imageStates c) (heldDigests c)
    (shouldAddManagedImagesRecords c) l (baseImagesRepoIdsCache c) (baseImagesRepoErrCache c)
    (multiplatformImages c) (baseCommits c).
Definition set_repoCaches (c : Conv) (ids : gmap string string) (errs : gmap string error) : Conv :=
  mkConv (heap c) (stageImages c) (stageStates c) (imageStates c) (heldDigests c)
    (shouldAddManagedImagesRecords c) (onTerminateFuncs c) ids errs (multiplatformImages c) (baseCommits c).
Definition set_multiplatform (c : Conv) (l : list MultiplatformImage) : Conv :=
  mkConv (heap c) (stageImages c) (stageStates c) (imageStates c) (heldDigests c)
    (shouldAddManagedImagesRecords c) (onTerminateFuncs c) (baseImagesRepoIdsCache c)
    (baseImagesRepoErrCache c) l (baseCommits c).
Definition set_baseCommits (c : Conv) (b : BaseCommits) : Conv :=
  mkConv (heap c) (stageImages c) (stageStates c) (imageStates c) (heldDigests c)
    (shouldAddManagedImagesRecords c) (onTerminateFuncs c) (baseImagesRepoIdsCache c)
    (baseImagesRepoErrCache c) (multiplatformImages c) b.

(** * The interfaces *)

(** What a storage does with images: [Kind] is the type of the storage. *)
Inductive StorageKind := LocalStorage | RepoStorage | OtherStorage.

Record ImageOps (W : Type) := mkImageOps {
  Kind : StorageKind;
  StoreImage : LegacyImage -> prog W LegacyImage;
  FetchImage : LegacyImage -> prog W LegacyImage;
  ShouldFetchImage : LegacyImage -> prog W (bool * LegacyImage);
  PostMultiplatformImage : string -> string -> list Image.Info -> list string -> prog W unit;
}.
Arguments Kind {W} _. Arguments StoreImage {W} _ _. Arguments FetchImage {W} _ _.
Arguments ShouldFetchImage {W} _ _. Arguments PostMultiplatformImage {W} _ _ _ _ _.

(** The container backend with the host: names of images are locked on the host, their use is
    noted, a clock and unique names. *)
Record Backend (W : Type) := mkBackend {
  GetBackendImageInfo : string -> prog W (option Image.Info);
  PullImageFromRegistry : LegacyImage -> prog W LegacyImage;
  RenameImage : LegacyImage -> string -> bool -> prog W LegacyImage;
  RefreshImageObject : LegacyImage -> prog W LegacyImage;
  BuilderBuild : StageImage -> prog W LegacyImage;
  Introspect : LegacyImage -> prog W unit;
  LockStageImage : string -> prog W unit;
  AccessImage : string -> prog W unit;
  Now : prog W Z;
  NewUUID : prog W string;
  GetOrCreateStapelContainer : prog W unit;
  GetRepoImage : string -> prog W Image.Info;
}.
Arguments GetBackendImageInfo {W} _ _. Arguments PullImageFromRegistry {W} _ _.
Arguments RenameImage {W} _ _ _ _. Arguments RefreshImageObject {W} _ _.
Arguments BuilderBuild {W} _ _. Arguments Introspect {W} _ _. Arguments LockStageImage {W} _ _.
Arguments AccessImage {W} _ _. Arguments Now {W} _. Arguments NewUUID {W} _.
Arguments GetOrCreateStapelContainer {W} _. Arguments GetRepoImage {W} _ _.

(** The locks of the project's stages, which all processes share. *)
Record LockManager (W H : Type) := mkLockManager {
  LockStage : string -> string -> prog W H;
  Unlock : H -> prog W unit;
}.
Arguments LockStage {W H} _ _ _. Arguments Unlock {W H} _ _.

(** stage.Interface. An image of a stage is a pointer, which may be nil. *)
Record Stage (W : Type) := mkStage {
  ref : StageRef;
  Name : string;
  HasPrevStage : bool;
  IsStapelStage : bool;
  IsBuildable : bool;
  IsMutable : bool;
  UsesBuildContext : bool;
  (** the types [instruction.From] and [FullDockerfileStage] *)
  isFromInstruction : bool;
  isFullDockerfileStage : bool;
  stg_IsEmpty : option positive -> prog (Env W Conv) bool;
  FetchDependencies : prog (Env W Conv) unit;
  ExpandDependencies : gmap string string -> prog (Env W Conv) unit;
  GetDependencies : option positive -> option positive -> prog (Env W Conv) string;
  GetNextStageDependencies : prog (Env W Conv) string;
  PrepareImage : option positive -> positive -> prog (Env W Conv) unit;
  PreRun : prog (Env W Conv) unit;
  MutateImage : Storage W -> option positive -> positive -> prog (Env W Conv) unit;
  stg_SelectSuitableStageDesc : StageDescSet ->
    prog (Env W Conv) (option (positive * Image.StageDesc));
}.
Arguments ref {W} _. Arguments Name {W} _. Arguments HasPrevStage {W} _.
Arguments IsStapelStage {W} _. Arguments IsBuildable {W} _. Arguments IsMutable {W} _.
Arguments UsesBuildContext {W} _. Arguments isFromInstruction {W} _.
Arguments isFullDockerfileStage {W} _. Arguments stg_IsEmpty {W} _ _.
Arguments FetchDependencies {W} _. Arguments ExpandDependencies {W} _ _.
Arguments GetDependencies {W} _ _ _. Arguments GetNextStageDependencies {W} _.
Arguments PrepareImage {W} _ _ _. Arguments PreRun {W} _. Arguments MutateImage {W} _ _ _ _.
Arguments stg_SelectSuitableStageDesc {W} _ _.

Inductive BaseImageType := NoBaseImage | ImageFromRegistryAsBaseImage | StageAsBaseImage.

#[export] Instance BaseImageType_eq_dec : EqDecision BaseImageType.
Proof. solve_decision. Defined.

(** The fields of an image that do not change. [expandReference] is the expander of a Dockerfile
    image, applied to the arguments that its dependencies give. *)
Record Image (W : Type) := mkImage {
  im_ptr : positive;
  im_Name : string;
  IsFinal : bool;
  IsDockerfileImage : bool;
  Staged : bool;
  im_TargetPlatform : string;
  baseImageType : BaseImageType;
  baseImageName : string;
  configBaseImageReference : string;
  expandReference : option (string -> prog (Env W Conv) string);
  stages : list (Stage W);
}.
Arguments im_ptr {W} _. Arguments im_Name {W} _. Arguments IsFinal {W} _.
Arguments IsDockerfileImage {W} _. Arguments Staged {W} _. Arguments im_TargetPlatform {W} _.
Arguments baseImageType {W} _. Arguments baseImageName {W} _.
Arguments configBaseImageReference {W} _. Arguments expandReference {W} _. Arguments stages {W} _.

Section conveyor.
Context {W : Type}.
Abbreviation P := (prog (Env W Conv)).

(** * Programs of the conveyor *)

Definition gets {A} (f : Conv -> A) : P A := c ← get_own; mret (f c).
Definition modify (f : Conv -> Conv) : P unit := c ← get_own; set_own (f c).

(** A program of the git mappings. *)
Definition git {A} (m : prog (W * BaseCommits) A) : P A := fun e =>
  let '(r, (w, b)) := m (ext e, baseCommits (own e)) in
  (r, mkEnv w (tick e) (next_ptr e) (FinalStagesListCache e) (set_baseCommits (own e) b)).

(** [defer f()]: whatever the rest returns, [f] runs after it. *)
Definition finally {E A} (m : prog E A) (f : prog E unit) : prog E A := fun e =>
  let '(r, e1) := m e in
  match f e1 with
  | (Panic p, e2) => (Panic p, e2)
  | (_, e2) => (r, e2)
  end.

(** ** Images *)

Definition read (p : positive) : P StageImage := h ← gets heap; deref (h !! p).
Definition write (p : positive) (i : StageImage) : P unit :=
  modify (fun c => set_heap c (<[p := i]> (heap c))).

(** [p.Image] of a pointer that may be nil. *)
Definition image_of (p : option positive) : P LegacyImage :=
  p ← deref p; i ← read p; mret (si_Image i).

(** What an operation makes of an image. *)
Definition upd_image (p : positive) (f : LegacyImage -> P LegacyImage) : P unit :=
  i ← read p; img ← f (si_Image i);
  i' ← read p; write p (mkStageImage img (si_BaseImage i') (si_Builder i')).

Definition with_name (i : LegacyImage) (name : string) : LegacyImage :=
  mkLegacyImage name (TargetPlatform i) (info i) (stageDesc i) (finalStageDesc i) (builtID i)
    (buildServiceLabels i).
Definition with_info (i : LegacyImage) (x : option Image.Info) : LegacyImage :=
  mkLegacyImage (img_Name i) (TargetPlatform i) x (stageDesc i) (finalStageDesc i) (builtID i)
    (buildServiceLabels i).
Definition with_stageDesc (i : LegacyImage) (d : ImageDesc) : LegacyImage :=
  mkLegacyImage (img_Name i) (TargetPlatform i) (Some (idInfo d)) (Some d) (finalStageDesc i)
    (builtID i) (buildServiceLabels i).
Definition with_finalStageDesc (i : LegacyImage) (d : option ImageDesc) : LegacyImage :=
  mkLegacyImage (img_Name i) (TargetPlatform i) (info i) (stageDesc i) d (builtID i)
    (buildServiceLabels i).
Definition with_labels (i : LegacyImage) (l : gmap string string) : LegacyImage :=
  mkLegacyImage (img_Name i) (TargetPlatform i) (info i) (stageDesc i) (finalStageDesc i)
    (builtID i) l.

Definition NewLegacyStageImage (name targetPlatform : string) : LegacyImage :=
  mkLegacyImage name targetPlatform None None None "" ∅.

(** [SetStageDesc] also sets the info. *)
Definition SetStageDesc (p : positive) (d : ImageDesc) : P unit :=
  upd_image p (fun i => mret (with_stageDesc i d)).

Definition legacy_GetCopy (i : LegacyImage) : LegacyImage :=
  let ni := NewLegacyStageImage (img_Name i) (TargetPlatform i) in
  match stageDesc i with
  | Some d => with_stageDesc ni (mkImageDesc ((fun x => Image.NewStageID (Image.Digest x) (Image.CreationTs x)) <$> idStageID d)
                                  (Image.Info_GetCopy (idInfo d)))
  | None => with_info ni (Image.Info_GetCopy <$> info i)
  end.

(** ** Stages *)

Definition state_of (s : StageRef) (c : Conv) : StageState :=
  default NewStageState (stageStates c !! ref_ptr s).

Definition upd_stage (s : StageRef) (f : StageState -> StageState) : P unit :=
  modify (fun c => set_stageStates c (<[ref_ptr s := f (state_of s c)]> (stageStates c))).

Definition GetDigest (s : StageRef) : P string := gets (fun c => ss_digest (state_of s c)).
Definition GetContentDigest (s : StageRef) : P string := gets (fun c => ss_contentDigest (state_of s c)).
Definition GetStageImage (s : StageRef) : P (option positive) := gets (fun c => ss_stageImage (state_of s c)).

Definition SetDigest (s : StageRef) (d : string) : P unit :=
  upd_stage s (fun x => mkStageState d (ss_contentDigest x) (ss_stageImage x) (ss_meta x)).
Definition SetContentDigest (s : StageRef) (d : string) : P unit :=
  upd_stage s (fun x => mkStageState (ss_digest x) d (ss_stageImage x) (ss_meta x)).
Definition SetStageImage (s : StageRef) (p : positive) : P unit :=
  upd_stage s (fun x => mkStageState (ss_digest x) (ss_contentDigest x) (Some p) (ss_meta x)).
Definition SetMeta (s : StageRef) (m : StageMeta) : P unit :=
  upd_stage s (fun x => mkStageState (ss_digest x) (ss_contentDigest x) (ss_stageImage x) m).

(** [stg.GetStageImage().Image]. *)
Definition stage_image (s : StageRef) : P LegacyImage := p ← GetStageImage s; image_of p.
(** [stg.GetStageImage().Image.GetStageDesc().StageID], and the info. *)
Definition stage_desc (s : StageRef) : P ImageDesc := i ← stage_image s; deref (stageDesc i).
Definition stage_id (s : StageRef) : P Image.StageID := d ← stage_desc s; deref (idStageID d).

(** ** The map of images *)

Definition conv_GetStageImage (name : string) : P (option positive) :=
  gets (fun c => stageImages c !! name).
Definition conv_UnsetStageImage (name : string) : P unit :=
  modify (fun c => set_stageImages c (delete name (stageImages c))).
Definition conv_SetStageImage (p : positive) : P unit :=
  i ← read p;
  modify (fun c => set_stageImages c (<[img_Name (si_Image i) := p]> (stageImages c))).

(** ** States of images *)

Definition NewImageState (img : Image W) : ImageState :=
  mkImageState None "" false (configBaseImageReference img) None None "" "".

Definition image_state (img : Image W) (c : Conv) : ImageState :=
  default (NewImageState img) (imageStates c !! im_ptr img).

Definition upd_state (img : Image W) (f : ImageState -> ImageState) : P unit :=
  modify (fun c => set_imageStates c (<[im_ptr img := f (image_state img c)]> (imageStates c))).

Definition GetLastNonEmptyStage (img : Image W) : P StageRef :=
  s ← gets (fun c => lastNonEmptyStage (image_state img c)); deref s.
Definition GetBaseStageImage (img : Image W) : P (option positive) :=
  gets (fun c => baseStageImage (image_state img c)).
Definition GetBaseImageReference (img : Image W) : P string :=
  gets (fun c => baseImageReference (image_state img c)).
Definition IsBasedOnStage (img : Image W) : bool :=
  bool_decide (baseImageType img = StageAsBaseImage).

Definition SetLastNonEmptyStage (img : Image W) (s : StageRef) : P unit :=
  upd_state img (fun x => mkImageState (Some s) (is_contentDigest x) (is_rebuilt x)
    (baseImageReference x) (baseStageImage x) (stageAsBaseImage x) (baseImageRepoId x) (baseImageRepoDigest x)).
Definition image_SetContentDigest (img : Image W) (d : string) : P unit :=
  upd_state img (fun x => mkImageState (lastNonEmptyStage x) d (is_rebuilt x)
    (baseImageReference x) (baseStageImage x) (stageAsBaseImage x) (baseImageRepoId x) (baseImageRepoDigest x)).
Definition SetRebuilt (img : Image W) : P unit :=
  upd_state img (fun x => mkImageState (lastNonEmptyStage x) (is_contentDigest x) true
    (baseImageReference x) (baseStageImage x) (stageAsBaseImage x) (baseImageRepoId x) (baseImageRepoDigest x)).
Definition SetBase (img : Image W) (reference : string) (base : option positive) (s : option StageRef) : P unit :=
  upd_state img (fun x => mkImageState (lastNonEmptyStage x) (is_contentDigest x) (is_rebuilt x)
    reference base s (baseImageRepoId x) (baseImageRepoDigest x)).
Definition SetBaseRepo (img : Image W) (id digest : string) : P unit :=
  upd_state img (fun x => mkImageState (lastNonEmptyStage x) (is_contentDigest x) (is_rebuilt x)
    (baseImageReference x) (baseStageImage x) (stageAsBaseImage x) id digest).

(** The image's description of the stage: [GetStageID]. *)
Definition image_GetStageID (img : Image W) : P string :=
  s ← GetLastNonEmptyStage img; d ← stage_desc s; mret (Image.Tag (idInfo d)).

(** An image is made once for a name; [prev] is the image it is built from. *)
Definition GetOrCreateStageImage (name : string) (prev : option positive) (stg : option (Stage W))
  (img : Image W) : P positive :=
  found ← conv_GetStageImage name;
  match found with
  | Some p => mret p
  | None =>
      baseImage ← (match stg with
                   | None => mret ""
                   | Some s =>
                       if HasPrevStage s || (IsStapelStage s && bool_decide (Name s = "from"))
                       then i ← image_of prev; mret (img_Name i)
                       else GetBaseImageReference img
                   end);
      p ← alloc;
      write p (mkStageImage (NewLegacyStageImage name (im_TargetPlatform img)) baseImage []) ;;
      conv_SetStageImage p ;; mret p
  end.

(** ** The mutexes of the digests. A build of one image that locks what it has locked waits for
    ever. *)

Definition lockDigest (d : string) : P unit :=
  held ← gets heldDigests;
  if bool_decide (d ∈ held) then panic "all goroutines are asleep - deadlock!"
  else modify (fun c => set_heldDigests c ({[d]} ∪ heldDigests c)).

Definition unlockDigest (d : string) : P unit :=
  held ← gets heldDigests;
  if bool_decide (d ∈ held) then modify (fun c => set_heldDigests c (heldDigests c ∖ {[d]}))
  else panic "sync: unlock of unlocked mutex".

Definition SetShouldAddManagedImagesRecords : P unit := modify (fun c => set_shouldAdd c true).
Definition ShouldAddManagedImagesRecords : P bool := gets shouldAddManagedImagesRecords.
Definition AppendOnTerminateFunc (p : positive) : P unit :=
  modify (fun c => set_onTerminateFuncs c (onTerminateFuncs c ++ [p])).

End conveyor.
End Conveyor.
