(* ===== verification/StageCopies.v ===== *)
(** pkg/storage/manager, where images are moved (copy.go and the rest of storage_manager.go):
    fetching the image of a stage from the cache storages or the primary one, copying stages
    between storages, the choice of a stage for a digest, and the retry after the primary storage
    turned out not to have what it lists. *)
From S2P Require Import Prelude Go Image Registry StagesStorage StorageManager GitMapping Conveyor.

Module StageCopies.
Import StagesStorage StorageManager Conveyor.

Definition ErrUnexpectedStagesStorageState : error := Errorf "unexpected stages storage state" [].
Definition ErrStageNotFound : error := Errorf "stage not found" [].

Definition BaseImageSourceTypeCacheRepo : string := "cache-repo".
Definition BaseImageSourceTypeRepo : string := "repo".
Definition BaseImageSourceTypeRegistry : string := "registry".
Definition BaseImageSourceTypeSecondary : string := "secondary".

Record FetchInfo := mkFetchInfo { fi_BaseImagePulled : bool; fi_BaseImageSource : string }.

Record CopyStageOptions := mkCopyStageOptions {
  opt_LegacyImage : option positive;
  opt_FetchStage : option StageRef;
}.

Record CopyStageIntoStorageOptions := mkCopyStageIntoStorageOptions {
  into_FetchStage : option StageRef;
  into_ShouldBeBuiltMode : bool;
  into_LogDetailedName : string;
}.

Section copies.
Context {W : Type} `{!GoQuote, !Nondet}.
Abbreviation P := (prog (Env W Conv)).

Definition IsErrUnexpectedStagesStorageState (err : error) : bool :=
  Str.HasSuffix (err_text err) (err_text ErrUnexpectedStagesStorageState).
Definition IsErrStageNotFound (err : error) : bool :=
  Str.HasSuffix (err_text err) (err_text ErrStageNotFound).

(** The call is repeated for as long as it fails in this way; [None] is that it was repeated
    [fuel] times. *)
Fixpoint RetryOnUnexpectedStagesStorageState {E A} (fuel : nat) (f : prog E A) : prog E (option A) :=
  match fuel with
  | 0 => mret None
  | S fuel' =>
      r ← try f;
      match r with
      | inl a => mret (Some a)
      | inr err =>
          if IsErrUnexpectedStagesStorageState err
          then RetryOnUnexpectedStagesStorageState fuel' f else fail err
      end
  end.

Variable m : Manager W.
Variable ops : Storage W -> ImageOps W.
Variable be : Backend W.
Abbreviation primary := (StagesStorage m).

Definition accessing (imageName : string) : P unit :=
  wrap "error accessing last recently used images cache for %s: %w" [FS imageName]
    (call (AccessImage be imageName)).

Definition storingDesc (id : Image.StageID) (st : Storage W) (imageName : string) (d : Image.StageDesc)
  : P unit :=
  wrap "error storing stage %s description into local manifest cache: %w" [FS imageName]
    (call (storeStageDescIntoLocalManifestCache m id st d)).

(** Of an image that has one: only the info is stored. *)
Definition desc_of (id : Image.StageID) (i : LegacyImage) : P Image.StageDesc :=
  d ← deref (stageDesc i); mret (Image.mkStageDesc id (idInfo d)).

Definition shouldFetch (st : Storage W) (p : positive) : P bool :=
  i ← read p;
  r ← call (ShouldFetchImage (ops st) (si_Image i));
  write p (mkStageImage r.2 (si_BaseImage i) (si_Builder i)) ;; mret r.1.

(** ** Copies *)

(** [before] is the fetch of the stage, where the options ask for one. *)
Definition copyStageFromLocalStorage (before : P unit) (dest : Storage W) (id : Image.StageID)
  (legacyImage : option positive) : P (option ImageDesc) :=
  match legacyImage with
  | None => panic "expected non empty LegacyImage parameter"
  | Some p =>
      before ;;
      old ← read p;
      let newImg := legacy_GetCopy (si_Image old) in
      let destImageName := stageImageName m dest id in
      newImg ← wrap "unable to rename image %s to %s: %w" [FS (img_Name (si_Image old)); FS destImageName]
        (call (RenameImage be newImg destImageName false));
      newImg ← wrap "unable to store stage %s into the stages storage %s: %w"
        [FS (Image.StageID_String id); FS (Address dest)] (call (StoreImage (ops dest) newImg));
      d ← deref (stageDesc newImg);
      sid ← deref (idStageID d);
      storingDesc id dest destImageName
        (ConvertStageDescForStagesStorage (Image.mkStageDesc sid (idInfo d)) dest) ;;
      accessing destImageName ;;
      mret (stageDesc newImg)
  end.

Definition copyStage (before : P unit) (src dest : Storage W) (id : Image.StageID)
  (legacyImage : option positive) : P (option ImageDesc) :=
  match Kind (ops src) with
  | LocalStorage => copyStageFromLocalStorage before dest id legacyImage
  | RepoStorage =>
      d ← call (CopyFromStorage W dest (ConstructStageImageName W src) (ProjectName m) id);
      mret (of_StageDesc <$> d)
  | OtherStorage => panic "not implemented for storage"
  end.

(** ** Fetching *)

(** The freshest description, then the image. *)
Definition doFetchStage (st : Storage W) (id : Image.StageID) (p : positive) : P unit :=
  fresh ← wrap "unable to get stage description: %w" [] (call (GetStageDesc W st (ProjectName m) id));
  (match fresh with
   | None => fail ErrStageNotFound
   | Some d => SetStageDesc p (of_StageDesc d)
   end) ;;
  i ← read p;
  wrap "unable to fetch stage %s image %s: %w" [FS (Image.StageID_String id); FS (img_Name (si_Image i))]
    (upd_image p (fun i => call (FetchImage (ops st) i))).

Definition res_of {A} (pulled : bool) (a : A) (r : unit + error) : bool * (A + error) :=
  (pulled, match r with inl _ => inl a | inr e => inr e end).

(** An image of its own is fetched from a cache storage; also whether anything was pulled, which
    is kept where it failed. *)
Definition fetchStageFromCache (stg : StageRef) (pulled : bool) (st : Storage W)
  : P (bool * (positive + error)) :=
  id ← stage_id stg;
  let imageName := stageImageName m st id in
  own ← stage_image stg;
  p ← alloc;
  write p (mkStageImage (NewLegacyStageImage imageName (TargetPlatform own)) "" []) ;;
  should ← try (wrap "error checking should fetch image from cache repo %s: %w" [FS (Address st)]
    (shouldFetch st p));
  match should with
  | inr e => mret (pulled, inr e)
  | inl true =>
      r ← try (doFetchStage st id p ;;
               i ← read p; d ← desc_of id (si_Image i);
               storingDesc id st imageName d ;;
               i ← read p; accessing (img_Name (si_Image i)));
      mret (res_of true p r)
  | inl false =>
      r ← try (call (getStageDesc m id st [] true));
      match r with
      | inr e =>
          (* the text of the error has the name of the final storage *)
          final ← deref (FinalStagesStorage m);
          mret (pulled, inr (Wrapf "error getting stage %s description from %s: %w"
                               [FS (Image.StageID_String id); FS (Address final)] e))
      | inl None => mret (pulled, inr ErrStageNotFound)
      | inl (Some d) =>
          SetStageDesc p (of_StageDesc d) ;;
          i ← read p;
          r ← try (accessing (img_Name (si_Image i)));
          mret (res_of false p r)
      end
  end.

(** The image of the cache gets the name that the primary storage gives it. *)
Definition prepareCacheStageAsPrimary (cacheImg : positive) (stg : StageRef) : P unit :=
  q ← GetStageImage stg; q ← deref q;
  id ← stage_id stg;
  let primaryImageName := stageImageName m primary id in
  c ← read cacheImg;
  wrap "unable to rename image %s to %s: %w" [FS (img_Name (si_Image c)); FS primaryImageName]
    (upd_image cacheImg (fun i => call (RenameImage be i primaryImageName true))) ;;
  wrap "unable to refresh stage image %s: %w" [FS primaryImageName]
    (upd_image q (fun i => call (RefreshImageObject be i))) ;;
  i ← read q; d ← desc_of id (si_Image i);
  storingDesc id primary primaryImageName d ;;
  accessing primaryImageName.

(** The first cache that gives the image, whether anything was pulled, and the caches before it,
    which are refilled. *)
Fixpoint fetchFromCaches (stg : StageRef) (caches : list (Storage W)) (pulled : bool)
  (refill : list (Storage W)) : P (option positive * bool * list (Storage W)) :=
  match caches with
  | [] => mret (None, pulled, refill)
  | cache :: caches' =>
      r ← fetchStageFromCache stg pulled cache;
      match r.2 with
      | inr _ => fetchFromCaches stg caches' r.1 (refill ++ [cache])
      | inl cacheImg =>
          prepared ← try (prepareCacheStageAsPrimary cacheImg stg);
          match prepared with
          | inr _ => fetchFromCaches stg caches' r.1 (refill ++ [cache])
          | inl _ => mret (Some cacheImg, r.1, refill)
          end
      end
  end.

(** A stage that is not there any more, or is broken, is rejected. *)
Definition fetchFromPrimary (stg : StageRef) : P positive :=
  q ← GetStageImage stg; q ← deref q;
  id ← stage_id stg;
  r ← try (doFetchStage primary id q);
  match r with
  | inl _ => mret q
  | inr err =>
      if IsErrStageNotFound err || IsErrBrokenImage err then
        i ← read q;
        wrap "unable to reject stage %s image %s in the stages storage %s: %w"
          [FS (ref_LogDetailedName stg); FS (img_Name (si_Image i)); FS (Address primary)]
          (call (RejectStage W primary (ProjectName m) (Image.Digest id) (Image.CreationTs id))) ;;
        fail ErrUnexpectedStagesStorageState
      else fail (Wrapf "unable to fetch stage %s from stages storage %s: %w"
                   [FS (Image.StageID_String id); FS (Address primary)] err)
  end.

Definition refillCaches (stg : StageRef) (fetched : positive) (refill : list (Storage W)) : P unit :=
  for_each refill (fun cache =>
    id ← stage_id stg;
    try (copyStage (mret tt) primary cache id (Some fetched)) ;; mret tt).

Definition FetchStage (stg : StageRef) : P FetchInfo :=
  q ← GetStageImage stg; q ← deref q;
  i ← read q;
  wrap "error locking stage image %q: %w" [FQ (img_Name (si_Image i))]
    (call (LockStageImage be (img_Name (si_Image i)))) ;;
  should ← wrap "error checking should fetch image: %w" [] (shouldFetch primary q);
  if negb should then
    id ← stage_id stg;
    accessing (stageImageName m primary id) ;;
    mret (mkFetchInfo false "")
  else
    r ← fetchFromCaches stg (CacheStagesStorageList m) false [];
    match r with
    | (Some cacheImg, pulled, refill) =>
        refillCaches stg cacheImg refill ;;
        mret (mkFetchInfo pulled BaseImageSourceTypeCacheRepo)
    | (None, pulled, refill) =>
        fetched ← fetchFromPrimary stg;
        refillCaches stg fetched refill ;;
        mret (mkFetchInfo pulled BaseImageSourceTypeRepo)
    end.

(** ** Copies of a stage *)

Definition CopyStage (src dest : Storage W) (id : Image.StageID) (opts : CopyStageOptions)
  : P (option ImageDesc) :=
  copyStage (match opt_FetchStage opts with
             | None => mret tt
             | Some stg =>
                 wrap "unable to fetch stage %s: %w" [FS (ref_LogDetailedName stg)] (FetchStage stg) ;;
                 mret tt
             end) src dest id (opt_LegacyImage opts).

(** The options of a copy, with the image of the stage that is fetched. *)
Definition copyOptions (fetch : option StageRef) : P CopyStageOptions :=
  match fetch with
  | None => mret (mkCopyStageOptions None None)
  | Some stg => q ← GetStageImage stg; q ← deref q; mret (mkCopyStageOptions (Some q) (Some stg))
  end.

(** A cache that cannot be written is only warned about. *)
Definition CopyStageIntoCacheStorages (id : Image.StageID) (caches : list (Storage W))
  (opts : CopyStageIntoStorageOptions) : P unit :=
  for_each caches (fun cache =>
    try (copyOpts ← copyOptions (into_FetchStage opts);
         wrap "unable to copy stage %s into cache stages storage %s: %w"
           [FS (Image.StageID_String id); FS (Address cache)]
           (CopyStage primary cache id copyOpts)) ;;
    mret tt).

Fixpoint findInFinal (final : Storage W) (id : Image.StageID) (ids : list Image.StageID)
  : P (option Image.StageDesc) :=
  match ids with
  | [] => mret None
  | existing :: ids' =>
      if Image.IsEqual existing id then
        desc ← wrap "unable to get stage %s descriptor from final repo %s: %w"
          [FS (Image.StageID_String id); FS (Address final)]
          (call (GetStageDesc W final (ProjectName m) id));
        match desc with
        | Some d => mret (Some d)
        | None => findInFinal final id ids'
        end
      else findInFinal final id ids'
  end.

Definition CopyStageIntoFinalStorage (id : Image.StageID) (finalStagesStorage : Storage W)
  (opts : CopyStageIntoStorageOptions) : P (option ImageDesc) :=
  final ← deref (FinalStagesStorage m);
  existing ← wrap "error getting existing stages list of final repo %s: %w" [FS (Address finalStagesStorage)]
    (getOrCreateFinalStagesListCache m final);
  found ← findInFinal final id existing;
  match found with
  | Some d => mret (Some (of_StageDesc d))
  | None =>
      if into_ShouldBeBuiltMode opts then
        fail (Errorf "%s with digest %s is not exist in the final repo"
                [FS (into_LogDetailedName opts); FS (Image.Digest id)])
      else
        copyOpts ← copyOptions (into_FetchStage opts);
        copy ← wrap "unable to copy stage %s into the final repo %s: %w"
          [FS (Image.StageID_String id); FS (Address finalStagesStorage)]
          (CopyStage primary finalStagesStorage id copyOpts);
        cache ← get_final_cache;
        set_final_cache (AddStageID (default [] cache) id) ;;
        mret copy
  end.

(** ** Stages of a digest *)

Definition SelectSuitableStageDesc (stg : Stage W) (set : StageDescSet)
  : P (option (positive * Image.StageDesc)) :=
  if bool_decide (set = ∅) then mret None else stg_SelectSuitableStageDesc stg set.

Definition GetStageDescSetByDigestWithCache (stageName stageDigest : string) (parentStageCreationTs : Z)
  : P StageDescSet :=
  GetStageDescSetByDigestFromStagesStorageWithCache m stageName stageDigest parentStageCreationTs primary.
Definition GetStageDescSetByDigest (stageName stageDigest : string) (parentStageCreationTs : Z)
  : P StageDescSet :=
  getStageDescSetByDigestFromStagesStorage m stageName stageDigest parentStageCreationTs primary [].

Definition CopySuitableStageDescByDigest (stageDesc : Image.StageDesc) (src dest : Storage W)
  (targetPlatform : string) : P (option Image.StageDesc) :=
  let name := Image.Name (Image.SDInfo stageDesc) in
  img ← wrap "unable to fetch %s from %s: %w" [FS name; FS (Address src)]
    (call (FetchImage (ops src) (NewLegacyStageImage name targetPlatform)));
  img ← call (RenameImage be img (stageImageName m dest (Image.SDStageID stageDesc)) false);
  wrap "unable to store %s to %s: %w" [FS name; FS (Address dest)] (call (StoreImage (ops dest) img)) ;;
  wrap "unable to get stage %s description from %s: %w"
    [FS (Image.StageID_String (Image.SDStageID stageDesc)); FS (Address dest)]
    (call (getStageDesc m (Image.SDStageID stageDesc) dest (CacheStagesStorageList m)
             (getWithLocalManifestCacheOption m))).

(** The loop over the stages only continues itself. *)
Definition GenerateStageDescCreationTs (digest : string) (set : StageDescSet) : P (string * Z) :=
  creationTs ← call (Now be);
  let imageName := ConstructStageImageName W primary (ProjectName m) digest creationTs in
  stageDescs ← iterate (map_to_list set);
  for_each stageDescs (fun d =>
    if bool_decide (Image.Name (Image.SDInfo d.2) = imageName) then mret tt else mret tt) ;;
  mret (imageName, creationTs).

End copies.
End StageCopies.
