(* ===== verification/BuildImage.v ===== *)
(** pkg/build/image/image.go: the base image of an image, found before its stages are processed
    and fetched before the first one is built; and pkg/build/image/multiplatform_image.go. *)
From S2P Require Import Prelude Go GoStd Image Registry StagesStorage StorageManager GitMapping Conveyor.
From S2P Require Import StageCopies.

Module BuildImage.
Import StagesStorage StorageManager Conveyor StageCopies.

(** A variable of an environment. *)
Definition parseKeyValue (env : string) : string * string :=
  match Str.SplitN env "=" 2 with
  | k :: v :: _ => (k, v)
  | [k] => (k, "")
  | [] => ("", "")
  end.

Definition EnvToMap (env : list string) : gmap string string :=
  foldl (fun res kv => <[(parseKeyValue kv).1 := (parseKeyValue kv).2]> res) ∅ env.

Definition packRepoIDAndDigest (repoID digest : string) : string := repoID +:+ "/" +:+ digest.
Definition unpackRepoIDAndDigest (packed : string) : res (string * string) :=
  match Str.SplitN packed "/" 2 with
  | [id; digest] => Ok (id, digest)
  | _ => Panic "index out of range"
  end.

Section image.
Context {W : Type} `{!GoQuote, !Nondet, !Hashes}.
Abbreviation P := (prog (Env W Conv)).

Definition isUnsupportedMediaTypeError (err : error) : bool :=
  Str.Contains (err_text err) "unsupported MediaType".

Variable m : Manager W.
Variable ops : Storage W -> ImageOps W.
Variable be : Backend W.
(** All images of the conveyor, and whether the staged Dockerfile is of the first version. *)
Variable images : list (Image W).
Variable stagedV1 : bool.

Definition GetImage (targetPlatform name : string) : P (Image W) :=
  if bool_decide (targetPlatform = "") then panic "assertion: targetPlatform should not be empty"
  else match List.find (fun img => bool_decide (im_Name img = name) &&
                                   bool_decide (im_TargetPlatform img = targetPlatform)) images with
       | Some img => mret img
       | None => panic "Image not found!"
       end.

Definition image_ExpandDependencies (img : Image W) (baseEnv : gmap string string) : P unit :=
  for_each (stages img) (fun stg =>
    wrap "unable to expand dependencies for stage %q: %w" [FQ (Name stg)]
      (ExpandDependencies stg baseEnv)).

Definition emptyInfo (name : string) : Image.Info :=
  Image.mkInfo name "" "" "" [] [] "" "" ∅ 0 0 ∅ false [].

Definition inspectBase (reference : string) : P (option Image.Info) :=
  wrap "unable to get base image %q manifest: %w" [FQ reference] (call (GetBackendImageInfo be reference)).

(** Of a base image from a registry; it is pulled where the backend does not have it. *)
Definition baseImageInfo (reference : string) (p : positive) : P (option Image.Info) :=
  if bool_decide (reference = "scratch") then mret (Some (emptyInfo reference))
  else
    info ← inspectBase reference;
    match info with
    | Some i => mret (Some i)
    | None => upd_image p (fun i => call (PullImageFromRegistry be i)) ;; inspectBase reference
    end.

Definition setupStageAsBase (img : Image W) : P unit :=
  base ← GetImage (im_TargetPlatform img) (baseImageName img);
  s ← GetLastNonEmptyStage base;
  q ← GetStageImage s;
  i ← image_of q;
  SetBase img (img_Name i) q (Some s).

(** The description of an image of a registry has no stage. *)
Definition setupRegistryBase (img : Image W) : P unit :=
  reference ← GetBaseImageReference img;
  reference ← (match IsDockerfileImage img, expandReference img with
               | true, Some expand =>
                   wrap "unable to expand dockerfile base image reference %q: %w" [FQ reference]
                     (expand reference)
               | _, _ => mret reference
               end);
  base ← gets (fun c => stageAsBaseImage (image_state img c));
  p ← GetOrCreateStageImage reference None None img;
  SetBase img reference (Some p) base ;;
  i ← read p;
  match stageDesc (si_Image i) with
  | Some _ => mret tt
  | None =>
      if IsDockerfileImage img && Staged img && stagedV1 then
        info ← baseImageInfo reference p;
        info ← deref info;
        SetStageDesc p (mkImageDesc None info)
      else mret tt
  end.

Definition SetupBaseImage (img : Image W) : P unit :=
  (match baseImageType img with
   | StageAsBaseImage => setupStageAsBase img
   | ImageFromRegistryAsBaseImage => setupRegistryBase img
   | NoBaseImage => mret tt
   end) ;;
  if IsDockerfileImage img && Staged img && stagedV1 && negb (bool_decide (baseImageType img = NoBaseImage))
  then
    base ← GetBaseStageImage img;
    i ← image_of base;
    d ← deref (stageDesc i);
    image_ExpandDependencies img (EnvToMap (Image.Env (idInfo d)))
  else mret tt.

(** What a registry has for a reference is asked for once, be it an error. *)
Definition setupBaseImageRepoDigest (img : Image W) (reference : string) : P unit :=
  id ← gets (fun c => baseImageRepoId (image_state img c));
  ids ← gets baseImagesRepoIdsCache;
  errs ← gets baseImagesRepoErrCache;
  if bool_decide (id <> "") then mret tt
  else match ids !! reference with
       | Some packed =>
           x ← lift (unpackRepoIDAndDigest packed);
           SetBaseRepo img x.1 x.2
       | None =>
           match errs !! reference with
           | Some err => fail err
           | None =>
               r ← try (call (GetRepoImage be reference));
               match r with
               | inr err =>
                   modify (fun c => set_repoCaches c (baseImagesRepoIdsCache c)
                                      (<[reference := err]> (baseImagesRepoErrCache c))) ;;
                   fail (Wrapf "can not get base image id from registry (%s): %w" [FS reference] err)
               | inl i =>
                   SetBaseRepo img (Image.ID i) (Image.RepoDigest i) ;;
                   modify (fun c => set_repoCaches c
                     (<[reference := packRepoIDAndDigest (Image.ID i) (Image.RepoDigest i)]>
                        (baseImagesRepoIdsCache c)) (baseImagesRepoErrCache c))
               end
           end
       end.

(** The info of the description is replaced where there is one. *)
Definition setBaseInfo (p : positive) (x : Image.Info) : P unit :=
  upd_image p (fun i =>
    mret (match stageDesc i with
          | Some d => mkLegacyImage (img_Name i) (TargetPlatform i) (info i)
                        (Some (mkImageDesc (idStageID d) x)) (finalStageDesc i) (builtID i)
                        (buildServiceLabels i)
          | None => with_stageDesc i (mkImageDesc None x)
          end)).

(** Whether the image that the backend has may be used as it is. *)
Definition upToDate (img : Image W) (p : positive) (name : string) : P bool :=
  found ← wrap "unable to inspect local image %s: %w" [FS name] (call (GetBackendImageInfo be name));
  match found with
  | None => mret false
  | Some x =>
      setBaseInfo p x ;;
      err ← try (setupBaseImageRepoDigest img name);
      digest ← gets (fun c => baseImageRepoDigest (image_state img c));
      mret ((bool_decide (digest <> "") && bool_decide (digest = Image.RepoDigest x)) ||
            match err with inl _ => false | inr e => negb (isUnsupportedMediaTypeError e) end)
  end.

Definition pullBaseImage (p : positive) (name : string) : P FetchInfo :=
  upd_image p (fun i => call (PullImageFromRegistry be i)) ;;
  found ← wrap "unable to inspect local image %s: %w" [FS name] (call (GetBackendImageInfo be name));
  match found with
  | None => fail (Errorf "unable to inspect local image %s after successful pull: image is not exist" [FS name])
  | Some x => setBaseInfo p x ;; mret (mkFetchInfo true BaseImageSourceTypeRegistry)
  end.

Definition FetchBaseImage (img : Image W) : P FetchInfo :=
  match baseImageType img with
  | ImageFromRegistryAsBaseImage =>
      base ← GetBaseStageImage img; p ← deref base;
      i ← read p;
      let name := img_Name (si_Image i) in
      if bool_decide (name = "scratch") then
        if IsDockerfileImage img then mret (mkFetchInfo false "")
        else fail (Errorf ("invalid base image: %sscratch%s is not allowed for stapel images. Please use a " +:+
                           "Dockerfile image or an alternative scratch image, such as " +:+
                           "%sregistry.werf.io/werf/scratch%s")
               [FS (String "034" ""); FS (String "034" ""); FS (String "034" ""); FS (String "034" "")])
      else
        ok ← upToDate img p name;
        if (ok : bool) then mret (mkFetchInfo false "") else pullBaseImage p name
  | StageAsBaseImage =>
      s ← gets (fun c => stageAsBaseImage (image_state img c)); s ← deref s;
      FetchStage m ops be s
  | NoBaseImage => mret (mkFetchInfo true BaseImageSourceTypeRepo)
  end.

(** ** Images for several platforms *)

Definition NewMultiplatformImage (name : string) (l : list (Image W)) : P MultiplatformImage :=
  match l with
  | [] => panic "expected at least one image"
  | img0 :: _ =>
      deps ← for_fold l [] (fun deps img =>
        s ← GetLastNonEmptyStage img; id ← stage_id s;
        mret (deps ++ [Image.StageID_String id]));
      p ← alloc;
      mret (mkMultiplatformImage p name (IsFinal img0) (im_ptr <$> l)
              (Image.NewStageID (Sha3_224Hash deps) 0) None None)
  end.

(** [GetPlatforms] and [GetImagesInfoList] of the images it was made of. *)
Definition GetPlatforms (l : list (Image W)) : list string := im_TargetPlatform <$> l.
Definition GetImagesInfoList (l : list (Image W)) : P (list Image.Info) :=
  for_fold l [] (fun infos img =>
    s ← GetLastNonEmptyStage img; d ← stage_desc s; mret (infos ++ [idInfo d])).

Definition GetMultiplatformImage (name : string) : P (option MultiplatformImage) :=
  gets (fun c => List.find (fun img => bool_decide (mp_Name img = name)) (multiplatformImages c)).

(** The first image with a name stays. *)
Definition SetMultiplatformImage (newImg : MultiplatformImage) : P unit :=
  modify (fun c =>
    if existsb (fun img => bool_decide (mp_Name img = mp_Name newImg)) (multiplatformImages c) then c
    else set_multiplatform c (multiplatformImages c ++ [newImg])).

(** [SetStageDesc] and [SetFinalStageDesc]: the tree has the object itself. *)
Definition upd_multiplatform (p : positive) (f : MultiplatformImage -> MultiplatformImage) : P unit :=
  modify (fun c => set_multiplatform c
    ((fun img => if bool_decide (mp_ptr img = p) then f img else img) <$> multiplatformImages c)).

End image.
End BuildImage.
