(* ===== verification/BuildPhase.v ===== *)
(** pkg/build/build_phase.go and stages_iterator.go, with the parts of conveyor.go that run the
    phase: what is done with the stages of an image one after the other, what is published after
    all images were processed. *)
From S2P Require Import Prelude Go Image Registry StagesStorage Parallel StorageManager GitMapping.
From S2P Require Import Stages GoStd Conveyor StageCopies BuildImage.

Module BuildPhase.
Import StagesStorage Parallel StorageManager GitMapping Conveyor StageCopies BuildImage.

Definition BuildCacheVersion : string := "1.2".

(** The conveyor and the options of the phase, which do not change; [H] is the type of locks. *)
Record Phase (W H : Type) := mkPhase {
  storageManager : Manager W;
  SecondaryStagesStorageList : list (Storage W);
  image_ops : Storage W -> ImageOps W;
  ContainerBackend : Backend W;
  StorageLockManager : LockManager W H;
  localGitRepo : GitRepo W;
  HeadCommit : string;
  HeadCommitTime : prog W (string * Z);
  VirtualMergeOption : bool;
  UseLegacyStapelBuilder : bool;
  StagedDockerfileV1 : bool;
  (** [WERF_DISABLE_PUBLISH_TAG_CACHE_SYNC] *)
  DisablePublishTagCacheSync : bool;
  Version : string;
  images : list (Image W);
  imagesSets : list (list (Image W));
  Parallel : bool;
  ParallelTasksLimit : Z;
  ForcedTargetPlatforms : list string;
  GetTargetPlatforms : res (list string);
  GetImageTargetPlatforms : string -> res (list string);
  DefaultPlatform : string;
  CreateBuildContext : Image W -> prog W unit;
  CleanupExtractedDir : Image W -> prog W unit;
  BuildDuration : prog W string;
  ShouldBeBuiltMode : bool;
  SkipImageMetadataPublication : bool;
  SkipAddManagedImagesRecords : bool;
  CustomTagFuncList : list (string -> string -> string);
  IntrospectTargets : list (string * string);
}.
Arguments storageManager {W H} _. Arguments SecondaryStagesStorageList {W H} _.
Arguments image_ops {W H} _. Arguments ContainerBackend {W H} _.
Arguments StorageLockManager {W H} _. Arguments localGitRepo {W H} _. Arguments HeadCommit {W H} _.
Arguments HeadCommitTime {W H} _. Arguments VirtualMergeOption {W H} _.
Arguments UseLegacyStapelBuilder {W H} _. Arguments StagedDockerfileV1 {W H} _.
Arguments DisablePublishTagCacheSync {W H} _. Arguments Version {W H} _. Arguments images {W H} _.
Arguments imagesSets {W H} _. Arguments Parallel {W H} _. Arguments ParallelTasksLimit {W H} _.
Arguments ForcedTargetPlatforms {W H} _. Arguments GetTargetPlatforms {W H} _.
Arguments GetImageTargetPlatforms {W H} _ _. Arguments DefaultPlatform {W H} _.
Arguments CreateBuildContext {W H} _ _. Arguments CleanupExtractedDir {W H} _ _.
Arguments BuildDuration {W H} _. Arguments ShouldBeBuiltMode {W H} _.
Arguments SkipImageMetadataPublication {W H} _. Arguments SkipAddManagedImagesRecords {W H} _.
Arguments CustomTagFuncList {W H} _. Arguments IntrospectTargets {W H} _.

(** StagesIterator: the stages that were processed last. *)
Record StagesIterator (W : Type) := mkStagesIterator {
  PrevStage : option (Stage W);
  PrevNonEmptyStage : option (Stage W);
  PrevBuiltStage : option (Stage W);
  PrevNonEmptyStageImageSize : Z;
}.
Arguments mkStagesIterator {W} _ _ _ _.
Arguments PrevStage {W} _. Arguments PrevNonEmptyStage {W} _. Arguments PrevBuiltStage {W} _.
Arguments PrevNonEmptyStageImageSize {W} _.

Definition NewStagesIterator {W} : StagesIterator W := mkStagesIterator None None None 0.

Definition ImageStageShouldBeIntrospected (targets : list (string * string)) (imageName stageName : string)
  : bool :=
  existsb (fun s => (bool_decide (s.1 = "*") || bool_decide (s.1 = imageName)) &&
                    bool_decide (s.2 = stageName)) targets.

Section phase.
Context {W H : Type} `{!GoQuote, !Nondet, !Hashes, !UtilStrings}.
Abbreviation P := (prog (Env W Conv)).
Variable ph : Phase W H.
Abbreviation m := (storageManager ph).
Abbreviation ops := (image_ops ph).
Abbreviation be := (ContainerBackend ph).
Abbreviation primary := (StagesStorage m).

(** * The iterator *)

Section iterator.
Variable it : StagesIterator W.

(** The image of the stage before, or the base image. *)
Definition prevImage (prev : option (Stage W)) (img : Image W) (stg : Stage W) : P (option positive) :=
  if HasPrevStage stg then s ← deref prev; GetStageImage (ref s)
  else if (IsStapelStage stg && bool_decide (Name stg = "from")) || (IsDockerfileImage img && Staged img)
  then GetBaseStageImage img
  else mret None.

Definition GetPrevImage : Image W -> Stage W -> P (option positive) := prevImage (PrevNonEmptyStage it).
Definition GetPrevBuiltImage : Image W -> Stage W -> P (option positive) := prevImage (PrevBuiltStage it).

(** The description of the image of the stage, if it has one. *)
Definition desc_if_any (stg : Stage W) : P (option ImageDesc) :=
  i ← stage_image (ref stg); mret (stageDesc i).

(** The iterator after a stage. *)
Definition advance (stg : Stage W) (isEmpty : bool) : P (StagesIterator W) :=
  if isEmpty then
    mret (mkStagesIterator (Some stg) (PrevNonEmptyStage it) (PrevBuiltStage it)
            (PrevNonEmptyStageImageSize it))
  else
    d ← desc_if_any stg;
    mret (match d with
          | Some d => mkStagesIterator (Some stg) (Some stg) (Some stg) (Image.Size (idInfo d))
          | None => mkStagesIterator (Some stg) (Some stg) (PrevBuiltStage it)
                      (PrevNonEmptyStageImageSize it)
          end).

Definition iterator_OnImageStage (img : Image W) (stg : Stage W)
  (onImageStageFunc : bool -> P unit) : P (StagesIterator W) :=
  prev ← GetPrevBuiltImage img stg;
  isEmpty ← wrap "error checking stage %s is empty: %w" [FS (Name stg)] (stg_IsEmpty stg prev);
  (if HasPrevStage stg && negb (bool_decide (is_Some (PrevStage it)))
   then panic "expected PrevStage to be set" else mret tt) ;;
  onImageStageFunc isEmpty ;;
  advance stg isEmpty.

(** * Digests *)

Definition getPrevNonEmptyStageCreationTs : P Z :=
  match PrevNonEmptyStage it with
  | None => mret 0%Z
  | Some s =>
      d ← desc_if_any s;
      match d with
      | None => mret 0%Z
      | Some d => id ← deref (idStageID d); mret (Image.CreationTs id)
      end
  end.

(** linux/amd64 does not affect the digest. *)
Definition digestArgs (stageName stageDependencies : string) (prev : option (string * string))
  (targetPlatform baseImage : string) : list string :=
  (if bool_decide (targetPlatform <> "") && bool_decide (targetPlatform <> "linux/amd64")
   then [targetPlatform] else []) ++
  [BuildCacheVersion; stageName; stageDependencies] ++
  match prev with Some (digest, dependencies) => [digest; dependencies] | None => [] end ++
  (if bool_decide (baseImage <> "") then [baseImage] else []).

Definition calculateDigest (stageName stageDependencies : string) (prevNonEmptyStage : option (Stage W))
  (targetPlatform baseImage : string) : P string :=
  prev ← (match prevNonEmptyStage with
          | None => mret None
          | Some s =>
              dependencies ← wrap "unable to get prev stage %s dependencies for the stage %s: %w"
                [FS (Name s); FS stageName] (GetNextStageDependencies s);
              digest ← GetDigest (ref s);
              mret (Some (digest, dependencies))
          end);
  mret (Sha3_224Hash (digestArgs stageName stageDependencies prev targetPlatform baseImage)).

(** The digest counts on the reference of the base image of a staged Dockerfile. *)
Definition digestBaseImage (img : Image W) (stg : Stage W) : P string :=
  if IsDockerfileImage img && Staged img && negb (HasPrevStage stg) &&
     (IsBasedOnStage img || StagedDockerfileV1 ph)
  then GetBaseImageReference img else mret "".

(** * Stages that were built before *)

(** The image of a stage that was found becomes the stage's one. *)
Definition useStageDesc (img : Image W) (stg : Stage W) (d : Image.StageDesc) : P unit :=
  prev ← GetPrevImage img stg;
  i ← GetOrCreateStageImage (Image.Name (Image.SDInfo d)) prev (Some stg) img;
  SetStageDesc i (of_StageDesc d) ;;
  SetStageImage (ref stg) i.

Definition contentDigestOf (d : Image.StageDesc) : P string :=
  match Image.Labels (Image.SDInfo d) !! Image.WerfStageContentDigestLabel with
  | Some contentDigest => mret contentDigest
  | None => panic "expected stage content digest label to be set!"
  end.

(** The digest of the stage. *)
Definition setStageDigest (img : Image W) (stg : Stage W) : P string :=
  prev ← GetPrevImage img stg;
  prevBuilt ← GetPrevBuiltImage img stg;
  stageDependencies ← GetDependencies stg prev prevBuilt;
  baseImage ← digestBaseImage img stg;
  stageDigest ← calculateDigest (Stages.GetLegacyCompatibleStageName (Name stg)) stageDependencies
    (PrevNonEmptyStage it) (im_TargetPlatform img) baseImage;
  SetDigest (ref stg) stageDigest ;;
  mret stageDigest.

(** Whether there is a stage with the digest that suits; its content digest may differ. *)
Definition selectStage (img : Image W) (stg : Stage W) (stageDigest : string) : P bool :=
  parentTs ← getPrevNonEmptyStageCreationTs;
  stageDescSet ← GetStageDescSetByDigestWithCache m (ref_LogDetailedName (ref stg)) stageDigest parentTs;
  stageDesc ← SelectSuitableStageDesc stg stageDescSet;
  match stageDesc with
  | Some d =>
      useStageDesc img stg d.2 ;;
      contentDigest ← contentDigestOf d.2;
      SetContentDigest (ref stg) contentDigest ;;
      mret true
  | None =>
      contentSig ← wrap "unable to calculate stage %s content digest: %w" [FS (Name stg)]
        (calculateDigest (Name stg +:+ "-content") "" (Some stg) (im_TargetPlatform img) "");
      SetContentDigest (ref stg) contentSig ;;
      mret false
  end.

(** Whether a suitable stage was found. The mutex of the digest is locked when it returns, with
    an error too. *)
Definition calculateStage (img : Image W) (stg : Stage W) : P bool :=
  stageDigest ← setStageDigest img stg;
  lockDigest stageDigest ;;
  selectStage img stg stageDigest.

(** ** Secondary storages *)

Definition withStageLock (stg : Stage W) {A} (body : P A) : P A :=
  digest ← GetDigest (ref stg);
  lock ← wrap "unable to lock project %s digest %s: %w" [FS (ProjectName m); FS digest]
    (call (LockStage (StorageLockManager ph) (ProjectName m) digest));
  finally body (try (call (Unlock (StorageLockManager ph) lock)) ;; mret tt).

Definition copyIntoCaches (stg : Stage W) : P unit :=
  id ← stage_id (ref stg);
  wrap "unable to copy stage %s into cache storages: %w" [FS (Image.StageID_String id)]
    (CopyStageIntoCacheStorages m ops be id (CacheStagesStorageList m)
       (mkCopyStageIntoStorageOptions (Some (ref stg)) false (ref_LogDetailedName (ref stg)))).

Definition atomicCopySuitableStage (img : Image W) (stg : Stage W) (d : Image.StageDesc)
  (secondary : Storage W) : P unit :=
  withStageLock stg (
    copy ← wrap "unable to copy suitable stage %s from %s to %s: %w"
      [FS (Image.StageID_String (Image.SDStageID d)); FS (Address secondary); FS (Address primary)]
      (CopySuitableStageDescByDigest m ops be d secondary primary (im_TargetPlatform img));
    copy ← deref copy;
    useStageDesc img stg copy ;;
    contentDigest ← contentDigestOf copy;
    SetContentDigest (ref stg) contentDigest) ;;
  copyIntoCaches stg.

Fixpoint scanSecondary (img : Image W) (stg : Stage W) (l : list (Storage W)) : P bool :=
  match l with
  | [] => mret false
  | secondary :: l' =>
      digest ← GetDigest (ref stg);
      parentTs ← getPrevNonEmptyStageCreationTs;
      set ← GetStageDescSetByDigestFromStagesStorageWithCache m (ref_LogDetailedName (ref stg)) digest
        parentTs secondary;
      d ← SelectSuitableStageDesc stg set;
      match d with
      | None => scanSecondary img stg l'
      | Some d =>
          wrap "unable to copy suitable stage %s from secondary stages storage %s: %w"
            [FS (Image.StageID_String (Image.SDStageID d.2)); FS (Address secondary)]
            (atomicCopySuitableStage img stg d.2 secondary) ;;
          mret true
      end
  end.

Definition findAndFetchStageFromSecondaryStagesStorage (img : Image W) (stg : Stage W) : P bool :=
  scanSecondary img stg (SecondaryStagesStorageList ph).

(** * Building *)

Definition fetchBaseImageForStage (img : Image W) (stg : Stage W) : P FetchInfo :=
  if HasPrevStage stg then
    s ← deref (PrevBuiltStage it); FetchStage m ops be (ref s)
  else
    r ← try (FetchBaseImage m ops be img);
    match r with
    | inl i => mret i
    | inr err =>
        base ← GetBaseStageImage img; i ← image_of base;
        fail (Wrapf "unable to fetch base image %q for stage %s: %w"
                [FQ (img_Name i); FS (ref_LogDetailedName (ref stg))] err)
    end.

Definition stage_id_of (p : option positive) : P Image.StageID :=
  i ← image_of p; d ← deref (stageDesc i); deref (idStageID d).

(** The labels that werf gives an image. *)
Definition serviceLabels (img : Image W) (stg : Stage W) (prevBuiltImage : option positive)
  : P (gmap string string) :=
  contentDigest ← GetContentDigest (ref stg);
  let labels := <[Image.WerfLabel := ProjectName m]> (<[Image.WerfVersionLabel := Version ph]>
                  {[Image.WerfStageContentDigestLabel := contentDigest]}) in
  if HasPrevStage stg then
    match prevBuiltImage with
    | None => panic "expected prevBuiltImage to be set"
    | Some _ =>
        id ← stage_id_of prevBuiltImage;
        i ← image_of prevBuiltImage; d ← deref (stageDesc i);
        mret (<[Image.WerfBaseImageIDLabel := Image.ID (idInfo d)]>
               (<[Image.WerfParentStageID := Image.StageID_String id]> labels))
    end
  else if IsBasedOnStage img then
    base ← GetBaseStageImage img; id ← stage_id_of base;
    mret (<[Image.WerfParentStageID := Image.StageID_String id]> labels)
  else mret labels.

Definition build_with (p : positive) (c : BuilderCall) : P unit :=
  i ← read p; write p (mkStageImage (si_Image i) (si_BaseImage i) (si_Builder i ++ [c])).

Definition prepareStageInstructions (img : Image W) (stg : Stage W) : P unit :=
  p ← GetStageImage (ref stg);
  prevBuiltImage ← GetPrevBuiltImage img stg;
  labels ← serviceLabels img stg prevBuiltImage;
  p ← deref p;
  upd_image p (fun i => mret (with_labels i labels)) ;;
  (if IsStapelStage stg then
     build_with p (AddLabels labels) ;;
     headHash ← wrap "error getting HEAD commit hash: %w" [] (call (HeadCommitHash (localGitRepo ph)));
     headTime ← wrap "error getting HEAD commit time: %w" [] (call (HeadCommitTime ph));
     build_with p (AddEnvs {[ "WERF_COMMIT_HASH" := headHash; "WERF_COMMIT_TIME_HUMAN" := headTime.1;
                              "WERF_COMMIT_TIME_UNIX" := itoa headTime.2 ]})
   else if isFullDockerfileStage stg then
     l ← iterate (map_to_list labels);
     build_with p (AppendLabels ((fun kv => kv.1 +:+ "=" +:+ kv.2) <$> l))
   else
     build_with p SetBuildContextArchive ;;
     l ← iterate (map_to_list labels);
     for_each l (fun kv => build_with p (AppendPostLabel kv.1 kv.2))) ;;
  AppendOnTerminateFunc p ;;
  wrap "error preparing stage %s: %w" [FS (Name stg)] (PrepareImage stg prevBuiltImage p).

(** ** Publication: under the lock of the digest, and only what nobody has published *)

(** A stage with the digest that was published while this one was built. *)
Definition findPublished (stg : Stage W) : P (StageDescSet * option Image.StageDesc) :=
  if DisablePublishTagCacheSync ph then mret (∅, None)
  else
    digest ← GetDigest (ref stg);
    parentTs ← getPrevNonEmptyStageCreationTs;
    set ← GetStageDescSetByDigest m (ref_LogDetailedName (ref stg)) digest parentTs;
    d ← SelectSuitableStageDesc stg set;
    mret (set, snd <$> d).

Definition storeStage (stg : Stage W) (p : positive) : P unit :=
  digest ← GetDigest (ref stg);
  if IsMutable stg then
    s ← deref (PrevBuiltStage it);
    prev ← GetStageImage (ref s);
    wrap "unable to mutate %s: %w" [FS (Name stg)] (MutateImage stg primary prev p)
  else
    i ← read p;
    wrap "unable to store stage %s digest %s image %s into repo %s: %w"
      [FS (ref_LogDetailedName (ref stg)); FS digest; FS (img_Name (si_Image i)); FS (Address primary)]
      (upd_image p (fun i => call (StoreImage (ops primary) i))).

(** The name of the image is the stage's. *)
Definition publishStage (img : Image W) (stg : Stage W) (p : positive) (set : StageDescSet) : P unit :=
  digest ← GetDigest (ref stg);
  new ← GenerateStageDescCreationTs m be digest set;
  i ← read p;
  conv_UnsetStageImage (img_Name (si_Image i)) ;;
  upd_image p (fun i => mret (with_name i new.1)) ;;
  conv_SetStageImage p ;;
  storeStage stg p ;;
  desc ← try (call (GetStageDesc W primary (ProjectName m) (Image.NewStageID digest new.2)));
  i ← read p;
  let args := [FS (ref_LogDetailedName (ref stg)); FS digest; FS (img_Name (si_Image i)); FS (Address primary)] in
  match desc with
  | inr err =>
      fail (Wrapf ("unable to get stage %s digest %s image %s description from repo %s after stages " +:+
                   "has been stored into repo: %w") args err)
  | inl None =>
      fail (Errorf ("unable to get stage %s digest %s image %s description from repo %s after stages " +:+
                    "has been stored into repo: %!w(<nil>)") args)
  | inl (Some d) => SetStageDesc p (of_StageDesc d) ;; SetRebuilt img
  end.

(** Whether the image was published: it is discarded if the stage is there already. *)
Definition publishUnlessPublished (img : Image W) (stg : Stage W) (p : positive) : P bool :=
  found ← findPublished stg;
  match found.2 with
  | Some d =>
      useStageDesc img stg d ;;
      contentDigest ← contentDigestOf d;
      SetContentDigest (ref stg) contentDigest ;;
      mret false
  | None => publishStage img stg p found.1 ;; mret true
  end.

Definition atomicBuildStageImage (img : Image W) (stg : Stage W) : P unit :=
  p ← GetStageImage (ref stg); p ← deref p;
  digest ← GetDigest (ref stg);
  (if IsBuildable stg then
     wrap "failed to build image for stage %s with digest %s: %w" [FS (Name stg); FS digest]
       (wrap "error building stage %s: %w" [FS (Name stg)]
          (i ← read p; built ← call (BuilderBuild be i); upd_image p (fun _ => mret built)))
   else mret tt) ;;
  published ← withStageLock stg (publishUnlessPublished img stg p);
  if (published : bool) then copyIntoCaches stg else mret tt.

Definition introspectStage (img : Image W) (stg : Stage W) : P unit :=
  if ImageStageShouldBeIntrospected (IntrospectTargets ph) (im_Name img) (Name stg) then
    i ← stage_image (ref stg);
    wrap "introspect error failed: %w" [] (call (Introspect be i))
  else mret tt.

Definition buildStage (img : Image W) (stg : Stage W) : P unit :=
  (if IsBuildable stg && negb (IsDockerfileImage img) && UseLegacyStapelBuilder ph
   then wrap "get or create stapel container failed: %w" [] (call (GetOrCreateStapelContainer be))
   else mret tt) ;;
  wrap "%s preRun failed: %w" [FS (ref_LogDetailedName (ref stg))] (PreRun stg) ;;
  atomicBuildStageImage img stg ;;
  introspectStage img stg.

(** ** A stage of an image *)

(** Debug assertions. *)
Definition assertPrevStages (stg : Stage W) : P unit :=
  if HasPrevStage stg then
    match PrevNonEmptyStage it, PrevBuiltStage it with
    | None, _ => panic "expected PrevNonEmptyStage to be set"
    | _, None => panic "expected PrevBuiltStage to be set"
    | Some e, Some b =>
        if bool_decide (ref_ptr (ref b) = ref_ptr (ref e)) then mret tt
        else panic "expected PrevBuiltStage to equal PrevNonEmptyStage"
    end
  else mret tt.

(** Nothing was found: the stage is built, unless it had to be there. *)
Definition buildNewStage (img : Image W) (stg : Stage W) : P unit :=
  if ShouldBeBuiltMode ph then fail (Errorf "stages required" [])
  else
    uuid ← call (NewUUID be);
    prev ← GetPrevImage img stg;
    i ← GetOrCreateStageImage uuid prev (Some stg) img;
    SetStageImage (ref stg) i ;;
    fetchInfo ← (if IsBuildable stg then fetchBaseImageForStage img stg
                 else mret (mkFetchInfo false BaseImageSourceTypeRepo));
    prepareStageInstructions img stg ;;
    buildStage img stg ;;
    duration ← call (BuildDuration ph);
    SetMeta (ref stg) (mkStageMeta true (fi_BaseImagePulled fetchInfo) (fi_BaseImageSource fetchInfo) duration).

(** The rest of the stage, where no suitable one was found in the primary storage. *)
Definition obtainStage (img : Image W) (stg : Stage W) : P unit :=
  secondary ← findAndFetchStageFromSecondaryStagesStorage img stg;
  (if (secondary : bool) then mret tt else buildNewStage img stg) ;;
  i ← stage_image (ref stg);
  (if bool_decide (stageDesc i = None)
   then panic "expected stage built image info to be set!" else mret tt) ;;
  (if (secondary : bool) then SetMeta (ref stg) (mkStageMeta false false BaseImageSourceTypeSecondary "")
   else mret tt) ;;
  if SkipAddManagedImagesRecords ph then mret tt else SetShouldAddManagedImagesRecords.

Definition onImageStage (img : Image W) (stg : Stage W) : P unit :=
  wrap "unable to fetch dependencies for stage %s: %w" [FS (ref_LogDetailedName (ref stg))]
    (FetchDependencies stg) ;;
  assertPrevStages stg ;;
  foundSuitableStage ← calculateStage img stg;
  digest ← GetDigest (ref stg);
  finally
    (if (foundSuitableStage : bool) then
       introspectStage img stg ;;
       SetMeta (ref stg) (mkStageMeta false false "" "")
     else obtainStage img stg)
    (unlockDigest digest).

Definition afterImageStage (img : Image W) (stg : Stage W) : P unit :=
  if IsDockerfileImage img && Staged img && negb (StagedDockerfileV1 ph) && isFromInstruction stg then
    d ← stage_desc (ref stg);
    image_ExpandDependencies img (EnvToMap (Image.Env (idInfo d)))
  else mret tt.

Definition OnImageStage (img : Image W) (stg : Stage W) : P (StagesIterator W) :=
  iterator_OnImageStage img stg (fun isEmpty =>
    if isEmpty then mret tt else onImageStage img stg ;; afterImageStage img stg).
End iterator.

(** * An image *)

(** Whether there is something to clean up afterwards. *)
Definition BeforeImageStages (img : Image W) : P bool :=
  wrap "unable to setup base image: %w" []
    (SetupBaseImage be (images ph) (StagedDockerfileV1 ph) img) ;;
  if existsb UsesBuildContext (stages img) then
    wrap "unable to create build context archive: %w" [] (call (CreateBuildContext ph img)) ;; mret true
  else mret false.

Definition AfterImageStages (img : Image W) (it : StagesIterator W) : P unit :=
  match PrevNonEmptyStage it with
  | None => panic "nil pointer dereference"
  | Some s =>
      SetLastNonEmptyStage img (ref s) ;;
      contentDigest ← GetContentDigest (ref s);
      image_SetContentDigest img contentDigest
  end.

Definition processStage (img : Image W) (it : StagesIterator W) (stg : Stage W) : P (StagesIterator W) :=
  wrap "phase %s on image %s stage %s handler failed: %w" [FS "build"; FS (im_Name img); FS (Name stg)]
    (OnImageStage it img stg).

Definition processStages (img : Image W) : P (StagesIterator W) :=
  for_fold (stages img) NewStagesIterator (processStage img).

Definition doImage (img : Image W) : P unit :=
  cleanup ← wrap "phase %s before image %s stages handler failed: %w" [FS "build"; FS (im_Name img)]
    (BeforeImageStages img);
  finally
    (it ← processStages img;
     wrap "phase %s after image %s stages handler failed: %w" [FS "build"; FS (im_Name img)]
       (AfterImageStages img it))
    (if (cleanup : bool) then call (CleanupExtractedDir ph img) else mret tt).

Definition doImagesInParallel : P unit :=
  for_each (imagesSets ph) (fun set =>
    sched ← next_schedule;
    DoTasks (fun taskId =>
      taskImage ← index set taskId;
      wrap "unable to process image %q with parallel task %d: %w"
        [FQ (im_Name taskImage); FD (Z.of_nat taskId)] (doImage taskImage))
      sched (length set) (ParallelTasksLimit ph)).

Definition doImages : P unit :=
  if Parallel ph && (1 <? length (images ph)) then
    wrap "unable to process images in parallel: %w" [] doImagesInParallel
  else for_each (images ph) (fun img =>
         wrap "unable to process image %q: %w" [FQ (im_Name img)] (doImage img)).

(** * After all images *)

Definition addManagedImage (name : string) : P unit :=
  should ← ShouldAddManagedImagesRecords;
  if negb should then mret tt
  else
    exist ← wrap "unable to check existence of managed image: %w" []
      (call (IsManagedImageExist W primary (ProjectName m) name [WithCache]));
    if (exist : bool) then mret tt
    else wrap "unable to add image %q to the managed images of project %q: %w"
           [FQ name; FQ (ProjectName m)] (call (AddManagedImage W primary (ProjectName m) name)).

Definition publishedCommits : P (list string) :=
  if VirtualMergeOption ph then
    fromInto ← wrap "unable to get virtual merge commit %q parents: %w" [FQ (HeadCommit ph)]
      (git (GetVirtualMergeParents (localGitRepo ph) (HeadCommit ph)));
    mret [HeadCommit ph; fromInto.1]
  else mret [HeadCommit ph].

Definition publishImageGitMetadata (imageName : string) (id : Image.StageID) : P unit :=
  commits ← publishedCommits;
  for_each commits (fun commit =>
    let args := [FS imageName; FS commit; FS (Image.StageID_String id)] in
    exist ← wrap "unable to get image %s metadata by commit %s and stage ID %s: %w" args
      (call (IsImageMetadataExist W primary (ProjectName m) imageName commit
               (Image.StageID_String id) [WithCache]));
    if (exist : bool) then mret tt
    else wrap "unable to put image %s metadata by commit %s and stage ID %s: %w" args
           (call (PutImageMetadata W primary (ProjectName m) imageName commit (Image.StageID_String id)))).

Definition addCustomImageTag (st : Storage W) (d : Image.StageDesc) (tag : string) : P unit :=
  let id := Image.StageID_String (Image.SDStageID d) in
  wrap "unable to add stage %s custom tag %s in the storage %s: %w" [FS id; FS tag; FS (Address st)]
    (call (AddStageCustomTag W st d tag)) ;;
  wrap "unable to register stage %s custom tag %s in the primary storage %s: %w"
    [FS id; FS tag; FS (Address primary)] (call (RegisterStageCustomTag W primary (ProjectName m) d tag)).

Definition addCustomImageTags (imageName : string) (d : Image.StageDesc) (st : Storage W) : P unit :=
  for_each (CustomTagFuncList ph) (fun tagFunc =>
    addCustomImageTag st d (tagFunc imageName (Image.Tag (Image.SDInfo d)))).

Definition checkCustomImageTagsExistence (imageName : string) (d : Image.StageDesc) (st : Storage W)
  : P unit :=
  for_each (CustomTagFuncList ph) (fun tagFunc =>
    let tag := tagFunc imageName (Image.Tag (Image.SDInfo d)) in
    wrap "check custom tag %q existence failed: %w" [FQ tag] (call (CheckStageCustomTag W st d tag))).

Definition isLocalStorage (st : Storage W) : bool :=
  match Kind (ops st) with LocalStorage => true | _ => false end.

(** The description of the last stage, which is one of a stage. *)
Definition lastStageDesc (img : Image W) : P Image.StageDesc :=
  s ← GetLastNonEmptyStage img;
  d ← stage_desc s; id ← deref (idStageID d);
  mret (Image.mkStageDesc id (idInfo d)).

Definition publishFinalImage (img : Image W) (final : Storage W) : P unit :=
  s ← GetLastNonEmptyStage img;
  id ← stage_id s;
  desc ← wrap "unable to copy image into final repo: %w" []
    (CopyStageIntoFinalStorage m ops be id final
       (mkCopyStageIntoStorageOptions (Some s) (ShouldBeBuiltMode ph) (ref_LogDetailedName s)));
  p ← GetStageImage s; p ← deref p;
  upd_image p (fun i => mret (with_finalStageDesc i desc)).

Definition publishImageMetadata (name : string) (img : Image W) : P unit :=
  addManagedImage name ;;
  (if SkipImageMetadataPublication ph then mret tt
   else d ← lastStageDesc img; publishImageGitMetadata (im_Name img) (Image.SDStageID d)) ;;
  if negb (IsFinal img) then mret tt
  else
    d ← lastStageDesc img;
    let '(st, stg) := match FinalStagesStorage m with
                      | Some final => (final, ConvertStageDescForStagesStorage d final)
                      | None => (primary, d)
                      end in
    if ShouldBeBuiltMode ph then checkCustomImageTagsExistence (im_Name img) stg st
    else wrap "unable to add custom image tags to stages storage: %w" []
           (addCustomImageTags (im_Name img) stg st).

(** The error of the custom tags is not returned. *)
Definition publishMultiplatformImageMetadata (name : string) (l : list (Image W))
  (img : MultiplatformImage) (final : option (Storage W)) : P unit :=
  addManagedImage name ;;
  let id := mp_stageID img in
  let args := [FS name; FS (Image.StageID_String id)] in
  infos ← GetImagesInfoList l;
  wrap "unable to post multiplatform image %s %s: %w" args
    (call (PostMultiplatformImage (ops primary) (ProjectName m) (Image.StageID_String id) infos (GetPlatforms l))) ;;
  desc ← wrap "unable to get image %s %s descriptor: %w" args
    (call (GetStageDesc W primary (ProjectName m) id));
  match desc with
  | None => fail (Errorf "unable to get image %s %s descriptor: no manifest found" args)
  | Some d =>
      upd_multiplatform (mp_ptr img) (fun x =>
        mkMultiplatformImage (mp_ptr x) (mp_Name x) (mp_IsFinal x) (mp_Images x) (mp_stageID x) (Some d)
          (mp_finalStageDesc x)) ;;
      try (for_each (CustomTagFuncList ph) (fun tagFunc =>
             addCustomImageTag (default primary final) d (tagFunc name (Image.StageID_String id)))) ;;
      if SkipImageMetadataPublication ph then mret tt else publishImageGitMetadata name id
  end.

Definition publishMultiplatformFinalImage (img : MultiplatformImage) (final : Storage W) : P unit :=
  desc ← wrap "unable to copy image into final repo: %w" []
    (CopyStageIntoFinalStorage m ops be (mp_stageID img) final
       (mkCopyStageIntoStorageOptions None (ShouldBeBuiltMode ph) (mp_Name img)));
  upd_multiplatform (mp_ptr img) (fun x =>
    mkMultiplatformImage (mp_ptr x) (mp_Name x) (mp_IsFinal x) (mp_Images x) (mp_stageID x)
      (mp_stageDesc x) desc).

(** The platforms that the image has to have; that it has them is asserted. *)
Definition targetPlatforms (commonTargetPlatforms : list string) (name : string) (l : list (Image W))
  : P (list string) :=
  expected ← (match ForcedTargetPlatforms ph with
              | [] =>
                  let targetName := match Str.SplitN name "/" 3 with
                                    | [p0; "stage"; _] => p0
                                    | _ => name
                                    end in
                  of_image ← wrap "invalid image %q target platforms: %w" [FQ name]
                    (lift (GetImageTargetPlatforms ph targetName));
                  mret (match of_image with [] => commonTargetPlatforms | _ => of_image end)
              | forced => mret forced
              end);
  let platforms := GetPlatforms l in
  if forallb (fun x => bool_decide (x ∈ platforms)) expected then
    if length expected =? length platforms then mret expected
    else panic "We have built image for platforms, expected exactly these platforms. Please report a bug."
  else panic "There is no image built for target platform. Please report a bug.".

(** What is published of the images with one name. *)
Definition afterImage (commonTargetPlatforms : list string) (name : string) (l : list (Image W)) : P unit :=
  platforms ← targetPlatforms commonTargetPlatforms name l;
  if length platforms =? 1 then
    img ← index l 0;
    (match FinalStagesStorage m with
     | Some final => if IsFinal img then publishFinalImage img final else mret tt
     | None => mret tt
     end) ;;
    if isLocalStorage primary then mret tt
    else wrap "unable to publish image %q metadata: %w" [FQ name] (publishImageMetadata name img)
  else
    img ← NewMultiplatformImage name l;
    SetMultiplatformImage img ;;
    (if isLocalStorage primary then mret tt
     else
       wrap "unable to publish image %q multiplatform metadata: %w" [FQ name]
         (publishMultiplatformImageMetadata name l img (FinalStagesStorage m))) ;;
    match FinalStagesStorage m with
    | Some final =>
        if mp_IsFinal img && negb (isLocalStorage primary)
        then publishMultiplatformFinalImage img final else mret tt
    | None => mret tt
    end.

(** The images of the tree by name, each with its platforms in order; of two images with the same
    name and platform the last one. *)
Definition GetImagesByName (onlyFinal : bool) : list (string * list (Image W)) :=
  let l := filter (fun img => negb onlyFinal || IsFinal img) (images ph) in
  let names := foldl UniqAppendString [] (im_Name <$> l) in
  (fun name =>
     let byPlatform : gmap string (Image W) :=
       foldl (fun b img => if bool_decide (im_Name img = name) then <[im_TargetPlatform img := img]> b else b) ∅ l in
     (name, omap (fun platform => byPlatform !! platform)
              (GoStd.Sort.Strings (map_to_list byPlatform).*1))) <$>
  GoStd.Sort.Strings names.

Definition AfterImages : P unit :=
  common ← wrap "invalid common target platforms: %w" [] (lift (GetTargetPlatforms ph));
  let common := match common with [] => [DefaultPlatform ph] | _ => common end in
  let pairs := GetImagesByName false in
  sched ← next_schedule;
  DoTasks (fun taskId => pair ← index pairs taskId; afterImage common pair.1 pair.2)
    sched (length pairs) (ParallelTasksLimit ph).

Definition runPhases : P unit :=
  wrap "phase %s before images handler failed: %w" [FS "build"]
    (wrap "unable to init storage manager cache: %w" [] (InitCache m)) ;;
  wrap "unable to process images: %w" [] doImages ;;
  wrap "phase %s after images handler failed: %w" [FS "build"] AfterImages.

End phase.
End BuildPhase.
