(* ===== verification/BuildFrames.v ===== *)
(** What the programs of a build keep: a relation over the world of the storages together with one
    over the state of the conveyor, kept by every operation that a program calls, is kept by the
    program. First the operations that only look for stages, then those that build and publish. *)
From S2P Require Import Prelude Go GoStd Image Registry StagesStorage Parallel StorageManager.
From S2P Require Import ManagerFacts GitMapping Conveyor StageCopies BuildImage BuildPhase.

Module BuildFrames.
Import StagesStorage StorageManager ManagerFacts GitMapping Conveyor StageCopies BuildImage BuildPhase.

(** A relation over the world and one over the conveyor. *)
Definition both {W} (RW : W -> W -> Prop) (RC : Conv -> Conv -> Prop) (e e' : Env W Conv) : Prop :=
  RW (ext e) (ext e') /\ RC (own e) (own e').

#[export] Instance both_PreOrder {W} (RW : W -> W -> Prop) RC `{!PreOrder RW, !PreOrder RC} :
  PreOrder (both RW RC).
Proof. split; [intros ?; split; reflexivity|]. intros ??? [] []. split; etransitivity; eassumption. Qed.

#[export] Instance both_Invisible {W} (RW : W -> W -> Prop) RC `{!PreOrder RW, !PreOrder RC} :
  Invisible (both RW RC).
Proof. split; intros e ?; split; simpl; reflexivity. Qed.

(** The relation does not look at what the stages and images of a build have, but maybe at the
    digests of the stages. *)
Class ConvStable (RC : Conv -> Conv -> Prop) : Prop := {
  cs_heap c h : RC c (set_heap c h);
  cs_stageImages c x : RC c (set_stageImages c x);
  cs_stage c s f : (forall x, ss_digest (f x) = ss_digest x) ->
    RC c (set_stageStates c (<[ref_ptr s := f (state_of s c)]> (stageStates c)));
  cs_imageStates c x : RC c (set_imageStates c x);
  cs_onTerminate c x : RC c (set_onTerminateFuncs c x);
  cs_repoCaches c x y : RC c (set_repoCaches c x y);
  cs_baseCommits c x : RC c (set_baseCommits c x);
}.

(** A stage's operations before it is built, and those that build it. *)
Record StageReads {W} (R : Env W Conv -> Env W Conv -> Prop) (stg : Stage W) : Prop := {
  sr_IsEmpty p : keeps R (stg_IsEmpty stg p);
  sr_Fetch : keeps R (FetchDependencies stg);
  sr_Expand env : keeps R (ExpandDependencies stg env);
  sr_Get p q : keeps R (GetDependencies stg p q);
  sr_GetNext : keeps R (GetNextStageDependencies stg);
  sr_Select set : keeps R (stg_SelectSuitableStageDesc stg set);
}.

Record StageWrites {W} (R : Env W Conv -> Env W Conv -> Prop) (stg : Stage W) : Prop := {
  sw_Prepare p q : keeps R (PrepareImage stg p q);
  sw_PreRun : keeps R (PreRun stg);
  sw_Mutate st p q : keeps R (MutateImage stg st p q);
}.

(** The operations of the phase that look for stages, and those that build and publish. *)
Record PhaseReads {W H} (RW : W -> W -> Prop) (ph : Phase W H) : Prop := {
  pr_manager : ManagerReads RW (storageManager ph);
  pr_secondary st : st ∈ SecondaryStagesStorageList ph -> ReadsKeep RW st;
  pr_ids st p d ts o : st = StagesStorage (storageManager ph) \/ st ∈ SecondaryStagesStorageList ph ->
    keeps RW (GetStagesIDsByDigest W st p d ts o);
  pr_info n : keeps RW (GetBackendImageInfo (ContainerBackend ph) n);
  pr_pull i : keeps RW (PullImageFromRegistry (ContainerBackend ph) i);
  pr_introspect i : keeps RW (Introspect (ContainerBackend ph) i);
  pr_context img : keeps RW (CreateBuildContext ph img);
  pr_cleanup img : keeps RW (CleanupExtractedDir ph img);
  pr_expand img f s : img ∈ images ph -> expandReference img = Some f -> forall RC,
    PreOrder RC -> ConvStable RC -> keeps (both RW RC) (f s);
}.

Record PhaseWrites {W H} (RW : W -> W -> Prop) (ph : Phase W H) : Prop := {
  pw_store st i : keeps RW (StoreImage (image_ops ph st) i);
  pw_fetch st i : keeps RW (FetchImage (image_ops ph st) i);
  pw_should st i : keeps RW (ShouldFetchImage (image_ops ph st) i);
  pw_copy st f p id : keeps RW (CopyFromStorage W st f p id);
  pw_reject p d ts : keeps RW (RejectStage W (StagesStorage (storageManager ph)) p d ts);
  pw_rename i n b : keeps RW (RenameImage (ContainerBackend ph) i n b);
  pw_refresh i : keeps RW (RefreshImageObject (ContainerBackend ph) i);
  pw_build i : keeps RW (BuilderBuild (ContainerBackend ph) i);
  pw_lock n : keeps RW (LockStageImage (ContainerBackend ph) n);
  pw_access n : keeps RW (AccessImage (ContainerBackend ph) n);
  pw_now : keeps RW (Now (ContainerBackend ph));
  pw_uuid : keeps RW (NewUUID (ContainerBackend ph));
  pw_container : keeps RW (GetOrCreateStapelContainer (ContainerBackend ph));
  pw_repo n : keeps RW (GetRepoImage (ContainerBackend ph) n);
  pw_lockStage p d : keeps RW (LockStage (StorageLockManager ph) p d);
  pw_unlock l : keeps RW (Unlock (StorageLockManager ph) l);
  pw_head : keeps RW (HeadCommitHash (localGitRepo ph));
  pw_time : keeps RW (HeadCommitTime ph);
  pw_duration : keeps RW (BuildDuration ph);
}.

(** Changes that a stable relation does not see. *)
Ltac conv_stable :=
  intros; first [apply cs_heap | apply cs_stageImages | apply cs_imageStates |
                 apply cs_onTerminate | apply cs_repoCaches | apply cs_baseCommits].

#[export] Hint Resolve sr_IsEmpty sr_Fetch sr_Expand sr_Get sr_GetNext sr_Select sw_Prepare sw_PreRun
  sw_Mutate pr_manager pr_secondary pr_info pr_pull pr_introspect pr_context
  pr_cleanup pw_store pw_fetch pw_should pw_copy pw_reject pw_rename pw_refresh pw_build pw_lock
  pw_access pw_now pw_uuid pw_container pw_repo pw_lockStage pw_unlock pw_head pw_time pw_duration : werf.

#[export] Hint Extern 2 (forall x, ss_digest _ = ss_digest x) => reflexivity : werf.
#[export] Hint Extern 5 (ConvStable _) => typeclasses eauto : werf.

Create HintDb conv discriminated.
#[export] Hint Unfold GetDigest GetContentDigest GetStageImage SetContentDigest SetStageImage
  SetMeta conv_GetStageImage GetBaseStageImage GetBaseImageReference SetBase SetBaseRepo SetRebuilt
  SetLastNonEmptyStage image_SetContentDigest : conv.

(** Proves that a program keeps a relation from what its parts keep, opening accessors. *)
Ltac keeps_conv :=
  repeat first [solve [auto with werf] | keeps_step | progress autounfold with conv].

Section frames.
Context {W H : Type} `{!GoQuote, !Nondet, !Hashes}.
Context (RW : W -> W -> Prop) (RC : Conv -> Conv -> Prop) `{!PreOrder RW, !PreOrder RC, !ConvStable RC}.
Abbreviation R := (both RW RC).

(** ** The conveyor *)

Lemma keeps_call_both {A} (x : prog W A) : keeps RW x -> keeps R (call x).
Proof. intros Hx e. unfold call. specialize (Hx (ext e)). destruct (x (ext e)). split; [done|simpl; reflexivity]. Qed.
Lemma keeps_gets {A} (f : Conv -> A) : keeps R (gets (W:=W) f).
Proof. intros e. unfold gets, get_own, mbind, prog_bind. simpl. reflexivity. Qed.
Lemma keeps_modify_both f : (forall c, RC c (f c)) -> keeps R (modify (W:=W) f).
Proof. intros Hf e. unfold modify, get_own, set_own, mbind, prog_bind. split; simpl; [reflexivity|apply Hf]. Qed.
Lemma keeps_deref {E A} (R' : E -> E -> Prop) `{!PreOrder R'} (o : option A) : keeps R' (deref o).
Proof. unfold deref. destruct o; auto with werf. Qed.
Lemma keeps_finally {E A} (R' : E -> E -> Prop) `{!PreOrder R'} (x : prog E A) f :
  keeps R' x -> keeps R' f -> keeps R' (finally x f).
Proof.
  intros Hx Hf e. unfold finally. specialize (Hx e). destruct (x e) as [r e1]. specialize (Hf e1).
  destruct (f e1) as [[] e2]; simpl in *; etransitivity; eassumption.
Qed.

#[local] Hint Resolve keeps_call_both keeps_gets keeps_modify_both keeps_deref keeps_finally keeps_alloc
  keeps_iterate keeps_next_schedule keeps_get_final_cache keeps_set_final_cache : werf.

Lemma keeps_read p : keeps R (read (W:=W) p).
Proof. unfold read. keeps_go. Qed.
Lemma keeps_write p i : keeps R (write (W:=W) p i).
Proof. unfold write. apply keeps_modify_both. conv_stable. Qed.
#[local] Hint Resolve keeps_read keeps_write : werf.
Lemma keeps_image_of p : keeps R (image_of (W:=W) p).
Proof. unfold image_of. keeps_go. Qed.
Lemma keeps_upd_image p f : (forall i, keeps R (f i)) -> keeps R (upd_image (W:=W) p f).
Proof. intros Hf. unfold upd_image. keeps_go. Qed.
Lemma keeps_upd_stage s f : (forall x, ss_digest (f x) = ss_digest x) -> keeps R (upd_stage (W:=W) s f).
Proof. intros Hf. unfold upd_stage. apply keeps_modify_both. intros c. by apply cs_stage. Qed.
Lemma keeps_upd_state img f : keeps R (upd_state (W:=W) img f).
Proof. unfold upd_state. apply keeps_modify_both. conv_stable. Qed.
Lemma keeps_conv_SetStageImage p : keeps R (conv_SetStageImage (W:=W) p).
Proof. unfold conv_SetStageImage. apply keeps_bind; auto with werf. intros i. apply keeps_modify_both. conv_stable. Qed.
#[local] Hint Resolve keeps_image_of keeps_upd_image keeps_upd_stage keeps_upd_state
  keeps_conv_SetStageImage : werf.

Lemma keeps_SetStageDesc p d : keeps R (SetStageDesc (W:=W) p d).
Proof. unfold SetStageDesc. auto with werf. Qed.
Lemma keeps_stage_image s : keeps R (stage_image (W:=W) s).
Proof. unfold stage_image. keeps_conv. Qed.
#[local] Hint Resolve keeps_SetStageDesc keeps_stage_image : werf.
Lemma keeps_stage_desc s : keeps R (stage_desc (W:=W) s).
Proof. unfold stage_desc. keeps_conv. Qed.
#[local] Hint Resolve keeps_stage_desc : werf.
Lemma keeps_stage_id s : keeps R (stage_id (W:=W) s).
Proof. unfold stage_id. keeps_conv. Qed.
Lemma keeps_GetLastNonEmptyStage img : keeps R (GetLastNonEmptyStage (W:=W) img).
Proof. unfold GetLastNonEmptyStage. keeps_conv. Qed.
Lemma keeps_conv_UnsetStageImage n : keeps R (conv_UnsetStageImage (W:=W) n).
Proof. unfold conv_UnsetStageImage. apply keeps_modify_both. conv_stable. Qed.
Lemma keeps_GetOrCreateStageImage n p stg img : keeps R (GetOrCreateStageImage (W:=W) n p stg img).
Proof.
  unfold GetOrCreateStageImage. keeps_conv.
Qed.
Lemma keeps_AppendOnTerminateFunc p : keeps R (AppendOnTerminateFunc (W:=W) p).
Proof. unfold AppendOnTerminateFunc. apply keeps_modify_both. conv_stable. Qed.
End frames.

#[export] Hint Resolve keeps_call_both keeps_gets keeps_deref keeps_finally keeps_alloc
  keeps_iterate keeps_next_schedule keeps_get_final_cache keeps_set_final_cache keeps_read keeps_write
  keeps_image_of keeps_upd_image keeps_upd_stage keeps_upd_state keeps_conv_SetStageImage
  keeps_SetStageDesc keeps_stage_image keeps_stage_desc keeps_stage_id keeps_GetLastNonEmptyStage
  keeps_conv_UnsetStageImage keeps_GetOrCreateStageImage keeps_AppendOnTerminateFunc : werf.
(** Also through [finally] and updates of images. *)
Ltac keeps_conv ::=
  repeat first
    [ solve [auto with werf]
    | lazymatch goal with
      | |- keeps _ (finally _ _) => apply keeps_finally; [typeclasses eauto|..]
      | |- keeps _ (upd_image _ _) => apply keeps_upd_image; [typeclasses eauto..|intros ?]
      end
    | keeps_step
    | progress autounfold with conv ].

(** ** The storages *)

Section reads.
Context {W H : Type} `{!GoQuote, !Nondet, !Hashes} (ph : Phase W H).
Context (RW : W -> W -> Prop) (RC : Conv -> Conv -> Prop) `{!PreOrder RW, !PreOrder RC, !ConvStable RC}.
Context (HR : PhaseReads RW ph).
Abbreviation R := (both RW RC).
Abbreviation m := (storageManager ph).

Lemma keeps_stageDesc id st :
  st = StagesStorage m \/ st ∈ SecondaryStagesStorageList ph ->
  keeps RW (getStageDesc m id st (CacheStagesStorageList m) (getWithLocalManifestCacheOption m)).
Proof using All.
  intros Hst. destruct (pr_manager _ _ HR) as [Hmain _ Hc Hg Hs]. apply keeps_getStageDesc; try done.
  destruct Hst as [->|Hst]; [done|by apply (pr_secondary _ _ HR)].
Qed.

Lemma keeps_byDigest st n d ts o :
  st = StagesStorage m \/ st ∈ SecondaryStagesStorageList ph ->
  keeps R (getStageDescSetByDigestFromStagesStorage m n d ts st o).
Proof using All.
  intros Hst. pose proof (pr_ids _ _ HR st) as Hids. pose proof keeps_stageDesc as Hd.
  unfold getStageDescSetByDigestFromStagesStorage, getStageDescSetFromStagesStorage. keeps_conv.
Qed.

Lemma keeps_byDigestWithCache st n d ts :
  st = StagesStorage m \/ st ∈ SecondaryStagesStorageList ph ->
  keeps R (GetStageDescSetByDigestFromStagesStorageWithCache m n d ts st).
Proof using All.
  intros Hst. pose proof (keeps_byDigest st) as Hd.
  unfold GetStageDescSetByDigestFromStagesStorageWithCache. keeps_conv.
Qed.

Lemma keeps_SelectSuitableStageDesc stg set : StageReads R stg -> keeps R (SelectSuitableStageDesc stg set).
Proof using PreOrder0 PreOrder1 ConvStable0. intros Hs. unfold SelectSuitableStageDesc. keeps_conv. Qed.
#[local] Hint Resolve keeps_SelectSuitableStageDesc : werf.

(** ** A stage *)

Lemma keeps_prevImage prev img stg : keeps R (prevImage (W:=W) prev img stg).
Proof using PreOrder0 PreOrder1 ConvStable0. unfold prevImage. keeps_conv. Qed.
Lemma keeps_desc_if_any stg : keeps R (desc_if_any (W:=W) stg).
Proof using PreOrder0 PreOrder1 ConvStable0. unfold desc_if_any. keeps_conv. Qed.
#[local] Hint Resolve keeps_prevImage keeps_desc_if_any : werf.
Lemma keeps_advance it stg b : keeps R (advance (W:=W) it stg b).
Proof using PreOrder0 PreOrder1 ConvStable0. unfold advance. keeps_conv. Qed.
Lemma keeps_getPrevNonEmptyStageCreationTs it : keeps R (getPrevNonEmptyStageCreationTs (W:=W) it).
Proof using PreOrder0 PreOrder1 ConvStable0. unfold getPrevNonEmptyStageCreationTs. keeps_conv. Qed.
#[local] Hint Resolve keeps_advance keeps_getPrevNonEmptyStageCreationTs : werf.

Lemma keeps_calculateDigest n d prev p b :
  (forall s, prev = Some s -> StageReads R s) -> keeps R (calculateDigest n d prev p b).
Proof using PreOrder0 PreOrder1 ConvStable0.
  intros Hp. unfold calculateDigest. apply keeps_bind; auto with werf. destruct prev as [s|]; auto with werf.
  specialize (Hp s eq_refl). keeps_conv.
Qed.

Lemma keeps_useStageDesc it img stg d : keeps R (useStageDesc (W:=W) it img stg d).
Proof using PreOrder0 PreOrder1 ConvStable0. unfold useStageDesc, GetPrevImage. keeps_conv. Qed.
Lemma keeps_contentDigestOf d : keeps R (contentDigestOf (W:=W) d).
Proof using PreOrder0 PreOrder1 ConvStable0. unfold contentDigestOf. keeps_conv. Qed.
#[local] Hint Resolve keeps_useStageDesc keeps_contentDigestOf : werf.

Lemma keeps_setStageDigest it img stg :
  (forall d, keeps R (SetDigest (W:=W) (ref stg) d)) ->
  StageReads R stg -> (forall s, PrevNonEmptyStage it = Some s -> StageReads R s) ->
  keeps R (setStageDigest ph it img stg).
Proof using All.
  intros Hd Hs Hp.
  assert (forall n d p b, keeps R (calculateDigest n d (PrevNonEmptyStage it) p b))
    by (intros; by apply keeps_calculateDigest).
  unfold setStageDigest, GetPrevImage, GetPrevBuiltImage, digestBaseImage. keeps_conv.
Qed.

Lemma keeps_selectStage it img stg d : StageReads R stg -> keeps R (selectStage ph it img stg d).
Proof using All.
  intros Hs.
  assert (forall n d p b, keeps R (calculateDigest n d (Some stg) p b))
    by (intros; apply keeps_calculateDigest; by intros ? [= <-]).
  pose proof (keeps_byDigestWithCache (StagesStorage m)) as Hd.
  unfold selectStage, GetStageDescSetByDigestWithCache. keeps_conv.
Qed.

Lemma keeps_introspectStage img stg : keeps R (introspectStage ph img stg).
Proof using All. unfold introspectStage. keeps_conv. Qed.

Lemma keeps_assertPrevStages it stg : keeps R (assertPrevStages (W:=W) it stg).
Proof using PreOrder0 PreOrder1 ConvStable0. unfold assertPrevStages. keeps_conv. Qed.

Lemma keeps_image_ExpandDependencies img env :
  (forall stg, stg ∈ stages img -> StageReads R stg) -> keeps R (image_ExpandDependencies img env).
Proof using PreOrder0 PreOrder1 ConvStable0.
  intros Hs. unfold image_ExpandDependencies. apply keeps_for_each; [typeclasses eauto|].
  intros stg Hstg. specialize (Hs stg Hstg). keeps_conv.
Qed.

Lemma keeps_afterImageStage img stg :
  (forall stg, stg ∈ stages img -> StageReads R stg) -> keeps R (afterImageStage ph img stg).
Proof using All.
  intros Hs. pose proof (keeps_image_ExpandDependencies img) as He. unfold afterImageStage. keeps_conv.
Qed.

Lemma keeps_SetupBaseImage img :
  img ∈ images ph -> (forall stg, stg ∈ stages img -> StageReads R stg) ->
  keeps R (SetupBaseImage (ContainerBackend ph) (images ph) (StagedDockerfileV1 ph) img).
Proof using All.
  intros Hi Hs. pose proof (keeps_image_ExpandDependencies img) as He.
  assert (forall f s, expandReference img = Some f -> keeps R (f s)) as Hf
    by (intros f s Ef; by apply (pr_expand _ _ HR img)).
  unfold SetupBaseImage, setupStageAsBase, setupRegistryBase, GetImage, baseImageInfo, inspectBase.
  keeps_conv.
Qed.

Lemma keeps_BeforeImageStages img :
  img ∈ images ph -> (forall stg, stg ∈ stages img -> StageReads R stg) ->
  keeps R (BeforeImageStages ph img).
Proof using All.
  intros Hi Hs. pose proof (keeps_SetupBaseImage img Hi Hs). unfold BeforeImageStages. keeps_conv.
Qed.

Lemma keeps_AfterImageStages img it : keeps R (AfterImageStages (W:=W) img it).
Proof using PreOrder0 PreOrder1 ConvStable0. unfold AfterImageStages. keeps_conv. Qed.

End reads.

#[export] Hint Resolve keeps_SelectSuitableStageDesc keeps_prevImage keeps_desc_if_any keeps_advance
  keeps_getPrevNonEmptyStageCreationTs keeps_useStageDesc keeps_contentDigestOf keeps_introspectStage : werf.

(** ** Building and publishing *)

Section writes.
Context {W H : Type} `{!GoQuote, !Nondet, !Hashes} (ph : Phase W H).
Context (RW : W -> W -> Prop) (RC : Conv -> Conv -> Prop) `{!PreOrder RW, !PreOrder RC, !ConvStable RC}.
Context (HR : PhaseReads RW ph) (HW : PhaseWrites RW ph).
Context (Hadd : forall c b, RC c (set_shouldAdd c b)).
Abbreviation R := (both RW RC).
Abbreviation m := (storageManager ph).
Abbreviation ops := (image_ops ph).
Abbreviation be := (ContainerBackend ph).

Lemma keeps_storingDesc id st n d : keeps R (storingDesc m id st n d).
Proof using All.
  destruct (pr_manager _ _ HR). unfold storingDesc, storeStageDescIntoLocalManifestCache. keeps_conv.
Qed.
Lemma keeps_accessing n : keeps R (accessing be n).
Proof using All. unfold accessing. keeps_conv. Qed.
Lemma keeps_desc_of id i : keeps R (desc_of (W:=W) id i).
Proof using All. unfold desc_of. keeps_conv. Qed.
Lemma keeps_shouldFetch st p : keeps R (shouldFetch ops st p).
Proof using All. unfold shouldFetch. keeps_conv. Qed.
#[local] Hint Resolve keeps_storingDesc keeps_accessing keeps_desc_of keeps_shouldFetch : werf.

Lemma keeps_copyStage b src dest id p : keeps R b -> keeps R (copyStage m ops be b src dest id p).
Proof using All.
  intros Hb. pose proof (pw_copy _ _ HW) as Hc. unfold copyStage, copyStageFromLocalStorage. keeps_conv.
Qed.
#[local] Hint Resolve keeps_copyStage : werf.

Lemma keeps_doFetchStage st id p : ReadsKeep RW st -> keeps R (doFetchStage m ops st id p).
Proof using All. intros Hst. unfold doFetchStage. keeps_conv. Qed.
#[local] Hint Resolve keeps_doFetchStage : werf.

Lemma keeps_fetchStageFromCache stg b st :
  ReadsKeep RW st -> keeps R (fetchStageFromCache m ops be stg b st).
Proof using All.
  intros Hst. destruct (pr_manager _ _ HR) as [_ _ _ Hg Hs].
  assert (forall id, keeps RW (getStageDesc m id st [] true)) as Hd
    by (intros; apply keeps_getStageDesc; try done; intros c Hc; by apply elem_of_nil in Hc).
  unfold fetchStageFromCache, stage_image. keeps_conv.
Qed.

Lemma keeps_prepareCacheStageAsPrimary p stg : keeps R (prepareCacheStageAsPrimary m be p stg).
Proof using All. unfold prepareCacheStageAsPrimary. keeps_conv. Qed.
#[local] Hint Resolve keeps_prepareCacheStageAsPrimary : werf.

Lemma keeps_fetchFromCaches stg l b r :
  (forall st, st ∈ l -> ReadsKeep RW st) -> keeps R (fetchFromCaches m ops be stg l b r).
Proof using All.
  revert b r. induction l as [|st l IH]; intros b r Hl; simpl; auto with werf.
  pose proof (keeps_fetchStageFromCache stg b st (Hl st ltac:(left))) as Hc.
  assert (forall b r, keeps R (fetchFromCaches m ops be stg l b r)) as Hrest
    by (intros; apply IH; intros; apply Hl; by right).
  keeps_conv.
Qed.

Lemma keeps_fetchFromPrimary stg : keeps R (fetchFromPrimary m ops stg).
Proof using All.
  pose proof (reads_main _ _ (pr_manager _ _ HR)) as Hst. unfold fetchFromPrimary. keeps_conv.
Qed.

Lemma keeps_FetchStage stg : keeps R (FetchStage m ops be stg).
Proof using All.
  pose proof (keeps_fetchFromPrimary stg).
  pose proof (keeps_fetchFromCaches stg (CacheStagesStorageList m) false []
                (reads_caches _ _ (pr_manager _ _ HR))).
  unfold FetchStage, refillCaches. keeps_conv.
Qed.
#[local] Hint Resolve keeps_FetchStage : werf.

Lemma keeps_CopyStage src dest id o : keeps R (CopyStage m ops be src dest id o).
Proof using All. unfold CopyStage. apply keeps_copyStage. keeps_conv. Qed.
#[local] Hint Resolve keeps_CopyStage : werf.

Lemma keeps_CopyStageIntoCacheStorages id l o : keeps R (CopyStageIntoCacheStorages m ops be id l o).
Proof using All. unfold CopyStageIntoCacheStorages, copyOptions. keeps_conv. Qed.
#[local] Hint Resolve keeps_CopyStageIntoCacheStorages : werf.

Lemma keeps_CopySuitable d src dest p :
  dest = StagesStorage m -> keeps R (CopySuitableStageDescByDigest m ops be d src dest p).
Proof using All.
  intros ->. assert (forall id, keeps RW (getStageDesc m id (StagesStorage m) (CacheStagesStorageList m)
    (getWithLocalManifestCacheOption m))) as Hd
    by (intros; eapply (keeps_stageDesc ph RW RC); try done; by left).
  unfold CopySuitableStageDescByDigest. keeps_conv.
Qed.
#[local] Hint Resolve keeps_CopySuitable : werf.

Lemma keeps_GenerateStageDescCreationTs d set : keeps R (GenerateStageDescCreationTs m be d set).
Proof using All. unfold GenerateStageDescCreationTs. keeps_conv. Qed.
#[local] Hint Resolve keeps_GenerateStageDescCreationTs : werf.

Lemma keeps_withStageLock stg {A} (x : prog (Env W Conv) A) : keeps R x -> keeps R (withStageLock ph stg x).
Proof using All. intros Hx. unfold withStageLock. keeps_conv. Qed.

Lemma keeps_copyIntoCaches stg : keeps R (copyIntoCaches ph stg).
Proof using All. unfold copyIntoCaches. keeps_conv. Qed.
#[local] Hint Resolve keeps_withStageLock keeps_copyIntoCaches : werf.

Lemma keeps_setupBaseImageRepoDigest img r : keeps R (setupBaseImageRepoDigest be img r).
Proof using All.
  assert (forall f : Conv -> Conv, (forall c, RC c (f c)) -> keeps R (modify (W:=W) f)) as Hm
    by (intros; by apply keeps_modify_both).
  unfold setupBaseImageRepoDigest. keeps_conv; apply Hm; conv_stable.
Qed.
#[local] Hint Resolve keeps_setupBaseImageRepoDigest : werf.

Lemma keeps_FetchBaseImage img : keeps R (FetchBaseImage m ops be img).
Proof using All.
  unfold FetchBaseImage, upToDate, pullBaseImage, setBaseInfo. keeps_conv.
Qed.
#[local] Hint Resolve keeps_FetchBaseImage : werf.

Section stage.
Context (it : StagesIterator W) (img : Image W) (stg : Stage W).
Context (Hr : StageReads R stg) (Hw : StageWrites R stg).

Lemma keeps_atomicCopySuitableStage d st : keeps R (atomicCopySuitableStage ph it img stg d st).
Proof using All.
  unfold atomicCopySuitableStage. apply keeps_bind; auto with werf.
  apply keeps_withStageLock. keeps_conv.
Qed.
#[local] Hint Resolve keeps_atomicCopySuitableStage : werf.

Lemma keeps_scanSecondary l :
  (forall st, st ∈ l -> st ∈ SecondaryStagesStorageList ph) -> keeps R (scanSecondary ph it img stg l).
Proof using All.
  induction l as [|st l IH]; intros Hl; simpl; auto with werf.
  assert (forall n d ts, keeps R (GetStageDescSetByDigestFromStagesStorageWithCache m n d ts st)) as Hd
    by (intros; apply keeps_byDigestWithCache; auto; right; apply Hl; by left).
  assert (keeps R (scanSecondary ph it img stg l)) as Hrest by (apply IH; intros; apply Hl; by right).
  keeps_conv.
Qed.

Lemma keeps_build_with p c : keeps R (build_with (W:=W) p c).
Proof using All. unfold build_with. keeps_conv. Qed.
#[local] Hint Resolve keeps_build_with : werf.

Lemma keeps_prepareStageInstructions : keeps R (prepareStageInstructions ph it img stg).
Proof using All.
  unfold prepareStageInstructions, serviceLabels, stage_id_of, GetPrevBuiltImage. keeps_conv.
Qed.

Lemma keeps_publishStage p set : keeps R (publishStage ph it img stg p set).
Proof using All.
  pose proof (reads_main _ _ (pr_manager _ _ HR)) as Hst. unfold publishStage, storeStage. keeps_conv.
Qed.

Lemma keeps_atomicBuildStageImage : keeps R (atomicBuildStageImage ph it img stg).
Proof using All.
  assert (forall n d ts, keeps R (GetStageDescSetByDigest m n d ts)) as Hd
    by (intros; apply keeps_byDigest; auto).
  pose proof keeps_publishStage as Hp.
  assert (forall p, keeps R (publishUnlessPublished ph it img stg p)) as Hu
    by (intros; unfold publishUnlessPublished, findPublished; keeps_conv).
  unfold atomicBuildStageImage. keeps_conv.
Qed.

Lemma keeps_obtainStage : keeps R (obtainStage ph it img stg).
Proof using All.
  pose proof (keeps_scanSecondary _ (fun _ Hst => Hst)) as Hsec.
  pose proof keeps_atomicBuildStageImage as Hb. pose proof keeps_prepareStageInstructions as Hp.
  assert (keeps R SetShouldAddManagedImagesRecords) by (apply keeps_modify_both; auto).
  unfold obtainStage, findAndFetchStageFromSecondaryStagesStorage, buildNewStage, buildStage,
    fetchBaseImageForStage, GetPrevImage. keeps_conv.
Qed.
End stage.
End writes.

End BuildFrames.
