(* ===== verification/BuildProps.v ===== *)
(** What is true of a build whatever the storages, the backend and the stages do: the iterator's
    assertions never fail, a build that requires its images only reads, the mutexes of the digests
    are given back unless the search for a stage fails. *)
From S2P Require Import Prelude Go GoStd Image Registry StagesStorage Parallel StorageManager.
From S2P Require Import ManagerFacts GitMapping Conveyor StageCopies BuildImage BuildPhase.
From S2P Require Import BuildFrames.

Module BuildFacts.
Import StagesStorage StorageManager ManagerFacts GitMapping Conveyor StageCopies BuildImage BuildPhase
  BuildFrames.

(** A loop whose accumulators have a property. *)
Lemma keeps_for_fold_inv {E A B} (R : E -> E -> Prop) `{!PreOrder R} (I : B -> Prop) (l : list A)
  (body : B -> A -> prog E B) :
  (forall b x, x ∈ l -> I b -> keeps R (body b x)) ->
  (forall b x w b' w', x ∈ l -> I b -> body b x w = (Ok b', w') -> I b') ->
  forall b, I b -> keeps R (for_fold l b body).
Proof.
  intros Hk HI. induction l as [|x l IH]; intros b Hb; simpl; auto with werf.
  apply keeps_bind_Ok; [done|apply Hk; [by left|done]|]. intros b' w w' Hw.
  apply IH; [intros; apply Hk; [by right|done]|intros; eapply HI; [by right|done..]|].
  by eapply HI; [left|..].
Qed.

Section facts.
Context {W H : Type} `{!GoQuote, !Nondet, !Hashes} (ph : Phase W H).
Abbreviation P := (prog (Env W Conv)).

(** The iterator after a stage, where the stage was processed. *)
Lemma OnImageStage_Ok it img stg e it' e' :
  OnImageStage ph it img stg e = (Ok it', e') ->
  PrevStage it' = Some stg /\
  (PrevNonEmptyStage it' = PrevNonEmptyStage it /\ PrevBuiltStage it' = PrevBuiltStage it \/
   PrevNonEmptyStage it' = Some stg /\ exists e1 e2,
     onImageStage ph it img stg e1 = (Ok tt, e2) /\
     (afterImageStage ph img stg ≫= fun _ => advance it stg false) e2 = (Ok it', e')).
Proof.
  unfold OnImageStage, iterator_OnImageStage. intros Ho.
  apply bind_Ok in Ho as (prev & e1 & _ & Ho). apply bind_Ok in Ho as (isEmpty & e2 & _ & Ho).
  apply bind_Ok in Ho as ([] & e3 & _ & Ho). apply bind_Ok in Ho as ([] & e4 & Hon & Ho).
  destruct isEmpty; simpl in *.
  - injection Ho as <- <-. simpl. auto.
  - apply bind_Ok in Hon as ([] & e5 & Hon & Haft). split.
    + apply bind_Ok in Ho as ([d|] & e6 & _ & Ho); by injection Ho as <- <-.
    + right. split.
      * apply bind_Ok in Ho as ([d|] & e6 & _ & Ho); by injection Ho as <- <-.
      * exists e3, e5. split; [done|]. apply bind_Ok. eauto.
Qed.

Lemma OnImageStage_prev it img stg e it' e' s :
  OnImageStage ph it img stg e = (Ok it', e') -> PrevNonEmptyStage it' = Some s ->
  s = stg \/ PrevNonEmptyStage it = Some s.
Proof.
  intros Ho Hs. apply OnImageStage_Ok in Ho as (_ & [[E _]|[E _]]); rewrite E in Hs; [by right|].
  injection Hs as ->. by left.
Qed.
End facts.

(** ** Single steps *)

Lemma wlp_any {E A} (x : prog E A) e (Q : A -> E -> Prop) : (forall a e', Q a e') -> wlp x e Q.
Proof. intros HQ. unfold wlp. by destruct (x e) as [[] ?]. Qed.

Section steps.
Context {W : Type}.
Abbreviation P := (prog (Env W Conv)).

Definition upd_own (e : Env W Conv) (c : Conv) : Env W Conv :=
  mkEnv (ext e) (tick e) (next_ptr e) (FinalStagesListCache e) c.

Lemma gets_eq {A} (f : Conv -> A) e : gets (W:=W) f e = (Ok (f (own e)), e).
Proof. done. Qed.
Lemma modify_eq f e : modify (W:=W) f e = (Ok tt, upd_own e (f (own e))).
Proof. done. Qed.
Lemma own_upd_own e c : own (upd_own e c) = c.
Proof. done. Qed.
Lemma call_own {A} (x : prog W A) e r e' : call (X:=Conv) x e = (r, e') -> own e' = own e.
Proof. unfold call. destruct (x (ext e)). by intros [= <- <-]. Qed.

Lemma wlp_gets {A} (f : Conv -> A) e Q : Q (f (own e)) e -> wlp (gets (W:=W) f) e Q.
Proof. done. Qed.
Lemma wlp_modify f e Q : Q tt (upd_own e (f (own e))) -> wlp (modify (W:=W) f) e Q.
Proof. done. Qed.
Lemma wlp_call_own {A} (x : prog W A) e Q : (forall a e', own e' = own e -> Q a e') -> wlp (call (X:=Conv) x) e Q.
Proof.
  intros HQ. unfold wlp. destruct (call x e) as [[a| |] e'] eqn:E; [|done..]. by apply HQ, (call_own x e (Ok a)).
Qed.
Lemma wlp_deref {A} (o : option A) e (Q : A -> Env W Conv -> Prop) :
  (forall a, o = Some a -> Q a e) -> wlp (deref o) e Q.
Proof. intros HQ. destruct o; [by apply HQ|done]. Qed.
Lemma wlp_read p e (Q : StageImage -> Env W Conv -> Prop) :
  (forall i, heap (own e) !! p = Some i -> Q i e) -> wlp (read p) e Q.
Proof. intros HQ. unfold read. apply wlp_bind, wlp_gets, wlp_deref. auto. Qed.

Lemma stage_image_eq s p i e :
  ss_stageImage (state_of s (own e)) = Some p -> heap (own e) !! p = Some i ->
  stage_image (W:=W) s e = (Ok (si_Image i), e).
Proof.
  intros Hp Hi. unfold stage_image, image_of, read, GetStageImage.
  apply bind_Ok. do 2 eexists. split; [apply gets_eq|]. rewrite Hp.
  apply bind_Ok. do 2 eexists. split; [done|].
  apply bind_Ok. exists i, e. split; [|done].
  apply bind_Ok. do 2 eexists. split; [apply gets_eq|]. by rewrite Hi.
Qed.
Lemma desc_if_any_eq stg p i e :
  ss_stageImage (state_of (ref stg) (own e)) = Some p -> heap (own e) !! p = Some i ->
  desc_if_any (W:=W) stg e = (Ok (stageDesc (si_Image i)), e).
Proof.
  intros Hp Hi. unfold desc_if_any. apply bind_Ok. do 2 eexists.
  split; [by apply (stage_image_eq _ p i)|done].
Qed.

Lemma lookup_state s f c :
  state_of s (set_stageStates c (<[ref_ptr s := f (state_of s c)]> (stageStates c))) = f (state_of s c).
Proof. unfold state_of at 1. simpl. by rewrite lookup_insert_eq. Qed.
End steps.

(** ** Stages with a description *)

Section built.
Context {W H : Type} `{!GoQuote, !Nondet, !Hashes} (ph : Phase W H).
Variable s : StageRef.

(** The stage has an image with a description. *)
Definition has_desc (c : Conv) : Prop :=
  exists p i d, ss_stageImage (state_of s c) = Some p /\ heap c !! p = Some i /\
    stageDesc (si_Image i) = Some d.

Definition desc_kept (c c' : Conv) : Prop := has_desc c -> has_desc c'.

#[export] Instance desc_kept_PreOrder : PreOrder desc_kept.
Proof. split; [by intros ? ?|]. intros ??? ?? ?. auto. Qed.

Definition anything (w w' : W) : Prop := True.
#[export] Instance anything_PreOrder : PreOrder anything.
Proof. by split. Qed.

Abbreviation R := (both anything desc_kept).

Lemma keeps_R {A} (x : prog (Env W Conv) A) :
  (forall e, desc_kept (own e) (own (x e).2)) -> keeps R x.
Proof. intros Hx e. by split. Qed.

Lemma keeps_upd_stage_desc f :
  (forall x, ss_stageImage (f x) = ss_stageImage x) -> keeps R (upd_stage (W:=W) s f).
Proof.
  intros Hf. apply keeps_R. intros e (p & i & d & Hp & Hi & Hd).
  unfold upd_stage. rewrite modify_eq. simpl. exists p, i, d.
  by rewrite lookup_state, Hf.
Qed.

Lemma keeps_SetMeta_desc x : keeps R (SetMeta (W:=W) s x).
Proof. by apply keeps_upd_stage_desc. Qed.
Lemma keeps_SetContentDigest_desc x : keeps R (SetContentDigest (W:=W) s x).
Proof. by apply keeps_upd_stage_desc. Qed.
Lemma keeps_held_desc f : keeps R (modify (W:=W) (fun c => set_heldDigests c (f c))).
Proof. apply keeps_R. intros e Hh. exact Hh. Qed.
Lemma keeps_SetShould_desc : keeps R (SetShouldAddManagedImagesRecords (W:=W)).
Proof. apply keeps_R. intros e Hh. exact Hh. Qed.
Lemma keeps_call_desc {A} (x : prog W A) : keeps R (call x).
Proof.
  apply keeps_call_both; [typeclasses eauto|].
intros w. exact I. Qed.
#[local] Hint Resolve keeps_SetMeta_desc keeps_SetContentDigest_desc keeps_held_desc keeps_SetShould_desc
  keeps_call_desc : werf.
Lemma keeps_unlock_desc d : keeps R (unlockDigest (W:=W) d).
Proof. unfold unlockDigest. keeps_go. Qed.
Lemma keeps_stage_image_desc s' : keeps R (stage_image (W:=W) s').
Proof. unfold stage_image, image_of, read, GetStageImage. keeps_go; apply keeps_deref; typeclasses eauto. Qed.
Lemma keeps_introspect_desc img stg : keeps R (introspectStage ph img stg).
Proof. pose proof (keeps_stage_image_desc (ref stg)). unfold introspectStage. keeps_go. Qed.

(** A program after which the stage has a description, then one that keeps it. *)
Lemma wlp_then {A B} (x : prog (Env W Conv) A) (f : A -> prog (Env W Conv) B) e :
  wlp x e (fun _ (e' : Env W Conv) => has_desc (own e')) -> (forall a, keeps R (f a)) ->
  wlp (x ≫= f) e (fun _ (e' : Env W Conv) => has_desc (own e')).
Proof.
  intros Hx Hf. apply wlp_bind. eapply wlp_mono; [exact Hx|]. simpl. intros a e' Hd.
  eapply wlp_mono; [apply (keeps_wlp R), Hf|]. simpl. intros b e2 [_ Hk]. auto.
Qed.

Lemma useStageDesc_desc it img stg d e :
  ref stg = s -> wlp (useStageDesc it img stg d) e (fun _ (e' : Env W Conv) => has_desc (own e')).
Proof.
  intros Hs. unfold useStageDesc. apply wlp_bind, wlp_any. intros prev e1.
  apply wlp_bind, wlp_any. intros p e2. apply wlp_bind.
  unfold SetStageDesc, upd_image. apply wlp_bind, wlp_read. intros i Hi.
  apply wlp_bind, wlp_ret, wlp_bind, wlp_read. intros i' _. unfold write. apply wlp_modify.
  rewrite Hs. unfold SetStageImage, upd_stage. apply wlp_modify. rewrite !own_upd_own.
  eexists p, _, _. unfold state_of at 1. simpl. rewrite !lookup_insert_eq. by split.
Qed.

Lemma selectStage_desc it img stg d e :
  ref stg = s -> wlp (selectStage ph it img stg d) e (fun b (e' : Env W Conv) => b = true -> has_desc (own e')).
Proof.
  intros Hs. unfold selectStage. apply wlp_bind, wlp_any. intros ts e1. apply wlp_bind, wlp_any.
  intros set e2. apply wlp_bind, wlp_any. intros [x|] e3.
  - eapply wlp_mono; [apply wlp_then; [by apply useStageDesc_desc|]|by simpl].
    intros []. unfold contentDigestOf. rewrite Hs. keeps_go.
  - apply wlp_bind, wlp_any. intros c e4. apply wlp_bind, wlp_any. intros [] e5. by apply wlp_ret.
Qed.

Lemma obtainStage_desc it img stg e :
  ref stg = s -> wlp (obtainStage ph it img stg) e (fun _ (e' : Env W Conv) => has_desc (own e')).
Proof.
  intros Hs. unfold obtainStage. rewrite Hs. apply wlp_bind, wlp_any. intros b e1. apply wlp_bind, wlp_any.
  intros [] e2. unfold stage_image, GetStageImage, image_of.
  apply wlp_bind, wlp_bind, wlp_gets, wlp_bind, wlp_deref. intros p Hp. apply wlp_bind, wlp_read.
  intros i Hi. apply wlp_ret. apply wlp_bind. case_bool_decide as Hd; [done|]. apply wlp_ret.
  assert (has_desc (own e2)) as Hh.
  { destruct (stageDesc (si_Image i)) as [d|] eqn:E; [|by destruct Hd]. by exists p, i, d. }
  eapply wlp_mono; [apply (keeps_wlp R)|simpl; intros ? ? [_ Hk]; by apply Hk].
  destruct b, (SkipAddManagedImagesRecords ph); keeps_go.
Qed.
Lemma finally_Ok {A} (x : prog (Env W Conv) A) f e a e' :
  finally x f e = (Ok a, e') -> exists e1, x e = (Ok a, e1) /\ (f e1).2 = e'.
Proof.
  unfold finally. destruct (x e) as [r e1]. destruct (f e1) as [[] e2] eqn:E; [..|done];
    intros [= -> <-]; exists e1; by rewrite E.
Qed.

Lemma onImageStage_desc it img stg e :
  ref stg = s -> wlp (onImageStage ph it img stg) e (fun _ (e' : Env W Conv) => has_desc (own e')).
Proof.
  intros Hs. unfold onImageStage. apply wlp_bind, wlp_any. intros [] e1. apply wlp_bind, wlp_any.
  intros [] e2. unfold calculateStage. apply wlp_bind.
  assert (wlp (d ← setStageDigest ph it img stg; lockDigest d ;; selectStage ph it img stg d) e2
    (fun b (e' : Env W Conv) => b = true -> has_desc (own e'))) as Hsel.
  { apply wlp_bind, wlp_any. intros d e3. apply wlp_bind, wlp_any. intros [] e4. by apply selectStage_desc. }
  eapply wlp_mono; [exact Hsel|]. simpl. intros b e3 Hb. unfold GetDigest. apply wlp_bind, wlp_gets.
  apply wlp_alt. intros [] e' (e4 & Hx & <-)%finally_Ok. apply (keeps_unlock_desc _ e4).
  destruct b.
  - apply (f_equal snd) in Hx. simpl in Hx. subst e4. rewrite Hs.
    apply (keeps_bind R); [..|by apply Hb]; [apply keeps_introspect_desc|intros _; apply keeps_SetMeta_desc].
  - assert (wlp (obtainStage ph it img stg) e3 (fun _ (e' : Env W Conv) => has_desc (own e'))) as Ho
      by (by apply obtainStage_desc).
    rewrite wlp_alt in Ho. by apply (Ho tt).
Qed.

Lemma processed_desc it img stg e1 e2 it' e' :
  ref stg = s -> (forall stg' env, stg' ∈ stages img -> keeps R (ExpandDependencies stg' env)) ->
  onImageStage ph it img stg e1 = (Ok tt, e2) ->
  (afterImageStage ph img stg ≫= fun _ => advance it stg false) e2 = (Ok it', e') ->
  PrevBuiltStage it' = Some stg /\ has_desc (own e').
Proof.
  intros Hs Hx Hon Ha.
  pose proof (onImageStage_desc it img stg e1 Hs) as Hd. rewrite wlp_alt in Hd. specialize (Hd _ _ Hon).
  apply bind_Ok in Ha as ([] & e3 & Haft & Hadv).
  assert (has_desc (own e3)) as (p & i & d & Hp & Hi & Hdesc).
  { assert (keeps R (afterImageStage ph img stg)) as Hk.
    { pose proof (keeps_stage_image_desc (ref stg)).
      assert (forall A (o : option A), keeps R (deref o)) by (intros; apply keeps_deref; typeclasses eauto).
      assert (forall env, keeps R (image_ExpandDependencies img env))
        by (intros; unfold image_ExpandDependencies; apply keeps_for_each; [typeclasses eauto|intros; apply keeps_wrap; auto]).
      unfold afterImageStage, stage_desc. keeps_go. }
    specialize (Hk e2). rewrite Haft in Hk. by apply Hk. }
  unfold advance in Hadv. apply bind_Ok in Hadv as (x & e4 & Hany & Hret).
  assert (desc_if_any stg e3 = (Ok (Some d), e3)) as E.
  { rewrite <-Hdesc. apply desc_if_any_eq with p; [by rewrite Hs|done]. }
  rewrite E in Hany. injection Hany as <- <-. injection Hret as <- <-. split; [done|]. by exists p, i, d.
Qed.
End built.

(** ** The mutexes of the digests *)

(** The same mutexes are held, and the stage [s] has the same digest. *)
Definition same_held (s : StageRef) (c c' : Conv) : Prop :=
  heldDigests c' = heldDigests c /\ ss_digest (state_of s c') = ss_digest (state_of s c).

Definition held_only (c c' : Conv) : Prop := heldDigests c' = heldDigests c.

#[export] Instance held_only_PreOrder : PreOrder held_only.
Proof. split; [by intros ?|]. intros ??? E1 E2. unfold held_only in *. congruence. Qed.
#[export] Instance held_only_stable : ConvStable held_only.
Proof. by split. Qed.

Lemma keeps_mono {E A} (R R' : E -> E -> Prop) (x : prog E A) :
  (forall e e', R e e' -> R' e e') -> keeps R x -> keeps R' x.
Proof. intros HR Hx e. apply HR, Hx. Qed.

Lemma StageReads_mono {W} (R R' : Env W Conv -> Env W Conv -> Prop) (stg : Stage W) :
  (forall e e', R e e' -> R' e e') -> StageReads R stg -> StageReads R' stg.
Proof. intros HR []. split; intros; by eapply keeps_mono. Qed.

#[export] Instance same_held_PreOrder s : PreOrder (same_held s).
Proof. split; [by intros ?|]. intros ??? [] []. split; congruence. Qed.
#[export] Instance same_held_stable s : ConvStable (same_held s).
Proof.
  split; try (by split). intros c s' f Hf. split; [done|]. unfold state_of. simpl.
  destruct (decide (ref_ptr s = ref_ptr s')) as [E|Hne].
  - rewrite E, lookup_insert_eq. simpl. rewrite Hf. unfold state_of. by rewrite <-E.
  - by rewrite lookup_insert_ne.
Qed.

(** ** A build that requires its images *)

Section reading.
Context {W H : Type} `{!GoQuote, !Nondet, !Hashes} (ph : Phase W H) (RW : W -> W -> Prop).
Context `{!PreOrder RW}.

(** The conveyor does not come to know of a new stage. *)
Definition same_shouldAdd (c c' : Conv) : Prop :=
  shouldAddManagedImagesRecords c' = shouldAddManagedImagesRecords c.

#[export] Instance same_shouldAdd_PreOrder : PreOrder same_shouldAdd.
Proof. split; [by intros ?|]. intros ??? E1 E2. unfold same_shouldAdd in *. congruence. Qed.
#[export] Instance same_shouldAdd_stable : ConvStable same_shouldAdd.
Proof. by split. Qed.

Abbreviation R := (both RW same_shouldAdd).
Context (HR : PhaseReads RW ph).
Context (Hmode : ShouldBeBuiltMode ph = true) (Hsec : SecondaryStagesStorageList ph = []).

Lemma keeps_onImageStage it img stg :
  StageReads R stg -> (forall s, PrevNonEmptyStage it = Some s -> StageReads R s) ->
  keeps R (onImageStage ph it img stg).
Proof using All.
  intros Hs Hp.
  assert (forall d, keeps R (SetDigest (W:=W) (ref stg) d)) as Hd by (intros d e; split; simpl; reflexivity).
  pose proof (keeps_setStageDigest ph RW same_shouldAdd HR it img stg Hd Hs Hp).
  assert (forall d, keeps R (selectStage ph it img stg d)) by (intros d; exact (keeps_selectStage ph RW same_shouldAdd HR it img stg d Hs)).
  pose proof (keeps_assertPrevStages RW same_shouldAdd it stg).
  assert (forall f, keeps R (modify (W:=W) (fun c => set_heldDigests c (f c)))) as Hheld
    by (intros; by apply keeps_modify_both).
  assert (forall d, keeps R (lockDigest (W:=W) d)) by (intros; unfold lockDigest; keeps_conv; auto).
  assert (forall d, keeps R (unlockDigest (W:=W) d)) by (intros; unfold unlockDigest; keeps_conv; auto).
  assert (keeps R (obtainStage ph it img stg)).
  { unfold obtainStage, findAndFetchStageFromSecondaryStagesStorage, buildNewStage.
    rewrite Hsec, Hmode. simpl. intros e. unfold mbind, prog_bind, mret, prog_ret, fail. simpl. reflexivity. }
  pose proof (keeps_introspectStage ph RW same_shouldAdd HR img stg).
  unfold onImageStage, calculateStage. keeps_conv.
Qed.

Lemma keeps_OnImageStage it img stg :
  (forall stg, stg ∈ stages img -> StageReads R stg) -> StageReads R stg ->
  (forall s, PrevNonEmptyStage it = Some s -> StageReads R s) ->
  keeps R (OnImageStage ph it img stg).
Proof using All.
  intros Hall Hs Hp. pose proof (keeps_onImageStage it img stg Hs Hp).
  pose proof (keeps_afterImageStage ph RW same_shouldAdd HR img stg Hall).
  unfold OnImageStage, iterator_OnImageStage, GetPrevBuiltImage. keeps_conv.
Qed.

Lemma keeps_doImage img :
  img ∈ images ph -> (forall stg, stg ∈ stages img -> StageReads R stg) -> keeps R (doImage ph img).
Proof using All.
  intros Hi Hall. pose proof (keeps_BeforeImageStages ph RW same_shouldAdd HR img Hi Hall).
  assert (keeps R (processStages ph img)).
  { unfold processStages.
    apply (keeps_for_fold_inv _ (fun it => forall s, PrevNonEmptyStage it = Some s -> StageReads R s)); [|..|done].
    - intros it stg Hstg Hit. apply keeps_wrap, keeps_OnImageStage; auto.
    - intros it stg e it' e' Hstg Hit He%wrap_Ok s Hs.
      destruct (OnImageStage_prev ph _ _ _ _ _ _ _ He Hs) as [->|]; auto. }
  pose proof (keeps_AfterImageStages (W:=W) RW same_shouldAdd img). unfold doImage. keeps_conv.
Qed.
End reading.
End BuildFacts.

Module BuildProps.
Import StagesStorage StorageManager ManagerFacts GitMapping Conveyor StageCopies BuildImage BuildPhase
  BuildFrames BuildFacts.

Section iterator.
Context {W H : Type} `{!GoQuote, !Nondet, !Hashes} (ph : Phase W H).

(** The stage that was processed last and is not empty is the one that was built last. *)
Definition iterator_ok (it : StagesIterator W) : Prop := PrevBuiltStage it = PrevNonEmptyStage it.

(** The debug assertions on the stages before cannot fail: however many stages of an image were
    processed, the last one that is not empty is the last one that was built, it is one of them,
    and if there is one the next stage passes the assertions; all that is asked of the stages is
    that the expansion of their dependencies does not take descriptions of images away. *)
Theorem previous_stage_is_built (img : Image W) (dn rest : list (Stage W)) (e e' : Env W Conv)
    (it : StagesIterator W) :
  stages img = dn ++ rest ->
  (forall s stg env, stg ∈ stages img -> keeps (both anything (desc_kept s)) (ExpandDependencies stg env)) ->
  for_fold dn NewStagesIterator (processStage ph img) e = (Ok it, e') ->
  iterator_ok it /\ PrevStage it = last dn /\
  match PrevNonEmptyStage it with
  | None => True
  | Some stg => stg ∈ dn /\ forall next e2, assertPrevStages it next e2 = (Ok tt, e2)
  end.
Proof.
  intros Hs Hx Hf.
  assert (wlp (for_fold dn NewStagesIterator (processStage ph img)) e (fun it (_ : Env W Conv) =>
    iterator_ok it /\ PrevStage it = last dn /\ forall stg, PrevNonEmptyStage it = Some stg -> stg ∈ dn)) as Hw.
  { apply (wlp_for_fold (fun l it (_ : Env W Conv) =>
      iterator_ok it /\ PrevStage it = last l /\ forall stg, PrevNonEmptyStage it = Some stg -> stg ∈ l)); [|done].
    intros l stg it0 e0 Hin (Hok & Hl & Hpn). apply wlp_alt. intros it1 e1 Hp%wrap_Ok.
    pose proof (OnImageStage_Ok ph _ _ _ _ _ _ Hp) as (Hprev & Hcases).
    split; [|split; [by rewrite last_snoc|]].
    - destruct Hcases as [[E1 E2]|(E1 & e2 & e3 & Hon & Ha)]; unfold iterator_ok in *; [congruence|].
      rewrite E1. by apply (processed_desc ph (ref stg) it0 img stg e2 e3 it1 e1 eq_refl (Hx (ref stg))).
    - intros stg' Hstg'. destruct (OnImageStage_prev ph _ _ _ _ _ _ _ Hp Hstg') as [->|Hold];
        apply elem_of_app; [right; left|left; auto]. }
  rewrite wlp_alt in Hw. destruct (Hw _ _ Hf) as (Hok & Hl & Hin). split; [done|]. split; [done|].
  destruct (PrevNonEmptyStage it) as [stg|] eqn:E; [|done]. split; [by apply Hin|]. intros next e2.
  unfold assertPrevStages. rewrite Hok, E. destruct (HasPrevStage next); [|done].
  by rewrite bool_decide_eq_true_2.
Qed.
End iterator.

Section mutexes.
Context {W H : Type} `{!GoQuote, !Nondet, !Hashes} (ph : Phase W H).
Context (HR : PhaseReads anything ph) (HW : PhaseWrites anything ph).
Variables (it : StagesIterator W) (img : Image W) (stg : Stage W).
(** The stages leave the mutexes and the digests alone. *)
Abbreviation R := (both anything (same_held (ref stg))).
Hypothesis Hstg : StageReads R stg.
Hypothesis Hbuild : StageWrites R stg.
Hypothesis Hprev : forall s, PrevNonEmptyStage it = Some s -> StageReads (both anything held_only) s.

Lemma keeps_held {A} (x : prog (Env W Conv) A) e r e' :
  keeps R x -> x e = (r, e') -> same_held (ref stg) (own e) (own e').
Proof using. intros Hx He. specialize (Hx e). rewrite He in Hx. apply Hx. Qed.

Lemma setStageDigest_held e r e' :
  setStageDigest ph it img stg e = (r, e') ->
  heldDigests (own e') = heldDigests (own e) /\ forall d, r = Ok d -> ss_digest (state_of (ref stg) (own e')) = d.
Proof using All.
  intros He. split.
  - assert (keeps (both anything held_only) (setStageDigest ph it img stg)) as Hk.
    { apply (keeps_setStageDigest ph anything held_only HR it img stg); [by intros d e0| |done].
      apply (StageReads_mono R); [|done]. by intros ?? [? []]. }
    specialize (Hk e). rewrite He in Hk. apply Hk.
  - intros d ->. unfold setStageDigest in He. do 5 (apply bind_Ok in He as (? & ? & _ & He)).
    apply bind_Ok in He as ([] & e1 & Hs & He). injection He as <- <-. unfold SetDigest, upd_stage in Hs.
    rewrite modify_eq in Hs. injection Hs as <-. unfold state_of at 1. simpl. by rewrite lookup_insert_eq.
Qed.

(** The rest of the stage leaves them alone too. *)
Lemma rest_held (found : bool) e r e' :
  (if found then introspectStage ph img stg ;; SetMeta (ref stg) (mkStageMeta false false "" "")
   else obtainStage ph it img stg) e = (r, e') -> same_held (ref stg) (own e) (own e').
Proof using All.
  apply keeps_held. destruct found.
  - pose proof (keeps_introspectStage ph anything (same_held (ref stg)) HR img stg). keeps_conv.
  - apply (keeps_obtainStage ph anything (same_held (ref stg)) HR HW); [by split|done..].
Qed.

Lemma lock_twice d e : d ∈ heldDigests (own e) ->
  lockDigest (W:=W) d e = (Panic "all goroutines are asleep - deadlock!", e).
Proof using. intros Hd. unfold lockDigest, mbind, prog_bind. rewrite gets_eq. by rewrite bool_decide_eq_true_2. Qed.

Lemma lock_once d e : d ∉ heldDigests (own e) ->
  lockDigest (W:=W) d e = (Ok tt, upd_own e (set_heldDigests (own e) ({[d]} ∪ heldDigests (own e)))).
Proof using.
  intros Hd. unfold lockDigest, mbind, prog_bind. rewrite gets_eq.
  by rewrite bool_decide_eq_false_2, modify_eq.
Qed.

(** What comes before the mutex is locked, and after a stage of the digest was looked for. *)
Definition up_to_digest : prog (Env W Conv) string :=
  wrap "unable to fetch dependencies for stage %s: %w" [FS (ref_LogDetailedName (ref stg))]
    (FetchDependencies stg) ;;
  assertPrevStages it stg ;;
  setStageDigest ph it img stg.
Definition obtain_found (found : bool) : prog (Env W Conv) unit :=
  if found then introspectStage ph img stg ;; SetMeta (ref stg) (mkStageMeta false false "" "")
  else obtainStage ph it img stg.

Lemma up_to_digest_held e r e' :
  up_to_digest e = (r, e') ->
  heldDigests (own e') = heldDigests (own e) /\ forall d, r = Ok d -> ss_digest (state_of (ref stg) (own e')) = d.
Proof using All.
  unfold up_to_digest. intros Ho. unfold mbind at 1, prog_bind at 1 in Ho.
  destruct (wrap _ _ (FetchDependencies stg) e) as [r1 e1] eqn:E1.
  assert (heldDigests (own e1) = heldDigests (own e)) as H1'
    by (eapply (keeps_held (wrap _ _ (FetchDependencies stg))); [apply keeps_wrap, Hstg|done]).
  destruct r1 as [[]| |]; [|by injection Ho as <- <-..].
  unfold mbind at 1, prog_bind at 1 in Ho. destruct (assertPrevStages it stg e1) as [r2 e2] eqn:E2.
  assert (heldDigests (own e2) = heldDigests (own e)) as H2'
    by (rewrite <-H1'; eapply keeps_held; [apply keeps_assertPrevStages; typeclasses eauto|done]).
  destruct r2 as [[]| |]; [|by injection Ho as <- <-..].
  apply setStageDigest_held in Ho as [Hh Hd]. by rewrite Hh.
Qed.

Lemma onImageStage_steps e :
  onImageStage ph it img stg e =
  match up_to_digest e with
  | (Ok d, e1) =>
      match lockDigest d e1 with
      | (Ok tt, e2) =>
          match selectStage ph it img stg d e2 with
          | (Ok found, e3) =>
              finally (obtain_found found) (unlockDigest (ss_digest (state_of (ref stg) (own e3)))) e3
          | (Err x, e3) => (Err x, e3)
          | (Panic x, e3) => (Panic x, e3)
          end
      | (Err x, e2) => (Err x, e2)
      | (Panic x, e2) => (Panic x, e2)
      end
  | (Err x, e1) => (Err x, e1)
  | (Panic x, e1) => (Panic x, e1)
  end.
Proof using Type.
  clear. unfold onImageStage, up_to_digest, calculateStage, mbind, prog_bind.
  destruct (wrap _ _ (FetchDependencies stg) e) as [[[]| |] e1]; [|done..].
  destruct (assertPrevStages it stg e1) as [[[]| |] e2]; [|done..].
  destruct (setStageDigest ph it img stg e2) as [[d| |] e3]; [|done..].
  destruct (lockDigest d e3) as [[[]| |] e4]; [|done..].
  by destruct (selectStage ph it img stg d e4) as [[]].
Qed.

(** The state with the mutex of a digest locked, or with these mutexes locked alone. *)
Definition with_held (e : Env W Conv) (held : gset string) : Env W Conv :=
  upd_own e (set_heldDigests (own e) held).

(** C11: the mutex of the digest of a stage. Once the digest is known, a process waits for ever where
    it has the mutex already; otherwise it locks it and looks for a stage of the digest. Where the
    search returns, the mutex is held when the stage starts to be processed, found or not, and still
    when that ends, and it is given back at once, whatever the processing returned. Where the search
    fails, the mutex is kept, and whoever locks it afterwards waits for ever. Before the digest is
    known no mutex is touched. The operations of the stage itself take and give back none. *)
Theorem digest_mutex_given_back e :
  let held := heldDigests (own e) in
  let deadlock := "all goroutines are asleep - deadlock!" in
  match up_to_digest e with
  | (Err x, e1) => onImageStage ph it img stg e = (Err x, e1) /\ heldDigests (own e1) = held
  | (Panic x, e1) => onImageStage ph it img stg e = (Panic x, e1) /\ heldDigests (own e1) = held
  | (Ok d, e1) =>
      heldDigests (own e1) = held /\
      if decide (d ∈ held) then onImageStage ph it img stg e = (Panic deadlock, e1)
      else match selectStage ph it img stg d (with_held e1 ({[d]} ∪ held)) with
           | (Ok found, e2) =>
               heldDigests (own e2) = {[d]} ∪ held /\
               let '(r, e3) := obtain_found found e2 in
               heldDigests (own e3) = {[d]} ∪ held /\
               onImageStage ph it img stg e = (r, with_held e3 held)
           | (Err x, e2) =>
               onImageStage ph it img stg e = (Err x, e2) /\ heldDigests (own e2) = {[d]} ∪ held /\
               forall e4 : Env W Conv, heldDigests (own e4) = heldDigests (own e2) ->
                 lockDigest d e4 = (Panic deadlock, e4)
           | (Panic x, e2) =>
               onImageStage ph it img stg e = (Panic x, e2) /\ heldDigests (own e2) = {[d]} ∪ held
           end
  end.
Proof using All.
  cbv zeta. rewrite onImageStage_steps.
  destruct (up_to_digest e) as [rd e1] eqn:E1. pose proof (up_to_digest_held _ _ _ E1) as [Hh1 Hd1].
  destruct rd as [d| |]; [|done..]. specialize (Hd1 d eq_refl). split; [done|].
  destruct (decide (d ∈ heldDigests (own e))) as [Hin|Hnin].
  { by rewrite lock_twice by by rewrite Hh1. }
  rewrite lock_once by by rewrite Hh1. rewrite Hh1. fold (with_held e1 ({[d]} ∪ heldDigests (own e))).
  set (e1' := with_held e1 _).
  assert (same_held (ref stg) (own e1') (own (selectStage ph it img stg d e1').2)) as [Hh2 Hd2].
  { apply (keeps_selectStage ph anything (same_held (ref stg)) HR it img stg d Hstg e1'). }
  assert (forall e4 : Env W Conv, heldDigests (own e4) = heldDigests (own (selectStage ph it img stg d e1').2) ->
    lockDigest d e4 = (Panic "all goroutines are asleep - deadlock!", e4)) as Hwait.
  { intros e4 He4. apply lock_twice. rewrite He4, Hh2. unfold e1', with_held. rewrite own_upd_own. simpl. set_solver. }
  assert (heldDigests (own e1') = {[d]} ∪ heldDigests (own e)) as Hh1' by done.
  assert (ss_digest (state_of (ref stg) (own e1')) = d) as Hd1' by exact Hd1.
  destruct (selectStage ph it img stg d e1') as [[found| |] e2]; cbn [snd] in *;
    [|split; [done|]; split; [by rewrite Hh2|exact Hwait]|split; [done|by rewrite Hh2]].
  split; [by rewrite Hh2|]. unfold finally. destruct (obtain_found found e2) as [r e3] eqn:E3.
  apply rest_held in E3 as [Hh3 Hd3]. split; [by rewrite Hh3, Hh2|]. rewrite Hd2, Hd1'.
  unfold unlockDigest, mbind, prog_bind. rewrite gets_eq. rewrite bool_decide_eq_true_2 by set_solver.
  rewrite modify_eq. unfold with_held. do 3 f_equal. rewrite Hh3, Hh2, Hh1'. set_solver.
Qed.
End mutexes.

Section safety.
Context {W H : Type} `{!GoQuote, !Nondet, !Hashes} (ph : Phase W H) (RW : W -> W -> Prop).
Context `{!PreOrder RW}.

(** C10: a build that requires its images and has no secondary storages only reads: what every
    lookup of a stage keeps of the world, the processing of all images keeps, one after the other
    or in parallel under any schedule, and no new stage is recorded, whether it succeeds or not. *)
Theorem required_build_only_reads :
  ShouldBeBuiltMode ph = true -> SecondaryStagesStorageList ph = [] -> PhaseReads RW ph ->
  (forall set img, set ∈ imagesSets ph -> img ∈ set -> img ∈ images ph) ->
  (forall img stg, img ∈ images ph -> stg ∈ stages img -> StageReads (both RW same_shouldAdd) stg) ->
  keeps (both RW same_shouldAdd) (doImages ph).
Proof.
  intros Hmode Hsec HR Hsets Hstages.
  assert (forall img, img ∈ images ph -> keeps (both RW same_shouldAdd) (doImage ph img)) as Hd
    by (intros; apply keeps_doImage; eauto).
  unfold doImages. destruct (_ && _).
  - apply keeps_wrap. unfold doImagesInParallel. apply keeps_for_each; [typeclasses eauto|].
    intros set Hset. apply keeps_bind; auto with werf. intros sched.
    apply Parallel.keeps_DoTasks; [typeclasses eauto|]. intros i _.
    apply keeps_bind_Ok; auto with werf. intros img w w' Hi. apply keeps_wrap, Hd, (Hsets set); [done|].
    unfold index in Hi. destruct (set !! i) eqn:E; [|done]. injection Hi as -> ->.
    by eapply list_elem_of_lookup_2.
  - apply keeps_for_each; [typeclasses eauto|]. intros img Hi. by apply keeps_wrap, Hd.
Qed.
End safety.
End BuildProps.
