(* ===== verification/BuildDigests.v ===== *)
(** The digests of an image's stages: each one is a hash of the digest of the stage before and of
    what both stages say they depend on, whatever is found in the storages and whatever is built. *)
From S2P Require Import Prelude Go GoStd Image Registry StagesStorage Parallel StorageManager.
From S2P Require Import ManagerFacts GitMapping Stages Conveyor StageCopies BuildImage BuildPhase.
From S2P Require Import BuildFrames BuildProps.

Module DigestFacts.
Import StagesStorage StorageManager ManagerFacts GitMapping Conveyor StageCopies BuildImage BuildPhase
  BuildFrames BuildFacts.

(** No stage gets another digest. *)
Definition digests_kept (c c' : Conv) : Prop :=
  forall s, ss_digest (state_of s c') = ss_digest (state_of s c).

#[export] Instance digests_kept_PreOrder : PreOrder digests_kept.
Proof. split; [by intros ??|]. intros ??? E1 E2 s. by rewrite E2, E1. Qed.
#[export] Instance digests_kept_stable : ConvStable digests_kept.
Proof.
  split; try (by intros). intros c s' f Hf s. unfold state_of. simpl.
  destruct (decide (ref_ptr s = ref_ptr s')) as [E|Hne].
  - rewrite E, lookup_insert_eq. simpl. rewrite Hf. unfold state_of. by rewrite <-E.
  - by rewrite lookup_insert_ne.
Qed.

Section chain.
Context {W H : Type} `{!GoQuote, !Nondet, !Hashes}.
Variable ph : Phase W H.
Variable img : Image W.
Abbreviation Rd := (both anything digests_kept).
Hypothesis HR : PhaseReads anything ph.
Hypothesis HW : PhaseWrites anything ph.
Hypothesis Hstages : forall stg, stg ∈ stages img -> StageReads Rd stg /\ StageWrites Rd stg.
Abbreviation platform := (im_TargetPlatform img).

(** ** What a stage answers *)

Definition digests_of (c : Conv) (l : list (Stage W)) : list string :=
  (fun s => ss_digest (state_of (ref s) c)) <$> l.

(** Asked whether it is empty, the stage answers so. *)
Definition says_empty (stg : Stage W) (b : bool) : Prop :=
  exists p e1 e2, stg_IsEmpty stg p e1 = (Ok b, e2).

(** The part of the digest that the stage before has, the last one that is not empty: its digest,
    and what it says that the next stage depends on. *)
Definition link_prev (c : Conv) (prev : option (Stage W)) (part : option (string * string)) : Prop :=
  match prev with
  | None => part = None
  | Some s => exists next e1 e2, GetNextStageDependencies s e1 = (Ok next, e2) /\
      part = Some (ss_digest (state_of (ref s) c), next)
  end.

(** The reference of the base image counts for the first stages of a staged Dockerfile. *)
Definition link_base (stg : Stage W) (base : string) : Prop :=
  if IsDockerfileImage img && Staged img && negb (HasPrevStage stg) &&
     (IsBasedOnStage img || StagedDockerfileV1 ph)
  then exists e1 e2, GetBaseImageReference img e1 = (Ok base, e2) else base = "".

(** The digest of a stage after the stages [before] that are not empty: the hash of its name, of
    what it says it depends on when those have their digests, and of the stage before. *)
Definition link (c : Conv) (before : list (Stage W)) (stg : Stage W) : Prop :=
  exists p q e1 e2 dependencies part base,
    digests_of (own e1) before = digests_of c before /\
    GetDependencies stg p q e1 = (Ok dependencies, e2) /\
    link_prev c (last before) part /\ link_base stg base /\
    ss_digest (state_of (ref stg) c) =
      Sha3_224Hash (digestArgs (Stages.GetLegacyCompatibleStageName (Name stg)) dependencies part platform base).

Definition linked (c : Conv) (l : list (Stage W)) : Prop :=
  forall l1 stg l2, l = l1 ++ stg :: l2 -> link c l1 stg.

(** The stages that are not empty, by their answers. *)
Definition nonempty (l : list (Stage W)) (bs : list bool) : list (Stage W) :=
  fst <$> filter (fun x => x.2 = false) (zip l bs).

Lemma nonempty_snoc l bs stg b : length l = length bs ->
  nonempty (l ++ [stg]) (bs ++ [b]) = nonempty l bs ++ (if b then [] else [stg]).
Proof using.
  intros Hl. unfold nonempty. rewrite zip_with_app by done. rewrite filter_app, fmap_app.
  f_equal. by destruct b.
Qed.

Lemma nonempty_elem l bs s : s ∈ nonempty l bs -> s ∈ l.
Proof using.
  unfold nonempty. rewrite list_elem_of_fmap. intros ([s' b] & -> & Hs).
  apply list_elem_of_filter in Hs as [_ Hs]. by apply elem_of_zip_l in Hs.
Qed.

(** A digest that is given later does not matter. *)
Lemma link_same c c' before stg :
  digests_of c' before = digests_of c before ->
  ss_digest (state_of (ref stg) c') = ss_digest (state_of (ref stg) c) ->
  link c before stg -> link c' before stg.
Proof using.
  intros Hb Hs (p & q & e1 & e2 & deps & part & base & G1 & G2 & G3 & G4 & G5).
  exists p, q, e1, e2, deps, part, base. rewrite Hb, Hs. do 2 (split; [done|]). split; [|done].
  unfold link_prev in *. destruct (last before) as [s|] eqn:El; [|done].
  apply last_Some in El as [l' ->]. unfold digests_of in Hb. rewrite !fmap_app in Hb.
  apply app_inj_tail in Hb as [_ ->]. done.
Qed.

Lemma linked_same c c' l : digests_of c' l = digests_of c l -> linked c l -> linked c' l.
Proof using.
  intros Hd Hl l1 stg l2 ->. unfold digests_of in Hd. rewrite !fmap_app, !fmap_cons in Hd.
  apply app_inj_1 in Hd as [G1 G2]; [|by rewrite !length_fmap]. injection G2 as G2 _.
  eapply link_same; [exact G1|exact G2|by eapply Hl].
Qed.

Lemma linked_snoc c l stg : linked c l -> link c l stg -> linked c (l ++ [stg]).
Proof using.
  intros Hl Hs l1 s l2 E. destruct l2 as [|s2 l2 _] using rev_ind.
  - apply app_inj_tail in E as [-> ->]. done.
  - rewrite app_comm_cons, app_assoc in E. apply app_inj_tail in E as [-> _]. by eapply Hl.
Qed.

(** ** One stage *)

Lemma wlp_kept {A} (x : prog (Env W Conv) A) e :
  keeps Rd x -> wlp x e (fun _ (e' : Env W Conv) => digests_kept (own e) (own e')).
Proof. intros Hx. eapply wlp_mono; [by apply keeps_wlp|]. by intros ?? []. Qed.

(** The digest of [stg] is [d], those of the others are as they were. *)
Definition digest_set (stg : Stage W) (d : string) (c c' : Conv) : Prop :=
  forall s, ss_digest (state_of s c') =
    if decide (ref_ptr s = ref_ptr (ref stg)) then d else ss_digest (state_of s c).

Lemma digest_set_kept stg d c0 c1 c2 c3 :
  digests_kept c0 c1 -> digest_set stg d c1 c2 -> digests_kept c2 c3 -> digest_set stg d c0 c3.
Proof. intros K1 K2 K3 s. rewrite K3, K2. by destruct (decide _). Qed.

Lemma digests_of_kept c c' l : digests_kept c c' -> digests_of c' l = digests_of c l.
Proof using. intros Hk. unfold digests_of. apply list_fmap_ext. intros _ s _. apply Hk. Qed.

Lemma digests_of_set stg d c c' l :
  digest_set stg d c c' -> (forall s, s ∈ l -> ref_ptr (ref s) <> ref_ptr (ref stg)) ->
  digests_of c' l = digests_of c l.
Proof using.
  intros Hset Hl. unfold digests_of. apply list_fmap_ext. intros i s Hi. rewrite Hset.
  rewrite decide_False; [done|]. apply Hl. by eapply list_elem_of_lookup_2.
Qed.

Lemma link_prev_kept c c' prev part : digests_kept c c' -> link_prev c' prev part -> link_prev c prev part.
Proof using.
  intros Hk. unfold link_prev. destruct prev as [s|]; [|done]. intros (n & e1 & e2 & Hn & ->).
  exists n, e1, e2. by rewrite Hk.
Qed.

Lemma calculateDigest_value n deps prev p b e :
  (forall s, prev = Some s -> s ∈ stages img) ->
  wlp (calculateDigest n deps prev p b) e (fun d (e' : Env W Conv) => digests_kept (own e) (own e') /\
    exists part, link_prev (own e) prev part /\ d = Sha3_224Hash (digestArgs n deps part p b)).
Proof using Hstages.
  intros Hp. unfold calculateDigest. destruct prev as [s|].
  2: { apply wlp_bind, wlp_ret, wlp_ret. split; [reflexivity|]. by exists None. }
  destruct (Hstages s (Hp s eq_refl)) as (Hr & _).
  apply wlp_bind, wlp_bind, wlp_wrap.
  eapply wlp_mono; [apply wlp_conj; [apply wlp_kept, (sr_GetNext _ _ Hr)|]|].
  { apply wlp_alt. intros x e1 Hx. exact (ex_intro (fun e2 => GetNextStageDependencies s e = (Ok x, e2)) e1 Hx). }
  simpl. intros x e1 [Hk [e2 Hx]]. unfold GetDigest. apply wlp_bind, wlp_gets. do 2 apply wlp_ret.
  split; [done|]. eexists. split; [|reflexivity]. exists x, e, e2. by rewrite Hk.
Qed.

Lemma digestBaseImage_value stg e :
  wlp (digestBaseImage ph img stg) e (fun base (e' : Env W Conv) =>
    digests_kept (own e) (own e') /\ link_base stg base).
Proof using Type.
  clear HR HW Hstages. apply wlp_alt. intros base e' Hb. split.
  - assert (keeps Rd (digestBaseImage ph img stg)) as Hk
      by (unfold digestBaseImage; keeps_conv).
    destruct (Hk e) as [_ Hd]. by rewrite Hb in Hd.
  - unfold digestBaseImage in Hb. unfold link_base.
    destruct (IsDockerfileImage img && Staged img && negb (HasPrevStage stg) && _); [eauto|].
    by injection Hb as <- _.
Qed.

(** The answers of the stage, where the stages before have their digests. *)
Definition answered (it : StagesIterator W) (stg : Stage W) (c : Conv) (d : string) : Prop :=
  exists p q e1 e2 dependencies part base,
    digests_kept c (own e1) /\ GetDependencies stg p q e1 = (Ok dependencies, e2) /\
    link_prev c (PrevNonEmptyStage it) part /\ link_base stg base /\
    d = Sha3_224Hash (digestArgs (Stages.GetLegacyCompatibleStageName (Name stg)) dependencies part platform base).

Lemma answered_kept it stg c c' d : digests_kept c c' -> answered it stg c' d -> answered it stg c d.
Proof using.
  intros Hk (p & q & e1 & e2 & deps & part & base & G1 & G2 & G3 & G4).
  exists p, q, e1, e2, deps, part, base. split; [by etrans|]. split; [done|].
  split; [by eapply link_prev_kept|done].
Qed.

Lemma setStageDigest_value it stg e :
  stg ∈ stages img -> (forall s, PrevNonEmptyStage it = Some s -> s ∈ stages img) ->
  wlp (setStageDigest ph it img stg) e (fun d (e' : Env W Conv) =>
    answered it stg (own e) d /\ digest_set stg d (own e) (own e')).
Proof using HR Hstages.
  intros Hs Hp. destruct (Hstages stg Hs) as (Hr & _). unfold setStageDigest.
  apply wlp_bind. eapply wlp_mono; [apply wlp_kept; unfold GetPrevImage; auto with werf|]. intros p e1 K1.
  apply wlp_bind. eapply wlp_mono; [apply wlp_kept; unfold GetPrevBuiltImage; auto with werf|]. intros q e2 K2.
  apply wlp_bind. eapply wlp_mono; [apply wlp_conj; [apply wlp_kept, (sr_Get _ _ Hr)|]|].
  { apply wlp_alt. intros x e3 Hx. exact (ex_intro (fun e3 => GetDependencies stg p q e2 = (Ok x, e3)) e3 Hx). }
  simpl. intros x e3 [K3 [e3' Hx]]. apply wlp_bind. eapply wlp_mono; [apply digestBaseImage_value|].
  intros base e3b [K3b Hbase].
  apply wlp_bind. eapply wlp_mono; [by apply calculateDigest_value|]. simpl. intros d e4 [K4 (part & Hpart & ->)].
  assert (digests_kept (own e) (own e3b)) as K03 by exact (transitivity (transitivity (transitivity K1 K2) K3) K3b).
  unfold SetDigest, upd_stage. apply wlp_bind, wlp_modify, wlp_ret. split.
  - exists p, q, e2, e3', x, part, base. split; [exact (transitivity K1 K2)|]. split; [done|].
    split; [by eapply link_prev_kept|done].
  - eapply digest_set_kept; [exact (transitivity K03 K4)| |reflexivity]. intros s. simpl.
    unfold state_of at 1. simpl. destruct (decide (ref_ptr s = ref_ptr (ref stg))) as [E|E].
    + by rewrite E, lookup_insert_eq.
    + by rewrite lookup_insert_ne.
Qed.

Lemma onImageStage_value it stg e :
  stg ∈ stages img -> (forall s, PrevNonEmptyStage it = Some s -> s ∈ stages img) ->
  wlp (onImageStage ph it img stg) e (fun _ (e' : Env W Conv) =>
    exists d, answered it stg (own e) d /\ digest_set stg d (own e) (own e')).
Proof using HR HW Hstages.
  intros Hs Hp. destruct (Hstages stg Hs) as (Hr & Hw). unfold onImageStage.
  apply wlp_bind. eapply wlp_mono; [apply wlp_kept, keeps_wrap, Hr|]. intros [] e1 K1.
  apply wlp_bind. eapply wlp_mono; [apply wlp_kept, keeps_assertPrevStages; typeclasses eauto|].
  intros [] e2 K2. unfold calculateStage. apply wlp_bind, wlp_bind.
  eapply wlp_mono; [by apply setStageDigest_value|]. simpl. intros d e3 [Ed K3].
  assert (answered it stg (own e) d) as Ed' by (eapply answered_kept; [exact (transitivity K1 K2)|done]).
  assert (forall f, keeps Rd (modify (W:=W) (fun c => set_heldDigests c (f c)))) as Hheld
    by (intros f e0; by split).
  assert (forall d, keeps Rd (lockDigest (W:=W) d)) as Hlock by (intros; unfold lockDigest; keeps_conv).
  assert (forall d, keeps Rd (unlockDigest (W:=W) d)) as Hunlock by (intros; unfold unlockDigest; keeps_conv).
  pose proof (keeps_introspectStage ph anything digests_kept HR img stg) as Hi.
  assert (keeps Rd (obtainStage ph it img stg)) as Ho
    by (apply (keeps_obtainStage ph anything digests_kept HR HW); [by intros c b s|done..]).
  apply wlp_bind. eapply wlp_mono; [apply wlp_kept, Hlock|]. intros [] e4 K4.
  eapply wlp_mono; [apply wlp_kept, (keeps_selectStage ph anything digests_kept HR it img stg d Hr)|].
  intros found e5 K5.
  eapply wlp_mono; [apply wlp_kept; destruct found; keeps_conv|]. simpl. intros _ e6 K6. exists d. split; [done|].
  eapply digest_set_kept; [exact (transitivity K1 K2)|exact K3|].
  exact (transitivity (transitivity K4 K5) K6).
Qed.

Lemma advance_value it stg b e :
  wlp (advance it stg b) e (fun it' (e' : Env W Conv) => digests_kept (own e) (own e') /\
    PrevNonEmptyStage it' = if b then PrevNonEmptyStage it else Some stg).
Proof using Type.
  apply wlp_conj; [apply wlp_kept, keeps_advance; typeclasses eauto|]. unfold advance.
  destruct b; [done|]. apply wlp_bind, wlp_any. by intros [d|] e'.
Qed.

Lemma OnImageStage_value it stg e :
  stg ∈ stages img -> (forall s, PrevNonEmptyStage it = Some s -> s ∈ stages img) ->
  wlp (OnImageStage ph it img stg) e (fun it' (e' : Env W Conv) => exists b, says_empty stg b /\
    if (b : bool)
    then PrevNonEmptyStage it' = PrevNonEmptyStage it /\ digests_kept (own e) (own e')
    else PrevNonEmptyStage it' = Some stg /\
         exists d, answered it stg (own e) d /\ digest_set stg d (own e) (own e')).
Proof using HR HW Hstages.
  intros Hs Hp. destruct (Hstages stg Hs) as (Hr & _).
  unfold OnImageStage, iterator_OnImageStage.
  apply wlp_bind. eapply wlp_mono; [apply wlp_kept; unfold GetPrevBuiltImage; auto with werf|]. intros p e1 K1.
  apply wlp_bind, wlp_wrap. eapply wlp_mono; [apply wlp_conj; [apply wlp_kept, (sr_IsEmpty _ _ Hr)|]|].
  { apply wlp_alt. intros x e2 Hx. exact (ex_intro (fun e2 => stg_IsEmpty stg p e1 = (Ok x, e2)) e2 Hx). }
  simpl. intros b e2 [K2 [e2' Hb]]. apply wlp_bind.
  eapply wlp_mono; [apply wlp_kept; keeps_conv|]. intros [] e3 K3. apply wlp_bind.
  pose proof (transitivity (transitivity K1 K2) K3) as K03.
  assert (says_empty stg b) as Hsay by (exists p, e1, e2'; done). destruct b.
  - apply wlp_ret. eapply wlp_mono; [apply advance_value|]. intros it' e4 [K4 Hit].
    exists true. split; [done|]. split; [done|]. exact (transitivity K03 K4).
  - apply wlp_bind. eapply wlp_mono; [by apply onImageStage_value|]. intros [] e4 (d & Hd & K4).
    assert (keeps Rd (afterImageStage ph img stg)) as Ha
      by (apply (keeps_afterImageStage ph anything digests_kept HR); intros s' Hs'; by apply Hstages).
    eapply wlp_mono; [apply wlp_kept, Ha|]. intros [] e5 K5.
    eapply wlp_mono; [apply advance_value|]. intros it' e6 [K6 Hit].
    exists false. split; [done|]. split; [done|]. exists d. split; [by eapply answered_kept|].
    eapply digest_set_kept; [exact K03|exact K4|exact (transitivity K5 K6)].
Qed.

(** ** All stages *)

Lemma wlp_for_fold_prefix {E A S} (I : list A -> S -> E -> Prop) (l : list A) (body : S -> A -> prog E S) :
  (forall dn x rest s e, l = dn ++ x :: rest -> I dn s e -> wlp (body s x) e (fun s' e' => I (dn ++ [x]) s' e')) ->
  forall s e, I [] s e -> wlp (for_fold l s body) e (fun s' e' => I l s' e').
Proof using.
  intros Hb.
  assert (forall rest dn s e, l = dn ++ rest -> I dn s e ->
    wlp (for_fold rest s body) e (fun s' e' => I l s' e')) as Hgen; [|by intros; apply (Hgen l [])].
  induction rest as [|x rest IH]; intros dn s e E' HI; simpl.
  - rewrite List.app_nil_r in E'. subst. by apply wlp_ret.
  - apply wlp_bind. eapply wlp_mono; [by apply (Hb dn x rest)|]. simpl.
    intros s' e' HI'. apply (IH (dn ++ [x])); [by rewrite <-List.app_assoc|done].
Qed.

Lemma last_elem {A} (l : list A) x : last l = Some x -> x ∈ l.
Proof using. intros Hl. apply last_Some in Hl as [l' ->]. apply elem_of_app. right. left. Qed.

(** What is true after the stages [dn]. *)
Definition chained (dn : list (Stage W)) (it : StagesIterator W) (e : Env W Conv) : Prop :=
  exists bs, Forall2 says_empty dn bs /\ PrevNonEmptyStage it = last (nonempty dn bs) /\
    linked (own e) (nonempty dn bs).

Lemma chained_step dn stg rest it e :
  NoDup ((fun s => ref_ptr (ref s)) <$> stages img) -> stages img = dn ++ stg :: rest -> chained dn it e ->
  wlp (processStage ph img it stg) e (fun it' e' => chained (dn ++ [stg]) it' e').
Proof using HR HW Hstages.
  intros Hnd El (bs & Hbs & Hp & Hc). unfold processStage. apply wlp_wrap.
  pose proof (Forall2_length _ _ _ Hbs) as Hlen.
  assert (forall s, s ∈ dn -> s ∈ stages img) as Hdn by (intros; rewrite El; set_solver).
  eapply wlp_mono; [apply OnImageStage_value|].
  { rewrite El. set_solver. }
  { intros s Hs. rewrite Hp in Hs. by eapply Hdn, nonempty_elem, last_elem. }
  intros it' e' (b & Hb & Hv). exists (bs ++ [b]).
  split; [by apply Forall2_app; [|constructor]|]. rewrite nonempty_snoc by done. destruct b.
  - destruct Hv as [Hit Hk]. rewrite List.app_nil_r. split; [congruence|].
    eapply linked_same; [by apply digests_of_kept|done].
  - destruct Hv as [Hit (d & Hd & Hset)]. split; [by rewrite last_snoc|].
    assert (forall s, s ∈ nonempty dn bs -> ref_ptr (ref s) <> ref_ptr (ref stg)) as Hne.
    { intros s Hs%nonempty_elem E. rewrite El, fmap_app in Hnd. apply NoDup_app in Hnd as (_ & Hdis & _).
      apply (Hdis (ref_ptr (ref s))); [apply list_elem_of_fmap; by exists s|]. rewrite E, fmap_cons. left. }
    pose proof (digests_of_set _ _ _ _ _ Hset Hne) as Hsame.
    apply linked_snoc; [by eapply linked_same|].
    destruct Hd as (p & q & e1 & e2 & deps & part & base & G1 & G2 & G3 & G4 & ->).
    exists p, q, e1, e2, deps, part, base. split; [by rewrite Hsame; apply digests_of_kept|].
    split; [done|]. split; [|split; [done|by rewrite Hset, decide_True]].
    rewrite Hp in G3. unfold link_prev in *. destruct (last (nonempty dn bs)) as [s|] eqn:Es; [|done].
    destruct G3 as (n & e3 & e4 & Hn & ->). exists n, e3, e4. split; [done|].
    rewrite Hset, decide_False; [done|]. by apply Hne, last_elem.
Qed.

End chain.
End DigestFacts.

Module BuildDigests.
Import StagesStorage StorageManager ManagerFacts GitMapping Conveyor StageCopies BuildImage BuildPhase
  BuildFrames BuildFacts DigestFacts.

Section digests.
Context {W H : Type} `{!GoQuote, !Nondet, !Hashes} (ph : Phase W H) (img : Image W).

(** C9: where the stages of an image were all processed, the digests of those that said they are
    not empty are a chain of hashes: each is the hash of the name of the stage, of what the stage
    said it depends on when the stages before it had their digests, of the digest of the stage
    before that is not empty with what that one said the next stage depends on, of the platform,
    and, for a staged Dockerfile, of the base image of its first stage. Nothing else goes into a
    digest: not which stages were found in the primary storage or in a secondary one, which were
    built, nor what the storages and the backend did. The stages are different objects, and none
    of their operations writes a digest. *)
Theorem digests_are_a_chain (e e' : Env W Conv) (it : StagesIterator W) :
  PhaseReads anything ph -> PhaseWrites anything ph ->
  NoDup ((fun s => ref_ptr (ref s)) <$> stages img) ->
  (forall stg, stg ∈ stages img ->
     StageReads (both anything digests_kept) stg /\ StageWrites (both anything digests_kept) stg) ->
  processStages ph img e = (Ok it, e') ->
  exists bs, Forall2 says_empty (stages img) bs /\ linked ph img (own e') (nonempty (stages img) bs).
Proof.
  intros HR HW Hnd Hstages He.
  assert (wlp (processStages ph img) e (fun it e' => chained ph img (stages img) it e')) as Hw.
  { unfold processStages. apply (wlp_for_fold_prefix (chained ph img)).
    - intros dn stg rest it0 e0 El Hc. by apply (chained_step ph img HR HW Hstages dn stg rest).
    - exists []. split; [constructor|]. split; [done|]. by intros [|] ? ?. }
  rewrite wlp_alt in Hw. destruct (Hw _ _ He) as (bs & ? & _ & ?). eauto.
Qed.

(** Where the answers of the stages do not depend on the state, two runs that take the same stages
    for not empty give them the same digests. *)
Lemma linked_determined c c' l :
  (forall s p q e1 e2 x y e3 e4 p' q', s ∈ l -> GetDependencies s p q e1 = (Ok x, e2) ->
     GetDependencies s p' q' e3 = (Ok y, e4) -> x = y) ->
  (forall s e1 e2 x y e3 e4, s ∈ l -> GetNextStageDependencies s e1 = (Ok x, e2) ->
     GetNextStageDependencies s e3 = (Ok y, e4) -> x = y) ->
  (forall e1 e2 x y e3 e4, GetBaseImageReference img e1 = (Ok x, e2) ->
     GetBaseImageReference img e3 = (Ok y, e4) -> x = y) ->
  linked ph img c l -> linked ph img c' l -> digests_of c' l = digests_of c l.
Proof.
  intros Hdep Hnext Hbase. induction l as [|stg l IH] using rev_ind; [done|]. intros L L'.
  assert (digests_of c' l = digests_of c l) as E.
  { apply IH; [intros; eapply Hdep; [|done..]; set_solver|intros; eapply Hnext; [|done..]; set_solver| |].
    - intros l1 s l2 ->. apply (L l1 s (l2 ++ [stg])). by rewrite <-app_assoc.
    - intros l1 s l2 ->. apply (L' l1 s (l2 ++ [stg])). by rewrite <-app_assoc. }
  destruct (L l stg [] eq_refl) as (p & q & e1 & e2 & deps & part & base & _ & D & P & B & Hd).
  destruct (L' l stg [] eq_refl) as (p' & q' & e3 & e4 & deps' & part' & base' & _ & D' & P' & B' & Hd').
  assert (deps' = deps) as -> by (eapply Hdep; [|done..]; set_solver).
  assert (base' = base) as ->.
  { unfold link_base in *. destruct (_ && _); [|congruence].
    destruct B as (? & ? & ?), B' as (? & ? & ?). by eapply Hbase. }
  assert (part' = part) as ->.
  { unfold link_prev in *. destruct (last l) as [s|] eqn:El; [|congruence].
    destruct P as (n & ? & ? & Hn & ->), P' as (n' & ? & ? & Hn' & ->).
    assert (s ∈ l) as Hs by by apply last_elem.
    assert (n' = n) as -> by (eapply Hnext; [|done..]; set_solver).
    apply last_Some in El as [l' ->]. unfold digests_of in E. rewrite !fmap_app in E.
    by apply app_inj_tail in E as [_ ->]. }
  unfold digests_of in *. rewrite !fmap_app, E. simpl. by rewrite Hd, Hd'.
Qed.
End digests.
End BuildDigests.
