(* ===== verification/BuildPublish.v ===== *)
(** The publication of a stage: what a primary storage promises (the stages it lists under a digest
    are the ones that were stored), and what follows: the image that a stage has in the end is one
    of its digest, and builds that publish one after the other under the lock of the digest leave
    at most one stage. *)
From S2P Require Import Prelude Go GoStd Image Registry StagesStorage Parallel StorageManager.
From S2P Require Import ManagerFacts GitMapping Conveyor StageCopies BuildImage BuildPhase.
From S2P Require Import BuildFrames BuildProps.

Module PublishFacts.
Import StagesStorage StorageManager ManagerFacts GitMapping Conveyor StageCopies BuildImage BuildPhase
  BuildFrames BuildFacts.

(** Nothing is published. *)
Definition same_published {W} (published : W -> string -> list Image.StageID) (w w' : W) : Prop :=
  forall d, published w' d = published w d.

#[export] Instance same_published_PreOrder {W} (published : W -> string -> list Image.StageID) :
  PreOrder (same_published published).
Proof. split; [by intros ??|]. intros ??? E1 E2 d. by rewrite E2, E1. Qed.

(** What the primary storage of a manager, its caches and the clock promise; [published w d] are the
    stages with the digest [d] that the primary storage has in the world [w], all from [start] on. *)
Record StoreLaws {W} `{!GoQuote} (m : Manager W) (ops : Storage W -> ImageOps W) (be : Backend W)
    (published : W -> string -> list Image.StageID) (start : Z) : Prop := {
  sl_reads : ManagerReads (same_published published) m;
  sl_ids_keep p d ts o : keeps (same_published published) (GetStagesIDsByDigest W (StagesStorage m) p d ts o);
  sl_now_keep : keeps (same_published published) (Now be);
  sl_now w ts w' : Now be w = (Ok ts, w') -> (start <= ts)%Z;
  sl_ids_digest d ts o w ids w' :
    GetStagesIDsByDigest W (StagesStorage m) (ProjectName m) d ts o w = (Ok ids, w') ->
    forall id, id ∈ ids -> Image.Digest id = d;
  sl_ids_all d ts w ids w' :
    GetStagesIDsByDigest W (StagesStorage m) (ProjectName m) d ts [] w = (Ok ids, w') ->
    forall id, id ∈ published w d -> (ts <= Image.CreationTs id)%Z -> id ∈ ids;
  sl_desc_digest st id w x w' : st = StagesStorage m \/ st ∈ CacheStagesStorageList m ->
    GetStageDesc W st (ProjectName m) id w = (Ok (Some x), w') ->
    Image.Digest (Image.SDStageID x) = Image.Digest id;
  sl_desc_found id w : id ∈ published w (Image.Digest id) ->
    match GetStageDesc W (StagesStorage m) (ProjectName m) id w with
    | (Ok None, _) => False
    | (Err e, _) => IsErrBrokenImage e = false
    | _ => True
    end;
  sl_store i d ts w r w' : StoreImage (ops (StagesStorage m)) i w = (r, w') ->
    img_Name i = stageImageName m (StagesStorage m) (Image.NewStageID d ts) ->
    forall d', published w' d' = published w d' \/
               d' = d /\ published w' d' = Image.NewStageID d ts :: published w d';
}.

(** The stage has the same digests, image and meta data. *)
Definition state_kept (s : StageRef) (c c' : Conv) : Prop := state_of s c' = state_of s c.

#[export] Instance state_kept_PreOrder s : PreOrder (state_kept s).
Proof. split; [by intros ?|]. intros ??? E1 E2. unfold state_kept in *. congruence. Qed.

Section publish.
Context {W H : Type} `{!GoQuote, !Nondet, !Hashes} (ph : Phase W H).
Context (published : W -> string -> list Image.StageID) (start : Z).
Abbreviation m := (storageManager ph).
Abbreviation be := (ContainerBackend ph).
Context (HL : StoreLaws m (image_ops ph) be published start).
Abbreviation same := (same_published published).

(** ** Descriptions *)

Lemma keeps_getDesc id caches b :
  (forall st, st ∈ caches -> st ∈ CacheStagesStorageList m) ->
  keeps same (getStageDesc m id (StagesStorage m) caches b).
Proof using HL.
  intros Hc. destruct (sl_reads _ _ _ _ _ HL) as [Hmain _ Hcaches Hg Hs].
  apply keeps_getStageDesc; [typeclasses eauto|done..|]. intros c Hin. by apply Hcaches, Hc.
Qed.

Lemma wlp_same {A} (x : prog W A) w : keeps same x -> wlp x w (fun _ w' => same w w').
Proof. by apply keeps_wlp. Qed.

Definition digest_is (id : Image.StageID) (r : option Image.StageDesc) : Prop :=
  forall x, r = Some x -> Image.Digest (Image.SDStageID x) = Image.Digest id.

Lemma fromManifest_digest id st w :
  wlp (getStageDescFromLocalManifestCache m id st) w (fun r _ => digest_is id r).
Proof using.
  unfold getStageDescFromLocalManifestCache. apply wlp_bind, wlp_any. intros i w1. apply wlp_ret.
  intros x. destruct i; [|done]. by intros [= <-].
Qed.

Lemma keeps_fromManifest id st : keeps same (getStageDescFromLocalManifestCache m id st).
Proof using HL.
  destruct (sl_reads _ _ _ _ _ HL) as [_ _ _ Hg _]. unfold getStageDescFromLocalManifestCache. keeps_go.
Qed.

Lemma keeps_storing id b st d : keeps same (storing m id b st d).
Proof using HL.
  destruct (sl_reads _ _ _ _ _ HL) as [_ _ _ _ Hs]. unfold storing, storeStageDescIntoLocalManifestCache.
  keeps_go.
Qed.
#[local] Hint Resolve keeps_fromManifest keeps_storing : werf.

Lemma fromCaches_digest id caches b w :
  (forall st, st ∈ caches -> st ∈ CacheStagesStorageList m) ->
  wlp (getStageDescFromCaches m id (StagesStorage m) caches b) w (fun r w' => digest_is id r /\ same w w').
Proof using HL.
  revert w. induction caches as [|c caches IH]; intros w Hc; simpl; [by apply wlp_ret|].
  apply wlp_bind. eapply wlp_mono; [apply wlp_conj; [apply wlp_same; destruct b; keeps_go|]|].
  { destruct b; [apply wlp_wrap, fromManifest_digest|by apply wlp_ret]. }
  simpl. intros [x|] w1 [K1 Hd].
  { apply wlp_ret. split; [|done]. intros y [= <-]. simpl. by apply Hd. }
  destruct (sl_reads _ _ _ _ _ HL) as [_ _ Hcaches _ _].
  assert (keeps same (GetStageDesc W c (ProjectName m) id)) as Hk by (apply Hcaches, Hc; left).
  apply wlp_bind, wlp_try.
  - intros [x|] w2 Hx; pose proof (Hk w1) as K2; rewrite Hx in K2; simpl in K2.
    + apply wlp_bind. eapply wlp_mono; [apply wlp_same, keeps_storing|]. intros [] w3 K3. apply wlp_ret.
      split; [|by rewrite K1, K2, K3]. intros y [= <-]. simpl.
      eapply (sl_desc_digest _ _ _ _ _ HL); [right; apply Hc; left|exact Hx].
    + eapply wlp_mono; [apply IH; intros; apply Hc; by right|]. intros r w' [Hr K]. split; [done|].
      by rewrite K1, K2, K.
  - intros e w2 Hx. pose proof (Hk w1) as K2. rewrite Hx in K2. simpl in K2.
    eapply wlp_mono; [apply IH; intros; apply Hc; by right|]. intros r w' [Hr K]. split; [done|].
    by rewrite K1, K2, K.
Qed.

Lemma getStageDesc_spec id b w :
  wlp (getStageDesc m id (StagesStorage m) (CacheStagesStorageList m) b) w (fun r _ =>
    digest_is id r /\ (id ∈ published w (Image.Digest id) -> r <> None)).
Proof using HL.
  unfold getStageDesc. apply wlp_bind.
  eapply wlp_mono; [apply wlp_conj; [apply wlp_same; destruct b; keeps_go|]|].
  { destruct b; [apply wlp_wrap, fromManifest_digest|by apply wlp_ret]. }
  simpl. intros [x|] w1 [K1 Hd]; [by apply wlp_ret|].
  apply wlp_bind. eapply wlp_mono; [by apply fromCaches_digest|]. intros [x|] w2 [Hd2 K2]; [by apply wlp_ret|].
  pose proof (sl_desc_found _ _ _ _ _ HL id w2) as Hfound. rewrite <-(K1 (Image.Digest id)), <-(K2 (Image.Digest id)).
  apply wlp_bind, wlp_try.
  - intros [x|] w3 Hx.
    + apply wlp_bind, wlp_any. intros [] w4. apply wlp_ret. split; [|done]. intros y [= <-].
      eapply (sl_desc_digest _ _ _ _ _ HL); [by left|exact Hx].
    + apply wlp_ret. split; [done|]. intros Hin. rewrite Hx in Hfound. by destruct (Hfound Hin).
  - intros e w3 Hx. destruct (IsErrBrokenImage e) eqn:Eb; [|done]. apply wlp_ret. split; [done|].
    intros Hin. rewrite Hx in Hfound. specialize (Hfound Hin). congruence.
Qed.

(** ** Lists of descriptions *)

Abbreviation sameE := (on (@ext W Conv) same).

Definition all_digest (d : string) (set : StageDescSet) : Prop :=
  forall p x, set !! p = Some x -> Image.Digest (Image.SDStageID x) = d.

Lemma descSet_spec d (ids : list Image.StageID) e :
  (forall id, id ∈ ids -> Image.Digest id = d) ->
  wlp (getStageDescSetFromStagesStorage (X:=Conv) m ids (StagesStorage m)) e (fun set (e' : Env W Conv) =>
    all_digest d set /\ ((exists id, id ∈ ids /\ id ∈ published (ext e) d) -> set <> ∅)).
Proof using HL.
  intros Hids. unfold getStageDescSetFromStagesStorage.
  eapply wlp_mono; [apply (wlp_for_fold (fun dn (set : StageDescSet) (e' : Env W Conv) =>
    same (ext e) (ext e') /\ all_digest d set /\
    ((exists id, id ∈ dn /\ id ∈ published (ext e) d) -> set <> ∅)))|].
  - intros dn id set e1 Hin (K1 & Hall & Hne). apply wlp_bind.
    pose proof (getStageDesc_spec id (getWithLocalManifestCacheOption m) (ext e1)) as Hs.
    pose proof (keeps_getDesc id (CacheStagesStorageList m) (getWithLocalManifestCacheOption m) (fun _ x => x) (ext e1)) as K2.
    unfold wlp, call in *. destruct (getStageDesc m id _ _ _ (ext e1)) as [[r| |] w2]; [|done..].
    destruct Hs as [Hd Hf]. simpl in K2. rewrite (Hids id Hin) in Hf. destruct r as [x|]; simpl.
    + split; [by rewrite K1, K2|]. split; [|intros _; apply insert_non_empty].
      intros p y. rewrite lookup_insert_Some. intros [[_ <-]|[_ Hy]]; [|by apply (Hall p)].
      rewrite (Hd x eq_refl). by apply Hids.
    + split; [by rewrite K1, K2|]. split; [done|]. intros (id' & Hi & Hp).
      apply elem_of_app in Hi as [Hi|Hi]; [|apply list_elem_of_singleton in Hi as ->].
      * apply Hne. eauto.
      * rewrite K1 in Hf. by destruct (Hf Hp).
  - split; [done|]. split; [done|]. intros (id & Hn%elem_of_nil & _). done.
  - simpl. intros set e' (_ & ?). done.
Qed.

Lemma byDigest_spec n d ts e :
  wlp (GetStageDescSetByDigest (W:=W) m n d ts) e (fun set (e' : Env W Conv) => all_digest d set /\
    ((exists id, id ∈ published (ext e) d /\ (ts <= Image.CreationTs id)%Z) -> set <> ∅)).
Proof using HL.
  unfold GetStageDescSetByDigest, getStageDescSetByDigestFromStagesStorage. apply wlp_bind, wlp_wrap, wlp_wrap.
  pose proof (sl_ids_keep _ _ _ _ _ HL (ProjectName m) d ts [] (ext e)) as K1.
  pose proof (sl_ids_digest _ _ _ _ _ HL d ts [] (ext e)) as Hd.
  pose proof (sl_ids_all _ _ _ _ _ HL d ts (ext e)) as Hall.
  unfold call, wlp at 1. destruct (GetStagesIDsByDigest W _ _ d ts [] (ext e)) as [[ids| |] w1]; [|done..].
  apply wlp_wrap. eapply wlp_mono; [apply (descSet_spec d); by eapply Hd|]. simpl. intros set e2 [Ha Hne].
  split; [done|]. intros (id & Hp & Hts). apply Hne. exists id. split; [by eapply Hall|].
  simpl in K1. by rewrite K1.
Qed.

(** ** Whatever a program returns *)

Lemma post_keep {A B} (Q : Env W Conv -> Prop) (x : prog (Env W Conv) A) (f : A -> prog (Env W Conv) B) e :
  keeps sameE x -> (forall e1, same (ext e) (ext e1) -> Q e1) ->
  (forall a e1, same (ext e) (ext e1) -> x e = (Ok a, e1) -> Q (f a e1).2) -> Q ((x ≫= f) e).2.
Proof using.
  intros Hx Hother Hf. unfold mbind, prog_bind. specialize (Hx e).
  destruct (x e) as [[a| |] e1] eqn:E; simpl in *; auto.
Qed.

Lemma post_after {A B} (Q : Env W Conv -> Prop) (x : prog (Env W Conv) A) (f : A -> prog (Env W Conv) B) e :
  Q (x e).2 -> (forall e1 e2, Q e1 -> same (ext e1) (ext e2) -> Q e2) -> (forall a, keeps sameE (f a)) ->
  Q ((x ≫= f) e).2.
Proof using.
  intros Hx Hstep Hf. unfold mbind, prog_bind. destruct (x e) as [[a| |] e1]; simpl in *; [|done..].
  eapply Hstep; [exact Hx|]. apply Hf.
Qed.

(** At most one stage was added, one of the digest [d]. *)
Definition adds (d : string) (w w' : W) : Prop := exists id,
  Image.Digest id = d /\ (start <= Image.CreationTs id)%Z /\
  forall d', published w' d' = published w d' \/ d' = d /\ published w' d' = id :: published w d'.

Lemma same_adds d w w' : same w w' -> adds d w w'.
Proof using. intros Hs. exists (Image.NewStageID d start). split; [done|]. split; [simpl; lia|]. by left. Qed.

Lemma adds_same d w0 w1 w2 w3 : same w0 w1 -> adds d w1 w2 -> same w2 w3 -> adds d w0 w3.
Proof using. intros K1 (id & Hd & Ht & Ha) K2. exists id. do 2 (split; [done|]). intros d'. rewrite K2, <-K1. apply Ha. Qed.

Context (it : StagesIterator W) (img : Image W) (stg : Stage W).
Context (Hstg : StageReads (both same (state_kept (ref stg))) stg).
(** A mutable stage is stored by the mutation of the image of the stage before. *)
Definition mutate_stores : Prop := forall prev p e i d ts,
  heap (own e) !! p = Some i ->
  img_Name (si_Image i) = stageImageName m (StagesStorage m) (Image.NewStageID d ts) ->
  forall d', published (ext (MutateImage stg (StagesStorage m) prev p e).2) d' = published (ext e) d' \/
    d' = d /\ published (ext (MutateImage stg (StagesStorage m) prev p e).2) d' =
                Image.NewStageID d ts :: published (ext e) d'.
Context (Hmutable : IsMutable stg = true -> mutate_stores).

Lemma keeps_own {A} (x : prog (Env W Conv) A) : (forall e, ext (x e).2 = ext e) -> keeps sameE x.
Proof using. intros Hx e d. by rewrite Hx. Qed.
Lemma keeps_modify_same f : keeps sameE (modify (W:=W) f).
Proof using. by apply keeps_own. Qed.
Lemma keeps_gets_same {A} (f : Conv -> A) : keeps sameE (gets (W:=W) f).
Proof using. by apply keeps_own. Qed.
Lemma keeps_call_same {A} (x : prog W A) : keeps same x -> keeps sameE (call x).
Proof using. apply keeps_call. Qed.
#[local] Hint Resolve keeps_modify_same keeps_gets_same keeps_call_same keeps_deref : werf.
#[local] Hint Resolve keeps_alloc keeps_iterate : werf.
Lemma keeps_read_same p : keeps sameE (read (W:=W) p).
Proof using. unfold read. keeps_go. Qed.
Lemma keeps_write_same p i : keeps sameE (write (W:=W) p i).
Proof using. apply keeps_modify_same. Qed.
#[local] Hint Resolve keeps_read_same keeps_write_same : werf.
Lemma keeps_upd_image_same p f : (forall i, keeps sameE (f i)) -> keeps sameE (upd_image (W:=W) p f).
Proof using. intros Hf. unfold upd_image. keeps_go. Qed.
#[local] Hint Resolve keeps_upd_image_same : werf.
Lemma keeps_useStageDesc_same d : keeps sameE (useStageDesc (W:=W) it img stg d).
Proof using.
  unfold useStageDesc, GetPrevImage, prevImage, GetOrCreateStageImage, SetStageDesc, image_of, GetStageImage,
    SetStageImage, GetBaseStageImage, GetBaseImageReference, conv_GetStageImage, conv_SetStageImage, upd_stage.
  keeps_go.
Qed.
Lemma keeps_Generate_same d set : keeps sameE (GenerateStageDescCreationTs m be d set).
Proof using HL. pose proof (sl_now_keep _ _ _ _ _ HL). unfold GenerateStageDescCreationTs. keeps_go. Qed.
#[local] Hint Resolve keeps_useStageDesc_same keeps_Generate_same : werf.

Lemma bind_eq {E A B} (x : prog E A) (f : A -> prog E B) e a e1 :
  x e = (Ok a, e1) -> (x ≫= f) e = f a e1.
Proof using. intros Hx. unfold mbind, prog_bind. by rewrite Hx. Qed.

Lemma read_eq p i e : heap (own e) !! p = Some i -> read (W:=W) p e = (Ok i, e).
Proof using. intros Hi. unfold read. rewrite (bind_eq _ _ _ _ _ (gets_eq _ _)). by rewrite Hi. Qed.

Lemma GetDigest_eq s e : GetDigest (W:=W) s e = (Ok (ss_digest (state_of s (own e))), e).
Proof using. done. Qed.

Lemma storeStage_adds p e ts i :
  heap (own e) !! p = Some i ->
  img_Name (si_Image i) = stageImageName m (StagesStorage m)
    (Image.NewStageID (ss_digest (state_of (ref stg) (own e))) ts) -> (start <= ts)%Z ->
  adds (ss_digest (state_of (ref stg) (own e))) (ext e) (ext (storeStage ph it stg p e).2).
Proof using HL Hmutable.
  intros Hi Hn Hts. unfold storeStage. rewrite (bind_eq _ _ _ _ _ (GetDigest_eq _ _)).
  destruct (IsMutable stg) eqn:Emut.
  { destruct (PrevBuiltStage it) as [s|]; [|by apply same_adds]. rewrite (bind_eq _ _ _ s e eq_refl).
    unfold GetStageImage. rewrite (bind_eq _ _ _ _ _ (gets_eq _ _)). unfold wrap.
    assert (adds (ss_digest (state_of (ref stg) (own e))) (ext e)
      (ext (MutateImage stg (StagesStorage m) (ss_stageImage (state_of (ref s) (own e))) p e).2)) as Ha.
    { exists (Image.NewStageID (ss_digest (state_of (ref stg) (own e))) ts). do 2 (split; [done|]).
      exact (Hmutable eq_refl _ _ _ _ _ _ Hi Hn). }
    by destruct (MutateImage stg _ _ p e) as [[]]. }
  rewrite (bind_eq _ _ _ _ _ (read_eq _ _ _ Hi)). unfold wrap.
  set (d := ss_digest _) in *.
  assert (adds d (ext e) (ext (upd_image p (fun i => call (StoreImage (image_ops ph (StagesStorage m)) i)) e).2)) as Ha.
  { unfold upd_image. rewrite (bind_eq _ _ _ _ _ (read_eq _ _ _ Hi)).
    apply post_after.
    - unfold call. destruct (StoreImage _ (si_Image i) (ext e)) as [r w'] eqn:Es. simpl.
      exists (Image.NewStageID d ts). do 2 (split; [done|]). exact (sl_store _ _ _ _ _ HL _ _ _ _ _ _ Es Hn).
    - intros e1 e2 Ha K. eapply adds_same; [reflexivity|exact Ha|exact K].
    - intros x. keeps_go. }
  by destruct (upd_image _ _ e) as [[]].
Qed.

Lemma Generate_spec d set e new e1 :
  GenerateStageDescCreationTs m be d set e = (Ok new, e1) ->
  new.1 = stageImageName m (StagesStorage m) (Image.NewStageID d new.2) /\ (start <= new.2)%Z /\ own e1 = own e.
Proof using HL.
  unfold GenerateStageDescCreationTs. intros Hg. apply bind_Ok in Hg as (ts & e2 & Hnow & Hg).
  apply bind_Ok in Hg as (l & e3 & Hit & Hg). apply bind_Ok in Hg as ([] & e4 & Hf & Hg).
  injection Hg as <- <-. simpl. split; [done|].
  assert (own e4 = own e3) as ->.
  { assert (keeps (on (@own W Conv) eq) (for_each l (fun d0 : positive * Image.StageDesc =>
      if bool_decide (Image.Name (Image.SDInfo d0.2) = ConstructStageImageName W (StagesStorage m) (ProjectName m) d ts)
      then mret (M:=prog (Env W Conv)) tt else mret tt))) as Hk by keeps_go.
    specialize (Hk e3). rewrite Hf in Hk. by symmetry. }
  unfold iterate in Hit. injection Hit as _ <-. simpl.
  pose proof (call_own _ _ _ _ Hnow) as Ho. split; [|done].
  unfold call in Hnow. destruct (Now be (ext e)) as [[t| |] w'] eqn:En; [|done..].
  injection Hnow as -> <-. by eapply (sl_now _ _ _ _ _ HL).
Qed.

(** The image gets the name of the stage: nothing else than the conveyor's own state changes. *)
Lemma rename_eq {B} p i (old name : string) (k : prog (Env W Conv) B) e :
  heap (own e) !! p = Some i -> exists e2, ext e2 = ext e /\
    (forall s, state_of s (own e2) = state_of s (own e)) /\
    (exists i', heap (own e2) !! p = Some i' /\ img_Name (si_Image i') = name) /\
    (conv_UnsetStageImage (W:=W) old ;; upd_image p (fun i => mret (with_name i name)) ;;
     conv_SetStageImage p ;; k) e = k e2.
Proof using.
  intros Hi. unfold conv_UnsetStageImage. rewrite (bind_eq _ _ _ _ _ (modify_eq _ _)).
  match goal with |- context [upd_own e ?c] => set (e1 := upd_own e c) end.
  assert (heap (own e1) !! p = Some i) as Hi1 by done.
  assert (upd_image p (fun i => mret (with_name i name)) e1 =
          write p (mkStageImage (with_name (si_Image i) name) (si_BaseImage i) (si_Builder i)) e1) as Hu.
  { unfold upd_image. rewrite (bind_eq _ _ _ _ _ (read_eq _ _ _ Hi1)).
    rewrite (bind_eq _ _ _ (with_name (si_Image i) name) e1 eq_refl).
    by rewrite (bind_eq _ _ _ _ _ (read_eq _ _ _ Hi1)). }
  rewrite (bind_eq _ _ _ _ _ (eq_trans Hu (modify_eq _ _))).
  match goal with |- context [upd_own e1 ?c] => set (e2 := upd_own e1 c) end.
  assert (heap (own e2) !! p = Some (mkStageImage (with_name (si_Image i) name) (si_BaseImage i) (si_Builder i)))
    as Hi2 by apply lookup_insert_eq.
  exists (upd_own e2 (set_stageImages (own e2) (<[name := p]> (stageImages (own e2))))).
  assert (conv_SetStageImage (W:=W) p e2 =
          (Ok tt, upd_own e2 (set_stageImages (own e2) (<[name := p]> (stageImages (own e2)))))) as Hs.
  { unfold conv_SetStageImage. by rewrite (bind_eq _ _ _ _ _ (read_eq _ _ _ Hi2)), modify_eq. }
  rewrite (bind_eq _ _ _ _ _ Hs).
  split; [|split; [|split; [|reflexivity]]]; [done|done|]. eexists. split; [exact Hi2|done].
Qed.

Lemma keeps_SetStageDesc_same p d : keeps sameE (SetStageDesc (W:=W) p d).
Proof using. unfold SetStageDesc. keeps_go. Qed.
Lemma keeps_SetRebuilt_same : keeps sameE (SetRebuilt (W:=W) img).
Proof using. unfold SetRebuilt, upd_state. keeps_go. Qed.
Lemma keeps_primaryDesc_same id :
  keeps sameE (call (X:=Conv) (GetStageDesc W (StagesStorage m) (ProjectName m) id)).
Proof using HL. destruct (sl_reads _ _ _ _ _ HL) as [[] _ _ _ _]. apply keeps_call_same. auto. Qed.
#[local] Hint Resolve keeps_SetStageDesc_same keeps_SetRebuilt_same keeps_primaryDesc_same : werf.

Lemma publishStage_adds p set e :
  adds (ss_digest (state_of (ref stg) (own e))) (ext e) (ext (publishStage ph it img stg p set e).2).
Proof using HL Hmutable.
  unfold publishStage. rewrite (bind_eq _ _ _ _ _ (GetDigest_eq _ _)).
  set (d := ss_digest (state_of (ref stg) (own e))).
  apply (post_keep (fun (e' : Env W Conv) => adds d (ext e) (ext e'))); [auto with werf|intros; by apply same_adds|].
  intros new e1 K1 Hg. apply Generate_spec in Hg as (Hname & Hts & Ho1).
  apply (post_keep (fun (e' : Env W Conv) => adds d (ext e) (ext e'))); [auto with werf| |].
  { intros e' ?. apply same_adds. by transitivity (ext e1). }
  intros i e2 K2 Hr. assert (heap (own e1) !! p = Some i /\ e2 = e1) as [Hi ->].
  { unfold read in Hr. rewrite (bind_eq _ _ _ _ _ (gets_eq _ _)) in Hr.
    destruct (heap (own e1) !! p) as [j|]; [|done]. by injection Hr as -> ->. }
  match goal with |- context [conv_SetStageImage p ;; ?k] =>
    destruct (rename_eq p i (img_Name (si_Image i)) new.1 k e1 Hi) as (e2 & Hx2 & Hs2 & (i' & Hi' & Hn') & ->)
  end.
  apply post_after.
  - assert (ss_digest (state_of (ref stg) (own e2)) = d) as Hd by by rewrite Hs2, Ho1.
    rewrite <-Hd. eapply adds_same; [|eapply storeStage_adds; [exact Hi'| |exact Hts]|reflexivity].
    + by rewrite Hx2.
    + by rewrite Hn', Hd.
  - intros e3 e4 Ha K. eapply adds_same; [reflexivity|exact Ha|exact K].
  - intros []. keeps_go.
Qed.

(** ** Publishing under the lock *)

Abbreviation sameK := (both same (state_kept (ref stg))).

Lemma keeps_read_kept p : keeps sameK (read (W:=W) p).
Proof using. unfold read. keeps_go. Qed.
#[local] Hint Resolve keeps_read_kept : werf.

Lemma keeps_parentTs_kept : keeps sameK (getPrevNonEmptyStageCreationTs (W:=W) it).
Proof using.
  unfold getPrevNonEmptyStageCreationTs, desc_if_any, stage_image, image_of, GetStageImage. keeps_go.
Qed.

Lemma keeps_byDigest_kept n d ts : keeps sameK (GetStageDescSetByDigest (W:=W) m n d ts).
Proof using HL.
  assert (forall id, keeps same (getStageDesc m id (StagesStorage m) (CacheStagesStorageList m)
    (getWithLocalManifestCacheOption m))) as Hd by (intros; by apply keeps_getDesc).
  pose proof (sl_ids_keep _ _ _ _ _ HL) as Hids.
  unfold GetStageDescSetByDigest, getStageDescSetByDigestFromStagesStorage, getStageDescSetFromStagesStorage.
  keeps_go.
Qed.
#[local] Hint Resolve keeps_parentTs_kept keeps_byDigest_kept : werf.

Lemma keeps_findPublished : keeps sameK (findPublished ph it stg).
Proof using HL Hstg.
  pose proof (sr_Select _ _ Hstg) as Hsel. unfold findPublished, SelectSuitableStageDesc, GetDigest. keeps_go.
Qed.

(** Every stage was published after [start], under its digest. *)
Definition from_start (w : W) : Prop :=
  forall d, Forall (fun id => Image.Digest id = d /\ (start <= Image.CreationTs id)%Z) (published w d).

Context (Hparent : forall e, wlp (getPrevNonEmptyStageCreationTs (W:=W) it) e (fun ts _ => (ts <= start)%Z)).
Context (Hsync : DisablePublishTagCacheSync ph = false).

(** Where no published stage is taken, none is published with the digest, or the selection among
    those that are declined. *)
Definition declined (d : string) (e : Env W Conv) (set : StageDescSet) : Prop :=
  published (ext e) d = [] \/ (set <> ∅ /\ all_digest d set).

Lemma findPublished_spec e : from_start (ext e) ->
  wlp (findPublished ph it stg) e (fun r _ =>
    r.2 = None -> declined (ss_digest (state_of (ref stg) (own e))) e r.1).
Proof using HL Hstg Hparent Hsync.
  intros Hone. unfold findPublished. rewrite Hsync. unfold wlp. rewrite (bind_eq _ _ _ _ _ (GetDigest_eq _ _)).
  set (d := ss_digest _). fold (wlp (A:=StageDescSet * option Image.StageDesc) (W:=Env W Conv)).
  apply wlp_bind. eapply wlp_mono; [apply wlp_conj; [apply Hparent|apply keeps_wlp, keeps_parentTs_kept]|].
  simpl. intros ts e1 [Hts [K1 _]].
  apply wlp_bind. eapply wlp_mono; [apply byDigest_spec|]. simpl. intros set e2 [Hall Hne].
  apply wlp_bind, wlp_any. intros r e3. apply wlp_ret. intros _. unfold declined. simpl.
  destruct (bool_decide_reflect (set = ∅)) as [->|Hs]; [left|by right].
  destruct (published (ext e) d) as [|id l] eqn:Ep; [done|].
  exfalso. apply Hne; [|done]. exists id. rewrite (K1 d), Ep. split; [left|].
  specialize (Hone d). rewrite Ep in Hone. apply Forall_cons in Hone as [[_ Hone] _]. lia.
Qed.

(** The selection takes some stage of every set that has any: that of all stages but those of
    git, which take an ancestor of the commit. *)
Definition selects_any : Prop := forall set e,
  set <> ∅ -> wlp (stg_SelectSuitableStageDesc stg set) e (fun r _ => r <> None).

Lemma findPublished_takes e : selects_any ->
  wlp (findPublished ph it stg) e (fun r _ => r.2 = None -> r.1 = ∅).
Proof using Type.
  clear Hsync. intros Hselect. unfold findPublished. destruct (DisablePublishTagCacheSync ph); [by apply wlp_ret|].
  apply wlp_bind, wlp_any. intros d e1. apply wlp_bind, wlp_any. intros ts e2.
  apply wlp_bind, wlp_any. intros set e3. unfold SelectSuitableStageDesc.
  destruct (bool_decide_reflect (set = ∅)) as [->|Hs]; [by apply wlp_bind, wlp_ret, wlp_ret|].
  apply wlp_bind. eapply wlp_mono; [by apply Hselect|]. intros r e4 Hr. apply wlp_ret. by destruct r.
Qed.

Lemma same_start w w' : same w w' -> from_start w -> from_start w'.
Proof using Type. intros K Hs d. rewrite K. apply Hs. Qed.

Lemma adds_start d w w' : adds d w w' -> from_start w -> from_start w'.
Proof using Type.
  intros (id & <- & Hts & Ha) Hs d'. destruct (Ha d') as [->|[-> ->]]; [apply Hs|]. by constructor.
Qed.

(** A publication adds at most one stage, and only where no published one is taken. *)
Lemma publishUnlessPublished_adds p e :
  let d := ss_digest (state_of (ref stg) (own e)) in
  let w' := ext (publishUnlessPublished ph it img stg p e).2 in
  from_start (ext e) -> adds d (ext e) w' /\
    (same (ext e) w' \/ exists set e1, findPublished ph it stg e = (Ok (set, None), e1) /\ declined d e set).
Proof using HL Hstg Hmutable Hparent Hsync.
  intros d w' Hs. pose proof (findPublished_spec e Hs) as Hf. pose proof (keeps_findPublished e) as [K1 Kd].
  assert (same (ext e) w' -> adds d (ext e) w' /\ (same (ext e) w' \/
    exists set e1, findPublished ph it stg e = (Ok (set, None), e1) /\ declined d e set)) as Hsame.
  { intros K. split; [by apply same_adds|by left]. }
  revert Hsame. unfold w', publishUnlessPublished, mbind, prog_bind. unfold wlp in Hf.
  destruct (findPublished ph it stg e) as [[[set r]| |] e1] eqn:Ef; simpl in *; [|by intros Hsame; apply Hsame..].
  destruct r as [x|]; intros Hsame.
  - apply Hsame. transitivity (ext e1); [done|].
    assert (keeps sameE (useStageDesc (W:=W) it img stg x;; contentDigest ← contentDigestOf x;
      SetContentDigest (ref stg) contentDigest;; mret false)) as Hk
      by (unfold contentDigestOf, SetContentDigest, upd_stage; keeps_go).
    apply (Hk e1).
  - clear Hsame. specialize (Hf eq_refl). pose proof (publishStage_adds p set e1) as Ha.
    rewrite Kd in Ha. split; [|right; eauto].
    assert (adds d (ext e) (ext (publishStage ph it img stg p set e1).2)) as Ha'
      by (eapply adds_same; [exact K1|exact Ha|reflexivity]).
    by destruct (publishStage ph it img stg p set e1) as [[]].
Qed.

(** No digest has two stages. *)
Definition at_most_one (w : W) : Prop := from_start w /\ forall d, length (published w d) <= 1.

Lemma one_same w w' : same w w' -> at_most_one w -> at_most_one w'.
Proof using. intros K [Hs Hone]. split; [by eapply same_start|]. intros d. rewrite K. apply Hone. Qed.

Lemma one_adds d w w' : adds d w w' -> published w d = [] -> at_most_one w -> at_most_one w'.
Proof using.
  intros Ha He [Hs Hone]. split; [by eapply adds_start|]. intros d'.
  destruct Ha as (id & _ & _ & Ha). destruct (Ha d') as [->|[-> ->]]; [apply Hone|]. rewrite He. simpl. lia.
Qed.

Lemma publishUnlessPublished_one p e : selects_any ->
  at_most_one (ext e) -> at_most_one (ext (publishUnlessPublished ph it img stg p e).2).
Proof using HL Hstg Hmutable Hparent Hsync.
  intros Hsel Hone. pose proof (findPublished_takes e Hsel) as Ht. unfold wlp in Ht.
  destruct (publishUnlessPublished_adds p e (proj1 Hone)) as [Ha [K|(set & e1 & Ef & Hd)]];
    [by eapply one_same|].
  rewrite Ef in Ht. specialize (Ht eq_refl). simpl in Ht. subst set.
  destruct Hd as [He|[Hne _]]; [by eapply one_adds|done].
Qed.

End publish.
End PublishFacts.

Module BuildPublish.
Import StagesStorage StorageManager ManagerFacts GitMapping Conveyor StageCopies BuildImage BuildPhase
  BuildFrames BuildFacts PublishFacts.

(** A process that built the image of a stage. *)
Record Publisher (W H : Type) := mkPublisher {
  pub_phase : Phase W H;
  pub_iterator : StagesIterator W;
  pub_image : Image W;
  pub_stage : Stage W;
  pub_ptr : positive;
  pub_conv : Conv;
}.
Arguments mkPublisher {W H} _ _ _ _ _ _. Arguments pub_phase {W H} _. Arguments pub_iterator {W H} _.
Arguments pub_image {W H} _. Arguments pub_stage {W H} _. Arguments pub_ptr {W H} _. Arguments pub_conv {W H} _.

Section publishers.
Context {W H : Type} `{!GoQuote, !Nondet, !Hashes}.
Context (published : W -> string -> list Image.StageID) (start : Z).

(** What the lock of the digest makes of it: the process publishes while no other does. *)
Definition publish_run (b : Publisher W H) (w : W) : W :=
  ext (publishUnlessPublished (pub_phase b) (pub_iterator b) (pub_image b) (pub_stage b) (pub_ptr b)
         (mkEnv w 0 1%positive None (pub_conv b))).2.

(** The digest of the stage, and the stages found under it where none of them is taken. *)
Definition pub_digest (b : Publisher W H) : string :=
  ss_digest (state_of (ref (pub_stage b)) (pub_conv b)).
Definition finds (b : Publisher W H) (w : W) (set : StageDescSet) : Prop := exists e1,
  findPublished (pub_phase b) (pub_iterator b) (pub_stage b) (mkEnv w 0 1%positive None (pub_conv b)) =
    (Ok (set, None), e1).

Record PublisherLaws (b : Publisher W H) : Prop := {
  pl_store : StoreLaws (storageManager (pub_phase b)) (image_ops (pub_phase b)) (ContainerBackend (pub_phase b))
    published start;
  pl_reads : StageReads (both (same_published published) (state_kept (ref (pub_stage b)))) (pub_stage b);
  pl_mutable : IsMutable (pub_stage b) = true -> mutate_stores (pub_phase b) published (pub_stage b);
  pl_parent e : wlp (getPrevNonEmptyStageCreationTs (W:=W) (pub_iterator b)) e (fun ts _ => (ts <= start)%Z);
  pl_sync : DisablePublishTagCacheSync (pub_phase b) = false;
}.

(** C8: under the lock of its digest a process publishes a stage only where none is published with
    the digest, or where its selection takes none of those that are, and then it publishes one, of
    its own digest. Therefore processes whose selection takes some stage of every set that has any,
    as that of every stage but those of git does, leave at most one stage for each digest, however
    many of them publish one after the other and whatever fails in between. Each may be a different
    process, with a conveyor and a stage of its own; they share the primary storage, where a stage
    is found as soon as it is stored. The search for published stages is not switched off
    ([DisablePublishTagCacheSync]), and no parent is younger than a stage published by any of them. *)
Theorem at_most_one_stage_per_digest :
  (forall b w, PublisherLaws b -> from_start published start w ->
     adds published start (pub_digest b) w (publish_run b w) /\
     (same_published published w (publish_run b w) \/ published w (pub_digest b) = [] \/
      exists set, finds b w set /\ set <> ∅ /\ all_digest (pub_digest b) set)) /\
  (forall (bs : list (Publisher W H)) w,
     (forall b, b ∈ bs -> PublisherLaws b /\ selects_any (pub_stage b)) ->
     at_most_one published start w -> at_most_one published start (foldl (fun w b => publish_run b w) w bs)).
Proof.
  split.
  - intros b w [L1 L2 L3 L4 L5] Hs.
    destruct (publishUnlessPublished_adds (pub_phase b) published start L1 (pub_iterator b) (pub_image b)
      (pub_stage b) L2 L3 L4 L5 (pub_ptr b) (mkEnv w 0 1%positive None (pub_conv b)) Hs)
      as [Ha [K|(set & e1 & Ef & [He|[Hne Hall]])]]; (split; [exact Ha|]); [by left|right; by left|].
    right. right. exists set. split; [by exists e1|done].
  - intros bs. induction bs as [|b bs IH]; intros w Hl Hone; simpl; [done|].
    apply IH; [intros; apply Hl; by right|]. destruct (Hl b ltac:(left)) as [[L1 L2 L3 L4 L5] Hsel].
    by apply (publishUnlessPublished_one (pub_phase b) published start L1 _ _ _ L2 L3 L4 L5 _ _ Hsel).
Qed.
End publishers.
End BuildPublish.
