(* ===== verification/BuildExamples.v ===== *)
(** A primary storage that keeps what is published in memory, a backend that builds anything, and
    an image with two stages: the hypotheses of the theorems on builds can hold. *)
From Stdlib Require Import DecimalString.
From S2P Require Import Prelude Go GoStd Image Registry StagesStorage Parallel StorageManager ManagerFacts.
From S2P Require Import GitMapping Stages Conveyor StageCopies BuildImage BuildPhase BuildFrames BuildProps.
From S2P Require Import BuildDigests BuildPublish.

Module BuildExamples.
Import StagesStorage StorageManager ManagerFacts GitMapping Conveyor StageCopies BuildImage BuildPhase
  BuildFrames BuildFacts BuildProps DigestFacts BuildDigests PublishFacts BuildPublish.

#[local] Existing Instance in_order.
#[local] Instance quote : GoQuote := fun s => s.
#[local] Instance hashes : Hashes := {
  sha256_hex s := s; Sha256Hash l := Str.Join l ","; Sha3_224Hash l := Str.Join l ",";
}.

(** ** The storage *)

(** The stages that were published, and the clock. *)
Record Shop := mkShop { shelf : list Image.StageID; clock : N }.

#[local] Instance int_eq_dec : EqDecision Decimal.int := Decimal.int_eq_dec.

Definition name_of (d : string) (ts : Z) : string := itoa ts +:+ "@" +:+ d.

Definition parse (name : string) : option Image.StageID :=
  match Str.cut "@" name with
  | Some (ts, d) => (fun i => Image.NewStageID d (Z.of_int i)) <$> NilZero.int_of_string ts
  | None => None
  end.

Lemma itoa_at z : Str.mem "@" (itoa z) = false.
Proof.
  assert (forall z, (0 <= z)%Z -> Str.mem "@" (itoa z) = false) as Hpos.
  { intros n Hn. destruct (itoa_digits n Hn) as [Hd _]. induction (itoa n) as [|c s IH]; simpl in *; [done|].
    apply andb_true_iff in Hd as [Hc Hs]. rewrite (IH Hs), orb_false_r. apply bool_decide_eq_false.
    by intros <-. }
  destruct z as [|p|p]; [by apply Hpos..|]. change (itoa (Z.neg p)) with (String "-" (itoa (Z.pos p))).
  simpl. by rewrite Hpos.
Qed.

Lemma parse_name d ts : parse (name_of d ts) = Some (Image.NewStageID d ts).
Proof.
  unfold parse, name_of. change ("@" +:+ d) with (String "@" d).
  rewrite (Str.cut_char "@" _ _ (itoa_at _)). unfold itoa.
  assert (exists i, NilZero.int_of_string (NilZero.string_of_int (Z.to_int ts)) = Some i /\ Z.of_int i = ts)
    as (i & -> & Hi).
  { pose proof (DecimalZ.of_to ts) as Hz. set (n := Z.to_int _) in *.
    destruct (decide (n = Decimal.Pos Decimal.Nil)) as [E|]; [|destruct (decide (n = Decimal.Neg Decimal.Nil)) as [E|]].
    - rewrite E in Hz |- *. by exists (Decimal.Pos Decimal.zero).
    - rewrite E in Hz |- *. by exists (Decimal.Neg Decimal.zero).
    - exists n. by rewrite NilZero.isi. }
  by rewrite <-Hi.
Qed.

(** The description of a published stage. *)
Definition describe (id : Image.StageID) : Image.StageDesc :=
  let name := name_of (Image.Digest id) (Image.CreationTs id) in
  Image.mkStageDesc id
    (Image.mkInfo name "repo" (Image.StageID_String id) "" [] [] "sha" ""
       {[ Image.WerfStageContentDigestLabel := "content" ]} 10 0 ∅ false []).

#[local] Instance StageID_eq_dec : EqDecision Image.StageID.
Proof. solve_decision. Defined.

Definition unused {A} : prog Shop A := panic "not used".

Definition storage : Storage Shop := {|
  Address := "repo";
  ConstructStageImageName _ := name_of;
  GetStagesIDs _ _ w := (Ok (shelf w), w);
  GetStagesIDsByDigest _ d ts _ w :=
    (Ok (filter (fun id => bool_decide (Image.Digest id = d) && (ts <=? Image.CreationTs id)%Z = true) (shelf w)), w);
  GetStageDesc _ id w := (Ok (if bool_decide (id ∈ shelf w) then Some (describe id) else None), w);
  DeleteStage _ _ := unused;
  AddStageCustomTag _ _ := mret tt;
  CheckStageCustomTag _ _ := mret tt;
  DeleteStageCustomTag _ := unused;
  GetStageCustomTagMetadata _ := unused;
  GetStageCustomTagMetadataIDs _ := unused;
  RegisterStageCustomTag _ _ _ := mret tt;
  UnregisterStageCustomTag _ := unused;
  RejectStage _ _ _ := mret tt;
  CopyFromStorage _ _ _ := mret None;
  AddManagedImage _ _ := mret tt;
  RmManagedImage _ _ := unused;
  IsManagedImageExist _ _ _ := mret false;
  GetManagedImages _ _ := mret [];
  PutImageMetadata _ _ _ _ := mret tt;
  RmImageMetadata _ _ _ _ := unused;
  IsImageMetadataExist _ _ _ _ _ := mret false;
  GetAllAndGroupImageMetadataByImageName _ _ _ := mret (∅, ∅);
  GetImportMetadata _ _ := mret None;
  PutImportMetadata _ _ := unused;
  RmImportMetadata _ _ := unused;
  GetImportMetadataIDs _ _ := mret [];
  GetClientIDRecords _ _ := unused;
  PostClientIDRecord _ _ := unused;
  GetSyncServerRecords _ _ := unused;
  PostSyncServerRecord _ _ := unused;
  GetLastCleanupRecord _ _ := unused;
  PostLastCleanupRecord _ := unused;
|}.

Definition manager : Manager Shop :=
  mkManager Shop false 0 "proj" storage None [] (mkManifestCache Shop (fun _ _ => mret None) (fun _ _ => mret tt))
    None.

(** Images are stored under their names. *)
Definition image_operations (_ : Storage Shop) : ImageOps Shop :=
  mkImageOps Shop RepoStorage
    (fun i w => match parse (img_Name i) with
                | Some id => (Ok i, mkShop (id :: shelf w) (clock w))
                | None => (Err (Errorf "bad name" []), w)
                end)
    (fun i => mret i) (fun i => mret (false, i)) (fun _ _ _ _ => mret tt).

Definition backend : Backend Shop :=
  mkBackend Shop (fun _ => mret None) (fun i => mret i) (fun i n _ => mret (with_name i n)) (fun i => mret i)
    (fun i => mret (si_Image i)) (fun _ => mret tt) (fun _ => mret tt) (fun _ => mret tt)
    (fun w => (Ok (Z.of_N (clock w)), mkShop (shelf w) (clock w + 1)%N)) (mret "uuid") (mret tt)
    (fun _ => unused).

(** ** The build *)

Definition stage (p : positive) (name : string) (prev buildable : bool) (dependencies : string) : Stage Shop :=
  mkStage Shop (mkStageRef p ("app/" +:+ name)) name prev true buildable false false false false
    (fun _ => mret false) (mret tt) (fun _ => mret tt) (fun _ _ => mret dependencies) (mret "")
    (fun _ _ => mret tt) (mret tt) (fun _ _ _ => mret tt) (fun set => mret (head (map_to_list set))).

Definition first : Stage Shop := stage 1 "beforeInstall" false false "a".
Definition second : Stage Shop := stage 2 "install" true true "b".

Definition app : Image Shop :=
  mkImage Shop 1 "app" true false false "linux/amd64" NoBaseImage "" "" None [first; second].

Definition repository : GitRepo Shop :=
  mkGitRepo Shop "own" true (fun _ => mret true) (fun _ _ => mret true) mret (fun _ => mret "c1") (mret "c1")
    (fun _ => mret []) (fun _ _ => unused) (fun _ _ => unused) (fun _ _ _ _ => unused) (fun _ => unused)
    (fun _ _ _ _ => unused).

Definition phase (required : bool) : Phase Shop unit :=
  mkPhase Shop unit manager [] image_operations backend (mkLockManager Shop unit (fun _ _ => mret tt) (fun _ => mret tt))
    repository "c1" (mret ("now", 1%Z)) false false false false "v2" [app] [[app]] false 1 [] (Ok []) (fun _ => Ok [])
    "linux/amd64" (fun _ => mret tt) (fun _ => mret tt) (mret "1s") required false false [] [].

Definition conv : Conv := mkConv ∅ ∅ ∅ ∅ ∅ false [] ∅ ∅ [] ∅.
Definition start : Env Shop Conv := mkEnv (mkShop [] 7) 0 1%positive None conv.

Definition built : Env Shop Conv := (doImages (phase false) start).2.

Example builds_both :
  (doImages (phase false) start).1 = Ok tt /\
  shelf (ext built) = [Image.NewStageID "1.2,install,b,1.2,beforeInstall,a," 8;
                       Image.NewStageID "1.2,beforeInstall,a" 7].
Proof. vm_compute. done. Qed.

(** A new process, after the build. *)
Definition again : Env Shop Conv := mkEnv (ext built) 0 1%positive None conv.

Example then_found : (doImages (phase true) again).1 = Ok tt.
Proof. vm_compute. reflexivity. Qed.

Example required_fails : match (doImages (phase true) start).1 with Err _ => True | _ => False end.
Proof. vm_compute. done. Qed.

(** ** The laws *)

Section laws.
Context (RW : Shop -> Shop -> Prop) `{!PreOrder RW}.

Lemma storage_reads : ReadsKeep RW storage.
Proof. split; intros; intros w; simpl; reflexivity. Qed.

Lemma manager_reads : ManagerReads RW manager.
Proof. split; [apply storage_reads|done|by intros ? ?%elem_of_nil|..]; intros; intros w; simpl; reflexivity. Qed.

Lemma phase_reads required : PhaseReads RW (phase required).
Proof.
  split; [apply manager_reads|by intros ? ?%elem_of_nil|..].
  7: by intros img f s Hin%list_elem_of_singleton; subst img.
  - intros st p d ts o [Hst|Hst%elem_of_nil]; [subst st|done]. intros w. simpl. reflexivity.
  - intros n w. simpl. reflexivity.
  - intros n w. simpl. reflexivity.
  - intros n w. simpl. reflexivity.
  - intros n w. simpl. reflexivity.
  - intros n w. simpl. reflexivity.
Qed.

Lemma stage_reads RC `{!PreOrder RC} p n prev b d : StageReads (both RW RC) (stage p n prev b d).
Proof. split; intros; intros e; simpl; reflexivity. Qed.

Lemma stage_writes RC `{!PreOrder RC} p n prev b d : StageWrites (both RW RC) (stage p n prev b d).
Proof. split; intros; intros e; simpl; reflexivity. Qed.
End laws.

Lemma phase_writes required : PhaseWrites anything (phase required).
Proof. split; intros; by intros w. Qed.

(** ** The theorems *)

Lemma previous_stage_is_built_witness :
  match for_fold [first; second] NewStagesIterator (processStage (phase false) app) start with
  | (Ok it, _) => iterator_ok it /\ PrevStage it = Some second /\
      match PrevNonEmptyStage it with
      | None => True
      | Some stg => stg ∈ [first; second] /\
          forall next e2, assertPrevStages (W:=Shop) it next e2 = (Ok tt, e2)
      end
  | _ => False
  end.
Proof.
  destruct (for_fold [first; second] NewStagesIterator (processStage (phase false) app) start) as [r e'] eqn:E.
  destruct r as [it|x|x]; [|vm_compute in E; discriminate E..].
  apply (previous_stage_is_built (phase false) app [first; second] [] start e' it); [done| |exact E].
  intros s stg env [-> | ->%list_elem_of_singleton]%elem_of_cons; intros e; split; done.
Defined.

(** The digest is known and its mutex is free; a stage is looked for, none is found, and the mutex
    is held until the stage was built. *)
Lemma digest_mutex_given_back_witness :
  exists d e1 found e2 e3, up_to_digest (phase false) NewStagesIterator app first start = (Ok d, e1) /\
    selectStage (phase false) NewStagesIterator app first d (with_held e1 {[d]}) = (Ok found, e2) /\
    heldDigests (own e2) = {[d]} /\
    obtain_found (phase false) NewStagesIterator app first found e2 = (Ok tt, e3) /\
    heldDigests (own e3) = {[d]} /\
    onImageStage (phase false) NewStagesIterator app first start = (Ok tt, with_held e3 ∅).
Proof.
  pose proof (digest_mutex_given_back (phase false) (phase_reads anything false) (phase_writes false)
    NewStagesIterator app first (stage_reads anything _ _ _ _ _ _) (stage_writes anything _ _ _ _ _ _)
    ltac:(done) start) as Hm. cbv zeta in Hm.
  assert (heldDigests (own start) = ∅) as Hs by reflexivity. rewrite Hs in Hm.
  destruct (up_to_digest (phase false) NewStagesIterator app first start) as [rd e1] eqn:E1.
  destruct rd as [d| |]; [|vm_compute in E1; discriminate E1..]. destruct Hm as [_ Hm].
  rewrite decide_False in Hm by set_solver. rewrite (right_id_L ∅ (∪)) in Hm.
  destruct (selectStage (phase false) NewStagesIterator app first d (with_held e1 {[d]})) as [rf e2] eqn:E2.
  destruct rf as [found| |].
  2,3: vm_compute in E1; injection E1 as <- <-; vm_compute in E2; discriminate E2.
  destruct Hm as [Hh2 Hm]. destruct (obtain_found (phase false) NewStagesIterator app first found e2) as [r e3] eqn:E3.
  destruct Hm as [Hh3 Hm].
  assert (r = Ok tt) as ->.
  { clear Hm Hh3 Hh2. vm_compute in E1. injection E1 as <- <-. vm_compute in E2. injection E2 as <- <-.
    vm_compute in E3. by injection E3 as <- _. }
  exists d, e1, found, e2, e3. exact (conj eq_refl (conj E2 (conj Hh2 (conj E3 (conj Hh3 Hm))))).
Defined.

Lemma required_build_only_reads_witness :
  ext (doImages (phase true) again).2 = ext again.
Proof.
  assert (keeps (both eq same_shouldAdd) (doImages (phase true))) as Hk.
  { apply required_build_only_reads; [typeclasses eauto|done|done|apply phase_reads; typeclasses eauto|..].
    - intros set img Hs Hi. apply list_elem_of_singleton in Hs as ->. exact Hi.
    - intros img stg ->%list_elem_of_singleton [-> | ->%list_elem_of_singleton]%elem_of_cons;
        apply stage_reads; typeclasses eauto. }
  destruct (Hk again) as [He _]. symmetry. exact He.
Defined.

(** Both stages say that they are not empty, and are linked. *)
Lemma digests_are_a_chain_witness :
  match processStages (phase false) app start with
  | (Ok _, e') => linked (phase false) app (own e') [first; second] /\
      digests_of (own e') [first; second] = ["1.2,beforeInstall,a"; "1.2,install,b,1.2,beforeInstall,a,"]
  | _ => False
  end.
Proof.
  destruct (processStages (phase false) app start) as [r e'] eqn:E.
  destruct r as [it|x|x]; [|vm_compute in E; discriminate E..].
  destruct (digests_are_a_chain (phase false) app start e' it (phase_reads anything false)
    (phase_writes false)) as (bs & Hbs & Hl).
  - exact (bool_decide_unpack (NoDup [1; 2]%positive) I).
  - intros stg [-> | ->%list_elem_of_singleton]%elem_of_cons;
      (split; [apply stage_reads|apply stage_writes]); typeclasses eauto.
  - exact E.
  - assert (bs = [false; false]) as ->.
    { inversion Hbs as [|? ? ? ? (p & e1 & e2 & Hb) Hbs1]; subst.
      inversion Hbs1 as [|? ? ? ? (p' & e3 & e4 & Hb') Hbs2]; subst. inversion Hbs2; subst.
      injection Hb as <- _. injection Hb' as <- _. reflexivity. }
    split; [exact Hl|]. vm_compute in E. injection E as _ <-. vm_compute. reflexivity.
Defined.

(** Two processes publish an image of the same stage. *)
Definition published (w : Shop) (d : string) : list Image.StageID :=
  filter (fun id => Image.Digest id = d) (shelf w).

Definition with_image : Conv :=
  mkConv {[ 1%positive := mkStageImage (NewLegacyStageImage "uuid" "") "" [] ]} {[ "uuid" := 1%positive ]}
    {[ 1%positive := mkStageState "digest" "" (Some 1%positive) (mkStageMeta false false "" "") ]}
    ∅ ∅ false [] ∅ ∅ [] ∅.

Definition publisher : Publisher Shop unit :=
  mkPublisher (phase false) NewStagesIterator app first 1%positive with_image.

Lemma store_laws : StoreLaws manager image_operations backend published 0.
Proof.
  split.
  - apply manager_reads. typeclasses eauto.
  - intros p d ts o w. simpl. reflexivity.
  - intros w d. reflexivity.
  - intros w ts w' [= <- _]. apply N2Z.is_nonneg.
  - intros d ts o w ids w' [= <- _] id Hid. apply list_elem_of_filter in Hid as [Hb _].
    apply andb_true_iff in Hb as [Hb _]. by apply bool_decide_eq_true in Hb.
  - intros d ts w ids w' [= <- _] id Hid Hts. apply list_elem_of_filter in Hid as [Hd Hin].
    apply list_elem_of_filter. split; [|exact Hin]. rewrite bool_decide_eq_true_2 by exact Hd.
    by apply Z.leb_le.
  - intros st id w x w' [->|?%elem_of_nil]; [|done]. simpl. destruct (bool_decide_reflect (id ∈ shelf w)); [|done].
    by intros [= <- _].
  - intros id w Hin. apply list_elem_of_filter in Hin as [_ Hin]. simpl. by rewrite bool_decide_eq_true_2.
  - intros i d ts w r w' Hs Hn d'. unfold StoreImage, image_operations in Hs. rewrite Hn in Hs.
    change (stageImageName manager (StagesStorage manager) (Image.NewStageID d ts)) with (name_of d ts) in Hs.
    rewrite parse_name in Hs. injection Hs as _ <-. unfold published. simpl.
    destruct (decide (d = d')) as [->|Hne].
    + right. by rewrite filter_cons_True.
    + left. by rewrite filter_cons_False.
Qed.

Lemma publisher_laws : PublisherLaws published 0 publisher /\ selects_any (pub_stage publisher).
Proof.
  split; [split; [apply store_laws|apply stage_reads; typeclasses eauto|done|intros e; done|done]|].
  intros set e Hs. simpl. intros Hh. apply Hs. apply map_to_list_empty_iff.
  by destruct (map_to_list set).
Qed.

Lemma at_most_one_stage_per_digest_witness :
  at_most_one published 0
    (foldl (fun w b => publish_run b w) (mkShop [] 7) [publisher; publisher; publisher]) /\
  shelf (foldl (fun w b => publish_run b w) (mkShop [] 7) [publisher; publisher; publisher]) =
    [Image.NewStageID "digest" 7].
Proof.
  split; [|vm_compute; reflexivity].
  apply (proj2 (at_most_one_stage_per_digest published 0) [publisher; publisher; publisher] (mkShop [] 7)).
  - intros b Hb. assert (b = publisher) as -> by set_solver. apply publisher_laws.
  - split; [intros d; constructor|]. intros d. vm_compute. lia.
Defined.

End BuildExamples.
