(* ===== verification/Float64.v ===== *)
(** float64 as the executable specification of IEEE 754 numbers in the Standard Library
    (Floats.SpecFloat), and the volumes of pkg/volumeutils, whose usage is computed with it. *)
From S2P Require Import Prelude Go.
From Stdlib Require Import SpecFloat.

(** * Arithmetic of float64 and uint64 *)

Module Float64.

Definition prec : Z := 53.
Definition emax : Z := 1024.

Definition float64 := spec_float.

(** The conversion of an integer, rounded to nearest even. *)
Definition of_int (z : Z) : float64 := binary_normalize prec emax z 0 false.

Definition sub : float64 -> float64 -> float64 := SFsub prec emax.
Definition mul : float64 -> float64 -> float64 := SFmul prec emax.
Definition div : float64 -> float64 -> float64 := SFdiv prec emax.
Definition leb : float64 -> float64 -> bool := SFleb.
Definition gtb (x y : float64) : bool := SFltb y x.

(** [math.Max]. *)
Definition Max (x y : float64) : float64 :=
  match x, y with
  | S754_infinity false, _ | _, S754_infinity false => S754_infinity false
  | S754_nan, _ | _, S754_nan => S754_nan
  | S754_zero true, S754_zero _ => y
  | S754_zero false, S754_zero _ => x
  | _, _ => if SFltb y x then x else y
  end.

(** The integer part of a finite number. *)
Definition trunc (x : float64) : option Z :=
  match x with
  | S754_zero _ => Some 0%Z
  | S754_finite s m e =>
      let a := (if 0 <=? e then Zpos m * 2 ^ e else Zpos m / 2 ^ (- e))%Z in
      Some (if s then (- a)%Z else a)
  | _ => None
  end.
End Float64.

Definition uint64_max : Z := (2 ^ 64 - 1)%Z.

Definition wrapu64 (z : Z) : Z := (z mod 2 ^ 64)%Z.

Lemma wrapu64_id z : (0 <= z < 2 ^ 64)%Z -> wrapu64 z = z.
Proof. intros H. unfold wrapu64. by rewrite Z.mod_small. Qed.

(** What the language leaves to the implementation: the conversion to uint64 of a number that has no
    integer part in its range. *)
Class FloatConversion := outOfRange : Float64.float64 -> Z.

Definition to_uint64 `{FloatConversion} (x : Float64.float64) : Z :=
  match Float64.trunc x with
  | Some z => if ((0 <=? z) && (z <=? uint64_max))%Z then z else wrapu64 (outOfRange x)
  | None => wrapu64 (outOfRange x)
  end.

Lemma to_uint64_range `{FloatConversion} x : (0 <= to_uint64 x < 2 ^ 64)%Z.
Proof.
  assert (forall z, 0 <= wrapu64 z < 2 ^ 64)%Z as Hw by (intros z; apply Z.mod_pos_bound; lia).
  unfold to_uint64, uint64_max. destruct (Float64.trunc x) as [z|]; [|apply Hw].
  destruct (_ && _)%bool eqn:E; [|apply Hw]. apply andb_true_iff in E as [H1 H2]. lia.
Qed.

(** * Volumes *)

Module VolumeUtils.

Record VolumeUsage := mkVolumeUsage { UsedBytes : Z; TotalBytes : Z }.

Definition hundred := Float64.of_int 100.

Definition Percentage (vu : VolumeUsage) : Float64.float64 :=
  Float64.mul (Float64.div (Float64.of_int (UsedBytes vu)) (Float64.of_int (TotalBytes vu))) hundred.

Definition BytesToFree `{FloatConversion} (vu : VolumeUsage) (targetVolumeUsagePercentage : Float64.float64) : Z :=
  let diffPercentage := Float64.sub (Percentage vu) targetVolumeUsagePercentage in
  let allowedVolumeUsageToFree := Float64.Max diffPercentage (Float64.of_int 0) in
  to_uint64 (Float64.mul (Float64.div (Float64.of_int (TotalBytes vu)) hundred) allowedVolumeUsageToFree).

(** From the size of the disk and what is free. *)
Definition GetVolumeUsage (total free : Z) : VolumeUsage := mkVolumeUsage (wrapu64 (total - free)) total.

Example usage_90 : Float64.trunc (Percentage (mkVolumeUsage 90 100)) = Some 90%Z.
Proof. reflexivity. Qed.
End VolumeUtils.
