(* ===== verification/HostCleaning.v ===== *)
(** pkg/host_cleaning: the cleanup of the host's images and containers down to a share of its disk
    (local_backend_cleaner.go), and the purge of all that werf left there (local_purger.go,
    host_purge.go, images.go, containers.go). The container backend, the locks and the disk are
    records of operations over a world. *)
From S2P Require Import Prelude Go Float64.
Import VolumeUtils.

Module HostCleaning.

(** * Data *)

(** image.Summary; [Size] is an int64. Times are nanoseconds, the zero time is 0. *)
Record Summary := mkSummary {
  ID : string; RepoTags : list string; RepoDigests : list string; Created : Z; Size : Z;
}.

#[export] Instance Summary_eq_dec : EqDecision Summary.
Proof. solve_decision. Defined.

Record Container := mkContainer { cnt_ID : string; ImageID : string; Names : list string }.

Record ContainerFilter := mkContainerFilter { flt_ID : string; flt_Name : string; Ancestor : string }.

(** prune.Report and cleanupReport. *)
Record Report := mkReport { ItemsDeleted : list string; SpaceReclaimed : Z }.

Definition WerfLabel := "werf".
Definition StageContainerNamePrefix := "werf.build.".
Definition ImportServerContainerNamePrefix := "import-server-".
Definition AssemblingContainerNamePrefix := "werf.stapel.".

Definition ContainerLockName (containerName : string) : string := "container." +:+ containerName.
Definition ImageLockName (imageName : string) : string := "image." +:+ imageName.

Definition DanglingTrue : string * string := ("dangling", "true").
Definition DanglingFalse : string * string := ("dangling", "false").

Definition ErrUnsupportedFeature : error := Errorf "unsupported feature" [].
Definition ErrCannotRemovePausedContainer : error := Errorf "cannot remove paused container" [].
Definition ErrCannotRemoveRunningContainer : error := Errorf "cannot remove running container" [].
Definition ErrImageUsedByContainer : error := Errorf "image is in use by a container" [].
Definition ErrPruneIsAlreadyRunning : error := Errorf "a prune operation is already running" [].
Definition errOptionDryRunNotSupported : error := Errorf "option dry-run not supported" [].

(** * What is called *)

(** container_backend.ContainerBackend, lockgate.Locker, the disk, the caches and the clock. *)
Record Host (W : Type) := mkHost {
  StoreGraphRoot : prog W string;
  Images : list (string * string) -> prog W (list Summary);
  Containers : list ContainerFilter -> prog W (list Container);
  PruneImages : list (string * string) -> prog W Report;
  PruneVolumes : prog W Report;
  Rm : string -> bool -> prog W unit;
  Rmi : string -> bool -> prog W unit;
  RemoveHostDirs : string -> list string -> prog W unit;
  Acquire : string -> prog W bool;
  Release : string -> prog W unit;
  Stat : string -> prog W unit;
  GetVolumeUsageByPath : string -> prog W VolumeUsage;
  GetWerfLastRunAtV1_1 : prog W Z;
  GetImageLastAccessTime : string -> prog W Z;
  Now : prog W Z;
  StapelPurge : prog W unit;
  TmpPurge : bool -> prog W unit;
}.
Arguments StoreGraphRoot {W} _. Arguments Images {W} _ _. Arguments Containers {W} _ _.
Arguments PruneImages {W} _ _. Arguments PruneVolumes {W} _. Arguments Rm {W} _ _ _. Arguments Rmi {W} _ _ _.
Arguments RemoveHostDirs {W} _ _ _. Arguments Acquire {W} _ _. Arguments Release {W} _ _. Arguments Stat {W} _ _.
Arguments GetVolumeUsageByPath {W} _ _. Arguments GetWerfLastRunAtV1_1 {W} _. Arguments GetImageLastAccessTime {W} _ _.
Arguments Now {W} _. Arguments StapelPurge {W} _. Arguments TmpPurge {W} _ _.

(** * Reports *)

Definition noReport : Report := mkReport [] 0.

Definition Normalize (cr : Report) : Report := match ItemsDeleted cr with [] => noReport | _ => cr end.

Definition mapPruneReportToCleanupReport (report : Report) : Report :=
  mkReport (ItemsDeleted report) (SpaceReclaimed report).

Definition mapImageListToCleanupReport (l : list Summary) : Report :=
  Normalize (mkReport (ID <$> l) (foldl (fun space img => wrapu64 (space + wrapu64 (Size img))) 0%Z l)).

(** The index of the last image to free from [startIndex] on, or -1; [i] and [freed] are the loop's. *)
Fixpoint countLoop (l : list Summary) (i : Z) (freedBytes bytesToFree : Z) : Z :=
  match l with
  | [] => i
  | img :: l' =>
      if (freedBytes <? bytesToFree)%Z
      then countLoop l' (i + 1) (wrapu64 (freedBytes + wrapu64 (Size img))) bytesToFree
      else i
  end.

Definition countImagesToFree (l : list Summary) (startIndex : Z) (bytesToFree : Z) : Z :=
  if ((bytesToFree =? 0) || (startIndex <? 0) || (Z.of_nat (length l) <=? startIndex))%Z%bool then (-1)%Z
  else
    let i := countLoop (drop (Z.to_nat startIndex) l) startIndex 0 bytesToFree in
    Z.max (i - 1) startIndex.

(** * The cleaner *)

Record RunGCOptions := mkRunGCOptions {
  AllowedStorageVolumeUsagePercentage : Float64.float64;
  AllowedStorageVolumeUsageMarginPercentage : Float64.float64;
  StoragePath : string;
  Force : bool;
  DryRun : bool;
}.

Section cleaner.
Context `{!GoQuote, !SortSlice, !FloatConversion}.
Context {W : Type} (h : Host W) (BackendName : string).

Abbreviation P := (prog W).

Definition backendStoragePath (storagePath : string) : P string :=
  backendStoragePath ←
    (if bool_decide (storagePath = "")
     then wrap "error getting local %s backend info: %w" [FS BackendName] (StoreGraphRoot h)
     else mret storagePath);
  wrap "error accessing %q: %w" [FQ backendStoragePath] (Stat h backendStoragePath) ;;
  mret backendStoragePath.

Definition ShouldRunAutoGC (allowed : Float64.float64) (storagePath : string) : P bool :=
  path ← wrap "error getting local %s backend storage path: %w" [FS BackendName] (backendStoragePath storagePath);
  vu ← wrap "error getting volume usage by path %q: %w" [FQ path] (GetVolumeUsageByPath h path);
  mret (Float64.gtb (Percentage vu) allowed).

(** ** The images of werf, the least recently used first *)

Definition werfImagesByLabels : P (list Summary) :=
  wrap "unable to get werf %s images: %w" [FS BackendName] (Images h [DanglingFalse; ("label", WerfLabel)]).

Definition werfImagesByLegacyLabels : P (list Summary) :=
  wrap "unable to get werf v1.1 legacy %s images: %w" [FS BackendName]
    (Images h [DanglingFalse; ("label", WerfLabel); ("label", "werf-stage-signature")]).

Definition serviceImageFilters : list (string * string) :=
  [DanglingFalse;
   ("reference", "*client-id-*"); ("reference", "*managed-image-*"); ("reference", "*meta-*");
   ("reference", "*import-metadata-*"); ("reference", "*-rejected");
   ("reference", "werf-client-id/*"); ("reference", "werf-managed-images/*");
   ("reference", "werf-images-metadata-by-commit/*"); ("reference", "werf-import-metadata/*")].

Definition werfImagesByLastRun : P (list Summary) :=
  t ← wrap "error getting v1.1 last run timestamp: %w" [] (GetWerfLastRunAtV1_1 h);
  if bool_decide (t = 0%Z) then
    l ← wrap "unable to get werf service images: %w" [] (Images h serviceImageFilters);
    mret (filter (fun img => Size img = 0%Z) l)
  else mret [].

Definition maxLastUsedAtForImage (img : Summary) : P Z :=
  for_fold (RepoTags img) (Created img) (fun lastUsedAt ref =>
    t ← wrap "error accessing last recently used images cache: %w" [] (GetImageLastAccessTime h ref);
    mret (if (lastUsedAt <? t)%Z then t else lastUsedAt)).

Definition lastUsedAt (m : gmap string Z) (img : Summary) : Z := default 0%Z (m !! ID img).

Definition werfImages : P (list Summary) :=
  images0 ← werfImagesByLabels;
  images1 ← werfImagesByLegacyLabels;
  images2 ← werfImagesByLastRun;
  let images := images0 ++ images1 ++ images2 in
  lastUsedAtMap ← for_fold images (∅ : gmap string Z) (fun m img =>
    t ← wrap "unable to max last used at for image: %w" [] (maxLastUsedAtForImage img);
    mret (<[ID img := t]> m));
  mret (sort_Slice (fun a b => (lastUsedAt lastUsedAtMap a <? lastUsedAt lastUsedAtMap b)%Z) images).

(** ** Removing *)

Definition isLocked (lockName : string) : P bool :=
  ok ← Acquire h lockName;
  if (ok : bool) then Release h lockName ;; mret false else mret true.

Variable options : RunGCOptions.

Definition removeImageRef (ref : string) : P unit := if DryRun options then mret tt else Rmi h ref (Force options).
Definition removeContainerRef (ref : string) : P unit := if DryRun options then mret tt else Rm h ref (Force options).

(** Whether the removal failed; its error is only printed. *)
Definition failed {A} (m : P A) : P bool := r ← try m; mret (match r with inl _ => false | inr _ => true end).

(** One tag: whether it stays. *)
Definition removeRepoTag (ref : string) : P bool :=
  if bool_decide (ref = "<none>:<none>") then failed (removeImageRef ref)
  else
    locked ← wrap "checking lock %q: %w" [FQ (ImageLockName ref)] (isLocked (ImageLockName ref));
    if (locked : bool) then mret true else failed (removeImageRef ref).

(** How many of the references stay. *)
Definition countFailed (l : list string) (remove : string -> P bool) : P nat :=
  for_fold l 0 (fun unRemovedCount ref => stays ← remove ref; mret (if (stays : bool) then S unRemovedCount else unRemovedCount)).

Definition removeImageByRepoTags (imgSummary : Summary) : P bool :=
  unRemovedCount ← countFailed (RepoTags imgSummary) removeRepoTag;
  mret (bool_decide (unRemovedCount = 0) && (0 <? length (RepoTags imgSummary))).

Definition removeImageByRepoDigests (imgSummary : Summary) : P bool :=
  unRemovedCount ← countFailed (RepoDigests imgSummary) (fun repoDigest => failed (removeImageRef repoDigest));
  mret (bool_decide (unRemovedCount = 0) && (0 <? length (RepoDigests imgSummary))).

Definition removeImage (imgSummary : Summary) : P bool :=
  if 0 <? length (RepoTags imgSummary) then removeImageByRepoTags imgSummary
  else if 0 <? length (RepoDigests imgSummary) then removeImageByRepoDigests imgSummary
  else mret false.

(** ** Pruning *)

Definition pruneFilters : list (string * string) := [DanglingTrue; ("label", WerfLabel); ("until", "15m")].

Definition pruneImages : P Report :=
  if DryRun options then
    l ← Images h pruneFilters; mret (mapImageListToCleanupReport l)
  else
    r ← try (PruneImages h pruneFilters);
    match r with
    | inl report => mret (mapPruneReportToCleanupReport report)
    | inr err => if errors_Is err ErrImageUsedByContainer || errors_Is err ErrPruneIsAlreadyRunning
                 then mret noReport else fail err
    end.

Definition pruneVolumes : P Report :=
  if DryRun options then fail errOptionDryRunNotSupported
  else
    r ← try (PruneVolumes h);
    match r with
    | inl report => mret (mapPruneReportToCleanupReport report)
    | inr err => if errors_Is err ErrPruneIsAlreadyRunning then mret noReport else fail err
    end.

(** handleError: an error that only tells that something is not supported leaves an empty report. *)
Definition handleError (m : P Report) : P Report :=
  r ← try m;
  match r with
  | inl report => mret report
  | inr err => if errors_Is err ErrUnsupportedFeature || errors_Is err errOptionDryRunNotSupported
               then mret noReport else fail err
  end.

(** ** Containers *)

Definition werfContainersByContainersOptions (filters : list ContainerFilter) : P (list Container) :=
  Containers h (filters ++ [mkContainerFilter "" StageContainerNamePrefix "";
                            mkContainerFilter "" ImportServerContainerNamePrefix ""]).

Definition werfContainerName (container : Container) : string :=
  match find (fun name => Str.HasPrefix name ("/" +:+ StageContainerNamePrefix) ||
                          Str.HasPrefix name ("/" +:+ ImportServerContainerNamePrefix)) (Names container) with
  | Some name => Str.TrimPrefix name "/"
  | None => ""
  end.

(** One container: the ids removed so far. *)
Definition cleanupContainer (deleted : list string) (container : Container) : P (list string) :=
  let containerName := werfContainerName container in
  if bool_decide (containerName = "") then mret deleted
  else
    locked ← wrap "checking lock %q: %w" [FQ (ContainerLockName containerName)] (isLocked (ContainerLockName containerName));
    if (locked : bool) then mret deleted
    else
      stays ← failed (removeContainerRef (cnt_ID container));
      mret (if (stays : bool) then deleted else deleted ++ [cnt_ID container]).

Definition cleanupWerfContainers (vu : VolumeUsage) : P Report :=
  containers ← wrap "cannot get build containers: %w" [] (werfContainersByContainersOptions []);
  deleted ← for_fold containers [] cleanupContainer;
  if 0 <? length containers then
    vuAfter ← wrap "error getting volume usage by path %q: %w" [FQ (StoragePath options)]
      (GetVolumeUsageByPath h (StoragePath options));
    mret (Normalize (mkReport deleted (wrapu64 (UsedBytes vu - UsedBytes vuAfter))))
  else mret (Normalize (mkReport deleted 0)).

(** ** Images *)

Definition removeBatch (l : list Summary) (deleted : list string) : P (list string) :=
  for_fold l deleted (fun deleted imgSummary =>
    ok ← removeImage imgSummary; mret (if (ok : bool) then deleted ++ [ID imgSummary] else deleted)).

(** The loop: the images from [i] on are left. Each pass takes at least one, so the fuel is the
    number of images. *)
Fixpoint imagesLoop (fuel : nat) (images : list Summary) (i : Z) (vu : VolumeUsage)
  (targetVolumeUsagePercentage : Float64.float64) (report : Report) : P Report :=
  let n := countImagesToFree images i (BytesToFree vu targetVolumeUsagePercentage) in
  if (n =? -1)%Z then mret (Normalize report)
  else
    match fuel with
    | 0 => panic "unreachable"
    | S fuel' =>
        deleted ← removeBatch (take (Z.to_nat (n + 1 - i)) (drop (Z.to_nat i) images)) (ItemsDeleted report);
        vuAfter ← wrap "error getting volume usage by path %q: %w" [FQ (StoragePath options)]
          (GetVolumeUsageByPath h (StoragePath options));
        imagesLoop fuel' images (n + 1) vuAfter targetVolumeUsagePercentage
          (mkReport deleted (wrapu64 (SpaceReclaimed report + wrapu64 (UsedBytes vu - UsedBytes vuAfter))))
    end.

Definition cleanupWerfImages (vu : VolumeUsage) (targetVolumeUsagePercentage : Float64.float64) : P Report :=
  images ← werfImages;
  imagesLoop (length images) images 0 vu targetVolumeUsagePercentage (mkReport [] 0).

(** ** The whole run, the storage path being known *)

Definition reclaim (vu : VolumeUsage) (report : Report) : VolumeUsage :=
  mkVolumeUsage (wrapu64 (UsedBytes vu - SpaceReclaimed report)) (TotalBytes vu).

Definition targetPercentage : Float64.float64 :=
  Float64.Max (Float64.sub (AllowedStorageVolumeUsagePercentage options) (AllowedStorageVolumeUsageMarginPercentage options))
    (Float64.of_int 0).

Definition collect : P unit :=
  vu ← wrap "error getting volume usage by path %q: %w" [FQ (StoragePath options)] (GetVolumeUsageByPath h (StoragePath options));
  if Float64.leb (Percentage vu) (AllowedStorageVolumeUsagePercentage options) then mret tt
  else
    reportVolumes ← wrap "unable to prune unused anonymous volumes: %w" [] (handleError pruneVolumes);
    let vu := reclaim vu reportVolumes in
    reportImages ← wrap "unable to prune werf dangling images: %w" [] (handleError pruneImages);
    let vu := reclaim vu reportImages in
    if Float64.leb (Percentage vu) (AllowedStorageVolumeUsagePercentage options) then mret tt
    else
      reportWerfContainers ← wrap "unable to remove werf containers: %w" [] (cleanupWerfContainers vu);
      let vu := reclaim vu reportWerfContainers in
      wrap "unable to cleanup werf images: %w" [] (cleanupWerfImages vu targetPercentage) ;;
      mret tt.
End cleaner.

Definition with_path (o : RunGCOptions) (path : string) : RunGCOptions :=
  mkRunGCOptions (AllowedStorageVolumeUsagePercentage o) (AllowedStorageVolumeUsageMarginPercentage o) path
    (Force o) (DryRun o).

Definition RunGC `{!GoQuote, !SortSlice, !FloatConversion} {W} (h : Host W) (BackendName : string)
  (options : RunGCOptions) : prog W unit :=
  path ← wrap "error getting local %s backend storage path: %w" [FS BackendName]
    (backendStoragePath h BackendName (StoragePath options));
  collect h BackendName (with_path options path).

(** * The purge *)

Record CommonOptions := mkCommonOptions {
  RmForce : bool; RmiForce : bool; SkipUsedImages : bool; RmContainersThatUseWerfImages : bool; opt_DryRun : bool;
}.

Definition logImageName (image : Summary) : string := match RepoTags image with t :: _ => t | [] => ID image end.
Definition logContainerName (container : Container) : string :=
  match Names container with n :: _ => n | [] => cnt_ID container end.

Section purge.
Context `{!GoQuote}.
Context {W : Type} (h : Host W).
Variable options : CommonOptions.

Abbreviation P := (prog W).

Definition containersRemove (containers : list Container) : P unit :=
  for_each containers (fun container =>
    if opt_DryRun options then mret tt
    else wrap "container backend rm: %w" [] (Rm h (cnt_ID container) (RmForce options))).

Definition imageReferencesRemove (references : list string) : P unit :=
  for_each references (fun ref =>
    if opt_DryRun options then mret tt
    else wrap "container_backend rmi: %w" [] (Rmi h ref (RmiForce options))).

(** A tag, or the id where it is none. *)
Definition imageReference (img : Summary) (repoTag : string) : string :=
  let isDanglingImage := bool_decide (repoTag = "<none>:<none>") in
  let isTaglessImage := negb isDanglingImage && Str.HasSuffix repoTag "<none>" in
  if isDanglingImage || isTaglessImage then ID img else repoTag.

Definition imageReferences (img : Summary) : list string :=
  match RepoTags img with [] => [ID img] | tags => imageReference img <$> tags end.

Definition imagesRemove (images : list Summary) : P unit :=
  imageReferencesRemove (concat (imageReferences <$> images)).

Definition exceptImage (images : list Summary) (imageToExclude : Summary) : list Summary :=
  filter (fun img => imageToExclude <> img) images.

(** One image that a container uses: the images to exclude and the containers to remove. *)
Definition usedBy (container : Container) (acc : list Summary * list Container) (img : Summary)
  : res (list Summary * list Container) :=
  if bool_decide (ID img = ImageID container) then
    if SkipUsedImages options then Ok (acc.1 ++ [img], acc.2)
    else if RmContainersThatUseWerfImages options then Ok (acc.1, acc.2 ++ [container])
    else Err (Errorf ("cannot remove image %s used by container %s" +:+ String "010" "%s")
                [FS (logImageName img); FS (logContainerName container);
                 FS "Use --force option to remove all containers that are based on deleting werf docker images"])
  else Ok acc.

Definition threeHours : Z := (3 * 3600 * 1000000000)%Z.

Definition processUsedImages (images : list Summary) : P (list Summary) :=
  containers ← Containers h ((fun img => mkContainerFilter "" "" (ID img)) <$> images);
  used ← for_fold containers ([], []) (fun acc container =>
    for_fold images acc (fun acc img => lift (usedBy container acc img)));
  containersRemove used.2 ;;
  imagesToExclude ← for_fold images used.1 (fun l img =>
    now ← Now h;
    mret (if (now - Created img <? threeHours)%Z then l ++ [img] else l));
  mret (foldl exceptImage images imagesToExclude).

Definition werfImagesFlushByFilterSet (filters : list (string * string)) : P unit :=
  images ← Images h filters;
  images ← processUsedImages images;
  imagesRemove images.

Definition FlushContainers : P unit :=
  containers ← werfContainersByContainersOptions h [mkContainerFilter "" AssemblingContainerNamePrefix ""];
  containersRemove containers.

Definition FlushImages : P unit :=
  werfImagesFlushByFilterSet [("label", WerfLabel)] ;;
  werfImagesFlushByFilterSet [("reference", "werf-managed-images/*")] ;;
  werfImagesFlushByFilterSet [("reference", "werf-images-metadata-by-commit/*")].

(** On a system other than Windows; [dirs] are the service, cache and shared directories. *)
Definition PurgeWerfHomeFiles (homeDir : string) (dirs : list string) : P unit :=
  if opt_DryRun options then mret tt
  else wrap "container_backend remove host dirs: %w" [] (RemoveHostDirs h homeDir dirs).

Definition PurgeStapelFiles : P unit :=
  if opt_DryRun options then mret tt else wrap "stapel purge: %w" [] (StapelPurge h).
End purge.

Definition HostPurge {W} (h : Host W) (homeDir : string) (dirs : list string) (DryRun rmContainers : bool) : prog W unit :=
  let commonOptions := mkCommonOptions true true false rmContainers DryRun in
  FlushContainers h commonOptions ;;
  FlushImages h commonOptions ;;
  wrap "tmp files purge failed: %w" [] (TmpPurge h DryRun) ;;
  PurgeWerfHomeFiles h commonOptions homeDir dirs ;;
  wrap "stapel delete failed: %w" [] (PurgeStapelFiles h commonOptions).
End HostCleaning.
