(* ===== verification/HostCleaningProps.v ===== *)
(** The theorems on the cleanup of a host: what it never removes, in which order it removes images,
    where it stops, and what a dry run tells. *)
From S2P Require Import Prelude Go Float64 HostCleaning.
Import VolumeUtils HostCleaning.

Module HostCleaningProps.

(** * Counting the images to free *)

Definition sizes (l : list Summary) : Z := foldr (fun img z => Size img + z)%Z 0%Z l.

Lemma sizes_app a b : sizes (a ++ b) = (sizes a + sizes b)%Z.
Proof. unfold sizes. induction a as [|x a IH]; simpl; lia. Qed.

Lemma sizes_nonneg l : (forall img, img ∈ l -> 0 <= Size img)%Z -> (0 <= sizes l)%Z.
Proof.
  unfold sizes. induction l as [|x l IH]; intros H; simpl; [done|].
  pose proof (H x ltac:(by left)). specialize (IH (fun y Hy => H y ltac:(by right))). lia.
Qed.

Lemma countLoop_bounds l : forall i freed bytes,
  (i <= countLoop l i freed bytes <= i + Z.of_nat (length l))%Z /\
  ((freed < bytes)%Z -> l <> [] -> (i < countLoop l i freed bytes)%Z).
Proof.
  induction l as [|img l IH]; intros i freed bytes; simpl; [split; [lia|done]|].
  destruct (Z.ltb_spec freed bytes); [|split; lia]. destruct (IH (i + 1)%Z (wrapu64 (freed + wrapu64 (Size img))) bytes) as [H1 _].
  split; [lia|]. intros _ _. lia.
Qed.

(** The number is at least the first index, and an index of the list. *)
Lemma countImagesToFree_range l i bytes : (0 <= i)%Z ->
  countImagesToFree l i bytes = (-1)%Z \/ (i <= countImagesToFree l i bytes < Z.of_nat (length l))%Z.
Proof.
  intros Hi. unfold countImagesToFree. destruct (_ || _)%bool eqn:E; [by left|right].
  apply orb_false_iff in E as [_ E]. apply Z.leb_gt in E.
  destruct (countLoop_bounds (drop (Z.to_nat i) l) i 0 bytes) as [H _]. rewrite length_drop in H. lia.
Qed.

Lemma countImagesToFree_stop l i bytes : (0 <= i)%Z ->
  countImagesToFree l i bytes = (-1)%Z <-> bytes = 0%Z \/ (Z.of_nat (length l) <= i)%Z.
Proof.
  intros Hi. split.
  - intros H. destruct (decide (bytes = 0%Z)) as [|Hb]; [by left|right]. unfold countImagesToFree in H.
    destruct (Z.leb_spec (Z.of_nat (length l)) i); [done|].
    rewrite orb_false_r in H. destruct (Z.eqb_spec bytes 0); [done|]. destruct (Z.ltb_spec i 0); [lia|]. simpl in H. lia.
  - intros H. unfold countImagesToFree. destruct (Z.eqb_spec bytes 0); [done|]. destruct (Z.leb_spec (Z.of_nat (length l)) i); [|lia].
    by rewrite orb_true_r.
Qed.

Lemma countLoop_spec l : forall i freed bytes,
  (forall img, img ∈ l -> 0 <= Size img)%Z -> (0 <= freed)%Z -> (freed + sizes l < 2 ^ 64)%Z ->
  exists k, countLoop l i freed bytes = (i + Z.of_nat k)%Z /\ k <= length l /\
    ((bytes <= freed + sizes (take k l))%Z \/ k = length l) /\
    forall j, j < k -> (freed + sizes (take j l) < bytes)%Z.
Proof.
  induction l as [|img l IH]; intros i freed bytes Hs Hf Ht; simpl.
  { exists 0. split; [lia|]. split; [lia|]. split; [by right|lia]. }
  assert (0 <= Size img)%Z as H0 by (apply Hs; by left).
  assert (0 <= sizes l)%Z as H1 by (apply sizes_nonneg; intros x Hx; apply Hs; by right).
  simpl in Ht. destruct (Z.ltb_spec freed bytes).
  - rewrite !wrapu64_id by (rewrite ?wrapu64_id; unfold sizes in *; lia).
    destruct (IH (i + 1)%Z (freed + Size img)%Z bytes) as (k & -> & Hk & He & Hj); [intros x Hx; apply Hs; by right|lia|unfold sizes in *; lia|].
    exists (S k). split; [lia|]. split; [lia|]. split.
    + destruct He as [He| ->]; [left; simpl; unfold sizes in *; lia|by right].
    + intros [|j] Hjk; simpl; [lia|]. specialize (Hj j ltac:(lia)). unfold sizes in *. lia.
  - exists 0. split; [lia|]. split; [lia|]. split; [left; simpl; lia|lia].
Qed.

(** A pass frees the fewest of the images, in their order, whose sizes reach the bytes to free, or
    all that are left where they do not reach them. *)
Theorem countImagesToFree_spec l start bytes :
  (forall img, img ∈ l -> 0 <= Size img)%Z -> (sizes l < 2 ^ 64)%Z ->
  start < length l -> (0 < bytes)%Z ->
  exists n, countImagesToFree l (Z.of_nat start) bytes = Z.of_nat n /\ start <= n < length l /\
    ((bytes <= sizes (take (S n - start) (drop start l)))%Z \/ S n = length l) /\
    forall m, start <= m < n -> (sizes (take (S m - start) (drop start l)) < bytes)%Z.
Proof.
  intros Hs Ht Hl Hb. unfold countImagesToFree.
  destruct (Z.eqb_spec bytes 0); [lia|]. destruct (Z.ltb_spec (Z.of_nat start) 0); [lia|].
  destruct (Z.leb_spec (Z.of_nat (length l)) (Z.of_nat start)); [lia|]. simpl. rewrite Nat2Z.id.
  assert (forall x, x ∈ take start l \/ x ∈ drop start l -> 0 <= Size x)%Z as Hx.
  { intros x Hx. apply Hs. rewrite <-(take_drop start l). by apply elem_of_app. }
  rewrite <-(take_drop start l), sizes_app in Ht. pose proof (sizes_nonneg (take start l) (fun x H => Hx x (or_introl H))).
  destruct (countLoop_spec (drop start l) (Z.of_nat start) 0 bytes) as (k & -> & Hk & He & Hj); [|lia|lia|].
  { intros x H'. apply Hx. by right. }
  rewrite length_drop in Hk, He. assert (k <> 0) as Hk0.
  { intros ->. destruct He as [He|He]; [unfold sizes in He; simpl in He; lia|lia]. }
  exists (start + k - 1). split; [lia|]. split; [lia|]. split.
  - replace (S (start + k - 1) - start) with k by lia. destruct He as [He|He]; [left; lia|right; lia].
  - intros m Hm. specialize (Hj (S m - start) ltac:(lia)). lia.
Qed.

(** * What is never removed *)

Section protect.
Context {gq : GoQuote} {ss : SortSlice} {fc : FloatConversion}.
Context {W : Type} (h : Host W) (BackendName : string).
Context (R : W -> W -> Prop) {Rpre : PreOrder R}.

(** The calls that only read, and those to the locks, keep the relation. *)
Record Quiet : Prop := {
  quiet_StoreGraphRoot : keeps R (StoreGraphRoot h);
  quiet_Images : forall f, keeps R (Images h f);
  quiet_Containers : forall f, keeps R (Containers h f);
  quiet_Acquire : forall n, keeps R (Acquire h n);
  quiet_Release : forall n, keeps R (Release h n);
  quiet_Stat : forall p, keeps R (Stat h p);
  quiet_GetVolumeUsageByPath : forall p, keeps R (GetVolumeUsageByPath h p);
  quiet_GetWerfLastRunAtV1_1 : keeps R (GetWerfLastRunAtV1_1 h);
  quiet_GetImageLastAccessTime : forall r, keeps R (GetImageLastAccessTime h r);
  quiet_Now : keeps R (Now h);
}.
Hypothesis Hq : Quiet.

#[local] Hint Resolve quiet_StoreGraphRoot quiet_Images quiet_Containers quiet_Acquire quiet_Release quiet_Stat
  quiet_GetVolumeUsageByPath quiet_GetWerfLastRunAtV1_1 quiet_GetImageLastAccessTime quiet_Now : werf.

Lemma keeps_werfImages : keeps R (werfImages h BackendName).
Proof. unfold werfImages, werfImagesByLabels, werfImagesByLegacyLabels, werfImagesByLastRun, maxLastUsedAtForImage. keeps_go. Qed.

Lemma keeps_backendStoragePath path : keeps R (backendStoragePath h BackendName path).
Proof. unfold backendStoragePath. keeps_go. Qed.

Lemma keeps_isLocked n : keeps R (isLocked h n).
Proof. unfold isLocked. keeps_go. Qed.

Lemma keeps_failed {A} (m : prog W A) : keeps R m -> keeps R (failed m).
Proof. intros H. unfold failed. keeps_go. Qed.

Lemma keeps_handleError m : keeps R m -> keeps R (handleError m).
Proof. intros H. unfold handleError. keeps_go. Qed.

Lemma keeps_countFailed l remove : (forall r, r ∈ l -> keeps R (remove r)) -> keeps R (countFailed l remove).
Proof. intros H. unfold countFailed. apply keeps_for_fold; [done|]. intros n r Hr. specialize (H r Hr). keeps_go. Qed.

#[local] Hint Resolve keeps_werfImages keeps_backendStoragePath keeps_isLocked keeps_failed keeps_handleError : werf.

Section run.
Variable options : RunGCOptions.

(** Removing an image keeps the relation if removing its references does. *)
Definition imageKept (img : Summary) : Prop := keeps R (removeImage h options img).

(** The images that [werfImages] may give. *)
Hypothesis Hcontainer : forall deleted c w,
  (exists l f w0 w1, Containers h f w0 = (Ok l, w1) /\ c ∈ l) -> R w (cleanupContainer h options deleted c w).2.
Hypothesis Himage : forall img,
  (exists l w0 w1, werfImages h BackendName w0 = (Ok l, w1) /\ img ∈ l) -> imageKept img.
Hypothesis HpruneImages : keeps R (pruneImages h options).
Hypothesis HpruneVolumes : keeps R (pruneVolumes h options).

Lemma keeps_cleanupWerfContainers vu : keeps R (cleanupWerfContainers h options vu).
Proof.
  unfold cleanupWerfContainers, werfContainersByContainersOptions. apply keeps_bind_Ok; [done|auto with werf|].
  intros l w w' Hl. apply wrap_Ok in Hl. apply keeps_bind; [done| |intros ?; keeps_go].
  apply keeps_for_fold; [done|]. intros deleted c Hc w1. apply Hcontainer.
  eexists l, _, w, w'. split; [exact Hl|exact Hc].
Qed.

Lemma keeps_imagesLoop fuel images target : (forall img, img ∈ images -> imageKept img) -> forall i vu report,
  keeps R (imagesLoop h options fuel images i vu target report).
Proof.
  intros Hi. induction fuel as [|fuel IH]; intros i vu report; simpl; (case_match; [auto with werf|]); [auto with werf|].
  apply keeps_bind; [done| |intros ?; apply keeps_bind; [done|auto with werf|intros ?; apply IH]].
  unfold removeBatch. apply keeps_for_fold; [done|]. intros deleted img Himg.
  apply keeps_bind; [done|apply Hi|intros ?; auto with werf].
  rewrite <-(take_drop (Z.to_nat i) images). apply elem_of_app. right.
  set (k := Z.to_nat (_ + 1 - i)) in Himg. rewrite <-(take_drop k (drop _ images)). apply elem_of_app. by left.
Qed.

Lemma keeps_cleanupWerfImages vu target : keeps R (cleanupWerfImages h BackendName options vu target).
Proof.
  unfold cleanupWerfImages. apply keeps_bind_Ok; [done|auto with werf|]. intros l w w' Hl.
  apply keeps_imagesLoop. intros img Hi. apply Himage. exists l, w, w'. split; [exact Hl|exact Hi].
Qed.

Lemma keeps_collect : keeps R (collect h BackendName options).
Proof.
  pose proof keeps_cleanupWerfContainers. pose proof keeps_cleanupWerfImages. unfold collect. keeps_go.
Qed.
End run.
End protect.

Section dry.
Context {gq : GoQuote} {ss : SortSlice} {fc : FloatConversion}.
Context {W : Type} (h : Host W) (BackendName : string).
Context (R : W -> W -> Prop) {Rpre : PreOrder R}.

Lemma keeps_dry_removeImage options img : Quiet h R -> DryRun options = true -> keeps R (removeImage h options img).
Proof.
  intros Hq Hd. pose proof (keeps_isLocked h R Hq). unfold removeImage, removeImageByRepoTags, removeImageByRepoDigests.
  assert (forall r, keeps R (failed (removeImageRef h options r))) as Hf.
  { intros r. apply keeps_failed; [done|]. unfold removeImageRef. rewrite Hd. apply keeps_ret, _. }
  assert (forall r, keeps R (removeRepoTag h options r)) as Ht by (intros r; unfold removeRepoTag; keeps_go).
  repeat case_match; try apply keeps_ret, _.
  all: apply keeps_bind; [done|apply keeps_countFailed; auto|intros ?; apply keeps_ret, _].
Qed.

(** With the option for a dry run, the cleanup of a host removes nothing: whatever the calls keep
    that read, the run keeps. *)
Theorem RunGC_dry_run options : Quiet h R -> DryRun options = true -> keeps R (RunGC h BackendName options).
Proof.
  intros Hq Hd. unfold RunGC. pose proof (keeps_backendStoragePath h BackendName R Hq).
  apply keeps_bind; [done|auto with werf|]. intros path. apply keeps_collect; [done|done|..].
  - intros deleted c w _. unfold cleanupContainer, removeContainerRef. simpl. rewrite Hd.
    pose proof (keeps_isLocked h R Hq). revert w. change (keeps R (if bool_decide (werfContainerName c = "") then mret deleted
      else locked ← wrap "checking lock %q: %w" [FQ (ContainerLockName (werfContainerName c))] (isLocked h (ContainerLockName (werfContainerName c)));
        if (locked : bool) then mret deleted
        else stays ← failed (mret tt : prog W unit); mret (if (stays : bool) then deleted else deleted ++ [cnt_ID c]))).
    pose proof (keeps_failed R (mret tt : prog W unit) (keeps_ret R tt)). keeps_go.
  - intros img _. by apply keeps_dry_removeImage.
  - unfold pruneImages. simpl. rewrite Hd. apply keeps_bind; [done|apply Hq|intros ?; apply keeps_ret, _].
  - unfold pruneVolumes. simpl. rewrite Hd. apply keeps_fail, _.
Qed.

(** So does the purge of a host. *)
Theorem HostPurge_dry_run homeDir dirs rmContainers :
  Quiet h R -> keeps R (TmpPurge h true) -> keeps R (HostPurge h homeDir dirs true rmContainers).
Proof.
  intros Hq Ht. pose proof (quiet_Containers h R Hq). pose proof (quiet_Images h R Hq). pose proof (quiet_Now h R Hq).
  unfold HostPurge, FlushContainers, FlushImages, PurgeWerfHomeFiles, PurgeStapelFiles, werfImagesFlushByFilterSet,
    processUsedImages, imagesRemove, imageReferencesRemove, containersRemove, werfContainersByContainersOptions.
  simpl. keeps_go.
Qed.
End dry.

(** * What is in use *)

Section locks.
Context {gq : GoQuote} {ss : SortSlice} {fc : FloatConversion}.
Context {W : Type} (h : Host W) (BackendName : string).
Context (R : W -> W -> Prop) {Rpre : PreOrder R}.

(** A lock that another process holds is never acquired. *)
Definition held (n : string) : Prop := forall w, (Acquire h n w).1 <> Ok true.

Lemma isLocked_held n w : held n -> wlp (isLocked h n) w (fun b _ => b = true).
Proof.
  intros Hn. unfold isLocked. apply wlp_bind, wlp_alt. intros ok w' E. destruct ok; [|by apply wlp_ret].
  destruct (Hn w). by rewrite E.
Qed.

Section options.
Variable options : RunGCOptions.
Hypothesis Hq : Quiet h R.

Lemma locked_skip {A} n (f : bool -> prog W A) err args : held n ->
  keeps R (f true) -> keeps R (locked ← wrap err args (isLocked h n); f locked).
Proof.
  intros Hn Hf. apply keeps_bind_Ok; [done|apply keeps_wrap, keeps_isLocked; done|].
  intros b w w' E. apply wrap_Ok in E. pose proof (isLocked_held n w Hn) as Hl. unfold wlp in Hl. rewrite E in Hl. by rewrite Hl.
Qed.

(** Nothing but the reference is protected by its lock. *)
Lemma removeImage_keeps_locked ref img :
  held (ImageLockName ref) -> ref <> "<none>:<none>" ->
  (forall r f, r <> ref -> keeps R (Rmi h r f)) ->
  (RepoTags img = [] -> ref ∉ RepoDigests img) ->
  keeps R (removeImage h options img).
Proof.
  intros Hl Hn Hrmi Hd.
  assert (forall r, r <> ref -> keeps R (failed (removeImageRef h options r))) as Hr.
  { intros r Hr. apply keeps_failed; [done|]. unfold removeImageRef. destruct (DryRun options); [apply keeps_ret, _|by apply Hrmi]. }
  unfold removeImage, removeImageByRepoTags, removeImageByRepoDigests. destruct (RepoTags img) as [|t tags] eqn:Et; simpl.
  - case_match; [|apply keeps_ret, _]. apply keeps_bind; [done|apply keeps_countFailed; [done|]|intros ?; apply keeps_ret, _].
    intros r Hin. apply Hr. intros ->. by destruct (Hd eq_refl).
  - apply keeps_bind; [done| |intros ?; apply keeps_ret, _]. apply keeps_countFailed; [done|].
    intros r _. unfold removeRepoTag. case_bool_decide as E; [apply Hr; by intros ->|].
    destruct (decide (r = ref)) as [->|Hne]; [apply locked_skip; [done|apply keeps_ret, _]|].
    pose proof (keeps_isLocked h R Hq). specialize (Hr r Hne). keeps_go.
Qed.

Lemma cleanupContainer_keeps_locked id deleted c w :
  (cnt_ID c = id -> werfContainerName c <> "" -> held (ContainerLockName (werfContainerName c))) ->
  (forall i f, i <> id -> keeps R (Rm h i f)) ->
  R w (cleanupContainer h options deleted c w).2.
Proof.
  intros Hid Hrm. revert w. change (keeps R (cleanupContainer h options deleted c)). unfold cleanupContainer. simpl. case_bool_decide; [apply keeps_ret, _|].
  destruct (decide (cnt_ID c = id)) as [E|E]; [apply locked_skip; [auto|apply keeps_ret, _]|].
  pose proof (Hrm _ (Force options) E). pose proof (keeps_isLocked h R Hq).
  assert (keeps R (failed (removeContainerRef h options (cnt_ID c)))).
  { apply keeps_failed; [done|]. unfold removeContainerRef. destruct (DryRun options); [apply keeps_ret, _|done]. }
  keeps_go.
Qed.
End options.

(** The images werf finds are ones that the backend lists. *)
Lemma werfImages_listed w :
  wlp (werfImages h BackendName) w (fun l _ =>
    forall img, img ∈ l -> exists f l0 w0 w1, Images h f w0 = (Ok l0, w1) /\ img ∈ l0).
Proof using Type.
  set (Q := fun (l : list Summary) (_ : W) =>
    forall img, img ∈ l -> exists f l0 w0 w1, Images h f w0 = (Ok l0, w1) /\ img ∈ l0).
  assert (forall f e a w, wlp (wrap e a (Images h f)) w Q) as Hi.
  { intros f e a w0. apply wlp_wrap, wlp_alt. intros l w' E img Hin. by exists f, l, w0, w'. }
  unfold werfImages. apply wlp_bind. eapply wlp_mono; [apply Hi|]. intros l0 w0 H0. cbv beta in H0.
  apply wlp_bind. eapply wlp_mono; [apply Hi|]. intros l1 w1 H1. cbv beta in H1.
  apply wlp_bind. apply (wlp_mono _ _ Q).
  { unfold werfImagesByLastRun. apply wlp_bind, wlp_alt. intros t w' _. case_bool_decide; [|apply wlp_ret; intros ? Hn; by apply not_elem_of_nil in Hn].
    apply wlp_bind. eapply wlp_mono; [apply Hi|]. intros l w'' Hl. apply wlp_ret. intros img [_ Hin]%list_elem_of_filter. auto. }
  intros l2 w2 H2. apply wlp_bind, wlp_alt. intros m w3 _. apply wlp_ret. intros img Hin.
  rewrite sort_perm, !elem_of_app in Hin. destruct Hin as [Hin|[Hin|Hin]]; auto.
Qed.

(** C24: a tag whose lock another process holds and a container whose lock another process holds are never
    removed by the cleanup: a run that could only lose them by removing them keeps them. *)
Theorem RunGC_keeps_locked options ref id :
  Quiet h R ->
  held (ImageLockName ref) -> ref <> "<none>:<none>" ->
  (forall f w l w' img, Images h f w = (Ok l, w') -> img ∈ l -> RepoTags img = [] -> ref ∉ RepoDigests img) ->
  (forall f w l w' c, Containers h f w = (Ok l, w') -> c ∈ l -> cnt_ID c = id -> werfContainerName c <> "" ->
     held (ContainerLockName (werfContainerName c))) ->
  (forall r f, r <> ref -> keeps R (Rmi h r f)) -> (forall i f, i <> id -> keeps R (Rm h i f)) ->
  (forall f, keeps R (PruneImages h f)) -> keeps R (PruneVolumes h) ->
  keeps R (RunGC h BackendName options).
Proof.
  intros Hq Hl Hn Hd Hc Hrmi Hrm Hpi Hpv. unfold RunGC. pose proof (keeps_backendStoragePath h BackendName R Hq).
  apply keeps_bind; [done|auto with werf|]. intros path. apply keeps_collect; [done|done|..].
  - intros deleted c w (l & f & w0 & w1 & E & Hin). apply (cleanupContainer_keeps_locked _ Hq id); eauto.
  - intros img (l & w0 & w1 & E & Hin). apply (removeImage_keeps_locked _ Hq ref); [done..|].
    pose proof (werfImages_listed w0) as H0. unfold wlp in H0. rewrite E in H0.
    destruct (H0 img Hin) as (f & l0 & w2 & w3 & E0 & Hin0). eauto.
  - pose proof (quiet_Images h R Hq). unfold pruneImages. specialize (Hpi pruneFilters). keeps_go.
  - unfold pruneVolumes. keeps_go.
Qed.
End locks.
End HostCleaningProps.
