(* ===== verification/HostCleaningRuns.v ===== *)
(** The cleanup of a host always ends, and what its dry run reports. *)
From S2P Require Import Prelude Go GitRefsExamples Float64 HostCleaning HostCleaningProps.
Import VolumeUtils HostCleaning HostCleaningProps.

Module HostCleaningRuns.

(** * Programs that do not panic *)

Definition calm {W A} (m : prog W A) : Prop := forall w p, (m w).1 <> Panic p.

Section calm.
Context {W : Type}.

Lemma calm_ret {A} (a : A) : calm (W:=W) (mret a).
Proof. by intros w p. Qed.

Lemma calm_fail {A} e : calm (W:=W) (fail (A:=A) e).
Proof. by intros w p. Qed.

Lemma calm_bind_Ok {A B} (m : prog W A) (f : A -> prog W B) :
  calm m -> (forall a w w', m w = (Ok a, w') -> calm (f a)) -> calm (m ≫= f).
Proof.
  intros Hm Hf w p. unfold mbind, prog_bind. specialize (Hm w p).
  destruct (m w) as [[a|e|q] w1] eqn:E; simpl in *; [by eapply Hf|done|congruence].
Qed.

Lemma calm_bind {A B} (m : prog W A) (f : A -> prog W B) : calm m -> (forall a, calm (f a)) -> calm (m ≫= f).
Proof. intros Hm Hf. apply calm_bind_Ok; [done|]. intros a _ _ _. apply Hf. Qed.

Lemma calm_wrap {A} e a (m : prog W A) : calm m -> calm (wrap e a m).
Proof. intros Hm w p. specialize (Hm w p). unfold wrap. by destruct (m w) as [[]]. Qed.

Lemma calm_try {A} (m : prog W A) : calm m -> calm (try m).
Proof. intros Hm w p. specialize (Hm w p). unfold try. destruct (m w) as [[]]; simpl in *; congruence. Qed.

Lemma calm_for_fold {A B} (l : list A) (body : B -> A -> prog W B) : (forall b x, calm (body b x)) -> forall b, calm (for_fold l b body).
Proof. intros Hb. induction l as [|x l IH]; intros b; simpl; [apply calm_ret|by apply calm_bind]. Qed.
End calm.

Ltac calm_go := repeat first
  [ solve [auto] | apply calm_ret | apply calm_fail | apply calm_wrap | apply calm_try
  | apply calm_for_fold; intros ? ? | apply calm_bind; [|intros ?]
  | match goal with |- calm (match ?x with _ => _ end) => destruct x end ].

(** * The run ends *)

Section ends.
Context {gq : GoQuote} {ss : SortSlice} {fc : FloatConversion}.
Context {W : Type} (h : Host W) (BackendName : string).

(** The calls return, with a value or an error. *)
Record Calm : Prop := {
  calm_StoreGraphRoot : calm (StoreGraphRoot h);
  calm_Images : forall f, calm (Images h f);
  calm_Containers : forall f, calm (Containers h f);
  calm_PruneImages : forall f, calm (PruneImages h f);
  calm_PruneVolumes : calm (PruneVolumes h);
  calm_Rm : forall i f, calm (Rm h i f);
  calm_Rmi : forall r f, calm (Rmi h r f);
  calm_Acquire : forall n, calm (Acquire h n);
  calm_Release : forall n, calm (Release h n);
  calm_Stat : forall p, calm (Stat h p);
  calm_GetVolumeUsageByPath : forall p, calm (GetVolumeUsageByPath h p);
  calm_GetWerfLastRunAtV1_1 : calm (GetWerfLastRunAtV1_1 h);
  calm_GetImageLastAccessTime : forall r, calm (GetImageLastAccessTime h r);
}.
Hypothesis Hc : Calm.

#[local] Hint Resolve calm_StoreGraphRoot calm_Images calm_Containers calm_PruneImages calm_PruneVolumes calm_Rm calm_Rmi
  calm_Acquire calm_Release calm_Stat calm_GetVolumeUsageByPath calm_GetWerfLastRunAtV1_1 calm_GetImageLastAccessTime : core.

Lemma calm_werfImages : calm (werfImages h BackendName).
Proof. unfold werfImages, werfImagesByLabels, werfImagesByLegacyLabels, werfImagesByLastRun, maxLastUsedAtForImage. calm_go. Qed.

Lemma calm_removeImage options img : calm (removeImage h options img).
Proof.
  unfold removeImage, removeImageByRepoTags, removeImageByRepoDigests, countFailed, removeRepoTag, failed, removeImageRef, isLocked.
  calm_go.
Qed.

(** Each pass takes an image at least: as many units of fuel as images left are enough. *)
Lemma calm_imagesLoop options images target : forall fuel i vu report,
  (0 <= i)%Z -> (Z.of_nat (length images) <= i + Z.of_nat fuel)%Z -> calm (imagesLoop h options fuel images i vu target report).
Proof.
  pose proof (calm_removeImage options). induction fuel as [|fuel IH]; intros i vu report Hi Hf; simpl.
  - destruct (Z.eqb_spec (countImagesToFree images i (BytesToFree vu target)) (-1)) as [E|E]; [apply calm_ret|].
    destruct E. apply countImagesToFree_stop; [done|]. right. lia.
  - set (n := countImagesToFree images i (BytesToFree vu target)).
    destruct (Z.eqb_spec n (-1)) as [E|E]; [apply calm_ret|].
    destruct (countImagesToFree_range images i (BytesToFree vu target) Hi) as [E'|E']; [by destruct E|]. fold n in E'.
    apply calm_bind; [unfold removeBatch; calm_go|]. intros deleted. apply calm_bind; [calm_go|]. intros vuAfter. apply IH; lia.
Qed.

(** The cleanup of a host always ends: where the calls return, so does the run, with a value or an
    error. *)
Theorem RunGC_ends options : calm (RunGC h BackendName options).
Proof.
  pose proof calm_werfImages. unfold RunGC, backendStoragePath.
  apply calm_bind; [calm_go|]. intros path. unfold collect.
  apply calm_bind; [calm_go|]. intros vu. case_match; [apply calm_ret|].
  apply calm_bind; [unfold pruneVolumes, handleError; calm_go|]. intros r1.
  apply calm_bind; [unfold pruneImages, handleError; calm_go|]. intros r2. case_match; [apply calm_ret|].
  apply calm_bind.
  { unfold cleanupWerfContainers, werfContainersByContainersOptions, cleanupContainer, failed, removeContainerRef, isLocked. calm_go. }
  intros r3. apply calm_bind; [|intros ?; apply calm_ret].
  apply calm_wrap. unfold cleanupWerfImages. apply calm_bind; [done|]. intros images. apply calm_imagesLoop; lia.
Qed.
End ends.

(** * The dry run *)

Section dryall.
Context {gq : GoQuote} {ss : SortSlice} {fc : FloatConversion}.
Context {W : Type} (h : Host W) (BackendName : string).
Variable options : RunGCOptions.
Hypothesis Hdry : DryRun options = true.

(** No lock is held, and the usage is what it is. *)
Variable vu : VolumeUsage.
Hypothesis Hvu : forall p w, (GetVolumeUsageByPath h p w).1 = Ok vu.
Hypothesis Hacq : forall n w, (Acquire h n w).1 = Ok true.
Hypothesis Hrel : forall n w, (Release h n w).1 = Ok tt.

Lemma wp_of_fst {A} (m : prog W A) (a : A) w : (forall w, (m w).1 = Ok a) -> wp m w (fun b _ => b = a).
Proof. intros H. specialize (H w). unfold wp. destruct (m w) as [[]]; naive_solver. Qed.

Lemma wp_isLocked n w : wp (isLocked h n) w (fun b _ => b = false).
Proof using Hacq Hrel.
  unfold isLocked. apply wp_bind. eapply wp_mono; [by apply wp_of_fst|]. intros ok w1 ->. simpl.
  apply wp_bind. eapply wp_mono; [by apply wp_of_fst|]. intros [] w2 _. by apply wp_ret.
Qed.

Lemma wp_removeImage_dry img w : RepoTags img <> [] \/ RepoDigests img <> [] -> wp (removeImage h options img) w (fun b _ => b = true).
Proof using Hacq Hrel Hdry.
  intros Hr. unfold removeImage.
  assert (forall l remove, (forall r w, wp (remove r) w (fun b _ => b = false)) -> l <> [] ->
    forall w, wp (n ← countFailed l remove; mret (bool_decide (n = 0) && (0 <? length l)) : prog W bool) w (fun b _ => b = true)) as Hcount.
  { intros l remove Hrem Hl w0. apply wp_bind. unfold countFailed. eapply wp_mono; [apply (wp_for_fold (fun _ n _ => n = 0))|]; [|done|].
    - intros dn x s w1 _ ->. apply wp_bind. eapply wp_mono; [apply Hrem|]. intros b w2 ->. by apply wp_ret.
    - intros n w1 ->. apply wp_ret. by destruct l. }
  assert (forall r w, wp (failed (removeImageRef h options r)) w (fun b _ => b = false)) as Href.
  { intros r w0. unfold removeImageRef. rewrite Hdry. done. }
  destruct (RepoTags img) eqn:E; simpl.
  - destruct (RepoDigests img) eqn:E'; simpl; [by destruct Hr|]. unfold removeImageByRepoDigests. rewrite E'. by apply Hcount.
  - unfold removeImageByRepoTags. rewrite E. apply Hcount; [|done]. intros r w0. unfold removeRepoTag. case_bool_decide; [done|].
    apply wp_bind, wp_wrap. eapply wp_mono; [apply wp_isLocked|]. intros b w1 ->. apply Href.
Qed.

Lemma wp_removeBatch_dry l deleted w : (forall img, img ∈ l -> RepoTags img <> [] \/ RepoDigests img <> []) ->
  wp (removeBatch h options l deleted) w (fun d _ => d = deleted ++ (ID <$> l)).
Proof using Hacq Hrel Hdry.
  intros Hl. unfold removeBatch. apply (wp_for_fold (fun dn d _ => d = deleted ++ (ID <$> dn))); [|by rewrite app_nil_r].
  intros dn img s w0 Hin ->. apply wp_bind. eapply wp_mono; [by apply wp_removeImage_dry, Hl|]. intros b w1 ->. apply wp_ret.
  by rewrite fmap_app, app_assoc.
Qed.

(** The batches are all the images. *)
Lemma wp_imagesLoop_dry images target : BytesToFree vu target <> 0%Z ->
  (forall img, img ∈ images -> RepoTags img <> [] \/ RepoDigests img <> []) ->
  forall fuel i report w, i <= length images -> length images <= i + fuel -> ItemsDeleted report = ID <$> take i images ->
  wp (imagesLoop h options fuel images (Z.of_nat i) vu target report) w (fun r _ => ItemsDeleted r = ID <$> images).
Proof using Hacq Hrel Hdry Hvu.
  intros Hb Himg. induction fuel as [|fuel IH]; intros i report w Hi Hf Hr; simpl.
  all: set (n := countImagesToFree images (Z.of_nat i) (BytesToFree vu target)).
  all: assert (n = (-1)%Z <-> length images <= i) as Hn
    by (unfold n; rewrite countImagesToFree_stop by lia; split; [intros [?|?]; [done|lia]|lia]).
  all: assert (length images <= i -> wp (mret (Normalize report) : prog W Report) w (fun r _ => ItemsDeleted r = ID <$> images)) as Hend.
  1,3: intros Hle; apply wp_ret; rewrite take_ge in Hr by lia; unfold Normalize; destruct (ItemsDeleted report) eqn:E; [by simpl|by rewrite E].
  - destruct (Z.eqb_spec n (-1)) as [E|E]; [by apply Hend, Hn|]. destruct E. apply Hn. lia.
  - destruct (Z.eqb_spec n (-1)) as [E|E]; [by apply Hend, Hn|].
    destruct (countImagesToFree_range images (Z.of_nat i) (BytesToFree vu target) ltac:(lia)) as [E'|E']; [by destruct E|]. fold n in E'.
    apply wp_bind. set (k := Z.to_nat (n + 1 - Z.of_nat i)). rewrite Nat2Z.id. eapply wp_mono; [apply wp_removeBatch_dry|].
    { intros img Hin. apply Himg. rewrite <-(take_drop i images). apply elem_of_app. right.
      rewrite <-(take_drop k (drop i images)). apply elem_of_app. by left. }
    intros d w1 ->. apply wp_bind, wp_wrap. eapply wp_mono; [by apply wp_of_fst|]. intros vu' w2 ->.
    replace (n + 1)%Z with (Z.of_nat (i + k)) by lia. apply IH; [lia|lia|]. simpl.
    rewrite Hr, <-fmap_app, take_take_drop. done.
Qed.

(** A dry run tells of every image of werf, and not of those that a run would remove: where any byte is
    to be freed it lists all of them, since nothing is removed and the usage never falls. *)
Theorem cleanup_dry_run_lists_all images target w :
  BytesToFree vu target <> 0%Z ->
  (forall w, (werfImages h BackendName w).1 = Ok images) ->
  (forall img, img ∈ images -> RepoTags img <> [] \/ RepoDigests img <> []) ->
  wp (cleanupWerfImages h BackendName options vu target) w (fun r _ => ItemsDeleted r = ID <$> images).
Proof using Hacq Hrel Hdry Hvu.
  intros Hb Hi Himg. unfold cleanupWerfImages. apply wp_bind. eapply wp_mono; [by apply wp_of_fst|]. intros l w1 ->.
  apply (wp_imagesLoop_dry images target Hb Himg _ 0); [lia|lia|done].
Qed.
End dryall.

(** * Which images are removed *)

Section prefix.
Context {gq : GoQuote} {ss : SortSlice} {fc : FloatConversion}.
Context {W : Type} (h : Host W) (BackendName : string).

(** The usage of the volume and the cache of accesses, that reading leaves alone. *)
Variable usage : W -> VolumeUsage.
Hypothesis Husage : forall p w, GetVolumeUsageByPath h p w = (Ok (usage w), w).
Variable access : string -> Z.
Hypothesis Haccess : forall r w, (GetImageLastAccessTime h r w).1 = Ok (access r).

(** When an image was last used: the last access to a tag of it, not before it was created. *)
Definition lastUsed (img : Summary) : Z := foldl (fun t r => Z.max t (access r)) (Created img) (RepoTags img).

Lemma maxLastUsedAtForImage_spec img w : wlp (maxLastUsedAtForImage h img) w (fun t _ => t = lastUsed img).
Proof using Haccess Husage.
  unfold maxLastUsedAtForImage, lastUsed.
  apply (wlp_for_fold (fun dn t _ => t = foldl (fun t r => Z.max t (access r)) (Created img) dn)); [|done].
  intros dn r t w0 _ ->. apply wlp_bind, wlp_wrap, wlp_alt. intros t' w1 E. specialize (Haccess r w0). rewrite E in Haccess. simplify_eq/=.
  apply wlp_ret. rewrite foldl_app. simpl. destruct (Z.ltb_spec (foldl (fun t r => Z.max t (access r)) (Created img) dn) (access r)); lia.
Qed.

Lemma lastUsedAtMap_spec images w : (forall a b, a ∈ images -> b ∈ images -> ID a = ID b -> a = b) ->
  wlp (for_fold images (∅ : gmap string Z) (fun m img =>
    t ← wrap "unable to max last used at for image: %w" [] (maxLastUsedAtForImage h img); mret (<[ID img := t]> m))) w
    (fun m _ => forall img, img ∈ images -> lastUsedAt m img = lastUsed img).
Proof using Haccess Husage.
  intros Hid. eapply wlp_mono; [apply (wlp_for_fold (fun dn m _ =>
    dn ⊆ images /\ forall img, img ∈ dn -> lastUsedAt m img = lastUsed img))|]; [|split; intros ? ?; set_solver|].
  - intros dn x m' w' Hx [Hs Hd]. apply wlp_bind, wlp_wrap. eapply wlp_mono; [apply maxLastUsedAtForImage_spec|]. intros t w4 ->.
    apply wlp_ret. split; [set_solver|]. intros img Hin. unfold lastUsedAt. destruct (decide (ID x = ID img)) as [Ei|Ei].
    + rewrite Ei, lookup_insert_eq. simpl. rewrite (Hid x img); [done|done|set_solver|done].
    + rewrite lookup_insert_ne by done. apply Hd. apply elem_of_app in Hin as [Hin|Hin]; [done|]. set_solver.
  - intros m' w' [_ H]. exact H.
Qed.

Lemma StronglySorted_impl {A} (P Q : A -> A -> Prop) l :
  (forall x y, x ∈ l -> y ∈ l -> P x y -> Q x y) -> StronglySorted P l -> StronglySorted Q l.
Proof using Type.
  intros HPQ Hs. induction Hs as [|x l Hs IH Hx]; [by constructor|].
  constructor; [apply IH; intros a b Ha Hb; apply HPQ; by right|].
  apply Forall_forall. intros y Hy. rewrite Forall_forall in Hx. apply HPQ; [by left|by right|auto].
Qed.

(** The images are in the order of their last use, where an id is that of one image. *)
Lemma werfImages_lru w :
  (forall f1 f2 w1 w2 l1 l2 w1' w2' a b, Images h f1 w1 = (Ok l1, w1') -> Images h f2 w2 = (Ok l2, w2') ->
     a ∈ l1 -> b ∈ l2 -> ID a = ID b -> a = b) ->
  wlp (werfImages h BackendName) w (fun l _ => StronglySorted (fun a b => (lastUsed a <= lastUsed b)%Z) l).
Proof using Haccess Husage.
  intros Hid. pose proof (werfImages_listed h BackendName w) as Hl. apply wlp_alt. intros images w' E.
  unfold wlp in Hl. rewrite E in Hl. unfold werfImages in E.
  apply bind_Ok in E as (l0 & w0 & _ & E). apply bind_Ok in E as (l1 & w1 & _ & E). apply bind_Ok in E as (l2 & w2 & _ & E).
  apply bind_Ok in E as (m & w3 & Em & E). injection E as <- <-. setoid_rewrite sort_perm in Hl.
  pose proof (lastUsedAtMap_spec (l0 ++ l1 ++ l2) w2) as Hm. unfold wlp in Hm. rewrite Em in Hm.
  assert (forall img, img ∈ l0 ++ l1 ++ l2 -> lastUsedAt m img = lastUsed img) as Hm'.
  { apply Hm. intros a b Ha Hb Hab. destruct (Hl a Ha) as (f1 & ? & ? & ? & E1 & Ha'), (Hl b Hb) as (f2 & ? & ? & ? & E2 & Hb').
    exact (Hid _ _ _ _ _ _ _ _ _ _ E1 E2 Ha' Hb' Hab). }
  eapply StronglySorted_impl; [|apply sort_sorted]; simpl.
  2,3: repeat setoid_rewrite Z.ltb_ge; try setoid_rewrite Z.ltb_lt; lia.
  intros x y. rewrite !sort_perm. intros Hx Hy Hxy%Z.ltb_ge. by rewrite !Hm' in Hxy.
Qed.

Lemma removeBatch_app options l1 l2 d w d1 w1 : removeBatch h options l1 d w = (Ok d1, w1) ->
  removeBatch h options (l1 ++ l2) d w = removeBatch h options l2 d1 w1.
Proof using Type.
  unfold removeBatch. revert d w. induction l1 as [|x l1 IH]; intros d w E; simpl in *; [by injection E as -> ->|].
  apply bind_Ok in E as (d' & w' & E1 & E2). unfold mbind at 1, prog_bind at 1. rewrite E1. by apply IH.
Qed.

Lemma Normalize_items r : ItemsDeleted (Normalize r) = ItemsDeleted r.
Proof using Type. unfold Normalize. by destruct (ItemsDeleted r) eqn:E. Qed.

(** The first [n] of the images left are the fewest whose sizes reach the bytes to free, or all that
    are left, where the sizes of the images are not negative and their sum fits 64 bits. *)
Definition fewest (images left : list Summary) (n : nat) (bytes : Z) : Prop :=
  (forall img, img ∈ images -> 0 <= Size img)%Z -> (sizes images < 2 ^ 64)%Z ->
  ((bytes <= sizes (take n left))%Z \/ n = length left) /\
  forall m, m < n -> (sizes (take m left) < bytes)%Z.

(** The passes take [ns] images each from index [i] on: before a pass the usage, which is [vu] at first and
    is read after each pass, leaves bytes to free, and the pass takes the fewest images that reach them. *)
Definition passes options target (images : list Summary) (i : nat) (vu : VolumeUsage) (deleted : list string) (w : W)
  (ns : list nat) : Prop :=
  forall before n after, ns = before ++ n :: after -> exists d w',
    removeBatch h options (take (sum_list before) (drop i images)) deleted w = (Ok d, w') /\
    let bytes := BytesToFree (match before with [] => vu | _ => usage w' end) target in
    bytes <> 0%Z /\ 0 < n /\ fewest images (drop (i + sum_list before) images) n bytes.

Lemma count_fewest images i bytes n : (0 <= bytes)%Z -> countImagesToFree images (Z.of_nat i) bytes = n -> n <> (-1)%Z ->
  i < length images -> fewest images (drop i images) (Z.to_nat (n + 1 - Z.of_nat i)) bytes.
Proof using Type.
  intros Hb <- Hn Hi Hs Ht. destruct (decide (bytes = 0%Z)) as [->|Hne]; [by destruct Hn|].
  destruct (countImagesToFree_spec images i bytes Hs Ht Hi ltac:(lia)) as (n & -> & Hr & He & Hm).
  replace (Z.to_nat (Z.of_nat n + 1 - Z.of_nat i)) with (S n - i) by lia. rewrite length_drop. split.
  - destruct He as [He|He]; [by left|right; lia].
  - intros [|m] Hlt; [simpl; lia|]. replace (S m) with (S (m + i) - i) by lia. apply Hm. lia.
Qed.

(** The loop removes images one by one from the front of the list, until the usage that it last read is low
    enough or none is left. *)
Lemma imagesLoop_prefix options images target : forall fuel i vu report w, i <= length images ->
  wlp (imagesLoop h options fuel images (Z.of_nat i) vu target report) w (fun r w' => exists ns,
    passes options target images i vu (ItemsDeleted report) w ns /\ i + sum_list ns <= length images /\
    removeBatch h options (take (sum_list ns) (drop i images)) (ItemsDeleted report) w = (Ok (ItemsDeleted r), w') /\
    (i + sum_list ns = length images \/ BytesToFree (match ns with [] => vu | _ => usage w' end) target = 0%Z)).
Proof using Husage.
  induction fuel as [|fuel IH]; intros i vu report w Hi; simpl.
  all: set (n := countImagesToFree images (Z.of_nat i) (BytesToFree vu target)).
  all: destruct (Z.eqb_spec n (-1)) as [E|E]; [|try exact I].
  1,2: apply wlp_ret; exists []; apply countImagesToFree_stop in E; [|lia]; rewrite Normalize_items;
    split; [intros [|? ?] ? ? ?; done|]; split; [simpl; lia|]; split; [done|]; destruct E as [E|E]; [by right|left; simpl; lia].
  assert (BytesToFree vu target <> 0%Z) as Hne by (intros Hz; apply E, countImagesToFree_stop; [lia|by left]).
  destruct (countImagesToFree_range images (Z.of_nat i) (BytesToFree vu target) ltac:(lia)) as [E'|E']; [by destruct E|]. fold n in E'.
  pose proof (count_fewest images i (BytesToFree vu target) n (proj1 (to_uint64_range _)) eq_refl E ltac:(lia)) as Hfew.
  apply wlp_bind, wlp_alt. intros d w1 E1. set (k := Z.to_nat (n + 1 - Z.of_nat i)) in *. rewrite Nat2Z.id in E1.
  apply wlp_bind, wlp_wrap, wlp_alt. intros vu' w2 E2. rewrite Husage in E2. injection E2 as <- <-.
  replace (n + 1)%Z with (Z.of_nat (i + k)) by lia. eapply wlp_mono; [apply IH; lia|].
  intros r w' (ns & Hp & Hk & Hb & He). exists (k :: ns). simpl. split; [|split; [lia|split]].
  - intros [|k0 before] n0 after Hs; simplify_eq/=.
    + exists (ItemsDeleted report), w. split; [done|]. rewrite Nat.add_0_r. split; [done|]. split; [lia|done].
    + destruct (Hp before n0 after eq_refl) as (d' & w3 & Hd & Hx & Hn & Hf). simpl in Hd. exists d', w3. split.
      * rewrite <-take_take_drop, drop_drop. by erewrite removeBatch_app.
      * rewrite Nat.add_assoc. destruct before; [|done]. unfold removeBatch in Hd. simpl in Hd. by injection Hd as _ <-.
  - rewrite <-take_take_drop, drop_drop. by erewrite removeBatch_app.
  - destruct He as [He|He]; [left; lia|right]. destruct ns; [|done].
    simpl in Hb. unfold removeBatch in Hb. simpl in Hb. by injection Hb as _ <-.
Qed.

(** C23: the cleanup removes images in the order of their last use, each as the one-by-one removal does, in
    passes, and stops as soon as enough is freed: a pass is begun only where the usage that was last read
    leaves bytes to free, and takes the fewest of the next images whose sizes reach them, or all that are
    left (where the sizes are not negative and their sum fits 64 bits); and no pass follows only where the
    usage read last leaves nothing to free, or no image is left. This is for a run without an error, with
    times of access that do not change, a reading of the usage that changes nothing, and listings in which
    an id is that of one image. *)
Theorem cleanup_removes_least_recent options vu target w :
  (forall f1 f2 w1 w2 l1 l2 w1' w2' a b, Images h f1 w1 = (Ok l1, w1') -> Images h f2 w2 = (Ok l2, w2') ->
     a ∈ l1 -> b ∈ l2 -> ID a = ID b -> a = b) ->
  wlp (cleanupWerfImages h BackendName options vu target) w (fun report w' => exists images w1 ns,
    werfImages h BackendName w = (Ok images, w1) /\
    StronglySorted (fun a b => (lastUsed a <= lastUsed b)%Z) images /\ sum_list ns <= length images /\
    removeBatch h options (take (sum_list ns) images) [] w1 = (Ok (ItemsDeleted report), w') /\
    passes options target images 0 vu [] w1 ns /\
    (sum_list ns = length images \/ BytesToFree (match ns with [] => vu | _ => usage w' end) target = 0%Z)).
Proof using Haccess Husage.
  intros Hid. unfold cleanupWerfImages. apply wlp_bind, wlp_alt. intros images w1 E.
  pose proof (werfImages_lru w Hid) as Hs. unfold wlp in Hs. rewrite E in Hs.
  eapply wlp_mono; [apply (imagesLoop_prefix options images target _ 0); lia|].
  intros r w' (ns & Hp & Hk & Hb & He). by exists images, w1, ns.
Qed.
End prefix.
End HostCleaningRuns.

Import VolumeUtils HostCleaning HostCleaningProps HostCleaningRuns.

(** A small host, with a few images and containers of which another process holds some. *)
Module HostCleaningExamples.

#[local] Existing Instance GitRefsExamples.stable_sort.
#[local] Instance quote : GoQuote := fun s => s.
#[local] Instance to_zero : FloatConversion := fun _ => 0%Z.

(** ** The host *)

(** The tags of images and the ids of containers that are there. *)
Record Box := mkBox { tags : list string; ids : list string }.

Definition tagged (id tag : string) (created : Z) : Summary := mkSummary id [tag] [] created 300.

Definition all_images : list Summary :=
  [tagged "i3" "app:new" 3; tagged "i2" "app:locked" 2; tagged "i1" "app:old" 1].

Definition all_containers : list Container :=
  [mkContainer "c1" "i1" ["/werf.build.1"]; mkContainer "c2" "i2" ["/werf.build.locked"]; mkContainer "c3" "i3" ["/other"]].

Definition present (b : Box) (img : Summary) : Prop := exists t, t ∈ RepoTags img /\ t ∈ tags b.
#[local] Instance present_dec b img : Decision (present b img).
Proof.
  refine (cast_if (decide (Exists (fun t => t ∈ tags b) (RepoTags img)))); abstract (unfold present; by rewrite <-Exists_exists).
Defined.

(** Each image takes 300 bytes of the 1000 of the disk. *)
Definition used (b : Box) : VolumeUsage := mkVolumeUsage (300 * Z.of_nat (length (tags b))) 1000.

Definition box : Host Box := {|
  StoreGraphRoot := mret "/var/lib/docker";
  Images f b := (Ok (if decide (f = [DanglingFalse; ("label", WerfLabel)]) then filter (present b) all_images else []), b);
  Containers f b := (Ok (filter (fun c => cnt_ID c ∈ ids b) all_containers), b);
  PruneImages f := mret noReport;
  PruneVolumes := mret noReport;
  Rm i f b := (Ok tt, mkBox (tags b) (filter (fun x => x <> i) (ids b)));
  Rmi r f b := (Ok tt, mkBox (filter (fun x => x <> r) (tags b)) (ids b));
  RemoveHostDirs _ _ := mret tt;
  Acquire n := mret (bool_decide (n ∉ ["image.app:locked"; "container.werf.build.locked"]));
  Release n := mret tt;
  Stat p := mret tt;
  GetVolumeUsageByPath p b := (Ok (used b), b);
  GetWerfLastRunAtV1_1 := mret 1%Z;
  GetImageLastAccessTime r := mret 0%Z;
  Now := mret 0%Z;
  StapelPurge := mret tt;
  TmpPurge d := mret tt;
|}.

Definition at_first : Box := mkBox ["app:old"; "app:locked"; "app:new"] ["c1"; "c2"; "c3"].
Definition fifty : RunGCOptions := mkRunGCOptions (Float64.of_int 50) (Float64.of_int 10) "" true false.
Definition fifty_dry : RunGCOptions := mkRunGCOptions (Float64.of_int 50) (Float64.of_int 10) "" true true.

(** The two images that are not in use go, and the one container of a build that has ended. *)
Example run_box : RunGC box "docker" fifty at_first = (Ok tt, mkBox ["app:locked"] ["c2"; "c3"]).
Proof. vm_compute. reflexivity. Qed.

(** With only the oldest image to remove, no other goes. *)
Example run_enough :
  RunGC box "docker" (mkRunGCOptions (Float64.of_int 70) (Float64.of_int 5) "" true false)
    (mkBox ["app:old"; "app:new"; "x"] []) = (Ok tt, mkBox ["app:new"; "x"] []).
Proof. vm_compute. reflexivity. Qed.

(** The report of a dry run tells of both images, though removing one would do. *)
Example dry_run_report :
  (cleanupWerfImages box "docker" fifty_dry (mkVolumeUsage 600 1000) (Float64.of_int 50) (mkBox ["app:old"; "app:new"] [])).1 =
    Ok (mkReport ["i1"; "i3"] 0) /\
  (cleanupWerfImages box "docker" fifty (mkVolumeUsage 600 1000) (Float64.of_int 50) (mkBox ["app:old"; "app:new"] [])).1 =
    Ok (mkReport ["i1"] 300).
Proof. vm_compute. done. Qed.

(** Where pruning reports more bytes than the disk has in use, the difference wraps around, and the host
    is taken to be nearly full of images to remove. *)
Example reclaim_wraps :
  reclaim (mkVolumeUsage 600 1000) (mkReport [] 700) = mkVolumeUsage (2 ^ 64 - 100) 1000.
Proof. vm_compute. reflexivity. Qed.

(** ** The hypotheses can hold *)

Lemma countImagesToFree_spec_witness :
  exists n, countImagesToFree all_images (Z.of_nat 1) 200 = Z.of_nat n /\ 1 <= n < 3 /\
    ((200 <= sizes (take (S n - 1) (drop 1 all_images)))%Z \/ S n = 3) /\
    forall m, 1 <= m < n -> (sizes (take (S m - 1) (drop 1 all_images)) < 200)%Z.
Proof.
  apply (countImagesToFree_spec all_images 1 200); [|vm_compute; reflexivity|simpl; lia|lia].
  intros img Hin. assert (Forall (fun i => 0 <= Size i)%Z all_images) as H by (repeat constructor; simpl; lia).
  rewrite Forall_forall in H. auto.
Defined.

(** No tag and no container is lost. *)
Definition same (b b' : Box) : Prop := b = b'.
#[local] Instance same_pre : PreOrder same.
Proof. split; [done|]. unfold same. by intros ??? -> ->. Qed.

Lemma box_quiet (R : Box -> Box -> Prop) `{!PreOrder R} : Quiet box R.
Proof. split; intros; intros w; simpl; reflexivity. Qed.

Lemma RunGC_dry_run_witness : at_first = (RunGC box "docker" fifty_dry at_first).2.
Proof. apply (RunGC_dry_run box "docker" same fifty_dry); [apply box_quiet, _|reflexivity]. Defined.

Lemma HostPurge_dry_run_witness : at_first = (HostPurge box "/root/.werf" ["service"] true true at_first).2.
Proof. apply (HostPurge_dry_run box same); [apply box_quiet, _|]. by intros w. Defined.

(** The tag and the container in use stay. *)
Definition keeping (b b' : Box) : Prop :=
  ("app:locked" ∈ tags b -> "app:locked" ∈ tags b') /\ ("c2" ∈ ids b -> "c2" ∈ ids b').
#[local] Instance keeping_pre : PreOrder keeping.
Proof. split; [done|]. unfold keeping. intros ??? [] []. auto. Qed.

Lemma RunGC_keeps_locked_witness : keeping at_first (RunGC box "docker" fifty at_first).2.
Proof.
  apply (RunGC_keeps_locked box "docker" keeping fifty "app:locked" "c2").
  - apply box_quiet, _.
  - intros w. vm_compute. done.
  - done.
  - intros f w l w' img E Hin Ht. simplify_eq/=. destruct (decide _) in Hin; [|by apply not_elem_of_nil in Hin].
    apply list_elem_of_filter in Hin as [(t & Hin & _) _]. rewrite Ht in Hin. by apply not_elem_of_nil in Hin.
  - intros f w l w' c E Hin Hid _. simplify_eq/=. apply list_elem_of_filter in Hin as [_ Hin].
    unfold all_containers in Hin. rewrite !elem_of_cons in Hin. destruct Hin as [->|[->|[->|Hin]]]; [done| |done|by apply not_elem_of_nil in Hin].
    intros w0. vm_compute. done.
  - intros r f Hr w. split; simpl; [|done]. intros Hin. by apply list_elem_of_filter.
  - intros i f Hi w. split; simpl; [done|]. intros Hin. by apply list_elem_of_filter.
  - intros f w. reflexivity.
  - intros w. reflexivity.
Defined.

Lemma RunGC_ends_witness : calm (RunGC box "docker" fifty).
Proof. apply RunGC_ends. split; intros; intros ? ?; simpl; done. Defined.

Lemma cleanup_dry_run_lists_all_witness :
  let images := [tagged "i1" "app:old" 1; tagged "i3" "app:new" 3] in
  let h := mkHost Box (StoreGraphRoot box)
    (fun f b => (Ok (if decide (f = [DanglingFalse; ("label", WerfLabel)]) then images else []), b))
    (Containers box) (PruneImages box) (PruneVolumes box) (Rm box) (Rmi box) (RemoveHostDirs box)
    (fun n => mret true) (Release box) (Stat box) (fun p b => (Ok (mkVolumeUsage 600 1000), b))
    (GetWerfLastRunAtV1_1 box) (GetImageLastAccessTime box) (Now box) (StapelPurge box) (TmpPurge box) in
  wp (cleanupWerfImages h "docker" fifty_dry (mkVolumeUsage 600 1000) (Float64.of_int 50)) at_first
    (fun r _ => ItemsDeleted r = ["i1"; "i3"]).
Proof.
  intros images h.
  apply (cleanup_dry_run_lists_all h "docker" fifty_dry eq_refl (mkVolumeUsage 600 1000)
    (fun _ _ => eq_refl) (fun _ _ => eq_refl) (fun _ _ => eq_refl) images (Float64.of_int 50)).
  - vm_compute. done.
  - intros w. vm_compute. reflexivity.
  - intros img Hin. left. unfold images in Hin. rewrite !elem_of_cons in Hin.
    destruct Hin as [->|[->|Hin]]; [done|done|by apply not_elem_of_nil in Hin].
Defined.

Lemma cleanup_removes_least_recent_witness :
  wlp (cleanupWerfImages box "docker" fifty (used at_first) (Float64.of_int 40)) at_first (fun report w' => exists images w1 ns,
    werfImages box "docker" at_first = (Ok images, w1) /\
    StronglySorted (fun a b => (lastUsed (fun _ => 0) a <= lastUsed (fun _ => 0) b)%Z) images /\ sum_list ns <= length images /\
    removeBatch box fifty (take (sum_list ns) images) [] w1 = (Ok (ItemsDeleted report), w') /\
    passes box used fifty (Float64.of_int 40) images 0 (used at_first) [] w1 ns /\
    (sum_list ns = length images \/ BytesToFree (match ns with [] => used at_first | _ => used w' end) (Float64.of_int 40) = 0%Z)).
Proof.
  apply (cleanup_removes_least_recent box "docker" used (fun _ _ => eq_refl) (fun _ => 0%Z) (fun _ _ => eq_refl)).
  assert (forall f w l w' a, Images box f w = (Ok l, w') -> a ∈ l -> a ∈ all_images) as Hall.
  { intros f w l w' a E Hin. simplify_eq/=. destruct (decide _) in Hin; [|by apply not_elem_of_nil in Hin].
    by apply list_elem_of_filter in Hin as [_ Hin]. }
  intros f1 f2 w1 w2 l1 l2 w1' w2' a b E1 E2 Ha Hb. specialize (Hall f1 w1 l1 w1' a E1 Ha) as Ha'. specialize (Hall f2 w2 l2 w2' b E2 Hb) as Hb'.
  unfold all_images in *. rewrite !elem_of_cons in Ha', Hb'.
  destruct Ha' as [->|[->|[->|Ha']]], Hb' as [->|[->|[->|Hb']]];
    try (by apply not_elem_of_nil in Ha'); try (by apply not_elem_of_nil in Hb'); done.
Defined.
End HostCleaningExamples.
